(* ===== verification/_CoqProject ===== *)
-Q . S2P
Prelude.v
ChainParams.v
Sha256.v
Sha1.v
Wire.v
Encode.v
MuHash.v
Commitment.v
Script.v
ScriptNum.v
Standard.v
SigHash.v
Signature.v
Taproot.v
Engine.v
Opcodes.v
EngineExec.v
EngineSpec.v
EngineStep.v
EngineInv.v
EngineCache.v
EngineRun.v
EngineNested.v
EngineUnspendable.v
Block.v
Compress.v
Bucket.v
IndexDB.v
Ledger.v
UtxoView.v
WorkMath.v
ChainIO.v
ChainStore.v
BlockNode.v
Difficulty.v
Threshold.v
SizeHelper.v
UtxoCache.v
ChainView.v
ExpiryIndex.v
IndexRefine.v
IndexRebuild.v
IndexQuery.v
IndexProps.v
IndexTools.v
Text.v
ReapRules.v
Reap.v
Template.v
ReapAgree.v
ReapProps.v
ReapScan.v
Merkle.v
Genesis.v
ChainState.v
BlockSanity.v
ChainInv.v
ChainVerify.v
ChainProps.v
BlockContext.v
CheckConnect.v
ConnectProps.v
SpendProps.v
ContextProps.v
DoubleSpend.v
Supply.v
