(* ===== verification/Prelude.v ===== *)
(** * obtcd: a verification library for the OBTC full node

    obtcd is btcd with one more consensus rule: a coin that has not moved for a
    window of blocks expires, and once expired only a REAP transaction may spend
    it. A REAP transaction carries no signatures; it returns each coin to its own
    script minus a tax. The library models the code that makes this rule work
    and the parts of btcd it stands on, from the bytes up.

    ** The program and how its parts interact

    - The chain keeps a tree of block headers (src/blockchain/blockindex.go), a
      view of the branch with the most work (chainview.go), and the coins of that
      branch: a database of compressed coins and spend journals (chainio.go,
      compress.go) under a write-back cache (utxocache.go). A new block extends
      the branch or makes the chain reorganise (chain.go).
    - A block passes checks of its own (sanity: proof of work, Merkle root,
      transactions, validate.go), checks against its parents (context: difficulty.go,
      median time, checkpoints.go, the deployments of thresholdstate.go and
      versionbits.go), and checks against the coins (checkConnectBlock of
      validate.go with utxoviewpoint.go and scriptval.go, and the REAP rules of
      validation_reap.go). The last run the script of every spent coin.
    - The script engine (src/txscript) runs signature script, output script and
      witness of an input. Signatures are over a digest of the transaction
      (sighash.go) that after the fork has a domain of its own, so that they are
      not valid on Bitcoin, and are kept in a cache (sigcache.go).
    - The expiry index (src/blockchain/expiryindex) is updated inside the same
      database transaction. It keeps, for every live coin, the height at which
      it expires, in buckets sorted for scanning, and a multiset hash of all its
      entries, which the coinbase of the next block must commit to. It is rebuilt
      from the UTXO set or block by block when a node starts behind.
    - The miner (src/mining/reap, src/mining/template_reap.go) reads the expired
      coins from the index and builds the block's REAP transaction.
    - The consensus rules read the same index (the global prefix rule) to force
      miners to take the oldest coins first.

    ** Files

    - Prelude.v: fixed-width integers, the [result] monad, byte strings, tactics
      ([widths], [bytes_auto], [result_simpl]) and hint databases.
    - ChainParams.v: src/chaincfg/params_obtc.go, the fields of
      src/chaincfg/params.go it shares, src/blockchain/expiryindex/params.go.
    - Sha256.v: SHA-256 as the standard library computes it, [DoubleHashB].
    - Wire.v, Block.v: src/wire/msgtx.go, common.go, blockheader.go;
      [GetTransactionWeight], [IsCoinBaseTx].
    - Script.v: src/txscript tokenizer, opcode lengths, script builder.
    - Sha1.v, ScriptNum.v, Standard.v: SHA-1 for its opcode, scriptnum.go and
      stack.go, standard.go and script.go.
    - SigHash.v, Signature.v, Taproot.v: sighash.go and hashcache.go; DER and Schnorr
      signatures (src/btcec) and sigcache.go; taproot.go.
    - Engine.v, Opcodes.v, EngineExec.v: the state of engine.go and the verifiers of
      sigvalidate.go; opcode.go; NewEngine, Step, Execute and witness programs.
      EngineSpec.v, EngineInv.v, EngineStep.v, EngineRun.v, EngineCache.v,
      EngineUnspendable.v, EngineNested.v: the proofs about the engine.
    - Encode.v, MuHash.v, Commitment.v, IndexDB.v: the files encode.go, muhash.go,
      commitment.go, buckets.go and accumulator.go of the index.
    - Ledger.v: the abstract specification, a finite map of coins that blocks
      change; what a block does to it and how it is undone.
    - UtxoView.v: src/blockchain/utxoviewpoint.go, and that it follows the ledger.
    - Compress.v, Bucket.v, ChainIO.v, ChainStore.v: src/blockchain/compress.go,
      chainio.go and utxo_iter.go, the buckets they write to, and that the stored
      set is the ledger.
    - SizeHelper.v, UtxoCache.v: sizehelper.go, the cache of utxocache.go and the
      fetching of views through it; cache and database together are the ledger.
    - WorkMath.v, BlockNode.v, Difficulty.v, ChainView.v: compact targets and
      work, blockindex.go, difficulty.go, chainview.go and the locators.
    - Threshold.v: thresholdstate.go, versionbits.go and the deployment times of
      src/chaincfg/deployment_time_frame.go, with BIP 9 as their specification.
    - Merkle.v, Genesis.v: merkle.go and rolling_merkle.go; the genesis blocks of
      src/chaincfg/genesis.go.
    - ChainState.v: chain.go, the index manager and the crash recovery of
      utxocache.go, over all of the above. ChainInv.v: the invariant that ties
      tree, view, database, cache, journals and index together. ChainVerify.v: the
      dry run of a reorganisation. ChainProps.v: the properties, the expiry index
      as an instance of the index interface, a small chain.
    - BlockSanity.v, BlockContext.v, CheckConnect.v: validate.go in the order a block
      meets it, with weight.go, checkpoints.go, the sequence locks of chain.go and
      the script validation of scriptval.go. ContextProps.v: what a header and its
      relative lock times are held to. ConnectProps.v: checkConnectBlock follows the
      ledger and discharges the class the chain asks for. SpendProps.v: what an
      accepted block does with the coins. DoubleSpend.v: the block it should refuse.
      Supply.v: chains of accepted blocks and their money.
    - ExpiryIndex.v: expiryindex.go, reindex.go and shadow.go.
    - IndexRefine.v, IndexRebuild.v, IndexQuery.v, IndexProps.v, IndexTools.v: the
      proofs about the index: it refines the ledger, its rebuilds agree with
      following the chain, its scans return what they say; start-up, the shadow
      build and statistics; the properties and their witnesses.
    - Text.v: strconv, strings and encoding/hex as far as the marker uses them.
    - ReapRules.v: src/blockchain/validation_reap.go, [CheckTransactionInputs],
      [ValidateTransactionScripts] and [checkBlockScripts].
    - Reap.v, Template.v: src/mining/reap and src/mining/template_reap.go.
    - ReapAgree.v, ReapProps.v, ReapScan.v: the proofs about REAP: what the miner
      builds the network accepts, what the rules guarantee, what a scan finds.

    ** How code becomes definitions

    A definition has the name of its source. Integers are [Z] with the wrap of
    their Go type written where the source can leave it; byte slices are [list Z].
    A function that returns an error returns a [result]; a panic is an error
    value too ([RuntimePanic], or [None] where the only failure is a panic).
    Mutated structures (buckets, views, caches, the chain) are passed and
    returned; an operation of the chain returns the state it leaves behind also
    when it fails, since only the database is rolled back. Bodies of long loops have a definition of their own, named after
    what they do to one element. Logging, locks, transaction ids cached in their
    objects and progress output are left out. The goroutines that validate the
    scripts of a block are the sequence of their items. The checks of a block read
    the deployment caches and do not return them: what they answer does not depend
    on what is cached (Threshold.v).

    A bucket of the database is a finite map with a sorted cursor, as documented
    in src/database/interface.go. In the REAP rules the script engine is a parameter
    ([runScript]) without hypotheses; CheckConnect.v runs the engine itself. The
    curve secp256k1 and RIPEMD-160 are third-party modules: the classes [Secp256k1]
    and [Ripemd160], with laws about encodings and lengths only, where a theorem
    needs them. [MapPick] is the entry a Go map gives first when the signature cache
    evicts. The chain that the index
    reads while it rebuilds is the record [ChainAccessor], and the chain the
    miner reads is the function [FetchUtxoView] of [BlkTmplGenerator]; theorems
    say what they ask of them ([chain_run], [generator_ok]), and their witnesses
    instantiate them with concrete chains. Parsing of public keys, a third-party
    module, is the class [KeyCodec] with the law [RecoversKeys]. The chain uses an
    index through the class [Indexer] with the laws [IndexerLaws], which the
    expiry index satisfies ([expiryLaws]). [fetchBlock] reads the block files,
    [pruneBlocks] is what the driver prunes. The chain in turn takes the validation
    of a block on a view as an argument: the class [ChecksBlocks] asks that it reads
    through the cache and that a view it accepts shows the ledger after the block,
    and [checkConnectBlock_checks] is its instance for the code. Nothing is assumed
    about SHA-256: it computes. MuHash elements are asked to be invertible modulo the MuHash
    modulus, a computable condition that fails only for multiples of a factor of
    the modulus, in the place of assuming the modulus prime ([invertible]).

    ** What the theorems show

    - Bytes: transactions and headers decode to what was encoded, the size
      functions are exact, the tokenizer accepts exactly the sequences of tokens,
      and the keys of the index are bijective encodings whose byte order is the
      order consensus uses.
    - Accumulator: the digest depends on the multiset only and survives storage.
    - Ledger refinement: connecting a block takes the index of the ledger before
      to the index of the ledger after, disconnecting restores the very bytes,
      every way of building the index gives the same index, a failed rebuild
      leaves it empty; the UTXO view follows the same ledger.
    - Storage: what is written to the coin and journal buckets reads back, the
      iteration visits every stored coin, a block is undone from its journal; the
      cache and the database under it answer as the ledger does, before and after
      any flush.
    - Chain: skip pointers and the chain view are the branch they stand for, a
      locator finds a common block, the median time never goes back, every
      difficulty rule gives a target within the limit and ASERT is monotone; the
      branch with the most work wins and view, database, cache, journals and index
      follow it through any reorganisation of a node that does not prune; a crash loses nothing.
    - Scripts: the engine ends on every input within its fuel, and given the coin it
      spends only a misread nested program makes it panic; its stacks stay within their bounds; a signature cache
      changes no verdict; the two standard witness spends are accepted exactly when
      their signature is right; an output that counts as unspendable is never spent.
    - Digests: what a witness signature commits to, and that digests of the
      fork's domain and of Bitcoin's are hashes of different strings, but for the
      constant digest of an input without its output.
    - Trees: the two Merkle computations agree; every leaf of an assembled taproot
      tree opens to the output key.
    - Deployments: the cached state is what BIP 9 gives window by window, activation
      needs its votes and is final, and the rules the fork relies on are active from
      its first block, so that none is signalled for in the version of a new block.
    - Blocks: sanity is exactly its list of conditions; an accepted header extends a
      well-formed chain; relative lock times are BIP 68; a coinbase
      carries its height exactly as BIP 34 writes it. An accepted block applies to the ledger and makes no more money
      than its subsidy, so the supply follows its schedule; every coin it moves was
      released by its script and signature, or had expired.
    - Scans: the prefix and the range scan return exactly the entries asked for,
      in order; loops over pages end and miss nothing.
    - REAP rules: accepted REAP transactions pay every owner exactly, spend only
      expired coins, and take a prefix of the canonical order; ordinary
      transactions never spend expired coins.
    - Mining: the template's REAP transaction is accepted by all rules, exists
      whenever something has expired, and is the longest that fits its budget.
    - Places where the code and its intent part: the marker exempts from scripts
      before activation, the two marker recognisers differ, an overwritten
      outpoint leaves a stale key, [commit] toggles a flag, a block the index
      rejects stays in the UTXO cache, a block on an invalid branch is reported as
      connected, the checks of a reorganisation accept a double spend of an
      output of a detached block, and the chain then stops half way, a
      nested witness program is misread or makes the node panic, the main network
      refuses the block versions of the history it shares.

    ** Bounds and fuel

    Loops that are not structural run on fuel, and theorems show the fuel given
    is enough: the tokenizer runs on the script length plus one, since every token
    has a byte; fitting a budget on the number of inputs, since each round drops
    one; the bisection on one more than the length of its list, which it halves;
    catching up on the number of blocks; a locator on one more than the height of
    its block, since it moves down; growing a map on 64 doublings, the width of
    its size; a script engine on the sizes of its scripts, of the witness and of the
    largest redeem script, since every step consumes a byte ([executeFuel]); the walk
    over the windows of a deployment on two more than the height, which it lowers; page loops on any number above
    the size of the index, since each page moves past at least one entry. Page
    loops take the fuel as an argument because the source's bound is the content
    of the database.

    ** What is not modelled

    The orphan pool and the acceptance of a block around the modelled checks
    (accept.go, process.go), invalidating and reconsidering blocks, the clock offset
    of peers, start-up of the chain and the index manager, the transaction, address
    and filter indexes, mempool policy, the rest of template assembly, signing: code
    of the same kind as what is here, which would use its files. The database engine,
    the network, RPC and command-line tools: I/O, or seen only through the parameters
    above. *)

From Stdlib Require Import ZArith Lia.
From stdpp Require Export base option list sorting numbers fin_maps gmap strings.
#[global] Set Warnings "-notation-overridden".

Open Scope Z_scope.

(** ** Go's fixed-width integers

    An integer of the program is a [Z]; every arithmetic operation of the
    source that can leave its width is followed by one of these conversions,
    which are Go's: unsigned types wrap modulo [2^w], signed types wrap into
    [-2^(w-1), 2^(w-1)). [int] is 64 bits wide on the supported platforms. *)

Definition u8 (z : Z) : Z := z mod 2^8.
Definition u16 (z : Z) : Z := z mod 2^16.
Definition u32 (z : Z) : Z := z mod 2^32.
Definition u64 (z : Z) : Z := z mod 2^64.
Definition i32 (z : Z) : Z := (z + 2^31) mod 2^32 - 2^31.
Definition i64 (z : Z) : Z := (z + 2^63) mod 2^64 - 2^63.

Definition is_u8 (z : Z) : Prop := 0 <= z < 2^8.
Definition is_u32 (z : Z) : Prop := 0 <= z < 2^32.
Definition is_u64 (z : Z) : Prop := 0 <= z < 2^64.
Definition is_i32 (z : Z) : Prop := - 2^31 <= z < 2^31.
Definition is_i64 (z : Z) : Prop := - 2^63 <= z < 2^63.

Ltac widths :=
  unfold is_u8, is_u32, is_u64, is_i32, is_i64 in *.

Lemma u8_id z : is_u8 z -> u8 z = z.
Proof. intros. unfold u8. apply Z.mod_small. widths; lia. Qed.

Lemma u32_id z : is_u32 z -> u32 z = z.
Proof. intros H; apply Z.mod_small; exact H. Qed.

Lemma u64_id z : is_u64 z -> u64 z = z.
Proof. intros H; apply Z.mod_small; exact H. Qed.

Lemma i32_id z : is_i32 z -> i32 z = z.
Proof. intros H; unfold i32; widths; rewrite Z.mod_small; lia. Qed.

Lemma i64_id z : is_i64 z -> i64 z = z.
Proof. intros H; unfold i64; widths; rewrite Z.mod_small; lia. Qed.

Lemma i32_range z : is_i32 (i32 z).
Proof.
  unfold i32; widths.
  pose proof (Z.mod_pos_bound (z + 2^31) (2^32) ltac:(lia)); lia.
Qed.

Lemma i64_range z : is_i64 (i64 z).
Proof.
  unfold i64; widths.
  pose proof (Z.mod_pos_bound (z + 2^63) (2^64) ltac:(lia)); lia.
Qed.

Lemma u64_range z : is_u64 (u64 z).
Proof. apply Z.mod_pos_bound; lia. Qed.

Lemma u32_range z : is_u32 (u32 z).
Proof. apply Z.mod_pos_bound; lia. Qed.

Lemma i32_u32 z : is_i32 z -> i32 (u32 z) = z.
Proof.
  intros H; unfold i32, u32; widths.
  rewrite <- Z.add_mod_idemp_l, Z.mod_mod, Z.add_mod_idemp_l by lia.
  rewrite Z.mod_small; lia.
Qed.

Lemma i64_u64 z : is_i64 z -> i64 (u64 z) = z.
Proof.
  intros H; unfold i64, u64; widths.
  rewrite <- Z.add_mod_idemp_l, Z.mod_mod, Z.add_mod_idemp_l by lia.
  rewrite Z.mod_small; lia.
Qed.

(** ** Results

    A Go function returning [(T, error)] is a function into [result E T]. *)

Inductive result (E A : Type) : Type :=
| Ok (a : A)
| Err (e : E).
Arguments Ok {E A} a.
Arguments Err {E A} e.

#[export] Instance result_ret E : MRet (result E) := fun A a => Ok a.
#[export] Instance result_bind E : MBind (result E) :=
  fun A B f r => match r with Ok a => f a | Err e => Err e end.
#[export] Instance result_fmap E : FMap (result E) :=
  fun A B f r => match r with Ok a => Ok (f a) | Err e => Err e end.

#[export] Instance result_eq_dec E A `{EqDecision E, EqDecision A} :
  EqDecision (result E A).
Proof. solve_decision. Defined.

Definition is_ok {E A} (r : result E A) : bool :=
  match r with Ok _ => true | Err _ => false end.

Lemma result_bind_Ok {E A B} (r : result E A) (f : A -> result E B) b :
  (r ≫= f) = Ok b <-> exists a, r = Ok a /\ f a = Ok b.
Proof.
  destruct r as [a|e]; cbn; split.
  - intros H; by exists a.
  - intros (a' & H1 & H2); by simplify_eq.
  - done.
  - intros (a' & H1 & H2); by simplify_eq.
Qed.

(** A [for _, x := range l] loop whose body may return an error. *)
Fixpoint foldM {E S A} (f : S -> A -> result E S) (s : S) (l : list A) : result E S :=
  match l with
  | [] => Ok s
  | x :: l' => match f s x with Ok s' => foldM f s' l' | Err e => Err e end
  end.

Lemma foldM_app {E S A} (f : S -> A -> result E S) s l1 l2 :
  foldM f s (l1 ++ l2) = (foldM f s l1 ≫= fun s' => foldM f s' l2).
Proof.
  revert s; induction l1 as [|x l1 IH]; intros s; cbn; [done|].
  destruct (f s x); cbn; [apply IH|done].
Qed.

(** An invariant of the loop body is an invariant of the loop. *)
Lemma foldM_inv {E S A} (P : S -> Prop) (f : S -> A -> result E S) l s s' :
  P s -> (forall s x s', P s -> x ∈ l -> f s x = Ok s' -> P s') ->
  foldM f s l = Ok s' -> P s'.
Proof.
  revert s; induction l as [|x l IH]; intros s HP Hstep Hrun; cbn in Hrun.
  - by simplify_eq.
  - destruct (f s x) as [s1|] eqn:Hf; [|done].
    eapply (IH s1); [|intros; eapply Hstep; eauto; set_solver|done].
    eapply Hstep; eauto; set_solver.
Qed.

(** ** Byte strings

    A byte is a [Z] in [0, 256); a [[]byte] is a [list Z]. *)

Definition is_bytes (bs : list Z) : Prop := Forall is_u8 bs.

(** [binary.LittleEndian.PutUintN] and [binary.LittleEndian.UintN] on [n] bytes. *)
Fixpoint le_bytes (n : nat) (z : Z) : list Z :=
  match n with
  | O => []
  | S n' => z mod 256 :: le_bytes n' (z / 256)
  end.

Fixpoint le_val (bs : list Z) : Z :=
  match bs with
  | [] => 0
  | b :: bs' => b + 256 * le_val bs'
  end.

(** [binary.BigEndian.PutUintN] and [binary.BigEndian.UintN] on [n] bytes. *)
Definition be_bytes (n : nat) (z : Z) : list Z := reverse (le_bytes n z).
Definition be_val (bs : list Z) : Z := le_val (reverse bs).

Definition pow256 (n : nat) : Z := 256 ^ Z.of_nat n.

Lemma pow256_S n : pow256 (S n) = 256 * pow256 n.
Proof. unfold pow256; rewrite Nat2Z.inj_succ, Z.pow_succ_r; lia. Qed.

Lemma pow256_pos n : 0 < pow256 n.
Proof. unfold pow256; apply Z.pow_pos_nonneg; lia. Qed.

Lemma length_le_bytes n z : length (le_bytes n z) = n.
Proof. revert z; induction n; intros; cbn; auto. Qed.

Lemma length_be_bytes n z : length (be_bytes n z) = n.
Proof. unfold be_bytes; by rewrite length_reverse, length_le_bytes. Qed.

Lemma le_bytes_is_bytes n z : is_bytes (le_bytes n z).
Proof.
  revert z; induction n as [|n IH]; intros z; cbn; constructor; [|apply IH].
  unfold is_u8; apply Z.mod_pos_bound; lia.
Qed.

Lemma be_bytes_is_bytes n z : is_bytes (be_bytes n z).
Proof.
  unfold be_bytes, is_bytes.
  apply Forall_reverse, le_bytes_is_bytes.
Qed.

Lemma le_val_le_bytes n z : le_val (le_bytes n z) = z mod pow256 n.
Proof.
  revert z; induction n as [|n IH]; intros z; cbn [le_bytes le_val].
  - unfold pow256; cbn; by rewrite Z.mod_1_r.
  - rewrite IH, pow256_S. pose proof (pow256_pos n).
    rewrite (Z.rem_mul_r z 256 (pow256 n)) by lia. lia.
Qed.

Lemma be_val_be_bytes n z : be_val (be_bytes n z) = z mod pow256 n.
Proof. unfold be_val, be_bytes; by rewrite reverse_involutive, le_val_le_bytes. Qed.

Lemma le_val_range bs : is_bytes bs -> 0 <= le_val bs < pow256 (length bs).
Proof.
  induction 1 as [|b bs Hb _ IH]; cbn [le_val length].
  - unfold pow256; cbn; lia.
  - rewrite pow256_S; unfold is_u8 in Hb; lia.
Qed.

Lemma le_bytes_le_val bs : is_bytes bs -> le_bytes (length bs) (le_val bs) = bs.
Proof.
  induction 1 as [|b bs Hb _ IH]; cbn [le_val length le_bytes]; [done|].
  unfold is_u8 in Hb.
  rewrite (Z.mul_comm 256), Z.mod_add, Z.div_add by lia.
  rewrite Z.mod_small, Z.div_small by lia. f_equal; apply IH.
Qed.

Lemma be_bytes_be_val bs n : length bs = n -> is_bytes bs -> be_bytes n (be_val bs) = bs.
Proof.
  intros <- Hbs. unfold be_bytes, be_val.
  rewrite <- (length_reverse bs), le_bytes_le_val, reverse_involutive; [done|].
  by apply Forall_reverse.
Qed.

(** [bytes.Compare], with its results -1, 0, 1 as [Lt], [Eq], [Gt]. *)
Fixpoint bytes_compare (a b : list Z) : comparison :=
  match a, b with
  | [], [] => Eq
  | [], _ :: _ => Lt
  | _ :: _, [] => Gt
  | x :: a', y :: b' =>
      match x ?= y with Eq => bytes_compare a' b' | c => c end
  end.

(** The order used by the lexicographic chains of comparisons in the source. *)
Definition lex (c d : comparison) : comparison :=
  match c with Eq => d | _ => c end.

Lemma lex_assoc a b c : lex (lex a b) c = lex a (lex b c).
Proof. by destruct a. Qed.

Lemma lex_Eq_r c : lex c Eq = c.
Proof. by destruct c. Qed.

Lemma bytes_compare_refl a : bytes_compare a a = Eq.
Proof. induction a; cbn; by rewrite ?Z.compare_refl. Qed.

Lemma bytes_compare_eq a b : bytes_compare a b = Eq <-> a = b.
Proof.
  split; [|intros ->; apply bytes_compare_refl].
  revert b; induction a as [|x a IH]; intros [|y b]; cbn; try done.
  destruct (Z.compare_spec x y); intros H1; try done.
  subst; f_equal; auto.
Qed.

Lemma bytes_compare_antisym a b : bytes_compare b a = CompOpp (bytes_compare a b).
Proof.
  revert b; induction a as [|x a IH]; intros [|y b]; cbn; try done.
  rewrite (Z.compare_antisym x y). destruct (x ?= y); cbn; auto.
Qed.

Lemma bytes_compare_trans a b c :
  bytes_compare a b <> Gt -> bytes_compare b c <> Gt -> bytes_compare a c <> Gt.
Proof.
  revert b c; induction a as [|x a IH]; intros [|y b] [|z c]; cbn; try done.
  destruct (Z.compare_spec x y), (Z.compare_spec y z), (Z.compare_spec x z);
    subst; try done; try lia; eauto.
Qed.

Lemma bytes_compare_app a b c d :
  length a = length c ->
  bytes_compare (a ++ b) (c ++ d) = lex (bytes_compare a c) (bytes_compare b d).
Proof.
  revert c; induction a as [|x a IH]; intros [|y c]; cbn; intros Hl; try done.
  destruct (x ?= y); cbn; auto.
Qed.

Lemma bytes_compare_snoc a x c y :
  length a = length c ->
  bytes_compare (a ++ [x]) (c ++ [y]) = lex (bytes_compare a c) (x ?= y).
Proof.
  intros Hl; rewrite bytes_compare_app by done; cbn.
  by destruct (x ?= y).
Qed.

(** Big-endian encodings of equal width sort like the numbers they encode. *)
Lemma be_bytes_S n z : be_bytes (S n) z = be_bytes n (z / 256) ++ [z mod 256].
Proof. unfold be_bytes; cbn [le_bytes]. by rewrite reverse_cons. Qed.

Lemma bytes_compare_be n x y :
  0 <= x < pow256 n -> 0 <= y < pow256 n ->
  bytes_compare (be_bytes n x) (be_bytes n y) = (x ?= y).
Proof.
  revert x y; induction n as [|n IH]; intros x y Hx Hy.
  - unfold pow256 in *; cbn in *. by replace x with y by lia; rewrite Z.compare_refl.
  - rewrite pow256_S in *. pose proof (pow256_pos n).
    assert (0 <= x / 256 < pow256 n) by (split; [apply Z.div_pos; lia|apply Z.div_lt_upper_bound; lia]).
    assert (0 <= y / 256 < pow256 n) by (split; [apply Z.div_pos; lia|apply Z.div_lt_upper_bound; lia]).
    rewrite !be_bytes_S, bytes_compare_snoc by (by rewrite !length_be_bytes).
    rewrite IH by done.
    pose proof (Z.div_mod x 256 ltac:(lia)). pose proof (Z.div_mod y 256 ltac:(lia)).
    pose proof (Z.mod_pos_bound x 256 ltac:(lia)). pose proof (Z.mod_pos_bound y 256 ltac:(lia)).
    destruct (Z.compare_spec (x / 256) (y / 256)); cbn;
      destruct (Z.compare_spec x y); try lia; try done.
    + subst; apply Z.compare_eq_iff; lia.
    + apply Z.compare_lt_iff; lia.
    + apply Z.compare_gt_iff; lia.
Qed.

(** The key order of a database cursor. *)
Definition bytes_le (a b : list Z) : Prop := bytes_compare a b <> Gt.

#[export] Instance bytes_le_dec : RelDecision bytes_le.
Proof. intros a b; unfold bytes_le; apply _. Defined.

#[export] Instance bytes_le_refl : Reflexive bytes_le.
Proof. intros a; unfold bytes_le; by rewrite bytes_compare_refl. Qed.

#[export] Instance bytes_le_trans : Transitive bytes_le.
Proof. intros a b c; apply bytes_compare_trans. Qed.

#[export] Instance bytes_le_total : Total bytes_le.
Proof.
  intros a b; unfold bytes_le; rewrite (bytes_compare_antisym a b).
  destruct (bytes_compare a b); cbn; auto.
Qed.

#[export] Instance bytes_le_antisymm : AntiSymm (=) bytes_le.
Proof.
  intros a b; unfold bytes_le; rewrite (bytes_compare_antisym a b), <- bytes_compare_eq.
  destruct (bytes_compare a b); cbn; done.
Qed.

(** [bytes.HasPrefix] *)
Fixpoint has_prefix (s p : list Z) {struct p} : bool :=
  match p, s with
  | [], _ => true
  | x :: p', y :: s' => (x =? y) && has_prefix s' p'
  | _ :: _, [] => false
  end.

Lemma has_prefix_spec s p : has_prefix s p = true <-> exists t, s = p ++ t.
Proof.
  revert s; induction p as [|x p IH]; intros s; cbn.
  - split; [eauto|done].
  - destruct s as [|y s]; [split; [done|by intros [t ?]]|].
    rewrite andb_true_iff, Z.eqb_eq, IH. split.
    + intros (-> & t & ->); by exists t.
    + intros (t & [= -> ->]); eauto.
Qed.

(** ** Automation

    [bytes_db] and [bytes_rw] hold the facts about the shape of byte strings that encoders
    and decoders discharge over and over; [bytes_auto] uses them after
    computing the length of concatenations. *)

Create HintDb bytes_db.
Create Rewrite HintDb bytes_rw.
#[export] Hint Resolve le_bytes_is_bytes be_bytes_is_bytes : bytes_db.
#[export] Hint Resolve length_le_bytes length_be_bytes : bytes_db.
#[export] Hint Rewrite @length_app @length_reverse length_le_bytes length_be_bytes
  @length_replicate : bytes_rw.

Ltac bytes_auto :=
  autorewrite with bytes_rw; cbn [length]; eauto with bytes_db; try lia.

(** Runs the monadic steps whose result is known. *)
Ltac result_simpl := cbn [mbind result_bind mret result_ret fmap result_fmap].

(** The bytes of a string: Go's [[]byte(s)]. *)
Definition string_bytes (s : string) : list Z :=
  map (fun c => Z.of_N (Ascii.N_of_ascii c)) (String.list_ascii_of_string s).
