(* ===== verification/ChainParams.v ===== *)
(** * Network parameters

    The OBTC part of package [chaincfg] (src/chaincfg/params_obtc.go): the
    three OBTC networks, their expiry and REAP parameters, the activation
    predicates, and the start-up check that keeps the OBTC namespaces apart
    from Bitcoin's. [Params] has the fields the modelled components read; seeds
    and relay policy are not in it, and the genesis blocks are in Genesis.v. The Bitcoin networks of src/chaincfg/params.go are needed only for the
    namespaces the check compares, so they are [Namespace] records.

    [ExpiryIndexParams] is the package-local copy that
    src/blockchain/expiryindex/params.go keeps. *)

From S2P Require Import Prelude.

(** ** Networks (src/wire/protocol.go) *)

Definition BitcoinNet := Z.

Definition MainNet : BitcoinNet := 0xd9b4bef9.
Definition TestNet : BitcoinNet := 0xdab5bffa.
Definition TestNet3 : BitcoinNet := 0x0709110b.
Definition TestNet4 : BitcoinNet := 0x283f161c.
Definition SigNet : BitcoinNet := 0x40cf030a.
Definition SimNet : BitcoinNet := 0x12141c16.
Definition ObtcMainNet : BitcoinNet := 0x4f425443.
Definition ObtcTestNet : BitcoinNet := 0x4f544553.
Definition ObtcRegNet : BitcoinNet := 0x4f524547.

(** The address, key and port identifiers of a network: the fields
    [validateOBTCNamespaceIsolation] reads. *)
Record Namespace := {
  DefaultPort : string;
  Bech32HRPSegwit : string;
  PubKeyHashAddrID : Z;
  ScriptHashAddrID : Z;
  PrivateKeyID : Z;
  WitnessPubKeyHashAddrID : Z;
  WitnessScriptHashAddrID : Z;
  HDPrivateKeyID : list Z;
  HDPublicKeyID : list Z;
  HDCoinType : Z
}.

(** ** Deployments and checkpoints *)

(** A checkpoint: a height and the hash of the block expected there. *)
Record Checkpoint := mkCheckpoint { ckpt_Height : Z; ckpt_Hash : list Z }.

(** [ConsensusDeployment]: the bit blocks vote with, the optional heights and
    threshold, and the times at which voting starts and ends, [None] for the
    zero time of Go. *)
Record ConsensusDeployment := mkDeployment {
  BitNumber : Z;
  MinActivationHeight : Z;
  CustomActivationThreshold : Z;
  AlwaysActiveHeight : Z;
  DeploymentStarter : option Z;
  DeploymentEnder : option Z }.

Definition EffectiveAlwaysActiveHeight (d : ConsensusDeployment) : Z :=
  if AlwaysActiveHeight d =? 0 then 2 ^ 32 - 1 else AlwaysActiveHeight d.

Definition DeploymentTestDummy : Z := 0.
Definition DeploymentTestDummyMinActivation : Z := 1.
Definition DeploymentCSV : Z := 2.
Definition DeploymentSegwit : Z := 3.
Definition DeploymentTaproot : Z := 4.
Definition DeploymentTestDummyAlwaysActive : Z := 5.

(** The array every OBTC network has: CSV, segwit and taproot are active from
    height one, and nothing is open to a vote. *)
Definition obtcDeployments : list ConsensusDeployment :=
  [ mkDeployment 28 0 0 0 (Some 0) (Some 0);
    mkDeployment 22 0 0 0 (Some 0) (Some 0);
    mkDeployment 0 0 0 1 (Some 0) (Some 0);
    mkDeployment 1 0 0 1 (Some 0) (Some 0);
    mkDeployment 2 0 0 1 (Some 0) (Some 0);
    mkDeployment 30 0 0 1 (Some 0) (Some 0) ].

Definition genesisHash : list Z :=
  [0x6f; 0xe2; 0x8c; 0x0a; 0xb6; 0xf1; 0xb3; 0x72; 0xc1; 0xa6; 0xa2; 0x46; 0xae; 0x63; 0xf7; 0x4f;
   0x93; 0x1e; 0x83; 0x65; 0xe1; 0x5a; 0x08; 0x9c; 0x68; 0xd6; 0x19; 0x00; 0x00; 0x00; 0x00; 0x00].
Definition regTestGenesisHash : list Z :=
  [0x06; 0x22; 0x6e; 0x46; 0x11; 0x1a; 0x0b; 0x59; 0xca; 0xaf; 0x12; 0x60; 0x43; 0xeb; 0x5b; 0xbf;
   0x28; 0xc3; 0x4f; 0x3a; 0x5e; 0x33; 0x2a; 0x1f; 0xc7; 0xb2; 0xb7; 0x3c; 0xf1; 0x88; 0x91; 0x0f].
Definition obtcTestNetGenesisHash : list Z :=
  [0x63; 0xa9; 0xb2; 0x2a; 0xb5; 0x97; 0x7c; 0x80; 0xcb; 0x8e; 0x59; 0xbd; 0xcc; 0xef; 0x36; 0x9d;
   0xf0; 0x18; 0x73; 0x84; 0x1e; 0xd4; 0x70; 0x5d; 0xcd; 0xb7; 0x94; 0x81; 0x27; 0x98; 0xdf; 0x5f].

(** [chaincfg.Params]; times are in seconds. *)
Record Params := {
  Name : string;
  Net : BitcoinNet;
  PowLimit : Z;
  PowLimitBits : Z;
  PoWNoRetargeting : bool;
  EnforceBIP94 : bool;
  BIP0034Height : Z;
  BIP0065Height : Z;
  BIP0066Height : Z;
  CoinbaseMaturity : Z;
  SubsidyReductionInterval : Z;
  TargetTimespan : Z;
  TargetTimePerBlock : Z;
  RetargetAdjustmentFactor : Z;
  ReduceMinDifficulty : bool;
  MinDiffReductionTime : Z;
  ForkDAAStartHeight : Z;
  ForkDAABootstrapEndHeight : Z;
  ForkDAAForkResetBits : Z;
  ForkDAABootstrapHalfLife : Z;
  ForkDAANormalHalfLife : Z;
  RuleChangeActivationThreshold : Z;
  MinerConfirmationWindow : Z;
  GenesisHash : list Z;
  Checkpoints : list Checkpoint;
  Deployments : list ConsensusDeployment;
  Space : Namespace
}.

Definition ObtcMainNetForkHeight : Z := 1000000.
Definition ObtcMainNetFirstBlockHeight : Z := ObtcMainNetForkHeight + 1.
Definition ObtcMainNetActivationHeight : Z := ObtcMainNetForkHeight + 2016.
Definition ObtcTestNetForkHeight : Z := 0.
Definition ObtcRegTestForkHeight : Z := 100.

Definition obtcPowLimit : Z := 2 ^ 224 - 1.
Definition regressionPowLimit : Z := 2 ^ 255 - 1.

Definition obtcMainNamespace : Namespace := {|
  DefaultPort := "9527";
  Bech32HRPSegwit := "obtc";
  PubKeyHashAddrID := 0x47;
  ScriptHashAddrID := 0x32;
  PrivateKeyID := 0x9a;
  WitnessPubKeyHashAddrID := 0x2a;
  WitnessScriptHashAddrID := 0x2b;
  HDPrivateKeyID := [0x0b; 0x47; 0xb0; 0x1e];
  HDPublicKeyID := [0x0b; 0x47; 0xb5; 0xd4];
  HDCoinType := 20260 |}.

Definition ObtcMainNetParams : Params := {|
  Name := "obtcmainnet";
  Net := ObtcMainNet;
  PowLimit := obtcPowLimit;
  PowLimitBits := 0x1d00ffff;
  PoWNoRetargeting := false;
  EnforceBIP94 := true;
  BIP0034Height := 1;
  BIP0065Height := 1;
  BIP0066Height := 1;
  CoinbaseMaturity := 100;
  SubsidyReductionInterval := 210000;
  TargetTimespan := 60 * 60 * 24 * 14;
  TargetTimePerBlock := 60 * 10;
  RetargetAdjustmentFactor := 4;
  ReduceMinDifficulty := false;
  MinDiffReductionTime := 0;
  ForkDAAStartHeight := ObtcMainNetFirstBlockHeight;
  ForkDAABootstrapEndHeight := ObtcMainNetActivationHeight;
  ForkDAAForkResetBits := 0x1d00ffff;
  ForkDAABootstrapHalfLife := 60 * 60;
  ForkDAANormalHalfLife := 48 * 60 * 60;
  RuleChangeActivationThreshold := 1916;
  MinerConfirmationWindow := 2016;
  GenesisHash := genesisHash;
  Checkpoints := [];
  Deployments := obtcDeployments;
  Space := obtcMainNamespace |}.

Definition obtcTestNamespace : Namespace := {|
  DefaultPort := "19527";
  Bech32HRPSegwit := "obtct";
  PubKeyHashAddrID := 0x71;
  ScriptHashAddrID := 0xd1;
  PrivateKeyID := 0xf1;
  WitnessPubKeyHashAddrID := 0x2c;
  WitnessScriptHashAddrID := 0x2d;
  HDPrivateKeyID := [0x0b; 0x48; 0xb0; 0x1e];
  HDPublicKeyID := [0x0b; 0x48; 0xb5; 0xd4];
  HDCoinType := 20261 |}.

Definition ObtcTestNetParams : Params := {|
  Name := "obtctestnet";
  Net := ObtcTestNet;
  PowLimit := regressionPowLimit;
  PowLimitBits := 0x207fffff;
  PoWNoRetargeting := true;
  EnforceBIP94 := false;
  BIP0034Height := 1;
  BIP0065Height := 1;
  BIP0066Height := 1;
  CoinbaseMaturity := 20;
  SubsidyReductionInterval := 210000;
  TargetTimespan := 60 * 60 * 24 * 14;
  TargetTimePerBlock := 60 * 10;
  RetargetAdjustmentFactor := 4;
  ReduceMinDifficulty := false;
  MinDiffReductionTime := 0;
  ForkDAAStartHeight := 0;
  ForkDAABootstrapEndHeight := 0;
  ForkDAAForkResetBits := 0;
  ForkDAABootstrapHalfLife := 0;
  ForkDAANormalHalfLife := 0;
  RuleChangeActivationThreshold := 1512;
  MinerConfirmationWindow := 2016;
  GenesisHash := obtcTestNetGenesisHash;
  Checkpoints := [];
  Deployments := obtcDeployments;
  Space := obtcTestNamespace |}.

Definition obtcRegTestNamespace : Namespace := {|
  DefaultPort := "29527";
  Bech32HRPSegwit := "obtcrt";
  PubKeyHashAddrID := 0x72;
  ScriptHashAddrID := 0xd2;
  PrivateKeyID := 0xf2;
  WitnessPubKeyHashAddrID := 0x2e;
  WitnessScriptHashAddrID := 0x2f;
  HDPrivateKeyID := [0x0b; 0x49; 0xb0; 0x1e];
  HDPublicKeyID := [0x0b; 0x49; 0xb5; 0xd4];
  HDCoinType := 20262 |}.

Definition ObtcRegTestParams : Params := {|
  Name := "obtcregtest";
  Net := ObtcRegNet;
  PowLimit := regressionPowLimit;
  PowLimitBits := 0x207fffff;
  PoWNoRetargeting := true;
  EnforceBIP94 := false;
  BIP0034Height := 100000000;
  BIP0065Height := 1351;
  BIP0066Height := 1251;
  CoinbaseMaturity := 100;
  SubsidyReductionInterval := 150;
  TargetTimespan := 60 * 60 * 24 * 14;
  TargetTimePerBlock := 60 * 10;
  RetargetAdjustmentFactor := 4;
  ReduceMinDifficulty := false;
  MinDiffReductionTime := 0;
  ForkDAAStartHeight := 0;
  ForkDAABootstrapEndHeight := 0;
  ForkDAAForkResetBits := 0;
  ForkDAABootstrapHalfLife := 0;
  ForkDAANormalHalfLife := 0;
  RuleChangeActivationThreshold := 108;
  MinerConfirmationWindow := 144;
  GenesisHash := regTestGenesisHash;
  Checkpoints := [];
  Deployments := obtcDeployments;
  Space := obtcRegTestNamespace |}.

(** ** Expiry parameters *)

Record ExpiryParams := {
  WindowBlocks : Z;
  ListBatchLimit : Z;
  StartScanHeight : Z;
  EnableAtHeight : Z;
  ReapConsensusAtHeight : Z;
  ReplayProtectionAtHeight : Z;
  ReapMaxInputs : Z;
  ReapDustMaxInputs : Z;
  ReapMaxWeight : Z;
  ReapTaxNumerator : Z;
  ReapTaxDenominator : Z;
  ReapDustThresholdSat : Z;
  ExpiryCommitmentEnableAtHeight : Z
}.

Definition IsOBTC (params : Params) : bool :=
  (Net params =? ObtcMainNet) || (Net params =? ObtcTestNet) || (Net params =? ObtcRegNet).

Definition GetOBTCForkHeight (params : Params) : Z :=
  if Net params =? ObtcMainNet then ObtcMainNetForkHeight
  else if Net params =? ObtcTestNet then ObtcTestNetForkHeight
  else if Net params =? ObtcRegNet then ObtcRegTestForkHeight
  else -1.

Definition IsPostOBTCFork (params : Params) (height : Z) : bool :=
  if negb (IsOBTC params) then false
  else GetOBTCForkHeight params <=? height.

Definition GetExpiryParams (params : Params) : option ExpiryParams :=
  if negb (IsOBTC params) then None
  else if Net params =? ObtcMainNet then Some {|
    WindowBlocks := 362880;
    ListBatchLimit := 10000;
    StartScanHeight := 0;
    EnableAtHeight := ObtcMainNetActivationHeight;
    ReapConsensusAtHeight := ObtcMainNetActivationHeight;
    ReplayProtectionAtHeight := ObtcMainNetFirstBlockHeight;
    ReapMaxInputs := 256;
    ReapDustMaxInputs := 1024;
    ReapMaxWeight := 400000;
    ReapTaxNumerator := 30;
    ReapTaxDenominator := 100;
    ReapDustThresholdSat := 720;
    ExpiryCommitmentEnableAtHeight := ObtcMainNetActivationHeight |}
  else if Net params =? ObtcTestNet then Some {|
    WindowBlocks := 144;
    ListBatchLimit := 5000;
    StartScanHeight := 0;
    EnableAtHeight := 100;
    ReapConsensusAtHeight := 120;
    ReplayProtectionAtHeight := 130;
    ReapMaxInputs := 500;
    ReapDustMaxInputs := 1000;
    ReapMaxWeight := 400000;
    ReapTaxNumerator := 30;
    ReapTaxDenominator := 100;
    ReapDustThresholdSat := 720;
    ExpiryCommitmentEnableAtHeight := 100 |}
  else if Net params =? ObtcRegNet then Some {|
    WindowBlocks := 144;
    ListBatchLimit := 1000;
    StartScanHeight := 0;
    EnableAtHeight := ObtcRegTestForkHeight + 10;
    ReapConsensusAtHeight := ObtcRegTestForkHeight + 12;
    ReplayProtectionAtHeight := ObtcRegTestForkHeight + 14;
    ReapMaxInputs := 200;
    ReapDustMaxInputs := 400;
    ReapMaxWeight := 400000;
    ReapTaxNumerator := 30;
    ReapTaxDenominator := 100;
    ReapDustThresholdSat := 720;
    ExpiryCommitmentEnableAtHeight := ObtcRegTestForkHeight + 10 |}
  else None.

Definition GetOBTCReplayProtectionHeight (params : Params) : Z :=
  match GetExpiryParams params with
  | None => -1
  | Some ep => if ReplayProtectionAtHeight ep <=? 0 then -1 else ReplayProtectionAtHeight ep
  end.

Definition IsOBTCReplayProtectionActive (params : Params) (height : Z) : bool :=
  let activationHeight := GetOBTCReplayProtectionHeight params in
  if activationHeight <? 0 then false else activationHeight <=? height.

(** [uint64(createHeight) + p.WindowBlocks] *)
Definition CalculateExpiryKey (p : ExpiryParams) (createHeight : Z) : Z :=
  u64 (u64 createHeight + WindowBlocks p).

(** ** The expiry index's copy (src/blockchain/expiryindex/params.go) *)

Record ExpiryIndexParams := {
  eiWindowBlocks : Z;
  eiListBatchLimit : Z;
  eiStartScanHeight : Z;
  eiEnableAtHeight : Z;
  eiExpiryCommitmentEnableAtHeight : Z
}.

Definition GetExpiryIndexParams (params : Params) : option ExpiryIndexParams :=
  match GetExpiryParams params with
  | None => None
  | Some cfg => Some {|
      eiWindowBlocks := WindowBlocks cfg;
      eiListBatchLimit := ListBatchLimit cfg;
      eiStartScanHeight := StartScanHeight cfg;
      eiEnableAtHeight := EnableAtHeight cfg;
      eiExpiryCommitmentEnableAtHeight := ExpiryCommitmentEnableAtHeight cfg |}
  end.

Definition eiCalculateExpiryKey (p : ExpiryIndexParams) (createHeight : Z) : Z :=
  u64 (u64 createHeight + eiWindowBlocks p).

Definition IsExpiryEnabled (p : ExpiryIndexParams) (height : Z) : bool :=
  eiEnableAtHeight p <=? height.

Definition IsIndexingEnabled (p : ExpiryIndexParams) (height : Z) : bool :=
  eiStartScanHeight p <=? height.

Definition ValidateListParams (p : ExpiryIndexParams) (limit : Z) : result string unit :=
  if limit <=? 0 then Err "limit must be positive"
  else if eiListBatchLimit p <? limit then Err "limit exceeds maximum"
  else Ok tt.

Definition CalculateExpiryRange (fromHeight horizonBlocks : Z) : Z * Z :=
  let fromKey := fromHeight in
  let toKey := u64 (fromHeight + horizonBlocks) in
  (fromKey, if toKey <? fromHeight then 2 ^ 64 - 1 else toKey).

(** ** Namespace isolation *)

Definition bitcoinMainNamespace : Namespace := {|
  DefaultPort := "8333"; Bech32HRPSegwit := "bc";
  PubKeyHashAddrID := 0x00; ScriptHashAddrID := 0x05; PrivateKeyID := 0x80;
  WitnessPubKeyHashAddrID := 0x06; WitnessScriptHashAddrID := 0x0a;
  HDPrivateKeyID := [0x04; 0x88; 0xad; 0xe4]; HDPublicKeyID := [0x04; 0x88; 0xb2; 0x1e];
  HDCoinType := 0 |}.

Definition bitcoinRegressionNamespace : Namespace := {|
  DefaultPort := "18444"; Bech32HRPSegwit := "bcrt";
  PubKeyHashAddrID := 0x6f; ScriptHashAddrID := 0xc4; PrivateKeyID := 0xef;
  WitnessPubKeyHashAddrID := 0; WitnessScriptHashAddrID := 0;
  HDPrivateKeyID := [0x04; 0x35; 0x83; 0x94]; HDPublicKeyID := [0x04; 0x35; 0x87; 0xcf];
  HDCoinType := 1 |}.

Definition bitcoinTestNet3Namespace : Namespace := {|
  DefaultPort := "18333"; Bech32HRPSegwit := "tb";
  PubKeyHashAddrID := 0x6f; ScriptHashAddrID := 0xc4; PrivateKeyID := 0xef;
  WitnessPubKeyHashAddrID := 0x03; WitnessScriptHashAddrID := 0x28;
  HDPrivateKeyID := [0x04; 0x35; 0x83; 0x94]; HDPublicKeyID := [0x04; 0x35; 0x87; 0xcf];
  HDCoinType := 1 |}.

Definition bitcoinTestNet4Namespace : Namespace := {|
  DefaultPort := "48333"; Bech32HRPSegwit := "tb";
  PubKeyHashAddrID := 0x6f; ScriptHashAddrID := 0xc4; PrivateKeyID := 0xef;
  WitnessPubKeyHashAddrID := 0x03; WitnessScriptHashAddrID := 0x28;
  HDPrivateKeyID := [0x04; 0x35; 0x83; 0x94]; HDPublicKeyID := [0x04; 0x35; 0x87; 0xcf];
  HDCoinType := 1 |}.

Definition bitcoinSimNamespace : Namespace := {|
  DefaultPort := "18555"; Bech32HRPSegwit := "sb";
  PubKeyHashAddrID := 0x3f; ScriptHashAddrID := 0x7b; PrivateKeyID := 0x64;
  WitnessPubKeyHashAddrID := 0x19; WitnessScriptHashAddrID := 0x28;
  HDPrivateKeyID := [0x04; 0x20; 0xb9; 0x00]; HDPublicKeyID := [0x04; 0x20; 0xbd; 0x3a];
  HDCoinType := 115 |}.

Definition bitcoinSigNamespace : Namespace := {|
  DefaultPort := "38333"; Bech32HRPSegwit := "tb";
  PubKeyHashAddrID := 0x6f; ScriptHashAddrID := 0xc4; PrivateKeyID := 0xef;
  WitnessPubKeyHashAddrID := 0x03; WitnessScriptHashAddrID := 0x28;
  HDPrivateKeyID := [0x04; 0x35; 0x83; 0x94]; HDPublicKeyID := [0x04; 0x35; 0x87; 0xcf];
  HDCoinType := 1 |}.

Definition obtcNets : list Namespace :=
  [Space ObtcMainNetParams; Space ObtcTestNetParams; Space ObtcRegTestParams].

Definition btcNets : list Namespace :=
  [bitcoinMainNamespace; bitcoinTestNet3Namespace; bitcoinTestNet4Namespace;
   bitcoinRegressionNamespace; bitcoinSimNamespace; bitcoinSigNamespace].

(** The closures [checkByteField], [checkStringField], [checkHDField] and
    [checkCoinType] are one loop at four value types; the map [seen] is the
    list of its keys. *)
Definition seenWithin {A} `{EqDecision A} (field : string) (getter : Namespace -> A)
    (seen : list A) (net : Namespace) : result string (list A) :=
  if bool_decide (getter net ∈ seen) then Err (field +:+ " collision within OBTC")
  else Ok (getter net :: seen).

Definition notSeen {A} `{EqDecision A} (field : string) (getter : Namespace -> A)
    (seen : list A) (_ : unit) (net : Namespace) : result string unit :=
  if bool_decide (getter net ∈ seen) then Err (field +:+ " collision with Bitcoin")
  else Ok tt.

Definition checkField {A} `{EqDecision A} (field : string) (getter : Namespace -> A)
    (obtc btc : list Namespace) : result string unit :=
  seen ← foldM (seenWithin field getter) [] obtc;
  foldM (notSeen field getter seen) tt btc.

Definition validateNamespaces (obtc btc : list Namespace) : result string unit :=
  _ ← foldM (fun _ net =>
        if bool_decide (HDPrivateKeyID net = HDPublicKeyID net)
        then Err "identical HD private/public version bytes" else Ok tt) tt obtc;
  _ ← checkField "Bech32 HRP" Bech32HRPSegwit obtc btc;
  _ ← checkField "DefaultPort" DefaultPort obtc btc;
  _ ← checkField "PubKeyHashAddrID" PubKeyHashAddrID obtc btc;
  _ ← checkField "ScriptHashAddrID" ScriptHashAddrID obtc btc;
  _ ← checkField "PrivateKeyID" PrivateKeyID obtc btc;
  _ ← checkField "WitnessPubKeyHashAddrID" WitnessPubKeyHashAddrID obtc btc;
  _ ← checkField "WitnessScriptHashAddrID" WitnessScriptHashAddrID obtc btc;
  _ ← checkField "HDPrivateKeyID" HDPrivateKeyID obtc btc;
  _ ← checkField "HDPublicKeyID" HDPublicKeyID obtc btc;
  checkField "HDCoinType" HDCoinType obtc btc.

Definition validateOBTCNamespaceIsolation : result string unit :=
  validateNamespaces obtcNets btcNets.

(** A field is isolated when no two OBTC networks share a value and no OBTC
    network shares one with a Bitcoin network. *)
Definition isolated {A} (getter : Namespace -> A) (obtc btc : list Namespace) : Prop :=
  NoDup (getter <$> obtc) /\ (forall o b, o ∈ obtc -> b ∈ btc -> getter o <> getter b).

Section CheckField.
Context {A : Type} `{EqDecision A} (field : string) (getter : Namespace -> A).

Lemma seenWithin_spec obtc seen s :
  foldM (seenWithin field getter) seen obtc = Ok s <->
  s = reverse (map getter obtc) ++ seen /\
  NoDup (map getter obtc) /\ (forall o, o ∈ obtc -> getter o ∉ seen).
Proof.
  revert seen; induction obtc as [|o obtc IH]; intros seen; cbn [foldM map].
  - split; [intros [= ->]; repeat split; [constructor|set_solver]|by intros (-> & _)].
  - unfold seenWithin at 1. case_bool_decide as Hin.
    + split; [done|]. intros (_ & _ & Hno). destruct (Hno o); [left|done].
    + rewrite IH, NoDup_cons, reverse_cons, <- app_assoc. cbn [app].
      setoid_rewrite elem_of_cons.
      change (map getter obtc) with (getter <$> obtc). rewrite list_elem_of_fmap.
      naive_solver.
Qed.

Lemma notSeen_spec seen btc :
  foldM (notSeen field getter seen) tt btc = Ok tt <-> forall b, b ∈ btc -> getter b ∉ seen.
Proof.
  induction btc as [|b btc IH]; cbn; [set_solver|].
  unfold notSeen at 1. case_bool_decide; [|rewrite IH]; set_solver.
Qed.

Lemma checkField_spec obtc btc :
  checkField field getter obtc btc = Ok tt <-> isolated getter obtc btc.
Proof.
  unfold checkField, isolated. rewrite result_bind_Ok. split.
  - intros (seen & (-> & Hnd & _)%seenWithin_spec & Hno).
    split; [done|]. intros o b Ho Hb Heq. rewrite notSeen_spec in Hno.
    apply (Hno b Hb). rewrite app_nil_r, elem_of_reverse, <- Heq.
    by apply list_elem_of_fmap_2.
  - intros [Hnd Hno]. exists (reverse (map getter obtc) ++ []).
    rewrite seenWithin_spec, notSeen_spec. repeat split; [done|set_solver|].
    intros b Hb. rewrite app_nil_r, elem_of_reverse.
    intros (o & Heq & Ho)%list_elem_of_fmap. by apply (Hno o b).
Qed.
End CheckField.

Lemma distinctHD_spec obtc :
  foldM (fun _ net =>
    if bool_decide (HDPrivateKeyID net = HDPublicKeyID net)
    then Err "identical HD private/public version bytes"%string else Ok tt) tt obtc = Ok tt
  <-> forall o, o ∈ obtc -> HDPrivateKeyID o <> HDPublicKeyID o.
Proof.
  induction obtc as [|o obtc IH]; cbn; [set_solver|].
  case_bool_decide; [|rewrite IH]; set_solver.
Qed.

Lemma result_bind_unit {E B} (r : result E unit) (k : result E B) b :
  (_ ← r; k) = Ok b <-> r = Ok tt /\ k = Ok b.
Proof. rewrite result_bind_Ok. split; [intros ([] & ? & ?); auto|intros []; eauto]. Qed.

(** The start-up check passes exactly when every OBTC namespace is isolated. *)
Lemma validateNamespaces_spec obtc btc :
  validateNamespaces obtc btc = Ok tt <->
  (forall o, o ∈ obtc -> HDPrivateKeyID o <> HDPublicKeyID o) /\
  isolated Bech32HRPSegwit obtc btc /\ isolated DefaultPort obtc btc /\
  isolated PubKeyHashAddrID obtc btc /\ isolated ScriptHashAddrID obtc btc /\
  isolated PrivateKeyID obtc btc /\ isolated WitnessPubKeyHashAddrID obtc btc /\
  isolated WitnessScriptHashAddrID obtc btc /\ isolated HDPrivateKeyID obtc btc /\
  isolated HDPublicKeyID obtc btc /\ isolated HDCoinType obtc btc.
Proof.
  unfold validateNamespaces.
  rewrite !result_bind_unit, distinctHD_spec, !checkField_spec. done.
Qed.

(** ** Facts the other components rely on *)

Lemma expiry_params_obtc params ep : GetExpiryParams params = Some ep -> IsOBTC params = true.
Proof. unfold GetExpiryParams; by destruct (IsOBTC params). Qed.

(** The parameter values every OBTC network shares, and the bounds the
    arithmetic of the REAP rules needs. *)
Record params_ok (ep : ExpiryParams) : Prop := {
  pk_window : 0 < WindowBlocks ep <= 362880;
  pk_start : StartScanHeight ep = 0;
  pk_enable : 0 < EnableAtHeight ep <= ReapConsensusAtHeight ep;
  pk_max : 0 < ReapMaxInputs ep;
  pk_dustmax : 0 < ReapDustMaxInputs ep;
  pk_inputs : ReapMaxInputs ep + ReapDustMaxInputs ep <= 1500;
  pk_weight : ReapMaxWeight ep = 400000;
  pk_num : ReapTaxNumerator ep = 30;
  pk_den : ReapTaxDenominator ep = 100;
  pk_dust : ReapDustThresholdSat ep = 720;
  pk_commit : 0 < ExpiryCommitmentEnableAtHeight ep <= EnableAtHeight ep
}.

Lemma GetExpiryParams_ok params ep : GetExpiryParams params = Some ep -> params_ok ep.
Proof.
  unfold GetExpiryParams. destruct (negb _); [done|].
  repeat case_match; intros [= <-]; constructor; cbn;
    unfold ObtcMainNetActivationHeight, ObtcMainNetForkHeight, ObtcRegTestForkHeight; lia.
Qed.

Lemma CalculateExpiryKey_nowrap ep h :
  0 <= h < 2^31 -> 0 < WindowBlocks ep <= 362880 ->
  CalculateExpiryKey ep h = h + WindowBlocks ep.
Proof.
  intros. unfold CalculateExpiryKey.
  rewrite !u64_id; [done|widths; lia..|]. rewrite u64_id; widths; lia.
Qed.

(** ** Properties *)

(** No address, key or port of OBTC can be taken for Bitcoin's. The start-up
    check accepts a set of networks exactly when the HD versions differ and every
    one of the ten fields is different between any two OBTC networks and between
    any OBTC and any Bitcoin network; and it accepts the networks that are built
    in, so the node starts. *)
Theorem namespace_isolation :
  (forall obtc btc, validateNamespaces obtc btc = Ok tt <->
    (forall o, o ∈ obtc -> HDPrivateKeyID o <> HDPublicKeyID o) /\
    isolated Bech32HRPSegwit obtc btc /\ isolated DefaultPort obtc btc /\
    isolated PubKeyHashAddrID obtc btc /\ isolated ScriptHashAddrID obtc btc /\
    isolated PrivateKeyID obtc btc /\ isolated WitnessPubKeyHashAddrID obtc btc /\
    isolated WitnessScriptHashAddrID obtc btc /\ isolated HDPrivateKeyID obtc btc /\
    isolated HDPublicKeyID obtc btc /\ isolated HDCoinType obtc btc) /\
  validateOBTCNamespaceIsolation = Ok tt.
Proof. split; [apply validateNamespaces_spec|]. vm_compute. reflexivity. Qed.

(** One expiry key everywhere. On every OBTC network and for every block
    height, the key consensus computes for a coin and the key the index computes
    are the same number, the height plus the window, with no wrap-around: older
    coins have smaller keys, and the key is a block height again below the last
    window of heights. *)
Theorem expiry_key_exact params ep ip h :
  GetExpiryParams params = Some ep -> GetExpiryIndexParams params = Some ip -> 0 <= h < 2^31 ->
  CalculateExpiryKey ep h = h + WindowBlocks ep /\
  eiCalculateExpiryKey ip h = h + WindowBlocks ep /\
  (h < 2^31 - WindowBlocks ep -> i32 (CalculateExpiryKey ep h) = h + WindowBlocks ep).
Proof.
  intros Hp Hi Hh. pose proof (pk_window _ (GetExpiryParams_ok _ _ Hp)) as Hw.
  assert (Hk : CalculateExpiryKey ep h = h + WindowBlocks ep) by (by apply CalculateExpiryKey_nowrap).
  split; [done|]. split.
  - unfold GetExpiryIndexParams in Hi. rewrite Hp in Hi. injection Hi as <-. exact Hk.
  - intros Hlt. rewrite Hk. apply i32_id. widths. lia.
Qed.

Lemma expiry_key_exact_witness :
  exists ep ip, GetExpiryParams ObtcMainNetParams = Some ep /\
    GetExpiryIndexParams ObtcMainNetParams = Some ip /\ eiCalculateExpiryKey ip 1000 = 1000 + WindowBlocks ep.
Proof.
  eexists _, _. split; [reflexivity|]. split; [reflexivity|].
  refine (proj1 (proj2 (expiry_key_exact ObtcMainNetParams _ _ 1000 eq_refl eq_refl _))).
  split; [discriminate|reflexivity].
Defined.
