(* ===== verification/Sha256.v ===== *)
(** * SHA-256

    Go's [crypto/sha256] (FIPS 180-4), which the program calls for transaction
    ids, REAP marker digests, MuHash elements and accumulator roots, together
    with [chainhash.DoubleHashB] of src/chaincfg/chainhash/hashfuncs.go. The
    definition computes, so the digests of the witnesses are the real ones. *)

From S2P Require Import Prelude.

Module Sha256.

Definition add32 (a b : Z) : Z := (a + b) mod 2^32.

Definition rotr (x n : Z) : Z :=
  Z.lor (Z.shiftr x n) (Z.shiftl x (32 - n) mod 2^32).

Definition ch (x y z : Z) : Z := Z.lxor (Z.land x y) (Z.land (Z.lxor x (2^32 - 1)) z).
Definition maj (x y z : Z) : Z := Z.lxor (Z.lxor (Z.land x y) (Z.land x z)) (Z.land y z).
Definition bsig0 (x : Z) : Z := Z.lxor (Z.lxor (rotr x 2) (rotr x 13)) (rotr x 22).
Definition bsig1 (x : Z) : Z := Z.lxor (Z.lxor (rotr x 6) (rotr x 11)) (rotr x 25).
Definition ssig0 (x : Z) : Z := Z.lxor (Z.lxor (rotr x 7) (rotr x 18)) (Z.shiftr x 3).
Definition ssig1 (x : Z) : Z := Z.lxor (Z.lxor (rotr x 17) (rotr x 19)) (Z.shiftr x 10).

(** ** Constants

    FIPS 180-4 defines them from the primes in order: the round constants are
    the first 32 bits of the fractional parts of the cube roots of the first 64,
    the initial state those of the square roots of the first eight. *)

Definition isPrime (n : Z) : bool :=
  forallb (fun d => negb (n mod Z.of_nat d =? 0)) (seq 2 (Z.to_nat n - 2)).

Definition primes : list Z :=
  Eval vm_compute in List.filter isPrime (map Z.of_nat (seq 2 310)).

(** The integer cube root of [n], bit by bit from bit [k - 1] down. *)
Fixpoint cbrtFrom (k : nat) (r n : Z) : Z :=
  match k with
  | O => r
  | S k' =>
      let r' := r + 2 ^ Z.of_nat k' in
      cbrtFrom k' (if r' * r' * r' <=? n then r' else r) n
  end.

Definition cbrtFraction (p : Z) : Z := cbrtFrom 36 0 (p * 2^96) mod 2^32.
Definition sqrtFraction (p : Z) : Z := Z.sqrt (p * 2^64) mod 2^32.

Definition K : list Z := Eval vm_compute in map cbrtFraction (take 64 primes).

Record State := mkState { sa : Z; sb : Z; sc : Z; sd : Z; se : Z; sf : Z; sg : Z; sh : Z }.

Definition init : State :=
  Eval vm_compute in
    match map sqrtFraction (take 8 primes) with
    | [a; b; c; d; e; f; g; h] => mkState a b c d e f g h
    | _ => mkState 0 0 0 0 0 0 0 0
    end.

(** The message schedule: [w] holds the last 16 words, newest last. *)
Definition next_word (w : list Z) : Z :=
  let at_ i := nth i w 0 in
  add32 (add32 (ssig1 (at_ 14%nat)) (at_ 9%nat)) (add32 (ssig0 (at_ 1%nat)) (at_ 0%nat)).

Definition round (s : State) (k w : Z) : State :=
  let t1 := add32 (add32 (sh s) (bsig1 (se s))) (add32 (add32 (ch (se s) (sf s) (sg s)) k) w) in
  let t2 := add32 (bsig0 (sa s)) (maj (sa s) (sb s) (sc s)) in
  mkState (add32 t1 t2) (sa s) (sb s) (sc s) (add32 (sd s) t1) (se s) (sf s) (sg s).

Fixpoint rounds (ks : list Z) (w : list Z) (s : State) : State :=
  match ks, w with
  | k :: ks', w0 :: wr => rounds ks' (wr ++ [next_word w]) (round s k w0)
  | _, _ => s
  end.

Definition compress (h : State) (block : list Z) : State :=
  let words := map (fun i => be_val (take 4 (drop (4 * i) block))) (seq 0 16) in
  let s := rounds K words h in
  mkState (add32 (sa h) (sa s)) (add32 (sb h) (sb s)) (add32 (sc h) (sc s)) (add32 (sd h) (sd s))
          (add32 (se h) (se s)) (add32 (sf h) (sf s)) (add32 (sg h) (sg s)) (add32 (sh h) (sh s)).

Definition pad (msg : list Z) : list Z :=
  let n := length msg in
  msg ++ [0x80] ++ replicate (Z.to_nat ((55 - Z.of_nat n) mod 64)) 0
      ++ be_bytes 8 (8 * Z.of_nat n).

Fixpoint absorb (fuel : nat) (h : State) (msg : list Z) : State :=
  match fuel with
  | O => h
  | S fuel' => absorb fuel' (compress h (take 64 msg)) (drop 64 msg)
  end.

Definition output (h : State) : list Z :=
  be_bytes 4 (sa h) ++ be_bytes 4 (sb h) ++ be_bytes 4 (sc h) ++ be_bytes 4 (sd h) ++
  be_bytes 4 (se h) ++ be_bytes 4 (sf h) ++ be_bytes 4 (sg h) ++ be_bytes 4 (sh h).

(** [sha256.Sum256] *)
Definition sum256 (msg : list Z) : list Z :=
  let p := pad msg in
  output (absorb (length p / 64)%nat init p).

Lemma length_sum256 msg : length (sum256 msg) = 32%nat.
Proof. unfold sum256, output. by rewrite !length_app, !length_be_bytes. Qed.

Lemma sum256_is_bytes msg : is_bytes (sum256 msg).
Proof.
  unfold sum256, output, is_bytes.
  repeat (apply Forall_app; split); apply be_bytes_is_bytes.
Qed.

(** FIPS 180-4 test vector: SHA-256("abc"). *)
Example sum256_abc : sum256 [0x61; 0x62; 0x63] = [
  0xba; 0x78; 0x16; 0xbf; 0x8f; 0x01; 0xcf; 0xea; 0x41; 0x41; 0x40; 0xde; 0x5d; 0xae; 0x22; 0x23;
  0xb0; 0x03; 0x61; 0xa3; 0x96; 0x17; 0x7a; 0x9c; 0xb4; 0x10; 0xff; 0x61; 0xf2; 0x00; 0x15; 0xad].
Proof. vm_compute. reflexivity. Qed.

End Sha256.

(** [chainhash.DoubleHashB] *)
Definition DoubleHashB (b : list Z) : list Z := Sha256.sum256 (Sha256.sum256 b).

Lemma length_DoubleHashB b : length (DoubleHashB b) = 32%nat.
Proof. apply Sha256.length_sum256. Qed.

(** The two-block padding case: SHA-256 of the 56-byte FIPS message. *)
Example sum256_two_blocks :
  take 4 (Sha256.sum256 (map (fun i => 0x61 + Z.of_nat i mod 4 + Z.of_nat (i / 4)) (seq 0 56)))
  = [0x24; 0x8d; 0x6a; 0x61].
Proof. vm_compute. reflexivity. Qed.
