(* ===== verification/Sha1.v ===== *)
(** * SHA-1

    Go's [crypto/sha1] (FIPS 180-4), which OP_SHA1 calls. The padding and the
    word operations are those of SHA-256. *)

From S2P Require Import Prelude Sha256.

Module Sha1.
Import Sha256.

Definition rotl (x n : Z) : Z := rotr x (32 - n).

Record State := mkState { sa : Z; sb : Z; sc : Z; sd : Z; se : Z }.

Definition init : State := mkState 0x67452301 0xefcdab89 0x98badcfe 0x10325476 0xc3d2e1f0.

(** The round function and constant of round [t]. *)
Definition f (t : nat) (x y z : Z) : Z :=
  if (t <? 20)%nat then ch x y z
  else if (t <? 40)%nat then Z.lxor (Z.lxor x y) z
  else if (t <? 60)%nat then maj x y z
  else Z.lxor (Z.lxor x y) z.

Definition k (t : nat) : Z :=
  if (t <? 20)%nat then 0x5a827999
  else if (t <? 40)%nat then 0x6ed9eba1
  else if (t <? 60)%nat then 0x8f1bbcdc
  else 0xca62c1d6.

(** [w] holds the last 16 words of the schedule, newest last. *)
Definition next_word (w : list Z) : Z :=
  let at_ i := nth i w 0 in
  rotl (Z.lxor (Z.lxor (at_ 13%nat) (at_ 8%nat)) (Z.lxor (at_ 2%nat) (at_ 0%nat))) 1.

Definition round (s : State) (t : nat) (w : Z) : State :=
  let temp := add32 (add32 (rotl (sa s) 5) (f t (sb s) (sc s) (sd s)))
                    (add32 (add32 (se s) w) (k t)) in
  mkState temp (sa s) (rotl (sb s) 30) (sc s) (sd s).

Fixpoint rounds (ts : list nat) (w : list Z) (s : State) : State :=
  match ts, w with
  | t :: ts', w0 :: wr => rounds ts' (wr ++ [next_word w]) (round s t w0)
  | _, _ => s
  end.

Definition compress (h : State) (block : list Z) : State :=
  let words := map (fun i => be_val (take 4 (drop (4 * i) block))) (seq 0 16) in
  let s := rounds (seq 0 80) words h in
  mkState (add32 (sa h) (sa s)) (add32 (sb h) (sb s)) (add32 (sc h) (sc s))
          (add32 (sd h) (sd s)) (add32 (se h) (se s)).

Fixpoint absorb (fuel : nat) (h : State) (msg : list Z) : State :=
  match fuel with
  | O => h
  | S fuel' => absorb fuel' (compress h (take 64 msg)) (drop 64 msg)
  end.

Definition output (h : State) : list Z :=
  be_bytes 4 (sa h) ++ be_bytes 4 (sb h) ++ be_bytes 4 (sc h) ++ be_bytes 4 (sd h) ++ be_bytes 4 (se h).

(** [sha1.Sum] *)
Definition sum (msg : list Z) : list Z :=
  let p := pad msg in
  output (absorb (length p / 64)%nat init p).

Lemma length_sum msg : length (sum msg) = 20%nat.
Proof. unfold sum, output. by rewrite !length_app, !length_be_bytes. Qed.

Lemma sum_is_bytes msg : is_bytes (sum msg).
Proof.
  unfold sum, output, is_bytes.
  repeat (apply Forall_app; split); apply be_bytes_is_bytes.
Qed.

(** FIPS 180-4 test vector: SHA-1("abc"). *)
Lemma sum_abc : be_val (sum (string_bytes "abc")) = 0xa9993e364706816aba3e25717850c26c9cd0d89d.
Proof. vm_compute. reflexivity. Qed.

End Sha1.
