(* ===== verification/Wire.v ===== *)
(** * Transactions on the wire

    src/wire/common.go (variable-length integers) and src/wire/msgtx.go: the
    transaction data model, its encoder, its decoder and its size functions;
    [GetTransactionWeight] of src/blockchain/weight.go and [IsCoinBaseTx] of
    src/blockchain/validate.go.

    A reader is the list of bytes still to be read. The decoder's scratch slab
    (a 4 MiB buffer the scripts of one transaction share) is its remaining
    capacity: a script that does not fit is Go's slice-bounds panic. The final
    compaction of the scripts into one allocation keeps every script's bytes
    and is not visible in the result. *)

From S2P Require Import Prelude Sha256.

(** ** Data *)

(** A [chainhash.Hash] is 32 bytes; [OutPoint.Index] is a uint32. *)
Record OutPoint := mkOutPoint { Hash : list Z; Index : Z }.

#[export] Instance OutPoint_eq_dec : EqDecision OutPoint.
Proof. solve_decision. Defined.

#[export] Instance OutPoint_countable : Countable OutPoint.
Proof.
  refine (inj_countable' (fun op => (Hash op, Index op)) (fun p => mkOutPoint p.1 p.2) _).
  by intros [].
Defined.

Record TxIn := mkTxIn {
  PreviousOutPoint : OutPoint;
  SignatureScript : list Z;
  Witness : list (list Z);
  Sequence : Z }.

Record TxOut := mkTxOut { Value : Z; PkScript : list Z }.

Record MsgTx := mkMsgTx {
  Version : Z;
  TxIns : list TxIn;
  TxOuts : list TxOut;
  LockTime : Z }.

#[export] Instance TxIn_eq_dec : EqDecision TxIn.
Proof. solve_decision. Defined.
#[export] Instance TxOut_eq_dec : EqDecision TxOut.
Proof. solve_decision. Defined.
#[export] Instance MsgTx_eq_dec : EqDecision MsgTx.
Proof. solve_decision. Defined.

Definition HashSize : nat := 32.
Definition MaxMessagePayload : Z := 1024 * 1024 * 32.
Definition maxTxInPerMessage : Z := MaxMessagePayload / 41 + 1.
Definition maxTxOutPerMessage : Z := MaxMessagePayload / 9 + 1.
Definition maxWitnessItemsPerInput : Z := 4000000.
Definition maxWitnessItemSize : Z := 4000000.
Definition scriptSlabSize : Z := 2 ^ 22.
Definition TxFlagMarker : Z := 0.
Definition WitnessFlag : Z := 1.

Inductive MessageEncoding := BaseEncoding | WitnessEncoding.

Definition isWitnessEncoding (e : MessageEncoding) : bool :=
  match e with WitnessEncoding => true | BaseEncoding => false end.

Definition zlen {A} (l : list A) : Z := Z.of_nat (length l).

Definition NewMsgTx (version : Z) : MsgTx := mkMsgTx version [] [] 0.
Definition AddTxIn (msg : MsgTx) (ti : TxIn) : MsgTx :=
  mkMsgTx (Version msg) (TxIns msg ++ [ti]) (TxOuts msg) (LockTime msg).
Definition AddTxOut (msg : MsgTx) (to : TxOut) : MsgTx :=
  mkMsgTx (Version msg) (TxIns msg) (TxOuts msg ++ [to]) (LockTime msg).

(** [HasWitness]: some input carries a non-empty witness stack. *)
Definition HasWitness (msg : MsgTx) : bool :=
  existsb (fun ti => negb (bool_decide (Witness ti = []))) (TxIns msg).

(** ** Encoding *)

Definition WriteVarIntBuf (val : Z) : list Z :=
  if val <? 0xfd then [u8 val]
  else if val <=? 2^16 - 1 then 0xfd :: le_bytes 2 val
  else if val <=? 2^32 - 1 then 0xfe :: le_bytes 4 val
  else 0xff :: le_bytes 8 val.

Definition VarIntSerializeSize (val : Z) : Z :=
  if val <? 0xfd then 1
  else if val <=? 2^16 - 1 then 3
  else if val <=? 2^32 - 1 then 5
  else 9.

Definition WriteVarBytesBuf (bs : list Z) : list Z := WriteVarIntBuf (zlen bs) ++ bs.

Definition writeOutPointBuf (op : OutPoint) : list Z := Hash op ++ le_bytes 4 (Index op).

Definition writeTxInBuf (ti : TxIn) : list Z :=
  writeOutPointBuf (PreviousOutPoint ti) ++ WriteVarBytesBuf (SignatureScript ti)
  ++ le_bytes 4 (Sequence ti).

Definition WriteTxOutBuf (to : TxOut) : list Z :=
  le_bytes 8 (u64 (Value to)) ++ WriteVarBytesBuf (PkScript to).

Definition writeTxWitnessBuf (wit : list (list Z)) : list Z :=
  WriteVarIntBuf (zlen wit) ++ concat (map WriteVarBytesBuf wit).

Definition btcEncode (enc : MessageEncoding) (msg : MsgTx) : list Z :=
  let doWitness := isWitnessEncoding enc && HasWitness msg in
  le_bytes 4 (u32 (Version msg))
  ++ (if doWitness then [TxFlagMarker; WitnessFlag] else [])
  ++ WriteVarIntBuf (zlen (TxIns msg)) ++ concat (map writeTxInBuf (TxIns msg))
  ++ WriteVarIntBuf (zlen (TxOuts msg)) ++ concat (map WriteTxOutBuf (TxOuts msg))
  ++ (if doWitness then concat (map (fun ti => writeTxWitnessBuf (Witness ti)) (TxIns msg)) else [])
  ++ le_bytes 4 (LockTime msg).

Definition Serialize (msg : MsgTx) : list Z := btcEncode WitnessEncoding msg.
Definition SerializeNoWitness (msg : MsgTx) : list Z := btcEncode BaseEncoding msg.

(** [TxHash]: the double SHA-256 of the encoding without witnesses. *)
Definition TxHash (msg : MsgTx) : list Z := DoubleHashB (SerializeNoWitness msg).

(** ** Sizes *)

Definition sumZ (l : list Z) : Z := fold_right Z.add 0 l.

Definition TxInSerializeSize (t : TxIn) : Z :=
  40 + VarIntSerializeSize (zlen (SignatureScript t)) + zlen (SignatureScript t).

Definition TxWitnessSerializeSize (t : list (list Z)) : Z :=
  VarIntSerializeSize (zlen t)
  + sumZ (map (fun it => VarIntSerializeSize (zlen it) + zlen it) t).

Definition TxOutSerializeSize (t : TxOut) : Z :=
  8 + VarIntSerializeSize (zlen (PkScript t)) + zlen (PkScript t).

Definition baseSize (msg : MsgTx) : Z :=
  8 + VarIntSerializeSize (zlen (TxIns msg)) + VarIntSerializeSize (zlen (TxOuts msg))
  + sumZ (map TxInSerializeSize (TxIns msg)) + sumZ (map TxOutSerializeSize (TxOuts msg)).

Definition SerializeSize (msg : MsgTx) : Z :=
  if HasWitness msg
  then baseSize msg + 2 + sumZ (map (fun t => TxWitnessSerializeSize (Witness t)) (TxIns msg))
  else baseSize msg.

Definition SerializeSizeStripped (msg : MsgTx) : Z := baseSize msg.

Definition WitnessScaleFactor : Z := 4.

(** [blockchain.GetTransactionWeight] *)
Definition GetTransactionWeight (msg : MsgTx) : Z :=
  SerializeSizeStripped msg * (WitnessScaleFactor - 1) + SerializeSize msg.

(** [blockchain.IsCoinBaseTx] *)
Definition zeroHash : list Z := replicate HashSize 0.

Definition IsCoinBaseTx (msg : MsgTx) : bool :=
  match TxIns msg with
  | [ti] => (Index (PreviousOutPoint ti) =? 2^32 - 1)
            && bool_decide (Hash (PreviousOutPoint ti) = zeroHash)
  | _ => false
  end.

(** ** Decoding *)

Inductive wire_error :=
| UnexpectedEOF
| MessageError (fn : string)
| errSuperfluousWitnessRecord
| SliceBoundsPanic.

(** A decoding step: from the bytes left to a value and the bytes left. *)
Definition decoder (A : Type) := list Z -> result wire_error (A * list Z).

(** [io.ReadFull(r, buf[:n])] *)
Definition readFull (n : nat) : decoder (list Z) := fun r =>
  if (length r <? n)%nat then Err UnexpectedEOF else Ok (take n r, drop n r).

Definition ReadVarIntBuf : decoder Z := fun r =>
  match r with
  | [] => Err UnexpectedEOF
  | discriminant :: r1 =>
      let canonical (n : nat) (min : Z) :=
        '(buf, r2) ← readFull n r1;
        let rv := le_val buf in
        if rv <? min then Err (MessageError "ReadVarInt") else Ok (rv, r2) in
      if discriminant =? 0xff then canonical 8%nat 0x100000000
      else if discriminant =? 0xfe then canonical 4%nat 0x10000
      else if discriminant =? 0xfd then canonical 2%nat 0xfd
      else Ok (discriminant, r1)
  end.

Definition readOutPointBuf : decoder OutPoint := fun r =>
  '(h, r1) ← readFull HashSize r;
  '(buf, r2) ← readFull 4 r1;
  Ok (mkOutPoint h (le_val buf), r2).

(** [readScriptBuf] with [s] the slab's remaining capacity. *)
Definition readScriptBuf (s : Z) (fieldName : string) : decoder (list Z) := fun r =>
  '(count, r1) ← ReadVarIntBuf r;
  if maxWitnessItemSize <? count then Err (MessageError "readScript")
  else if s <? count then Err SliceBoundsPanic
  else readFull (Z.to_nat count) r1.

Definition readTxInBuf (s : Z) : decoder TxIn := fun r =>
  '(op, r1) ← readOutPointBuf r;
  '(sig, r2) ← readScriptBuf s "transaction input signature script" r1;
  '(buf, r3) ← readFull 4 r2;
  Ok (mkTxIn op sig [] (le_val buf), r3).

Definition readTxOutBuf (s : Z) : decoder TxOut := fun r =>
  '(buf, r1) ← readFull 8 r;
  '(pk, r2) ← readScriptBuf s "transaction output public key script" r1;
  Ok (mkTxOut (i64 (le_val buf)) pk, r2).

(** The counted loops of [btcDecode]: [size] is how much of the slab an
    element takes, so that the next one reads into what is left. *)
Fixpoint readMany {A} (read : Z -> decoder A) (size : A -> Z) (n : nat) (s : Z) (r : list Z)
    : result wire_error (list A * Z * list Z) :=
  match n with
  | O => Ok ([], s, r)
  | S n' =>
      '(x, r1) ← read s r;
      '(xs, s', r2) ← readMany read size n' (s - size x) r1;
      Ok (x :: xs, s', r2)
  end.

(** The witness loop: one stack per input, in order. *)
Fixpoint readWitnesses (ins : list TxIn) (s : Z) (r : list Z)
    : result wire_error (list TxIn * Z * list Z) :=
  match ins with
  | [] => Ok ([], s, r)
  | ti :: ins' =>
      '(witCount, r1) ← ReadVarIntBuf r;
      if maxWitnessItemsPerInput <? witCount then Err (MessageError "MsgTx.BtcDecode")
      else
        '(wit, s1, r2) ← readMany (fun s => readScriptBuf s "script witness item") zlen
                            (Z.to_nat witCount) s r1;
        '(tis, s2, r3) ← readWitnesses ins' s1 r2;
        Ok (mkTxIn (PreviousOutPoint ti) (SignatureScript ti) wit (Sequence ti) :: tis, s2, r3)
  end.

(** The input count of [btcDecode], with the segwit marker and flag before it
    when they are there: the flag byte (0 when absent) and the count. *)
Definition readInputCount (enc : MessageEncoding) : decoder (Z * Z) := fun r0 =>
  '(count0, r1) ← ReadVarIntBuf r0;
  if (count0 =? TxFlagMarker) && isWitnessEncoding enc then
    '(f, r2) ← readFull 1 r1;
    if negb (le_val f =? WitnessFlag) then Err (MessageError "MsgTx.BtcDecode")
    else '(c, r3) ← ReadVarIntBuf r2; Ok (le_val f, c, r3)
  else Ok (0, count0, r1).

Definition btcDecode (enc : MessageEncoding) : decoder MsgTx := fun r =>
  '(buf, r0) ← readFull 4 r;
  let version := i32 (le_val buf) in
  '(flag, count, r2) ← readInputCount enc r0;
  if maxTxInPerMessage <? count then Err (MessageError "MsgTx.BtcDecode")
  else
    '(ins, s1, r3) ← readMany readTxInBuf (fun ti => zlen (SignatureScript ti))
                       (Z.to_nat count) scriptSlabSize r2;
    '(ocount, r4) ← ReadVarIntBuf r3;
    if maxTxOutPerMessage <? ocount then Err (MessageError "MsgTx.BtcDecode")
    else
      '(outs, s2, r5) ← readMany readTxOutBuf (fun to => zlen (PkScript to))
                          (Z.to_nat ocount) s1 r4;
      '(ins', r6) ←
        (if negb (flag =? 0) && isWitnessEncoding enc then
           '(tis, _, r5') ← readWitnesses ins s2 r5;
           if negb (HasWitness (mkMsgTx version tis outs 0)) then Err errSuperfluousWitnessRecord
           else Ok (tis, r5')
         else Ok (ins, r5));
      '(lt, r7) ← readFull 4 r6;
      Ok (mkMsgTx version ins' outs (le_val lt), r7).

(** ** Well-formed transactions *)

Definition wf_outpoint (op : OutPoint) : Prop := length (Hash op) = HashSize /\ is_u32 (Index op).

Definition wf_txin (ti : TxIn) : Prop :=
  wf_outpoint (PreviousOutPoint ti) /\ is_u32 (Sequence ti) /\
  zlen (SignatureScript ti) <= maxWitnessItemSize /\
  zlen (Witness ti) <= maxWitnessItemsPerInput /\
  Forall (fun it => zlen it <= maxWitnessItemSize) (Witness ti).

Definition wf_txout (to : TxOut) : Prop :=
  is_i64 (Value to) /\ zlen (PkScript to) <= maxWitnessItemSize.

Definition witnessSize (ti : TxIn) : Z := sumZ (map zlen (Witness ti)).

(** The bytes of scripts and witness items, which share the decoder's slab. *)
Definition totalScriptSize (msg : MsgTx) : Z :=
  sumZ (map (fun ti => zlen (SignatureScript ti)) (TxIns msg))
  + sumZ (map (fun to => zlen (PkScript to)) (TxOuts msg))
  + sumZ (map witnessSize (TxIns msg)).

Record wf_tx (msg : MsgTx) : Prop := {
  wf_version : is_i32 (Version msg);
  wf_locktime : is_u32 (LockTime msg);
  wf_ins : Forall wf_txin (TxIns msg);
  wf_outs : Forall wf_txout (TxOuts msg);
  wf_nins : zlen (TxIns msg) <= maxTxInPerMessage;
  wf_nouts : zlen (TxOuts msg) <= maxTxOutPerMessage;
  wf_scripts : totalScriptSize msg <= scriptSlabSize
}.

(** ** Reading back what was written *)

Lemma zlen_nonneg {A} (l : list A) : 0 <= zlen l.
Proof. unfold zlen; lia. Qed.

Lemma zlen_app {A} (l1 l2 : list A) : zlen (l1 ++ l2) = zlen l1 + zlen l2.
Proof. unfold zlen; rewrite length_app; lia. Qed.

Lemma zlen_cons {A} (x : A) l : zlen (x :: l) = 1 + zlen l.
Proof. unfold zlen; cbn [length]; lia. Qed.

Lemma sumZ_cons x l : sumZ (x :: l) = x + sumZ l.
Proof. done. Qed.

Lemma sumZ_app l1 l2 : sumZ (l1 ++ l2) = sumZ l1 + sumZ l2.
Proof. induction l1 as [|x l1 IH]; [done|]. cbn [app]. rewrite !sumZ_cons, IH. lia. Qed.

Lemma sumZ_nonneg {A} (f : A -> Z) l : (forall x, 0 <= f x) -> 0 <= sumZ (map f l).
Proof.
  intros Hf; induction l as [|x l IH]; [done|].
  cbn [map]. rewrite sumZ_cons. specialize (Hf x). lia.
Qed.

Lemma readFull_app n a r : length a = n -> readFull n (a ++ r) = Ok (a, r).
Proof.
  intros <-. unfold readFull.
  destruct (Nat.ltb_spec (length (a ++ r)) (length a)) as [H|H];
    [rewrite length_app in H; lia|].
  by rewrite take_app_length, drop_app_length.
Qed.

Lemma readFull_le n z r : readFull n (le_bytes n z ++ r) = Ok (le_bytes n z, r).
Proof. apply readFull_app, length_le_bytes. Qed.

Lemma pow256_8 : pow256 8 = 2^64.
Proof. done. Qed.
Lemma pow256_4 : pow256 4 = 2^32.
Proof. done. Qed.
Lemma pow256_2 : pow256 2 = 2^16.
Proof. done. Qed.

Lemma ReadVarInt_Write v r :
  is_u64 v -> ReadVarIntBuf (WriteVarIntBuf v ++ r) = Ok (v, r).
Proof.
  intros Hv. unfold WriteVarIntBuf, ReadVarIntBuf. widths.
  repeat case_match; rewrite ?Z.ltb_lt, ?Z.ltb_ge, ?Z.leb_le, ?Z.leb_gt in *;
    cbn [app] in *; simplify_eq; try (unfold u8 in *; rewrite ?Z.mod_small in * by lia; lia);
    rewrite ?readFull_le; cbn [mbind result_bind]; rewrite ?le_val_le_bytes.
  - by unfold u8; rewrite Z.mod_small by lia.
  - rewrite pow256_2, Z.mod_small by lia. by case_match; [lia|].
  - rewrite pow256_4, Z.mod_small by lia. by case_match; [lia|].
  - rewrite pow256_8, Z.mod_small by lia. by case_match; [lia|].
Qed.

Lemma length_WriteVarInt v : zlen (WriteVarIntBuf v) = VarIntSerializeSize v.
Proof.
  unfold WriteVarIntBuf, VarIntSerializeSize, zlen.
  repeat case_match; cbn [length]; rewrite ?length_le_bytes; lia.
Qed.

Lemma readScript_Write s name bs r :
  zlen bs <= maxWitnessItemSize -> zlen bs <= s ->
  readScriptBuf s name (WriteVarBytesBuf bs ++ r) = Ok (bs, r).
Proof.
  intros H1 H2. unfold readScriptBuf, WriteVarBytesBuf.
  pose proof (zlen_nonneg bs). unfold maxWitnessItemSize in *.
  rewrite <- app_assoc, ReadVarInt_Write by (widths; lia). cbn [mbind result_bind].
  destruct (Z.ltb_spec 4000000 (zlen bs)); [lia|].
  destruct (Z.ltb_spec s (zlen bs)); [lia|].
  apply readFull_app. unfold zlen; lia.
Qed.

Lemma readOutPoint_write op r :
  wf_outpoint op -> readOutPointBuf (writeOutPointBuf op ++ r) = Ok (op, r).
Proof.
  intros [Hh Hi]. unfold readOutPointBuf, writeOutPointBuf. widths.
  rewrite <- app_assoc, readFull_app by done. cbn [mbind result_bind].
  rewrite readFull_le. cbn [mbind result_bind].
  rewrite le_val_le_bytes, pow256_4, Z.mod_small by lia. by destruct op.
Qed.

(** An input read back has no witness yet: witnesses come after the outputs. *)
Definition stripWitness (ti : TxIn) : TxIn :=
  mkTxIn (PreviousOutPoint ti) (SignatureScript ti) [] (Sequence ti).

Lemma readTxIn_write s ti r :
  wf_txin ti -> zlen (SignatureScript ti) <= s ->
  readTxInBuf s (writeTxInBuf ti ++ r) = Ok (stripWitness ti, r).
Proof.
  intros (Hop & Hseq & Hsig & _) Hs. unfold readTxInBuf, writeTxInBuf. widths.
  rewrite <- !app_assoc, readOutPoint_write by done. cbn [mbind result_bind].
  rewrite readScript_Write by done. cbn [mbind result_bind].
  rewrite readFull_le. cbn [mbind result_bind].
  by rewrite le_val_le_bytes, pow256_4, Z.mod_small by lia.
Qed.

Lemma readTxOut_write s to r :
  wf_txout to -> zlen (PkScript to) <= s ->
  readTxOutBuf s (WriteTxOutBuf to ++ r) = Ok (to, r).
Proof.
  intros [Hv Hpk] Hs. unfold readTxOutBuf, WriteTxOutBuf.
  rewrite <- !app_assoc, readFull_le. cbn [mbind result_bind].
  rewrite readScript_Write by done. cbn [mbind result_bind].
  rewrite le_val_le_bytes, pow256_8, Z.mod_small by apply u64_range.
  rewrite i64_u64 by done. by destruct to.
Qed.

(** A counted loop reads back a list written element by element, when reading
    back one element works and the slab holds them all. *)
Lemma readMany_write {A B} (read : Z -> decoder B) (size : B -> Z) (write : A -> list Z)
    (f : A -> B) (P : A -> Prop) l s r :
  (forall x, 0 <= size (f x)) ->
  (forall x s r, P x -> size (f x) <= s -> read s (write x ++ r) = Ok (f x, r)) ->
  Forall P l -> sumZ (map (fun x => size (f x)) l) <= s ->
  readMany read size (length l) s (concat (map write l) ++ r)
  = Ok (map f l, s - sumZ (map (fun x => size (f x)) l), r).
Proof.
  intros Hpos Hread HP. revert s; induction HP as [|x l Hx HP IH]; intros s Hs.
  - cbn. by rewrite Z.sub_0_r.
  - cbn [map concat length readMany] in *. rewrite sumZ_cons in *.
    pose proof (sumZ_nonneg (fun x => size (f x)) l Hpos). specialize (Hpos x).
    rewrite <- app_assoc, Hread by (done || lia). cbn [mbind result_bind].
    rewrite IH by lia. cbn [mbind result_bind]. by rewrite Z.sub_add_distr.
Qed.

Lemma map_id_ext {A} (l : list A) : map (fun x => x) l = l.
Proof. by rewrite map_id. Qed.

Lemma readWitnesses_write ins s r :
  Forall wf_txin ins -> sumZ (map witnessSize ins) <= s ->
  readWitnesses (map stripWitness ins) s
    (concat (map (fun ti => writeTxWitnessBuf (Witness ti)) ins) ++ r)
  = Ok (ins, s - sumZ (map witnessSize ins), r).
Proof.
  intros Hwf. revert s; induction Hwf as [|ti ins Hti Hwf IH]; intros s Hs.
  - cbn. by rewrite Z.sub_0_r.
  - cbn [map concat readWitnesses] in *. rewrite sumZ_cons in *.
    assert (0 <= witnessSize ti /\ 0 <= sumZ (map witnessSize ins)) as [? ?].
    { split; [apply sumZ_nonneg, zlen_nonneg|].
      apply sumZ_nonneg; intros; apply sumZ_nonneg, zlen_nonneg. }
    destruct Hti as (_ & _ & _ & Hn & Hits). unfold writeTxWitnessBuf.
    pose proof (zlen_nonneg (Witness ti)). unfold maxWitnessItemsPerInput in *.
    rewrite <- !app_assoc, ReadVarInt_Write by (widths; lia). cbn [mbind result_bind].
    destruct (Z.ltb_spec 4000000 (zlen (Witness ti))); [lia|].
    replace (Z.to_nat (zlen (Witness ti))) with (length (Witness ti)) by (unfold zlen; lia).
    rewrite (readMany_write _ zlen WriteVarBytesBuf (fun x => x)
               (fun it => zlen it <= maxWitnessItemSize));
      [|intros; apply zlen_nonneg|intros; by apply readScript_Write|done|
       change (witnessSize ti <= s); lia].
    cbn [mbind result_bind]. rewrite map_id_ext.
    change (sumZ (map (fun x => zlen x) (Witness ti))) with (witnessSize ti).
    rewrite IH by lia. cbn [mbind result_bind].
    rewrite Z.sub_add_distr. by destruct ti.
Qed.

Lemma map_stripWitness_id ins :
  existsb (fun ti => negb (bool_decide (Witness ti = []))) ins = false ->
  map stripWitness ins = ins.
Proof.
  induction ins as [|[op sig wit sq] ins IH]; cbn; [done|].
  intros [Hw Hi]%orb_false_iff. apply negb_false_iff, bool_decide_eq_true_1 in Hw.
  unfold stripWitness at 1; cbn. by rewrite Hw, IH.
Qed.

Definition stripTx (msg : MsgTx) : MsgTx :=
  mkMsgTx (Version msg) (map stripWitness (TxIns msg)) (TxOuts msg) (LockTime msg).

(** What a decoder of encoding [enc] can recover of a transaction. *)
Definition visible (enc : MessageEncoding) (msg : MsgTx) : MsgTx :=
  match enc with WitnessEncoding => msg | BaseEncoding => stripTx msg end.

Lemma readInputCount_write enc (doW : bool) n r :
  is_u64 n -> (enc = WitnessEncoding -> n <> 0) -> (doW = true -> enc = WitnessEncoding) ->
  readInputCount enc ((if doW then [TxFlagMarker; WitnessFlag] else []) ++ WriteVarIntBuf n ++ r)
  = Ok (if doW then 1 else 0, n, r).
Proof.
  intros Hn Hne HdoW. unfold readInputCount. destruct doW.
  - rewrite (HdoW eq_refl). cbn [app]. change (ReadVarIntBuf (TxFlagMarker :: ?l)) with
      (Ok (E:=wire_error) (TxFlagMarker, l)).
    cbn -[ReadVarIntBuf WriteVarIntBuf app].
    rewrite take_0, drop_0, ReadVarInt_Write by done. done.
  - cbn [app]. rewrite ReadVarInt_Write by done. cbn [mbind result_bind].
    destruct enc; cbn; [by rewrite andb_false_r|].
    destruct (Z.eqb_spec n TxFlagMarker) as [->|]; [by destruct Hne|done].
Qed.

(** The witness step of [btcDecode] on what [btcEncode] writes there. *)
Lemma readWitnessStep enc msg s r :
  Forall wf_txin (TxIns msg) -> sumZ (map witnessSize (TxIns msg)) <= s ->
  let doW := isWitnessEncoding enc && HasWitness msg in
  (if negb ((if doW then 1 else 0) =? 0) && isWitnessEncoding enc then
     '(tis, _, r5) ← readWitnesses (map stripWitness (TxIns msg)) s
       ((if doW then concat (map (fun ti => writeTxWitnessBuf (Witness ti)) (TxIns msg)) else [])
        ++ r);
     if negb (HasWitness (mkMsgTx (Version msg) tis (TxOuts msg) 0))
     then Err errSuperfluousWitnessRecord else Ok (tis, r5)
   else Ok (map stripWitness (TxIns msg),
       (if doW then concat (map (fun ti => writeTxWitnessBuf (Witness ti)) (TxIns msg)) else [])
       ++ r))
  = Ok (TxIns (visible enc msg), r).
Proof.
  intros Hins Hs doW. subst doW. destruct enc; cbn [isWitnessEncoding andb]; [done|].
  destruct (HasWitness msg) eqn:HW; cbn [negb Z.eqb andb].
  - rewrite readWitnesses_write by done. cbn [mbind result_bind].
    change (HasWitness _) with (HasWitness msg). by rewrite HW.
  - cbn. by rewrite map_stripWitness_id.
Qed.

Lemma btcDecode_write enc msg r :
  wf_tx msg -> (enc = WitnessEncoding -> TxIns msg <> []) ->
  btcDecode enc (btcEncode enc msg ++ r) = Ok (visible enc msg, r).
Proof.
  intros [Hv Hlt Hins Houts Hni Hno Hsc] Hne.
  pose proof (zlen_nonneg (TxIns msg)). pose proof (zlen_nonneg (TxOuts msg)).
  pose proof (sumZ_nonneg witnessSize (TxIns msg) (fun _ => sumZ_nonneg _ _ zlen_nonneg)).
  pose proof (sumZ_nonneg (fun to => zlen (PkScript to)) (TxOuts msg) (fun _ => zlen_nonneg _)).
  unfold totalScriptSize, scriptSlabSize in Hsc.
  unfold btcDecode, btcEncode.
  change maxTxInPerMessage with 818401 in *. change maxTxOutPerMessage with 3728271 in *.
  rewrite <- !app_assoc, readFull_le. cbn [mbind result_bind].
  rewrite le_val_le_bytes, pow256_4, Z.mod_small by apply u32_range. rewrite i32_u32 by done.
  rewrite readInputCount_write; [|widths; lia| |by destruct enc].
  2:{ intros E. specialize (Hne E). unfold zlen. by destruct (TxIns msg). }
  cbn [mbind result_bind]. case_match; [lia|].
  replace (Z.to_nat (zlen (TxIns msg))) with (length (TxIns msg)) by (unfold zlen; lia).
  rewrite (readMany_write _ _ writeTxInBuf stripWitness wf_txin);
    [|intros; apply zlen_nonneg|intros; by apply readTxIn_write|done|
     cbn [stripWitness SignatureScript]; unfold scriptSlabSize; lia].
  cbn [mbind result_bind]. rewrite ReadVarInt_Write by (widths; lia). cbn [mbind result_bind].
  case_match; [lia|].
  replace (Z.to_nat (zlen (TxOuts msg))) with (length (TxOuts msg)) by (unfold zlen; lia).
  rewrite (readMany_write _ _ WriteTxOutBuf (fun x => x) wf_txout);
    [|intros; apply zlen_nonneg|intros; by apply readTxOut_write|done|
     cbn [stripWitness SignatureScript]; unfold scriptSlabSize; lia].
  cbn [mbind result_bind]. rewrite map_id_ext.
  rewrite (readWitnessStep enc msg);
    [|done|cbn [stripWitness SignatureScript]; unfold scriptSlabSize; lia].
  cbn [mbind result_bind]. rewrite readFull_le. cbn [mbind result_bind].
  rewrite le_val_le_bytes, pow256_4, Z.mod_small by done. by destruct enc, msg.
Qed.

(** Decoding what [BtcEncode] wrote gives the transaction back, whatever
    bytes follow it, for both encodings: with witnesses the whole transaction,
    without them the transaction with its witnesses removed. The transaction
    must fit the decoder's limits, and under the witness encoding it must have
    an input (an encoding with none reads as the segwit marker). *)
Theorem btcDecode_btcEncode enc msg r :
  wf_tx msg -> (enc = WitnessEncoding -> TxIns msg <> []) ->
  btcDecode enc (btcEncode enc msg ++ r) = Ok (visible enc msg, r).
Proof. apply btcDecode_write. Qed.

Lemma zlen_le_bytes n z : zlen (le_bytes n z) = Z.of_nat n.
Proof. unfold zlen. by rewrite length_le_bytes. Qed.

Lemma zlen_WriteVarBytes bs : zlen (WriteVarBytesBuf bs) = VarIntSerializeSize (zlen bs) + zlen bs.
Proof. unfold WriteVarBytesBuf. by rewrite zlen_app, length_WriteVarInt. Qed.

Lemma zlen_concat_map {A} (f : A -> list Z) (g : A -> Z) l :
  Forall (fun x => zlen (f x) = g x) l -> zlen (concat (map f l)) = sumZ (map g l).
Proof.
  induction 1 as [|x l Hx Hl IH]; [done|].
  cbn [map concat]. by rewrite zlen_app, sumZ_cons, IH, Hx.
Qed.

Definition hash_sized (ti : TxIn) : Prop := length (Hash (PreviousOutPoint ti)) = HashSize.

Lemma zlen_writeTxIn ti : hash_sized ti -> zlen (writeTxInBuf ti) = TxInSerializeSize ti.
Proof.
  intros H. unfold writeTxInBuf, writeOutPointBuf, TxInSerializeSize.
  rewrite !zlen_app, zlen_WriteVarBytes, !zlen_le_bytes. unfold hash_sized in H.
  replace (zlen (Hash (PreviousOutPoint ti))) with 32 by (unfold zlen; rewrite H; done). lia.
Qed.

Lemma zlen_WriteTxOut to : zlen (WriteTxOutBuf to) = TxOutSerializeSize to.
Proof.
  unfold WriteTxOutBuf, TxOutSerializeSize.
  rewrite zlen_app, zlen_WriteVarBytes, zlen_le_bytes. lia.
Qed.

Lemma zlen_writeTxWitness wit : zlen (writeTxWitnessBuf wit) = TxWitnessSerializeSize wit.
Proof.
  unfold writeTxWitnessBuf, TxWitnessSerializeSize.
  rewrite zlen_app, length_WriteVarInt. f_equal.
  apply zlen_concat_map, Forall_forall. intros; apply zlen_WriteVarBytes.
Qed.

(** The size functions are exact. [SerializeSize] and
    [SerializeSizeStripped] return the number of bytes [Serialize] and
    [SerializeNoWitness] write, and the weight that
    [GetTransactionWeight] computes from them is therefore three times the
    stripped encoding plus the full one. *)
Lemma SerializeSize_exact msg :
  Forall hash_sized (TxIns msg) ->
  SerializeSize msg = zlen (Serialize msg) /\
  SerializeSizeStripped msg = zlen (SerializeNoWitness msg) /\
  GetTransactionWeight msg = 3 * zlen (SerializeNoWitness msg) + zlen (Serialize msg).
Proof.
  intros Hh.
  assert (Hin : zlen (concat (map writeTxInBuf (TxIns msg)))
                = sumZ (map TxInSerializeSize (TxIns msg))).
  { apply zlen_concat_map. eapply Forall_impl; [done|]. apply zlen_writeTxIn. }
  assert (Hout : zlen (concat (map WriteTxOutBuf (TxOuts msg)))
                 = sumZ (map TxOutSerializeSize (TxOuts msg))).
  { apply zlen_concat_map, Forall_forall. intros; apply zlen_WriteTxOut. }
  assert (H2 : SerializeSizeStripped msg = zlen (SerializeNoWitness msg)).
  { unfold SerializeSizeStripped, SerializeNoWitness, btcEncode, baseSize. cbn [isWitnessEncoding andb].
    rewrite !zlen_app, !length_WriteVarInt, !zlen_le_bytes, Hin, Hout.
    change (zlen (@nil Z)) with 0. lia. }
  assert (H1 : SerializeSize msg = zlen (Serialize msg)).
  { unfold SerializeSize, Serialize, btcEncode, baseSize. cbn [isWitnessEncoding andb].
    rewrite !zlen_app, !length_WriteVarInt, !zlen_le_bytes, Hin, Hout.
    destruct (HasWitness msg).
    - rewrite (zlen_concat_map _ (fun t => TxWitnessSerializeSize (Witness t)));
        [change (zlen [TxFlagMarker; WitnessFlag]) with 2; lia|].
      apply Forall_forall. intros; apply zlen_writeTxWitness.
    - change (zlen (@nil Z)) with 0. lia. }
  split_and!; [done|done|]. unfold GetTransactionWeight, WitnessScaleFactor. lia.
Qed.

(** A two-input, two-output transaction with a witness, for the witnesses below. *)
Definition sampleTx : MsgTx :=
  mkMsgTx 2
    [mkTxIn (mkOutPoint (replicate 32 7) 1) [1; 2; 3] [[9; 9]; []] (2^32 - 1);
     mkTxIn (mkOutPoint (replicate 32 8) 0) [] [] 5]
    [mkTxOut 5000 [118; 169]; mkTxOut (-1) []] 77.

Lemma wf_sampleTx : wf_tx sampleTx.
Proof.
  assert (Forall wf_txin (TxIns sampleTx)).
  { unfold sampleTx, wf_txin, wf_outpoint, is_u32; cbn [TxIns].
    repeat apply Forall_cons_2; [..|apply Forall_nil_2];
      (split_and!; [done..|repeat apply Forall_cons_2; done || apply Forall_nil_2]). }
  assert (Forall wf_txout (TxOuts sampleTx)).
  { unfold sampleTx, wf_txout, is_i64; cbn [TxOuts].
    repeat apply Forall_cons_2; [..|apply Forall_nil_2]; split_and!; done. }
  by split.
Qed.

Lemma btcDecode_btcEncode_witness :
  btcDecode WitnessEncoding (btcEncode WitnessEncoding sampleTx ++ [1; 2]) = Ok (sampleTx, [1; 2]) /\
  btcDecode BaseEncoding (btcEncode BaseEncoding sampleTx ++ []) = Ok (stripTx sampleTx, []).
Proof.
  split.
  - exact (btcDecode_btcEncode WitnessEncoding sampleTx [1; 2] wf_sampleTx
             (fun _ H => ltac:(discriminate H))).
  - exact (btcDecode_btcEncode BaseEncoding sampleTx [] wf_sampleTx
             (fun H => ltac:(discriminate H))).
Defined.
