(* ===== verification/Encode.v ===== *)
(** * Keys and values of the expiry index

    src/blockchain/expiryindex/encode.go: outpoints, expiry keys, and the
    composite keys whose byte order is the order the index is scanned in;
    [compareOutPoint] of src/blockchain/expiryindex/expiryindex.go and
    [compareReapOutPoint] of src/blockchain/validation_reap.go, the two orders
    on outpoints the encodings are built to agree with. *)

From S2P Require Import Prelude Sha256 Wire.

Definition outPointEncodedSize : nat := HashSize + 4.
Definition expiryKeyEncodedSize : nat := 8.
Definition orderedOutPointEncodedSize : nat := HashSize + 4.
Definition expiryOutpointCompositeKeySize : nat :=
  expiryKeyEncodedSize + orderedOutPointEncodedSize.
Definition amountKeyEncodedSize : nat := 8.
Definition reapStrictCompositeKeySize : nat :=
  expiryKeyEncodedSize + amountKeyEncodedSize + orderedOutPointEncodedSize.

Definition emptyIndexValue : list Z := [].

(** The errors of this file, each with the length it was given. *)
Inductive encode_error :=
| InvalidOutPointLength (got : nat)
| InvalidOrderedOutPointLength (got : nat)
| InvalidExpiryKeyLength (got : nat)
| InvalidExpiryCompositeKeyLength (got : nat)
| InvalidReapOrderOutPointLength (got : nat)
| InvalidReapStrictKeyLength (got : nat)
| NegativeReapAmount (amount : Z)
| ReapAmountExceedsInt64 (amount : Z).

Definition encodeOutPoint (op : OutPoint) : list Z := Hash op ++ le_bytes 4 (Index op).

Definition decodeOutPoint (encoded : list Z) : result encode_error OutPoint :=
  if negb (length encoded =? outPointEncodedSize)%nat
  then Err (InvalidOutPointLength (length encoded))
  else Ok (mkOutPoint (take HashSize encoded) (le_val (drop HashSize encoded))).

Definition encodeOrderedOutPoint (op : OutPoint) : list Z :=
  reverse (Hash op) ++ be_bytes 4 (Index op).

Definition decodeOrderedOutPoint (encoded : list Z) : result encode_error OutPoint :=
  if negb (length encoded =? orderedOutPointEncodedSize)%nat
  then Err (InvalidOrderedOutPointLength (length encoded))
  else Ok (mkOutPoint (reverse (take HashSize encoded)) (be_val (drop HashSize encoded))).

Definition encodeExpiryKey (expiry : Z) : list Z := be_bytes 8 expiry.

Definition decodeExpiryKey (encoded : list Z) : result encode_error Z :=
  if negb (length encoded =? expiryKeyEncodedSize)%nat
  then Err (InvalidExpiryKeyLength (length encoded))
  else Ok (be_val encoded).

Definition encodeExpiryOutpointCompositeKey (expiryKey : Z) (outpoint : OutPoint) : list Z :=
  be_bytes 8 expiryKey ++ encodeOrderedOutPoint outpoint.

Definition decodeExpiryOutpointCompositeKey (encoded : list Z)
    : result encode_error (Z * OutPoint) :=
  if negb (length encoded =? expiryOutpointCompositeKeySize)%nat
  then Err (InvalidExpiryCompositeKeyLength (length encoded))
  else
    expiryKey ← decodeExpiryKey (take expiryKeyEncodedSize encoded);
    outpoint ← decodeOrderedOutPoint (drop expiryKeyEncodedSize encoded);
    Ok (expiryKey, outpoint).

Definition encodeReapOrderOutPoint (op : OutPoint) : list Z :=
  Hash op ++ be_bytes 4 (Index op).

Definition decodeReapOrderOutPoint (encoded : list Z) : result encode_error OutPoint :=
  if negb (length encoded =? orderedOutPointEncodedSize)%nat
  then Err (InvalidReapOrderOutPointLength (length encoded))
  else Ok (mkOutPoint (take HashSize encoded) (be_val (drop HashSize encoded))).

Definition encodeReapStrictCompositeKey (expiryKey amount : Z) (outpoint : OutPoint)
    : result encode_error (list Z) :=
  if amount <? 0 then Err (NegativeReapAmount amount)
  else Ok (be_bytes 8 expiryKey ++ be_bytes 8 (u64 amount) ++ encodeReapOrderOutPoint outpoint).

Definition decodeReapStrictCompositeKey (encoded : list Z)
    : result encode_error (Z * Z * OutPoint) :=
  if negb (length encoded =? reapStrictCompositeKeySize)%nat
  then Err (InvalidReapStrictKeyLength (length encoded))
  else
    expiryKey ← decodeExpiryKey (take expiryKeyEncodedSize encoded);
    let amountU64 := be_val (take amountKeyEncodedSize (drop expiryKeyEncodedSize encoded)) in
    if 2^63 - 1 <? amountU64 then Err (ReapAmountExceedsInt64 amountU64)
    else
      outpoint ← decodeReapOrderOutPoint
                   (drop (expiryKeyEncodedSize + amountKeyEncodedSize) encoded);
      Ok (expiryKey, i64 amountU64, outpoint).

Definition expiryCompositePrefix (expiryKey : Z) : list Z := encodeExpiryKey expiryKey.

(** ** The two orders on outpoints *)

(** The loop of [compareOutPoint]: bytes [n-1] down to [0] of the hashes. *)
Fixpoint compareHashDown (n : nat) (a b : list Z) : comparison :=
  match n with
  | O => Eq
  | S i =>
      let x := nth i a 0 in
      let y := nth i b 0 in
      if x <? y then Lt else if y <? x then Gt else compareHashDown i a b
  end.

(** A Go [int] compared with 0 in the source: -1, 0, 1 are [Lt], [Eq], [Gt]. *)
Definition compareOutPoint (a b : OutPoint) : comparison :=
  let c := if negb (bool_decide (Hash a = Hash b))
           then compareHashDown HashSize (Hash a) (Hash b) else Eq in
  match c with
  | Eq => if Index a <? Index b then Lt else if Index b <? Index a then Gt else Eq
  | _ => c
  end.

(** [reapInputOrderKey] of src/blockchain/validation_reap.go. *)
Record reapInputOrderKey := mkReapInputOrderKey {
  rk_expiry : Z;
  rk_amount : Z;
  rk_op : OutPoint }.

Definition compareReapInputOrderKey (a b : reapInputOrderKey) : comparison :=
  if negb (rk_expiry a =? rk_expiry b) then
    (if rk_expiry a <? rk_expiry b then Lt else Gt)
  else if negb (rk_amount a =? rk_amount b) then
    (if rk_amount a <? rk_amount b then Lt else Gt)
  else
    let hcmp := bytes_compare (Hash (rk_op a)) (Hash (rk_op b)) in
    match hcmp with
    | Eq => if Index (rk_op a) <? Index (rk_op b) then Lt
            else if Index (rk_op b) <? Index (rk_op a) then Gt else Eq
    | _ => hcmp
    end.

(** ** Shape of the encodings *)

(** Outpoints whose hash is 32 bytes: every outpoint of the program. *)
Definition byte_outpoint (op : OutPoint) : Prop := wf_outpoint op /\ is_bytes (Hash op).

Lemma byte_outpoint_wf op : byte_outpoint op -> wf_outpoint op.
Proof. by intros []. Qed.

#[export] Hint Resolve byte_outpoint_wf : bytes_db.

Lemma length_Hash op : wf_outpoint op -> length (Hash op) = HashSize.
Proof. by intros []. Qed.

#[export] Hint Rewrite length_Hash using (solve [eauto with bytes_db]) : bytes_rw.

Lemma length_encodeOutPoint op : wf_outpoint op -> length (encodeOutPoint op) = outPointEncodedSize.
Proof. intros; unfold encodeOutPoint; bytes_auto. Qed.

Lemma length_encodeOrderedOutPoint op :
  wf_outpoint op -> length (encodeOrderedOutPoint op) = orderedOutPointEncodedSize.
Proof. intros; unfold encodeOrderedOutPoint; bytes_auto. Qed.

Lemma length_encodeReapOrderOutPoint op :
  wf_outpoint op -> length (encodeReapOrderOutPoint op) = orderedOutPointEncodedSize.
Proof. intros; unfold encodeReapOrderOutPoint; bytes_auto. Qed.

#[export] Hint Rewrite length_encodeOutPoint length_encodeOrderedOutPoint
  length_encodeReapOrderOutPoint using (solve [eauto with bytes_db]) : bytes_rw.

Lemma index_mod op : wf_outpoint op -> Index op mod pow256 4 = Index op.
Proof. intros [_ H]; by apply Z.mod_small. Qed.

(** ** Round trips *)

Lemma take_drop_app {A} n (a b : list A) :
  length a = n -> take n (a ++ b) = a /\ drop n (a ++ b) = b.
Proof. intros <-; by rewrite take_app_length, drop_app_length. Qed.

Lemma decodeOutPoint_encode op : wf_outpoint op -> decodeOutPoint (encodeOutPoint op) = Ok op.
Proof.
  intros H. unfold decodeOutPoint. rewrite length_encodeOutPoint, Nat.eqb_refl by done. cbn [negb].
  unfold encodeOutPoint. destruct (take_drop_app HashSize (Hash op) (le_bytes 4 (Index op)))
    as [-> ->]; [by apply H|].
  rewrite le_val_le_bytes, index_mod by done. by destruct op.
Qed.

Lemma decodeOrderedOutPoint_encode op :
  wf_outpoint op -> decodeOrderedOutPoint (encodeOrderedOutPoint op) = Ok op.
Proof.
  intros H. unfold decodeOrderedOutPoint.
  rewrite length_encodeOrderedOutPoint, Nat.eqb_refl by done. cbn [negb].
  unfold encodeOrderedOutPoint.
  destruct (take_drop_app HashSize (reverse (Hash op)) (be_bytes 4 (Index op)))
    as [-> ->]; [bytes_auto|].
  rewrite reverse_involutive, be_val_be_bytes, index_mod by done. by destruct op.
Qed.

Lemma decodeReapOrderOutPoint_encode op :
  wf_outpoint op -> decodeReapOrderOutPoint (encodeReapOrderOutPoint op) = Ok op.
Proof.
  intros H. unfold decodeReapOrderOutPoint.
  rewrite length_encodeReapOrderOutPoint, Nat.eqb_refl by done. cbn [negb].
  unfold encodeReapOrderOutPoint.
  destruct (take_drop_app HashSize (Hash op) (be_bytes 4 (Index op))) as [-> ->]; [bytes_auto|].
  rewrite be_val_be_bytes, index_mod by done. by destruct op.
Qed.

Lemma decodeExpiryKey_encode e : is_u64 e -> decodeExpiryKey (encodeExpiryKey e) = Ok e.
Proof.
  intros H. unfold decodeExpiryKey, encodeExpiryKey.
  rewrite length_be_bytes, be_val_be_bytes. cbn [negb Nat.eqb expiryKeyEncodedSize].
  by rewrite Z.mod_small.
Qed.

Lemma decodeExpiryOutpointCompositeKey_encode e op :
  is_u64 e -> wf_outpoint op ->
  decodeExpiryOutpointCompositeKey (encodeExpiryOutpointCompositeKey e op) = Ok (e, op).
Proof.
  intros He Hop.
  unfold decodeExpiryOutpointCompositeKey, encodeExpiryOutpointCompositeKey.
  destruct (take_drop_app expiryKeyEncodedSize (be_bytes 8 e) (encodeOrderedOutPoint op))
    as [-> ->]; [bytes_auto|].
  replace (length _) with expiryOutpointCompositeKeySize by bytes_auto.
  rewrite Nat.eqb_refl. cbn [negb].
  change (be_bytes 8 e) with (encodeExpiryKey e). rewrite decodeExpiryKey_encode by done.
  result_simpl. by rewrite decodeOrderedOutPoint_encode.
Qed.

(** The bytes of a strict key whose amount is not negative. *)
Definition reapStrictKeyBytes (e a : Z) (op : OutPoint) : list Z :=
  be_bytes 8 e ++ be_bytes 8 a ++ encodeReapOrderOutPoint op.

(** Amounts an output can carry through the index: not negative, in an int64. *)
Definition is_amount (a : Z) : Prop := 0 <= a < 2^63.

Lemma encodeReapStrict_Ok e a op :
  is_amount a -> encodeReapStrictCompositeKey e a op = Ok (reapStrictKeyBytes e a op).
Proof.
  intros H. unfold encodeReapStrictCompositeKey, is_amount in *.
  destruct (Z.ltb_spec a 0); [lia|]. by rewrite u64_id by (widths; lia).
Qed.

Lemma encodeReapStrict_amount e a op k :
  is_i64 a -> encodeReapStrictCompositeKey e a op = Ok k -> is_amount a.
Proof.
  unfold encodeReapStrictCompositeKey, is_amount, is_i64.
  destruct (Z.ltb_spec a 0); [done|lia].
Qed.

Lemma length_reapStrictKeyBytes e a op :
  wf_outpoint op -> length (reapStrictKeyBytes e a op) = reapStrictCompositeKeySize.
Proof. intros; unfold reapStrictKeyBytes; bytes_auto. Qed.

Lemma decodeReapStrict_encode e a op :
  is_u64 e -> is_amount a -> wf_outpoint op ->
  decodeReapStrictCompositeKey (reapStrictKeyBytes e a op) = Ok (e, a, op).
Proof.
  intros He Ha Hop. unfold decodeReapStrictCompositeKey.
  rewrite length_reapStrictKeyBytes, Nat.eqb_refl by done. cbn [negb].
  rewrite <- drop_drop. unfold reapStrictKeyBytes.
  destruct (take_drop_app expiryKeyEncodedSize (be_bytes 8 e)
              (be_bytes 8 a ++ encodeReapOrderOutPoint op)) as [-> ->]; [bytes_auto|].
  destruct (take_drop_app amountKeyEncodedSize (be_bytes 8 a) (encodeReapOrderOutPoint op))
    as [-> ->]; [bytes_auto|].
  change (be_bytes 8 e) with (encodeExpiryKey e). rewrite decodeExpiryKey_encode by done.
  result_simpl. unfold is_amount in Ha.
  rewrite be_val_be_bytes, pow256_8, Z.mod_small by lia.
  destruct (Z.ltb_spec (2^63 - 1) a); [lia|].
  rewrite decodeReapOrderOutPoint_encode by done. result_simpl.
  by rewrite i64_id by (widths; lia).
Qed.

#[export] Hint Rewrite length_reapStrictKeyBytes using (solve [eauto with bytes_db]) : bytes_rw.

Lemma encodeOutPoint_inj op1 op2 :
  wf_outpoint op1 -> wf_outpoint op2 -> encodeOutPoint op1 = encodeOutPoint op2 -> op1 = op2.
Proof.
  intros H1%decodeOutPoint_encode H2%decodeOutPoint_encode E.
  rewrite E, H2 in H1. by simplify_eq.
Qed.

Lemma expiryComposite_inj e1 op1 e2 op2 :
  is_u64 e1 -> is_u64 e2 -> wf_outpoint op1 -> wf_outpoint op2 ->
  encodeExpiryOutpointCompositeKey e1 op1 = encodeExpiryOutpointCompositeKey e2 op2 ->
  e1 = e2 /\ op1 = op2.
Proof.
  intros He1 He2 H1 H2 E.
  pose proof (decodeExpiryOutpointCompositeKey_encode e1 op1 He1 H1) as D.
  rewrite E, decodeExpiryOutpointCompositeKey_encode in D by done. by simplify_eq.
Qed.

Lemma reapStrictKeyBytes_inj e1 a1 op1 e2 a2 op2 :
  is_u64 e1 -> is_u64 e2 -> is_amount a1 -> is_amount a2 -> wf_outpoint op1 -> wf_outpoint op2 ->
  reapStrictKeyBytes e1 a1 op1 = reapStrictKeyBytes e2 a2 op2 ->
  e1 = e2 /\ a1 = a2 /\ op1 = op2.
Proof.
  intros He1 He2 Ha1 Ha2 H1 H2 E.
  pose proof (decodeReapStrict_encode e1 a1 op1 He1 Ha1 H1) as D.
  rewrite E, decodeReapStrict_encode in D by done. by simplify_eq.
Qed.

(** ** Byte order is scan order *)

Lemma ltb_compare x y : (if x <? y then Lt else if y <? x then Gt else Eq) = (x ?= y).
Proof.
  destruct (Z.ltb_spec x y), (Z.ltb_spec y x), (Z.compare_spec x y); try done; lia.
Qed.

Lemma compareHashDown_spec n a b :
  length a = n -> length b = n ->
  compareHashDown n a b = bytes_compare (reverse a) (reverse b).
Proof.
  revert a b; induction n as [|n IH]; intros a b Ha Hb.
  - by destruct a, b.
  - destruct a as [|x a _] using rev_ind; [done|]. destruct b as [|y b _] using rev_ind; [done|].
    rewrite length_app in Ha, Hb; cbn in Ha, Hb.
    assert (length a = n) as Hla by lia. assert (length b = n) as Hlb by lia.
    cbn [compareHashDown]. rewrite !reverse_snoc. cbn [bytes_compare].
    rewrite !app_nth2 by lia. rewrite Hla, Hlb, Nat.sub_diag. cbn [nth].
    rewrite <- ltb_compare. destruct (x <? y); [done|]. destruct (y <? x); [done|].
    rewrite <- (IH a b Hla Hlb). clear IH.
    assert (forall m, (m <= n)%nat ->
      compareHashDown m (a ++ [x]) (b ++ [y]) = compareHashDown m a b) as Hm; [|by apply Hm].
    induction m as [|m IHm]; intros Hle; [done|]. cbn [compareHashDown].
    rewrite !app_nth1 by lia. by rewrite IHm by lia.
Qed.

Lemma lex_compare_Z (c : comparison) x y :
  match c with Eq => if x <? y then Lt else if y <? x then Gt else Eq | _ => c end
  = lex c (x ?= y).
Proof. destruct c; cbn; [apply ltb_compare|done|done]. Qed.

Lemma compareOutPoint_spec a b :
  wf_outpoint a -> wf_outpoint b ->
  compareOutPoint a b = bytes_compare (encodeOrderedOutPoint a) (encodeOrderedOutPoint b).
Proof.
  intros [Ha Hia] [Hb Hib]. unfold compareOutPoint, encodeOrderedOutPoint.
  rewrite bytes_compare_app by (bytes_auto; congruence). rewrite bytes_compare_be by done.
  rewrite lex_compare_Z. f_equal.
  destruct (bool_decide_reflect (Hash a = Hash b)) as [->|]; cbn [negb].
  - by rewrite bytes_compare_refl.
  - by apply compareHashDown_spec.
Qed.

Lemma expiryComposite_compare e1 op1 e2 op2 :
  is_u64 e1 -> is_u64 e2 -> wf_outpoint op1 -> wf_outpoint op2 ->
  bytes_compare (encodeExpiryOutpointCompositeKey e1 op1) (encodeExpiryOutpointCompositeKey e2 op2)
  = lex (e1 ?= e2) (compareOutPoint op1 op2).
Proof.
  intros. unfold encodeExpiryOutpointCompositeKey.
  rewrite bytes_compare_app by bytes_auto.
  by rewrite bytes_compare_be, compareOutPoint_spec.
Qed.

Lemma compareReapInputOrderKey_spec e1 a1 op1 e2 a2 op2 :
  compareReapInputOrderKey (mkReapInputOrderKey e1 a1 op1) (mkReapInputOrderKey e2 a2 op2)
  = lex (e1 ?= e2) (lex (a1 ?= a2)
      (lex (bytes_compare (Hash op1) (Hash op2)) (Index op1 ?= Index op2))).
Proof.
  unfold compareReapInputOrderKey; cbn [rk_expiry rk_amount rk_op].
  rewrite lex_compare_Z.
  destruct (Z.eqb_spec e1 e2) as [->|]; cbn [negb].
  - rewrite Z.compare_refl. cbn [lex]. destruct (Z.eqb_spec a1 a2) as [->|]; cbn [negb].
    + by rewrite Z.compare_refl.
    + rewrite <- ltb_compare. destruct (Z.ltb_spec a1 a2), (Z.ltb_spec a2 a1); done || lia.
  - rewrite <- ltb_compare. destruct (Z.ltb_spec e1 e2), (Z.ltb_spec e2 e1); done || lia.
Qed.

Lemma reapStrict_compare e1 a1 op1 e2 a2 op2 :
  is_u64 e1 -> is_u64 e2 -> is_amount a1 -> is_amount a2 -> wf_outpoint op1 -> wf_outpoint op2 ->
  bytes_compare (reapStrictKeyBytes e1 a1 op1) (reapStrictKeyBytes e2 a2 op2)
  = compareReapInputOrderKey (mkReapInputOrderKey e1 a1 op1) (mkReapInputOrderKey e2 a2 op2).
Proof.
  intros He1 He2 Ha1 Ha2 [Hh1 Hi1] [Hh2 Hi2]. unfold reapStrictKeyBytes, encodeReapOrderOutPoint.
  rewrite !bytes_compare_app by (bytes_auto; congruence).
  unfold is_amount in *. rewrite !bytes_compare_be by (rewrite ?pow256_8; done || lia).
  by rewrite compareReapInputOrderKey_spec.
Qed.

(** ** Decoding accepts nothing else *)

Lemma is_bytes_take n k : is_bytes k -> is_bytes (take n k).
Proof. apply Forall_take. Qed.
Lemma is_bytes_drop n k : is_bytes k -> is_bytes (drop n k).
Proof. apply Forall_drop. Qed.
#[export] Hint Resolve is_bytes_take is_bytes_drop : bytes_db.
#[export] Hint Rewrite @length_take @length_drop : bytes_rw.

Lemma be_val_range n k : length k = n -> is_bytes k -> 0 <= be_val k < pow256 n.
Proof.
  intros <- Hk. unfold be_val. rewrite <- (length_reverse k).
  by apply le_val_range, Forall_reverse.
Qed.

Lemma decodeReapOrderOutPoint_inv k op :
  is_bytes k -> decodeReapOrderOutPoint k = Ok op -> wf_outpoint op /\ encodeReapOrderOutPoint op = k.
Proof.
  intros Hk. unfold decodeReapOrderOutPoint, orderedOutPointEncodedSize.
  destruct (Nat.eqb_spec (length k) (HashSize + 4)) as [Hl|]; cbn [negb]; [|done].
  intros E; injection E as <-.
  assert (length (drop HashSize k) = 4%nat) by bytes_auto.
  unfold wf_outpoint, encodeReapOrderOutPoint; cbn [Hash Index]. split.
  - split; [bytes_auto|]. apply (be_val_range 4); bytes_auto.
  - rewrite be_bytes_be_val by bytes_auto. apply take_drop.
Qed.

Lemma decodeOrderedOutPoint_inv k op :
  is_bytes k -> decodeOrderedOutPoint k = Ok op -> wf_outpoint op /\ encodeOrderedOutPoint op = k.
Proof.
  intros Hk. unfold decodeOrderedOutPoint, orderedOutPointEncodedSize.
  destruct (Nat.eqb_spec (length k) (HashSize + 4)) as [Hl|]; cbn [negb]; [|done].
  intros E; injection E as <-.
  assert (length (drop HashSize k) = 4%nat) by bytes_auto.
  unfold wf_outpoint, encodeOrderedOutPoint; cbn [Hash Index]. split.
  - split; [bytes_auto|]. apply (be_val_range 4); bytes_auto.
  - rewrite reverse_involutive, be_bytes_be_val by bytes_auto. apply take_drop.
Qed.

Lemma decodeExpiryKey_inv k e :
  is_bytes k -> decodeExpiryKey k = Ok e -> is_u64 e /\ be_bytes 8 e = k.
Proof.
  intros Hk. unfold decodeExpiryKey, expiryKeyEncodedSize.
  destruct (Nat.eqb_spec (length k) 8) as [Hl|]; cbn [negb]; [|done].
  intros E; injection E as <-. split; [by apply (be_val_range 8)|by apply be_bytes_be_val].
Qed.

Lemma decodeReapStrict_inv k e a op :
  is_bytes k -> decodeReapStrictCompositeKey k = Ok (e, a, op) ->
  is_u64 e /\ is_amount a /\ wf_outpoint op /\ k = reapStrictKeyBytes e a op.
Proof.
  intros Hk. unfold decodeReapStrictCompositeKey.
  destruct (Nat.eqb_spec (length k) reapStrictCompositeKeySize) as [Hl|]; cbn [negb]; [|done].
  intros (e' & He & Hrest)%result_bind_Ok.
  apply decodeExpiryKey_inv in He as [He Ee]; [|bytes_auto].
  set (ab := take amountKeyEncodedSize (drop expiryKeyEncodedSize k)) in *.
  assert (Hab : length ab = 8%nat).
  { unfold ab. bytes_auto. rewrite Hl. done. }
  pose proof (be_val_range 8 ab Hab ltac:(unfold ab; bytes_auto)) as Hr. rewrite pow256_8 in Hr.
  destruct (Z.ltb_spec (2^63 - 1) (be_val ab)); [done|].
  apply result_bind_Ok in Hrest as (op' & Hop & E).
  apply decodeReapOrderOutPoint_inv in Hop as [Hop Eop]; [|bytes_auto].
  assert (i64 (be_val ab) = be_val ab) as Hi by (apply i64_id; widths; lia).
  rewrite Hi in E. injection E as -> <- ->. split_and!; [done|unfold is_amount; lia|done|].
  unfold reapStrictKeyBytes. rewrite Ee, Eop, be_bytes_be_val by (done || (unfold ab; bytes_auto)).
  unfold ab. by rewrite <- drop_drop, !take_drop.
Qed.

Lemma decodeExpiryComposite_inv k e op :
  is_bytes k -> decodeExpiryOutpointCompositeKey k = Ok (e, op) ->
  is_u64 e /\ wf_outpoint op /\ k = encodeExpiryOutpointCompositeKey e op.
Proof.
  intros Hk. unfold decodeExpiryOutpointCompositeKey.
  destruct (Nat.eqb_spec (length k) expiryOutpointCompositeKeySize) as [Hl|]; cbn [negb]; [|done].
  intros (e' & He & (op' & Hop & E)%result_bind_Ok)%result_bind_Ok. simplify_eq.
  apply decodeExpiryKey_inv in He as [He Ee]; [|bytes_auto].
  apply decodeOrderedOutPoint_inv in Hop as [Hop Eop]; [|bytes_auto].
  split_and!; [done..|]. unfold encodeExpiryOutpointCompositeKey.
  by rewrite Ee, Eop, take_drop.
Qed.

(** ** Properties *)

(** The candidate keys of the REAP bucket sort, as byte strings, exactly
    like the consensus comparator orders the inputs they stand for: by expiry
    key, then amount, then transaction hash, then output index. A cursor over
    the bucket therefore walks the canonical global REAP order. *)
Theorem reap_key_order e1 a1 op1 e2 a2 op2 k1 k2 :
  is_u64 e1 -> is_u64 e2 -> is_i64 a1 -> is_i64 a2 -> wf_outpoint op1 -> wf_outpoint op2 ->
  encodeReapStrictCompositeKey e1 a1 op1 = Ok k1 ->
  encodeReapStrictCompositeKey e2 a2 op2 = Ok k2 ->
  bytes_compare k1 k2
  = compareReapInputOrderKey (mkReapInputOrderKey e1 a1 op1) (mkReapInputOrderKey e2 a2 op2).
Proof.
  intros He1 He2 Ha1 Ha2 H1 H2 E1 E2.
  assert (is_amount a1) by eauto using encodeReapStrict_amount.
  assert (is_amount a2) by eauto using encodeReapStrict_amount.
  rewrite encodeReapStrict_Ok in E1, E2 by done. simplify_eq.
  by apply reapStrict_compare.
Qed.

(** A REAP candidate key decodes to exactly the entry it encodes, and
    [decodeReapStrictCompositeKey] accepts no other byte string: decoding and
    encoding are inverse bijections between the accepted keys and the entries
    with a uint64 expiry key, a non-negative int64 amount and an outpoint. *)
Lemma reap_key_bijection k e a op :
  is_bytes k ->
  decodeReapStrictCompositeKey k = Ok (e, a, op) <->
  is_u64 e /\ is_i64 a /\ wf_outpoint op /\ encodeReapStrictCompositeKey e a op = Ok k.
Proof.
  intros Hk. split.
  - intros (He & Ha & Hop & ->)%decodeReapStrict_inv; [|done].
    split_and!; [done|unfold is_amount in Ha; widths; lia|done|by apply encodeReapStrict_Ok].
  - intros (He & Ha & Hop & E).
    assert (is_amount a) by eauto using encodeReapStrict_amount.
    rewrite encodeReapStrict_Ok in E by done. simplify_eq. by apply decodeReapStrict_encode.
Qed.

(** The scan keys of the expiry bucket sort by expiry key first and then
    by [compareOutPoint], the order in which callers page through outpoints;
    and they decode to exactly what they encode, with every other byte string
    refused. *)
Lemma expiry_key_order_and_bijection e1 op1 e2 op2 k :
  is_u64 e1 -> is_u64 e2 -> wf_outpoint op1 -> wf_outpoint op2 -> is_bytes k ->
  bytes_compare (encodeExpiryOutpointCompositeKey e1 op1) (encodeExpiryOutpointCompositeKey e2 op2)
  = lex (e1 ?= e2) (compareOutPoint op1 op2)
  /\ (decodeExpiryOutpointCompositeKey k = Ok (e1, op1)
      <-> k = encodeExpiryOutpointCompositeKey e1 op1).
Proof.
  intros He1 He2 H1 H2 Hk. split; [by apply expiryComposite_compare|]. split.
  - by intros (_ & _ & ->)%decodeExpiryComposite_inv.
  - intros ->. by apply decodeExpiryOutpointCompositeKey_encode.
Qed.

Definition sampleOp (b i : Z) : OutPoint := mkOutPoint (replicate 32 b) i.

Lemma wf_sampleOp b i : is_u32 i -> wf_outpoint (sampleOp b i).
Proof. intros; by split. Qed.

Lemma reap_key_order_witness :
  exists k1 k2,
    encodeReapStrictCompositeKey 300 5000 (sampleOp 7 256) = Ok k1 /\
    encodeReapStrictCompositeKey 300 5000 (sampleOp 7 2) = Ok k2 /\
    bytes_compare k1 k2 = Gt.
Proof.
  eexists _, _. split; [reflexivity|]. split; [reflexivity|].
  refine (eq_trans (reap_key_order 300 5000 (sampleOp 7 256) 300 5000 (sampleOp 7 2) _ _
            _ _ _ _ _ _ eq_refl eq_refl) _); try (widths; lia); try (by apply wf_sampleOp).
  reflexivity.
Defined.
