(* ===== verification/Commitment.v ===== *)
(** * The expiry commitment of a coinbase

    src/blockchain/expiryindex/commitment.go: building the 39-byte OP_RETURN
    script that commits to an accumulator root, finding it among the outputs of
    a coinbase, and counting the outputs that carry its tag. *)

From S2P Require Import Prelude Sha256 Wire.

Definition OP_RETURN : Z := 0x6a.
Definition OP_DATA_37 : Z := 0x25.

Definition AccumulatorDigestSize : nat := 32.
Definition ExpiryCommitmentTag : list Z := [0x4F; 0x45; 0x58; 0x50].
Definition ExpiryCommitmentVersion : Z := 0x01.
Definition expiryCommitmentDataLen : nat := 4 + 1 + AccumulatorDigestSize.
Definition ExpiryCommitmentScriptLen : nat := 1 + 1 + expiryCommitmentDataLen.

Definition BuildExpiryCommitmentScript (root : list Z) : list Z :=
  [OP_RETURN; OP_DATA_37] ++ ExpiryCommitmentTag ++ [ExpiryCommitmentVersion] ++ root.

(** [pk[i:j]] *)
Definition slice {A} (i j : nat) (l : list A) : list A := take (j - i) (drop i l).

(** The test both loops make on an output script. *)
Definition isCommitmentScript (pk : list Z) : bool :=
  (length pk =? ExpiryCommitmentScriptLen)%nat
  && (nth 0 pk 0 =? OP_RETURN) && (nth 1 pk 0 =? OP_DATA_37)
  && bool_decide (slice 2 6 pk = ExpiryCommitmentTag).

(** The loop of [ExtractExpiryCommitment] over the outputs from the last one:
    [outs] is the part not yet visited, in the order of the visits. *)
Fixpoint extractFrom (outs : list TxOut) : option (Z * list Z) :=
  match outs with
  | [] => None
  | o :: outs' =>
      let pk := PkScript o in
      if isCommitmentScript pk then Some (nth 6 pk 0, slice 7 (7 + AccumulatorDigestSize) pk)
      else extractFrom outs'
  end.

(** The version and root found; [None] is [found = false]. *)
Definition ExtractExpiryCommitment (tx : MsgTx) : option (Z * list Z) :=
  extractFrom (reverse (TxOuts tx)).

Definition CountExpiryCommitments (tx : MsgTx) : Z :=
  foldl (fun count o => if isCommitmentScript (PkScript o) then count + 1 else count) 0 (TxOuts tx).

(** ** Lemmas *)

Lemma length_BuildExpiryCommitmentScript root :
  length root = AccumulatorDigestSize ->
  length (BuildExpiryCommitmentScript root) = ExpiryCommitmentScriptLen.
Proof. intros H. cbn. by rewrite H. Qed.

Lemma isCommitmentScript_Build root :
  length root = AccumulatorDigestSize ->
  isCommitmentScript (BuildExpiryCommitmentScript root) = true.
Proof.
  intros H. unfold isCommitmentScript.
  rewrite length_BuildExpiryCommitmentScript by done. by rewrite bool_decide_true.
Qed.

Lemma extract_Build root :
  length root = AccumulatorDigestSize ->
  nth 6 (BuildExpiryCommitmentScript root) 0 = ExpiryCommitmentVersion /\
  slice 7 (7 + AccumulatorDigestSize) (BuildExpiryCommitmentScript root) = root.
Proof.
  intros H. split; [done|]. unfold slice, BuildExpiryCommitmentScript; cbn [drop app ExpiryCommitmentTag].
  rewrite drop_0. replace (7 + AccumulatorDigestSize - 7)%nat with (length root) by (rewrite H; lia).
  apply firstn_all.
Qed.

Lemma extractFrom_app l1 l2 :
  Forall (fun o => isCommitmentScript (PkScript o) = false) l1 ->
  extractFrom (l1 ++ l2) = extractFrom l2.
Proof. induction 1 as [|o l1 Ho _ IH]; [done|]. cbn [app extractFrom]. by rewrite Ho. Qed.

Lemma count_foldl (P : TxOut -> bool) outs c :
  foldl (fun count o => if P o then count + 1 else count) c outs = c + zlen (List.filter P outs).
Proof.
  revert c; induction outs as [|o outs IH]; intros c; cbn [foldl List.filter]; [unfold zlen; cbn; lia|].
  rewrite IH. destruct (P o); [rewrite zlen_cons|]; lia.
Qed.

Lemma CountExpiryCommitments_spec tx :
  CountExpiryCommitments tx
  = zlen (List.filter (fun o => isCommitmentScript (PkScript o)) (TxOuts tx)).
Proof. unfold CountExpiryCommitments. by rewrite count_foldl. Qed.

Lemma filter_false_Forall {A} (P : A -> bool) l :
  zlen (List.filter P l) = 0 <-> Forall (fun x => P x = false) l.
Proof.
  induction l as [|x l IH]; cbn [List.filter]; [done|].
  destruct (P x) eqn:E.
  - rewrite zlen_cons. pose proof (zlen_nonneg (List.filter P l)). split; [lia|].
    intros [Hx _]%Forall_cons_1. congruence.
  - rewrite IH. split; [by constructor|by intros []%Forall_cons_1].
Qed.

Lemma extractFrom_Some_or outs :
  extractFrom outs = None <-> Forall (fun o => isCommitmentScript (PkScript o) = false) outs.
Proof.
  induction outs as [|o outs IH]; cbn [extractFrom]; [done|].
  destruct (isCommitmentScript (PkScript o)) eqn:E.
  - split; [done|]. intros [Hx _]%Forall_cons_1. congruence.
  - rewrite IH. split; [by constructor|by intros []%Forall_cons_1].
Qed.

Lemma extract_iff_count tx :
  ExtractExpiryCommitment tx = None <-> CountExpiryCommitments tx = 0.
Proof.
  unfold ExtractExpiryCommitment.
  rewrite CountExpiryCommitments_spec, extractFrom_Some_or, filter_false_Forall.
  rewrite !Forall_forall. by setoid_rewrite elem_of_reverse.
Qed.

(** A single commitment is the one that is extracted, wherever it stands. *)
Lemma extract_single before root v after :
  length root = AccumulatorDigestSize ->
  Forall (fun o => isCommitmentScript (PkScript o) = false) after ->
  extractFrom (reverse (before ++ mkTxOut v (BuildExpiryCommitmentScript root) :: after))
  = Some (ExpiryCommitmentVersion, root).
Proof.
  intros Hr Ha. rewrite reverse_app, reverse_cons, <- app_assoc.
  rewrite extractFrom_app by by apply Forall_reverse.
  cbn [app extractFrom PkScript]. rewrite isCommitmentScript_Build by done.
  by destruct (extract_Build root Hr) as [-> ->].
Qed.
