(* ===== verification/Script.v ===== *)
(** * Scripts: tokenizing and building

    src/txscript/tokenizer.go, the opcode lengths of src/txscript/opcode.go,
    [PushedData] of src/txscript/standard.go, [checkScriptParses] and
    [IsUnspendable] of src/txscript/script.go, and the operations of
    src/txscript/scriptbuilder.go that build the REAP marker.

    The tokenizer is the source's record, with its offsets as int32 values; a
    loop over it runs on fuel one larger than the script, which is enough
    because every successful [Next] moves the offset forward. *)

From S2P Require Import Prelude Sha256 Wire Commitment.

Definition OP_0 : Z := 0x00.
Definition OP_DATA_1 : Z := 0x01.
Definition OP_PUSHDATA1 : Z := 0x4c.
Definition OP_PUSHDATA2 : Z := 0x4d.
Definition OP_PUSHDATA4 : Z := 0x4e.
Definition OP_1NEGATE : Z := 0x4f.
Definition OP_1 : Z := 0x51.
Definition MaxScriptSize : Z := 10000.
Definition MaxScriptElementSize : Z := 520.

(** The [length] field of [opcodeArray]: 1 for a bare opcode, the whole length
    of an [OP_DATA_n] push, minus the width of the length prefix for the three
    [OP_PUSHDATA] opcodes. *)
Definition opcodeLength (b : Z) : Z :=
  if b =? 0 then 1
  else if b <=? 75 then b + 1
  else if b =? OP_PUSHDATA1 then -1
  else if b =? OP_PUSHDATA2 then -2
  else if b =? OP_PUSHDATA4 then -4
  else 1.

(** [ErrorCode] of src/txscript/error.go. *)
Inductive script_error :=
| ErrInternal
| ErrInvalidFlags
| ErrInvalidIndex
| ErrUnsupportedAddress
| ErrNotMultisigScript
| ErrTooManyRequiredSigs
| ErrTooMuchNullData
| ErrUnsupportedScriptVersion
| ErrEarlyReturn
| ErrEmptyStack
| ErrEvalFalse
| ErrScriptUnfinished
| ErrInvalidProgramCounter
| ErrScriptTooBig
| ErrElementTooBig
| ErrTooManyOperations
| ErrStackOverflow
| ErrInvalidPubKeyCount
| ErrInvalidSignatureCount
| ErrNumberTooBig
| ErrVerify
| ErrEqualVerify
| ErrNumEqualVerify
| ErrCheckSigVerify
| ErrCheckMultiSigVerify
| ErrDisabledOpcode
| ErrReservedOpcode
| ErrMalformedPush
| ErrInvalidStackOperation
| ErrUnbalancedConditional
| ErrMinimalData
| ErrInvalidSigHashType
| ErrSigTooShort
| ErrSigTooLong
| ErrSigInvalidSeqID
| ErrSigInvalidDataLen
| ErrSigMissingSTypeID
| ErrSigMissingSLen
| ErrSigInvalidSLen
| ErrSigInvalidRIntID
| ErrSigZeroRLen
| ErrSigNegativeR
| ErrSigTooMuchRPadding
| ErrSigInvalidSIntID
| ErrSigZeroSLen
| ErrSigNegativeS
| ErrSigTooMuchSPadding
| ErrSigHighS
| ErrNotPushOnly
| ErrSigNullDummy
| ErrPubKeyType
| ErrCleanStack
| ErrNullFail
| ErrWitnessMalleated
| ErrWitnessMalleatedP2SH
| ErrDiscourageUpgradableNOPs
| ErrNegativeLockTime
| ErrUnsatisfiedLockTime
| ErrMinimalIf
| ErrDiscourageUpgradableWitnessProgram
| ErrWitnessProgramEmpty
| ErrWitnessProgramMismatch
| ErrWitnessProgramWrongLength
| ErrWitnessUnexpected
| ErrWitnessPubKeyType
| ErrDiscourageOpSuccess
| ErrDiscourageUpgradeableTaprootVersion
| ErrTapscriptCheckMultisig
| ErrDiscourageUpgradeablePubKeyType
| ErrTaprootSigInvalid
| ErrTaprootMerkleProofInvalid
| ErrTaprootOutputKeyParityMismatch
| ErrControlBlockTooSmall
| ErrControlBlockTooLarge
| ErrControlBlockInvalidLength
| ErrWitnessHasNoAnnex
| ErrInvalidTaprootSigLen
| ErrTaprootPubkeyIsEmpty
| ErrTaprootMaxSigOps
| ErrNonConstScriptCode
| ErrCodeSeparator.

#[export] Instance script_error_eq_dec : EqDecision script_error.
Proof. solve_decision. Defined.

(** ** The tokenizer *)

Record ScriptTokenizer := mkTokenizer {
  tk_script : list Z;
  tk_version : Z;
  tk_offset : Z;
  tk_opcodePos : Z;
  tk_op : option Z;
  tk_data : option (list Z);
  tk_err : option script_error }.

Definition MakeScriptTokenizer (scriptVersion : Z) (script : list Z) : ScriptTokenizer :=
  mkTokenizer script scriptVersion 0 (-1) None None
    (if negb (scriptVersion =? 0) then Some ErrUnsupportedScriptVersion else None).

Definition Done (t : ScriptTokenizer) : bool :=
  match tk_err t with Some _ => true | None => i32 (zlen (tk_script t)) <=? tk_offset t end.

Definition tokenizerFail (t : ScriptTokenizer) : bool * ScriptTokenizer :=
  (false, mkTokenizer (tk_script t) (tk_version t) (tk_offset t) (i32 (tk_opcodePos t + 1))
            (tk_op t) (tk_data t) (Some ErrMalformedPush)).

Definition tokenizerAdvance (t : ScriptTokenizer) (n op : Z) (data : option (list Z))
    : bool * ScriptTokenizer :=
  (true, mkTokenizer (tk_script t) (tk_version t) (i32 (tk_offset t + n))
           (i32 (tk_opcodePos t + 1)) (Some op) data (tk_err t)).

(** [Next]: whether an opcode was parsed, and the state after. *)
Definition Next (t : ScriptTokenizer) : bool * ScriptTokenizer :=
  if Done t then (false, t)
  else
    match drop (Z.to_nat (tk_offset t)) (tk_script t) with
    | [] => (false, t)
    | op :: rest =>
        let len := opcodeLength op in
        if len =? 1 then tokenizerAdvance t 1 op None
        else if 1 <? len then
          if zlen (op :: rest) <? len then tokenizerFail t
          else tokenizerAdvance t len op (Some (take (Z.to_nat (len - 1)) rest))
        else
          if zlen rest <? - len then tokenizerFail t
          else
            let dataLen := i32 (le_val (take (Z.to_nat (- len)) rest)) in
            let script := drop (Z.to_nat (- len)) rest in
            if (i32 (zlen script) <? dataLen) || (dataLen <? 0) then tokenizerFail t
            else tokenizerAdvance t (1 + - len + dataLen) op (Some (take (Z.to_nat dataLen) script))
    end.

Definition token : Type := Z * option (list Z).

(** [for t.Next() { ... }]: the opcodes and data seen, and the final state. *)
Fixpoint tokenize (fuel : nat) (t : ScriptTokenizer) : list token * ScriptTokenizer :=
  match fuel with
  | O => ([], t)
  | S fuel' =>
      match Next t with
      | (false, t') => ([], t')
      | (true, t') =>
          let '(ts, t'') := tokenize fuel' t' in
          ((default 0 (tk_op t'), tk_data t') :: ts, t'')
      end
  end.

Definition tokenizeScript (script : list Z) : list token * ScriptTokenizer :=
  tokenize (S (length script)) (MakeScriptTokenizer 0 script).

Definition PushedData (script : list Z) : result script_error (list (list Z)) :=
  let '(ts, t) := tokenizeScript script in
  match tk_err t with
  | Some e => Err e
  | None =>
      Ok (omap (fun tok : token =>
                  match tok.2 with
                  | Some d => Some d
                  | None => if tok.1 =? OP_0 then Some [] else None
                  end) ts)
  end.

Definition checkScriptParses (script : list Z) : option script_error :=
  tk_err (tokenizeScript script).2.

Definition IsUnspendable (pkScript : list Z) : bool :=
  match pkScript with
  | b :: _ => if b =? OP_RETURN then true
              else if MaxScriptSize <? zlen pkScript then true
              else match checkScriptParses pkScript with Some _ => true | None => false end
  | [] => match checkScriptParses pkScript with Some _ => true | None => false end
  end.

(** ** The builder *)

Inductive builder_error := ErrScriptNotCanonical.

Record ScriptBuilder := mkBuilder { sb_script : list Z; sb_err : option builder_error }.

Definition NewScriptBuilder : ScriptBuilder := mkBuilder [] None.

Definition sbAppend (b : ScriptBuilder) (bs : list Z) : ScriptBuilder :=
  mkBuilder (sb_script b ++ bs) (sb_err b).

Definition sbFail (b : ScriptBuilder) : ScriptBuilder :=
  mkBuilder (sb_script b) (Some ErrScriptNotCanonical).

Definition AddOp (b : ScriptBuilder) (opcode : Z) : ScriptBuilder :=
  match sb_err b with
  | Some _ => b
  | None => if MaxScriptSize <? zlen (sb_script b) + 1 then sbFail b else sbAppend b [opcode]
  end.

Definition canonicalDataSize (data : list Z) : Z :=
  let dataLen := zlen data in
  if dataLen =? 0 then 1
  else if (dataLen =? 1) && (nth 0 data 0 <=? 16) then 1
  else if (dataLen =? 1) && (nth 0 data 0 =? 0x81) then 1
  else if dataLen <? OP_PUSHDATA1 then 1 + dataLen
  else if dataLen <=? 0xff then 2 + dataLen
  else if dataLen <=? 0xffff then 3 + dataLen
  else 5 + dataLen.

Definition addData (b : ScriptBuilder) (data : list Z) : ScriptBuilder :=
  let dataLen := zlen data in
  if (dataLen =? 0) || ((dataLen =? 1) && (nth 0 data 0 =? 0)) then sbAppend b [OP_0]
  else if (dataLen =? 1) && (nth 0 data 0 <=? 16) then sbAppend b [u8 (OP_1 - 1 + nth 0 data 0)]
  else if (dataLen =? 1) && (nth 0 data 0 =? 0x81) then sbAppend b [OP_1NEGATE]
  else
    let prefix :=
      if dataLen <? OP_PUSHDATA1 then [u8 (OP_DATA_1 - 1 + dataLen)]
      else if dataLen <=? 0xff then [OP_PUSHDATA1; u8 dataLen]
      else if dataLen <=? 0xffff then OP_PUSHDATA2 :: le_bytes 2 (u16 dataLen)
      else OP_PUSHDATA4 :: le_bytes 4 (u32 dataLen) in
    sbAppend b (prefix ++ data).

Definition AddData (b : ScriptBuilder) (data : list Z) : ScriptBuilder :=
  match sb_err b with
  | Some _ => b
  | None =>
      let dataSize := canonicalDataSize data in
      if MaxScriptSize <? zlen (sb_script b) + dataSize then sbFail b
      else if MaxScriptElementSize <? zlen data then sbFail b
      else addData b data
  end.

(** [Script]: the script built, and an error when one occurred on the way. *)
Definition BuilderScript (b : ScriptBuilder) : result builder_error (list Z) :=
  match sb_err b with Some e => Err e | None => Ok (sb_script b) end.

(** ** Printing tokens

    The bytes a token is written as; the tokenizer inverts this. *)

Definition tokenBytes (tok : token) : list Z :=
  match tok with
  | (op, None) => [op]
  | (op, Some d) =>
      if op <=? 75 then op :: d
      else if op =? OP_PUSHDATA1 then op :: le_bytes 1 (zlen d) ++ d
      else if op =? OP_PUSHDATA2 then op :: le_bytes 2 (zlen d) ++ d
      else op :: le_bytes 4 (zlen d) ++ d
  end.

Definition wf_token (tok : token) : Prop :=
  is_u8 tok.1 /\
  match tok.2 with
  | None => opcodeLength tok.1 = 1
  | Some d =>
      (1 <= tok.1 <= 75 /\ zlen d = tok.1) \/
      (tok.1 = OP_PUSHDATA1 /\ zlen d < 2^8) \/
      (tok.1 = OP_PUSHDATA2 /\ zlen d < 2^16) \/
      (tok.1 = OP_PUSHDATA4 /\ zlen d < 2^31)
  end.

Definition scriptOf (ts : list token) : list Z := concat (map tokenBytes ts).

Lemma tokenBytes_nonempty tok : 1 <= zlen (tokenBytes tok).
Proof.
  destruct tok as [op [d|]]; cbn; repeat case_match; rewrite ?zlen_cons; unfold zlen; cbn; lia.
Qed.

Lemma drop_zlen_app (pre l : list Z) : drop (Z.to_nat (zlen pre)) (pre ++ l) = l.
Proof. unfold zlen. by rewrite Nat2Z.id, drop_app_length. Qed.

Lemma take_zlen_app (d l : list Z) : take (Z.to_nat (zlen d)) (d ++ l) = d.
Proof. unfold zlen. by rewrite Nat2Z.id, take_app_length. Qed.

(** The remaining bytes the tokenizer sees. *)
Definition remaining (t : ScriptTokenizer) : list Z := drop (Z.to_nat (tk_offset t)) (tk_script t).

(** A tokenizer in the middle of a script: no error, [pre] consumed. *)
Definition at_offset (t : ScriptTokenizer) (pre post : list Z) : Prop :=
  tk_err t = None /\ tk_script t = pre ++ post /\ tk_offset t = zlen pre /\
  zlen (tk_script t) < 2^31.

Lemma at_offset_Done t pre post : at_offset t pre post -> Done t = bool_decide (post = []).
Proof.
  intros (He & Hs & Ho & Hl). unfold Done. rewrite He, i32_id, Ho, Hs, zlen_app
    by (pose proof (zlen_nonneg (tk_script t)); widths; lia).
  destruct post as [|b post]; [rewrite bool_decide_true by done|rewrite bool_decide_false by done].
  - apply Z.leb_le. unfold zlen; cbn; lia.
  - apply Z.leb_gt. rewrite zlen_cons. pose proof (zlen_nonneg post). lia.
Qed.

Lemma at_offset_advance t pre mid post op data :
  at_offset t pre (mid ++ post) ->
  exists t', tokenizerAdvance t (zlen mid) op data = (true, t') /\
             at_offset t' (pre ++ mid) post /\ tk_op t' = Some op /\ tk_data t' = data.
Proof.
  intros (He & Hs & Ho & Hl). eexists; split; [reflexivity|].
  split_and!; [|done..]. unfold at_offset; cbn [tk_err tk_script tk_offset].
  split_and!; [done| |rewrite zlen_app|done].
  - by rewrite Hs, app_assoc.
  - rewrite Ho, i32_id; [done|]. rewrite Hs, !zlen_app in Hl.
    pose proof (zlen_nonneg pre). pose proof (zlen_nonneg mid). pose proof (zlen_nonneg post).
    widths; lia.
Qed.

Lemma Next_unfold t pre op rest :
  at_offset t pre (op :: rest) ->
  Next t =
    let len := opcodeLength op in
    if len =? 1 then tokenizerAdvance t 1 op None
    else if 1 <? len then
      if zlen (op :: rest) <? len then tokenizerFail t
      else tokenizerAdvance t len op (Some (take (Z.to_nat (len - 1)) rest))
    else
      if zlen rest <? - len then tokenizerFail t
      else
        let dataLen := i32 (le_val (take (Z.to_nat (- len)) rest)) in
        let script := drop (Z.to_nat (- len)) rest in
        if (i32 (zlen script) <? dataLen) || (dataLen <? 0) then tokenizerFail t
        else tokenizerAdvance t (1 + - len + dataLen) op (Some (take (Z.to_nat dataLen) script)).
Proof.
  intros H. unfold Next. rewrite (at_offset_Done _ _ _ H), bool_decide_false by done.
  destruct H as (_ & Hs & Ho & _). by rewrite Ho, Hs, drop_zlen_app.
Qed.

(** The three [OP_PUSHDATA] cases at once. *)
Lemma Next_pushdata t pre k op d post :
  at_offset t pre ((op :: le_bytes k (zlen d) ++ d) ++ post) ->
  opcodeLength op = - Z.of_nat k -> (0 < k)%nat -> zlen d < pow256 k -> zlen d < 2^31 ->
  Next t = tokenizerAdvance t (zlen (op :: le_bytes k (zlen d) ++ d)) op (Some d).
Proof.
  intros Hat Hlen Hk Hd Hd'. pose proof (zlen_nonneg d). pose proof (zlen_nonneg post).
  assert (Hl : zlen (d ++ post) < 2^31).
  { destruct Hat as (_ & Hs & _ & Hl). rewrite Hs in Hl. cbn [app] in Hl.
    rewrite <- app_assoc, zlen_app, zlen_cons, zlen_app in Hl.
    pose proof (zlen_nonneg pre). pose proof (zlen_nonneg (le_bytes k (zlen d))). lia. }
  cbn [app] in Hat. rewrite <- app_assoc in Hat.
  rewrite (Next_unfold _ _ _ _ Hat). cbv zeta. rewrite Hlen, Z.opp_involutive, Nat2Z.id.
  destruct (Z.eqb_spec (- Z.of_nat k) 1); [lia|]. destruct (Z.ltb_spec 1 (- Z.of_nat k)); [lia|].
  rewrite zlen_app, zlen_le_bytes. pose proof (zlen_nonneg (d ++ post)).
  destruct (Z.ltb_spec (Z.of_nat k + zlen (d ++ post)) (Z.of_nat k)); [lia|].
  rewrite take_app_length', drop_app_length' by (symmetry; apply length_le_bytes).
  rewrite le_val_le_bytes, Z.mod_small, i32_id by (widths; lia).
  rewrite i32_id by (widths; lia). rewrite zlen_app in *.
  destruct (Z.ltb_spec (zlen d + zlen post) (zlen d)); [lia|].
  destruct (Z.ltb_spec (zlen d) 0); [lia|]. cbn [orb].
  rewrite take_zlen_app, zlen_cons, zlen_app, zlen_le_bytes. f_equal. lia.
Qed.

Lemma Next_token t pre tok post :
  at_offset t pre (tokenBytes tok ++ post) -> wf_token tok ->
  Next t = tokenizerAdvance t (zlen (tokenBytes tok)) tok.1 tok.2.
Proof.
  destruct tok as [op [d|]]; intros Hat [Hop Hwf]; cbn [fst snd] in *.
  - pose proof (zlen_nonneg d) as Hd0.
    destruct Hwf as [[Hr Hd]|[[-> Hd]|[[-> Hd]|[-> Hd]]]];
      [|change (tokenBytes _) with (OP_PUSHDATA1 :: le_bytes 1 (zlen d) ++ d) in *
       |change (tokenBytes _) with (OP_PUSHDATA2 :: le_bytes 2 (zlen d) ++ d) in *
       |change (tokenBytes _) with (OP_PUSHDATA4 :: le_bytes 4 (zlen d) ++ d) in *].
    + unfold tokenBytes in *. destruct (Z.leb_spec op 75); [|lia].
      rewrite (Next_unfold t pre op (d ++ post)) by exact Hat. cbv zeta.
      unfold opcodeLength. destruct (Z.eqb_spec op 0); [lia|]. destruct (Z.leb_spec op 75); [|lia].
      destruct (Z.eqb_spec (op + 1) 1); [lia|]. destruct (Z.ltb_spec 1 (op + 1)); [|lia].
      rewrite !zlen_cons, zlen_app. pose proof (zlen_nonneg post).
      destruct (Z.ltb_spec (1 + (zlen d + zlen post)) (op + 1)); [lia|].
      replace (op + 1 - 1) with (zlen d) by lia. rewrite take_zlen_app. f_equal. lia.
    + apply (Next_pushdata t pre 1 _ _ post); rewrite ?pow256_2; done || lia.
    + apply (Next_pushdata t pre 2 _ _ post); rewrite ?pow256_2; done || lia.
    + apply (Next_pushdata t pre 4 _ _ post); rewrite ?pow256_4; done || lia.
  - rewrite (Next_unfold _ _ _ _ Hat). cbv zeta. rewrite Hwf. done.
Qed.

Lemma tokenize_tokens ts t pre fuel :
  at_offset t pre (scriptOf ts) -> Forall wf_token ts -> (length ts < fuel)%nat ->
  exists t', tokenize fuel t = (ts, t') /\ tk_err t' = None.
Proof.
  intros Hat Hwf. revert t pre fuel Hat; induction Hwf as [|tok ts Htok Hwf IH];
    intros t pre [|fuel] Hat Hf; cbn [length] in Hf; try lia; cbn [tokenize].
  - unfold Next. rewrite (at_offset_Done _ _ _ Hat), bool_decide_true by done.
    exists t. split; [done|apply Hat].
  - change (scriptOf (tok :: ts)) with (tokenBytes tok ++ scriptOf ts) in Hat.
    rewrite (Next_token _ _ _ _ Hat Htok).
    destruct (at_offset_advance t pre _ _ tok.1 tok.2 Hat) as (t' & -> & Hat' & Hop & Hdata).
    destruct (IH t' _ fuel Hat' ltac:(lia)) as (t'' & -> & He).
    exists t''. split; [|done]. rewrite Hop, Hdata. cbn. by destruct tok.
Qed.

Lemma length_scriptOf ts : (length ts <= length (scriptOf ts))%nat.
Proof.
  induction ts as [|tok ts IH]; [cbn; lia|]. unfold scriptOf in *. cbn [map concat length].
  rewrite length_app. pose proof (tokenBytes_nonempty tok) as H. unfold zlen in H. lia.
Qed.

Lemma at_offset_start script :
  zlen script < 2^31 -> at_offset (MakeScriptTokenizer 0 script) [] script.
Proof. by intros. Qed.

Lemma tokenizeScript_print ts :
  Forall wf_token ts -> zlen (scriptOf ts) < 2^31 ->
  exists t', tokenizeScript (scriptOf ts) = (ts, t') /\ tk_err t' = None.
Proof.
  intros Hwf Hl. eapply tokenize_tokens; [by apply at_offset_start|done|].
  pose proof (length_scriptOf ts). lia.
Qed.

(** What [Next] accepts is the printed form of a well-formed token. *)
Lemma pushdata_split k rest n :
  is_bytes rest -> Z.of_nat k <= zlen rest -> n = le_val (take k rest) ->
  n <= zlen (drop k rest) ->
  rest = (le_bytes k n ++ take (Z.to_nat n) (drop k rest)) ++ drop (Z.to_nat n) (drop k rest) /\
  zlen (take (Z.to_nat n) (drop k rest)) = n /\ 0 <= n < pow256 k.
Proof.
  intros Hb Hk -> Hn. set (n := le_val (take k rest)) in *. unfold zlen in Hk.
  assert (Hlt : length (take k rest) = k) by (rewrite length_take; lia).
  assert (Hbt : is_bytes (take k rest)) by by apply Forall_take.
  pose proof (le_val_range _ Hbt) as Hr. rewrite Hlt in Hr. fold n in Hr.
  pose proof (le_bytes_le_val _ Hbt) as Hle. rewrite Hlt in Hle. fold n in Hle.
  split_and!; [|unfold zlen in *; rewrite length_take; lia|lia|lia].
  by rewrite Hle, <- app_assoc, !take_drop.
Qed.

Lemma opcodeLength_cases op :
  is_u8 op ->
  opcodeLength op = 1 \/ (1 <= op <= 75 /\ opcodeLength op = op + 1) \/
  exists k, opcodeLength op = - Z.of_nat k /\
    ((k = 1%nat /\ op = OP_PUSHDATA1) \/ (k = 2%nat /\ op = OP_PUSHDATA2) \/
     (k = 4%nat /\ op = OP_PUSHDATA4)).
Proof.
  unfold opcodeLength, is_u8. intros Hop.
  destruct (Z.eqb_spec op 0); [auto|]. destruct (Z.leb_spec op 75); [right; left; lia|].
  destruct (Z.eqb_spec op OP_PUSHDATA1); [right; right; exists 1%nat; auto|].
  destruct (Z.eqb_spec op OP_PUSHDATA2); [right; right; exists 2%nat; auto|].
  destruct (Z.eqb_spec op OP_PUSHDATA4); [right; right; exists 4%nat; auto|]. auto.
Qed.

(** An int32 conversion that comes out non-negative changed nothing. *)
Lemma i32_nonneg_id n : 0 <= n < 2^32 -> 0 <= i32 n -> i32 n = n.
Proof.
  intros Hn. unfold i32. destruct (Z.ltb_spec n (2^31)); [rewrite Z.mod_small; lia|].
  replace (n + 2^31) with (n - 2^31 + 1 * 2^32) by lia.
  rewrite Z.mod_add, Z.mod_small by lia. lia.
Qed.

Lemma le_val_take_u32 k rest :
  is_bytes rest -> (k <= 4)%nat -> 0 <= le_val (take k rest) < 2^32.
Proof.
  intros Hb Hk. pose proof (le_val_range (take k rest) ltac:(by apply Forall_take)) as Hr.
  rewrite length_take in Hr. rewrite <- pow256_4.
  assert (pow256 (k `min` length rest) <= pow256 4) by (unfold pow256; apply Z.pow_le_mono_r; lia).
  lia.
Qed.

(** The token a successful [Next] consumed. *)
Lemma Next_consumes t pre op rest t' :
  at_offset t pre (op :: rest) -> is_bytes (op :: rest) -> Next t = (true, t') ->
  exists tok post', op :: rest = tokenBytes tok ++ post' /\ wf_token tok.
Proof.
  intros Hat [Hop Hrest]%Forall_cons_1 Hnext.
  rewrite (Next_unfold _ _ _ _ Hat) in Hnext. cbv zeta in Hnext.
  assert (Hlr : zlen rest < 2^31).
  { destruct Hat as (_ & Hs & _ & Hl). rewrite Hs, zlen_app, zlen_cons in Hl.
    pose proof (zlen_nonneg pre). lia. }
  destruct (opcodeLength_cases op Hop) as [H1|[[H1 H2]|(k & Hk & Hcase)]].
  - by exists (op, None), rest.
  - rewrite H2 in Hnext. destruct (Z.eqb_spec (op + 1) 1); [lia|].
    destruct (Z.ltb_spec 1 (op + 1)); [|lia].
    destruct (Z.ltb_spec (zlen (op :: rest)) (op + 1)) as [|H3]; [done|].
    rewrite zlen_cons in H3. unfold zlen in H3.
    exists (op, Some (take (Z.to_nat op) rest)), (drop (Z.to_nat op) rest). split.
    + unfold tokenBytes. destruct (Z.leb_spec op 75); [|lia]. cbn [app]. by rewrite take_drop.
    + split; [done|]. left. cbn [fst snd]. unfold zlen. rewrite length_take. lia.
  - rewrite Hk, Z.opp_involutive, Nat2Z.id in Hnext.
    destruct (Z.eqb_spec (- Z.of_nat k) 1) as [|_]; [lia|]. destruct (Z.ltb_spec 1 (- Z.of_nat k)); [lia|].
    destruct (Z.ltb_spec (zlen rest) (Z.of_nat k)) as [|H3]; [done|].
    assert (Hld : 0 <= zlen (drop k rest) <= zlen rest) by (unfold zlen; rewrite length_drop; lia).
    rewrite (i32_id (zlen (drop k rest))) in Hnext by (widths; lia).
    set (n := le_val (take k rest)) in *.
    destruct (Z.ltb_spec (zlen (drop k rest)) (i32 n)); [done|].
    destruct (Z.ltb_spec (i32 n) 0); [done|].
    assert (i32 n = n) as Hin by (apply i32_nonneg_id; [apply le_val_take_u32; [done|naive_solver lia]|lia]).
    destruct (pushdata_split k rest n) as (Hsplit & Hlen & Hrange); [done|done|done|lia|].
    exists (op, Some (take (Z.to_nat n) (drop k rest))), (drop (Z.to_nat n) (drop k rest)).
    unfold wf_token; cbn [fst snd]. rewrite Hlen.
    destruct Hcase as [[-> ->]|[[-> ->]|[-> ->]]]; (split; [cbn -[le_bytes take drop]; rewrite Hlen; by f_equal|]);
      (split; [done|right]).
    + left. split; [done|]. change (pow256 1) with 256 in Hrange. lia.
    + right; left. split; [done|]. rewrite pow256_2 in Hrange. lia.
    + right; right. split; [done|]. lia.
Qed.

Lemma Next_inv t pre post t' :
  at_offset t pre post -> is_bytes post -> Next t = (true, t') ->
  exists tok post', post = tokenBytes tok ++ post' /\ wf_token tok /\
    at_offset t' (pre ++ tokenBytes tok) post' /\ tk_op t' = Some tok.1 /\ tk_data t' = tok.2.
Proof.
  intros Hat Hb Hnext. destruct post as [|op rest].
  { unfold Next in Hnext. by rewrite (at_offset_Done _ _ _ Hat), bool_decide_true in Hnext. }
  destruct (Next_consumes _ _ _ _ _ Hat Hb Hnext) as (tok & post' & Heq & Hwf).
  exists tok, post'. rewrite Heq in Hat. split; [done|]. split; [done|].
  rewrite (Next_token _ _ _ _ Hat Hwf) in Hnext.
  destruct (at_offset_advance t pre _ _ tok.1 tok.2 Hat) as (t2 & E & H2 & H3 & H4).
  rewrite E in Hnext. by simplify_eq.
Qed.

Lemma Next_stop t pre post t' :
  at_offset t pre post -> Next t = (false, t') -> tk_err t' = None -> post = [].
Proof.
  intros Hat Hnext He. destruct post as [|op rest]; [done|exfalso].
  rewrite (Next_unfold _ _ _ _ Hat) in Hnext. cbv zeta in Hnext.
  unfold tokenizerAdvance, tokenizerFail in Hnext.
  repeat case_match; simplify_eq; cbn in He; congruence.
Qed.

Lemma tokenize_inv fuel t pre post ts t' :
  at_offset t pre post -> is_bytes post -> (length post < fuel)%nat ->
  tokenize fuel t = (ts, t') -> tk_err t' = None -> Forall wf_token ts /\ post = scriptOf ts.
Proof.
  revert t pre post ts; induction fuel as [|fuel IH]; intros t pre post ts Hat Hb Hf Hrun He; [lia|].
  cbn [tokenize] in Hrun. destruct (Next t) as [[] t1] eqn:Hn.
  - destruct (tokenize fuel t1) as [ts1 t2] eqn:Hrun1. injection Hrun as <- <-.
    destruct (Next_inv _ _ _ _ Hat Hb Hn) as (tok & post' & -> & Hwf & Hat1 & Hop & Hdata).
    pose proof (tokenBytes_nonempty tok). unfold zlen in *. rewrite length_app in Hf.
    apply Forall_app in Hb as [_ Hb].
    destruct (IH _ _ _ _ Hat1 Hb ltac:(lia) Hrun1 He) as [Hwfs ->].
    rewrite Hop, Hdata. replace (default 0 (Some tok.1), tok.2) with tok by by destruct tok.
    split; [by constructor|done].
  - injection Hrun as <- <-. split; [constructor|]. by eapply Next_stop.
Qed.

(** ** Properties *)

(** Tokenizing is the inverse of writing opcodes and pushes down, and
    accepts nothing else. A script of fewer than 2^31 bytes tokenizes without
    error to [ts] exactly when it is the concatenation of the well-formed tokens
    [ts], each a bare opcode, an [OP_DATA_n] push of [n] bytes or an
    [OP_PUSHDATA] push whose prefix is the length of its data. *)
Theorem tokenizeScript_iff script ts :
  is_bytes script -> zlen script < 2^31 ->
  ((tokenizeScript script).1 = ts /\ tk_err (tokenizeScript script).2 = None)
  <-> (Forall wf_token ts /\ script = scriptOf ts).
Proof.
  intros Hb Hl. split.
  - intros [Hts He]. destruct (tokenizeScript script) as [ts' t'] eqn:Hrun. cbn in Hts, He. subst ts'.
    eapply tokenize_inv; [by apply at_offset_start|done| |exact Hrun|done]. lia.
  - intros [Hwf ->]. destruct (tokenizeScript_print ts Hwf Hl) as (t' & -> & He). done.
Qed.

(** The token a data push of more than one byte is built as. *)
Definition pushToken (data : list Z) : token :=
  let n := zlen data in
  (if n <? OP_PUSHDATA1 then n else if n <=? 0xff then OP_PUSHDATA1
   else if n <=? 0xffff then OP_PUSHDATA2 else OP_PUSHDATA4, Some data).

Lemma wf_pushToken data : 1 < zlen data < 2^31 -> wf_token (pushToken data).
Proof.
  intros H. unfold pushToken, wf_token, is_u8, OP_PUSHDATA1, OP_PUSHDATA2, OP_PUSHDATA4; cbn [fst snd].
  destruct (Z.ltb_spec (zlen data) 0x4c); [split; [lia|left; lia]|].
  destruct (Z.leb_spec (zlen data) 0xff); [split; [lia|right; left; lia]|].
  destruct (Z.leb_spec (zlen data) 0xffff); [split; [lia|right; right; left; lia]|].
  split; [lia|right; right; right; lia].
Qed.

Lemma addData_pushToken b data :
  1 < zlen data < 2^31 -> addData b data = sbAppend b (tokenBytes (pushToken data)).
Proof.
  intros H. unfold addData, pushToken, tokenBytes.
  destruct (Z.eqb_spec (zlen data) 0); [lia|]. destruct (Z.eqb_spec (zlen data) 1); [lia|].
  cbn [orb andb]. f_equal. change OP_PUSHDATA1 with 76 in *.
  destruct (Z.ltb_spec (zlen data) 76).
  - destruct (Z.leb_spec (zlen data) 75); [|lia]. cbn [app]. f_equal. unfold u8, OP_DATA_1.
    rewrite Z.mod_small; lia.
  - destruct (Z.leb_spec (zlen data) 0xff).
    + done.
    + destruct (Z.leb_spec (zlen data) 0xffff); cbn -[le_bytes u16 u32].
      * unfold u16. rewrite Z.mod_small by lia. done.
      * rewrite u32_id by (widths; lia). done.
Qed.

Lemma zlen_pushToken data :
  1 < zlen data -> zlen (tokenBytes (pushToken data)) = canonicalDataSize data.
Proof.
  intros H. unfold canonicalDataSize, pushToken, tokenBytes.
  destruct (Z.eqb_spec (zlen data) 0); [lia|]. destruct (Z.eqb_spec (zlen data) 1); [lia|].
  cbn [andb]. change OP_PUSHDATA1 with 76 in *.
  destruct (Z.ltb_spec (zlen data) 76).
  - destruct (Z.leb_spec (zlen data) 75); [|lia]. by rewrite zlen_cons.
  - destruct (Z.leb_spec (zlen data) 0xff); [|destruct (Z.leb_spec (zlen data) 0xffff)];
      cbn -[le_bytes zlen]; rewrite zlen_cons, zlen_app, zlen_le_bytes; lia.
Qed.

(** An OP_RETURN output carrying [data], as the builder makes it. *)
Definition nullDataScript (data : list Z) : list Z := OP_RETURN :: tokenBytes (pushToken data).

Lemma build_nullData data :
  1 < zlen data <= MaxScriptElementSize ->
  BuilderScript (AddData (AddOp NewScriptBuilder OP_RETURN) data) = Ok (nullDataScript data).
Proof.
  intros H. unfold MaxScriptElementSize in H.
  change (AddOp NewScriptBuilder OP_RETURN) with (mkBuilder [OP_RETURN] None).
  unfold AddData; cbn [sb_err sb_script]. change (zlen [OP_RETURN]) with 1.
  assert (canonicalDataSize data <= 5 + zlen data).
  { unfold canonicalDataSize. repeat case_match; lia. }
  unfold MaxScriptSize, MaxScriptElementSize.
  destruct (Z.ltb_spec 10000 (1 + canonicalDataSize data)); [lia|].
  destruct (Z.ltb_spec 520 (zlen data)); [lia|].
  rewrite addData_pushToken by lia. done.
Qed.

Lemma PushedData_nullData data :
  1 < zlen data <= MaxScriptElementSize -> PushedData (nullDataScript data) = Ok [data].
Proof.
  intros H. unfold MaxScriptElementSize in H.
  assert (nullDataScript data = scriptOf [(OP_RETURN, None); pushToken data]) as E.
  { unfold nullDataScript, scriptOf; cbn [map concat]. by rewrite app_nil_r. }
  assert (canonicalDataSize data <= 5 + zlen data).
  { unfold canonicalDataSize. repeat case_match; lia. }
  destruct (tokenizeScript_print [(OP_RETURN, None); pushToken data]) as (t' & Hrun & He).
  { apply Forall_cons_2; [done|]. apply Forall_cons_2; [|constructor]. apply wf_pushToken; lia. }
  { rewrite <- E. unfold nullDataScript. rewrite zlen_cons, zlen_pushToken by lia. lia. }
  unfold PushedData. rewrite E, Hrun, He. done.
Qed.

Lemma IsUnspendable_nullData data : IsUnspendable (nullDataScript data) = true.
Proof. done. Qed.

(** A payload of 2 to 520 bytes that the builder puts behind OP_RETURN is
    read back by [PushedData] exactly, whichever push opcode its length needs,
    and the output that carries it never enters the UTXO set. *)
Lemma nullData_roundtrip data :
  1 < zlen data <= MaxScriptElementSize ->
  exists script,
    BuilderScript (AddData (AddOp NewScriptBuilder OP_RETURN) data) = Ok script /\
    PushedData script = Ok [data] /\ IsUnspendable script = true.
Proof.
  intros H. exists (nullDataScript data). split_and!;
    [by apply build_nullData|by apply PushedData_nullData|apply IsUnspendable_nullData].
Qed.

Lemma tokenizeScript_iff_witness :
  let ts := [(OP_RETURN, None); (3, Some [1; 2; 3]); (OP_PUSHDATA1, Some [9])] in
  (tokenizeScript (scriptOf ts)).1 = ts /\ tk_err (tokenizeScript (scriptOf ts)).2 = None.
Proof.
  cbv zeta. apply tokenizeScript_iff.
  - vm_compute. repeat apply Forall_cons_2; [..|apply Forall_nil_2]; split; discriminate || reflexivity.
  - reflexivity.
  - split; [|reflexivity]. repeat apply Forall_cons_2; [..|apply Forall_nil_2].
    + split; [split; discriminate || reflexivity|reflexivity].
    + split; [split; discriminate || reflexivity|left; split; [split; discriminate|reflexivity]].
    + split; [split; discriminate || reflexivity|right; left; split; reflexivity].
Defined.

Lemma nullData_roundtrip_witness :
  exists script,
    BuilderScript (AddData (AddOp NewScriptBuilder OP_RETURN) (replicate 300 7)) = Ok script /\
    PushedData script = Ok [replicate 300 7] /\ IsUnspendable script = true.
Proof. apply (nullData_roundtrip (replicate 300 7)). split; [reflexivity|discriminate]. Defined.
