(* ===== verification/ScriptNum.v ===== *)
(** * Script numbers and the data stack

    src/txscript/scriptnum.go and src/txscript/stack.go. A script number is an
    int64; its encoding is little endian with a sign bit in the top byte. The
    stack is the source's slice, its last element the top, with indices as
    int32 values. An operation that fails leaves the stack it had reached, as
    the mutated receiver of the source does. [None] of [scriptNumBytes] is the
    index out of range the source runs into on the least int64. *)

From S2P Require Import Prelude Sha256 Wire Commitment Script.

Definition maxScriptNumLen : Z := 4.
Definition cltvMaxScriptNumLen : Z := 5.

(** ** Script numbers *)

Definition checkMinimalDataEncoding (v : list Z) : option script_error :=
  match last v with
  | None => None
  | Some hi =>
      if Z.land hi 0x7f =? 0 then
        if (zlen v =? 1) || (Z.land (nth (length v - 2) v 0) 0x80 =? 0)
        then Some ErrMinimalData else None
      else None
  end.

(** The loop [for n > 0 { append(byte(n & 0xff)); n >>= 8 }]. *)
Fixpoint littleEndian (fuel : nat) (n : Z) : list Z :=
  match fuel with
  | O => []
  | S fuel' => if 0 <? n then Z.land n 0xff :: littleEndian fuel' (Z.shiftr n 8) else []
  end.

Definition scriptNumBytes (n : Z) : option (list Z) :=
  if n =? 0 then Some []
  else
    let isNegative := n <? 0 in
    let result := littleEndian 9 (if isNegative then i64 (- n) else n) in
    match last result with
    | None => None
    | Some hi =>
        if negb (Z.land hi 0x80 =? 0) then Some (result ++ [if isNegative then 0x80 else 0x00])
        else if isNegative then Some (take (length result - 1) result ++ [Z.lor hi 0x80])
        else Some result
    end.

Definition scriptNumInt32 (n : Z) : Z :=
  if 2^31 - 1 <? n then 2^31 - 1 else if n <? - 2^31 then - 2^31 else i32 n.

(** [int64(x) << uint8(k)]. *)
Definition shl64 (x k : Z) : Z := if 64 <=? u8 k then 0 else i64 (Z.shiftl x (u8 k)).

Fixpoint decodeFrom (i : Z) (result : Z) (v : list Z) : Z :=
  match v with
  | [] => result
  | val :: v' => decodeFrom (i + 1) (Z.lor result (shl64 val (8 * i))) v'
  end.

Definition MakeScriptNum (v : list Z) (requireMinimal : bool) (scriptNumLen : Z)
    : result script_error Z :=
  if scriptNumLen <? zlen v then Err ErrNumberTooBig
  else
    match (if requireMinimal then checkMinimalDataEncoding v else None) with
    | Some e => Err e
    | None =>
        match last v with
        | None => Ok 0
        | Some hi =>
            let result := decodeFrom 0 0 v in
            if negb (Z.land hi 0x80 =? 0)
            then Ok (i64 (- Z.land result (Z.lnot (shl64 0x80 (8 * (zlen v - 1))))))
            else Ok result
        end
    end.

(** ** The stack *)

Fixpoint asBool (t : list Z) : bool :=
  match t with
  | [] => false
  | b :: t' =>
      if negb (b =? 0) then negb (bool_decide (t' = []) && (b =? 0x80)) else asBool t'
  end.

Definition fromBool (v : bool) : list Z := if v then [1] else [].

(** What ends an operation early: an error with a code of error.go, an error of
    another package, or a run-time panic. *)
Inductive engine_error :=
| ScriptErr (code : script_error)
| PlainErr (reason : string)
| EnginePanic (reason : string).

Record stack := mkStack { stk : list (list Z); verifyMinimalData : bool }.

Definition setStk (s : stack) (l : list (list Z)) : stack := mkStack l (verifyMinimalData s).

(** A stack operation: the outcome, and the stack it leaves. *)
Definition stackM (A : Type) : Type := stack -> result engine_error A * stack.

#[export] Instance stackM_ret : MRet stackM := fun A a s => (Ok a, s).
#[export] Instance stackM_bind : MBind stackM := fun A B f m s =>
  match m s with
  | (Ok a, s') => f a s'
  | (Err e, s') => (Err e, s')
  end.

Definition stackErr {A} (e : script_error) : stackM A := fun s => (Err (ScriptErr e), s).

Definition liftScript {A} (r : result script_error A) : result engine_error A :=
  match r with Ok a => Ok a | Err e => Err (ScriptErr e) end.

Definition Depth (s : stack) : Z := i32 (zlen (stk s)).

Definition PushByteArray (so : list Z) : stackM unit := fun s => (Ok tt, setStk s (stk s ++ [so])).
Definition PushInt (val : Z) : stackM unit :=
  match scriptNumBytes val with
  | Some so => PushByteArray so
  | None => fun s => (Err (EnginePanic "index out of range"), s)
  end.

Definition PushBool (val : bool) : stackM unit := PushByteArray (fromBool val).

Definition nipN (idx : Z) : stackM (list Z) := fun s =>
  let sz := i32 (zlen (stk s)) in
  if (idx <? 0) || (sz - 1 <? idx) then (Err (ScriptErr ErrInvalidStackOperation), s)
  else
    let so := nth (Z.to_nat (sz - idx - 1)) (stk s) [] in
    (Ok so,
     setStk s
       (if idx =? 0 then take (Z.to_nat (sz - 1)) (stk s)
        else if idx =? sz - 1 then drop 1 (stk s)
        else take (Z.to_nat (sz - idx - 1)) (stk s)
             ++ slice (Z.to_nat (sz - idx)) (Z.to_nat sz) (stk s))).

Definition NipN (idx : Z) : stackM unit := _ ← nipN idx; mret tt.

Definition PopByteArray : stackM (list Z) := nipN 0.

Definition PeekByteArray (idx : Z) : stackM (list Z) := fun s =>
  let sz := i32 (zlen (stk s)) in
  if (idx <? 0) || (sz <=? idx) then (Err (ScriptErr ErrInvalidStackOperation), s)
  else (Ok (nth (Z.to_nat (sz - idx - 1)) (stk s) []), s).

(** [MakeScriptNum(so, s.verifyMinimalData, maxScriptNumLen)]. *)
Definition makeInt (so : list Z) : stackM Z := fun s =>
  (liftScript (MakeScriptNum so (verifyMinimalData s) maxScriptNumLen), s).

Definition PopInt : stackM Z :=
  so ← PopByteArray; makeInt so.

Definition PopBool : stackM bool := so ← PopByteArray; mret (asBool so).

Definition PeekInt (idx : Z) : stackM Z :=
  so ← PeekByteArray idx; makeInt so.

Definition PeekBool (idx : Z) : stackM bool := so ← PeekByteArray idx; mret (asBool so).

Definition Tuck : stackM unit :=
  so2 ← PopByteArray;
  so1 ← PopByteArray;
  _ ← PushByteArray so2;
  _ ← PushByteArray so1;
  PushByteArray so2.

(** [for ; n > 0; n-- { body }], the body not reading the counter. *)
Fixpoint repeatM (n : nat) (body : stackM unit) : stackM unit :=
  match n with
  | O => mret tt
  | S n' => _ ← body; repeatM n' body
  end.

(** The guard [n < 1] and the loop the next five operations share. *)
Definition countedM (n : Z) (body : stackM unit) : stackM unit :=
  if n <? 1 then stackErr ErrInvalidStackOperation else repeatM (Z.to_nat n) body.

Definition DropN (n : Z) : stackM unit := countedM n (_ ← PopByteArray; mret tt).

Definition DupN (n : Z) : stackM unit :=
  countedM n (so ← PeekByteArray (i32 (n - 1)); PushByteArray so).

Definition RotN (n : Z) : stackM unit :=
  countedM n (so ← nipN (i32 (3 * n - 1)); PushByteArray so).

Definition SwapN (n : Z) : stackM unit :=
  countedM n (so ← nipN (i32 (2 * n - 1)); PushByteArray so).

Definition OverN (n : Z) : stackM unit :=
  countedM n (so ← PeekByteArray (i32 (2 * n - 1)); PushByteArray so).

Definition PickN (n : Z) : stackM unit := so ← PeekByteArray n; PushByteArray so.

Definition RollN (n : Z) : stackM unit := so ← nipN n; PushByteArray so.

(** ** Script numbers: encoding and decoding *)

(** A statement about a byte, checked on all of them. *)
Lemma byte_forall (P : Z -> bool) :
  forallb P (seqZ 0 256) = true -> forall b, is_u8 b -> P b = true.
Proof.
  intros H b Hb. rewrite forallb_forall in H. apply H, list_elem_of_In, elem_of_seqZ.
  unfold is_u8 in Hb. lia.
Qed.

Lemma byte_land_80 b : is_u8 b -> (Z.land b 0x80 =? 0) = (b <? 128).
Proof.
  intros Hb. apply eqb_prop.
  revert b Hb. apply (byte_forall (fun b => eqb (Z.land b 0x80 =? 0) (b <? 128))). reflexivity.
Qed.

Lemma byte_land_7f b : is_u8 b -> Z.land b 0x7f = b mod 128.
Proof. intros _. change 0x7f with (Z.ones 7). rewrite Z.land_ones by lia. done. Qed.

Lemma byte_lor_80 b : 0 <= b < 128 -> Z.lor b 0x80 = b + 128.
Proof.
  intros Hb. assert (Hu : is_u8 b) by (unfold is_u8; lia).
  pose proof (byte_forall (fun b => (128 <=? b) || (Z.lor b 0x80 =? b + 128)) ltac:(reflexivity) b Hu) as H.
  cbv beta in H. destruct (Z.leb_spec 128 b); [lia|]. cbn [orb] in H. lia.
Qed.

Lemma le_val_app a b : le_val (a ++ b) = le_val a + pow256 (length a) * le_val b.
Proof.
  induction a as [|x a IH]; cbn [le_val app length].
  - change (pow256 0) with 1. lia.
  - rewrite IH, pow256_S. lia.
Qed.

Lemma lor_disjoint a c k : 0 <= k -> 0 <= a < 2^k -> Z.lor a (c * 2^k) = a + c * 2^k.
Proof.
  intros Hk Ha. assert (Hl : Z.land a (c * 2^k) = 0).
  { apply Z.bits_inj'. intros n Hn. rewrite Z.land_spec, Z.bits_0, <- Z.shiftl_mul_pow2 by done.
    destruct (Z.ltb_spec n k).
    - by rewrite Z.shiftl_spec_low, andb_false_r.
    - destruct (Z.eq_dec a 0) as [->|]; [by rewrite Z.bits_0|].
      rewrite (Z.bits_above_log2 a n); [done|lia|]. apply Z.log2_lt_pow2; [lia|].
      apply Z.lt_le_trans with (2^k); [lia|]. by apply Z.pow_le_mono_r. }
  by rewrite <- Z.lxor_lor, <- Z.add_nocarry_lxor.
Qed.

Lemma land_clear a k : 0 <= k -> 0 <= a < 2^k -> Z.land (a + 2^k) (Z.lnot (2^k)) = a.
Proof.
  intros Hk Ha. rewrite <- Z.ldiff_land. rewrite <- Z.sub_nocarry_ldiff; [lia|].
  replace (a + 2^k) with (Z.lor a (1 * 2^k)) by (rewrite lor_disjoint by done; lia).
  apply Z.bits_inj'. intros n Hn. rewrite Z.ldiff_spec, Z.lor_spec, Z.bits_0, Z.mul_1_l.
  by destruct (Z.testbit (2^k) n); destruct (Z.testbit a n).
Qed.

Lemma pow256_pow2 n : pow256 n = 2 ^ (8 * Z.of_nat n).
Proof. unfold pow256. change 256 with (2^8). by rewrite <- Z.pow_mul_r by lia. Qed.

(** A byte shifted to position [k] and added to the bytes below it, in int64. *)
Lemma shl64_byte lp b k :
  is_u8 b -> (k < 8)%nat -> 0 <= lp < pow256 k ->
  exists c, shl64 b (8 * Z.of_nat k) = c * pow256 k /\ lp + c * pow256 k = i64 (lp + pow256 k * b).
Proof.
  intros Hb Hk Hlp. unfold shl64, u8. rewrite Z.mod_small by lia.
  destruct (Z.leb_spec 64 (8 * Z.of_nat k)); [lia|].
  rewrite Z.shiftl_mul_pow2, <- pow256_pow2 by lia. unfold is_u8 in Hb.
  assert (Hwrap : forall z, 0 <= z < 2^64 -> i64 z = if z <? 2^63 then z else z - 2^64).
  { intros z Hz. unfold i64. destruct (Z.ltb_spec z (2^63)); [rewrite Z.mod_small; lia|].
    replace (z + 2^63) with (z - 2^63 + 1 * 2^64) by lia. rewrite Z.mod_add, Z.mod_small; lia. }
  assert (k = 7 \/ k <= 6)%nat as [->|Hk'] by lia.
  - change (pow256 7) with (2^56) in *. rewrite !Hwrap by lia.
    destruct (Z.ltb_spec (b * 2^56) (2^63)); destruct (Z.ltb_spec (lp + 2^56 * b) (2^63)); try lia.
    + exists b. lia.
    + exists (b - 256). lia.
  - assert (pow256 k <= pow256 6) by (unfold pow256; apply Z.pow_le_mono_r; lia).
    change (pow256 6) with (2^48) in *. exists b. rewrite !i64_id by (unfold is_i64; nia). lia.
Qed.

Lemma decodeFrom_spec v pre :
  is_bytes (pre ++ v) -> (length pre + length v <= 8)%nat ->
  decodeFrom (zlen pre) (i64 (le_val pre)) v = i64 (le_val (pre ++ v)).
Proof.
  revert pre; induction v as [|b v IH]; intros pre Hb Hl; cbn [decodeFrom length] in *.
  - by rewrite app_nil_r.
  - apply Forall_app in Hb as Hb2. destruct Hb2 as [Hpre Hbv]. apply Forall_cons_1 in Hbv as [Hbb Hv].
    pose proof (le_val_range _ Hpre) as Hr.
    assert (Hp7 : pow256 (length pre) <= 2^56).
    { change (2^56) with (pow256 7). unfold pow256. apply Z.pow_le_mono_r; lia. }
    destruct (shl64_byte (le_val pre) b (length pre) Hbb ltac:(lia) Hr) as (c & Hc & Hi).
    replace (8 * zlen pre) with (8 * Z.of_nat (length pre)) by done. rewrite Hc.
    rewrite (i64_id (le_val pre)) by (unfold is_i64; lia).
    rewrite pow256_pow2, lor_disjoint, <- pow256_pow2, Hi by (rewrite <- ?pow256_pow2; lia).
    replace (zlen pre + 1) with (zlen (pre ++ [b])) by (rewrite zlen_app; done).
    replace (pre ++ b :: v) with ((pre ++ [b]) ++ v) by by rewrite <- app_assoc.
    rewrite <- IH; [|by rewrite <- app_assoc|rewrite length_app; cbn; lia].
    f_equal. rewrite le_val_app. cbn [le_val]. f_equal. lia.
Qed.

(** Clearing the sign bit of a decoded negative number. *)
Lemma land_sign_bit x k hi :
  (k < 8)%nat -> 0 <= x < pow256 k -> 128 <= hi < 256 ->
  Z.land (i64 (x + pow256 k * hi)) (Z.lnot (i64 (128 * pow256 k))) = x + (hi - 128) * pow256 k.
Proof.
  intros Hk Hx Hhi. assert (k = 7 \/ k <= 6)%nat as [->|Hk'] by lia.
  - change (pow256 7) with (2^56) in *. change (Z.lnot (i64 (128 * 2^56))) with (Z.ones 63).
    rewrite Z.land_ones by lia. unfold i64.
    replace (x + 2^56 * hi + 2^63) with (x + 2^56 * (hi - 128) + 1 * 2^64) by lia.
    rewrite Z.mod_add, (Z.mod_small _ (2^64)) by lia.
    replace (x + 2^56 * (hi - 128) - 2^63) with (x + 2^56 * (hi - 128) + (-1) * 2^63) by lia.
    rewrite Z.mod_add, Z.mod_small; lia.
  - assert (pow256 k <= pow256 6) by (unfold pow256; apply Z.pow_le_mono_r; lia).
    change (pow256 6) with (2^48) in *. rewrite !i64_id by (unfold is_i64; nia).
    replace (128 * pow256 k) with (2 ^ (8 * Z.of_nat k + 7))
      by (rewrite Z.pow_add_r, <- pow256_pow2 by lia; lia).
    replace (x + pow256 k * hi) with (x + (hi - 128) * pow256 k + 2 ^ (8 * Z.of_nat k + 7))
      by (rewrite Z.pow_add_r, <- pow256_pow2 by lia; lia).
    apply land_clear; [lia|]. rewrite Z.pow_add_r, <- pow256_pow2 by lia. nia.
Qed.

(** The number an encoding stands for. *)
Definition scriptNumValue (v : list Z) : Z :=
  match last v with
  | None => 0
  | Some hi =>
      if hi <? 128 then le_val v else - (le_val v - 128 * pow256 (length v - 1))
  end.

Lemma MakeScriptNum_decode v m (l : Z) :
  is_bytes v -> zlen v <= l -> l <= 8 ->
  MakeScriptNum v m l =
    match (if m then checkMinimalDataEncoding v else None) with
    | Some e => Err e
    | None => Ok (scriptNumValue v)
    end.
Proof.
  intros Hb Hl Hl8. unfold MakeScriptNum, scriptNumValue. destruct (Z.ltb_spec l (zlen v)); [lia|].
  destruct (if m then _ else None); [done|].
  destruct v as [|hi p _] using rev_ind; [done|]. rewrite last_snoc.
  apply Forall_app in Hb as Hb2. destruct Hb2 as [Hp [Hhi _]%Forall_cons_1].
  rewrite byte_land_80 by done.
  change (decodeFrom 0 0 (p ++ [hi])) with (decodeFrom (zlen (@nil Z)) (i64 (le_val [])) (p ++ [hi])).
  rewrite zlen_app in *. change (zlen [hi]) with 1 in *.
  rewrite decodeFrom_spec by (try done; rewrite length_app; unfold zlen in *; cbn; lia).
  cbn [app]. rewrite le_val_app. cbn [le_val]. rewrite length_app; cbn [length].
  replace (length p + 1 - 1)%nat with (length p) by lia.
  replace (zlen p + 1 - 1) with (zlen p) by lia.
  pose proof (le_val_range _ Hp) as Hr. unfold is_u8 in Hhi.
  assert (Hp7 : pow256 (length p) <= 2^56).
  { change (2^56) with (pow256 7). unfold pow256, zlen in *. apply Z.pow_le_mono_r; lia. }
  destruct (Z.ltb_spec hi 128); cbn [negb].
  { f_equal. apply i64_id. unfold is_i64. nia. }
  f_equal. unfold shl64, u8. unfold zlen in *. rewrite Z.mod_small by lia.
  destruct (Z.leb_spec 64 (8 * Z.of_nat (length p))); [lia|].
  rewrite Z.shiftl_mul_pow2, <- pow256_pow2 by lia.
  set (P := pow256 (length p)) in *. set (x := le_val p) in *.
  assert (Hcore : Z.land (i64 (x + P * (hi + 256 * 0))) (Z.lnot (i64 (128 * P))) = x + (hi - 128) * P).
  { rewrite Z.mul_0_r, Z.add_0_r. apply land_sign_bit; unfold x, P; [lia|done|lia]. }
  rewrite Hcore. rewrite i64_id; [nia|]. unfold is_i64. nia.
Qed.

(** *** Bytes *)

Lemma littleEndian_digits fuel n :
  0 <= n < pow256 fuel ->
  le_val (littleEndian fuel n) = n /\ is_bytes (littleEndian fuel n) /\
  last (littleEndian fuel n) <> Some 0 /\ (length (littleEndian fuel n) <= fuel)%nat.
Proof.
  revert n; induction fuel as [|fuel IH]; intros n Hn; cbn [littleEndian].
  - change (pow256 0) with 1 in Hn. cbn. split_and!; [lia|constructor|done|lia].
  - destruct (Z.ltb_spec 0 n); [|cbn; split_and!; [lia|constructor|done|lia]].
    rewrite pow256_S in Hn. change 0xff with (Z.ones 8). rewrite Z.land_ones, Z.shiftr_div_pow2 by lia.
    change (2^8) with 256.
    destruct (IH (n / 256)) as (H1 & H2 & H3 & H4).
    { split; [apply Z.div_pos; lia|apply Z.div_lt_upper_bound; lia]. }
    cbn [le_val length]. rewrite H1. split_and!.
    + pose proof (Z.div_mod n 256). lia.
    + apply Forall_cons_2; [|done]. unfold is_u8. pose proof (Z.mod_pos_bound n 256). lia.
    + destruct (littleEndian fuel (n / 256)) as [|d ds]; [|by rewrite last_cons_cons].
      cbn in *. intros [= E]. pose proof (Z.div_mod n 256). lia.
    + lia.
Qed.

Lemma le_val_pos d hi : is_bytes d -> last d = Some hi -> hi <> 0 -> 0 < le_val d.
Proof.
  destruct d as [|x p _] using rev_ind; [done|]. rewrite last_snoc. intros Hb [= ->] Hx.
  apply Forall_app in Hb as [Hp [Hh _]%Forall_cons_1]. rewrite le_val_app. cbn [le_val].
  pose proof (le_val_range _ Hp). pose proof (pow256_pos (length p)). unfold is_u8 in Hh. nia.
Qed.

Lemma littleEndian_unique fuel d :
  is_bytes d -> last d <> Some 0 -> (length d <= fuel)%nat -> littleEndian fuel (le_val d) = d.
Proof.
  revert fuel; induction d as [|b d IH]; intros fuel Hb Hl Hf.
  - by destruct fuel.
  - destruct fuel as [|fuel]; cbn [length] in Hf; [lia|]. cbn [littleEndian].
    assert (0 < le_val (b :: d)) as Hpos.
    { destruct (last (b :: d)) as [hi|] eqn:E; [|by apply last_None in E].
      apply (le_val_pos _ hi); [done|done|congruence]. }
    destruct (Z.ltb_spec 0 (le_val (b :: d))); [|lia].
    apply Forall_cons_1 in Hb as [Hbb Hb]. unfold is_u8 in Hbb. cbn [le_val].
    change 0xff with (Z.ones 8). rewrite Z.land_ones, Z.shiftr_div_pow2 by lia. change (2^8) with 256.
    rewrite (Z.mul_comm 256), Z.mod_add, Z.mod_small, Z.div_add, (Z.div_small b), Z.add_0_l by lia.
    f_equal. apply IH; [done| |lia]. destruct d; [done|]. by rewrite last_cons_cons in Hl.
Qed.

(** The encoding of a magnitude [p ++ [hi]] with a sign. *)
Definition signEncode (neg : bool) (p : list Z) (hi : Z) : list Z :=
  if hi <? 128 then p ++ [if neg then hi + 128 else hi] else p ++ [hi] ++ [if neg then 0x80 else 0x00].

Lemma scriptNumBytes_encode (neg : bool) p hi :
  is_bytes (p ++ [hi]) -> hi <> 0 -> le_val (p ++ [hi]) < 2^63 -> (length p < 8)%nat ->
  scriptNumBytes (if neg then - le_val (p ++ [hi]) else le_val (p ++ [hi])) = Some (signEncode neg p hi).
Proof.
  intros Hb Hhi Hlt Hlen. pose proof (last_snoc hi p) as Hlast.
  pose proof (le_val_pos _ hi Hb Hlast Hhi) as Hpos.
  apply Forall_app in Hb as Hb2. destruct Hb2 as [_ [Hu _]%Forall_cons_1].
  unfold scriptNumBytes, signEncode. destruct (Z.eqb_spec (if neg then - le_val (p ++ [hi]) else le_val (p ++ [hi])) 0); [destruct neg; lia|].
  assert (((if neg then - le_val (p ++ [hi]) else le_val (p ++ [hi])) <? 0) = neg) as ->.
  { destruct neg; [apply Z.ltb_lt|apply Z.ltb_ge]; lia. }
  assert (littleEndian 9 (if neg then i64 (- (if neg then - le_val (p ++ [hi]) else le_val (p ++ [hi])))
            else if neg then - le_val (p ++ [hi]) else le_val (p ++ [hi])) = p ++ [hi]) as ->.
  { transitivity (littleEndian 9 (le_val (p ++ [hi]))).
    - destruct neg; [|done]. rewrite Z.opp_involutive, i64_id; [done|]. unfold is_i64. lia.
    - apply littleEndian_unique; [done|rewrite Hlast; congruence|rewrite length_app; cbn; lia]. }
  rewrite Hlast, byte_land_80 by done. unfold is_u8 in Hu.
  destruct (Z.ltb_spec hi 128); cbn [negb].
  - destruct neg; [|done]. rewrite byte_lor_80, length_app by lia. cbn [length].
    replace (length p + 1 - 1)%nat with (length p) by lia. by rewrite take_app_length.
  - by rewrite <- app_assoc.
Qed.

Lemma scriptNumValue_encode (neg : bool) p hi :
  is_bytes (p ++ [hi]) ->
  scriptNumValue (signEncode neg p hi) = if neg then - le_val (p ++ [hi]) else le_val (p ++ [hi]).
Proof.
  intros Hb. apply Forall_app in Hb as [Hp [Hu _]%Forall_cons_1]. unfold is_u8 in Hu.
  unfold scriptNumValue, signEncode. destruct (Z.ltb_spec hi 128).
  - rewrite last_snoc, !le_val_app, length_app. cbn [le_val length].
    replace (length p + 1 - 1)%nat with (length p) by lia.
    destruct neg; [destruct (Z.ltb_spec (hi + 128) 128); lia|destruct (Z.ltb_spec hi 128); lia].
  - rewrite app_assoc, last_snoc, !le_val_app, !length_app. cbn [le_val length].
    replace (length p + 1 + 1 - 1)%nat with (length p + 1)%nat by lia.
    rewrite Nat.add_1_r, pow256_S. destruct neg; cbn; lia.
Qed.

Lemma checkMinimal_snoc p hi :
  is_bytes (p ++ [hi]) ->
  checkMinimalDataEncoding (p ++ [hi]) = None <->
  hi mod 128 <> 0 \/ exists p' h2, p = p' ++ [h2] /\ 128 <= h2.
Proof.
  intros Hb. apply Forall_app in Hb as [Hp [Hu _]%Forall_cons_1].
  unfold checkMinimalDataEncoding. rewrite last_snoc, byte_land_7f by done.
  destruct (Z.eqb_spec (hi mod 128) 0) as [E|E]; [|tauto].
  destruct p as [|h2 p' _] using rev_ind.
  - cbn [zlen length app Z.of_nat]. split; [done|]. intros [?|(p' & h2 & H & _)]; [done|].
    by destruct p'.
  - apply Forall_app in Hp as [_ [Hu2 _]%Forall_cons_1].
    rewrite !zlen_app. change (zlen [h2]) with 1. change (zlen [hi]) with 1.
    destruct (Z.eqb_spec (zlen p' + 1 + 1) 1) as [Hz|_]; [pose proof (zlen_nonneg p'); lia|].
    cbn [orb]. rewrite !length_app; cbn [length].
    replace (length p' + 1 + 1 - 2)%nat with (length p') by lia.
    rewrite <- app_assoc. cbn [app]. rewrite nth_middle. rewrite byte_land_80 by done.
    destruct (Z.ltb_spec h2 128).
    + split; [done|]. intros [?|(q & h & [_ ->]%app_inj_tail & ?)]; [done|lia].
    + split; [|done]. intros _. right. by exists p', h2.
Qed.

Lemma signEncode_minimal (neg : bool) p hi :
  is_bytes (p ++ [hi]) -> hi <> 0 ->
  checkMinimalDataEncoding (signEncode neg p hi) = None /\ is_bytes (signEncode neg p hi).
Proof.
  intros Hb Hhi. apply Forall_app in Hb as Hb2. destruct Hb2 as [Hp [Hu _]%Forall_cons_1].
  assert (is_bytes (signEncode neg p hi)) as Hb'.
  { unfold signEncode, is_u8 in *. destruct (Z.ltb_spec hi 128).
    - apply Forall_app_2; [done|]. apply Forall_cons_2; [|constructor]. unfold is_u8. destruct neg; lia.
    - rewrite app_assoc. apply Forall_app_2; [done|]. apply Forall_cons_2; [|constructor]. by destruct neg. }
  split; [|done]. revert Hb'. unfold signEncode. unfold is_u8 in Hu. destruct (Z.ltb_spec hi 128).
  - intros Hb'. apply checkMinimal_snoc; [done|]. left.
    destruct neg; [replace (hi + 128) with (hi + 1 * 128) by lia; rewrite Z.mod_add by lia|];
      rewrite Z.mod_small; lia.
  - rewrite app_assoc. intros Hb'. apply checkMinimal_snoc; [done|]. right. by exists p, hi.
Qed.

(** Every minimal encoding is the encoding of a magnitude with a sign. *)
Lemma minimal_signEncode v :
  is_bytes v -> v <> [] -> checkMinimalDataEncoding v = None ->
  exists neg p hi, v = signEncode neg p hi /\ is_bytes (p ++ [hi]) /\ hi <> 0 /\
    (length p < length v)%nat /\ (length v = (length p + 1)%nat -> hi < 128).
Proof.
  intros Hb Hne Hmin. destruct v as [|hi p _] using rev_ind; [done|].
  apply checkMinimal_snoc in Hmin; [|done].
  apply Forall_app in Hb as [Hp [Hu _]%Forall_cons_1]. unfold is_u8 in Hu.
  assert (hi = hi mod 128 \/ hi = hi mod 128 + 128) as Hcase.
  { pose proof (Z.div_mod hi 128). assert (hi / 128 = 0 \/ hi / 128 = 1); [|lia].
    assert (0 <= hi / 128 < 2); [|lia]. split; [apply Z.div_pos; lia|apply Z.div_lt_upper_bound; lia]. }
  pose proof (Z.mod_pos_bound hi 128 ltac:(lia)) as Hm.
  destruct (decide (hi mod 128 = 0)) as [E|E].
  - destruct Hmin as [?|(p' & h2 & -> & Hh2)]; [done|].
    exists (hi =? 128), p', h2. rewrite !length_app; cbn [length].
    unfold signEncode. destruct (Z.ltb_spec h2 128); [lia|]. split_and!; [|done|lia|lia|lia].
    rewrite <- app_assoc. cbn [app]. do 3 f_equal. destruct (Z.eqb_spec hi 128); lia.
  - exists (128 <=? hi), p, (hi mod 128). rewrite length_app; cbn [length].
    unfold signEncode. destruct (Z.ltb_spec (hi mod 128) 128); [|lia]. split_and!; [|..|done|lia|lia].
    + do 2 f_equal. destruct (Z.leb_spec 128 hi); lia.
    + apply Forall_app_2; [done|]. apply Forall_cons_2; [|constructor]. unfold is_u8. lia.
Qed.

Lemma le_val_signed_bound p hi n :
  is_bytes (p ++ [hi]) -> (length p < n)%nat -> (n = (length p + 1)%nat -> hi < 128) ->
  le_val (p ++ [hi]) < 128 * pow256 (n - 1).
Proof.
  intros Hb Hl Hn. apply Forall_app in Hb as [Hp [Hu _]%Forall_cons_1]. unfold is_u8 in Hu.
  rewrite le_val_app. cbn [le_val]. pose proof (le_val_range _ Hp). pose proof (pow256_pos (length p)).
  destruct (decide (n = length p + 1)%nat) as [->|Hne].
  - replace (length p + 1 - 1)%nat with (length p) by lia. specialize (Hn eq_refl). nia.
  - assert (pow256 (S (length p)) <= pow256 (n - 1)) by (unfold pow256; apply Z.pow_le_mono_r; lia).
    rewrite pow256_S in *. nia.
Qed.

Lemma magnitude_snoc m :
  0 < m < 2^63 ->
  exists p hi, le_val (p ++ [hi]) = m /\ is_bytes (p ++ [hi]) /\ hi <> 0 /\ (length p < 8)%nat.
Proof.
  intros Hm. destruct (littleEndian_digits 8 m) as (H1 & H2 & H3 & H4).
  { change (pow256 8) with (2^64). lia. }
  destruct (littleEndian 8 m) as [|hi p _] using rev_ind; [cbn in H1; lia|].
  exists p, hi. rewrite last_snoc in H3. rewrite length_app in H4. cbn [length] in H4.
  split_and!; [done|done|congruence|lia].
Qed.

Lemma zlen_signEncode_le (neg : bool) p hi l :
  is_bytes (p ++ [hi]) -> hi <> 0 -> 1 <= l -> le_val (p ++ [hi]) < 2 ^ (8 * l - 1) ->
  zlen (signEncode neg p hi) <= l.
Proof.
  intros Hb Hhi Hl Hv. apply Forall_app in Hb as [Hp [Hu _]%Forall_cons_1]. unfold is_u8 in Hu.
  rewrite le_val_app in Hv. cbn [le_val] in Hv. pose proof (le_val_range _ Hp) as Hr.
  pose proof (pow256_pos (length p)).
  assert (forall k, 0 <= k -> 2^k * pow256 (length p) < 2 ^ (8 * l - 1) -> k + 8 * zlen p < 8 * l - 1) as Hpow.
  { intros k Hk. rewrite pow256_pow2, <- Z.pow_add_r by lia. intros Hlt.
    apply Z.pow_lt_mono_r_iff in Hlt; unfold zlen; lia. }
  unfold signEncode. destruct (Z.ltb_spec hi 128); rewrite !zlen_app.
  - change (zlen [_]) with 1. specialize (Hpow 0 ltac:(lia) ltac:(change (2^0) with 1; nia)). lia.
  - change (zlen [_]) with 1. change (zlen [if neg then 0x80 else 0]) with 1.
    specialize (Hpow 7 ltac:(lia) ltac:(nia)). lia.
Qed.

(** ** Properties of script numbers *)

(** Encoding and decoding script numbers are inverse to each other, and the
    minimal encodings are exactly the canonical ones. For a limit of [l] bytes,
    1 to 8, a byte string of at most [l] bytes passes the minimality check and
    decodes to [n] exactly when it is what [Bytes] returns for [n] and
    [n] is strictly between -2^(8l-1) and 2^(8l-1). In particular [Bytes] does
    not run out of range on such a number. *)
Theorem scriptNum_codec v n l :
  1 <= l <= 8 -> is_bytes v ->
  (MakeScriptNum v true l = Ok n <->
   scriptNumBytes n = Some v /\ Z.abs n < 2 ^ (8 * l - 1)).
Proof.
  intros Hl Hb. split.
  - intros H. assert (zlen v <= l) as Hlen.
    { unfold MakeScriptNum in H. destruct (Z.ltb_spec l (zlen v)); [done|lia]. }
    rewrite MakeScriptNum_decode in H by (done || lia).
    destruct (checkMinimalDataEncoding v) eqn:Hmin; [done|]. injection H as <-.
    destruct (decide (v = [])) as [->|Hne]; [split; [done|cbn; lia]|].
    destruct (minimal_signEncode v Hb Hne Hmin) as (neg & p & hi & -> & Hbp & Hhi & Hlp & Hsmall).
    pose proof (le_val_signed_bound p hi (Z.to_nat l) Hbp) as Hbound. unfold zlen in Hlen.
    assert (le_val (p ++ [hi]) < 2 ^ (8 * l - 1)) as Hv.
    { replace (2 ^ (8 * l - 1)) with (128 * pow256 (Z.to_nat l - 1)).
      - apply Hbound; [lia|]. intros Heq. apply Hsmall. lia.
      - rewrite pow256_pow2. change 128 with (2^7). rewrite <- Z.pow_add_r by lia. f_equal. lia. }
    pose proof (le_val_range _ Hbp).
    assert (2 ^ (8 * l - 1) <= 2 ^ 63) by (apply Z.pow_le_mono_r; lia).
    rewrite scriptNumValue_encode by done. split; [|destruct neg; lia].
    apply scriptNumBytes_encode; [done|done|lia|lia].
  - intros [Hbytes Habs].
    assert (2 ^ (8 * l - 1) <= 2 ^ 63) by (apply Z.pow_le_mono_r; lia).
    destruct (Z.eq_dec n 0) as [->|Hn0].
    { injection Hbytes as <-. rewrite MakeScriptNum_decode by (done || unfold zlen; cbn; lia). done. }
    destruct (magnitude_snoc (Z.abs n)) as (p & hi & Hv & Hbp & Hhi & Hlp); [lia|].
    assert (n = if n <? 0 then - le_val (p ++ [hi]) else le_val (p ++ [hi])) as Hn
      by (rewrite Hv; destruct (Z.ltb_spec n 0); lia).
    rewrite Hn, scriptNumBytes_encode in Hbytes by (done || lia). injection Hbytes as <-.
    destruct (signEncode_minimal (n <? 0) p hi Hbp Hhi) as [Hmin _].
    rewrite MakeScriptNum_decode by (try lia; try done; apply zlen_signEncode_le; (done || lia)).
    rewrite Hmin, scriptNumValue_encode by done. by rewrite <- Hn.
Qed.

Lemma scriptNum_codec_witness :
  MakeScriptNum [0xff; 0x80] true 4 = Ok (-255) /\ scriptNumBytes (-255) = Some [0xff; 0x80].
Proof.
  assert (scriptNumBytes (-255) = Some [0xff; 0x80]) as E by reflexivity.
  split; [|exact E]. apply (scriptNum_codec [0xff; 0x80] (-255) 4).
  - split; discriminate.
  - repeat apply Forall_cons_2; [split; discriminate || reflexivity..|constructor].
  - split; [exact E|reflexivity].
Defined.

(** ** Stack operations on a stack of known shape *)

Lemma stackM_bind_eq {A B} (m : stackM A) (f : A -> stackM B) s :
  (m ≫= f) s = match m s with (Ok a, s') => f a s' | (Err e, s') => (Err e, s') end.
Proof. done. Qed.

Lemma setStk_setStk s l l' : setStk (setStk s l) l' = setStk s l'.
Proof. done. Qed.

Lemma setStk_id s l : stk s = l -> setStk s l = s.
Proof. destruct s. by cbn; intros ->. Qed.

Lemma nipN_app s l x r :
  stk s = l ++ x :: r -> zlen (stk s) < 2^31 -> nipN (zlen r) s = (Ok x, setStk s (l ++ r)).
Proof.
  intros Hs Hlen. unfold nipN. rewrite i32_id by (pose proof (zlen_nonneg (stk s)); widths; lia).
  rewrite Hs, zlen_app, zlen_cons in *. pose proof (zlen_nonneg l) as Hl. pose proof (zlen_nonneg r) as Hr.
  destruct (Z.ltb_spec (zlen r) 0); [lia|].
  destruct (Z.ltb_spec (zlen l + (1 + zlen r) - 1) (zlen r)); [lia|]. cbn [orb].
  replace (zlen l + (1 + zlen r) - zlen r - 1) with (zlen l) by lia.
  assert (Z.to_nat (zlen l) = length l) as El by (unfold zlen; lia).
  rewrite El, nth_middle. f_equal. f_equal.
  destruct (Z.eqb_spec (zlen r) 0) as [Hz|_].
  - destruct r as [|y r]; [|rewrite zlen_cons in Hz; pose proof (zlen_nonneg r); lia].
    replace (Z.to_nat _) with (length l) by (unfold zlen in *; cbn; lia). by rewrite take_app_length, app_nil_r.
  - destruct (Z.eqb_spec (zlen r) (zlen l + (1 + zlen r) - 1)) as [Hz|_].
    + destruct l as [|y l]; [done|]. rewrite zlen_cons in Hz. pose proof (zlen_nonneg l). lia.
    + rewrite take_app_length. f_equal. unfold slice.
      replace (Z.to_nat (zlen l + (1 + zlen r) - zlen r)) with (length (l ++ [x]))
        by (rewrite length_app; unfold zlen; cbn; lia).
      replace (l ++ x :: r) with ((l ++ [x]) ++ r) by by rewrite <- app_assoc.
      rewrite drop_app_length. apply take_ge. rewrite length_app. unfold zlen. cbn. lia.
Qed.

Lemma PeekByteArray_app s l x r :
  stk s = l ++ x :: r -> zlen (stk s) < 2^31 -> PeekByteArray (zlen r) s = (Ok x, s).
Proof.
  intros Hs Hlen. unfold PeekByteArray. rewrite i32_id by (pose proof (zlen_nonneg (stk s)); widths; lia).
  rewrite Hs, zlen_app, zlen_cons in *. pose proof (zlen_nonneg l) as Hl. pose proof (zlen_nonneg r) as Hr.
  destruct (Z.ltb_spec (zlen r) 0); [lia|].
  destruct (Z.leb_spec (zlen l + (1 + zlen r)) (zlen r)); [lia|]. cbn [orb].
  replace (Z.to_nat _) with (length l) by (unfold zlen; lia). by rewrite nth_middle.
Qed.

Lemma PopByteArray_app s l x :
  stk s = l ++ [x] -> zlen (stk s) < 2^31 -> PopByteArray s = (Ok x, setStk s l).
Proof. intros Hs Hlen. unfold PopByteArray. change 0 with (zlen (@nil (list Z))). rewrite (nipN_app s l x []) by done. by rewrite app_nil_r. Qed.

Lemma PopByteArray_nil s : stk s = [] -> PopByteArray s = (Err (ScriptErr ErrInvalidStackOperation), s).
Proof. intros Hs. unfold PopByteArray, nipN. by rewrite Hs. Qed.

(** Moving the item at a fixed depth to the top, once for each item of [a]. *)
Lemma repeatM_roll a : forall s l b,
  stk s = l ++ a ++ b -> zlen (stk s) < 2^31 ->
  repeatM (length a) (so ← nipN (zlen (a ++ b) - 1); PushByteArray so) s
    = (Ok tt, setStk s (l ++ b ++ a)).
Proof.
  induction a as [|x a IH]; intros s l b Hs Hlen; cbn [length repeatM].
  - cbn [app] in Hs. rewrite app_nil_r. unfold mret, stackM_ret. by rewrite (setStk_id s).
  - rewrite !stackM_bind_eq. replace (zlen ((x :: a) ++ b) - 1) with (zlen (a ++ b))
      by (cbn [app]; rewrite zlen_cons; lia).
    rewrite (nipN_app s l x (a ++ b)) by done. unfold PushByteArray at 1. cbn [setStk stk verifyMinimalData].
    assert (zlen (a ++ b) = zlen (a ++ b ++ [x]) - 1) as ->
      by (rewrite !zlen_app; change (zlen [x]) with 1; lia).
    rewrite (IH _ l (b ++ [x])); cbn [stk setStk].
    + by rewrite setStk_setStk, <- !app_assoc.
    + by rewrite <- !app_assoc.
    + rewrite Hs in Hlen. rewrite <- !app_assoc. rewrite !zlen_app in *.
      rewrite zlen_cons in Hlen. change (zlen [x]) with 1. lia.
Qed.

(** Copying the item at a fixed depth to the top, once for each item of [a]. *)
Lemma repeatM_pick a : forall s l b,
  stk s = l ++ a ++ b -> zlen (stk s) + zlen a < 2^31 ->
  repeatM (length a) (so ← PeekByteArray (zlen (a ++ b) - 1); PushByteArray so) s
    = (Ok tt, setStk s (l ++ a ++ b ++ a)).
Proof.
  induction a as [|x a IH]; intros s l b Hs Hlen; cbn [length repeatM].
  - cbn [app] in Hs. cbn [app]. rewrite app_nil_r. unfold mret, stackM_ret. by rewrite (setStk_id s).
  - rewrite !stackM_bind_eq. replace (zlen ((x :: a) ++ b) - 1) with (zlen (a ++ b))
      by (cbn [app]; rewrite zlen_cons; lia).
    pose proof (zlen_nonneg a). rewrite zlen_cons in Hlen.
    rewrite (PeekByteArray_app s l x (a ++ b)) by (done || lia).
    unfold PushByteArray at 1. cbn [setStk stk verifyMinimalData].
    assert (zlen (a ++ b) = zlen (a ++ b ++ [x]) - 1) as ->
      by (rewrite !zlen_app; change (zlen [x]) with 1; lia).
    rewrite (IH _ (l ++ [x]) (b ++ [x])); cbn [stk setStk].
    + rewrite setStk_setStk. do 2 f_equal. rewrite <- !app_assoc. done.
    + rewrite Hs, <- !app_assoc. done.
    + rewrite zlen_app. change (zlen [x]) with 1. lia.
Qed.

Lemma repeatM_drop a : forall s l,
  stk s = l ++ a -> zlen (stk s) < 2^31 ->
  repeatM (length a) (_ ← PopByteArray; mret tt) s = (Ok tt, setStk s l).
Proof.
  induction a as [|x a IH] using rev_ind; intros s l Hs Hlen.
  - rewrite app_nil_r in Hs. cbn. by rewrite (setStk_id s).
  - rewrite length_app, Nat.add_1_r. cbn [repeatM]. rewrite !stackM_bind_eq.
    rewrite (PopByteArray_app s (l ++ a) x) by (done || by rewrite <- app_assoc).
    cbn [mret stackM_ret]. rewrite (IH (setStk s (l ++ a)) l); [done|done|].
    cbn [stk setStk]. rewrite Hs, app_assoc, zlen_app in Hlen. pose proof (zlen_nonneg [x]). lia.
Qed.

Lemma countedM_run {A} (a : list A) body s r :
  1 <= zlen a -> repeatM (length a) body s = r -> countedM (zlen a) body s = r.
Proof.
  intros Ha <-. unfold countedM. destruct (Z.ltb_spec (zlen a) 1); [lia|].
  by replace (Z.to_nat (zlen a)) with (length a) by (unfold zlen; lia).
Qed.

(** The operations on the top items do what their stack transformations
    say, for every count. With [n >= 1] items in each of [a], [b] and [c] (top
    of the stack on the right): dropping [n] removes [a]; duplicating turns
    [.. a] into [.. a a]; swapping turns [.. a b] into [.. b a]; over turns
    [.. a b] into [.. a b a]; rotating turns [.. a b c] into [.. b c a]. *)
Theorem stack_transformations s l a b c n :
  1 <= n -> 3 * n < 2^31 -> zlen a = n -> zlen b = n -> zlen c = n -> zlen l + 4 * n < 2^31 ->
  DropN n (setStk s (l ++ a)) = (Ok tt, setStk s l) /\
  DupN n (setStk s (l ++ a)) = (Ok tt, setStk s (l ++ a ++ a)) /\
  SwapN n (setStk s (l ++ a ++ b)) = (Ok tt, setStk s (l ++ b ++ a)) /\
  OverN n (setStk s (l ++ a ++ b)) = (Ok tt, setStk s (l ++ a ++ b ++ a)) /\
  RotN n (setStk s (l ++ a ++ b ++ c)) = (Ok tt, setStk s (l ++ b ++ c ++ a)).
Proof.
  intros Hn H3 Ha Hb Hc Hlen. rewrite <- Ha in Hn.
  unfold DropN, DupN, SwapN, OverN, RotN.
  rewrite !i32_id by (unfold is_i32; lia). rewrite <- Ha. split_and!; apply countedM_run; try done.
  - rewrite (repeatM_drop a _ l); [done|done|]. cbn [stk setStk]. rewrite zlen_app. lia.
  - replace (zlen a - 1) with (zlen (a ++ []) - 1) by (by rewrite app_nil_r).
    rewrite (repeatM_pick a _ l []); cbn [stk setStk]; rewrite ?app_nil_r, ?zlen_app; [done|done|lia].
  - replace (2 * zlen a - 1) with (zlen (a ++ b) - 1) by (rewrite zlen_app; lia).
    rewrite (repeatM_roll a _ l b); cbn [stk setStk]; rewrite ?zlen_app; [done|done|lia].
  - replace (2 * zlen a - 1) with (zlen (a ++ b) - 1) by (rewrite zlen_app; lia).
    rewrite (repeatM_pick a _ l b); cbn [stk setStk]; rewrite ?zlen_app; [done|done|lia].
  - replace (3 * zlen a - 1) with (zlen (a ++ b ++ c) - 1) by (rewrite !zlen_app; lia).
    rewrite (repeatM_roll a _ l (b ++ c)); cbn [stk setStk]; rewrite ?zlen_app; [|done|lia].
    by rewrite <- app_assoc.
Qed.
