(* ===== verification/Standard.v ===== *)
(** * Standard scripts and signature operation counts

    src/txscript/standard.go and src/txscript/script.go: the templates a public
    key script may match, the builders that make them, and the counts of
    signature operations. Each loop over a tokenizer runs on fuel one larger
    than the script, enough because every successful [Next] moves the offset
    forward. Indexing a byte is guarded by a length check in the source and
    reads [-1] out of range here. *)

From S2P Require Import Prelude Sha256 Wire Commitment Script ScriptNum.

#[local] Set Warnings "-notation-for-abbreviation".

(** The opcodes of src/txscript/opcode.go the later files name. *)
Notation OP_DATA_20 := 0x14 (only parsing).
Notation OP_DATA_32 := 0x20 (only parsing).
Notation OP_DATA_33 := 0x21 (only parsing).
Notation OP_DATA_65 := 0x41 (only parsing).
Notation OP_RESERVED := 0x50 (only parsing).
Notation OP_16 := 0x60 (only parsing).
Notation OP_NOP := 0x61 (only parsing).
Notation OP_VER := 0x62 (only parsing).
Notation OP_IF := 0x63 (only parsing).
Notation OP_NOTIF := 0x64 (only parsing).
Notation OP_VERIF := 0x65 (only parsing).
Notation OP_VERNOTIF := 0x66 (only parsing).
Notation OP_ELSE := 0x67 (only parsing).
Notation OP_ENDIF := 0x68 (only parsing).
Notation OP_VERIFY := 0x69 (only parsing).
Notation OP_TOALTSTACK := 0x6b (only parsing).
Notation OP_FROMALTSTACK := 0x6c (only parsing).
Notation OP_2DROP := 0x6d (only parsing).
Notation OP_2DUP := 0x6e (only parsing).
Notation OP_3DUP := 0x6f (only parsing).
Notation OP_2OVER := 0x70 (only parsing).
Notation OP_2ROT := 0x71 (only parsing).
Notation OP_2SWAP := 0x72 (only parsing).
Notation OP_IFDUP := 0x73 (only parsing).
Notation OP_DEPTH := 0x74 (only parsing).
Notation OP_DROP := 0x75 (only parsing).
Notation OP_DUP := 0x76 (only parsing).
Notation OP_NIP := 0x77 (only parsing).
Notation OP_OVER := 0x78 (only parsing).
Notation OP_PICK := 0x79 (only parsing).
Notation OP_ROLL := 0x7a (only parsing).
Notation OP_ROT := 0x7b (only parsing).
Notation OP_SWAP := 0x7c (only parsing).
Notation OP_TUCK := 0x7d (only parsing).
Notation OP_CAT := 0x7e (only parsing).
Notation OP_SUBSTR := 0x7f (only parsing).
Notation OP_LEFT := 0x80 (only parsing).
Notation OP_RIGHT := 0x81 (only parsing).
Notation OP_SIZE := 0x82 (only parsing).
Notation OP_INVERT := 0x83 (only parsing).
Notation OP_AND := 0x84 (only parsing).
Notation OP_OR := 0x85 (only parsing).
Notation OP_XOR := 0x86 (only parsing).
Notation OP_EQUAL := 0x87 (only parsing).
Notation OP_EQUALVERIFY := 0x88 (only parsing).
Notation OP_RESERVED1 := 0x89 (only parsing).
Notation OP_RESERVED2 := 0x8a (only parsing).
Notation OP_1ADD := 0x8b (only parsing).
Notation OP_1SUB := 0x8c (only parsing).
Notation OP_2MUL := 0x8d (only parsing).
Notation OP_2DIV := 0x8e (only parsing).
Notation OP_NEGATE := 0x8f (only parsing).
Notation OP_ABS := 0x90 (only parsing).
Notation OP_NOT := 0x91 (only parsing).
Notation OP_0NOTEQUAL := 0x92 (only parsing).
Notation OP_ADD := 0x93 (only parsing).
Notation OP_SUB := 0x94 (only parsing).
Notation OP_MUL := 0x95 (only parsing).
Notation OP_DIV := 0x96 (only parsing).
Notation OP_MOD := 0x97 (only parsing).
Notation OP_LSHIFT := 0x98 (only parsing).
Notation OP_RSHIFT := 0x99 (only parsing).
Notation OP_BOOLAND := 0x9a (only parsing).
Notation OP_BOOLOR := 0x9b (only parsing).
Notation OP_NUMEQUAL := 0x9c (only parsing).
Notation OP_NUMEQUALVERIFY := 0x9d (only parsing).
Notation OP_NUMNOTEQUAL := 0x9e (only parsing).
Notation OP_LESSTHAN := 0x9f (only parsing).
Notation OP_GREATERTHAN := 0xa0 (only parsing).
Notation OP_LESSTHANOREQUAL := 0xa1 (only parsing).
Notation OP_GREATERTHANOREQUAL := 0xa2 (only parsing).
Notation OP_MIN := 0xa3 (only parsing).
Notation OP_MAX := 0xa4 (only parsing).
Notation OP_WITHIN := 0xa5 (only parsing).
Notation OP_RIPEMD160 := 0xa6 (only parsing).
Notation OP_SHA1 := 0xa7 (only parsing).
Notation OP_SHA256 := 0xa8 (only parsing).
Notation OP_HASH160 := 0xa9 (only parsing).
Notation OP_HASH256 := 0xaa (only parsing).
Notation OP_CODESEPARATOR := 0xab (only parsing).
Notation OP_CHECKSIG := 0xac (only parsing).
Notation OP_CHECKSIGVERIFY := 0xad (only parsing).
Notation OP_CHECKMULTISIG := 0xae (only parsing).
Notation OP_CHECKMULTISIGVERIFY := 0xaf (only parsing).
Notation OP_NOP1 := 0xb0 (only parsing).
Notation OP_CHECKLOCKTIMEVERIFY := 0xb1 (only parsing).
Notation OP_CHECKSEQUENCEVERIFY := 0xb2 (only parsing).
Notation OP_NOP4 := 0xb3 (only parsing).
Notation OP_NOP10 := 0xb9 (only parsing).
Notation OP_CHECKSIGADD := 0xba (only parsing).
Notation OP_INVALIDOPCODE := 0xff (only parsing).

(** The limits of src/txscript/script.go and src/txscript/standard.go. *)
Notation MaxOpsPerScript := 201 (only parsing).
Notation MaxPubKeysPerMultiSig := 20 (only parsing).
Notation MaxDataCarrierSize := 80 (only parsing).
Notation TaprootAnnexTag := 0x50 (only parsing).
Notation TaprootLeafMask := 0xfe (only parsing).
Notation payToWitnessPubKeyHashDataSize := 20 (only parsing).
Notation payToWitnessScriptHashDataSize := 32 (only parsing).
Notation payToTaprootDataSize := 32 (only parsing).

Definition byteAt (script : list Z) (i : nat) : Z := nth i script (-1).

Definition isSome {A} (o : option A) : bool := match o with Some _ => true | None => false end.

(** [for tokenizer.Next() { ... }], the body returning the new loop state and
    whether to go on: the final state and tokenizer. *)
Fixpoint forTokens {S} (fuel : nat) (t : ScriptTokenizer)
    (body : S -> ScriptTokenizer -> S * bool) (st : S) : S * ScriptTokenizer :=
  match fuel with
  | O => (st, t)
  | Datatypes.S fuel' =>
      match Next t with
      | (false, t') => (st, t')
      | (true, t') =>
          let '(st', continue) := body st t' in
          if continue then forTokens fuel' t' body st' else (st', t')
      end
  end.

Definition overScript {S} (script : list Z) (body : S -> ScriptTokenizer -> S * bool) (st : S)
    : S * ScriptTokenizer :=
  forTokens (Datatypes.S (length script)) (MakeScriptTokenizer 0 script) body st.

(** [tokenizer.Opcode()] and [tokenizer.Data()]; a nil slice and an empty one
    are told apart by the option. *)
Definition Opcode (t : ScriptTokenizer) : Z := default 0 (tk_op t).
Definition Data (t : ScriptTokenizer) : option (list Z) := tk_data t.
Definition dataBytes (t : ScriptTokenizer) : list Z := default [] (tk_data t).

(** ** Small integers and pushes *)

Definition IsSmallInt (op : Z) : bool := (op =? OP_0) || ((OP_1 <=? op) && (op <=? OP_16)).

Definition AsSmallInt (op : Z) : Z := if op =? OP_0 then 0 else u8 (op - (OP_1 - 1)).

Definition isCanonicalPush (opcode : Z) (data : list Z) : bool :=
  let dataLen := zlen data in
  if OP_16 <? opcode then true
  else if (opcode <? OP_PUSHDATA1) && (OP_0 <? opcode) && ((dataLen =? 1) && (byteAt data 0 <=? 16))
  then false
  else if (opcode =? OP_PUSHDATA1) && (dataLen <? OP_PUSHDATA1) then false
  else if (opcode =? OP_PUSHDATA2) && (dataLen <=? 0xff) then false
  else if (opcode =? OP_PUSHDATA4) && (dataLen <=? 0xffff) then false
  else true.

Definition IsPushOnlyScript (script : list Z) : bool :=
  let '(ok, t) := overScript script
                    (fun _ t => if OP_16 <? Opcode t then (false, false) else (true, true)) true in
  ok && negb (isSome (tk_err t)).

(** ** Templates *)

Definition extractCompressedPubKey (script : list Z) : option (list Z) :=
  if (zlen script =? 35) && (byteAt script 34 =? OP_CHECKSIG) && (byteAt script 0 =? OP_DATA_33)
     && ((byteAt script 1 =? 0x02) || (byteAt script 1 =? 0x03))
  then Some (slice 1 34 script) else None.

Definition extractUncompressedPubKey (script : list Z) : option (list Z) :=
  if (zlen script =? 67) && (byteAt script 66 =? OP_CHECKSIG) && (byteAt script 0 =? OP_DATA_65)
     && ((byteAt script 1 =? 0x04) || (byteAt script 1 =? 0x06) || (byteAt script 1 =? 0x07))
  then Some (slice 1 66 script) else None.

Definition extractPubKey (script : list Z) : option (list Z) :=
  match extractCompressedPubKey script with
  | Some pubKey => Some pubKey
  | None => extractUncompressedPubKey script
  end.

Definition extractPubKeyHash (script : list Z) : option (list Z) :=
  if (zlen script =? 25) && (byteAt script 0 =? OP_DUP) && (byteAt script 1 =? OP_HASH160)
     && (byteAt script 2 =? OP_DATA_20) && (byteAt script 23 =? OP_EQUALVERIFY)
     && (byteAt script 24 =? OP_CHECKSIG)
  then Some (slice 3 23 script) else None.

Definition extractScriptHash (script : list Z) : option (list Z) :=
  if (zlen script =? 23) && (byteAt script 0 =? OP_HASH160) && (byteAt script 1 =? OP_DATA_20)
     && (byteAt script 22 =? OP_EQUAL)
  then Some (slice 2 22 script) else None.

Definition isScriptHashScript (script : list Z) : bool := isSome (extractScriptHash script).

Definition extractWitnessPubKeyHash (script : list Z) : option (list Z) :=
  if (zlen script =? 22) && (byteAt script 0 =? OP_0) && (byteAt script 1 =? OP_DATA_20)
  then Some (slice 2 22 script) else None.

Definition isWitnessPubKeyHashScript (script : list Z) : bool :=
  isSome (extractWitnessPubKeyHash script).

Definition extractWitnessV0ScriptHash (script : list Z) : option (list Z) :=
  if (zlen script =? 34) && (byteAt script 0 =? OP_0) && (byteAt script 1 =? OP_DATA_32)
  then Some (slice 2 34 script) else None.

Definition extractWitnessV1KeyBytes (script : list Z) : option (list Z) :=
  if (zlen script =? 34) && (byteAt script 0 =? OP_1) && (byteAt script 1 =? OP_DATA_32)
  then Some (slice 2 34 script) else None.

Definition IsPayToTaproot (script : list Z) : bool := isSome (extractWitnessV1KeyBytes script).

(** [isStrictPubKeyEncoding] of src/txscript/engine.go. *)
Definition isStrictPubKeyEncoding (pubKey : list Z) : bool :=
  if (zlen pubKey =? 33) && ((byteAt pubKey 0 =? 0x02) || (byteAt pubKey 0 =? 0x03)) then true
  else
    (zlen pubKey =? 65)
    && ((byteAt pubKey 0 =? 0x04) || (byteAt pubKey 0 =? 0x06) || (byteAt pubKey 0 =? 0x07)).

Record multiSigDetails := mkMultiSigDetails {
  requiredSigs : Z;
  numPubKeys : Z;
  pubKeys : list (list Z);
  msValid : bool }.

Definition noMultiSig : multiSigDetails := mkMultiSigDetails 0 0 [] false.

Definition extractMultisigScriptDetails (script : list Z) (extractPubKeys : bool) : multiSigDetails :=
  if (zlen script <? 3) || negb (byteAt script (length script - 1) =? OP_CHECKMULTISIG)
  then noMultiSig
  else
    match Next (MakeScriptTokenizer 0 script) with
    | (false, _) => noMultiSig
    | (true, t0) =>
        if negb (IsSmallInt (Opcode t0)) then noMultiSig
        else
          let body '(n, keys) t :=
            if IsSmallInt (Opcode t) then ((n, keys), false)
            else if negb (isStrictPubKeyEncoding (dataBytes t)) then ((n + 1, keys), true)
            else ((n + 1, if extractPubKeys then keys ++ [dataBytes t] else keys), true) in
          let '((numPubKeys, pubKeys), t) := forTokens (S (length script)) t0 body (0, []) in
          if Done t then noMultiSig
          else if negb (IsSmallInt (Opcode t)) || negb (AsSmallInt (Opcode t) =? numPubKeys)
          then noMultiSig
          else if negb (i32 (zlen (tk_script t)) - tk_offset t =? 1) then noMultiSig
          else mkMultiSigDetails (AsSmallInt (Opcode t0)) numPubKeys pubKeys true
    end.

(** Version, program, and whether the script is a witness program. *)
Definition extractWitnessProgramInfo (script : list Z) : option (Z * list Z) :=
  if (zlen script <? 4) || (42 <? zlen script) then None
  else
    match Next (MakeScriptTokenizer 0 script) with
    | (false, _) => None
    | (true, t0) =>
        if negb (IsSmallInt (Opcode t0)) then None
        else
          match Next t0 with
          | (false, _) => None
          | (true, t1) =>
              if negb (isCanonicalPush (Opcode t1) (dataBytes t1)) then None
              else if Done t1 && negb (isSome (tk_err t1))
              then Some (AsSmallInt (Opcode t0), dataBytes t1) else None
          end
    end.

Definition IsWitnessProgram (script : list Z) : bool := isSome (extractWitnessProgramInfo script).

Definition isAnnexedWitness (witness : list (list Z)) : bool :=
  if zlen witness <? 2 then false
  else
    let lastElement := default [] (last witness) in
    (0 <? zlen lastElement) && (byteAt lastElement 0 =? TaprootAnnexTag).

Definition extractAnnex (witness : list (list Z)) : result script_error (list Z) :=
  if negb (isAnnexedWitness witness) then Err ErrWitnessHasNoAnnex
  else Ok (default [] (last witness)).

Definition isNullDataScript (script : list Z) : bool :=
  if (zlen script <? 1) || negb (byteAt script 0 =? OP_RETURN) then false
  else if zlen script =? 1 then true
  else
    match Next (MakeScriptTokenizer 0 (drop 1 script)) with
    | (false, _) => false
    | (true, t) =>
        Done t && (IsSmallInt (Opcode t) || (Opcode t <=? OP_PUSHDATA4))
        && (zlen (dataBytes t) <=? MaxDataCarrierSize)
    end.

Inductive ScriptClass :=
| NonStandardTy | PubKeyTy | PubKeyHashTy | WitnessV0PubKeyHashTy | ScriptHashTy
| WitnessV0ScriptHashTy | MultiSigTy | NullDataTy | WitnessV1TaprootTy | WitnessUnknownTy.

#[export] Instance ScriptClass_eq_dec : EqDecision ScriptClass.
Proof. solve_decision. Defined.

Definition typeOfScript (scriptVersion : Z) (script : list Z) : ScriptClass :=
  if scriptVersion =? 0 then
    if isSome (extractPubKey script) then PubKeyTy
    else if isSome (extractPubKeyHash script) then PubKeyHashTy
    else if isScriptHashScript script then ScriptHashTy
    else if isWitnessPubKeyHashScript script then WitnessV0PubKeyHashTy
    else if isSome (extractWitnessV0ScriptHash script) then WitnessV0ScriptHashTy
    else if msValid (extractMultisigScriptDetails script false) then MultiSigTy
    else if isNullDataScript script then NullDataTy
    else NonStandardTy
  else if scriptVersion =? 1 then
    if IsPayToTaproot script then WitnessV1TaprootTy else NonStandardTy
  else NonStandardTy.

Definition GetScriptClass (script : list Z) : ScriptClass :=
  let classSegWit := typeOfScript 0 script in
  if negb (bool_decide (classSegWit = NonStandardTy)) then classSegWit else typeOfScript 1 script.

(** ** Builders *)

Definition AddInt64 (b : ScriptBuilder) (val : Z) : option ScriptBuilder :=
  match sb_err b with
  | Some _ => Some b
  | None =>
      if MaxScriptSize <? zlen (sb_script b) + 1 then Some (sbFail b)
      else if val =? 0 then Some (sbAppend b [OP_0])
      else if (val =? -1) || ((1 <=? val) && (val <=? 16)) then Some (sbAppend b [u8 (OP_1 - 1 + val)])
      else match scriptNumBytes val with Some bs => Some (AddData b bs) | None => None end
  end.

Definition payToPubKeyHashScript (pubKeyHash : list Z) : result builder_error (list Z) :=
  BuilderScript (AddOp (AddOp (AddData (AddOp (AddOp NewScriptBuilder OP_DUP) OP_HASH160) pubKeyHash)
                         OP_EQUALVERIFY) OP_CHECKSIG).

Definition payToWitnessPubKeyHashScript (pubKeyHash : list Z) : result builder_error (list Z) :=
  BuilderScript (AddData (AddOp NewScriptBuilder OP_0) pubKeyHash).

Definition payToScriptHashScript (scriptHash : list Z) : result builder_error (list Z) :=
  BuilderScript (AddOp (AddData (AddOp NewScriptBuilder OP_HASH160) scriptHash) OP_EQUAL).

Definition payToWitnessScriptHashScript (scriptHash : list Z) : result builder_error (list Z) :=
  BuilderScript (AddData (AddOp NewScriptBuilder OP_0) scriptHash).

Definition payToWitnessTaprootScript (rawKey : list Z) : result builder_error (list Z) :=
  BuilderScript (AddData (AddOp NewScriptBuilder OP_1) rawKey).

Definition payToPubKeyScript (serializedPubKey : list Z) : result builder_error (list Z) :=
  BuilderScript (AddOp (AddData NewScriptBuilder serializedPubKey) OP_CHECKSIG).

(** ** Counting signature operations *)

Definition countSigOpsV0 (script : list Z) (precise : bool) : Z :=
  let body '(numSigOps, prevOp) t :=
    let op := Opcode t in
    let numSigOps' :=
      if (op =? OP_CHECKSIG) || (op =? OP_CHECKSIGVERIFY) then numSigOps + 1
      else if (op =? OP_CHECKMULTISIG) || (op =? OP_CHECKMULTISIGVERIFY) then
        if precise && (OP_1 <=? prevOp) && (prevOp <=? OP_16) then numSigOps + AsSmallInt prevOp
        else numSigOps + MaxPubKeysPerMultiSig
      else numSigOps in
    ((numSigOps', op), true) in
  (overScript script body (0, OP_INVALIDOPCODE)).1.1.

Definition finalOpcodeData (script : list Z) : option (list Z) :=
  if zlen script =? 0 then None
  else
    let '(data, t) := overScript script (fun _ t => (Data t, true)) None in
    if isSome (tk_err t) then None else data.

Definition GetPreciseSigOpCount (scriptSig scriptPubKey : list Z) : Z :=
  if negb (isScriptHashScript scriptPubKey) then countSigOpsV0 scriptPubKey true
  else if (zlen scriptSig =? 0) || negb (IsPushOnlyScript scriptSig) then 0
  else
    let redeemScript := default [] (finalOpcodeData scriptSig) in
    if zlen redeemScript =? 0 then 0 else countSigOpsV0 redeemScript true.

Definition getWitnessSigOps (pkScript : list Z) (witness : list (list Z)) : Z :=
  match extractWitnessProgramInfo pkScript with
  | None => 0
  | Some (witnessVersion, witnessProgram) =>
      if witnessVersion =? 0 then
        if zlen witnessProgram =? payToWitnessPubKeyHashDataSize then 1
        else if (zlen witnessProgram =? payToWitnessScriptHashDataSize) && (0 <? zlen witness)
        then countSigOpsV0 (default [] (last witness)) true
        else 0
      else 0
  end.

Definition GetWitnessSigOpCount (sigScript pkScript : list Z) (witness : list (list Z)) : Z :=
  if IsWitnessProgram pkScript then getWitnessSigOps pkScript witness
  else if isScriptHashScript pkScript && IsPushOnlyScript sigScript && (0 <? zlen sigScript)
          && IsWitnessProgram (drop 1 sigScript)
  then getWitnessSigOps (drop 1 sigScript) witness
  else 0.

(** ** Removing opcodes *)

Definition removeOpcodeRaw (script : list Z) (opcode : Z) : list Z :=
  if zlen script =? 0 then script
  else
    let body '(result, prevOffset) t :=
      let result' :=
        if Opcode t =? opcode then
          match result with None => Some (take (Z.to_nat prevOffset) script) | Some r => Some r end
        else
          match result with
          | Some r => Some (r ++ slice (Z.to_nat prevOffset) (Z.to_nat (tk_offset t)) script)
          | None => None
          end in
      ((result', tk_offset t), true) in
    default script (overScript script body (None, 0)).1.1.

Definition removeOpcodeCanonical (t : ScriptTokenizer) (script dataToRemove : list Z)
    (prevOffset : Z) (result : option (list Z)) : option (list Z) * Z * bool :=
  if isCanonicalPush (Opcode t) (dataBytes t) && bool_decide (dataBytes t = dataToRemove) then
    (match result with None => Some (take (Z.to_nat prevOffset) script) | Some r => Some r end,
     tk_offset t, true)
  else
    (match result with
     | Some r => Some (r ++ slice (Z.to_nat prevOffset) (Z.to_nat (tk_offset t)) script)
     | None => None
     end, tk_offset t, false).

Definition removeOpcodeByData (script dataToRemove : list Z) : list Z * bool :=
  if (zlen script =? 0) || (zlen dataToRemove =? 0) then (script, false)
  else
    let body '(result, prevOffset, m) t :=
      let '(result', prevOffset', found) :=
        removeOpcodeCanonical t script dataToRemove prevOffset result in
      ((result', prevOffset', m || found), true) in
    let '(result, _, m) := (overScript script body (None, 0, false)).1 in
    (default script result, m).

(** The opcodes that make a tapscript succeed. *)
Definition successOpcode (op : Z) : bool :=
  (op =? OP_RESERVED) || (op =? OP_VER) || ((OP_CAT <=? op) && (op <=? OP_RIGHT))
  || ((OP_INVERT <=? op) && (op <=? OP_XOR)) || (op =? OP_RESERVED1) || (op =? OP_RESERVED2)
  || (op =? OP_2MUL) || (op =? OP_2DIV) || ((OP_MUL <=? op) && (op <=? OP_RSHIFT))
  || ((187 <=? op) && (op <=? 254)).

Definition ScriptHasOpSuccess (witnessScript : list Z) : bool :=
  (overScript witnessScript
     (fun _ t => if successOpcode (Opcode t) then (true, false) else (false, true)) false).1.

(** ** Witness programs *)

Lemma Next_at_end t pre : at_offset t pre [] -> Next t = (false, t).
Proof. intros H. unfold Next. by rewrite (at_offset_Done _ _ _ H), bool_decide_true. Qed.

Lemma wf_token_small_int tok :
  wf_token tok -> IsSmallInt tok.1 = true -> tok = (tok.1, None).
Proof.
  destruct tok as [op [d|]]; [|done]. unfold IsSmallInt, OP_0, OP_1. intros [_ H] Hs; cbn [fst snd] in *.
  unfold OP_PUSHDATA1, OP_PUSHDATA2, OP_PUSHDATA4 in H. lia.
Qed.

(** The opcode that pushes a small integer. *)
Definition smallIntOp (v : Z) : Z := if v =? 0 then OP_0 else OP_1 - 1 + v.

Lemma smallIntOp_AsSmallInt op :
  is_u8 op -> IsSmallInt op = true -> smallIntOp (AsSmallInt op) = op /\ 0 <= AsSmallInt op <= 16.
Proof.
  unfold IsSmallInt, AsSmallInt, smallIntOp, u8, is_u8, OP_0, OP_1. intros Hop Hs.
  destruct (Z.eqb_spec op 0x00) as [->|]; [done|]. rewrite Z.mod_small by lia.
  destruct (Z.eqb_spec (op - (0x51 - 1)) 0); lia.
Qed.

Lemma AsSmallInt_smallIntOp v :
  0 <= v <= 16 -> AsSmallInt (smallIntOp v) = v /\ IsSmallInt (smallIntOp v) = true /\
                  is_u8 (smallIntOp v) /\ opcodeLength (smallIntOp v) = 1.
Proof.
  intros Hv. unfold smallIntOp. destruct (Z.eqb_spec v 0) as [->|]; [done|].
  unfold AsSmallInt, IsSmallInt, u8, is_u8, opcodeLength, OP_0, OP_1, OP_PUSHDATA1, OP_PUSHDATA2, OP_PUSHDATA4.
  repeat (match goal with |- context [?a =? ?b] => destruct (Z.eqb_spec a b); [lia|] end).
  repeat (match goal with |- context [?a <=? ?b] => destruct (Z.leb_spec a b); try lia end).
  rewrite Z.mod_small by lia. cbn. lia.
Qed.

Lemma canonical_short_push tok :
  wf_token tok -> isCanonicalPush tok.1 (default [] tok.2) = true ->
  3 <= zlen (tokenBytes tok) <= 41 ->
  exists d, tok = (zlen d, Some d) /\ 2 <= zlen d <= 40.
Proof.
  destruct tok as [op [d|]]; intros [Hop Hwf] Hc Hl; cbn [fst snd from_option id] in *.
  - exists d. assert (H4 : forall c k, zlen (c :: le_bytes k (zlen d) ++ d) = 1 + Z.of_nat k + zlen d).
    { intros c k. rewrite zlen_cons, zlen_app, zlen_le_bytes. lia. }
    destruct Hwf as [[Hr Hd]|[[-> Hd]|[[-> Hd]|[-> Hd]]]].
    + unfold tokenBytes in Hl. destruct (Z.leb_spec op 75); [|lia]. rewrite zlen_cons in Hl.
      subst op. split; [done|lia].
    + change (tokenBytes _) with (OP_PUSHDATA1 :: le_bytes 1 (zlen d) ++ d) in Hl. rewrite H4 in Hl.
      change ((if zlen d <? 76 then false else true) = true) in Hc.
      destruct (Z.ltb_spec (zlen d) 76); [done|lia].
    + change (tokenBytes _) with (OP_PUSHDATA2 :: le_bytes 2 (zlen d) ++ d) in Hl. rewrite H4 in Hl.
      change ((if zlen d <=? 0xff then false else true) = true) in Hc.
      destruct (Z.leb_spec (zlen d) 0xff); [done|lia].
    + change (tokenBytes _) with (OP_PUSHDATA4 :: le_bytes 4 (zlen d) ++ d) in Hl. rewrite H4 in Hl.
      change ((if zlen d <=? 0xffff then false else true) = true) in Hc.
      destruct (Z.leb_spec (zlen d) 0xffff); [done|lia].
  - unfold tokenBytes in Hl. change (zlen [op]) with 1 in Hl. lia.
Qed.

Lemma extractWitnessProgramInfo_inv script v program :
  is_bytes script -> extractWitnessProgramInfo script = Some (v, program) ->
  0 <= v <= 16 /\ 2 <= zlen program <= 40 /\ script = smallIntOp v :: zlen program :: program.
Proof.
  intros Hb. unfold extractWitnessProgramInfo.
  intros H. destruct (Z.ltb_spec (zlen script) 4); [by cbn [orb] in H|].
  destruct (Z.ltb_spec 42 (zlen script)); [by cbn [orb] in H|]. cbn [orb] in H. pose proof (at_offset_start script ltac:(lia)) as Hat0.
  destruct (Next (MakeScriptTokenizer 0 script)) as [[] t0] eqn:Hn0; [|done].
  destruct (Next_inv _ _ _ _ Hat0 Hb Hn0) as (tok & rest & Hs & Hwf & Hat1 & Hop & _).
  unfold Opcode in H. rewrite Hop in H. cbn [from_option id] in H.
  destruct (IsSmallInt tok.1) eqn:Hsi; [|done]. cbn [negb] in H.
  apply (wf_token_small_int tok Hwf) in Hsi as Htok. rewrite Htok in Hs. cbn [tokenBytes app] in Hs.
  rewrite Hs in Hb. apply Forall_cons_1 in Hb as [Hu Hb].
  destruct (Next t0) as [[] t1] eqn:Hn1; [|done].
  destruct (Next_inv _ _ _ _ Hat1 Hb Hn1) as (tok2 & rest2 & -> & Hwf2 & Hat2 & Hop2 & Hd2).
  unfold dataBytes in H. rewrite Hop2, Hd2 in H. cbn [from_option id] in H.
  destruct (isCanonicalPush tok2.1 _) eqn:Hc; [|done]. cbn [negb] in H.
  rewrite (at_offset_Done _ _ _ Hat2) in H. destruct (bool_decide_reflect (rest2 = [])) as [->|]; [|done].
  destruct Hat2 as (He2 & _). rewrite He2 in H. cbn in H. injection H as <- <-.
  rewrite app_nil_r in Hs. rewrite Hs, zlen_cons in *.
  destruct (canonical_short_push tok2 Hwf2 Hc ltac:(lia)) as (d & -> & Hd).
  destruct (smallIntOp_AsSmallInt tok.1 Hu Hsi) as [-> Hr]. cbn [fst snd from_option id].
  split_and!; try lia. f_equal. unfold tokenBytes. destruct (Z.leb_spec (zlen d) 75); [done|lia].
Qed.

Lemma extractWitnessProgramInfo_build v program :
  0 <= v <= 16 -> 2 <= zlen program <= 40 ->
  extractWitnessProgramInfo (smallIntOp v :: zlen program :: program) = Some (v, program).
Proof.
  intros Hv Hp. unfold extractWitnessProgramInfo.
  destruct (AsSmallInt_smallIntOp v Hv) as (Has & Hsi & Hu & Hol).
  rewrite !zlen_cons. destruct (Z.ltb_spec (1 + (1 + zlen program)) 4); [lia|].
  destruct (Z.ltb_spec 42 (1 + (1 + zlen program))); [lia|]. cbn [orb].
  set (script := smallIntOp v :: zlen program :: program) in *.
  pose proof (at_offset_start script ltac:(unfold script; rewrite !zlen_cons; lia)) as Hat0.
  change script with (tokenBytes (smallIntOp v, None) ++ (zlen program :: program)) in Hat0 at 2.
  rewrite (Next_token _ _ _ _ Hat0 (conj Hu Hol)). cbn [fst snd].
  destruct (at_offset_advance _ _ _ _ (smallIntOp v) None Hat0) as (t0 & -> & Hat1 & Hop & _).
  unfold Opcode. rewrite Hop. cbn [from_option id]. rewrite Hsi. cbn [negb].
  assert (Hwf2 : wf_token (zlen program, Some program)) by (split; [unfold is_u8; cbn; lia|left; cbn; lia]).
  replace (zlen program :: program) with (tokenBytes (zlen program, Some program) ++ []) in Hat1
    by (unfold tokenBytes; rewrite app_nil_r; destruct (Z.leb_spec (zlen program) 75); [done|lia]).
  rewrite (Next_token _ _ _ _ Hat1 Hwf2). cbn [fst snd].
  destruct (at_offset_advance _ _ _ _ (zlen program) (Some program) Hat1) as (t1 & -> & Hat2 & Hop2 & Hd2).
  unfold dataBytes. rewrite Hop2, Hd2. cbn [from_option id].
  assert (isCanonicalPush (zlen program) program = true) as ->.
  { unfold isCanonicalPush, OP_PUSHDATA1, OP_PUSHDATA2, OP_PUSHDATA4, OP_0.
    destruct (Z.eqb_spec (zlen program) 1); [lia|].
    repeat (match goal with |- context [?a =? ?b] => destruct (Z.eqb_spec a b); [lia|] end).
    rewrite !andb_false_r. cbn. by destruct (_ <? _). }
  cbn [negb]. rewrite (at_offset_Done _ _ _ Hat2), bool_decide_true by done.
  destruct Hat2 as (-> & _). cbn. by rewrite Has.
Qed.

(** A script is taken for a witness program of version [v] with program
    [program] exactly when it is the opcode of the small integer [v], 0 to 16,
    followed by one direct push of 2 to 40 bytes and nothing else. *)
Theorem extractWitnessProgramInfo_iff script v program :
  is_bytes script ->
  extractWitnessProgramInfo script = Some (v, program) <->
  0 <= v <= 16 /\ 2 <= zlen program <= 40 /\ script = smallIntOp v :: zlen program :: program.
Proof.
  intros Hb. split; [by apply extractWitnessProgramInfo_inv|].
  intros (Hv & Hp & ->). by apply extractWitnessProgramInfo_build.
Qed.

(** ** The templates are what the builders make *)

Lemma AddData_direct s data :
  2 <= zlen data <= 75 -> zlen s + zlen data < MaxScriptSize ->
  AddData (mkBuilder s None) data = mkBuilder (s ++ zlen data :: data) None.
Proof.
  intros Hd Hs. unfold AddData. cbn [sb_err sb_script].
  unfold canonicalDataSize, MaxScriptSize, MaxScriptElementSize in *.
  destruct (Z.eqb_spec (zlen data) 0); [lia|]. destruct (Z.eqb_spec (zlen data) 1); [lia|].
  change OP_PUSHDATA1 with 76. cbn [andb]. destruct (Z.ltb_spec (zlen data) 76); [|lia].
  destruct (Z.ltb_spec 10000 (zlen s + (1 + zlen data))); [lia|].
  destruct (Z.ltb_spec 520 (zlen data)); [lia|].
  rewrite addData_pushToken by lia. unfold sbAppend, pushToken, tokenBytes. cbn [sb_script sb_err].
  change OP_PUSHDATA1 with 76.
  destruct (Z.ltb_spec (zlen data) 76); [|lia]. destruct (Z.leb_spec (zlen data) 75); [done|lia].
Qed.

Lemma AddOp_short s op :
  zlen s < MaxScriptSize -> AddOp (mkBuilder s None) op = mkBuilder (s ++ [op]) None.
Proof.
  intros Hs. unfold AddOp. cbn [sb_err sb_script]. unfold MaxScriptSize in *.
  destruct (Z.ltb_spec 10000 (zlen s + 1)); [lia|done].
Qed.

(** The script with [pre] before and [post] after a direct push of [data]. *)
Definition around (pre : list Z) (data post : list Z) : list Z := pre ++ zlen data :: data ++ post.

Ltac small_script :=
  rewrite ?zlen_app, ?zlen_cons; change (zlen (@nil Z)) with 0; unfold MaxScriptSize; lia.

Ltac build_script :=
  intros; unfold BuilderScript, NewScriptBuilder, around;
  repeat first [ rewrite AddOp_short by small_script | rewrite AddData_direct by small_script ];
  cbn [sb_err sb_script app]; rewrite <- ?app_assoc, ?app_nil_r; reflexivity.

Lemma payToPubKeyHash_eq h :
  zlen h = 20 -> payToPubKeyHashScript h = Ok (around [OP_DUP; OP_HASH160] h [OP_EQUALVERIFY; OP_CHECKSIG]).
Proof. unfold payToPubKeyHashScript. build_script. Qed.

Lemma payToScriptHash_eq h :
  zlen h = 20 -> payToScriptHashScript h = Ok (around [OP_HASH160] h [OP_EQUAL]).
Proof. unfold payToScriptHashScript. build_script. Qed.

Lemma payToWitness_eq h :
  2 <= zlen h <= 40 ->
  payToWitnessPubKeyHashScript h = Ok (around [OP_0] h []) /\
  payToWitnessScriptHashScript h = Ok (around [OP_0] h []) /\
  payToWitnessTaprootScript h = Ok (around [OP_1] h []).
Proof.
  unfold payToWitnessPubKeyHashScript, payToWitnessScriptHashScript, payToWitnessTaprootScript.
  intros. split_and!; build_script.
Qed.

Lemma payToPubKey_eq k :
  2 <= zlen k <= 75 -> payToPubKeyScript k = Ok (around [] k [OP_CHECKSIG]).
Proof. unfold payToPubKeyScript. build_script. Qed.

Tactic Notation "explode" integer(n) ident(s) :=
  do n (destruct s as [|? s]; [discriminate|]); destruct s as [|? s]; [|unfold zlen in *; cbn [length] in *; lia].

Lemma slice_around pre data post :
  slice (S (length pre)) (S (length pre) + length data) (around pre data post) = data.
Proof.
  unfold slice, around. replace (S (length pre) + length data - S (length pre))%nat with (length data) by lia.
  rewrite drop_app_ge by lia. replace (S (length pre) - length pre)%nat with 1%nat by lia. cbn [drop].
  apply take_app_length.
Qed.

Lemma extractPubKeyHash_iff s h :
  extractPubKeyHash s = Some h <->
  zlen h = 20 /\ s = around [OP_DUP; OP_HASH160] h [OP_EQUALVERIFY; OP_CHECKSIG].
Proof.
  unfold extractPubKeyHash. split.
  - destruct (_ && _) eqn:E; [|done]. intros [= <-]. rewrite !andb_true_iff, !Z.eqb_eq in E.
    destruct E as [[[[[Hl H0] H1] H2] H3] H4]. explode 25 s. cbn in H0, H1, H2, H3, H4. by subst.
  - intros [Hl ->]. explode 20 h. reflexivity.
Qed.

Lemma extractScriptHash_iff s h :
  extractScriptHash s = Some h <-> zlen h = 20 /\ s = around [OP_HASH160] h [OP_EQUAL].
Proof.
  unfold extractScriptHash. split.
  - destruct (_ && _) eqn:E; [|done]. intros [= <-]. rewrite !andb_true_iff, !Z.eqb_eq in E.
    destruct E as [[[Hl H0] H1] H2]. explode 23 s. cbn in H0, H1, H2. by subst.
  - intros [Hl ->]. explode 20 h. reflexivity.
Qed.

Lemma extractWitnessPubKeyHash_iff s h :
  extractWitnessPubKeyHash s = Some h <-> zlen h = 20 /\ s = around [OP_0] h [].
Proof.
  unfold extractWitnessPubKeyHash. split.
  - destruct (_ && _) eqn:E; [|done]. intros [= <-]. rewrite !andb_true_iff, !Z.eqb_eq in E.
    destruct E as [[Hl H0] H1]. explode 22 s. cbn in H0, H1. by subst.
  - intros [Hl ->]. explode 20 h. reflexivity.
Qed.

Lemma extractWitnessV0ScriptHash_iff s h :
  extractWitnessV0ScriptHash s = Some h <-> zlen h = 32 /\ s = around [OP_0] h [].
Proof.
  unfold extractWitnessV0ScriptHash. split.
  - destruct (_ && _) eqn:E; [|done]. intros [= <-]. rewrite !andb_true_iff, !Z.eqb_eq in E.
    destruct E as [[Hl H0] H1]. explode 34 s. cbn in H0, H1. by subst.
  - intros [Hl ->]. explode 32 h. reflexivity.
Qed.

Lemma extractWitnessV1KeyBytes_iff s h :
  extractWitnessV1KeyBytes s = Some h <-> zlen h = 32 /\ s = around [OP_1] h [].
Proof.
  unfold extractWitnessV1KeyBytes. split.
  - destruct (_ && _) eqn:E; [|done]. intros [= <-]. rewrite !andb_true_iff, !Z.eqb_eq in E.
    destruct E as [[Hl H0] H1]. explode 34 s. cbn in H0, H1. by subst.
  - intros [Hl ->]. explode 32 h. reflexivity.
Qed.

Lemma extractPubKey_iff s k :
  extractPubKey s = Some k <-> isStrictPubKeyEncoding k = true /\ s = around [] k [OP_CHECKSIG].
Proof.
  unfold extractPubKey, extractCompressedPubKey, extractUncompressedPubKey, isStrictPubKeyEncoding. split.
  - destruct (_ && _) eqn:E.
    + intros [= <-]. rewrite !andb_true_iff, !Z.eqb_eq in E. destruct E as [[[Hl H0] H1] H2].
      explode 35 s. cbn in H0, H1, H2. subst. cbn. by rewrite H2.
    + clear E. destruct (_ && _) eqn:E; [|done]. intros [= <-]. rewrite !andb_true_iff, !Z.eqb_eq in E.
      destruct E as [[[Hl H0] H1] H2]. explode 67 s. cbn in H0, H1, H2. subst. cbn. by rewrite H2.
  - intros [Hk ->]. destruct (_ && _) eqn:E in Hk.
    + rewrite andb_true_iff, Z.eqb_eq in E. destruct E as [Hl H]. explode 33 k. cbn in H |- *. by rewrite H.
    + clear E. rewrite andb_true_iff, Z.eqb_eq in Hk. destruct Hk as [Hl H].
      explode 65 k. cbn in H |- *. by rewrite H.
Qed.

Lemma isSome_Some {A} (o : option A) : isSome o = true <-> exists a, o = Some a.
Proof. destruct o; cbn; split; [eauto|done|done|by intros []]. Qed.

(** What a script of each class was recognised by. *)
Lemma GetScriptClass_inv s :
  match GetScriptClass s with
  | PubKeyTy => exists k, extractPubKey s = Some k
  | PubKeyHashTy => exists h, extractPubKeyHash s = Some h
  | ScriptHashTy => exists h, extractScriptHash s = Some h
  | WitnessV0PubKeyHashTy => exists h, extractWitnessPubKeyHash s = Some h
  | WitnessV0ScriptHashTy => exists h, extractWitnessV0ScriptHash s = Some h
  | WitnessV1TaprootTy => exists k, extractWitnessV1KeyBytes s = Some k
  | _ => True
  end.
Proof.
  unfold GetScriptClass, typeOfScript, isScriptHashScript, isWitnessPubKeyHashScript, IsPayToTaproot.
  cbn [Z.eqb Pos.eqb].
  destruct (isSome (extractPubKey s)) eqn:E; [by apply isSome_Some|clear E].
  destruct (isSome (extractPubKeyHash s)) eqn:E; [by apply isSome_Some|clear E].
  destruct (isSome (extractScriptHash s)) eqn:E; [by apply isSome_Some|clear E].
  destruct (isSome (extractWitnessPubKeyHash s)) eqn:E; [by apply isSome_Some|clear E].
  destruct (isSome (extractWitnessV0ScriptHash s)) eqn:E; [by apply isSome_Some|clear E].
  destruct (msValid _); [done|]. destruct (isNullDataScript s); [done|]. cbn.
  destruct (isSome (extractWitnessV1KeyBytes s)) eqn:E; [by apply isSome_Some|done].
Qed.

Lemma class_of_hash_script h :
  zlen h = 20 ->
  GetScriptClass (around [OP_DUP; OP_HASH160] h [OP_EQUALVERIFY; OP_CHECKSIG]) = PubKeyHashTy /\
  GetScriptClass (around [OP_HASH160] h [OP_EQUAL]) = ScriptHashTy /\
  GetScriptClass (around [OP_0] h []) = WitnessV0PubKeyHashTy.
Proof. intros Hl. explode 20 h. split_and!; reflexivity. Qed.

Lemma class_of_program h :
  zlen h = 32 ->
  GetScriptClass (around [OP_0] h []) = WitnessV0ScriptHashTy /\
  GetScriptClass (around [OP_1] h []) = WitnessV1TaprootTy.
Proof.
  intros Hl. explode 32 h. split; [reflexivity|].
  unfold GetScriptClass, typeOfScript, extractMultisigScriptDetails, around. cbn -[Z.eqb negb].
  cbn. by destruct (_ =? _).
Qed.

Lemma class_of_pubKey k :
  isStrictPubKeyEncoding k = true -> GetScriptClass (around [] k [OP_CHECKSIG]) = PubKeyTy.
Proof.
  intros Hk. assert (extractPubKey (around [] k [OP_CHECKSIG]) = Some k) as E by by apply extractPubKey_iff.
  unfold GetScriptClass, typeOfScript. by rewrite E.
Qed.

Lemma strict_pubKey_length k : isStrictPubKeyEncoding k = true -> 2 <= zlen k <= 75.
Proof.
  unfold isStrictPubKeyEncoding. destruct (Z.eqb_spec (zlen k) 33); [lia|]. cbn [andb].
  destruct (Z.eqb_spec (zlen k) 65); [lia|done].
Qed.

(** The classes of standard scripts are exact: a public key script is of a
    class precisely when the builder of that class makes it from a payload of
    the right form, so classifying never confuses two templates and the payload
    can be read back. For every script [s]:
    pay-to-pubkey-hash, pay-to-script-hash and pay-to-witness-pubkey-hash from
    20 bytes, pay-to-witness-script-hash and pay-to-taproot from 32 bytes,
    pay-to-pubkey from a key in the compressed, uncompressed or hybrid form. *)
Theorem GetScriptClass_exact s :
  (GetScriptClass s = PubKeyHashTy <->
     exists h, zlen h = 20 /\ payToPubKeyHashScript h = Ok s /\ extractPubKeyHash s = Some h) /\
  (GetScriptClass s = ScriptHashTy <->
     exists h, zlen h = 20 /\ payToScriptHashScript h = Ok s /\ extractScriptHash s = Some h) /\
  (GetScriptClass s = WitnessV0PubKeyHashTy <->
     exists h, zlen h = 20 /\ payToWitnessPubKeyHashScript h = Ok s /\
               extractWitnessPubKeyHash s = Some h) /\
  (GetScriptClass s = WitnessV0ScriptHashTy <->
     exists h, zlen h = 32 /\ payToWitnessScriptHashScript h = Ok s /\
               extractWitnessV0ScriptHash s = Some h) /\
  (GetScriptClass s = WitnessV1TaprootTy <->
     exists k, zlen k = 32 /\ payToWitnessTaprootScript k = Ok s /\
               extractWitnessV1KeyBytes s = Some k) /\
  (GetScriptClass s = PubKeyTy <->
     exists k, isStrictPubKeyEncoding k = true /\ payToPubKeyScript k = Ok s /\
               extractPubKey s = Some k).
Proof.
  pose proof (GetScriptClass_inv s) as Hinv. split_and!; split.
  all: try (intros E; rewrite E in Hinv; destruct Hinv as [h Hh]; exists h; pose proof Hh as Hs;
    first [apply extractPubKeyHash_iff in Hs | apply extractScriptHash_iff in Hs
          |apply extractWitnessPubKeyHash_iff in Hs | apply extractWitnessV0ScriptHash_iff in Hs
          |apply extractWitnessV1KeyBytes_iff in Hs | apply extractPubKey_iff in Hs];
    destruct Hs as [Hl ->]; split_and!; try done;
    first [by rewrite payToPubKeyHash_eq | by rewrite payToScriptHash_eq | apply payToWitness_eq; lia
          |apply payToPubKey_eq; by apply strict_pubKey_length]).
  - intros (h & Hl & Hb & _). rewrite payToPubKeyHash_eq in Hb by done. injection Hb as <-.
    by apply class_of_hash_script.
  - intros (h & Hl & Hb & _). rewrite payToScriptHash_eq in Hb by done. injection Hb as <-.
    by apply class_of_hash_script.
  - intros (h & Hl & Hb & _). destruct (payToWitness_eq h ltac:(lia)) as (E & _). rewrite E in Hb.
    injection Hb as <-. by apply class_of_hash_script.
  - intros (h & Hl & Hb & _). destruct (payToWitness_eq h ltac:(lia)) as (_ & E & _). rewrite E in Hb.
    injection Hb as <-. by apply class_of_program.
  - intros (h & Hl & Hb & _). destruct (payToWitness_eq h ltac:(lia)) as (_ & _ & E). rewrite E in Hb.
    injection Hb as <-. by apply class_of_program.
  - intros (k & Hk & Hb & _). rewrite payToPubKey_eq in Hb by by apply strict_pubKey_length.
    injection Hb as <-. by apply class_of_pubKey.
Qed.

Lemma extractWitnessProgramInfo_iff_witness :
  extractWitnessProgramInfo (OP_1 :: 2 :: [7; 9]) = Some (1, [7; 9]).
Proof.
  apply extractWitnessProgramInfo_iff.
  - repeat apply Forall_cons_2; [split; discriminate || reflexivity..|constructor].
  - split; [split; discriminate|]. split; [split; discriminate|reflexivity].
Defined.
