(* ===== verification/SigHash.v ===== *)
(** * Signature hashes

    src/txscript/sighash.go and the midstates of src/txscript/hashcache.go: the
    digest a signature commits to, for base scripts, segwit version 0 and
    taproot, each with the OBTC replay-protected domain. What the source hashes
    is a definition of its own (the preimage), so that statements can compare
    preimages. A functional option of the taproot digest is the record the
    options fill. [idx] is an input index, so not negative; a slice or a
    dereference the source does not guard is an [EnginePanic]. *)

From S2P Require Import Prelude Sha256 Wire Commitment Script ScriptNum Standard.

#[local] Set Warnings "-notation-for-abbreviation".

Notation SigHashDefault := 0x00 (only parsing).
Notation SigHashAll := 0x1 (only parsing).
Notation SigHashNone := 0x2 (only parsing).
Notation SigHashSingle := 0x3 (only parsing).
Notation SigHashOBTCReplayProtection := 0x40 (only parsing).
Notation SigHashAnyOneCanPay := 0x80 (only parsing).
Notation sigHashMask := 0x1f (only parsing).
Notation blankCodeSepValue := (2^32 - 1) (only parsing).

Definition obtcReplaySighashTagV0 : list Z := string_bytes "OBTC/SigHashV0/v1".
Definition obtcReplaySighashTagV1 : list Z := string_bytes "OBTC/SigHashV1/v1".
Definition obtcReplayTapSighashTag : list Z := string_bytes "OBTC/TapSighash/v1".
Definition TagTapSighash : list Z := string_bytes "TapSighash".

(** [chainhash.TaggedHash], and what it hashes. *)
Definition taggedPreimage (tag : list Z) (msgs : list (list Z)) : list Z :=
  let shaTag := Sha256.sum256 tag in shaTag ++ shaTag ++ concat msgs.

Definition TaggedHash (tag : list Z) (msgs : list (list Z)) : list Z :=
  Sha256.sum256 (taggedPreimage tag msgs).

(** ** Hash types *)

Definition stripOBTCReplayProtection (hashType : Z) : Z := Z.ldiff hashType SigHashOBTCReplayProtection.

Definition isOBTCReplayProtectedSigHashType (hashType : Z) : bool :=
  if negb (Z.land hashType SigHashOBTCReplayProtection =? SigHashOBTCReplayProtection) then false
  else
    let normalized := stripOBTCReplayProtection hashType in
    if negb (Z.ldiff normalized (Z.lor SigHashAnyOneCanPay sigHashMask) =? 0) then false
    else
      let sigHashType := Z.land normalized sigHashMask in
      (sigHashType =? SigHashAll) || (sigHashType =? SigHashNone) || (sigHashType =? SigHashSingle).

Definition shouldUseOBTCReplayProtectionDomain (hashType : Z) (replayProtectionActive : bool) : bool :=
  replayProtectionActive && isOBTCReplayProtectedSigHashType hashType.

(** ** Base scripts *)

(** The transaction that is serialized: the script of the signed input in
    place, the others empty, and the inputs and outputs the type leaves out
    removed or blanked. *)
Definition legacyTxCopy (sigScript : list Z) (hashType : Z) (tx : MsgTx) (idx : nat) : MsgTx :=
  let m := Z.land hashType sigHashMask in
  let blankSequence := (m =? SigHashNone) || (m =? SigHashSingle) in
  let ins :=
    imap (fun i ti =>
            mkTxIn (PreviousOutPoint ti) (if decide (i = idx) then sigScript else [])
              (Witness ti)
              (if decide (i = idx) then Sequence ti else if blankSequence then 0 else Sequence ti))
      (TxIns tx) in
  let outs :=
    if m =? SigHashNone then []
    else if m =? SigHashSingle then
      imap (fun i to => if decide (i < idx)%nat then mkTxOut (-1) [] else to)
        (take (idx + 1) (TxOuts tx))
    else TxOuts tx in
  mkMsgTx (Version tx)
    (if negb (Z.land hashType SigHashAnyOneCanPay =? 0) then slice idx (idx + 1) ins else ins)
    outs (LockTime tx).

Definition legacyPreimage (sigScript : list Z) (hashType : Z) (tx : MsgTx) (idx : nat)
    (replayProtectionActive : bool) : list Z :=
  (if shouldUseOBTCReplayProtectionDomain hashType replayProtectionActive
   then obtcReplaySighashTagV0 else [])
  ++ SerializeNoWitness (legacyTxCopy (removeOpcodeRaw sigScript OP_CODESEPARATOR) hashType tx idx)
  ++ le_bytes 4 hashType.

(** The digest of the historical bug: the number one. *)
Definition hashOne : list Z := 1 :: replicate 31 0.

Definition calcSignatureHashWithReplayProtection (sigScript : list Z) (hashType : Z) (tx : MsgTx)
    (idx : nat) (replayProtectionActive : bool) : result engine_error (list Z) :=
  if (Z.land hashType sigHashMask =? SigHashSingle) && (zlen (TxOuts tx) <=? Z.of_nat idx)
  then Ok hashOne
  else if negb (Z.land hashType SigHashAnyOneCanPay =? 0) && (zlen (TxIns tx) <=? Z.of_nat idx)
  then Err (EnginePanic "slice bounds out of range")
  else Ok (DoubleHashB (legacyPreimage sigScript hashType tx idx replayProtectionActive)).

Definition CalcSignatureHash (script : list Z) (hashType : Z) (tx : MsgTx) (idx : nat)
    : result engine_error (list Z) :=
  match checkScriptParses script with
  | Some e => Err (ScriptErr e)
  | None => calcSignatureHashWithReplayProtection script hashType tx idx true
  end.

(** ** Midstates *)

Definition calcHashPrevOuts (tx : MsgTx) : list Z :=
  Sha256.sum256 (concat (map (fun ti => Hash (PreviousOutPoint ti)
                                        ++ le_bytes 4 (Index (PreviousOutPoint ti))) (TxIns tx))).

Definition calcHashSequence (tx : MsgTx) : list Z :=
  Sha256.sum256 (concat (map (fun ti => le_bytes 4 (Sequence ti)) (TxIns tx))).

Definition calcHashOutputs (tx : MsgTx) : list Z :=
  Sha256.sum256 (concat (map WriteTxOutBuf (TxOuts tx))).

(** [FetchPrevOutput]; [None] is a nil pointer. *)
Definition PrevOutputFetcher : Type := OutPoint -> option TxOut.

Definition prevOuts (fetch : PrevOutputFetcher) (tx : MsgTx) : option (list TxOut) :=
  mapM (fun ti => fetch (PreviousOutPoint ti)) (TxIns tx).

Definition calcHashInputAmounts (outs : list TxOut) : list Z :=
  Sha256.sum256 (concat (map (fun o => le_bytes 8 (u64 (Value o))) outs)).

Definition calcHashInputScripts (outs : list TxOut) : list Z :=
  Sha256.sum256 (concat (map (fun o => WriteVarBytesBuf (PkScript o)) outs)).

Record TxSigHashes := mkTxSigHashes {
  HashPrevOutsV0 : list Z;
  HashSequenceV0 : list Z;
  HashOutputsV0 : list Z;
  HashPrevOutsV1 : list Z;
  HashSequenceV1 : list Z;
  HashOutputsV1 : list Z;
  HashInputScriptsV1 : list Z;
  HashInputAmountsV1 : list Z }.

(** The loop that looks for inputs of each kind; [None] when it dereferences a
    missing previous output. *)
Fixpoint inputKinds (fetch : PrevOutputFetcher) (ins : list TxIn) (hasV0 hasV1 : bool)
    : option (bool * bool) :=
  match ins with
  | [] => Some (hasV0, hasV1)
  | ti :: ins' =>
      let outpoint := PreviousOutPoint ti in
      if (Index outpoint =? 2^32 - 1) && bool_decide (Hash outpoint = zeroHash)
      then inputKinds fetch ins' true hasV1
      else
        match fetch outpoint with
        | None => None
        | Some prevOut =>
            let isV1 := IsPayToTaproot (PkScript prevOut) in
            let hasV1' := hasV1 || isV1 in
            let hasV0' := hasV0 || negb isV1 in
            if hasV0' && hasV1' then Some (hasV0', hasV1')
            else inputKinds fetch ins' hasV0' hasV1'
        end
  end.

Definition NewTxSigHashes (tx : MsgTx) (inputFetcher : PrevOutputFetcher)
    : result engine_error TxSigHashes :=
  match inputKinds inputFetcher (TxIns tx) false false with
  | None => Err (EnginePanic "invalid memory address or nil pointer dereference")
  | Some (hasV0Inputs, hasV1Inputs) =>
      let p := calcHashPrevOuts tx in
      let s := calcHashSequence tx in
      let o := calcHashOutputs tx in
      let v0 h := if hasV0Inputs then Sha256.sum256 h else zeroHash in
      if hasV1Inputs then
        match prevOuts inputFetcher tx with
        | None => Err (EnginePanic "invalid memory address or nil pointer dereference")
        | Some outs =>
            Ok (mkTxSigHashes (v0 p) (v0 s) (v0 o) p s o
                  (calcHashInputScripts outs) (calcHashInputAmounts outs))
        end
      else Ok (mkTxSigHashes (v0 p) (v0 s) (v0 o) p s o zeroHash zeroHash)
  end.

(** ** Segwit version 0 *)

Definition witnessScriptCode (subScript : list Z) : list Z :=
  match extractWitnessPubKeyHash subScript with
  | Some h => [0x19; OP_DUP; OP_HASH160; OP_DATA_20] ++ h ++ [OP_EQUALVERIFY; OP_CHECKSIG]
  | None => WriteVarBytesBuf subScript
  end.

(** Everything between the domain tag and the hash type. *)
Definition witnessBody (subScript : list Z) (sigHashes : TxSigHashes) (hashType : Z) (tx : MsgTx)
    (idx : nat) (txIn : TxIn) (amt : Z) : list Z :=
  let m := Z.land hashType sigHashMask in
  let anyOneCanPay := negb (Z.land hashType SigHashAnyOneCanPay =? 0) in
  let notAll := (m =? SigHashSingle) || (m =? SigHashNone) in
  le_bytes 4 (u32 (Version tx))
  ++ (if anyOneCanPay then zeroHash else HashPrevOutsV0 sigHashes)
  ++ (if anyOneCanPay || notAll then zeroHash else HashSequenceV0 sigHashes)
  ++ Hash (PreviousOutPoint txIn) ++ le_bytes 4 (Index (PreviousOutPoint txIn))
  ++ witnessScriptCode subScript
  ++ le_bytes 8 (u64 amt)
  ++ le_bytes 4 (Sequence txIn)
  ++ (if negb notAll then HashOutputsV0 sigHashes
      else if (m =? SigHashSingle) && (Z.of_nat idx <? zlen (TxOuts tx))
      then DoubleHashB (WriteTxOutBuf (nth idx (TxOuts tx) (mkTxOut 0 [])))
      else zeroHash)
  ++ le_bytes 4 (LockTime tx).

Definition witnessPreimage (subScript : list Z) (sigHashes : TxSigHashes) (hashType : Z) (tx : MsgTx)
    (idx : nat) (txIn : TxIn) (amt : Z) (replayProtectionActive : bool) : list Z :=
  (if shouldUseOBTCReplayProtectionDomain hashType replayProtectionActive
   then obtcReplaySighashTagV1 else [])
  ++ witnessBody subScript sigHashes hashType tx idx txIn amt
  ++ le_bytes 4 hashType.

Definition calcWitnessSignatureHashRawWithReplayProtection (subScript : list Z)
    (sigHashes : TxSigHashes) (hashType : Z) (tx : MsgTx) (idx : nat) (amt : Z)
    (replayProtectionActive : bool) : result engine_error (list Z) :=
  match TxIns tx !! idx with
  | None => Err (PlainErr "idx out of range")
  | Some txIn =>
      Ok (DoubleHashB (witnessPreimage subScript sigHashes hashType tx idx txIn amt
                         replayProtectionActive))
  end.

(** ** Taproot *)

Inductive sigHashExtFlag := baseSigHashExtFlag | tapscriptSighashExtFlag.

Record taprootSigHashOptions := mkTaprootSigHashOptions {
  extFlag : sigHashExtFlag;
  annexHash : option (list Z);
  tapLeafHash : list Z;
  keyVersion : Z;
  codeSepPos : Z;
  allowOBTCReplayProtection : bool }.

Definition defaultTaprootSighashOptions : taprootSigHashOptions :=
  mkTaprootSigHashOptions baseSigHashExtFlag None [] 0 0 false.

Definition WithAnnex (annex : list Z) (o : taprootSigHashOptions) : taprootSigHashOptions :=
  mkTaprootSigHashOptions (extFlag o) (Some (Sha256.sum256 (WriteVarBytesBuf annex)))
    (tapLeafHash o) (keyVersion o) (codeSepPos o) (allowOBTCReplayProtection o).

Definition WithBaseTapscriptVersion (codeSepPos : Z) (tapLeafHash : list Z)
    (o : taprootSigHashOptions) : taprootSigHashOptions :=
  mkTaprootSigHashOptions tapscriptSighashExtFlag (annexHash o) tapLeafHash 0 codeSepPos
    (allowOBTCReplayProtection o).

Definition WithOBTCReplayProtectionSighash (o : taprootSigHashOptions) : taprootSigHashOptions :=
  mkTaprootSigHashOptions (extFlag o) (annexHash o) (tapLeafHash o) (keyVersion o) (codeSepPos o) true.

Definition writeDigestExtensions (t : taprootSigHashOptions) : list Z :=
  match extFlag t with
  | baseSigHashExtFlag => []
  | tapscriptSighashExtFlag => tapLeafHash t ++ [keyVersion t] ++ le_bytes 4 (codeSepPos t)
  end.

Definition isValidTaprootSigHash (hashType : Z) : bool :=
  bool_decide (hashType ∈ [SigHashDefault; SigHashAll; SigHashNone; SigHashSingle;
                           0x81; 0x82; 0x83]).

(** The message below the tag, for a type that passed the checks. *)
Definition taprootMessage (sigHashes : TxSigHashes) (hType normalized : Z) (tx : MsgTx) (idx : nat)
    (input : TxIn) (prevOut : TxOut) (opts : taprootSigHashOptions) : list Z :=
  let anyOneCanPay := Z.land normalized SigHashAnyOneCanPay =? SigHashAnyOneCanPay in
  let spendType := (match extFlag opts with baseSigHashExtFlag => 0 | tapscriptSighashExtFlag => 2 end)
                   + (match annexHash opts with Some _ => 1 | None => 0 end) in
  [0x00] ++ [u8 hType]
  ++ le_bytes 4 (u32 (Version tx)) ++ le_bytes 4 (LockTime tx)
  ++ (if negb anyOneCanPay
      then HashPrevOutsV1 sigHashes ++ HashInputAmountsV1 sigHashes
           ++ HashInputScriptsV1 sigHashes ++ HashSequenceV1 sigHashes
      else [])
  ++ (if negb (Z.land normalized SigHashSingle =? SigHashSingle)
         && negb (Z.land normalized SigHashSingle =? SigHashNone)
      then HashOutputsV1 sigHashes else [])
  ++ [spendType]
  ++ (if anyOneCanPay
      then writeOutPointBuf (PreviousOutPoint input) ++ WriteTxOutBuf prevOut
           ++ le_bytes 4 (Sequence input)
      else le_bytes 4 (u32 (Z.of_nat idx)))
  ++ (match annexHash opts with Some h => h | None => [] end)
  ++ (if Z.land normalized sigHashMask =? SigHashSingle
      then Sha256.sum256 (WriteTxOutBuf (nth idx (TxOuts tx) (mkTxOut 0 []))) else [])
  ++ writeDigestExtensions opts.

Definition calcTaprootSignatureHashRaw (sigHashes : TxSigHashes) (hType : Z) (tx : MsgTx) (idx : nat)
    (fetch : PrevOutputFetcher) (opts : taprootSigHashOptions) : result engine_error (list Z) :=
  let replayProtectedSigHash := isOBTCReplayProtectedSigHashType hType in
  if replayProtectedSigHash && negb (allowOBTCReplayProtection opts)
  then Err (PlainErr "invalid taproot sighash type")
  else
    let normalized := if replayProtectedSigHash then stripOBTCReplayProtection hType else hType in
    if negb (isValidTaprootSigHash normalized) then Err (PlainErr "invalid taproot sighash type")
    else
      match TxIns tx !! idx with
      | None => Err (PlainErr "idx out of range")
      | Some input =>
          let anyOneCanPay := Z.land normalized SigHashAnyOneCanPay =? SigHashAnyOneCanPay in
          match (if anyOneCanPay then fetch (PreviousOutPoint input) else Some (mkTxOut 0 [])) with
          | None => Err (EnginePanic "invalid memory address or nil pointer dereference")
          | Some prevOut =>
              if (Z.land normalized sigHashMask =? SigHashSingle)
                 && (zlen (TxOuts tx) <=? Z.of_nat idx)
              then Err (PlainErr "invalid sighash type for input")
              else
                Ok (TaggedHash
                      (if replayProtectedSigHash && allowOBTCReplayProtection opts
                       then obtcReplayTapSighashTag else TagTapSighash)
                      [taprootMessage sigHashes hType normalized tx idx input prevOut opts])
          end
      end.

(** ** Hash types with replay protection *)

Lemma replayProtected_byte h :
  0 <= h -> isOBTCReplayProtectedSigHashType h = true -> is_u8 h.
Proof.
  intros Hh. unfold isOBTCReplayProtectedSigHashType, stripOBTCReplayProtection.
  destruct (Z.land h 0x40 =? 0x40); [|done]. cbn [negb]. rewrite Z.ldiff_ldiff_l.
  destruct (Z.eqb_spec (Z.ldiff h (Z.lor 0x40 (Z.lor 0x80 0x1f))) 0) as [E|]; [|done]. intros _.
  pose proof (Z.lor_ldiff_and h (Z.lor 0x40 (Z.lor 0x80 0x1f))) as Hsum.
  rewrite E, Z.lor_0_l in Hsum. unfold is_u8. split; [done|].
  change (Z.lor 0x40 (Z.lor 0x80 0x1f)) with 0xdf in Hsum.
  assert (h mod 2^8 = h) as <-; [|apply Z.mod_pos_bound; lia].
  rewrite <- Z.land_ones by lia. rewrite <- Hsum at 1. by rewrite <- Z.land_assoc.
Qed.

(** The six hash types of the protected domain. *)
Lemma replayProtected_types h :
  0 <= h ->
  (isOBTCReplayProtectedSigHashType h = true <-> h ∈ [0x41; 0x42; 0x43; 0xc1; 0xc2; 0xc3]).
Proof.
  intros Hh. split.
  - intros H. pose proof (replayProtected_byte h Hh H) as Hb.
    assert (Hall : forallb (fun h => implb (isOBTCReplayProtectedSigHashType h)
      (bool_decide (h ∈ [0x41; 0x42; 0x43; 0xc1; 0xc2; 0xc3]))) (seqZ 0 256) = true)
      by (vm_compute; reflexivity).
    pose proof (byte_forall _ Hall h Hb) as Hf.
    cbv beta in Hf. rewrite H in Hf. cbn [implb] in Hf. by apply bool_decide_eq_true in Hf.
  - rewrite !elem_of_cons, elem_of_nil. intros [->|[->|[->|[->|[->|[->|[]]]]]]]; reflexivity.
Qed.

(** ** Separation of the domains *)

(** The transaction version whose bytes spell the start of a domain tag. *)
Definition obtcVersion : Z := le_val (string_bytes "OBTC").

Lemma le_bytes_4_inj a b : is_u32 a -> is_u32 b -> le_bytes 4 a = le_bytes 4 b -> a = b.
Proof.
  intros Ha Hb H. apply (f_equal le_val) in H.
  rewrite !le_val_le_bytes, pow256_4, !Z.mod_small in H by done. done.
Qed.

Lemma unprotected_prefix_base s h tx i :
  take 4 (legacyPreimage s h tx i false) = le_bytes 4 (u32 (Version tx)).
Proof.
  unfold legacyPreimage, SerializeNoWitness, btcEncode, legacyTxCopy.
  cbn [shouldUseOBTCReplayProtectionDomain andb app Version].
  rewrite <- app_assoc. apply take_app_length', eq_sym, length_le_bytes.
Qed.

Lemma unprotected_prefix_segwit s sh h tx i ti amt :
  take 4 (witnessPreimage s sh h tx i ti amt false) = le_bytes 4 (u32 (Version tx)).
Proof.
  unfold witnessPreimage, witnessBody. cbn [shouldUseOBTCReplayProtectionDomain andb app].
  rewrite <- app_assoc. apply take_app_length', eq_sym, length_le_bytes.
Qed.

(** SIGHASH_SINGLE on an input that has no output of its index. *)
Definition singleOutOfRange (hashType : Z) (tx : MsgTx) (idx : nat) : bool :=
  (Z.land hashType sigHashMask =? SigHashSingle) && (zlen (TxOuts tx) <=? Z.of_nat idx).

(** What is hashed for a signature of the OBTC domain and what comes out, and the
    same for one of Bitcoin, whose transaction has the given version: any script,
    transaction, input and amount, for base scripts and segwit. *)
Inductive obtcDigest : list Z -> list Z -> Prop :=
| obtc_base s h tx i d :
    isOBTCReplayProtectedSigHashType h = true -> singleOutOfRange h tx i = false ->
    calcSignatureHashWithReplayProtection s h tx i true = Ok d -> obtcDigest (legacyPreimage s h tx i true) d
| obtc_segwit s sh h tx i ti amt d :
    isOBTCReplayProtectedSigHashType h = true -> TxIns tx !! i = Some ti ->
    calcWitnessSignatureHashRawWithReplayProtection s sh h tx i amt true = Ok d ->
    obtcDigest (witnessPreimage s sh h tx i ti amt true) d.

Inductive bitcoinDigest (version : Z) : list Z -> list Z -> Prop :=
| bitcoin_base s h tx i d :
    u32 (Version tx) = version -> singleOutOfRange h tx i = false ->
    calcSignatureHashWithReplayProtection s h tx i false = Ok d -> bitcoinDigest version (legacyPreimage s h tx i false) d
| bitcoin_segwit s sh h tx i ti amt d :
    u32 (Version tx) = version -> TxIns tx !! i = Some ti ->
    calcWitnessSignatureHashRawWithReplayProtection s sh h tx i amt false = Ok d ->
    bitcoinDigest version (witnessPreimage s sh h tx i ti amt false) d.

(** Outside of the exception the digests are the double hashes. *)
Lemma legacy_digest s h tx i active d :
  singleOutOfRange h tx i = false -> calcSignatureHashWithReplayProtection s h tx i active = Ok d ->
  d = DoubleHashB (legacyPreimage s h tx i active).
Proof.
  unfold singleOutOfRange, calcSignatureHashWithReplayProtection. intros ->. destruct (_ && _); [done|]. by intros [= <-].
Qed.

Lemma witness_digest s sh h tx i ti amt active d :
  TxIns tx !! i = Some ti -> calcWitnessSignatureHashRawWithReplayProtection s sh h tx i amt active = Ok d ->
  d = DoubleHashB (witnessPreimage s sh h tx i ti amt active).
Proof. unfold calcWitnessSignatureHashRawWithReplayProtection. intros ->. by intros [= <-]. Qed.

Lemma tag_changes_length (tag h1 h2 b1 b2 : list Z) :
  tag <> [] -> length h1 = length h2 -> (h1 = h2 -> b1 = b2) -> tag ++ b1 ++ h1 <> b2 ++ h2.
Proof.
  intros Htag Hl Hb H. rewrite app_assoc in H. apply app_inj_2 in H as [H1 H2]; [|done].
  rewrite (Hb H2) in H1. apply (f_equal length) in H1. rewrite length_app in H1.
  destruct tag; [congruence|cbn [length] in H1; lia].
Qed.

Lemma tap_tags_differ : Sha256.sum256 obtcReplayTapSighashTag <> Sha256.sum256 TagTapSighash.
Proof. vm_compute. discriminate. Qed.

Lemma obtcDigest_spec m d : obtcDigest m d -> d = DoubleHashB m /\ take 4 m = string_bytes "OBTC".
Proof.
  intros [s h tx i d' Hp Hr Hd|s sh h tx i ti amt d' Hp Hti Hd].
  - split; [by apply legacy_digest|]. unfold legacyPreimage, shouldUseOBTCReplayProtectionDomain. by rewrite Hp.
  - split; [by apply witness_digest|]. unfold witnessPreimage, shouldUseOBTCReplayProtectionDomain. by rewrite Hp.
Qed.

Lemma bitcoinDigest_spec v m d : bitcoinDigest v m d -> d = DoubleHashB m /\ take 4 m = le_bytes 4 v /\ is_u32 v.
Proof.
  intros [s h tx i d' <- Hr Hd|s sh h tx i ti amt d' <- Hti Hd].
  - split; [by apply legacy_digest|]. split; [apply unprotected_prefix_base|apply u32_range].
  - split; [by apply witness_digest|]. split; [apply unprotected_prefix_segwit|apply u32_range].
Qed.

Lemma taproot_digest sh h tx i fetch opts d :
  calcTaprootSignatureHashRaw sh h tx i fetch opts = Ok d ->
  exists msg : list Z, d = Sha256.sum256 (taggedPreimage (if isOBTCReplayProtectedSigHashType h then obtcReplayTapSighashTag else TagTapSighash) [msg]).
Proof.
  unfold calcTaprootSignatureHashRaw. destruct (isOBTCReplayProtectedSigHashType h), (allowOBTCReplayProtection opts); cbn [andb negb];
    try done; (destruct (isValidTaprootSigHash _); [|done]); cbn [negb]; (destruct (TxIns tx !! i) as [input|]; [|done]);
    (destruct (if _ =? _ then fetch _ else Some _) as [po|]; [|done]); (destruct (_ && _); [done|]); intros [= <-]; eexists; reflexivity.
Qed.

(** ** The digest of an out-of-range SIGHASH_SINGLE *)

Lemma single_out_of_range s h tx i active :
  singleOutOfRange h tx i = true -> calcSignatureHashWithReplayProtection s h tx i active = Ok hashOne.
Proof. unfold singleOutOfRange, calcSignatureHashWithReplayProtection. by intros ->. Qed.

(** C30: the OBTC signature domain is separate from Bitcoin's, with one exception.
    (1) The digests of base scripts and segwit version 0, for a protected hash type
    on one side and for Bitcoin on the other, are double hashes of different byte
    strings, whatever the scripts, transactions and hash types, as long as the
    version of the Bitcoin transaction does not spell OBTC and neither signs with
    SIGHASH_SINGLE for an input of a base script that has no output of its index.
    (2) For one and the same transaction, input and script the strings differ
    without the condition on the version, whichever hash type Bitcoin used.
    (3) A taproot digest of a protected and one of an unprotected type are hashes
    of different strings. (4) The exception is real: the digest of a base script is
    then the number one in both domains. *)
Theorem replay_domain_separation :
  (forall v m1 m2 d1 d2, v <> obtcVersion -> obtcDigest m1 d1 -> bitcoinDigest v m2 d2 ->
     d1 = DoubleHashB m1 /\ d2 = DoubleHashB m2 /\ m1 <> m2) /\
  (forall s sh h1 h2 tx i ti amt,
     is_u32 h1 -> is_u32 h2 -> isOBTCReplayProtectedSigHashType h1 = true ->
     legacyPreimage s h1 tx i true <> legacyPreimage s h2 tx i false /\
     witnessPreimage s sh h1 tx i ti amt true <> witnessPreimage s sh h2 tx i ti amt false) /\
  (forall sh1 h1 tx1 i1 fetch1 opts1 d1 sh2 h2 tx2 i2 fetch2 opts2 d2,
     isOBTCReplayProtectedSigHashType h1 = true -> isOBTCReplayProtectedSigHashType h2 = false ->
     calcTaprootSignatureHashRaw sh1 h1 tx1 i1 fetch1 opts1 = Ok d1 ->
     calcTaprootSignatureHashRaw sh2 h2 tx2 i2 fetch2 opts2 = Ok d2 ->
     exists m1 m2, d1 = Sha256.sum256 m1 /\ d2 = Sha256.sum256 m2 /\
       take 32 m1 = Sha256.sum256 obtcReplayTapSighashTag /\ take 32 m2 = Sha256.sum256 TagTapSighash /\ m1 <> m2) /\
  (forall s h tx i active, singleOutOfRange h tx i = true ->
     calcSignatureHashWithReplayProtection s h tx i active = Ok hashOne).
Proof.
  split_and!.
  - intros v m1 m2 d1 d2 Hv [Hd1 H1]%obtcDigest_spec (Hd2 & H2 & Hu)%bitcoinDigest_spec. split; [done|]. split; [done|].
    intros <-. apply Hv. rewrite H2 in H1. unfold obtcVersion. rewrite <- H1, le_val_le_bytes, pow256_4. symmetry. by apply Z.mod_small.
  - intros s sh h1 h2 tx i ti amt Hu1 Hu2 Hp.
    unfold legacyPreimage, witnessPreimage, shouldUseOBTCReplayProtectionDomain. rewrite Hp.
    cbn [andb app]. split; apply tag_changes_length;
      [discriminate|reflexivity|intros ->%le_bytes_4_inj; [reflexivity|assumption..]
      |discriminate|reflexivity|intros ->%le_bytes_4_inj; [reflexivity|assumption..]].
  - intros sh1 h1 tx1 i1 fetch1 opts1 d1 sh2 h2 tx2 i2 fetch2 opts2 d2 Hp1 Hp2 (m1 & ->)%taproot_digest (m2 & ->)%taproot_digest.
    rewrite Hp1, Hp2. eexists _, _. split; [reflexivity|]. split; [reflexivity|]. unfold taggedPreimage.
    rewrite !take_app_length' by (by rewrite Sha256.length_sum256). split; [reflexivity|]. split; [reflexivity|].
    intros E. apply tap_tags_differ. apply app_inj_1 in E as [E _]; [exact E|]. by rewrite !Sha256.length_sum256.
  - intros s h tx i active. apply single_out_of_range.
Qed.

(** The separation has one hole. With SIGHASH_SINGLE on an input that has no
    output of its index, the digest is the number one whatever the domain: the
    protected type 0x43 with replay protection active gives the digest that type
    0x03 gives on Bitcoin, for any two scripts and transactions. A signature
    over that digest is valid on both chains. *)
Theorem single_digest_not_separated s1 s2 tx1 tx2 i1 i2 :
  zlen (TxOuts tx1) <= Z.of_nat i1 -> zlen (TxOuts tx2) <= Z.of_nat i2 ->
  isOBTCReplayProtectedSigHashType 0x43 = true /\
  calcSignatureHashWithReplayProtection s1 0x43 tx1 i1 true
    = calcSignatureHashWithReplayProtection s2 0x03 tx2 i2 false.
Proof.
  intros H1 H2. assert (Hout : forall h tx i, Z.land h sigHashMask = SigHashSingle -> zlen (TxOuts tx) <= Z.of_nat i ->
    singleOutOfRange h tx i = true).
  { intros h tx i Hm Hi. unfold singleOutOfRange. by rewrite Hm, (proj2 (Z.leb_le _ _)). }
  split; [reflexivity|]. by rewrite !single_out_of_range by (by apply Hout).
Qed.

(** ** What a digest commits to *)

(** The part of an input every signature of its transaction covers. *)
Definition spends (tx : MsgTx) : list (OutPoint * Z) :=
  (fun ti => (PreviousOutPoint ti, Sequence ti)) <$> TxIns tx.

Lemma legacyTxCopy_all s h tx i :
  Z.land h sigHashMask = SigHashAll -> Z.land h SigHashAnyOneCanPay = 0 ->
  TxOuts (legacyTxCopy s h tx i) = TxOuts tx /\ spends (legacyTxCopy s h tx i) = spends tx /\
  forall ti, TxIns tx !! i = Some ti ->
    exists ti', TxIns (legacyTxCopy s h tx i) !! i = Some ti' /\ SignatureScript ti' = s.
Proof.
  intros Hm Ha. unfold legacyTxCopy, spends. rewrite Hm, Ha. cbn [TxOuts TxIns Z.eqb Pos.eqb orb negb].
  split_and!; [done| |].
  - rewrite fmap_imap.
    rewrite <- (imap_const (fun ti => (PreviousOutPoint ti, Sequence ti))).
    apply imap_ext. intros j ti _. cbn. by destruct (decide (j = i)).
  - intros ti Hti. rewrite list_lookup_imap, Hti. eexists. split; [reflexivity|]. cbn.
    by destruct (decide (i = i)).
Qed.

Lemma legacyPreimage_inj s1 s2 h1 h2 tx1 tx2 i1 i2 active :
  is_u32 h1 -> is_u32 h2 ->
  wf_tx (legacyTxCopy (removeOpcodeRaw s1 OP_CODESEPARATOR) h1 tx1 i1) ->
  wf_tx (legacyTxCopy (removeOpcodeRaw s2 OP_CODESEPARATOR) h2 tx2 i2) ->
  legacyPreimage s1 h1 tx1 i1 active = legacyPreimage s2 h2 tx2 i2 active ->
  h1 = h2 /\
  stripTx (legacyTxCopy (removeOpcodeRaw s1 OP_CODESEPARATOR) h1 tx1 i1)
    = stripTx (legacyTxCopy (removeOpcodeRaw s2 OP_CODESEPARATOR) h2 tx2 i2).
Proof.
  intros Hu1 Hu2 Hw1 Hw2 E. unfold legacyPreimage in E. rewrite !(app_assoc _ _ (le_bytes 4 _)) in E.
  pose proof E as E'. apply app_inj_2 in E' as [E' Hh]; [|by rewrite !length_le_bytes].
  apply le_bytes_4_inj in Hh; [|done..]. split; [done|]. subst h2. clear E.
  apply app_inv_head in E'. unfold SerializeNoWitness in E'.
  pose proof (btcDecode_write BaseEncoding _ [] Hw1 ltac:(discriminate)) as D1.
  pose proof (btcDecode_write BaseEncoding _ [] Hw2 ltac:(discriminate)) as D2.
  rewrite E', D2 in D1. cbn [visible] in D1. congruence.
Qed.

Lemma stripTx_spends tx : spends (stripTx tx) = spends tx.
Proof.
  unfold spends, stripTx. cbn [TxIns]. change (map stripWitness (TxIns tx)) with (stripWitness <$> TxIns tx).
  by rewrite <- list_fmap_compose.
Qed.

(** A SIGHASH_ALL signature of a base script covers the whole transaction.
    If two inputs have the same preimage for a hash type of base type ALL
    without ANYONECANPAY (protected or not), then the hash types, versions, lock
    times, outputs and the spent outpoints with their sequence numbers are the
    same, and, for the same input index, so are the scripts signed for once
    their code separators are removed. The copies that are hashed must fit the
    limits of the transaction decoder. *)
Theorem legacy_sighash_commits s1 s2 h1 h2 tx1 tx2 i active :
  is_u32 h1 -> is_u32 h2 ->
  Z.land h1 sigHashMask = SigHashAll -> Z.land h1 SigHashAnyOneCanPay = 0 ->
  wf_tx (legacyTxCopy (removeOpcodeRaw s1 OP_CODESEPARATOR) h1 tx1 i) ->
  wf_tx (legacyTxCopy (removeOpcodeRaw s2 OP_CODESEPARATOR) h2 tx2 i) ->
  (i < length (TxIns tx1))%nat ->
  legacyPreimage s1 h1 tx1 i active = legacyPreimage s2 h2 tx2 i active ->
  h1 = h2 /\ Version tx1 = Version tx2 /\ LockTime tx1 = LockTime tx2 /\ TxOuts tx1 = TxOuts tx2 /\
  spends tx1 = spends tx2 /\
  removeOpcodeRaw s1 OP_CODESEPARATOR = removeOpcodeRaw s2 OP_CODESEPARATOR.
Proof.
  intros Hu1 Hu2 Hm Ha Hw1 Hw2 Hi E.
  destruct (legacyPreimage_inj _ _ _ _ _ _ _ _ _ Hu1 Hu2 Hw1 Hw2 E) as [<- Hs]. clear E.
  set (c1 := removeOpcodeRaw s1 _) in *. set (c2 := removeOpcodeRaw s2 _) in *.
  destruct (legacyTxCopy_all c1 h1 tx1 i Hm Ha) as (Ho1 & Hsp1 & Hsc1).
  destruct (legacyTxCopy_all c2 h1 tx2 i Hm Ha) as (Ho2 & Hsp2 & Hsc2).
  split; [done|]. split; [exact (f_equal Version Hs)|]. split; [exact (f_equal LockTime Hs)|].
  split; [rewrite <- Ho1, <- Ho2; exact (f_equal TxOuts Hs)|].
  assert (Hspends : spends tx1 = spends tx2).
  { rewrite <- Hsp1, <- Hsp2, <- stripTx_spends, Hs. apply stripTx_spends. }
  split; [done|].
  destruct (lookup_lt_is_Some_2 (TxIns tx1) i Hi) as [ti1 Hti1].
  assert (is_Some (TxIns tx2 !! i)) as [ti2 Hti2].
  { apply lookup_lt_is_Some_2. apply (f_equal length) in Hspends. unfold spends in Hspends.
    rewrite !length_fmap in Hspends. lia. }
  destruct (Hsc1 _ Hti1) as (c & Hc & <-). destruct (Hsc2 _ Hti2) as (c' & Hc' & <-).
  apply (f_equal (fun t => SignatureScript <$> TxIns t !! i)) in Hs. unfold stripTx in Hs. cbn [TxIns] in Hs.
  change (@map TxIn TxIn) with (@fmap list _ TxIn TxIn) in Hs.
  rewrite !list_lookup_fmap, Hc, Hc' in Hs. cbn in Hs. by injection Hs.
Qed.

(** Midstates are hashes. *)
Definition sized (sh : TxSigHashes) : Prop :=
  length (HashPrevOutsV0 sh) = 32%nat /\ length (HashSequenceV0 sh) = 32%nat /\
  length (HashOutputsV0 sh) = 32%nat.

Lemma NewTxSigHashes_sized tx fetch sh : NewTxSigHashes tx fetch = Ok sh -> sized sh.
Proof.
  unfold NewTxSigHashes. destruct (inputKinds _ _ _ _) as [[v0 v1]|]; [|discriminate].
  assert (Hl : forall h, length (if v0 then Sha256.sum256 h else zeroHash) = 32%nat).
  { intros h. destruct v0; [apply Sha256.length_sum256|reflexivity]. }
  destruct v1; [destruct (prevOuts fetch tx); [|discriminate]|]; intros [= <-]; split_and!; apply Hl.
Qed.

Lemma le_bytes_8_inj a b : is_u64 a -> is_u64 b -> le_bytes 8 a = le_bytes 8 b -> a = b.
Proof.
  intros Ha Hb H. apply (f_equal le_val) in H.
  rewrite !le_val_le_bytes, pow256_8, !Z.mod_small in H by done. done.
Qed.

Lemma length_outputs_field (b : bool) sh (c : bool) o :
  sized sh ->
  length (if b then HashOutputsV0 sh else if c then DoubleHashB o else zeroHash) = 32%nat.
Proof. intros (_ & _ & H). destruct b; [done|]. destruct c; [apply length_DoubleHashB|reflexivity]. Qed.

Lemma outpoint_eq (a b : OutPoint) : Hash a = Hash b -> Index a = Index b -> a = b.
Proof. destruct a, b. cbn. by intros -> ->. Qed.

(** The output a SIGHASH_SINGLE signature of input [idx] is for. *)
Definition singleOutputHash (tx : MsgTx) (idx : nat) : list Z :=
  match TxOuts tx !! idx with Some o => DoubleHashB (WriteTxOutBuf o) | None => zeroHash end.

Lemma singleOutputHash_field tx i :
  (if Z.of_nat i <? zlen (TxOuts tx) then DoubleHashB (WriteTxOutBuf (nth i (TxOuts tx) (mkTxOut 0 []))) else zeroHash)
  = singleOutputHash tx i.
Proof.
  unfold singleOutputHash. destruct (TxOuts tx !! i) as [o|] eqn:E.
  - pose proof (lookup_lt_Some _ _ _ E). rewrite (proj2 (Z.ltb_lt _ _)) by (unfold zlen; lia).
    by rewrite (nth_lookup_Some _ _ _ _ E).
  - apply lookup_ge_None in E. by rewrite (proj2 (Z.ltb_ge _ _)) by (unfold zlen; lia).
Qed.

(** C33: a segwit signature covers the value it spends and everything its hash
    type promises. If the same segwit version 0 byte string is hashed for two
    inputs, the hash types, versions, outpoints, script codes, amounts, sequence
    numbers and lock times agree. Without ANYONECANPAY so do the hashes of all
    outpoints, and those of all sequence numbers when the base type is neither
    SINGLE nor NONE. Of the outputs, with or without ANYONECANPAY, the hashes of all
    agree when the base type is neither SINGLE nor NONE; with SINGLE the hashes of
    the outputs with the indices of the two inputs agree, all zero where there is
    no such output. *)
Theorem witness_sighash_commits s1 s2 sh1 sh2 h1 h2 tx1 tx2 i1 i2 ti1 ti2 amt1 amt2 active :
  is_u32 h1 -> is_u32 h2 -> sized sh1 -> sized sh2 ->
  wf_txin ti1 -> wf_txin ti2 -> is_i64 amt1 -> is_i64 amt2 ->
  is_u32 (LockTime tx1) -> is_u32 (LockTime tx2) ->
  witnessPreimage s1 sh1 h1 tx1 i1 ti1 amt1 active = witnessPreimage s2 sh2 h2 tx2 i2 ti2 amt2 active ->
  let base := Z.land h1 sigHashMask in
  h1 = h2 /\ u32 (Version tx1) = u32 (Version tx2) /\ LockTime tx1 = LockTime tx2 /\
  PreviousOutPoint ti1 = PreviousOutPoint ti2 /\ Sequence ti1 = Sequence ti2 /\ amt1 = amt2 /\
  witnessScriptCode s1 = witnessScriptCode s2 /\
  (Z.land h1 SigHashAnyOneCanPay = 0 -> HashPrevOutsV0 sh1 = HashPrevOutsV0 sh2) /\
  (Z.land h1 SigHashAnyOneCanPay = 0 -> base <> SigHashSingle -> base <> SigHashNone ->
     HashSequenceV0 sh1 = HashSequenceV0 sh2) /\
  (base <> SigHashSingle -> base <> SigHashNone -> HashOutputsV0 sh1 = HashOutputsV0 sh2) /\
  (base = SigHashSingle -> singleOutputHash tx1 i1 = singleOutputHash tx2 i2).
Proof.
  intros Hu1 Hu2 Hz1 Hz2 ([Hl1 Hi1] & Hq1 & _) ([Hl2 Hi2] & Hq2 & _) Ha1 Ha2 Ht1 Ht2 E base.
  unfold witnessPreimage in E. rewrite !(app_assoc _ _ (le_bytes 4 _)) in E.
  apply app_inj_2 in E as [E Hh]; [|by rewrite !length_le_bytes].
  apply le_bytes_4_inj in Hh; [|done..]. subst h2. apply app_inv_head in E. unfold witnessBody in E.
  set (m := Z.land h1 sigHashMask) in *. set (acp := negb (Z.land h1 _ =? 0)) in *.
  set (na := (m =? _) || (m =? _)) in *.
  pose proof Hz1 as (Hp1 & Hs1 & Ho1). pose proof Hz2 as (Hp2 & Hs2 & Ho2).
  apply app_inj_1 in E as [Fv E]; [|by rewrite !length_le_bytes].
  apply app_inj_1 in E as [Fp E]; [|destruct acp; congruence].
  apply app_inj_1 in E as [Fs E]; [|destruct (acp || na); congruence].
  apply app_inj_1 in E as [Fh E]; [|congruence].
  apply app_inj_1 in E as [Fi E]; [|by rewrite !length_le_bytes].
  apply app_inj_2 in E as [Fc E];
    [|rewrite !length_app, !length_le_bytes, !length_outputs_field by done; reflexivity].
  apply app_inj_1 in E as [Fa E]; [|by rewrite !length_le_bytes].
  apply app_inj_1 in E as [Fq E]; [|by rewrite !length_le_bytes].
  apply app_inj_1 in E as [Fo Ft]; [|by rewrite !length_outputs_field].
  split; [done|].
  split; [apply le_bytes_4_inj in Fv; [done|apply u32_range..]|].
  split; [by apply le_bytes_4_inj in Ft|].
  split; [apply outpoint_eq; [exact Fh|by apply le_bytes_4_inj in Fi]|].
  split; [by apply le_bytes_4_inj in Fq|].
  split; [apply le_bytes_8_inj in Fa; [|apply u64_range..]; rewrite <- (i64_u64 amt1), <- (i64_u64 amt2); congruence|].
  assert (Hna : base <> SigHashSingle -> base <> SigHashNone -> na = false).
  { intros H1 H2. unfold na. by rewrite (proj2 (Z.eqb_neq m 3) H1), (proj2 (Z.eqb_neq m 2) H2). }
  assert (Hacp : Z.land h1 SigHashAnyOneCanPay = 0 -> acp = false) by (intros H; unfold acp; by rewrite H).
  split; [done|]. split_and!.
  - intros Ha. by rewrite (Hacp Ha) in Fp.
  - intros Ha Hn1 Hn2. by rewrite (Hacp Ha), (Hna Hn1 Hn2) in Fs.
  - intros Hn1 Hn2. by rewrite (Hna Hn1 Hn2) in Fo.
  - intros Hm. change (m = 3) in Hm. assert (na = true) as Ena by (unfold na; by rewrite Hm).
    rewrite Ena, Hm in Fo. cbn [negb Z.eqb Pos.eqb andb] in Fo. by rewrite !singleOutputHash_field in Fo.
Qed.

(** ** Witnesses *)

Definition sampleSigHashes : TxSigHashes :=
  mkTxSigHashes zeroHash zeroHash zeroHash zeroHash zeroHash zeroHash zeroHash zeroHash.

Definition sampleSpend : TxIn := mkTxIn (mkOutPoint zeroHash 0) [] [] 7.

Definition sampleSigTx : MsgTx := mkMsgTx 2 [sampleSpend] [mkTxOut 50 [OP_RETURN]] 0.

Lemma wf_sampleSpend : wf_txin sampleSpend.
Proof. repeat split; try discriminate; try reflexivity. constructor. Qed.

Lemma replay_domain_separation_witness :
  exists d1 d2, calcSignatureHashWithReplayProtection [] 0x41 sampleSigTx 0 true = Ok d1 /\
    calcSignatureHashWithReplayProtection [] 0x01 sampleSigTx 0 false = Ok d2 /\
    d1 = DoubleHashB (legacyPreimage [] 0x41 sampleSigTx 0 true) /\
    d2 = DoubleHashB (legacyPreimage [] 0x01 sampleSigTx 0 false) /\
    legacyPreimage [] 0x41 sampleSigTx 0 true <> legacyPreimage [] 0x01 sampleSigTx 0 false.
Proof.
  destruct replay_domain_separation as (H & _). eexists _, _. split; [reflexivity|]. split; [reflexivity|]. apply (H 2).
  - vm_compute. discriminate.
  - by apply obtc_base.
  - by apply bitcoin_base.
Defined.

Lemma single_digest_not_separated_witness :
  calcSignatureHashWithReplayProtection [] 0x43 (mkMsgTx 2 [sampleSpend] [] 0) 0 true
    = calcSignatureHashWithReplayProtection [OP_1] 0x03 (mkMsgTx 1 [sampleSpend] [] 0) 0 false.
Proof. apply single_digest_not_separated; discriminate. Defined.

Lemma wf_sampleSigTx_copy : wf_tx (legacyTxCopy (removeOpcodeRaw [] OP_CODESEPARATOR) 0x41 sampleSigTx 0).
Proof.
  split; cbn -[scriptSlabSize maxTxInPerMessage maxTxOutPerMessage totalScriptSize].
  - split; discriminate || reflexivity.
  - split; discriminate || reflexivity.
  - constructor; [|constructor]. repeat split; try discriminate; try reflexivity. constructor.
  - constructor; [|constructor]. repeat split; try discriminate; try reflexivity.
  - discriminate.
  - discriminate.
  - discriminate.
Qed.

Lemma legacy_sighash_commits_witness :
  spends sampleSigTx = spends sampleSigTx /\ 0x41 = 0x41.
Proof.
  destruct (legacy_sighash_commits [] [] 0x41 0x41 sampleSigTx sampleSigTx 0 true) as (H & _ & _ & _ & Hs & _);
    [split; [discriminate|reflexivity]|split; [discriminate|reflexivity]|reflexivity|reflexivity
    |apply wf_sampleSigTx_copy|apply wf_sampleSigTx_copy|repeat constructor|reflexivity|].
  split; [exact Hs|exact H].
Defined.

(** A signature of type SINGLE | ANYONECANPAY. *)
Lemma witness_sighash_commits_witness :
  (5 : Z) = 5 /\ witnessScriptCode [OP_1] = witnessScriptCode [OP_1] /\ singleOutputHash sampleSigTx 0 = singleOutputHash sampleSigTx 0.
Proof.
  destruct (witness_sighash_commits [OP_1] [OP_1] sampleSigHashes sampleSigHashes 0xc3 0xc3
              sampleSigTx sampleSigTx 0 0 sampleSpend sampleSpend 5 5 true)
    as (_ & _ & _ & _ & _ & Ha & Hc & _ & _ & _ & Ho);
    [split; [discriminate|reflexivity]|split; [discriminate|reflexivity]
    |split_and!; reflexivity|split_and!; reflexivity|apply wf_sampleSpend|apply wf_sampleSpend
    |split; [discriminate|reflexivity]|split; [discriminate|reflexivity]
    |split; [discriminate|reflexivity]|split; [discriminate|reflexivity]|reflexivity|].
  split; [exact Ha|]. split; [exact Hc|]. apply Ho. reflexivity.
Defined.
