(* ===== verification/Signature.v ===== *)
(** * Signatures and public keys

    src/btcec/ecdsa/signature.go (parsing), src/btcec/schnorr (parsing and
    verification), the encoding checks of src/txscript/engine.go and the
    signature cache of src/txscript/sigcache.go.

    The curve itself is github.com/decred/dcrd/dcrec/secp256k1/v4, which the
    packages wrap: its types and operations are the class [Secp256k1], what its
    documentation says of scalars and field elements read from bytes is
    [Secp256k1Laws]. *)

From S2P Require Import Prelude Sha256 Wire Commitment Script ScriptNum Standard SigHash.

(** The group order and the field prime, as src/btcec/modnscalar.go and
    src/btcec/field.go give them. *)
Definition curveN : Z := 0xfffffffffffffffffffffffffffffffebaaedce6af48a03bbfd25e8cd0364141.
Definition fieldP : Z := 0xfffffffffffffffffffffffffffffffffffffffffffffffffffffffefffffc2f.

(** ** The curve library *)

Class Secp256k1 := {
  ModNScalar : Type;
  FieldVal : Type;
  PublicKey : Type;
  JacobianPoint : Type;
  (** Reading big-endian bytes; the flag says the value was reduced. *)
  scalarSetByteSlice : list Z -> ModNScalar * bool;
  fieldSetByteSlice : list Z -> FieldVal * bool;
  scalarIsZero : ModNScalar -> bool;
  scalarNegate : ModNScalar -> ModNScalar;
  fieldBytes : FieldVal -> list Z;
  fieldIsZero : FieldVal -> bool;
  fieldIsOdd : FieldVal -> bool;
  fieldEquals : FieldVal -> FieldVal -> bool;
  ParsePubKey : list Z -> option PublicKey;
  SerializeCompressed : PublicKey -> list Z;
  NewPublicKey : FieldVal -> FieldVal -> PublicKey;
  IsOnCurve : PublicKey -> bool;
  AsJacobian : PublicKey -> JacobianPoint;
  pointX : JacobianPoint -> FieldVal;
  pointY : JacobianPoint -> FieldVal;
  pointZ : JacobianPoint -> FieldVal;
  ToAffine : JacobianPoint -> JacobianPoint;
  ScalarBaseMultNonConst : ModNScalar -> JacobianPoint;
  ScalarMultNonConst : ModNScalar -> JacobianPoint -> JacobianPoint;
  AddNonConst : JacobianPoint -> JacobianPoint -> JacobianPoint;
  (** [secp_ecdsa.Signature.Verify] of the signature (r, s). *)
  ecdsaVerify : ModNScalar -> ModNScalar -> list Z -> PublicKey -> bool }.

Class Secp256k1Laws `(Secp256k1) := {
  (** A scalar is an integer modulo the group order. *)
  scalarValue : ModNScalar -> Z;
  scalarValue_inj a b : scalarValue a = scalarValue b -> a = b;
  scalarSetByteSlice_value bs :
    is_bytes bs -> zlen bs <= 32 -> scalarValue (scalarSetByteSlice bs).1 = be_val bs mod curveN;
  scalarSetByteSlice_overflow bs :
    is_bytes bs -> zlen bs <= 32 -> (scalarSetByteSlice bs).2 = (curveN <=? be_val bs);
  scalarIsZero_value s : scalarIsZero s = (scalarValue s =? 0);
  (** A compressed key is 33 bytes; parsing and serialising are inverse. *)
  SerializeCompressed_length pk : zlen (SerializeCompressed pk) = 33;
  SerializeCompressed_bytes pk : is_bytes (SerializeCompressed pk);
  ParsePubKey_even bs pk :
    is_bytes bs -> zlen bs = 32 -> ParsePubKey (0x02 :: bs) = Some pk ->
    SerializeCompressed pk = 0x02 :: bs;
  ParsePubKey_length bs pk : ParsePubKey bs = Some pk -> zlen bs = 33 \/ zlen bs = 65 }.

Section with_curve.
Context `{Curve : Secp256k1}.

(** ** ECDSA signatures *)

Definition MinSigLen : Z := 8.
Definition MaxSigLen : Z := 72.

(** [canonicalPadding] returns an error. *)
Definition canonicalPaddingFails (b : list Z) : bool :=
  (Z.land (byteAt b 0) 0x80 =? 0x80)
  || ((1 <? zlen b) && (byteAt b 0 =? 0x00) && negb (Z.land (byteAt b 1) 0x80 =? 0x80)).

Fixpoint stripZeros (b : list Z) : list Z :=
  match b with
  | x :: b' => if x =? 0x00 then stripZeros b' else b
  | [] => []
  end.

Definition malformed {A} : result engine_error A := Err (PlainErr "malformed signature").

(** One of R and S: [index] is the offset of its first byte. *)
Definition parseInt (sigStr : list Z) (der : bool) (index len : Z) : result engine_error ModNScalar :=
  let bs := slice (Z.to_nat index) (Z.to_nat (index + len)) sigStr in
  if der && canonicalPaddingFails bs then malformed
  else
    let bs := stripZeros bs in
    if 32 <? zlen bs then malformed
    else
      let '(v, overflow) := scalarSetByteSlice bs in
      if overflow then malformed else if scalarIsZero v then malformed else Ok v.

Definition parseSig (sigStr0 : list Z) (der : bool) : result engine_error (ModNScalar * ModNScalar) :=
  let totalSigLen := zlen sigStr0 in
  if totalSigLen <? MinSigLen then malformed
  else if der && (MaxSigLen <? totalSigLen) then malformed
  else if negb (byteAt sigStr0 0 =? 0x30) then malformed
  else
    let siglen := byteAt sigStr0 1 in
    if (totalSigLen <? u8 (siglen + 2)) || (u8 (siglen + 2) <? MinSigLen) then malformed
    else
      let sigStr := take (Z.to_nat (u8 (siglen + 2))) sigStr0 in
      if negb (byteAt sigStr 2 =? 0x02) then malformed
      else
        let rLen := byteAt sigStr 3 in
        if (rLen <=? 0) || (zlen sigStr - 4 - 3 <? rLen) then malformed
        else
          r ← parseInt sigStr der 4 rLen;
          let index := 4 + rLen in
          if negb (byteAt sigStr (Z.to_nat index) =? 0x02) then malformed
          else
            let sLen := byteAt sigStr (Z.to_nat (index + 1)) in
            let index := index + 2 in
            if (sLen <=? 0) || (zlen sigStr - index <? sLen) then malformed
            else
              s ← parseInt sigStr der index sLen;
              if negb (index + sLen =? zlen sigStr) then malformed else Ok (r, s).

Definition ParseSignature (sigStr : list Z) : result engine_error (ModNScalar * ModNScalar) :=
  parseSig sigStr false.

Definition ParseDERSignature (sigStr : list Z) : result engine_error (ModNScalar * ModNScalar) :=
  parseSig sigStr true.

(** ** Schnorr signatures *)

#[local] Set Warnings "-notation-for-abbreviation".
Notation SignatureSize := 64 (only parsing).

Definition schnorrParseSignature (sig : list Z) : result engine_error (FieldVal * ModNScalar) :=
  if zlen sig <? SignatureSize then Err (PlainErr "malformed signature: too short")
  else if SignatureSize <? zlen sig then Err (PlainErr "malformed signature: too long")
  else
    let '(r, overflow) := fieldSetByteSlice (slice 0 32 sig) in
    if overflow then Err (PlainErr "invalid signature: r >= field prime")
    else
      let '(s, _) := scalarSetByteSlice (slice 32 64 sig) in
      Ok (r, s).

Definition schnorrParsePubKey (pubKeyStr : list Z) : result engine_error PublicKey :=
  if negb (zlen pubKeyStr =? 32) then Err (PlainErr "bad pubkey byte string size")
  else
    match ParsePubKey (0x02 :: pubKeyStr) with
    | Some pk => Ok pk
    | None => Err (PlainErr "invalid public key")
    end.

Definition SerializePubKey (pub : PublicKey) : list Z := drop 1 (SerializeCompressed pub).

Definition TagBIP0340Challenge : list Z := string_bytes "BIP0340/challenge".

Definition schnorrVerify (sig : FieldVal * ModNScalar) (hash pubKeyBytes : list Z) : bool :=
  if negb (zlen hash =? 32) then false
  else
    match schnorrParsePubKey pubKeyBytes with
    | Err _ => false
    | Ok pubKey =>
        if negb (IsOnCurve pubKey) then false
        else
          let commitment := TaggedHash TagBIP0340Challenge
                              [fieldBytes sig.1; SerializePubKey pubKey; hash] in
          let e := scalarNegate (scalarSetByteSlice commitment).1 in
          let sG := ScalarBaseMultNonConst sig.2 in
          let eP := ScalarMultNonConst e (AsJacobian pubKey) in
          let R := AddNonConst sG eP in
          if (fieldIsZero (pointX R) && fieldIsZero (pointY R)) || fieldIsZero (pointZ R) then false
          else
            let R := ToAffine R in
            if fieldIsOdd (pointY R) then false else fieldEquals sig.1 (pointX R)
    end.

(** [Signature.Verify]. *)
Definition schnorrSigVerify (sig : FieldVal * ModNScalar) (hash : list Z) (pubKey : PublicKey) : bool :=
  schnorrVerify sig hash (SerializePubKey pubKey).

End with_curve.

(** ** Strict encodings *)

Definition halfOrder : Z := Z.shiftr curveN 1.

(** [btcec.IsCompressedPubKey]. *)
Definition IsCompressedPubKey (pubKey : list Z) : bool :=
  (zlen pubKey =? 33) && (Z.ldiff (byteAt pubKey 0) 0x1 =? 0x2).

(** [checkSignatureEncoding], past the flags that switch it on. [lowS] is the
    low S flag. *)
Definition checkSignatureFormat (sig : list Z) (lowS : bool) : option script_error :=
  let at_ i := byteAt sig (Z.to_nat i) in
  let sigLen := zlen sig in
  if sigLen <? 8 then Some ErrSigTooShort
  else if 72 <? sigLen then Some ErrSigTooLong
  else if negb (at_ 0 =? 0x30) then Some ErrSigInvalidSeqID
  else if negb (at_ 1 =? sigLen - 2) then Some ErrSigInvalidDataLen
  else
    let rLen := at_ 3 in
    let sTypeOffset := 4 + rLen in
    let sLenOffset := sTypeOffset + 1 in
    if sigLen <=? sTypeOffset then Some ErrSigMissingSTypeID
    else if sigLen <=? sLenOffset then Some ErrSigMissingSLen
    else
      let sOffset := sLenOffset + 1 in
      let sLen := at_ sLenOffset in
      if negb (sOffset + sLen =? sigLen) then Some ErrSigInvalidSLen
      else if negb (at_ 2 =? 0x02) then Some ErrSigInvalidRIntID
      else if rLen =? 0 then Some ErrSigZeroRLen
      else if negb (Z.land (at_ 4) 0x80 =? 0) then Some ErrSigNegativeR
      else if (1 <? rLen) && (at_ 4 =? 0x00) && (Z.land (at_ 5) 0x80 =? 0)
      then Some ErrSigTooMuchRPadding
      else if negb (at_ sTypeOffset =? 0x02) then Some ErrSigInvalidSIntID
      else if sLen =? 0 then Some ErrSigZeroSLen
      else if negb (Z.land (at_ sOffset) 0x80 =? 0) then Some ErrSigNegativeS
      else if (1 <? sLen) && (at_ sOffset =? 0x00) && (Z.land (at_ (sOffset + 1)) 0x80 =? 0)
      then Some ErrSigTooMuchSPadding
      else if lowS
              && (halfOrder <? be_val (slice (Z.to_nat sOffset) (Z.to_nat (sOffset + sLen)) sig))
      then Some ErrSigHighS
      else None.

(** ** The signature cache *)

Record sigCacheEntry := mkSigCacheEntry { sce_sig : list Z; sce_pubKey : list Z }.

Record SigCache := mkSigCache { validSigs : gmap (list Z) sigCacheEntry; maxEntries : Z }.

Definition SigCacheExists (s : SigCache) (sigHash sig pubKey : list Z) : bool :=
  match validSigs s !! sigHash with
  | Some entry => bool_decide (sce_pubKey entry = pubKey) && bool_decide (sce_sig entry = sig)
  | None => false
  end.

(** [pick] is the entry the iteration over the map meets first. *)
Definition SigCacheAdd (pick : gmap (list Z) sigCacheEntry -> list Z) (s : SigCache)
    (sigHash sig pubKey : list Z) : SigCache :=
  if maxEntries s <=? 0 then s
  else
    let kept :=
      if maxEntries s <? Z.of_nat (size (validSigs s)) + 1
      then base.delete (pick (validSigs s)) (validSigs s) else validSigs s in
    mkSigCache (<[sigHash := mkSigCacheEntry sig pubKey]> kept) (maxEntries s).

(** ** Strict DER *)

(** A positive integer in its shortest big-endian form. *)
Definition derInt (b : list Z) : Prop :=
  match b with
  | [] => False
  | [x] => x < 128
  | x :: y :: _ => x < 128 /\ (x = 0 -> 128 <= y)
  end.

Definition derEncode (R S : list Z) : list Z :=
  0x30 :: (zlen R + zlen S + 4) :: 0x02 :: zlen R :: R ++ 0x02 :: zlen S :: S.

Lemma byteAt_app_l (a b : list Z) i : (i < length a)%nat -> byteAt (a ++ b) i = byteAt a i.
Proof. intros H. unfold byteAt. by apply app_nth1. Qed.

Lemma byteAt_app_r (a b : list Z) i : byteAt (a ++ b) (length a + i) = byteAt b i.
Proof. unfold byteAt. rewrite app_nth2 by lia. f_equal. lia. Qed.

Lemma split_at_byte (l : list Z) i : (i < length l)%nat -> l = take i l ++ byteAt l i :: drop (S i) l.
Proof.
  intros H. unfold byteAt. rewrite <- (take_drop i l) at 1. f_equal.
  destruct (drop i l) as [|x r] eqn:E.
  { apply (f_equal length) in E. rewrite length_drop in E. cbn in E. lia. }
  assert (l !! i = Some x) as Hx by (rewrite <- (Nat.add_0_r i), <- lookup_drop, E; done).
  rewrite (nth_lookup_Some _ _ _ _ Hx). f_equal.
  replace (S i) with (i + 1)%nat by lia. by rewrite <- drop_drop, E.
Qed.

Lemma derInt_of_bytes b :
  is_bytes b -> b <> [] -> Z.land (byteAt b 0) 0x80 = 0 ->
  ~ (1 < zlen b /\ byteAt b 0 = 0 /\ Z.land (byteAt b 1) 0x80 = 0) -> derInt b.
Proof.
  intros Hb Hne H0 H1. destruct b as [|x [|y b]]; [done| |]; apply Forall_cons_1 in Hb as [Hx Hb]; cbn in H0.
  - pose proof (byte_land_80 x Hx) as E. cbn. rewrite H0 in E. cbn in E. lia.
  - apply Forall_cons_1 in Hb as [Hy _]. pose proof (byte_land_80 x Hx) as E. rewrite H0 in E. cbn in E.
    cbn. split; [lia|]. intros ->. destruct (decide (128 <= y)); [done|]. exfalso. apply H1.
    rewrite !zlen_cons. pose proof (zlen_nonneg b). split; [lia|]. split; [done|]. cbn.
    pose proof (byte_land_80 y Hy) as Ey. destruct (Z.ltb_spec y 128); [|lia]. lia.
Qed.

Lemma at4 (b0 b1 b2 b3 : Z) rest k :
  0 <= k -> byteAt (b0 :: b1 :: b2 :: b3 :: rest) (Z.to_nat (4 + k)) = byteAt rest (Z.to_nat k).
Proof. intros Hk. replace (Z.to_nat (4 + k)) with (4 + Z.to_nat k)%nat by lia. done. Qed.

Lemma byteAt_in l i : is_bytes l -> (i < length l)%nat -> is_u8 (byteAt l i).
Proof.
  intros Hl Hi. unfold byteAt. destruct (lookup_lt_is_Some_2 l i Hi) as [x Hx].
  rewrite (nth_lookup_Some _ _ _ _ Hx). by apply (Forall_lookup_1 _ _ _ _ Hl Hx).
Qed.

(** The bytes after the header, cut at the lengths of R and S. *)
Lemma cut_rest rest rLen :
  0 <= rLen -> rLen + 2 <= zlen rest ->
  exists R S, rest = R ++ byteAt rest (Z.to_nat rLen) :: byteAt rest (Z.to_nat (rLen + 1)) :: S /\
    zlen R = rLen /\ zlen S = zlen rest - rLen - 2.
Proof.
  intros H0 Hl. unfold zlen in *. set (n := Z.to_nat rLen).
  exists (take n rest), (drop (n + 2) rest). split_and!; [|rewrite length_take; lia|rewrite length_drop; lia].
  rewrite (split_at_byte rest n) at 1 by lia.
  rewrite (split_at_byte (drop (S n) rest) 0) at 1 by (rewrite length_drop; lia).
  cbn [take app]. rewrite drop_drop. replace (S n + 1)%nat with (n + 2)%nat by lia.
  assert (byteAt (drop (S n) rest) 0 = byteAt rest (Z.to_nat (rLen + 1))) as ->; [|done].
  unfold byteAt. rewrite nth_skipn. f_equal. lia.
Qed.

(** Where the parts of a signature cut that way are. *)
Lemma at_parts (b0 b1 b2 b3 t l : Z) R S :
  zlen R = b3 -> let sig := b0 :: b1 :: b2 :: b3 :: R ++ t :: l :: S in
  (forall i, 0 <= i < b3 -> byteAt sig (Z.to_nat (4 + i)) = byteAt R (Z.to_nat i)) /\
  byteAt sig (Z.to_nat (4 + b3)) = t /\ byteAt sig (Z.to_nat (4 + b3 + 1)) = l /\
  (forall i, 0 <= i -> byteAt sig (Z.to_nat (4 + b3 + 2 + i)) = byteAt S (Z.to_nat i)) /\
  drop (Z.to_nat (4 + b3 + 2)) sig = S.
Proof.
  intros HR sig. unfold zlen in HR.
  assert (Hd : forall i, 0 <= i -> byteAt sig (Z.to_nat (4 + b3 + i)) = byteAt (t :: l :: S) (Z.to_nat i)).
  { intros i Hi. unfold sig. replace (4 + b3 + i) with (4 + (b3 + i)) by lia. rewrite at4 by lia.
    replace (Z.to_nat (b3 + i)) with (length R + Z.to_nat i)%nat by lia. apply byteAt_app_r. }
  split_and!.
  - intros i Hi. unfold sig. rewrite at4 by lia. apply byteAt_app_l. lia.
  - replace (4 + b3) with (4 + b3 + 0) by lia. by rewrite Hd.
  - by rewrite Hd.
  - intros i Hi. replace (4 + b3 + 2 + i) with (4 + b3 + (2 + i)) by lia. rewrite Hd by lia.
    replace (Z.to_nat (2 + i)) with (2 + Z.to_nat i)%nat by lia. done.
  - unfold sig. replace (Z.to_nat (4 + b3 + 2)) with (4 + (length R + 2))%nat by lia.
    change (drop (length R + 2) (R ++ t :: l :: S) = S). rewrite drop_app_ge by lia. by replace (length R + 2 - length R)%nat with 2%nat by lia.
Qed.

Lemma strict_der_form sig lowS :
  is_bytes sig -> checkSignatureFormat sig lowS = None ->
  exists R S, sig = derEncode R S /\ derInt R /\ derInt S /\ is_bytes R /\ is_bytes S /\
    8 <= zlen sig <= 72 /\ (lowS = true -> be_val S <= halfOrder).
Proof.
  intros Hb. unfold checkSignatureFormat. cbv zeta. remember (zlen sig) as n eqn:Hn.
  destruct (Z.ltb_spec n 8); [discriminate|]. destruct (Z.ltb_spec 72 n); [discriminate|].
  destruct sig as [|b0 [|b1 [|b2 [|b3 rest]]]]; [unfold zlen in *; cbn in *; lia..|].
  rewrite !zlen_cons in Hn.
  change (byteAt (b0 :: _) (Z.to_nat 0)) with b0. change (byteAt (b0 :: _) (Z.to_nat 1)) with b1.
  change (byteAt (b0 :: _) (Z.to_nat 2)) with b2. change (byteAt (b0 :: _) (Z.to_nat 3)) with b3.
  assert (0 <= b3) as Hb3.
  { apply Forall_lookup_1 with (i := 3%nat) (x := b3) in Hb; [apply Hb|done]. }
  destruct (Z.eqb_spec b0 0x30) as [->|]; [|discriminate].
  destruct (Z.eqb_spec b1 (n - 2)) as [->|]; [|discriminate]. cbn [negb].
  destruct (Z.leb_spec n (4 + b3)); [discriminate|]. destruct (Z.leb_spec n (4 + b3 + 1)); [discriminate|].
  destruct (cut_rest rest b3 Hb3 ltac:(lia)) as (R & S & Hr & HR & HS).
  set (t := byteAt rest _) in Hr. set (l := byteAt rest _) in Hr. clearbody t l. subst rest.
  destruct (at_parts 0x30 (n - 2) b2 b3 t l R S HR) as (PR & Pt & Pl & PS & PD). cbv zeta in *.
  rewrite Pt, Pl. pose proof Hb as Hb'. do 4 apply Forall_cons_1 in Hb' as [_ Hb'].
  apply Forall_app in Hb' as [HbR Hb']. do 2 apply Forall_cons_1 in Hb' as [_ Hb'].
  rewrite zlen_app, !zlen_cons, HR in Hn.
  destruct (Z.eqb_spec (4 + b3 + 1 + 1 + l) n) as [Hl|]; [|discriminate]. cbn [negb].
  assert (zlen S = l) as HSl by lia.
  destruct (Z.eqb_spec b2 0x02) as [->|]; [|discriminate]. cbn [negb].
  destruct (Z.eqb_spec b3 0) as [|Hb30]; [discriminate|].
  change (Z.to_nat 4) with (Z.to_nat (4 + 0)). rewrite (PR 0) by lia.
  replace (4 + b3 + 1 + 1) with (4 + b3 + 2 + 0) by lia.
  replace (4 + b3 + 2 + 0 + 1) with (4 + b3 + 2 + 1) by lia. rewrite (PS 0), (PS 1) by lia.
  destruct (Z.eqb_spec (Z.land (byteAt R (Z.to_nat 0)) 0x80) 0) as [HR0|]; [|discriminate]. cbn [negb].
  intros Hc. assert (~ (1 < zlen R /\ byteAt R 0 = 0 /\ Z.land (byteAt R 1) 0x80 = 0)) as HR1.
  { intros (G1 & G2 & G3). rewrite HR in G1. change (Z.to_nat 5) with (Z.to_nat (4 + 1)) in Hc.
    rewrite (PR 1) in Hc by lia. change (Z.to_nat 0) with 0%nat in Hc. change (Z.to_nat 1) with 1%nat in Hc.
    rewrite G2, G3 in Hc. destruct (Z.ltb_spec 1 b3); [discriminate Hc|lia]. }
  destruct (_ && _) in Hc; [discriminate|].
  destruct (Z.eqb_spec t 0x02) as [->|]; [|discriminate]. cbn [negb] in Hc.
  destruct (Z.eqb_spec l 0) as [|Hl0]; [discriminate|].
  destruct (Z.eqb_spec (Z.land (byteAt S (Z.to_nat 0)) 0x80) 0) as [HS0|]; [|discriminate]. cbn [negb] in Hc.
  assert (~ (1 < zlen S /\ byteAt S 0 = 0 /\ Z.land (byteAt S 1) 0x80 = 0)) as HS1.
  { intros (G1 & G2 & G3). change (Z.to_nat 0) with 0%nat in Hc. change (Z.to_nat 1) with 1%nat in Hc.
    rewrite G2, G3 in Hc. destruct (Z.ltb_spec 1 l); [discriminate Hc|lia]. }
  destruct (_ && _) in Hc; [discriminate|].
  exists R, S. split_and!; [| | |done|done|done|done|].
  - unfold derEncode. rewrite HR, HSl. do 2 f_equal. lia.
  - apply derInt_of_bytes; [done| |done|done]. intros E. rewrite E in HR. unfold zlen in HR. cbn in HR. lia.
  - apply derInt_of_bytes; [done| |done|done]. intros E. rewrite E in HSl. unfold zlen in HSl. cbn in HSl. lia.
  - intros ->. cbn [andb] in Hc. destruct (Z.ltb_spec halfOrder (be_val (slice (Z.to_nat (4 + b3 + 2 + 0))
      (Z.to_nat (4 + b3 + 2 + 0 + l)) (0x30 :: n - 2 :: 2 :: b3 :: R ++ 2 :: l :: S)))) as [|Hle]; [discriminate|].
    unfold slice in Hle. rewrite Z.add_0_r, PD, take_ge in Hle; [done|]. unfold zlen in HSl. lia.
Qed.

Section parsing.
Context `{Curve : Secp256k1}.

(** Reading one of R and S once its padding is known to be canonical. *)
Definition scalarOf (b : list Z) : result engine_error ModNScalar :=
  let bs := stripZeros b in
  if 32 <? zlen bs then malformed
  else
    let '(v, overflow) := scalarSetByteSlice bs in
    if overflow then malformed else if scalarIsZero v then malformed else Ok v.

Lemma derInt_canonical b : is_bytes b -> derInt b -> canonicalPaddingFails b = false.
Proof.
  assert (H80 : forall x, is_u8 x -> (Z.land x 0x80 =? 0x80) = negb (x <? 128)).
  { intros x Hx. apply eqb_prop. revert x Hx.
    apply (byte_forall (fun x => eqb (Z.land x 0x80 =? 0x80) (negb (x <? 128)))). reflexivity. }
  destruct b as [|x [|y b]]; [done| |]; intros Hb Hd; apply Forall_cons_1 in Hb as [Hx Hb];
    unfold canonicalPaddingFails, byteAt; cbn [nth derInt] in *; rewrite H80 by done.
  - destruct (Z.ltb_spec x 128); [|lia]. reflexivity.
  - apply Forall_cons_1 in Hb as [Hy _]. destruct Hd as [Hx8 Hy8]. rewrite H80 by done.
    destruct (Z.ltb_spec x 128); [|lia]. cbn [negb orb]. rewrite !zlen_cons.
    destruct (Z.eqb_spec x 0) as [->|]; [|by rewrite andb_false_r].
    destruct (Z.ltb_spec y 128); [specialize (Hy8 eq_refl); lia|]. cbn [negb]. by rewrite andb_false_r.
Qed.

Lemma parseInt_der sig b index :
  slice (Z.to_nat index) (Z.to_nat (index + zlen b)) sig = b -> is_bytes b -> derInt b ->
  parseInt sig true index (zlen b) = scalarOf b.
Proof. intros Hs Hb Hd. unfold parseInt. rewrite Hs, derInt_canonical by done. done. Qed.

Lemma derInt_length b : derInt b -> 1 <= zlen b.
Proof. destruct b; [done|]. intros _. rewrite zlen_cons. pose proof (zlen_nonneg b). lia. Qed.

Lemma zlen_derEncode R S : zlen (derEncode R S) = zlen R + zlen S + 6.
Proof. unfold derEncode. rewrite !zlen_cons, zlen_app, !zlen_cons. lia. Qed.

Lemma parse_derEncode R S :
  is_bytes R -> is_bytes S -> derInt R -> derInt S -> zlen (derEncode R S) <= 72 ->
  ParseDERSignature (derEncode R S) = r ← scalarOf R; s ← scalarOf S; Ok (r, s).
Proof.
  intros HbR HbS HR HS Hlen. pose proof (derInt_length R HR) as HlR. pose proof (derInt_length S HS) as HlS.
  pose proof (zlen_derEncode R S) as Hz.
  destruct (at_parts 0x30 (zlen R + zlen S + 4) 0x02 (zlen R) 0x02 (zlen S) R S eq_refl) as (_ & Pt & Pl & _ & PD).
  fold (derEncode R S) in Pt, Pl, PD. unfold ParseDERSignature, parseSig, MinSigLen, MaxSigLen. cbv zeta.
  set (sig := derEncode R S) in *.
  destruct (Z.ltb_spec (zlen sig) 8); [lia|]. destruct (Z.ltb_spec 72 (zlen sig)); [lia|].
  change (byteAt sig 0) with 0x30. change (byteAt sig 1) with (zlen R + zlen S + 4). cbn [andb negb Z.eqb Pos.eqb].
  replace (u8 (zlen R + zlen S + 4 + 2)) with (zlen sig) by (unfold u8; rewrite Z.mod_small; lia).
  destruct (Z.ltb_spec (zlen sig) (zlen sig)); [lia|]. destruct (Z.ltb_spec (zlen sig) 8); [lia|]. cbn [orb].
  rewrite take_ge by (unfold zlen; lia).
  change (byteAt sig 2) with 0x02. change (byteAt sig 3) with (zlen R). cbn [negb Z.eqb Pos.eqb].
  destruct (Z.leb_spec (zlen R) 0); [lia|]. destruct (Z.ltb_spec (zlen sig - 4 - 3) (zlen R)); [lia|]. cbn [orb].
  rewrite parseInt_der; [| |done|done].
  2: { unfold slice. replace (Z.to_nat (4 + zlen R) - Z.to_nat 4)%nat with (length R) by (unfold zlen; lia).
       change (take (length R) (R ++ 0x02 :: zlen S :: S) = R). apply take_app_length. }
  destruct (scalarOf R) as [r|e]; result_simpl; [|done].
  rewrite Pt, Pl. cbn [negb Z.eqb Pos.eqb].
  destruct (Z.leb_spec (zlen S) 0); [lia|].
  destruct (Z.ltb_spec (zlen sig - (4 + zlen R + 2)) (zlen S)); [lia|]. cbn [orb].
  rewrite parseInt_der; [| |done|done].
  2: { unfold slice. rewrite PD. apply take_ge. unfold zlen. lia. }
  destruct (scalarOf S) as [s|e]; result_simpl; [|done].
  destruct (Z.eqb_spec (4 + zlen R + 2 + zlen S) (zlen sig)); [done|lia].
Qed.

(** A signature that parses strictly parses to the same values leniently. *)
Lemma ParseDERSignature_lax sig rs : ParseDERSignature sig = Ok rs -> ParseSignature sig = Ok rs.
Proof.
  assert (Hint : forall sigStr start len v, parseInt sigStr true start len = Ok v -> parseInt sigStr false start len = Ok v).
  { intros sigStr start len v. unfold parseInt. cbv zeta. cbn [andb]. destruct (canonicalPaddingFails _); [discriminate|exact id]. }
  unfold ParseDERSignature, ParseSignature, parseSig. cbv zeta. cbn [andb].
  destruct (_ <? _); [discriminate|]. destruct (_ <? _); [discriminate|]. 
  repeat match goal with |- (if ?c then malformed else _) = _ -> _ => destruct c; [discriminate|] end.
  destruct (parseInt _ true 4 _) as [r|] eqn:Er; [|discriminate]. rewrite (Hint _ _ _ _ Er). clear Er. result_simpl.
  repeat match goal with |- (if ?c then malformed else _) = _ -> _ => destruct c; [discriminate|] end.
  destruct (parseInt _ true _ _) as [v|] eqn:Es; [|discriminate]. rewrite (Hint _ _ _ _ Es). exact id.
Qed.

(** ** One encoding for each signature *)

Context `{Laws : !Secp256k1Laws Curve}.

Lemma be_val_stripZeros b : be_val (stripZeros b) = be_val b.
Proof.
  induction b as [|x b IH]; [done|]. cbn [stripZeros]. destruct (Z.eqb_spec x 0) as [->|]; [|done].
  rewrite IH. unfold be_val. rewrite reverse_cons, le_val_app. cbn [le_val]. lia.
Qed.

Lemma is_bytes_stripZeros b : is_bytes b -> is_bytes (stripZeros b).
Proof.
  induction 1 as [|x b Hx Hb IH]; [constructor|]. cbn [stripZeros].
  destruct (x =? 0); [done|by constructor].
Qed.

Lemma scalarOf_value b v : is_bytes b -> scalarOf b = Ok v -> scalarValue v = be_val b /\ 0 < be_val b.
Proof.
  intros Hb. unfold scalarOf. cbv zeta. destruct (Z.ltb_spec 32 (zlen (stripZeros b))); [done|].
  pose proof (is_bytes_stripZeros b Hb) as Hb'.
  pose proof (scalarSetByteSlice_value (stripZeros b) Hb' ltac:(lia)) as Hv.
  pose proof (scalarSetByteSlice_overflow (stripZeros b) Hb' ltac:(lia)) as Ho.
  destruct (scalarSetByteSlice (stripZeros b)) as [w o]. cbn [fst snd] in Hv, Ho. subst o.
  destruct (Z.leb_spec curveN (be_val (stripZeros b))); [done|]. rewrite scalarIsZero_value.
  destruct (Z.eqb_spec (scalarValue w) 0); [done|]. intros [= <-].
  assert (0 <= be_val (stripZeros b)).
  { unfold be_val. apply le_val_range. by apply Forall_reverse. }
  rewrite Z.mod_small in Hv by lia. rewrite be_val_stripZeros in *. lia.
Qed.

(** The shortest form is determined by the value. *)
Lemma stripZeros_unique a b :
  is_bytes a -> is_bytes b -> be_val a = be_val b -> stripZeros a = stripZeros b.
Proof.
  intros Ha Hb Hv. rewrite <- (be_val_stripZeros a), <- (be_val_stripZeros b) in Hv.
  assert (Hlast : forall c, last (reverse (stripZeros c)) <> Some 0).
  { intros c. rewrite <- head_reverse, reverse_involutive. induction c as [|x c IH]; [done|].
    cbn [stripZeros]. destruct (Z.eqb_spec x 0); [done|]. cbn. congruence. }
  set (n := (length (stripZeros a) + length (stripZeros b))%nat).
  assert (Hu : forall c, is_bytes c -> (length (stripZeros c) <= n)%nat ->
             littleEndian n (be_val (stripZeros c)) = reverse (stripZeros c)).
  { intros c Hc Hl. unfold be_val. apply littleEndian_unique; [|apply Hlast|by rewrite length_reverse].
    apply Forall_reverse. by apply is_bytes_stripZeros. }
  assert (reverse (stripZeros a) = reverse (stripZeros b)) as E.
  { rewrite <- (Hu a), <- (Hu b) by (done || lia). by rewrite Hv. }
  apply (f_equal reverse) in E. by rewrite !reverse_involutive in E.
Qed.

Lemma derInt_strip b : derInt b ->
  stripZeros b = b \/ (b = 0 :: stripZeros b /\ (stripZeros b = [] \/ exists y r, stripZeros b = y :: r /\ 128 <= y)).
Proof.
  destruct b as [|x [|y b]]; [done| |]; cbn [derInt stripZeros].
  - intros _. destruct (Z.eqb_spec x 0) as [->|]; [right; auto|by left].
  - intros [Hx Hy]. destruct (Z.eqb_spec x 0) as [->|]; [|by left].
    specialize (Hy eq_refl). destruct (Z.eqb_spec y 0) as [->|]; [lia|]. right. split; [done|]. right. eauto.
Qed.

Lemma derInt_unique a b :
  is_bytes a -> is_bytes b -> derInt a -> derInt b -> be_val a = be_val b -> a = b.
Proof.
  intros Ha Hb Hda Hdb Hv. pose proof (stripZeros_unique a b Ha Hb Hv) as Hs.
  destruct (derInt_strip a Hda) as [Ea|[Ea Ca]], (derInt_strip b Hdb) as [Eb|[Eb Cb]]; [congruence| | |congruence].
  - exfalso. rewrite <- Hs, Ea in Cb. destruct Cb as [->|(y & r & -> & Hy)]; [done|].
    destruct r; cbn in Hda; lia.
  - exfalso. rewrite Hs, Eb in Ca. destruct Ca as [->|(y & r & -> & Hy)]; [done|].
    destruct r; cbn in Hdb; lia.
Qed.

(** Under strict DER a signature has one encoding. Two byte strings that
    pass [checkSignatureEncoding] and that [ParseDERSignature] reads as the
    same pair (r, s) are equal, so a third party cannot re-encode a signature;
    with the low S rule neither can it replace s by its negation, as s is at
    most half the group order. *)
Theorem strict_der_unique sig1 sig2 lowS r s :
  is_bytes sig1 -> is_bytes sig2 ->
  checkSignatureFormat sig1 lowS = None -> checkSignatureFormat sig2 lowS = None ->
  ParseDERSignature sig1 = Ok (r, s) -> ParseDERSignature sig2 = Ok (r, s) ->
  sig1 = sig2 /\ 0 < scalarValue r /\ 0 < scalarValue s /\
  (lowS = true -> scalarValue s <= halfOrder).
Proof.
  intros Hb1 Hb2 Hf1 Hf2 Hp1 Hp2.
  destruct (strict_der_form sig1 lowS Hb1 Hf1) as (R1 & S1 & -> & HR1 & HS1 & HbR1 & HbS1 & Hl1 & Hlow).
  destruct (strict_der_form sig2 lowS Hb2 Hf2) as (R2 & S2 & -> & HR2 & HS2 & HbR2 & HbS2 & Hl2 & _).
  rewrite parse_derEncode in Hp1, Hp2 by (done || lia).
  apply result_bind_Ok in Hp1 as (r1 & Hr1 & Hp1). apply result_bind_Ok in Hp1 as (s1 & Hs1 & [= <- <-]).
  apply result_bind_Ok in Hp2 as (r2 & Hr2 & Hp2). apply result_bind_Ok in Hp2 as (s2 & Hs2 & Hp2).
  injection Hp2 as -> ->.
  apply scalarOf_value in Hr1 as [Hr1 Hr0], Hs1 as [Hs1 Hs0], Hr2 as [Hr2 _], Hs2 as [Hs2 _]; [|done..].
  rewrite (derInt_unique R1 R2), (derInt_unique S1 S2) by (done || congruence).
  split; [done|]. rewrite Hr1, Hs1. auto.
Qed.

Lemma slice_halves (a b : list Z) :
  length a = 32%nat -> length b = 32%nat -> slice 0 32 (a ++ b) = a /\ slice 32 64 (a ++ b) = b.
Proof.
  intros Ha Hb. unfold slice. split.
  - change (32 - 0)%nat with 32%nat. rewrite drop_0. by apply take_app_length'.
  - change (64 - 32)%nat with 32%nat. rewrite drop_app_length' by done. apply take_ge. lia.
Qed.

(** [schnorr.ParseSignature] does not check the range of s, although its
    comment says so: a second half that encodes s + n is read as s. For every
    first half and every s with s + n below 2^256, the two different byte strings
    parse to the same signature (or are both refused for their r), so both
    verify or neither does. *)
Theorem schnorr_s_not_range_checked (rb : list Z) v :
  length rb = 32%nat -> 0 <= v -> v + curveN < 2^256 ->
  be_bytes 32 v <> be_bytes 32 (v + curveN) /\
  schnorrParseSignature (rb ++ be_bytes 32 (v + curveN)) = schnorrParseSignature (rb ++ be_bytes 32 v).
Proof.
  intros Hr Hv Hlt. assert (HN : 0 < curveN < 2^256) by done.
  assert (Hpow : pow256 32 = 2^256) by reflexivity. split.
  - intros E. apply (f_equal be_val) in E. rewrite !be_val_be_bytes, Hpow, !Z.mod_small in E by lia. lia.
  - unfold schnorrParseSignature.
    assert (Hz : forall w, zlen (rb ++ be_bytes 32 w) = 64).
    { intros w. unfold zlen. rewrite length_app, length_be_bytes, Hr. reflexivity. }
    rewrite !Hz. change (64 <? 64) with false. cbv iota.
    destruct (slice_halves rb (be_bytes 32 v) Hr (length_be_bytes _ _)) as [-> ->].
    destruct (slice_halves rb (be_bytes 32 (v + curveN)) Hr (length_be_bytes _ _)) as [-> ->].
    assert (Hs : (scalarSetByteSlice (be_bytes 32 (v + curveN))).1 = (scalarSetByteSlice (be_bytes 32 v)).1).
    { apply scalarValue_inj. rewrite !scalarSetByteSlice_value;
        [|apply be_bytes_is_bytes|unfold zlen; rewrite length_be_bytes; done
         |apply be_bytes_is_bytes|unfold zlen; rewrite length_be_bytes; done].
      rewrite !be_val_be_bytes, Hpow, !(Z.mod_small _ (2^256)) by lia.
      replace (v + curveN) with (v + 1 * curveN) by lia. apply Z.mod_add. lia. }
    destruct (fieldSetByteSlice rb) as [r o]. destruct o; [reflexivity|].
    destruct (scalarSetByteSlice (be_bytes 32 (v + curveN))) as [s1 o1].
    destruct (scalarSetByteSlice (be_bytes 32 v)) as [s2 o2]. cbn in Hs. by rewrite Hs.
Qed.
End parsing.

(** ** The cache holds valid signatures *)

(** [valid hash sig key]: the signature verifies. *)
Definition sound (valid : list Z -> list Z -> list Z -> Prop) (s : SigCache) : Prop :=
  map_Forall (fun hash e => valid hash (sce_sig e) (sce_pubKey e)) (validSigs s).

Lemma SigCacheExists_sound valid s hash sig key :
  sound valid s -> SigCacheExists s hash sig key = true -> valid hash sig key.
Proof.
  intros Hs. unfold SigCacheExists. destruct (validSigs s !! hash) as [e|] eqn:E; [|done].
  rewrite andb_true_iff, !bool_decide_eq_true. intros [<- <-]. by apply (Hs hash e).
Qed.

Lemma SigCacheAdd_sound valid pick s hash sig key :
  sound valid s -> valid hash sig key -> sound valid (SigCacheAdd pick s hash sig key).
Proof.
  intros Hs Hv. unfold SigCacheAdd. destruct (maxEntries s <=? 0); [done|].
  unfold sound. cbn [validSigs]. apply map_Forall_insert_2; [done|].
  destruct (_ <? _); [|done]. by apply map_Forall_delete.
Qed.

Lemma SigCacheAdd_bounded pick s hash sig key :
  (forall m, m <> ∅ -> is_Some (m !! pick m)) ->
  Z.of_nat (size (validSigs s)) <= Z.max 0 (maxEntries s) ->
  Z.of_nat (size (validSigs (SigCacheAdd pick s hash sig key))) <= Z.max 0 (maxEntries s).
Proof.
  intros Hpick Hs. unfold SigCacheAdd. destruct (Z.leb_spec (maxEntries s) 0); [done|]. cbn [validSigs].
  assert (Hins : forall m : gmap (list Z) sigCacheEntry, (size (<[hash:=mkSigCacheEntry sig key]> m) <= S (size m))%nat).
  { intros m. destruct (m !! hash) eqn:E; [rewrite map_size_insert_Some by (rewrite E; eauto); lia|].
    rewrite map_size_insert_None by done. lia. }
  destruct (Z.ltb_spec (maxEntries s) (Z.of_nat (size (validSigs s)) + 1)).
  - destruct (Hpick (validSigs s)) as [e He].
    { intros E. rewrite E, map_size_empty in *. cbn in *. lia. }
    pose proof (Hins (base.delete (pick (validSigs s)) (validSigs s))) as H1.
    rewrite map_size_delete_Some in H1 by (rewrite He; eauto).
    assert (0 < size (validSigs s))%nat by (apply Nat.neq_0_lt_0; rewrite map_size_non_empty_iff; intros E; by rewrite E, lookup_empty in He).
    lia.
  - pose proof (Hins (validSigs s)). lia.
Qed.

(** ** The curve secp256k1, as an instance

    y^2 = x^3 + 7 over the field of [fieldP], in Jacobian coordinates, with the
    point at infinity as Z = 0. It instantiates the class in the examples. *)

Definition fpow (a e : Z) : Z :=
  match e with
  | Zpos p => Pos.iter_op (fun x y => (x * y) mod fieldP) p a
  | _ => 1
  end.

Definition finv (a : Z) : Z := fpow a (fieldP - 2).

Definition pointDouble (P : Z * Z * Z) : Z * Z * Z :=
  let '(X, Y, Z1) := P in
  if (Z1 =? 0) || (Y =? 0) then (0, 0, 0)
  else
    let S := (4 * X * Y * Y) mod fieldP in
    let M := (3 * X * X) mod fieldP in
    let X3 := (M * M - 2 * S) mod fieldP in
    (X3, (M * (S - X3) - 8 * (Y * Y mod fieldP) * (Y * Y mod fieldP)) mod fieldP, (2 * Y * Z1) mod fieldP).

Definition pointAdd (P Q : Z * Z * Z) : Z * Z * Z :=
  let '(X1, Y1, Z1) := P in
  let '(X2, Y2, Z2) := Q in
  if Z1 =? 0 then Q
  else if Z2 =? 0 then P
  else
    let U1 := (X1 * (Z2 * Z2 mod fieldP)) mod fieldP in
    let U2 := (X2 * (Z1 * Z1 mod fieldP)) mod fieldP in
    let S1 := (Y1 * Z2 * (Z2 * Z2 mod fieldP)) mod fieldP in
    let S2 := (Y2 * Z1 * (Z1 * Z1 mod fieldP)) mod fieldP in
    if U1 =? U2 then if S1 =? S2 then pointDouble P else (0, 0, 0)
    else
      let H := (U2 - U1) mod fieldP in
      let R := (S2 - S1) mod fieldP in
      let H2 := (H * H) mod fieldP in
      let H3 := (H * H2) mod fieldP in
      let X3 := (R * R - H3 - 2 * U1 * H2) mod fieldP in
      (X3, (R * (U1 * H2 - X3) - S1 * H3) mod fieldP, (H * Z1 * Z2) mod fieldP).

Fixpoint pointMul (k : positive) (P : Z * Z * Z) : Z * Z * Z :=
  match k with
  | xH => P
  | xO k' => pointMul k' (pointDouble P)
  | xI k' => pointAdd P (pointMul k' (pointDouble P))
  end.

Definition scalarMul (k : Z) (P : Z * Z * Z) : Z * Z * Z :=
  match k with Zpos p => pointMul p P | _ => (0, 0, 0) end.

Definition generator : Z * Z * Z :=
  (0x79be667ef9dcbbac55a06295ce870b07029bfcdb2dce28d959f2815b16f81798,
   0x483ada7726a3c4655da4fbfc0e1108a8fd17b448a68554199c47d08ffb10d4b8, 1).

Definition affine (P : Z * Z * Z) : Z * Z * Z :=
  let '(X, Y, Z1) := P in
  if Z1 =? 0 then (0, 0, 0)
  else
    let i := finv Z1 in
    let i2 := (i * i) mod fieldP in
    ((X * i2) mod fieldP, (Y * (i2 * i mod fieldP)) mod fieldP, 1).

Definition liftPoint (x : Z) (odd : bool) : option (Z * Z) :=
  let rhs := (x * x * x + 7) mod fieldP in
  let y := fpow rhs ((fieldP + 1) / 4) in
  if negb ((y * y) mod fieldP =? rhs) then None
  else Some (x, if eqb (Z.odd y) odd then y else fieldP - y).

Definition parsePoint (bs : list Z) : option (Z * Z) :=
  match bs with
  | f :: rest =>
      if (zlen rest =? 32) && ((f =? 2) || (f =? 3)) then
        let x := be_val rest in if fieldP <=? x then None else liftPoint x (f =? 3)
      else if (zlen rest =? 64) && ((f =? 4) || (f =? 6) || (f =? 7)) then
        let x := be_val (take 32 rest) in
        let y := be_val (drop 32 rest) in
        if (fieldP <=? x) || (fieldP <=? y) || negb ((y * y) mod fieldP =? (x * x * x + 7) mod fieldP)
           || ((f =? 6) && Z.odd y) || ((f =? 7) && negb (Z.odd y))
        then None else Some (x, y)
      else None
  | [] => None
  end.

Definition ninv (a : Z) : Z :=
  match curveN - 2 with
  | Zpos p => Pos.iter_op (fun x y => (x * y) mod curveN) p a
  | _ => 1
  end.

#[export] Instance secp256k1 : Secp256k1 := {|
  ModNScalar := Z;
  FieldVal := Z;
  PublicKey := Z * Z;
  JacobianPoint := Z * Z * Z;
  scalarSetByteSlice bs := (be_val bs mod curveN, curveN <=? be_val bs);
  fieldSetByteSlice bs := (be_val bs mod fieldP, fieldP <=? be_val bs);
  scalarIsZero s := s =? 0;
  scalarNegate s := (- s) mod curveN;
  fieldBytes v := be_bytes 32 v;
  fieldIsZero v := v =? 0;
  fieldIsOdd v := Z.odd v;
  fieldEquals a b := a =? b;
  ParsePubKey := parsePoint;
  SerializeCompressed pk := (if Z.odd pk.2 then 3 else 2) :: be_bytes 32 pk.1;
  NewPublicKey x y := (x, y);
  IsOnCurve pk := (pk.2 * pk.2) mod fieldP =? (pk.1 * pk.1 * pk.1 + 7) mod fieldP;
  AsJacobian pk := (pk.1, pk.2, 1);
  pointX p := p.1.1;
  pointY p := p.1.2;
  pointZ p := p.2;
  ToAffine := affine;
  ScalarBaseMultNonConst k := scalarMul k generator;
  ScalarMultNonConst := scalarMul;
  AddNonConst := pointAdd;
  ecdsaVerify r s hash pk :=
    let z := be_val hash mod curveN in
    let w := ninv s in
    let P := affine (pointAdd (scalarMul ((z * w) mod curveN) generator)
                       (scalarMul ((r * w) mod curveN) (pk.1, pk.2, 1))) in
    negb (P.2 =? 0) && (P.1.1 mod curveN =? r)
|}.

Lemma liftPoint_even x pk : liftPoint x false = Some pk -> pk.1 = x /\ Z.odd pk.2 = false.
Proof.
  unfold liftPoint. generalize (fpow ((x * x * x + 7) mod fieldP) ((fieldP + 1) / 4)).
  generalize ((x * x * x + 7) mod fieldP). intros rhs y.
  destruct (negb _); [discriminate|]. intros [= <-]. cbn [fst snd]. split; [reflexivity|].
  destruct (Z.odd y) eqn:E; cbn [eqb]; [|exact E].
  rewrite Z.odd_sub, E. reflexivity.
Qed.

Lemma parsePoint_length bs pk : parsePoint bs = Some pk -> zlen bs = 33 \/ zlen bs = 65.
Proof.
  destruct bs as [|f rest]; [discriminate|]. unfold parsePoint. rewrite zlen_cons.
  destruct (Z.eqb_spec (zlen rest) 32); [intros _; left; lia|].
  destruct (Z.eqb_spec (zlen rest) 64); [intros _; right; lia|discriminate].
Qed.

#[export] Instance secp256k1_laws : Secp256k1Laws secp256k1.
Proof.
  refine (Build_Secp256k1Laws secp256k1 (fun z => z) _ _ _ _ _ _ _ _); [intros ??; exact id|reflexivity..| | | |].
  - intros pk. cbn [SerializeCompressed secp256k1]. unfold zlen. cbn [length]. rewrite length_be_bytes. reflexivity.
  - intros pk. cbn [SerializeCompressed secp256k1]. apply Forall_cons_2; [destruct (Z.odd pk.2); split; discriminate || reflexivity|].
    apply be_bytes_is_bytes.
  - intros bs pk Hb Hl. cbn [ParsePubKey SerializeCompressed secp256k1 parsePoint].
    rewrite Hl. change (32 =? 32) with true. change (2 =? 2) with true. change (2 =? 3) with false.
    cbn [andb orb]. destruct (fieldP <=? be_val bs); [discriminate|]. intros [-> ->]%liftPoint_even.
    f_equal. apply be_bytes_be_val; [unfold zlen in Hl; lia|exact Hb].
  - intros bs pk. apply parsePoint_length.
Defined.

Definition sampleDER : list Z := [0x30; 6; 2; 1; 5; 2; 1; 7].

Lemma strict_der_unique_witness :
  ParseDERSignature (Curve := secp256k1) sampleDER = Ok (5, 7) /\ 0 < 5.
Proof.
  assert (is_bytes sampleDER) as Hb
    by (repeat apply Forall_cons_2; [split; discriminate || reflexivity..|constructor]).
  assert (ParseDERSignature (Curve := secp256k1) sampleDER = Ok (5, 7)) as Hp by reflexivity.
  destruct (strict_der_unique (Curve := secp256k1) (Laws := secp256k1_laws) sampleDER sampleDER true _ _ Hb Hb
              ltac:(reflexivity) ltac:(reflexivity) Hp Hp) as (_ & H & _).
  split; [exact Hp|exact H].
Defined.

Lemma schnorr_s_not_range_checked_witness :
  schnorrParseSignature (replicate 32 1 ++ be_bytes 32 (1 + curveN))
    = schnorrParseSignature (replicate 32 1 ++ be_bytes 32 1).
Proof.
  apply (schnorr_s_not_range_checked (replicate 32 1) 1); [reflexivity|discriminate|reflexivity].
Defined.
