(* ===== verification/Taproot.v ===== *)
(** * Taproot commitments

    src/txscript/taproot.go: tapscript leaves and trees, inclusion proofs,
    control blocks, and the check that a control block and a script open the
    commitment in an output key. A [TapNode] is the source's interface with its
    two implementations as constructors. *)

From S2P Require Import Prelude Sha256 Wire Commitment Script ScriptNum Standard SigHash Signature.

Definition BaseLeafVersion : Z := 0xc0.
Definition TagTapLeaf : list Z := string_bytes "TapLeaf".
Definition TagTapBranch : list Z := string_bytes "TapBranch".
Definition TagTapTweak : list Z := string_bytes "TapTweak".

(** ** Leaves and branches *)

Record TapLeaf := mkTapLeaf { LeafVersion : Z; LeafScript : list Z }.

#[export] Instance TapLeaf_eq_dec : EqDecision TapLeaf.
Proof. solve_decision. Defined.

Inductive TapNode :=
| LeafNode (leaf : TapLeaf)
| TapBranch (leftNode rightNode : TapNode).

Definition leafTapHash (t : TapLeaf) : list Z :=
  TaggedHash TagTapLeaf [[LeafVersion t] ++ WriteVarBytesBuf (LeafScript t)].

Definition tapBranchHash (l r : list Z) : list Z :=
  match bytes_compare l r with
  | Gt => TaggedHash TagTapBranch [r; l]
  | _ => TaggedHash TagTapBranch [l; r]
  end.

Fixpoint TapHash (n : TapNode) : list Z :=
  match n with
  | LeafNode leaf => leafTapHash leaf
  | TapBranch l r => tapBranchHash (TapHash l) (TapHash r)
  end.

Fixpoint leafDescendants (node : TapNode) : list TapLeaf :=
  match node with
  | LeafNode leaf => [leaf]
  | TapBranch l r => leafDescendants l ++ leafDescendants r
  end.

(** [ControlBlock.RootHash], of the leaf and the inclusion proof. *)
Definition proofRoot (leaf : TapLeaf) (inclusionProof : list Z) : list Z :=
  foldl (fun merkleAccumulator nodeOffset =>
           tapBranchHash merkleAccumulator
             (slice (32 * nodeOffset) (32 * nodeOffset + 32) inclusionProof))
    (leafTapHash leaf) (seq 0 (length inclusionProof / 32)).

(** ** Assembling a tree *)

Record IndexedTapScriptTree := mkIndexedTapScriptTree {
  RootNode : option TapNode;
  LeafMerkleProofs : list (list Z);
  LeafProofIndex : gmap (list Z) nat }.

Fixpoint indexLeaves (i : nat) (leaves : list TapLeaf) (idx : gmap (list Z) nat) : gmap (list Z) nat :=
  match leaves with
  | [] => idx
  | leaf :: leaves' => indexLeaves (S i) leaves' (<[leafTapHash leaf := i]> idx)
  end.

(** [LeafProofIndex[node.TapHash()]], zero when absent. *)
Definition nodeIndex (idx : gmap (list Z) nat) (node : TapNode) : nat :=
  default 0%nat (idx !! TapHash node).

Definition extendProof (i : nat) (h : list Z) (proofs : list (list Z)) : list (list Z) :=
  alter (fun p => p ++ h) i proofs.

Definition extendProofs (idx : gmap (list Z) nat) (h : list Z) (leaves : list TapLeaf)
    (proofs : list (list Z)) : list (list Z) :=
  foldl (fun ps leaf => extendProof (nodeIndex idx (LeafNode leaf)) h ps) proofs leaves.

(** The first phase: leaves in pairs, a lone last leaf joined to the last
    branch. [None] where the source would index an empty slice. *)
Fixpoint pairLeaves (idx : gmap (list Z) nat) (i : nat) (leaves : list TapLeaf)
    (branches : list TapNode) (proofs : list (list Z)) : option (list TapNode * list (list Z)) :=
  match leaves with
  | [] => Some (branches, proofs)
  | [leaf] =>
      match last branches with
      | Some (TapBranch l r as branchToMerge) =>
          Some (take (length branches - 1) branches ++ [TapBranch branchToMerge (LeafNode leaf)],
                extendProof (nodeIndex idx r) (leafTapHash leaf)
                  (extendProof (nodeIndex idx l) (leafTapHash leaf)
                     (extendProof i (TapHash branchToMerge) proofs)))
      | _ => None
      end
  | l :: r :: leaves' =>
      pairLeaves idx (i + 2) leaves' (branches ++ [TapBranch (LeafNode l) (LeafNode r)])
        (extendProof (i + 1) (leafTapHash l) (extendProof i (leafTapHash r) proofs))
  end.

(** The second phase; each round leaves one branch less. *)
Fixpoint mergeBranches (fuel : nat) (idx : gmap (list Z) nat) (branches : list TapNode)
    (proofs : list (list Z)) : option TapNode * list (list Z) :=
  match fuel, branches with
  | S fuel', l :: r :: rest =>
      mergeBranches fuel' idx (rest ++ [TapBranch l r])
        (extendProofs idx (TapHash l) (leafDescendants r)
           (extendProofs idx (TapHash r) (leafDescendants l) proofs))
  | _, [root] => (Some root, proofs)
  | _, _ => (None, proofs)
  end.

Definition AssembleTaprootScriptTree (leaves : list TapLeaf) : option IndexedTapScriptTree :=
  match leaves with
  | [leaf] => Some (mkIndexedTapScriptTree (Some (LeafNode leaf)) [[]] {[leafTapHash leaf := 0%nat]})
  | _ =>
      let idx := indexLeaves 0 leaves ∅ in
      match pairLeaves idx 0 leaves [] (replicate (length leaves) []) with
      | None => None
      | Some (branches, proofs) =>
          let '(rootNode, proofs) := mergeBranches (length branches) idx branches proofs in
          Some (mkIndexedTapScriptTree rootNode proofs idx)
      end
  end.

(** ** Control blocks and output keys *)

Section with_curve.
Context `{Curve : Secp256k1}.

Record ControlBlock := mkControlBlock {
  InternalKey : PublicKey;
  OutputKeyYIsOdd : bool;
  cbLeafVersion : Z;
  InclusionProof : list Z }.

Definition ControlBlockToBytes (c : ControlBlock) : list Z :=
  [Z.lor (cbLeafVersion c) (if OutputKeyYIsOdd c then 1 else 0)]
  ++ SerializePubKey (InternalKey c) ++ InclusionProof c.

Definition RootHash (c : ControlBlock) (revealedScript : list Z) : list Z :=
  proofRoot (mkTapLeaf (cbLeafVersion c) revealedScript) (InclusionProof c).

Definition ParseControlBlock (ctrlBlock : list Z) : result engine_error ControlBlock :=
  if zlen ctrlBlock <? 33 then Err (ScriptErr ErrControlBlockTooSmall)
  else if 33 + 32 * 128 <? zlen ctrlBlock then Err (ScriptErr ErrControlBlockTooLarge)
  else if negb ((zlen ctrlBlock - 33) mod 32 =? 0) then Err (ScriptErr ErrControlBlockInvalidLength)
  else
    pubKey ← schnorrParsePubKey (slice 1 33 ctrlBlock);
    Ok (mkControlBlock pubKey (Z.land (byteAt ctrlBlock 0) 0x01 =? 0x01)
          (Z.land (byteAt ctrlBlock 0) TaprootLeafMask) (drop 33 ctrlBlock)).

(** A key that does not parse is a nil pointer, dereferenced at once. *)
Definition ComputeTaprootOutputKey (pubKey : PublicKey) (scriptRoot : list Z)
    : result engine_error PublicKey :=
  match schnorrParsePubKey (SerializePubKey pubKey) with
  | Err _ => Err (EnginePanic "invalid memory address or nil pointer dereference")
  | Ok internalKey =>
      let tapTweakHash := TaggedHash TagTapTweak [SerializePubKey internalKey; scriptRoot] in
      let tweakScalar := (scalarSetByteSlice tapTweakHash).1 in
      let taprootKey := ToAffine (AddNonConst (AsJacobian internalKey)
                                    (ScalarBaseMultNonConst tweakScalar)) in
      Ok (NewPublicKey (pointX taprootKey) (pointY taprootKey))
  end.

Definition keyYIsOdd (key : PublicKey) : bool := byteAt (SerializeCompressed key) 0 =? 0x03.

Definition VerifyTaprootLeafCommitment (controlBlock : ControlBlock)
    (taprootWitnessProgram revealedScript : list Z) : result engine_error unit :=
  let rootHash := RootHash controlBlock revealedScript in
  taprootKey ← ComputeTaprootOutputKey (InternalKey controlBlock) rootHash;
  if negb (bool_decide (SerializePubKey taprootKey = taprootWitnessProgram))
  then Err (ScriptErr ErrTaprootMerkleProofInvalid)
  else if negb (eqb (OutputKeyYIsOdd controlBlock) (keyYIsOdd taprootKey))
  then Err (ScriptErr ErrTaprootOutputKeyParityMismatch)
  else Ok tt.

(** [TapscriptProof.ToControlBlock], of a leaf, its proof and the root. *)
Definition ToControlBlock (leaf : TapLeaf) (root : TapNode) (proof : list Z) (internalKey : PublicKey)
    : result engine_error ControlBlock :=
  taprootKey ← ComputeTaprootOutputKey internalKey (TapHash root);
  Ok (mkControlBlock internalKey (keyYIsOdd taprootKey) (LeafVersion leaf) proof).
End with_curve.

(** ** Inclusion proofs *)

Lemma length_TaggedHash tag msgs : length (TaggedHash tag msgs) = 32%nat.
Proof. unfold TaggedHash. apply Sha256.length_sum256. Qed.

Lemma tapBranchHash_comm l r : tapBranchHash l r = tapBranchHash r l.
Proof.
  unfold tapBranchHash. rewrite (bytes_compare_antisym l r).
  destruct (bytes_compare l r) eqn:E; cbn [CompOpp]; [|reflexivity..].
  apply bytes_compare_eq in E. subst. reflexivity.
Qed.

Lemma length_TapHash n : length (TapHash n) = 32%nat.
Proof.
  destruct n; cbn [TapHash]; [unfold leafTapHash; apply length_TaggedHash|]. unfold tapBranchHash.
  destruct (bytes_compare _ _); apply length_TaggedHash.
Qed.

Lemma length_leafTapHash leaf : length (leafTapHash leaf) = 32%nat.
Proof. unfold leafTapHash. apply length_TaggedHash. Qed.

#[local] Opaque Sha256.sum256 TaggedHash leafTapHash.

Lemma slice_app_low {A} i j (a b : list A) : (j <= length a)%nat -> slice i j (a ++ b) = slice i j a.
Proof.
  intros Hj. unfold slice. destruct (decide (i <= length a)%nat).
  - rewrite drop_app_le by done. rewrite take_app_le; [done|]. rewrite length_drop. lia.
  - replace (j - i)%nat with 0%nat by lia. by rewrite !take_0.
Qed.

Definition proofSteps (n : nat) (leaf : TapLeaf) (p : list Z) : list Z :=
  foldl (fun acc k => tapBranchHash acc (slice (32 * k) (32 * k + 32) p)) (leafTapHash leaf) (seq 0 n).

Lemma proofSteps_S n leaf p :
  proofSteps (S n) leaf p = tapBranchHash (proofSteps n leaf p) (slice (32 * n) (32 * n + 32) p).
Proof. unfold proofSteps. rewrite seq_S, foldl_app. cbn [foldl]. reflexivity. Qed.

Lemma proofSteps_app n leaf p h :
  (32 * n <= length p)%nat -> proofSteps n leaf (p ++ h) = proofSteps n leaf p.
Proof.
  induction n as [|n IH]; intros Hn; [reflexivity|]. rewrite !proofSteps_S, IH by lia.
  rewrite slice_app_low by lia. reflexivity.
Qed.

(** A proof is a whole number of hashes; one more hash is one more step. *)
Lemma proofRoot_app leaf p h n :
  length p = (32 * n)%nat -> length h = 32%nat ->
  proofRoot leaf (p ++ h) = tapBranchHash (proofRoot leaf p) h.
Proof.
  intros Hp Hh. unfold proofRoot. rewrite length_app, Hp, Hh.
  replace (32 * n + 32)%nat with (S n * 32)%nat by lia. replace (32 * n)%nat with (n * 32)%nat in * by lia.
  rewrite !Nat.div_mul by lia. change (foldl _ _ (seq 0 (S n))) with (proofSteps (S n) leaf (p ++ h)).
  change (foldl _ _ (seq 0 n)) with (proofSteps n leaf p).
  rewrite proofSteps_S, proofSteps_app by lia. f_equal. unfold slice.
  rewrite drop_app_length' by lia. apply take_ge. lia.
Qed.

Section assembling.
Variable leaves : list TapLeaf.
Hypothesis distinct : NoDup (leafTapHash <$> leaves).

Lemma indexLeaves_lookup ls k m h :
  NoDup (leafTapHash <$> ls) ->
  indexLeaves k ls m !! h =
    match list_find (fun leaf => leafTapHash leaf = h) ls with
    | Some (i, _) => Some (k + i)%nat
    | None => m !! h
    end.
Proof.
  revert k m; induction ls as [|leaf ls IH]; intros k m Hnd; [reflexivity|]. cbn [indexLeaves list_find].
  rewrite fmap_cons, NoDup_cons in Hnd. destruct Hnd as [Hni Hnd].
  rewrite IH by done. destruct (decide (leafTapHash leaf = h)) as [<-|Hne].
  - destruct (list_find _ ls) as [[i leaf']|] eqn:E; [|rewrite lookup_insert_eq; f_equal; lia].
    apply list_find_Some in E as (Hl & Hh & _). exfalso. apply Hni. rewrite <- Hh.
    by eapply list_elem_of_fmap_2, list_elem_of_lookup_2.
  - destruct (list_find _ ls) as [[i leaf']|] eqn:E; cbn; [f_equal; lia|by rewrite lookup_insert_ne].
Qed.

Lemma distinct_index i j a b :
  leaves !! i = Some a -> leaves !! j = Some b -> leafTapHash a = leafTapHash b -> i = j.
Proof.
  intros Ha Hb Hh. apply (NoDup_lookup _ _ _ (leafTapHash a) distinct); rewrite list_lookup_fmap.
  - rewrite Ha. reflexivity.
  - rewrite Hb, Hh. reflexivity.
Qed.

Lemma leaf_index i leaf :
  leaves !! i = Some leaf -> nodeIndex (indexLeaves 0 leaves ∅) (LeafNode leaf) = i.
Proof.
  intros Hi. unfold nodeIndex. cbn [TapHash]. rewrite indexLeaves_lookup by exact distinct.
  destruct (list_find _ leaves) as [[j leaf']|] eqn:E.
  - apply list_find_Some in E as (Hj & Hh & _). cbn. by apply (distinct_index j i leaf' leaf).
  - apply list_find_None in E. rewrite Forall_forall in E. exfalso.
    apply (E leaf); [by eapply list_elem_of_lookup_2|reflexivity].
Qed.

Lemma distinct_leaves : NoDup leaves.
Proof. by apply (NoDup_fmap_1 leafTapHash). Qed.

Let idx := indexLeaves 0 leaves ∅.

(** Extending the proofs of a set of leaves extends exactly theirs. *)
Lemma extendProofs_lookup h D proofs i leaf :
  NoDup D -> Forall (fun l => l ∈ leaves) D -> leaves !! i = Some leaf ->
  extendProofs idx h D proofs !! i
    = (fun p => if bool_decide (leaf ∈ D) then p ++ h else p) <$> proofs !! i.
Proof.
  intros Hnd Hin Hi. revert proofs; induction D as [|d D IH]; intros proofs; cbn [extendProofs foldl].
  - rewrite bool_decide_false by apply not_elem_of_nil. by destruct (proofs !! i).
  - apply NoDup_cons in Hnd as [Hd Hnd]. apply Forall_cons_1 in Hin as [Hdl Hin].
    change (foldl _ _ D) with (extendProofs idx h D (extendProof (nodeIndex idx (LeafNode d)) h proofs)).
    rewrite IH by done. apply list_elem_of_lookup_1 in Hdl as [j Hj].
    unfold idx. rewrite (leaf_index j d Hj). unfold extendProof. rewrite list_lookup_alter.
    destruct (decide (j = i)) as [->|Hne].
    + rewrite Hi in Hj. injection Hj as ->. rewrite (bool_decide_false (d ∈ D)) by done.
      rewrite bool_decide_true by (apply elem_of_cons; by left). by destruct (proofs !! i).
    + assert (leaf <> d).
      { intros ->. apply Hne. by apply (NoDup_lookup _ _ _ d distinct_leaves). }
      by rewrite (bool_decide_ext (leaf ∈ d :: D) (leaf ∈ D)) by (rewrite elem_of_cons; naive_solver).
Qed.

Lemma length_extendProofs h D proofs : length (extendProofs idx h D proofs) = length proofs.
Proof.
  revert proofs; induction D as [|d D IH]; intros proofs; [reflexivity|].
  change (extendProofs idx h (d :: D) proofs)
    with (extendProofs idx h D (extendProof (nodeIndex idx (LeafNode d)) h proofs)).
  rewrite IH. unfold extendProof. apply length_alter.
Qed.

(** The proof of [leaf] leads to the root of [b]. *)
Definition proofOk (proofs : list (list Z)) (b : TapNode) (leaf : TapLeaf) : Prop :=
  exists i p n, leaves !! i = Some leaf /\ proofs !! i = Some p /\ length p = (32 * n)%nat /\
    (n < length (leafDescendants b))%nat /\ proofRoot leaf p = TapHash b.

Definition forest (fs : list TapNode) : list TapLeaf := concat (leafDescendants <$> fs).

Record assembled (fs : list TapNode) (proofs : list (list Z)) : Prop := {
  as_nodup : NoDup (forest fs);
  as_leaves : Forall (fun l => l ∈ leaves) (forest fs);
  as_proofs : forall b leaf, b ∈ fs -> leaf ∈ leafDescendants b -> proofOk proofs b leaf }.

Lemma proofOk_extend (proofs : list (list Z)) h D b b' leaf :
  NoDup D -> Forall (fun l => l ∈ leaves) D -> leaf ∈ D -> length h = 32%nat ->
  tapBranchHash (TapHash b) h = TapHash b' ->
  (length (leafDescendants b) < length (leafDescendants b'))%nat ->
  proofOk proofs b leaf -> proofOk (extendProofs idx h D proofs) b' leaf.
Proof.
  intros Hnd Hin HD Hh Hb Hlt (i & p & n & Hi & Hp & Hn & Hd & Hr). exists i, (p ++ h), (S n).
  rewrite (extendProofs_lookup h D proofs i leaf), Hp, bool_decide_true by done.
  split_and!; [done|reflexivity|rewrite length_app; lia|lia|].
  by rewrite (proofRoot_app leaf p h n), Hr.
Qed.

Lemma proofOk_other (proofs : list (list Z)) h D b leaf :
  NoDup D -> Forall (fun l => l ∈ leaves) D -> leaf ∉ D ->
  proofOk proofs b leaf -> proofOk (extendProofs idx h D proofs) b leaf.
Proof.
  intros Hnd Hin HD (i & p & n & Hi & Hp & Hn & Hd & Hr). exists i, p, n.
  rewrite (extendProofs_lookup h D proofs i leaf), Hp, bool_decide_false by done. done.
Qed.

Lemma forest_cons b fs : forest (b :: fs) = leafDescendants b ++ forest fs.
Proof. reflexivity. Qed.

Lemma forest_app fs gs : forest (fs ++ gs) = forest fs ++ forest gs.
Proof. unfold forest. by rewrite fmap_app, concat_app. Qed.

Lemma elem_of_forest leaf b fs : b ∈ fs -> leaf ∈ leafDescendants b -> leaf ∈ forest fs.
Proof.
  intros Hb Hl. unfold forest. apply list_elem_of_In, in_concat. exists (leafDescendants b).
  split; [|by apply list_elem_of_In]. apply list_elem_of_In. by apply list_elem_of_fmap_2.
Qed.

Lemma descendants_pos n : (0 < length (leafDescendants n))%nat.
Proof. induction n; cbn [leafDescendants length]; rewrite ?length_app; lia. Qed.

Lemma branch_grows l r :
  (length (leafDescendants l) < length (leafDescendants (TapBranch l r)))%nat /\
  (length (leafDescendants r) < length (leafDescendants (TapBranch l r)))%nat.
Proof.
  pose proof (descendants_pos l). pose proof (descendants_pos r).
  cbn [leafDescendants]. rewrite length_app. lia.
Qed.

(** One round of the second phase. *)
Lemma assembled_merge l r rest proofs :
  assembled (l :: r :: rest) proofs ->
  assembled (rest ++ [TapBranch l r])
    (extendProofs idx (TapHash l) (leafDescendants r)
       (extendProofs idx (TapHash r) (leafDescendants l) proofs)).
Proof.
  intros [Hnd Hin Hp]. rewrite !forest_cons in Hnd, Hin.
  assert (Hperm : forest (rest ++ [TapBranch l r]) ≡ₚ leafDescendants l ++ leafDescendants r ++ forest rest).
  { rewrite forest_app. unfold forest at 2. cbn [fmap list_fmap concat leafDescendants].
    rewrite app_nil_r, (Permutation_app_comm (forest rest)). by rewrite app_assoc. }
  apply Forall_app in Hin as Hin2. destruct Hin2 as [Hinl Hin2]. apply Forall_app in Hin2 as [Hinr _].
  pose proof Hnd as (Hndl & Hdl & Hnd2)%NoDup_app. apply NoDup_app in Hnd2 as (Hndr & Hdr & _).
  split; [by rewrite Hperm|by rewrite Hperm|].
  intros b leaf Hb Hleaf. apply elem_of_app in Hb as [Hb| ->%list_elem_of_singleton].
  - assert (leaf ∈ forest rest) as Hf by by apply (elem_of_forest leaf b).
    apply proofOk_other; [done|done|intros ?; by apply (Hdr leaf)|].
    apply proofOk_other; [done|done|intros ?; apply (Hdl leaf); [done|apply elem_of_app; by right]|].
    apply Hp; [|done]. apply elem_of_cons; right. apply elem_of_cons; by right.
  - cbn [leafDescendants] in Hleaf. apply elem_of_app in Hleaf as [Hl|Hr].
    + apply proofOk_other; [done|done|intros ?; apply (Hdl leaf); [done|apply elem_of_app; by left]|].
      apply (proofOk_extend _ _ _ l); [done|done|done|apply length_TapHash|reflexivity|apply branch_grows|].
      apply Hp; [|done]. apply elem_of_cons; by left.
    + apply (proofOk_extend _ _ _ r); [done|done|done|apply length_TapHash|apply tapBranchHash_comm|apply branch_grows|].
      apply proofOk_other; [done|done|intros ?; apply (Hdl leaf); [done|apply elem_of_app; by left]|].
      apply Hp; [|done]. apply elem_of_cons; right. apply elem_of_cons; by left.
Qed.

Lemma mergeBranches_assembled fuel fs proofs :
  assembled fs proofs -> fs <> [] -> (length fs <= fuel)%nat ->
  exists root proofs', mergeBranches fuel idx fs proofs = (Some root, proofs') /\
    assembled [root] proofs' /\ leafDescendants root ≡ₚ forest fs.
Proof.
  revert fs proofs; induction fuel as [|fuel IH]; intros fs proofs Ha Hne Hf.
  { destruct fs; [done|cbn in Hf; lia]. }
  destruct fs as [|l [|r rest]]; [done| |].
  - exists l, proofs. split; [reflexivity|]. split; [done|]. unfold forest. cbn. by rewrite app_nil_r.
  - cbn [mergeBranches].
    destruct (IH (rest ++ [TapBranch l r]) _ (assembled_merge _ _ _ _ Ha)) as (root & proofs' & E & Hr & Hperm).
    { destruct rest; discriminate. }
    { rewrite length_app. cbn in Hf |- *. lia. }
    exists root, proofs'. split; [exact E|]. split; [done|]. rewrite Hperm, forest_app, !forest_cons.
    unfold forest at 2. cbn [fmap list_fmap concat leafDescendants]. rewrite app_nil_r.
    rewrite (Permutation_app_comm (forest rest)). by rewrite app_assoc.
Qed.

Lemma forest_perm fs gs : fs ≡ₚ gs -> forest fs ≡ₚ forest gs.
Proof.
  induction 1 as [|x ? ? ? IH|x y l|? ? ? ? IH1 ? IH2]; rewrite ?forest_cons; [done|by rewrite IH| |by rewrite IH1].
  rewrite !app_assoc. apply Permutation_app_tail, Permutation_app_comm.
Qed.

Lemma assembled_perm fs gs proofs : fs ≡ₚ gs -> assembled fs proofs -> assembled gs proofs.
Proof.
  intros Hp [Hnd Hin Hpr].
  pose proof (forest_perm _ _ Hp) as Hf.
  split; [by rewrite <- Hf|by rewrite <- Hf|]. intros b leaf Hb. apply Hpr. by rewrite Hp.
Qed.

Lemma assembled_swap fs l r proofs :
  assembled (fs ++ [TapBranch l r]) proofs -> assembled (fs ++ [TapBranch r l]) proofs.
Proof.
  intros [Hnd Hin Hpr].
  assert (Hf : forest (fs ++ [TapBranch l r]) ≡ₚ forest (fs ++ [TapBranch r l])).
  { rewrite !forest_app. f_equiv. unfold forest. cbn [fmap list_fmap concat leafDescendants].
    rewrite !app_nil_r. apply Permutation_app_comm. }
  split; [by rewrite <- Hf|by rewrite <- Hf|].
  intros b leaf [Hb| ->%list_elem_of_singleton]%elem_of_app Hleaf.
  - apply Hpr; [apply elem_of_app; by left|done].
  - destruct (Hpr (TapBranch l r) leaf) as (i & p & n & Hi & Hp & Hn & Hd & Hr).
    + apply elem_of_app; right; by apply list_elem_of_singleton.
    + cbn [leafDescendants] in *. rewrite elem_of_app in *. tauto.
    + exists i, p, n. split_and!; [done..| |].
      * cbn [leafDescendants] in *. rewrite length_app in *. lia.
      * rewrite Hr. apply tapBranchHash_comm.
Qed.

Lemma extendProof_leaf i leaf h proofs :
  leaves !! i = Some leaf -> extendProof i h proofs = extendProofs idx h [leaf] proofs.
Proof. intros Hi. unfold extendProofs. cbn [foldl]. unfold idx. by rewrite (leaf_index i leaf Hi). Qed.

(** The unpaired leaves are trees of their own. *)
Lemma start_assembled : assembled (LeafNode <$> leaves) (replicate (length leaves) []).
Proof.
  assert (Hf : forest (LeafNode <$> leaves) = leaves).
  { unfold forest. generalize leaves as ls. intros ls.
    induction ls as [|l ls IH]; [reflexivity|]. rewrite !fmap_cons. cbn [concat leafDescendants app].
    by rewrite IH. }
  split; [rewrite Hf; apply distinct_leaves|rewrite Hf; apply Forall_forall; intros; assumption|].
  intros b leaf (l & -> & Hl)%list_elem_of_fmap ->%list_elem_of_singleton.
  apply list_elem_of_lookup_1 in Hl as [i Hi]. exists i, [], 0%nat.
  split_and!; [done| |reflexivity|cbn; lia|reflexivity].
  apply lookup_replicate. split; [reflexivity|by eapply lookup_lt_Some].
Qed.

Definition leafPair (b : TapNode) : Prop := exists l r, b = TapBranch (LeafNode l) (LeafNode r).

Lemma pairLeaves_assembled n i ls branches proofs :
  (length ls <= n)%nat -> drop i leaves = ls -> Forall leafPair branches ->
  (branches = [] -> length ls <> 1%nat) -> assembled (branches ++ (LeafNode <$> ls)) proofs ->
  exists branches' proofs', pairLeaves idx i ls branches proofs = Some (branches', proofs') /\
    assembled branches' proofs' /\ forest branches' ≡ₚ forest branches ++ ls /\
    (branches ++ (LeafNode <$> ls) <> [] -> branches' <> []).
Proof.
  revert i ls branches proofs; induction n as [|n IH]; intros i ls branches proofs Hn Hd Hb H1 Ha.
  - destruct ls; [|cbn in Hn; lia]. exists branches, proofs. rewrite fmap_nil, !app_nil_r in *. done.
  - destruct ls as [|l [|r ls]].
    + exists branches, proofs. rewrite fmap_nil, !app_nil_r in *. done.
    + destruct branches as [|b0 bs _] using rev_ind; [by destruct (H1 eq_refl)|].
      apply Forall_app in Hb as [Hb (a & c & ->)%Forall_singleton].
      cbn [pairLeaves]. rewrite last_snoc. eexists _, _. split; [reflexivity|].
      rewrite length_app. cbn [length]. rewrite Nat.add_sub, take_app_length.
      assert (Hl : leaves !! i = Some l) by (rewrite <- (Nat.add_0_r i), <- lookup_drop, Hd; reflexivity).
      rewrite (extendProof_leaf i l) by done. split.
      * apply assembled_swap. apply (assembled_merge (LeafNode l) (TapBranch (LeafNode a) (LeafNode c))).
        refine (assembled_perm _ _ _ _ Ha). rewrite fmap_cons, fmap_nil.
        rewrite (Permutation_app_comm _ [LeafNode l]). cbn [app]. f_equiv.
        apply (Permutation_app_comm bs [_]).
      * split; [|intros _; destruct bs; discriminate]. rewrite !forest_app, <- app_assoc. reflexivity.
    + assert (Hl : leaves !! i = Some l) by (rewrite <- (Nat.add_0_r i), <- lookup_drop, Hd; reflexivity).
      assert (Hr : leaves !! (i + 1)%nat = Some r) by (rewrite <- lookup_drop, Hd; reflexivity).
      cbn [pairLeaves]. rewrite (extendProof_leaf i l), (extendProof_leaf (i + 1) r) by done.
      destruct (IH (i + 2)%nat ls (branches ++ [TapBranch (LeafNode l) (LeafNode r)])
                  (extendProofs idx (leafTapHash l) [r] (extendProofs idx (leafTapHash r) [l] proofs)))
        as (bs' & ps' & E & Ha' & Hp & Hne).
      * cbn in Hn. lia.
      * rewrite <- drop_drop, Hd. reflexivity.
      * apply Forall_app. split; [done|]. apply Forall_singleton. by exists l, r.
      * intros E. by destruct branches.
      * refine (assembled_perm _ _ _ _ (assembled_merge (LeafNode l) (LeafNode r)
                  (branches ++ (LeafNode <$> ls)) proofs _)).
        { rewrite <- !app_assoc. f_equiv. apply Permutation_app_comm. }
        refine (assembled_perm _ _ _ _ Ha). rewrite !fmap_cons.
        rewrite <- !Permutation_middle. reflexivity.
      * exists bs', ps'. split; [exact E|]. split; [done|]. split.
        { rewrite Hp, forest_app, <- app_assoc. reflexivity. }
        intros _. apply Hne. destruct branches; discriminate.
Qed.

Lemma assemble_proofs :
  leaves <> [] ->
  exists tree root, AssembleTaprootScriptTree leaves = Some tree /\ RootNode tree = Some root /\
    leafDescendants root ≡ₚ leaves /\
    forall leaf, leaf ∈ leaves -> exists i p,
      leaves !! i = Some leaf /\ LeafProofIndex tree !! leafTapHash leaf = Some i /\
      LeafMerkleProofs tree !! i = Some p /\
      (exists n, zlen p = 32 * n /\ 0 <= n < zlen leaves) /\ proofRoot leaf p = TapHash root.
Proof.
  intros Hne. destruct (decide (length leaves = 1%nat)) as [H1|H1].
  { destruct leaves as [|l [|? ?]]; [done| |discriminate]. eexists _, (LeafNode l).
    split; [reflexivity|]. split_and!; [reflexivity|reflexivity|].
    intros leaf ->%list_elem_of_singleton. exists 0%nat, []. cbn [LeafProofIndex LeafMerkleProofs].
    rewrite lookup_singleton_eq. split_and!; [reflexivity..|exists 0; split; [reflexivity|split; [discriminate|reflexivity]]|reflexivity]. }
  destruct (pairLeaves_assembled (length leaves) 0 leaves [] (replicate (length leaves) []))
    as (bs & ps & Ep & Ha & Hp & Hne'); [lia|reflexivity|constructor|done|apply start_assembled|].
  destruct (mergeBranches_assembled (length bs) bs ps Ha) as (root & ps' & Em & Hroot & Hperm);
    [apply Hne'; destruct leaves; [done|discriminate]|lia|].
  exists (mkIndexedTapScriptTree (Some root) ps' idx), root. split.
  { unfold AssembleTaprootScriptTree. fold idx. rewrite Ep, Em.
    destruct leaves as [|? [|? ?]]; [done|done|reflexivity]. }
  split; [reflexivity|]. rewrite Hp in Hperm. change (forest [] ++ leaves) with leaves in Hperm. split; [exact Hperm|]. intros leaf Hleaf.
  destruct (as_proofs _ _ Hroot root leaf) as (i & p & n & Hi & Hpi & Hn & Hd & Hr);
    [by apply list_elem_of_singleton|by rewrite Hperm|].
  exists i, p. cbn [LeafProofIndex LeafMerkleProofs]. split_and!; [done| |done| |done].
  - pose proof (leaf_index i leaf Hi) as Hx. unfold nodeIndex in Hx. fold idx in Hx. cbn [TapHash] in Hx.
    unfold idx. rewrite indexLeaves_lookup by exact distinct.
    destruct (list_find _ leaves) as [[j leaf']|] eqn:E.
    + apply list_find_Some in E as (Hj & Hh & _). f_equal. by apply (distinct_index j i leaf' leaf).
    + apply list_find_None in E. rewrite Forall_forall in E. exfalso. by apply (E leaf).
  - exists (Z.of_nat n). rewrite (Permutation_length Hperm) in Hd. unfold zlen. lia.
Qed.
End assembling.

(** ** Control blocks *)

Section with_laws.
Context `{Curve : Secp256k1} {Laws : Secp256k1Laws Curve}.

Lemma length_SerializePubKey pk : zlen (SerializePubKey pk) = 32.
Proof.
  unfold SerializePubKey. pose proof (SerializeCompressed_length pk) as H. unfold zlen in *.
  rewrite length_drop. lia.
Qed.

Lemma schnorrParse_serialize pk pk0 :
  schnorrParsePubKey (SerializePubKey pk) = Ok pk0 -> SerializePubKey pk0 = SerializePubKey pk.
Proof.
  unfold schnorrParsePubKey. rewrite length_SerializePubKey. cbn [Z.eqb Pos.eqb negb].
  destruct (ParsePubKey _) as [k|] eqn:E; [|discriminate]. intros [= ->].
  apply ParsePubKey_even in E; [|apply Forall_drop, SerializeCompressed_bytes|apply length_SerializePubKey].
  unfold SerializePubKey at 1. rewrite E. reflexivity.
Qed.

Lemma ComputeTaprootOutputKey_parsed pk pk0 root :
  schnorrParsePubKey (SerializePubKey pk) = Ok pk0 ->
  ComputeTaprootOutputKey pk0 root = ComputeTaprootOutputKey pk root.
Proof.
  intros H. unfold ComputeTaprootOutputKey. rewrite (schnorrParse_serialize _ _ H). reflexivity.
Qed.

Lemma land_lor_bit v (odd : bool) :
  Z.land v TaprootLeafMask = v ->
  Z.land (Z.lor v (if odd then 1 else 0)) TaprootLeafMask = v /\
  (Z.land (Z.lor v (if odd then 1 else 0)) 0x01 =? 0x01) = odd.
Proof.
  intros Hv. rewrite !Z.land_lor_distr_l, Hv.
  assert (Z.land v 1 = 0) as ->.
  { rewrite <- Hv, <- Z.land_assoc. apply Z.land_0_r. }
  destruct odd; [|by rewrite !Z.land_0_l, !Z.lor_0_r].
  change (Z.land 1 TaprootLeafMask) with 0. by rewrite Z.lor_0_r.
Qed.

(** A control block of an admissible size is read back, with the internal key
    normalised to the one with an even y coordinate. *)
Lemma ParseControlBlock_ToBytes c k0 n :
  schnorrParsePubKey (SerializePubKey (InternalKey c)) = Ok k0 ->
  Z.land (cbLeafVersion c) TaprootLeafMask = cbLeafVersion c ->
  zlen (InclusionProof c) = 32 * n -> 0 <= n <= 128 ->
  ParseControlBlock (ControlBlockToBytes c)
    = Ok (mkControlBlock k0 (OutputKeyYIsOdd c) (cbLeafVersion c) (InclusionProof c)).
Proof.
  intros Hk Hv Hp Hn. pose proof (length_SerializePubKey (InternalKey c)) as Hlk.
  unfold ParseControlBlock, ControlBlockToBytes.
  set (b := Z.lor _ _). set (key := SerializePubKey _) in *.
  assert (Hlen : zlen ([b] ++ key ++ InclusionProof c) = 33 + 32 * n).
  { unfold zlen in *. rewrite !length_app. cbn [length]. lia. }
  rewrite Hlen.
  replace (33 + 32 * n <? 33) with false by lia. replace (33 + 32 * 128 <? 33 + 32 * n) with false by lia.
  replace (33 + 32 * n - 33) with (n * 32) by lia. rewrite Z.mod_mul by lia. cbn [Z.eqb negb].
  assert (Hs : slice 1 33 ([b] ++ key ++ InclusionProof c) = key).
  { unfold slice. cbn [app drop]. rewrite Nat.sub_succ, Nat.sub_0_r. apply take_app_length'.
    unfold zlen in Hlk. lia. }
  assert (Hd : drop 33 ([b] ++ key ++ InclusionProof c) = InclusionProof c).
  { cbn [app drop]. apply drop_app_length'. unfold zlen in Hlk. lia. }
  rewrite Hs, Hd, Hk. result_simpl.
  destruct (land_lor_bit (cbLeafVersion c) (OutputKeyYIsOdd c) Hv) as [H1 H2]. fold b in H1, H2.
  change (byteAt ([b] ++ key ++ InclusionProof c) 0) with b. rewrite H1, H2. reflexivity.
Qed.

(** C32: For up to 129 tapscript leaves with distinct hashes and a valid
    internal key, [AssembleTaprootScriptTree] gives a root over exactly these
    leaves and an inclusion proof for each; the control block built from a
    leaf's proof, serialised and parsed again, opens the commitment of the
    output key to the script of that leaf. *)
Theorem taproot_tree_opens leaves internalKey k0 :
  leaves <> [] -> NoDup (leafTapHash <$> leaves) -> zlen leaves <= 129 ->
  Forall (fun leaf => Z.land (LeafVersion leaf) TaprootLeafMask = LeafVersion leaf) leaves ->
  schnorrParsePubKey (SerializePubKey internalKey) = Ok k0 ->
  exists tree root outputKey,
    AssembleTaprootScriptTree leaves = Some tree /\ RootNode tree = Some root /\
    leafDescendants root ≡ₚ leaves /\
    ComputeTaprootOutputKey internalKey (TapHash root) = Ok outputKey /\
    forall leaf, leaf ∈ leaves -> exists i proof c c',
      LeafProofIndex tree !! leafTapHash leaf = Some i /\ LeafMerkleProofs tree !! i = Some proof /\
      ToControlBlock leaf root proof internalKey = Ok c /\
      ParseControlBlock (ControlBlockToBytes c) = Ok c' /\
      VerifyTaprootLeafCommitment c' (SerializePubKey outputKey) (LeafScript leaf) = Ok tt.
Proof.
  intros Hne Hd Hlen Hv Hk.
  destruct (assemble_proofs leaves Hd Hne) as (tree & root & Et & Er & Hperm & Hproofs).
  assert (exists outputKey, ComputeTaprootOutputKey internalKey (TapHash root) = Ok outputKey) as [out Eo].
  { unfold ComputeTaprootOutputKey. rewrite Hk. eexists; reflexivity. }
  exists tree, root, out. split_and!; [exact Et|exact Er|exact Hperm|exact Eo|].
  intros leaf Hleaf. destruct (Hproofs leaf Hleaf) as (i & p & _ & Hi & Hp & (n & Hn & Hb) & Hr).
  rewrite Forall_forall in Hv. eexists i, p, _, _. split; [exact Hi|]. split; [exact Hp|]. split.
  { unfold ToControlBlock. rewrite Eo. reflexivity. }
  split.
  { apply (ParseControlBlock_ToBytes _ k0 n); [exact Hk|exact (Hv leaf Hleaf)|exact Hn|lia]. }
  unfold VerifyTaprootLeafCommitment, RootHash.
  cbn [InternalKey cbLeafVersion InclusionProof OutputKeyYIsOdd].
  replace (mkTapLeaf (LeafVersion leaf) (LeafScript leaf)) with leaf by (destruct leaf; reflexivity).
  rewrite Hr, (ComputeTaprootOutputKey_parsed _ _ _ Hk), Eo. result_simpl.
  rewrite bool_decide_true by reflexivity. cbn [negb]. rewrite eqb_reflx. reflexivity.
Qed.
End with_laws.

(** ** Repeated leaves *)

(** With a leaf given twice, the proofs of both copies are wrong: the index
    maps their hash to the later position, which is then extended twice while
    the earlier one is not extended at all. *)
Lemma duplicate_leaves_lose_proofs a b c :
  NoDup [leafTapHash a; leafTapHash b; leafTapHash c] ->
  exists tree, AssembleTaprootScriptTree [a; a; b; c] = Some tree /\
    LeafProofIndex tree !! leafTapHash a = Some 1%nat /\
    zlen <$> LeafMerkleProofs tree = [32; 96; 64; 64].
Proof.
  intros Hnd. apply NoDup_cons in Hnd as [Ha Hnd]. apply NoDup_cons in Hnd as [Hb _].
  assert (Hba : leafTapHash b <> leafTapHash a) by (intros E; apply Ha; rewrite E; apply elem_of_cons; left; reflexivity).
  assert (Hca : leafTapHash c <> leafTapHash a)
    by (intros E; apply Ha; rewrite E; apply elem_of_cons; right; apply elem_of_cons; left; reflexivity).
  assert (Hcb : leafTapHash c <> leafTapHash b) by (intros E; apply Hb; rewrite E; apply elem_of_cons; left; reflexivity).
  unfold AssembleTaprootScriptTree.
  set (idx := indexLeaves _ _ _). cbn [pairLeaves app length mergeBranches].
  eexists. split; [reflexivity|]. cbn [LeafProofIndex LeafMerkleProofs].
  assert (Ia : nodeIndex idx (LeafNode a) = 1%nat /\ idx !! leafTapHash a = Some 1%nat).
  { unfold nodeIndex, idx. cbn [indexLeaves TapHash].
    rewrite (lookup_insert_ne _ (leafTapHash c)), (lookup_insert_ne _ (leafTapHash b)) by assumption.
    rewrite lookup_insert_eq. split; reflexivity. }
  assert (Ib : nodeIndex idx (LeafNode b) = 2%nat).
  { unfold nodeIndex, idx. cbn [indexLeaves TapHash].
    rewrite (lookup_insert_ne _ (leafTapHash c)) by assumption. rewrite lookup_insert_eq. reflexivity. }
  assert (Ic : nodeIndex idx (LeafNode c) = 3%nat).
  { unfold nodeIndex, idx. cbn [indexLeaves TapHash]. rewrite lookup_insert_eq. reflexivity. }
  destruct Ia as [Ia Ja]. split; [exact Ja|].
  cbn [leafDescendants app extendProofs foldl]. rewrite Ia, Ib, Ic. unfold extendProof.
  cbn [length replicate alter list_alter Nat.add fmap list_fmap app].
  unfold zlen. rewrite !length_app, !length_TapHash.
  rewrite !length_leafTapHash. reflexivity.
Qed.

(** ** Witness *)

Definition sampleLeaves : list TapLeaf := (fun v => mkTapLeaf BaseLeafVersion [v]) <$> [81; 82; 83].

Definition sampleInternalKey : Z * Z := (generator.1.1, generator.1.2).

Lemma taproot_tree_opens_witness :
  exists tree root, AssembleTaprootScriptTree sampleLeaves = Some tree /\ RootNode tree = Some root /\
    leafDescendants root ≡ₚ sampleLeaves.
Proof.
  assert (Hd : NoDup (leafTapHash <$> sampleLeaves)) by (apply (bool_decide_unpack _); vm_compute; exact I).
  assert (Hk : schnorrParsePubKey (Curve := secp256k1) (SerializePubKey (Curve := secp256k1) sampleInternalKey)
               = Ok sampleInternalKey) by (vm_compute; reflexivity).
  destruct (taproot_tree_opens (Curve := secp256k1) (Laws := secp256k1_laws) sampleLeaves
              sampleInternalKey sampleInternalKey)
    as (tree & root & _ & H1 & H2 & H3 & _); [discriminate|exact Hd|discriminate| |exact Hk|].
  - repeat apply Forall_cons_2; [reflexivity..|constructor].
  - exists tree, root. split; [exact H1|split; [exact H2|exact H3]].
Defined.
