(* ===== verification/Engine.v ===== *)
(** * The script engine: state and signature verifiers

    The state of src/txscript/engine.go, its script flags, and the signature
    verifiers of src/txscript/sigvalidate.go with [verifyTaprootKeySpend] of
    src/txscript/taproot.go. [Engine] is split in two: [EngineParams] holds the
    fields that are not changed after [NewEngine], the record [Engine] the
    others; [version] is never set and is zero. An operation is a function of
    the state that returns an outcome and the state it leaves, also when it
    fails. The step callback and the trace log are not modelled.

    Not under src/: the curve ([Secp256k1]), RIPEMD-160 of golang.org/x/crypto
    ([Ripemd160]) and the order in which Go iterates over a map ([MapPick]). *)

From S2P Require Import Prelude Sha256 Wire Commitment Script ScriptNum Standard SigHash Signature Taproot.

#[local] Set Warnings "-notation-for-abbreviation".

(** ** Script flags *)

Notation ScriptBip16 := 0x1 (only parsing).
Notation ScriptStrictMultiSig := 0x2 (only parsing).
Notation ScriptDiscourageUpgradableNops := 0x4 (only parsing).
Notation ScriptVerifyCheckLockTimeVerify := 0x8 (only parsing).
Notation ScriptVerifyCheckSequenceVerify := 0x10 (only parsing).
Notation ScriptVerifyCleanStack := 0x20 (only parsing).
Notation ScriptVerifyDERSignatures := 0x40 (only parsing).
Notation ScriptVerifyLowS := 0x80 (only parsing).
Notation ScriptVerifyMinimalData := 0x100 (only parsing).
Notation ScriptVerifyNullFail := 0x200 (only parsing).
Notation ScriptVerifySigPushOnly := 0x400 (only parsing).
Notation ScriptVerifyStrictEncoding := 0x800 (only parsing).
Notation ScriptVerifyWitness := 0x1000 (only parsing).
Notation ScriptVerifyDiscourageUpgradeableWitnessProgram := 0x2000 (only parsing).
Notation ScriptVerifyMinimalIf := 0x4000 (only parsing).
Notation ScriptVerifyWitnessPubKeyType := 0x8000 (only parsing).
Notation ScriptVerifyTaproot := 0x10000 (only parsing).
Notation ScriptVerifyDiscourageUpgradeableTaprootVersion := 0x20000 (only parsing).
Notation ScriptVerifyDiscourageOpSuccess := 0x40000 (only parsing).
Notation ScriptVerifyDiscourageUpgradeablePubkeyType := 0x80000 (only parsing).
Notation ScriptVerifyConstScriptCode := 0x100000 (only parsing).
Notation ScriptVerifyOBTCReplayProtection := 0x200000 (only parsing).

Notation MaxStackSize := 1000 (only parsing).
Notation sigOpsDelta := 50 (only parsing).
Notation BaseSegwitWitnessVersion := 0 (only parsing).
Notation TaprootWitnessVersion := 1 (only parsing).
Notation SignatureSize := 64 (only parsing).

(** ** State *)

Record taprootExecutionCtx := mkTaprootCtx {
  ctx_annex : option (list Z);
  ctx_codeSepPos : Z;
  ctx_tapLeafHash : list Z;
  sigOpsBudget : Z;
  mustSucceed : bool }.

Definition newTaprootExecutionCtx (inputWitnessSize : Z) : taprootExecutionCtx :=
  mkTaprootCtx None blankCodeSepValue zeroHash (i32 (sigOpsDelta + inputWitnessSize)) false.

(** The fields set when the engine is created. *)
Record EngineParams := mkEngineParams {
  flags : Z;
  vm_tx : MsgTx;
  txIdx : nat;
  bip16 : bool;
  hashCache : option TxSigHashes;
  prevOutFetcher : PrevOutputFetcher;
  inputAmount : Z;
  witnessVersion : Z }.

Record Engine := mkEngine {
  scripts : list (list Z);
  scriptIdx : Z;
  opcodeIdx : Z;
  lastCodeSep : Z;
  tokenizer : ScriptTokenizer;
  savedFirstStack : list (list Z);
  dstack : stack;
  astack : stack;
  condStack : list Z;
  numOps : Z;
  witnessProgram : option (list Z);
  taprootCtx : option taprootExecutionCtx;
  sigCache : option SigCache }.

Definition setScripts (v : list (list Z)) (vm : Engine) : Engine :=
  mkEngine v (scriptIdx vm) (opcodeIdx vm) (lastCodeSep vm) (tokenizer vm) (savedFirstStack vm) (dstack vm)
    (astack vm) (condStack vm) (numOps vm) (witnessProgram vm) (taprootCtx vm) (sigCache vm).
Definition setScriptIdx (v : Z) (vm : Engine) : Engine :=
  mkEngine (scripts vm) v (opcodeIdx vm) (lastCodeSep vm) (tokenizer vm) (savedFirstStack vm) (dstack vm)
    (astack vm) (condStack vm) (numOps vm) (witnessProgram vm) (taprootCtx vm) (sigCache vm).
Definition setOpcodeIdx (v : Z) (vm : Engine) : Engine :=
  mkEngine (scripts vm) (scriptIdx vm) v (lastCodeSep vm) (tokenizer vm) (savedFirstStack vm) (dstack vm)
    (astack vm) (condStack vm) (numOps vm) (witnessProgram vm) (taprootCtx vm) (sigCache vm).
Definition setLastCodeSep (v : Z) (vm : Engine) : Engine :=
  mkEngine (scripts vm) (scriptIdx vm) (opcodeIdx vm) v (tokenizer vm) (savedFirstStack vm) (dstack vm)
    (astack vm) (condStack vm) (numOps vm) (witnessProgram vm) (taprootCtx vm) (sigCache vm).
Definition setTokenizer (v : ScriptTokenizer) (vm : Engine) : Engine :=
  mkEngine (scripts vm) (scriptIdx vm) (opcodeIdx vm) (lastCodeSep vm) v (savedFirstStack vm) (dstack vm)
    (astack vm) (condStack vm) (numOps vm) (witnessProgram vm) (taprootCtx vm) (sigCache vm).
Definition setSavedFirstStack (v : list (list Z)) (vm : Engine) : Engine :=
  mkEngine (scripts vm) (scriptIdx vm) (opcodeIdx vm) (lastCodeSep vm) (tokenizer vm) v (dstack vm)
    (astack vm) (condStack vm) (numOps vm) (witnessProgram vm) (taprootCtx vm) (sigCache vm).
Definition setDstack (v : stack) (vm : Engine) : Engine :=
  mkEngine (scripts vm) (scriptIdx vm) (opcodeIdx vm) (lastCodeSep vm) (tokenizer vm) (savedFirstStack vm) v
    (astack vm) (condStack vm) (numOps vm) (witnessProgram vm) (taprootCtx vm) (sigCache vm).
Definition setAstack (v : stack) (vm : Engine) : Engine :=
  mkEngine (scripts vm) (scriptIdx vm) (opcodeIdx vm) (lastCodeSep vm) (tokenizer vm) (savedFirstStack vm) (dstack vm)
    v (condStack vm) (numOps vm) (witnessProgram vm) (taprootCtx vm) (sigCache vm).
Definition setCondStack (v : list Z) (vm : Engine) : Engine :=
  mkEngine (scripts vm) (scriptIdx vm) (opcodeIdx vm) (lastCodeSep vm) (tokenizer vm) (savedFirstStack vm) (dstack vm)
    (astack vm) v (numOps vm) (witnessProgram vm) (taprootCtx vm) (sigCache vm).
Definition setNumOps (v : Z) (vm : Engine) : Engine :=
  mkEngine (scripts vm) (scriptIdx vm) (opcodeIdx vm) (lastCodeSep vm) (tokenizer vm) (savedFirstStack vm) (dstack vm)
    (astack vm) (condStack vm) v (witnessProgram vm) (taprootCtx vm) (sigCache vm).
Definition setWitnessProgram (v : option (list Z)) (vm : Engine) : Engine :=
  mkEngine (scripts vm) (scriptIdx vm) (opcodeIdx vm) (lastCodeSep vm) (tokenizer vm) (savedFirstStack vm) (dstack vm)
    (astack vm) (condStack vm) (numOps vm) v (taprootCtx vm) (sigCache vm).
Definition setTaprootCtx (v : option taprootExecutionCtx) (vm : Engine) : Engine :=
  mkEngine (scripts vm) (scriptIdx vm) (opcodeIdx vm) (lastCodeSep vm) (tokenizer vm) (savedFirstStack vm) (dstack vm)
    (astack vm) (condStack vm) (numOps vm) (witnessProgram vm) v (sigCache vm).
Definition setSigCache (v : option SigCache) (vm : Engine) : Engine :=
  mkEngine (scripts vm) (scriptIdx vm) (opcodeIdx vm) (lastCodeSep vm) (tokenizer vm) (savedFirstStack vm) (dstack vm)
    (astack vm) (condStack vm) (numOps vm) (witnessProgram vm) (taprootCtx vm) v.

(** ** Operations *)

Definition engineM (A : Type) : Type := Engine -> result engine_error A * Engine.

#[export] Instance engineM_ret : MRet engineM := fun A a vm => (Ok a, vm).
#[export] Instance engineM_bind : MBind engineM := fun A B f m vm =>
  match m vm with
  | (Ok a, vm') => f a vm'
  | (Err e, vm') => (Err e, vm')
  end.

Definition liftE {A} (r : result engine_error A) : engineM A := fun vm => (r, vm).
Definition scriptError {A} (c : script_error) : engineM A := liftE (Err (ScriptErr c)).
Definition enginePanic {A} (reason : string) : engineM A := liftE (Err (EnginePanic reason)).
Definition nilPointer {A} : engineM A := enginePanic "invalid memory address or nil pointer dereference".
Definition getVM : engineM Engine := fun vm => (Ok vm, vm).
Definition modifyVM (f : Engine -> Engine) : engineM unit := fun vm => (Ok tt, f vm).
Definition failIf (b : bool) (c : script_error) : engineM unit := if b then scriptError c else mret tt.

Definition onDstack {A} (m : stackM A) : engineM A := fun vm =>
  let '(r, s) := m (dstack vm) in (r, setDstack s vm).
Definition onAstack {A} (m : stackM A) : engineM A := fun vm =>
  let '(r, s) := m (astack vm) in (r, setAstack s vm).

Class Ripemd160 := ripemd160 : list Z -> list Z.
Class MapPick := mapPick : gmap (list Z) sigCacheEntry -> list Z.

Section engine.
Context `{Curve : Secp256k1} `{Picks : MapPick}.
Variable e : EngineParams.

Definition hasFlag (flag : Z) : bool := Z.land (flags e) flag =? flag.

Definition isBranchExecuting (vm : Engine) : bool :=
  match last (condStack vm) with None => true | Some c => c =? 1 end.

Definition isWitnessVersionActive (vm : Engine) (version : Z) : bool :=
  isSome (witnessProgram vm) && (witnessVersion e =? version).

Definition subScript (vm : Engine) : list Z :=
  drop (Z.to_nat (lastCodeSep vm)) (nth (Z.to_nat (scriptIdx vm)) (scripts vm) []).

(** ** Encoding checks *)

Definition checkHashTypeEncoding (hashType : Z) : option script_error :=
  if hasFlag ScriptVerifyOBTCReplayProtection then
    if negb (isOBTCReplayProtectedSigHashType hashType) then Some ErrInvalidSigHashType
    else
      let sigHashType := Z.ldiff hashType (Z.lor SigHashAnyOneCanPay SigHashOBTCReplayProtection) in
      if (sigHashType <? SigHashAll) || (SigHashSingle <? sigHashType)
      then Some ErrInvalidSigHashType else None
  else if negb (hasFlag ScriptVerifyStrictEncoding) then None
  else
    let sigHashType := Z.ldiff hashType SigHashAnyOneCanPay in
    if (sigHashType <? SigHashAll) || (SigHashSingle <? sigHashType)
    then Some ErrInvalidSigHashType else None.

Definition checkPubKeyEncoding (vm : Engine) (pubKey : list Z) : option script_error :=
  if hasFlag ScriptVerifyWitnessPubKeyType && isWitnessVersionActive vm BaseSegwitWitnessVersion
     && negb (IsCompressedPubKey pubKey)
  then Some ErrWitnessPubKeyType
  else if negb (hasFlag ScriptVerifyStrictEncoding) then None
  else if (zlen pubKey =? 33) && ((byteAt pubKey 0 =? 0x02) || (byteAt pubKey 0 =? 0x03)) then None
  else if (zlen pubKey =? 65) && (byteAt pubKey 0 =? 0x04) then None
  else Some ErrPubKeyType.

Definition checkSignatureEncoding (sig : list Z) : option script_error :=
  if negb (hasFlag ScriptVerifyDERSignatures) && negb (hasFlag ScriptVerifyLowS)
     && negb (hasFlag ScriptVerifyStrictEncoding)
  then None
  else checkSignatureFormat sig (hasFlag ScriptVerifyLowS).

Definition checked (o : option script_error) : result engine_error unit :=
  match o with Some c => Err (ScriptErr c) | None => Ok tt end.

(** ** Verifiers *)

Record baseSigVerifier := mkBaseSigVerifier {
  bv_pubKey : PublicKey;
  bv_sig : ModNScalar * ModNScalar;
  bv_fullSigBytes : list Z;
  bv_pkBytes : list Z;
  bv_subScript : list Z;
  bv_hashType : Z }.

(** [fullSigBytes[:len(fullSigBytes)-1]] and the byte it cuts off. *)
Definition sigBytesOf (fullSigBytes : list Z) : list Z := take (length fullSigBytes - 1) fullSigBytes.
Definition hashTypeOf (fullSigBytes : list Z) : Z := default 0 (last fullSigBytes).

Definition parseECDSA (sigBytes : list Z) : result engine_error (ModNScalar * ModNScalar) :=
  if hasFlag ScriptVerifyStrictEncoding || hasFlag ScriptVerifyDERSignatures
  then ParseDERSignature sigBytes else ParseSignature sigBytes.

(** [btcec.ParsePubKey], whose errors are not script errors. *)
Definition btcecParsePubKey (pkBytes : list Z) : result engine_error PublicKey :=
  match ParsePubKey pkBytes with
  | Some pubKey => Ok pubKey
  | None => Err (PlainErr "invalid public key")
  end.

Definition parseBaseSigAndPubkey (vm : Engine) (pkBytes fullSigBytes : list Z)
    : result engine_error (PublicKey * (ModNScalar * ModNScalar) * Z) :=
  _ ← (if zlen fullSigBytes =? 0 then Err (EnginePanic "index out of range") else Ok tt);
  let hashType := hashTypeOf fullSigBytes in
  let sigBytes := sigBytesOf fullSigBytes in
  _ ← checked (checkHashTypeEncoding hashType);
  _ ← checked (checkSignatureEncoding sigBytes);
  _ ← checked (checkPubKeyEncoding vm pkBytes);
  pubKey ← btcecParsePubKey pkBytes;
  signature ← parseECDSA sigBytes;
  Ok (pubKey, signature, hashType).

Definition newBaseSigVerifier (vm : Engine) (pkBytes fullSigBytes : list Z)
    : result engine_error baseSigVerifier :=
  '(pubKey, sig, hashType) ← parseBaseSigAndPubkey vm pkBytes fullSigBytes;
  Ok (mkBaseSigVerifier pubKey sig fullSigBytes pkBytes (subScript vm) hashType).

(** The cache is asked first; [verify] is the outcome of verifying. *)
Definition cachedVerify (verify : bool) (sigHash sig pk : list Z) : engineM bool := fun vm =>
  match sigCache vm with
  | None => (Ok verify, vm)
  | Some cache =>
      if SigCacheExists cache sigHash sig pk then (Ok true, vm)
      else if verify
      then (Ok true, setSigCache (Some (SigCacheAdd mapPick cache sigHash sig pk)) vm)
      else (Ok false, vm)
  end.

Definition ecdsaSigVerify (sig : ModNScalar * ModNScalar) (hash : list Z) (pubKey : PublicKey) : bool :=
  ecdsaVerify sig.1 sig.2 hash pubKey.

Definition baseVerifySig (b : baseSigVerifier) (sigHash : list Z) : engineM bool :=
  cachedVerify (ecdsaSigVerify (bv_sig b) sigHash (bv_pubKey b)) sigHash
    (sigBytesOf (bv_fullSigBytes b)) (bv_pkBytes b).

Definition verifyResult : Type := bool * bool.

(** [Verify] of the base verifier: whether the signature is valid, and whether
    it occurs in the script. *)
Definition baseVerify (b : baseSigVerifier) : engineM verifyResult :=
  let '(subScript, matched) := removeOpcodeByData (bv_subScript b) (bv_fullSigBytes b) in
  sigHash ← liftE (calcSignatureHashWithReplayProtection subScript (bv_hashType b) (vm_tx e) (txIdx e)
                     (hasFlag ScriptVerifyOBTCReplayProtection));
  valid ← baseVerifySig b sigHash;
  mret (valid, matched).

Definition sigHashesOf : result engine_error TxSigHashes :=
  match hashCache e with
  | Some sigHashes => Ok sigHashes
  | None => NewTxSigHashes (vm_tx e) (prevOutFetcher e)
  end.

(** An error that is not a panic becomes a failed verification. *)
Definition orInvalid (r : result engine_error (list Z)) (k : list Z -> engineM verifyResult)
    : engineM verifyResult :=
  match r with
  | Ok sigHash => k sigHash
  | Err (EnginePanic s) => enginePanic s
  | Err _ => mret (false, false)
  end.

Definition validOnly (m : engineM bool) : engineM verifyResult := valid ← m; mret (valid, false).

(** [Verify] of the segwit version 0 verifier. *)
Definition segwitVerify (b : baseSigVerifier) : engineM verifyResult :=
  sigHashes ← liftE sigHashesOf;
  orInvalid (calcWitnessSignatureHashRawWithReplayProtection (bv_subScript b) sigHashes (bv_hashType b)
               (vm_tx e) (txIdx e) (inputAmount e) (hasFlag ScriptVerifyOBTCReplayProtection))
    (fun sigHash => validOnly (baseVerifySig b sigHash)).

Record taprootSigVerifier := mkTaprootSigVerifier {
  tv_pubKey : PublicKey;
  tv_pkBytes : list Z;
  tv_fullSigBytes : list Z;
  tv_sig : FieldVal * ModNScalar;
  tv_hashType : Z;
  tv_allow : bool;
  tv_annex : option (list Z) }.

Definition parseTaprootSigAndPubKey (pkBytes rawSig : list Z)
    : result engine_error (PublicKey * (FieldVal * ModNScalar) * Z) :=
  pubKey ← schnorrParsePubKey pkBytes;
  if zlen rawSig =? SignatureSize then
    sig ← schnorrParseSignature rawSig;
    Ok (pubKey, sig, SigHashDefault)
  else if (zlen rawSig =? SignatureSize + 1) && negb (byteAt rawSig 64 =? 0) then
    sig ← schnorrParseSignature (take 64 rawSig);
    Ok (pubKey, sig, byteAt rawSig 64)
  else Err (ScriptErr ErrInvalidTaprootSigLen).

Definition newTaprootSigVerifier (pkBytes fullSigBytes : list Z) (annex : option (list Z)) (allow : bool)
    : result engine_error taprootSigVerifier :=
  '(pubKey, sig, sigHashType) ← parseTaprootSigAndPubKey pkBytes fullSigBytes;
  Ok (mkTaprootSigVerifier pubKey pkBytes fullSigBytes sig sigHashType allow annex).

Definition taprootVerifySig (t : taprootSigVerifier) (sigHash : list Z) : engineM bool :=
  cachedVerify (schnorrSigVerify (tv_sig t) sigHash (tv_pubKey t)) sigHash
    (tv_fullSigBytes t) (tv_pkBytes t).

(** [calcTaprootSignatureHashRaw] with the engine's cache; without one, the
    midstates it reads are behind a nil pointer. *)
Definition taprootSigHash (hashType : Z) (opts : taprootSigHashOptions) : result engine_error (list Z) :=
  match hashCache e with
  | Some sigHashes =>
      calcTaprootSignatureHashRaw sigHashes hashType (vm_tx e) (txIdx e) (prevOutFetcher e) opts
  | None =>
      let blank := mkTxSigHashes [] [] [] [] [] [] [] [] in
      let replay := isOBTCReplayProtectedSigHashType hashType in
      let normalized := if replay then stripOBTCReplayProtection hashType else hashType in
      if negb (replay && negb (allowOBTCReplayProtection opts)) && isValidTaprootSigHash normalized
         && isSome (TxIns (vm_tx e) !! txIdx e)
         && (negb (Z.land normalized SigHashAnyOneCanPay =? SigHashAnyOneCanPay)
             || (negb (Z.land normalized SigHashSingle =? SigHashSingle)
                 && negb (Z.land normalized SigHashSingle =? SigHashNone)))
      then Err (EnginePanic "invalid memory address or nil pointer dereference")
      else calcTaprootSignatureHashRaw blank hashType (vm_tx e) (txIdx e) (prevOutFetcher e) opts
  end.

Definition withAnnexOpt (annex : option (list Z)) (o : taprootSigHashOptions) : taprootSigHashOptions :=
  match annex with Some a => WithAnnex a o | None => o end.

Definition withReplayOpt (allow : bool) (o : taprootSigHashOptions) : taprootSigHashOptions :=
  if allow then WithOBTCReplayProtectionSighash o else o.

(** [Verify] of the key spend verifier. *)
Definition taprootVerify (t : taprootSigVerifier) : engineM verifyResult :=
  let opts := withReplayOpt (tv_allow t) (withAnnexOpt (tv_annex t) defaultTaprootSighashOptions) in
  orInvalid (taprootSigHash (tv_hashType t) opts) (fun sigHash => validOnly (taprootVerifySig t sigHash)).

(** [None] is the verifier with no public key, of an unknown key type. *)
Definition newBaseTapscriptSigVerifier (ctx : taprootExecutionCtx) (pkBytes rawSig : list Z)
    : result engine_error (option taprootSigVerifier) :=
  if zlen pkBytes =? 0 then Err (ScriptErr ErrTaprootPubkeyIsEmpty)
  else if zlen pkBytes =? 32 then
    t ← newTaprootSigVerifier pkBytes rawSig (ctx_annex ctx) (hasFlag ScriptVerifyOBTCReplayProtection);
    if hasFlag ScriptVerifyOBTCReplayProtection
       && negb (isOBTCReplayProtectedSigHashType (tv_hashType t))
    then Err (ScriptErr ErrInvalidSigHashType)
    else Ok (Some t)
  else if hasFlag ScriptVerifyDiscourageUpgradeablePubkeyType
  then Err (ScriptErr ErrDiscourageUpgradeablePubKeyType)
  else Ok None.

(** [Verify] of the tapscript verifier. *)
Definition tapscriptVerify (ctx : taprootExecutionCtx) (o : option taprootSigVerifier)
    : engineM verifyResult :=
  match o with
  | None => mret (true, false)
  | Some t =>
      let opts := withReplayOpt (tv_allow t)
                    (withAnnexOpt (ctx_annex ctx)
                       (WithBaseTapscriptVersion (ctx_codeSepPos ctx) (ctx_tapLeafHash ctx)
                          defaultTaprootSighashOptions)) in
      orInvalid (taprootSigHash (tv_hashType t) opts)
        (fun sigHash => validOnly (taprootVerifySig t sigHash))
  end.

(** [annex, _ = extractAnnex(witness)], under the check that there is one. *)
Definition annexOf (witness : list (list Z)) : option (list Z) :=
  if isAnnexedWitness witness
  then match extractAnnex witness with Ok a => Some a | Err _ => None end else None.

(** The witness of the input being validated. *)
Definition inputWitness : list (list Z) :=
  match TxIns (vm_tx e) !! txIdx e with Some ti => Witness ti | None => [] end.

Definition verifyTaprootKeySpend (witnessProgram rawSig : list Z) : engineM unit :=
  t ← liftE (newTaprootSigVerifier witnessProgram rawSig (annexOf inputWitness)
               (hasFlag ScriptVerifyOBTCReplayProtection));
  '(sigValid, _) ← taprootVerify t;
  if (sigValid : bool) then mret tt else scriptError ErrTaprootSigInvalid.

End engine.
