(* ===== verification/Opcodes.v ===== *)
(** * Opcodes

    The opcode implementations of src/txscript/opcode.go. Consecutive opcodes
    that differ in one expression are one definition with the opcode as an
    argument; [opfunc] is the table [opcodeArray]. Script numbers are [int64],
    so arithmetic wraps there, although operands of at most four bytes keep it
    from happening. *)

From S2P Require Import Prelude Sha256 Sha1 Wire Commitment Script ScriptNum Standard SigHash Signature Taproot Engine.

#[local] Set Warnings "-notation-for-abbreviation".

Notation OpCondFalse := 0 (only parsing).
Notation OpCondTrue := 1 (only parsing).
Notation OpCondSkip := 2 (only parsing).
Notation LockTimeThreshold := 500000000 (only parsing).
Notation MaxTxInSequenceNum := 0xffffffff (only parsing).
Notation SequenceLockTimeDisabled := 0x80000000 (only parsing).
Notation SequenceLockTimeIsSeconds := 0x400000 (only parsing).
Notation SequenceLockTimeMask := 0xffff (only parsing).

Section opcodes.
Context `{Curve : Secp256k1} `{Hash160 : Ripemd160} `{Picks : MapPick}.
Variable e : EngineParams.

(** ** Constants and flow control *)

Definition opcodeNop (op : Z) : engineM unit :=
  failIf (((op =? OP_NOP1) || ((OP_NOP4 <=? op) && (op <=? OP_NOP10)))
          && hasFlag e ScriptDiscourageUpgradableNops) ErrDiscourageUpgradableNOPs.

Definition popIfBool : engineM bool :=
  vm ← getVM;
  if negb (isWitnessVersionActive e vm TaprootWitnessVersion)
     && (negb (isWitnessVersionActive e vm BaseSegwitWitnessVersion)
         || negb (hasFlag e ScriptVerifyMinimalIf))
  then onDstack PopBool
  else
    so ← onDstack PopByteArray;
    _ ← failIf (1 <? zlen so) ErrMinimalIf;
    _ ← failIf ((zlen so =? 1) && negb (byteAt so 0 =? 0x01)) ErrMinimalIf;
    mret (asBool so).

(** [opcodeIf], and [opcodeNotIf] with [whenTrue] false. *)
Definition opcodeIf (whenTrue : bool) : engineM unit :=
  vm ← getVM;
  condVal ← (if isBranchExecuting vm
             then ok ← popIfBool; mret (if eqb ok whenTrue then OpCondTrue else OpCondFalse)
             else mret OpCondSkip);
  modifyVM (fun vm => setCondStack (condStack vm ++ [condVal]) vm).

Definition opcodeElse : engineM unit :=
  vm ← getVM;
  match last (condStack vm) with
  | None => scriptError ErrUnbalancedConditional
  | Some c =>
      let c' := if c =? OpCondTrue then OpCondFalse else if c =? OpCondFalse then OpCondTrue else c in
      modifyVM (setCondStack (take (length (condStack vm) - 1) (condStack vm) ++ [c']))
  end.

Definition opcodeEndif : engineM unit :=
  vm ← getVM;
  match last (condStack vm) with
  | None => scriptError ErrUnbalancedConditional
  | Some _ => modifyVM (setCondStack (take (length (condStack vm) - 1) (condStack vm)))
  end.

Definition abstractVerify (c : script_error) : engineM unit :=
  verified ← onDstack PopBool;
  failIf (negb verified) c.

(** ** Lock times *)

Definition verifyLockTime (txLockTime threshold lockTime : Z) : option script_error :=
  if negb (((txLockTime <? threshold) && (lockTime <? threshold))
           || ((threshold <=? txLockTime) && (threshold <=? lockTime)))
  then Some ErrUnsatisfiedLockTime
  else if txLockTime <? lockTime then Some ErrUnsatisfiedLockTime
  else None.

(** The operand of the two lock time opcodes: five bytes, not negative. *)
Definition peekLockTime : engineM Z :=
  so ← onDstack (PeekByteArray 0);
  vm ← getVM;
  lockTime ← liftE (liftScript (MakeScriptNum so (verifyMinimalData (dstack vm)) cltvMaxScriptNumLen));
  _ ← failIf (lockTime <? 0) ErrNegativeLockTime;
  mret lockTime.

(** [vm.tx.TxIn[vm.txIdx].Sequence]. *)
Definition inputSequence : Z :=
  match TxIns (vm_tx e) !! txIdx e with Some ti => Sequence ti | None => 0 end.

Definition opcodeCheckLockTimeVerify : engineM unit :=
  if negb (hasFlag e ScriptVerifyCheckLockTimeVerify)
  then failIf (hasFlag e ScriptDiscourageUpgradableNops) ErrDiscourageUpgradableNOPs
  else
    lockTime ← peekLockTime;
    _ ← liftE (checked (verifyLockTime (LockTime (vm_tx e)) LockTimeThreshold lockTime));
    failIf (inputSequence =? MaxTxInSequenceNum) ErrUnsatisfiedLockTime.

Definition opcodeCheckSequenceVerify : engineM unit :=
  if negb (hasFlag e ScriptVerifyCheckSequenceVerify)
  then failIf (hasFlag e ScriptDiscourageUpgradableNops) ErrDiscourageUpgradableNOPs
  else
    sequence ← peekLockTime;
    if negb (Z.land sequence SequenceLockTimeDisabled =? 0) then mret tt
    else
      _ ← failIf (u32 (Version (vm_tx e)) <? 2) ErrUnsatisfiedLockTime;
      _ ← failIf (negb (Z.land inputSequence SequenceLockTimeDisabled =? 0)) ErrUnsatisfiedLockTime;
      let lockTimeMask := Z.lor SequenceLockTimeIsSeconds SequenceLockTimeMask in
      liftE (checked (verifyLockTime (Z.land inputSequence lockTimeMask) SequenceLockTimeIsSeconds
                        (Z.land sequence lockTimeMask))).

(** ** The stacks *)

Definition opcodeToAltStack : engineM unit :=
  so ← onDstack PopByteArray; onAstack (PushByteArray so).

Definition opcodeFromAltStack : engineM unit :=
  so ← onAstack PopByteArray; onDstack (PushByteArray so).

Definition opcodeIfDup : engineM unit :=
  so ← onDstack (PeekByteArray 0);
  if asBool so then onDstack (PushByteArray so) else mret tt.

Definition opcodeDepth : engineM unit :=
  vm ← getVM; onDstack (PushInt (Depth (dstack vm))).

Definition opcodePick : engineM unit :=
  val ← onDstack PopInt; onDstack (PickN (scriptNumInt32 val)).

Definition opcodeRoll : engineM unit :=
  val ← onDstack PopInt; onDstack (RollN (scriptNumInt32 val)).

Definition opcodeSize : engineM unit :=
  so ← onDstack (PeekByteArray 0); onDstack (PushInt (zlen so)).

(** The opcodes from OP_TOALTSTACK to OP_TUCK. *)
Definition opcodeStack (op : Z) : engineM unit :=
  if op =? OP_TOALTSTACK then opcodeToAltStack
  else if op =? OP_FROMALTSTACK then opcodeFromAltStack
  else if op =? OP_2DROP then onDstack (DropN 2)
  else if op =? OP_2DUP then onDstack (DupN 2)
  else if op =? OP_3DUP then onDstack (DupN 3)
  else if op =? OP_2OVER then onDstack (OverN 2)
  else if op =? OP_2ROT then onDstack (RotN 2)
  else if op =? OP_2SWAP then onDstack (SwapN 2)
  else if op =? OP_IFDUP then opcodeIfDup
  else if op =? OP_DEPTH then opcodeDepth
  else if op =? OP_DROP then onDstack (DropN 1)
  else if op =? OP_DUP then onDstack (DupN 1)
  else if op =? OP_NIP then onDstack (NipN 1)
  else if op =? OP_OVER then onDstack (OverN 1)
  else if op =? OP_PICK then opcodePick
  else if op =? OP_ROLL then opcodeRoll
  else if op =? OP_ROT then onDstack (RotN 1)
  else if op =? OP_SWAP then onDstack (SwapN 1)
  else onDstack Tuck.

(** [bytes.Equal] *)
Definition bytesEqual (a b : list Z) : bool := bool_decide (a = b).

Definition opcodeEqual : engineM unit :=
  a ← onDstack PopByteArray;
  b ← onDstack PopByteArray;
  onDstack (PushBool (bytesEqual a b)).

(** ** Numbers *)

Definition ofBool (b : bool) : Z := if b then 1 else 0.

(** OP_1ADD to OP_0NOTEQUAL. *)
Definition unaryValue (op m : Z) : Z :=
  if op =? OP_1ADD then i64 (m + 1)
  else if op =? OP_1SUB then i64 (m - 1)
  else if op =? OP_NEGATE then i64 (- m)
  else if op =? OP_ABS then (if m <? 0 then i64 (- m) else m)
  else if op =? OP_NOT then ofBool (m =? 0)
  else if negb (m =? 0) then 1 else m.

Definition opcodeUnary (op : Z) : engineM unit :=
  m ← onDstack PopInt; onDstack (PushInt (unaryValue op m)).

(** OP_ADD to OP_MAX; [v0] is the top item. *)
Definition binaryValue (op v0 v1 : Z) : Z :=
  if op =? OP_ADD then i64 (v0 + v1)
  else if op =? OP_SUB then i64 (v1 - v0)
  else if op =? OP_BOOLAND then ofBool (negb (v0 =? 0) && negb (v1 =? 0))
  else if op =? OP_BOOLOR then ofBool (negb (v0 =? 0) || negb (v1 =? 0))
  else if op =? OP_NUMEQUAL then ofBool (v0 =? v1)
  else if op =? OP_NUMNOTEQUAL then ofBool (negb (v0 =? v1))
  else if op =? OP_LESSTHAN then ofBool (v1 <? v0)
  else if op =? OP_GREATERTHAN then ofBool (v0 <? v1)
  else if op =? OP_LESSTHANOREQUAL then ofBool (v1 <=? v0)
  else if op =? OP_GREATERTHANOREQUAL then ofBool (v0 <=? v1)
  else if op =? OP_MIN then (if v1 <? v0 then v1 else v0)
  else if v0 <? v1 then v1 else v0.

Definition opcodeBinary (op : Z) : engineM unit :=
  v0 ← onDstack PopInt;
  v1 ← onDstack PopInt;
  onDstack (PushInt (binaryValue op v0 v1)).

Definition opcodeNumEqualVerify : engineM unit :=
  _ ← opcodeBinary OP_NUMEQUAL; abstractVerify ErrNumEqualVerify.

Definition opcodeWithin : engineM unit :=
  maxVal ← onDstack PopInt;
  minVal ← onDstack PopInt;
  x ← onDstack PopInt;
  onDstack (PushInt (ofBool ((minVal <=? x) && (x <? maxVal)))).

(** ** Hashes *)

(** OP_RIPEMD160 to OP_HASH256. *)
Definition hashValue (op : Z) (buf : list Z) : list Z :=
  if op =? OP_RIPEMD160 then ripemd160 buf
  else if op =? OP_SHA1 then Sha1.sum buf
  else if op =? OP_SHA256 then Sha256.sum256 buf
  else if op =? OP_HASH160 then ripemd160 (Sha256.sum256 buf)
  else DoubleHashB buf.

Definition opcodeHash (op : Z) : engineM unit :=
  buf ← onDstack PopByteArray; onDstack (PushByteArray (hashValue op buf)).

(** ** Signatures *)

Definition opcodeCodeSeparator : engineM unit :=
  vm ← getVM;
  _ ← modifyVM (setLastCodeSep (tk_offset (tokenizer vm)));
  match taprootCtx vm with
  | Some ctx =>
      modifyVM (setTaprootCtx (Some (mkTaprootCtx (ctx_annex ctx) (u32 (tk_opcodePos (tokenizer vm)))
                                       (ctx_tapLeafHash ctx) (sigOpsBudget ctx) (mustSucceed ctx))))
  | None =>
      failIf (negb (isSome (witnessProgram vm)) && hasFlag e ScriptVerifyConstScriptCode) ErrCodeSeparator
  end.

Definition getCtx : engineM taprootExecutionCtx :=
  vm ← getVM; match taprootCtx vm with Some ctx => mret ctx | None => nilPointer end.

Definition tallysigOp : engineM unit :=
  ctx ← getCtx;
  let budget := i32 (sigOpsBudget ctx - sigOpsDelta) in
  _ ← modifyVM (setTaprootCtx (Some (mkTaprootCtx (ctx_annex ctx) (ctx_codeSepPos ctx)
                                       (ctx_tapLeafHash ctx) budget (mustSucceed ctx))));
  failIf (budget <? 0) ErrTaprootMaxSigOps.

(** [opcodeCheckSig] from the call of [sigVerifier.Verify] on. *)
Definition finishCheckSig (fullSigBytes : list Z) (verify : engineM verifyResult) : engineM unit :=
  '(valid, sigMatch) ← verify;
  vm ← getVM;
  _ ← failIf (hasFlag e ScriptVerifyConstScriptCode && sigMatch) ErrNonConstScriptCode;
  _ ← failIf ((negb valid && isSome (taprootCtx vm) && negb (zlen fullSigBytes =? 0))
              || (negb valid && hasFlag e ScriptVerifyNullFail && (0 <? zlen fullSigBytes))) ErrNullFail;
  onDstack (PushBool valid).

(** A base verifier; an error that is not a script error is a failed check. *)
Definition checkSigBase (pkBytes fullSigBytes : list Z)
    (verify : baseSigVerifier -> engineM verifyResult) : engineM unit :=
  vm ← getVM;
  match newBaseSigVerifier e vm pkBytes fullSigBytes with
  | Ok sigVerifier => finishCheckSig fullSigBytes (verify sigVerifier)
  | Err (PlainErr _) => onDstack (PushBool false)
  | Err err => liftE (Err err)
  end.

(** What [opcodeCheckSig] and [opcodeCheckSigAdd] share in a tapscript: the
    budget, the check of the key, [onEmpty] for an empty signature. *)
Definition tapscriptSig (pkBytes fullSigBytes : list Z) (onEmpty : engineM unit)
    (k : engineM verifyResult -> engineM unit) : engineM unit :=
  _ ← (if 0 <? zlen fullSigBytes then tallysigOp else mret tt);
  _ ← failIf (zlen pkBytes =? 0) ErrTaprootPubkeyIsEmpty;
  if zlen fullSigBytes =? 0 then onEmpty
  else
    ctx ← getCtx;
    sigVerifier ← liftE (newBaseTapscriptSigVerifier e ctx pkBytes fullSigBytes);
    k (tapscriptVerify e ctx sigVerifier).

Definition opcodeCheckSig : engineM unit :=
  pkBytes ← onDstack PopByteArray;
  fullSigBytes ← onDstack PopByteArray;
  vm ← getVM;
  if negb (isSome (taprootCtx vm)) && (zlen fullSigBytes <? 1) then onDstack (PushBool false)
  else if negb (isSome (witnessProgram vm)) then checkSigBase pkBytes fullSigBytes (baseVerify e)
  else if isWitnessVersionActive e vm BaseSegwitWitnessVersion
  then checkSigBase pkBytes fullSigBytes (segwitVerify e)
  else if isSome (taprootCtx vm)
  then tapscriptSig pkBytes fullSigBytes (onDstack (PushByteArray [])) (finishCheckSig fullSigBytes)
  else nilPointer.

Definition opcodeCheckSigVerify : engineM unit :=
  _ ← opcodeCheckSig; abstractVerify ErrCheckSigVerify.

Definition finishCheckSigAdd (accumulatorInt : Z) (verify : engineM verifyResult) : engineM unit :=
  '(sigValid, _) ← verify;
  _ ← failIf (negb sigValid) ErrNullFail;
  onDstack (PushInt (i64 (accumulatorInt + 1))).

Definition opcodeCheckSigAdd : engineM unit :=
  vm ← getVM;
  _ ← failIf (negb (isSome (taprootCtx vm))) ErrReservedOpcode;
  pubKeyBytes ← onDstack PopByteArray;
  accumulatorInt ← onDstack PopInt;
  sigBytes ← onDstack PopByteArray;
  tapscriptSig pubKeyBytes sigBytes (onDstack (PushInt accumulatorInt)) (finishCheckSigAdd accumulatorInt).

(** *** Multiple signatures *)

Fixpoint popMany (n : nat) : engineM (list (list Z)) :=
  match n with
  | O => mret []
  | S n' => x ← onDstack PopByteArray; xs ← popMany n'; mret (x :: xs)
  end.

(** A count popped from the stack, with the error for one out of range. *)
Definition popCount (maxCount : Z) (c : script_error) : engineM Z :=
  num ← onDstack PopInt;
  _ ← failIf (scriptNumInt32 num <? 0) c;
  _ ← failIf (maxCount <? scriptNumInt32 num) c;
  mret (scriptNumInt32 num).

Fixpoint removeSigs (signatures : list (list Z)) (script : list Z) : engineM (list Z) :=
  match signatures with
  | [] => mret script
  | sig :: signatures' =>
      let '(script', matched) := removeOpcodeByData script sig in
      _ ← failIf (hasFlag e ScriptVerifyConstScriptCode && matched) ErrNonConstScriptCode;
      removeSigs signatures' script'
  end.

(** [parsedSigInfo]: not parsed yet, failed to parse, or the signature. *)
Definition parsedSigInfo : Type := option (option (ModNScalar * ModNScalar)).

Definition parseSigInfo (rawSig : list Z) (parsed : parsedSigInfo)
    : engineM (option (ModNScalar * ModNScalar)) :=
  match parsed with
  | Some p => mret p
  | None =>
      _ ← liftE (checked (checkHashTypeEncoding e (hashTypeOf rawSig)));
      _ ← liftE (checked (checkSignatureEncoding e (sigBytesOf rawSig)));
      mret (match parseECDSA e (sigBytesOf rawSig) with Ok sig => Some sig | Err _ => None end)
  end.

Definition multiSigHash (script : list Z) (hashType : Z) : engineM (list Z) :=
  vm ← getVM;
  if isWitnessVersionActive e vm BaseSegwitWitnessVersion then
    sigHashes ← liftE (sigHashesOf e);
    liftE (calcWitnessSignatureHashRawWithReplayProtection script sigHashes hashType (vm_tx e) (txIdx e)
             (inputAmount e) (hasFlag e ScriptVerifyOBTCReplayProtection))
  else liftE (calcSignatureHashWithReplayProtection script hashType (vm_tx e) (txIdx e)
                (hasFlag e ScriptVerifyOBTCReplayProtection)).

(** One signature against one key: whether it is valid, and what is now known
    of the signature. *)
Definition multiSigKey (script rawSig : list Z) (parsed : parsedSigInfo) (pubKey : list Z)
    : engineM (parsedSigInfo * bool) :=
  if zlen rawSig =? 0 then mret (parsed, false)
  else
    parsedSig ← parseSigInfo rawSig parsed;
    match parsedSig with
    | None => mret (Some None, false)
    | Some sig =>
        vm ← getVM;
        _ ← liftE (checked (checkPubKeyEncoding e vm pubKey));
        match ParsePubKey pubKey with
        | None => mret (Some (Some sig), false)
        | Some parsedPubKey =>
            hash ← multiSigHash script (hashTypeOf rawSig);
            valid ← cachedVerify (ecdsaSigVerify sig hash parsedPubKey) hash (sigBytesOf rawSig) pubKey;
            mret (Some (Some sig), valid)
        end
    end.

(** The loop: the signatures and the keys that remain. *)
Fixpoint multiSigLoop (script : list Z) (signatures : list (list Z)) (parsed : parsedSigInfo)
    (pubKeys : list (list Z)) {struct pubKeys} : engineM bool :=
  match signatures with
  | [] => mret true
  | rawSig :: signatures' =>
      match pubKeys with
      | [] => mret false
      | pubKey :: pubKeys' =>
          if (length pubKeys <? length signatures)%nat then mret false
          else
            '(parsed', valid) ← multiSigKey script rawSig parsed pubKey;
            if (valid : bool) then multiSigLoop script signatures' None pubKeys'
            else multiSigLoop script signatures parsed' pubKeys'
      end
  end.

Definition opcodeCheckMultiSig : engineM unit :=
  vm ← getVM;
  _ ← failIf (isSome (taprootCtx vm)) ErrTapscriptCheckMultisig;
  numPubKeys ← popCount MaxPubKeysPerMultiSig ErrInvalidPubKeyCount;
  _ ← modifyVM (fun vm => setNumOps (numOps vm + numPubKeys) vm);
  vm ← getVM;
  _ ← failIf (MaxOpsPerScript <? numOps vm) ErrTooManyOperations;
  pubKeys ← popMany (Z.to_nat numPubKeys);
  numSignatures ← popCount numPubKeys ErrInvalidSignatureCount;
  signatures ← popMany (Z.to_nat numSignatures);
  dummy ← onDstack PopByteArray;
  _ ← failIf (hasFlag e ScriptStrictMultiSig && negb (zlen dummy =? 0)) ErrSigNullDummy;
  vm ← getVM;
  script ← (if negb (isWitnessVersionActive e vm BaseSegwitWitnessVersion)
            then removeSigs signatures (subScript vm) else mret (subScript vm));
  success ← multiSigLoop script signatures None pubKeys;
  _ ← failIf (negb success && hasFlag e ScriptVerifyNullFail
              && existsb (fun sig => 0 <? zlen sig) signatures) ErrNullFail;
  onDstack (PushBool success).

(** ** The table *)

Definition opfunc (op : Z) (data : list Z) : engineM unit :=
  if op =? OP_0 then onDstack (PushByteArray [])
  else if op <=? OP_PUSHDATA4 then onDstack (PushByteArray data)
  else if op =? OP_1NEGATE then onDstack (PushInt (-1))
  else if op =? OP_RESERVED then scriptError ErrReservedOpcode
  else if op <=? OP_16 then onDstack (PushInt (op - (OP_1 - 1)))
  else if op =? OP_NOP then opcodeNop op
  else if op =? OP_VER then scriptError ErrReservedOpcode
  else if op =? OP_IF then opcodeIf true
  else if op =? OP_NOTIF then opcodeIf false
  else if (op =? OP_VERIF) || (op =? OP_VERNOTIF) then scriptError ErrReservedOpcode
  else if op =? OP_ELSE then opcodeElse
  else if op =? OP_ENDIF then opcodeEndif
  else if op =? OP_VERIFY then abstractVerify ErrVerify
  else if op =? OP_RETURN then scriptError ErrEarlyReturn
  else if op <=? OP_TUCK then opcodeStack op
  else if op <=? OP_RIGHT then scriptError ErrDisabledOpcode
  else if op =? OP_SIZE then opcodeSize
  else if op <=? OP_XOR then scriptError ErrDisabledOpcode
  else if op =? OP_EQUAL then opcodeEqual
  else if op =? OP_EQUALVERIFY then _ ← opcodeEqual; abstractVerify ErrEqualVerify
  else if op <=? OP_RESERVED2 then scriptError ErrReservedOpcode
  else if (op =? OP_2MUL) || (op =? OP_2DIV) then scriptError ErrDisabledOpcode
  else if op <=? OP_0NOTEQUAL then opcodeUnary op
  else if (OP_MUL <=? op) && (op <=? OP_RSHIFT) then scriptError ErrDisabledOpcode
  else if op =? OP_NUMEQUALVERIFY then opcodeNumEqualVerify
  else if op <=? OP_MAX then opcodeBinary op
  else if op =? OP_WITHIN then opcodeWithin
  else if op <=? OP_HASH256 then opcodeHash op
  else if op =? OP_CODESEPARATOR then opcodeCodeSeparator
  else if op =? OP_CHECKSIG then opcodeCheckSig
  else if op =? OP_CHECKSIGVERIFY then opcodeCheckSigVerify
  else if op =? OP_CHECKMULTISIG then opcodeCheckMultiSig
  else if op =? OP_CHECKMULTISIGVERIFY then _ ← opcodeCheckMultiSig; abstractVerify ErrCheckMultiSigVerify
  else if op =? OP_CHECKLOCKTIMEVERIFY then opcodeCheckLockTimeVerify
  else if op =? OP_CHECKSEQUENCEVERIFY then opcodeCheckSequenceVerify
  else if op <=? OP_NOP10 then opcodeNop op
  else if op =? OP_CHECKSIGADD then opcodeCheckSigAdd
  else scriptError ErrReservedOpcode.

End opcodes.
