(* ===== verification/EngineExec.v ===== *)
(** * The script engine: execution

    The loop of src/txscript/engine.go: [executeOpcode], [Step],
    [verifyWitnessProgram], [CheckErrorCondition], [Execute] and [NewEngine],
    and the flag src/blockchain/validation_obtc_replay.go adds. [execLoop] runs
    on fuel; [None] means that it was used up. *)

From S2P Require Import Prelude ChainParams Sha256 Sha1 Wire Commitment Script ScriptNum Standard SigHash Signature Taproot Engine Opcodes.

#[local] Set Warnings "-notation-for-abbreviation".

Definition isOpcodeDisabled (opcode : Z) : bool :=
  bool_decide (opcode ∈ [OP_CAT; OP_SUBSTR; OP_LEFT; OP_RIGHT; OP_INVERT; OP_AND; OP_OR; OP_XOR;
                         OP_2MUL; OP_2DIV; OP_MUL; OP_DIV; OP_MOD; OP_LSHIFT; OP_RSHIFT]).

Definition isOpcodeAlwaysIllegal (opcode : Z) : bool := (opcode =? OP_VERIF) || (opcode =? OP_VERNOTIF).

Definition isOpcodeConditional (opcode : Z) : bool :=
  (opcode =? OP_IF) || (opcode =? OP_NOTIF) || (opcode =? OP_ELSE) || (opcode =? OP_ENDIF).

Definition checkMinimalDataPush (opcodeVal : Z) (data : list Z) : option script_error :=
  let dataLen := zlen data in
  let b := byteAt data 0 in
  let expect (c : bool) := if c then None else Some ErrMinimalData in
  if (dataLen =? 0) && negb (opcodeVal =? OP_0) then Some ErrMinimalData
  else if (dataLen =? 1) && (1 <=? b) && (b <=? 16) then expect (opcodeVal =? OP_1 + b - 1)
  else if (dataLen =? 1) && (b =? 0x81) then expect (opcodeVal =? OP_1NEGATE)
  else if dataLen <=? 75 then expect (opcodeVal =? dataLen)
  else if dataLen <=? 255 then expect (opcodeVal =? OP_PUSHDATA1)
  else if dataLen <=? 65535 then expect (opcodeVal =? OP_PUSHDATA2)
  else None.

(** [getStack] and [setStack] of the data stack. *)
Definition GetStack (vm : Engine) : list (list Z) := stk (dstack vm).

Definition SetStack (data : list (list Z)) : engineM unit :=
  modifyVM (fun vm => setDstack (setStk (dstack vm) data) vm).

Definition appendScript (script : list Z) : engineM unit :=
  modifyVM (fun vm => setScripts (scripts vm ++ [script]) vm).

Definition parses (script : list Z) : engineM unit := liftE (checked (checkScriptParses script)).

Section execution.
Context `{Curve : Secp256k1} `{Hash160 : Ripemd160} `{Picks : MapPick}.
Variable e : EngineParams.

(** ** One opcode *)

Definition executeOpcode (op : Z) (data : list Z) : engineM unit :=
  _ ← failIf (isOpcodeDisabled op) ErrDisabledOpcode;
  _ ← failIf (isOpcodeAlwaysIllegal op) ErrReservedOpcode;
  vm ← getVM;
  _ ← (if negb (isSome (taprootCtx vm)) && (OP_16 <? op) then
         _ ← modifyVM (setNumOps (numOps vm + 1));
         failIf (MaxOpsPerScript <? numOps vm + 1) ErrTooManyOperations
       else failIf (MaxScriptElementSize <? zlen data) ErrElementTooBig);
  if negb (isBranchExecuting vm) && negb (isOpcodeConditional op) then mret tt
  else
    _ ← (if verifyMinimalData (dstack vm) && isBranchExecuting vm && (op <=? OP_PUSHDATA4)
         then liftE (checked (checkMinimalDataPush op data)) else mret tt);
    opfunc e op data.

(** ** Witness programs *)

(** A version 0 program: a public key hash or a script hash. *)
Definition verifyWitnessV0 (program : list Z) (witness : list (list Z)) : engineM unit :=
  if zlen program =? payToWitnessPubKeyHashDataSize then
    _ ← failIf (negb (zlen witness =? 2)) ErrWitnessProgramMismatch;
    pkScript ← liftE (match payToPubKeyHashScript program with
                      | Ok s => Ok s
                      | Err _ => Err (PlainErr "script not canonical")
                      end);
    _ ← parses pkScript;
    _ ← appendScript pkScript;
    SetStack witness
  else if zlen program =? payToWitnessScriptHashDataSize then
    _ ← failIf (zlen witness =? 0) ErrWitnessProgramEmpty;
    let witnessScript := default [] (last witness) in
    _ ← failIf (MaxScriptSize <? zlen witnessScript) ErrScriptTooBig;
    _ ← failIf (negb (bool_decide (Sha256.sum256 witnessScript = program))) ErrWitnessProgramMismatch;
    _ ← parses witnessScript;
    _ ← appendScript witnessScript;
    SetStack (take (length witness - 1) witness)
  else scriptError ErrWitnessProgramWrongLength.

Definition setMustSucceed (c : taprootExecutionCtx) : taprootExecutionCtx :=
  mkTaprootCtx (ctx_annex c) (ctx_codeSepPos c) (ctx_tapLeafHash c) (sigOpsBudget c) true.

Definition setTapLeafHash (h : list Z) (c : taprootExecutionCtx) : taprootExecutionCtx :=
  mkTaprootCtx (ctx_annex c) (ctx_codeSepPos c) h (sigOpsBudget c) (mustSucceed c).

Definition modifyCtx (f : taprootExecutionCtx -> taprootExecutionCtx) : engineM unit :=
  modifyVM (fun vm => setTaprootCtx (f <$> taprootCtx vm) vm).

Definition succeedNow : engineM bool := _ ← modifyCtx setMustSucceed; mret true.

(** A key spend: one witness element. *)
Definition verifyKeyPath (program rawSig : list Z) : engineM bool :=
  _ ← failIf (hasFlag e ScriptVerifyOBTCReplayProtection
              && (negb (zlen rawSig =? SignatureSize + 1) || (byteAt rawSig 64 =? 0)
                  || negb (isOBTCReplayProtectedSigHashType (byteAt rawSig 64))))
        ErrInvalidSigHashType;
  _ ← verifyTaprootKeySpend e program rawSig;
  succeedNow.

(** A script spend: the script and its control block are the last two
    elements. *)
Definition verifyScriptPath (program : list Z) (witness : list (list Z)) : engineM bool :=
  let n := length witness in
  let witnessScript := nth (n - 2) witness [] in
  controlBlock ← liftE (ParseControlBlock (nth (n - 1) witness []));
  _ ← liftE (VerifyTaprootLeafCommitment controlBlock program witnessScript);
  if ScriptHasOpSuccess witnessScript then
    _ ← failIf (hasFlag e ScriptVerifyDiscourageOpSuccess) ErrDiscourageOpSuccess;
    succeedNow
  else if negb (cbLeafVersion controlBlock =? BaseLeafVersion) then
    _ ← failIf (hasFlag e ScriptVerifyDiscourageUpgradeableTaprootVersion)
          ErrDiscourageUpgradeableTaprootVersion;
    succeedNow
  else
    _ ← parses witnessScript;
    _ ← modifyCtx (setTapLeafHash (leafTapHash (mkTapLeaf BaseLeafVersion witnessScript)));
    _ ← appendScript witnessScript;
    _ ← SetStack (take (n - 2) witness);
    mret false.

(** A version 1 program; the result says whether the source returns here. *)
Definition verifyWitnessV1 (program : list Z) (witness : list (list Z)) : engineM bool :=
  if negb (hasFlag e ScriptVerifyTaproot) then mret true
  else
    _ ← failIf (zlen witness =? 0) ErrWitnessProgramEmpty;
    let ctx := newTaprootExecutionCtx (i32 (TxWitnessSerializeSize witness)) in
    let ctx := mkTaprootCtx (annexOf witness) (ctx_codeSepPos ctx) (ctx_tapLeafHash ctx)
                 (sigOpsBudget ctx) (mustSucceed ctx) in
    _ ← modifyVM (setTaprootCtx (Some ctx));
    let witness := if isAnnexedWitness witness then take (length witness - 1) witness else witness in
    if zlen witness =? 1 then verifyKeyPath program (nth 0 witness [])
    else verifyScriptPath program witness.

(** The checks after the switch. *)
Definition checkWitnessStack : engineM unit :=
  vm ← getVM;
  if isWitnessVersionActive e vm TaprootWitnessVersion
     || isWitnessVersionActive e vm BaseSegwitWitnessVersion then
    _ ← failIf (isWitnessVersionActive e vm TaprootWitnessVersion
                && (MaxStackSize <? Depth (dstack vm))) ErrStackOverflow;
    failIf (existsb (fun witElement => MaxScriptElementSize <? zlen witElement) (GetStack vm))
      ErrElementTooBig
  else mret tt.

Definition verifyWitnessProgram (witness : list (list Z)) : engineM unit :=
  vm ← getVM;
  let program := default [] (witnessProgram vm) in
  if isWitnessVersionActive e vm BaseSegwitWitnessVersion then
    _ ← verifyWitnessV0 program witness;
    checkWitnessStack
  else if isWitnessVersionActive e vm TaprootWitnessVersion
          && (zlen program =? payToTaprootDataSize) && negb (bip16 e) then
    returned ← verifyWitnessV1 program witness;
    if (returned : bool) then mret tt else checkWitnessStack
  else if hasFlag e ScriptVerifyDiscourageUpgradeableWitnessProgram
  then scriptError ErrDiscourageUpgradableWitnessProgram
  else
    _ ← modifyVM (setWitnessProgram None);
    checkWitnessStack.

(** ** Finishing *)

Definition CheckErrorCondition (finalScript : bool) : engineM unit :=
  vm ← getVM;
  if (match taprootCtx vm with Some ctx => mustSucceed ctx | None => false end) then mret tt
  else
    _ ← failIf (scriptIdx vm <? zlen (scripts vm)) ErrScriptUnfinished;
    _ ← failIf (finalScript && isWitnessVersionActive e vm BaseSegwitWitnessVersion
                && negb (Depth (dstack vm) =? 1)) ErrEvalFalse;
    _ ← failIf (finalScript && (hasFlag e ScriptVerifyCleanStack || isSome (taprootCtx vm))
                && negb (Depth (dstack vm) =? 1)) ErrCleanStack;
    _ ← failIf (Depth (dstack vm) <? 1) ErrEmptyStack;
    v ← onDstack PopBool;
    failIf (negb v) ErrEvalFalse.

Definition bumpScriptIdx : engineM unit := modifyVM (fun vm => setScriptIdx (scriptIdx vm + 1) vm).

(** The redeem script of a pay-to-script-hash output is next. *)
Definition enterRedeemScript : engineM unit :=
  _ ← bumpScriptIdx;
  _ ← CheckErrorCondition false;
  vm ← getVM;
  match last (savedFirstStack vm) with
  | None => enginePanic "index out of range"
  | Some script =>
      _ ← parses script;
      _ ← appendScript script;
      SetStack (take (length (savedFirstStack vm) - 1) (savedFirstStack vm))
  end.

Definition advanceScript : engineM unit :=
  vm ← getVM;
  if (scriptIdx vm =? 0) && bip16 e then
    _ ← bumpScriptIdx;
    modifyVM (setSavedFirstStack (GetStack vm))
  else if (scriptIdx vm =? 1) && bip16 e then enterRedeemScript
  else if ((scriptIdx vm =? 1) && isSome (witnessProgram vm))
          || ((scriptIdx vm =? 2) && isSome (witnessProgram vm) && bip16 e) then
    _ ← bumpScriptIdx;
    verifyWitnessProgram (inputWitness e)
  else bumpScriptIdx.

Definition currentScript (vm : Engine) : list Z := nth (Z.to_nat (scriptIdx vm)) (scripts vm) [].

(** [Step] when the tokenizer is done: the result says whether to stop. *)
Definition endScript : engineM bool :=
  vm ← getVM;
  _ ← failIf (negb (bool_decide (condStack vm = []))) ErrUnbalancedConditional;
  _ ← modifyVM (fun vm => setAstack (setStk (astack vm) []) (setNumOps 0 (setOpcodeIdx 0 vm)));
  _ ← advanceScript;
  _ ← modifyVM (fun vm => if (scriptIdx vm <? zlen (scripts vm)) && (zlen (currentScript vm) =? 0)
                          then setScriptIdx (scriptIdx vm + 1) vm else vm);
  _ ← modifyVM (setLastCodeSep 0);
  vm ← getVM;
  if zlen (scripts vm) <=? scriptIdx vm then mret true
  else
    _ ← modifyVM (setTokenizer (MakeScriptTokenizer 0 (currentScript vm)));
    mret false.

(** [vm.tokenizer.Next()]. *)
Definition nextToken : engineM bool := fun vm =>
  let '(ok, t) := Next (tokenizer vm) in (Ok ok, setTokenizer t vm).

Definition Step : engineM bool :=
  vm ← getVM;
  _ ← failIf (zlen (scripts vm) <=? scriptIdx vm) ErrInvalidProgramCounter;
  ok ← nextToken;
  vm ← getVM;
  if negb ok then
    match tk_err (tokenizer vm) with
    | Some c => scriptError c
    | None => scriptError ErrInvalidProgramCounter
    end
  else
    _ ← executeOpcode (Opcode (tokenizer vm)) (default [] (tk_data (tokenizer vm)));
    vm ← getVM;
    _ ← failIf (MaxStackSize <? i32 (Depth (dstack vm) + Depth (astack vm))) ErrStackOverflow;
    _ ← modifyVM (fun vm => setOpcodeIdx (opcodeIdx vm + 1) vm);
    if Done (tokenizer vm) then endScript else mret false.

(** [for !done { done, err = vm.Step() }] *)
Fixpoint execLoop (fuel : nat) (vm : Engine) : option (result engine_error unit * Engine) :=
  match fuel with
  | O => None
  | S fuel' =>
      match Step vm with
      | (Err err, vm') => Some (Err err, vm')
      | (Ok true, vm') => Some (CheckErrorCondition true vm')
      | (Ok false, vm') => execLoop fuel' vm'
      end
  end.

(** Enough steps: each reads at least a byte of one of at most four scripts,
    the two given, a redeem script that was a stack element, and a script from
    the witness or the one a public key hash program stands for. *)
Definition executeFuel (vm : Engine) : nat :=
  (sum_list_with length (scripts vm) + 520 + 25 + sum_list_with length (inputWitness e))%nat.

Definition Execute (vm : Engine) : option (result engine_error unit * Engine) :=
  execLoop (S (executeFuel vm)) vm.

End execution.

(** ** Creating an engine *)

(** The size and syntax checks of the two scripts. *)
Fixpoint checkScripts (scrs : list (list Z)) : result engine_error unit :=
  match scrs with
  | [] => Ok tt
  | scr :: scrs' =>
      if MaxScriptSize <? zlen scr then Err (ScriptErr ErrScriptTooBig)
      else _ ← checked (checkScriptParses scr); checkScripts scrs'
  end.

Definition ExtractWitnessProgramInfo (script : list Z) : result engine_error (Z * list Z) :=
  match extractWitnessProgramInfo script with
  | Some info => Ok info
  | None => Err (PlainErr "script is not a witness program, unable to extract version or witness program")
  end.

(** The witness program to verify, if any: the version and the program. *)
Definition findWitnessProgram (scriptSig scriptPubKey : list Z) (witness : list (list Z)) (bip16 : bool)
    : result engine_error (option (Z * list Z)) :=
  witProgram ← (if IsWitnessProgram scriptPubKey then
                  if negb (zlen scriptSig =? 0) then Err (ScriptErr ErrWitnessMalleated)
                  else Ok (Some scriptPubKey)
                else if negb (zlen witness =? 0) && bip16 then
                  if (2 <? zlen scriptSig) && isCanonicalPush (byteAt scriptSig 0) (drop 1 scriptSig)
                     && IsWitnessProgram (drop 1 scriptSig)
                  then Ok (Some (drop 1 scriptSig))
                  else Err (ScriptErr ErrWitnessMalleatedP2SH)
                else Ok None);
  match witProgram with
  | Some p => info ← ExtractWitnessProgramInfo p; Ok (Some info)
  | None => if negb (zlen witness =? 0) then Err (ScriptErr ErrWitnessUnexpected) else Ok None
  end.

Definition NewEngine (scriptPubKey : list Z) (tx : MsgTx) (txIdx flags : Z) (sigCache : option SigCache)
    (hashCache : option TxSigHashes) (inputAmount : Z) (prevOutFetcher : PrevOutputFetcher)
    : result engine_error (EngineParams * Engine) :=
  if (txIdx <? 0) || (zlen (TxIns tx) <=? txIdx) then Err (ScriptErr ErrInvalidIndex)
  else
    match TxIns tx !! Z.to_nat txIdx with
    | None => Err (ScriptErr ErrInvalidIndex)
    | Some txIn =>
        let scriptSig := SignatureScript txIn in
        let has flag := Z.land flags flag =? flag in
        if (zlen scriptSig =? 0) && (zlen scriptPubKey =? 0) then Err (ScriptErr ErrEvalFalse)
        else if has ScriptVerifyCleanStack && negb (has ScriptBip16) && negb (has ScriptVerifyWitness)
        then Err (ScriptErr ErrInvalidFlags)
        else if has ScriptVerifySigPushOnly && negb (IsPushOnlyScript scriptSig)
        then Err (ScriptErr ErrNotPushOnly)
        else
          let bip16 := has ScriptBip16 && isScriptHashScript scriptPubKey in
          if bip16 && negb (has ScriptVerifySigPushOnly) && negb (IsPushOnlyScript scriptSig)
          then Err (ScriptErr ErrNotPushOnly)
          else
            let scripts := [scriptSig; scriptPubKey] in
            _ ← checkScripts scripts;
            let scriptIdx := if zlen scriptSig =? 0 then 1 else 0 in
            let minimal := has ScriptVerifyMinimalData in
            info ← (if has ScriptVerifyWitness then
                      if negb (has ScriptBip16) then Err (ScriptErr ErrInvalidFlags)
                      else findWitnessProgram scriptSig scriptPubKey (Witness txIn) bip16
                    else Ok None);
            let tokenizer := MakeScriptTokenizer 0 (if zlen scriptSig =? 0 then scriptPubKey else scriptSig) in
            Ok (mkEngineParams flags tx (Z.to_nat txIdx) bip16 hashCache prevOutFetcher inputAmount
                  (match info with Some (v, _) => v | None => 0 end),
                mkEngine scripts scriptIdx 0 0 tokenizer [] (mkStack [] minimal) (mkStack [] minimal) []
                  0 (snd <$> info) None sigCache)
    end.

(** [NewEngine] followed by [Execute], as every caller uses them. *)
Definition runScripts `{Curve : Secp256k1} `{Hash160 : Ripemd160} `{Picks : MapPick} (scriptPubKey : list Z)
    (tx : MsgTx) (txIdx flags : Z) (sigCache : option SigCache) (hashCache : option TxSigHashes)
    (inputAmount : Z) (prevOutFetcher : PrevOutputFetcher) : option (result engine_error unit) :=
  match NewEngine scriptPubKey tx txIdx flags sigCache hashCache inputAmount prevOutFetcher with
  | Err err => Some (Err err)
  | Ok (e, vm) => fst <$> Execute e vm
  end.
