(* ===== verification/EngineSpec.v ===== *)
(** * The script engine: specifications of the opcodes

    For every opcode of txscript/opcode.go: the engine's fields it leaves alone,
    how much the stacks may grow, that stack elements stay byte strings of at
    most 520 bytes, and when the Go code may panic. *)

From S2P Require Import Prelude ChainParams Sha256 Sha1 Wire Commitment Script ScriptNum Standard SigHash Signature Taproot Engine Opcodes EngineExec.

#[local] Set Warnings "-notation-for-abbreviation".

Lemma DoubleHashB_bytes b : is_bytes (DoubleHashB b).
Proof. unfold DoubleHashB. apply Sha256.sum256_is_bytes. Qed.

#[local] Opaque Sha256.sum256 Sha1.sum TaggedHash leafTapHash DoubleHashB.

(** ** Stack operations

    A specification says how much the stack may grow, and that the operation
    returns an error value rather than panicking. *)

Definition elemOk (x : list Z) : Prop := is_bytes x /\ zlen x <= 520.

Definition noPanic (err : engine_error) : Prop :=
  match err with EnginePanic _ => False | _ => True end.

Definition stackSpec (k : nat) {A} (m : stackM A) (Q : A -> Prop) : Prop :=
  forall s n, Forall elemOk (stk s) -> (length (stk s) <= n)%nat ->
  match m s with
  | (Ok a, s') => Forall elemOk (stk s') /\ (length (stk s') <= n + k)%nat /\ Q a
  | (Err err, s') => Forall elemOk (stk s') /\ noPanic err
  end.

Lemma stackSpec_ret {A} (a : A) (Q : A -> Prop) : Q a -> stackSpec 0 (mret a) Q.
Proof. intros HQ s n He Hn. cbn. split_and!; [done|lia|done]. Qed.

Lemma stackSpec_bind k1 k2 {A B} (m : stackM A) (f : A -> stackM B) (Q1 : A -> Prop) (Q2 : B -> Prop) :
  stackSpec k1 m Q1 -> (forall a, Q1 a -> stackSpec k2 (f a) Q2) -> stackSpec (k1 + k2) (m ≫= f) Q2.
Proof.
  intros Hm Hf s n He Hn. rewrite stackM_bind_eq. specialize (Hm s n He Hn).
  destruct (m s) as [[a|err] s']; [|done]. destruct Hm as (He' & Hn' & HQ).
  specialize (Hf a HQ s' _ He' Hn'). destruct (f a s') as [[b|err] s'']; [|done].
  destruct Hf as (? & ? & ?). split_and!; [done|lia|done].
Qed.

Lemma stackSpec_weaken k k' {A} (m : stackM A) (Q Q' : A -> Prop) :
  stackSpec k m Q -> (k <= k')%nat -> (forall a, Q a -> Q' a) -> stackSpec k' m Q'.
Proof.
  intros Hm Hk HQ s n He Hn. specialize (Hm s n He Hn).
  destruct (m s) as [[a|err] s']; [|done]. destruct Hm as (? & ? & ?). split_and!; [done|lia|by apply HQ].
Qed.

Lemma stackSpec_err {A} c (Q : A -> Prop) : stackSpec 0 (stackErr c) Q.
Proof. intros s n He Hn. done. Qed.

Lemma elemOk_nil : elemOk [].
Proof. split; [constructor|]. unfold zlen. cbn. lia. Qed.

Lemma elemOk_nth l i : Forall elemOk l -> elemOk (nth i l []).
Proof.
  intros Hl. destruct (nth_in_or_default i l []) as [Hi|Hd]; [|rewrite Hd; apply elemOk_nil].
  rewrite Forall_forall in Hl. apply Hl. by apply list_elem_of_In.
Qed.

Lemma stackSpec_nipN i : stackSpec 0 (nipN i) elemOk.
Proof.
  intros s n He Hn. unfold nipN. cbv zeta.
  destruct (_ || _); [split; [done|exact I]|]. split_and!; [| |by apply elemOk_nth].
  - cbn [stk setStk]. repeat case_match; [by apply Forall_take|by apply Forall_drop|].
    apply Forall_app; split; [by apply Forall_take|]. unfold slice. by apply Forall_take, Forall_drop.
  - cbn [stk setStk]. set (sz := i32 _).
    destruct (i =? 0); [rewrite length_take; lia|]. destruct (i =? sz - 1); [rewrite length_drop; lia|].
    unfold slice. rewrite length_app, !length_take, length_drop. lia.
Qed.

Lemma stackSpec_push x : elemOk x -> stackSpec 1 (PushByteArray x) (fun _ => True).
Proof.
  intros Hx s n He Hn. cbn. split_and!; [|rewrite length_app; cbn; lia|done].
  apply Forall_app; split; [done|by constructor].
Qed.

Lemma stackSpec_peek i : stackSpec 0 (PeekByteArray i) elemOk.
Proof.
  intros s n He Hn. unfold PeekByteArray. cbv zeta. destruct (_ || _); [split; [done|exact I]|].
  split_and!; [done|lia|by apply elemOk_nth].
Qed.

Lemma scriptNumValue_bound v (l : nat) :
  is_bytes v -> (1 <= l)%nat -> zlen v <= Z.of_nat l -> Z.abs (scriptNumValue v) < 128 * pow256 (l - 1).
Proof.
  intros Hb Hl Hlen. unfold scriptNumValue. destruct v as [|hi p _] using rev_ind.
  { cbn. pose proof (pow256_pos (l - 1)). lia. }
  rewrite last_snoc, length_app. cbn [length]. rewrite Nat.add_sub, le_val_app. cbn [le_val].
  apply Forall_app in Hb as [Hp [Hhi _]%Forall_cons_1]. unfold is_u8 in Hhi.
  pose proof (le_val_range _ Hp) as Hr. unfold zlen in Hlen. rewrite length_app in Hlen. cbn in Hlen.
  assert (pow256 (length p) <= pow256 (l - 1)) by (unfold pow256; apply Z.pow_le_mono_r; lia).
  pose proof (pow256_pos (length p)). rewrite Z.mul_0_r, Z.add_0_r.
  generalize dependent (pow256 (length p)). intros P Hr Hle HP.
  destruct (Z.ltb_spec hi 128); apply Z.abs_lt; split; nia.
Qed.

Lemma stackSpec_PopInt : stackSpec 0 PopInt (fun v => Z.abs v < 2^31).
Proof.
  apply (stackSpec_bind 0 0 _ _ elemOk); [apply stackSpec_nipN|]. intros so [Hb Hl] s n He Hn.
  unfold makeInt. unfold liftScript, maxScriptNumLen.
  destruct (Z.ltb_spec 4 (zlen so)).
  { unfold MakeScriptNum. destruct (Z.ltb_spec 4 (zlen so)); [split; [done|exact I]|lia]. }
  rewrite MakeScriptNum_decode by (done || lia).
  destruct (if verifyMinimalData s then _ else None); [split; [done|exact I]|].
  split_and!; [done|lia|]. pose proof (scriptNumValue_bound so 4 Hb ltac:(lia) ltac:(lia)) as Hv.
  change (128 * pow256 (4 - 1)) with (2^31) in Hv. exact Hv.
Qed.

Lemma stackSpec_PopBool : stackSpec 0 PopBool (fun _ => True).
Proof.
  apply (stackSpec_bind 0 0 _ _ elemOk); [apply stackSpec_nipN|]. intros so _. by apply stackSpec_ret.
Qed.

Lemma scriptNumBytes_ok n :
  Z.abs n < 2^63 -> exists so, scriptNumBytes n = Some so /\ elemOk so.
Proof.
  intros Hn. destruct (Z.eq_dec n 0) as [->|Hn0]; [exists []; split; [reflexivity|apply elemOk_nil]|].
  destruct (magnitude_snoc (Z.abs n)) as (p & hi & Hv & Hbp & Hhi & Hlp); [lia|].
  assert (n = if n <? 0 then - le_val (p ++ [hi]) else le_val (p ++ [hi])) as ->
    by (rewrite Hv; destruct (Z.ltb_spec n 0); lia).
  exists (signEncode (n <? 0) p hi). split; [apply scriptNumBytes_encode; [done|done|rewrite Hv; exact Hn|done]|].
  apply Forall_app in Hbp as [Hp [Hu _]%Forall_cons_1]. unfold is_u8 in Hu. unfold signEncode.
  destruct (Z.ltb_spec hi 128); split.
  - apply Forall_app; split; [done|]. apply Forall_singleton. unfold is_u8. destruct (n <? 0); lia.
  - rewrite zlen_app. change (zlen [_]) with 1. unfold zlen. lia.
  - apply Forall_app; split; [done|]. apply Forall_app; split; apply Forall_singleton; unfold is_u8; [lia|].
    destruct (n <? 0); lia.
  - rewrite !zlen_app. change (zlen [hi]) with 1. change (zlen [_]) with 1. unfold zlen. lia.
Qed.

Lemma stackSpec_PushInt n : Z.abs n < 2^63 -> stackSpec 1 (PushInt n) (fun _ => True).
Proof.
  intros Hn. unfold PushInt. destruct (scriptNumBytes_ok n Hn) as (so & -> & Hso). by apply stackSpec_push.
Qed.

Lemma stackSpec_PushBool b : stackSpec 1 (PushBool b) (fun _ => True).
Proof.
  apply stackSpec_push. destruct b; [|apply elemOk_nil]. split; [|unfold zlen; cbn; lia].
  apply Forall_singleton. unfold is_u8. lia.
Qed.

Lemma stackSpec_repeat n body :
  stackSpec 1 body (fun _ => True) -> stackSpec n (repeatM n body) (fun _ => True).
Proof.
  intros Hb. induction n as [|n IH]; cbn [repeatM]; [by apply stackSpec_ret|].
  apply (stackSpec_bind 1 n _ _ (fun _ => True)); [done|]. intros _ _. exact IH.
Qed.

Lemma stackSpec_counted n body :
  stackSpec 1 body (fun _ => True) -> stackSpec (Z.to_nat n) (countedM n body) (fun _ => True).
Proof.
  intros Hb. unfold countedM. destruct (n <? 1).
  - apply (stackSpec_weaken 0 _ _ (fun _ => True)); [apply stackSpec_err|lia|done].
  - by apply stackSpec_repeat.
Qed.

(** An element taken from the stack and put on top. *)
Lemma stackSpec_repush m : stackSpec 0 m elemOk -> stackSpec 1 (so ← m; PushByteArray so) (fun _ => True).
Proof. intros Hm. apply (stackSpec_bind 0 1 _ _ elemOk); [done|]. intros so Hso. by apply stackSpec_push. Qed.

Lemma stackSpec_moves n :
  stackSpec (Z.to_nat n) (DropN n) (fun _ => True) /\ stackSpec (Z.to_nat n) (DupN n) (fun _ => True) /\
  stackSpec (Z.to_nat n) (RotN n) (fun _ => True) /\ stackSpec (Z.to_nat n) (SwapN n) (fun _ => True) /\
  stackSpec (Z.to_nat n) (OverN n) (fun _ => True).
Proof.
  split_and!; apply stackSpec_counted;
    [|apply stackSpec_repush; apply stackSpec_peek || apply stackSpec_nipN..].
  apply (stackSpec_weaken 0 1 _ (fun _ => True)); [|lia|done].
  apply (stackSpec_bind 0 0 _ _ elemOk); [apply stackSpec_nipN|]. intros ? _. by apply stackSpec_ret.
Qed.

Lemma stackSpec_Tuck : stackSpec 3 Tuck (fun _ => True).
Proof.
  apply (stackSpec_bind 0 3 _ _ elemOk); [apply stackSpec_nipN|]. intros so2 H2.
  apply (stackSpec_bind 0 3 _ _ elemOk); [apply stackSpec_nipN|]. intros so1 H1.
  apply (stackSpec_bind 1 2 _ _ (fun _ => True)); [by apply stackSpec_push|]. intros _ _.
  apply (stackSpec_bind 1 1 _ _ (fun _ => True)); [by apply stackSpec_push|]. intros _ _.
  by apply stackSpec_push.
Qed.

Lemma stackSpec_NipN i : stackSpec 0 (NipN i) (fun _ => True).
Proof.
  apply (stackSpec_bind 0 0 _ _ elemOk); [apply stackSpec_nipN|]. intros. by apply stackSpec_ret.
Qed.

(** ** Engine operations *)

Class Ripemd160Laws `(Ripemd160) := {
  ripemd160_length m : zlen (ripemd160 m) = 20;
  ripemd160_bytes m : is_bytes (ripemd160 m) }.

Section specs.
Context `{Curve : Secp256k1} {Laws : Secp256k1Laws Curve}.
Context `{Hash160 : Ripemd160} {Hash160Laws : Ripemd160Laws Hash160} `{Picks : MapPick}.
Variable e : EngineParams.

(** What the signature hashes read: the midstates, and the output spent. *)
Definition sighashReady : Prop :=
  isSome (hashCache e) = true /\
  exists ti po, TxIns (vm_tx e) !! txIdx e = Some ti /\ prevOutFetcher e (PreviousOutPoint ti) = Some po.

(** A witness program of a later version nested in a pay-to-script-hash
    output. *)
Definition nestedLater : Prop := bip16 e = true /\ witnessVersion e <> 0.

Definition mayPanic : Prop := ~ sighashReady \/ nestedLater.

Definition errOk (err : engine_error) : Prop :=
  match err with EnginePanic _ => mayPanic | _ => True end.

(** What an opcode leaves alone, and the elements of the stacks. *)
Record frame (vm0 vm : Engine) : Prop := {
  fr_scripts : scripts vm = scripts vm0;
  fr_scriptIdx : scriptIdx vm = scriptIdx vm0;
  fr_tokenizer : tokenizer vm = tokenizer vm0;
  fr_saved : savedFirstStack vm = savedFirstStack vm0;
  fr_program : witnessProgram vm = witnessProgram vm0;
  fr_ctx : isSome (taprootCtx vm) = isSome (taprootCtx vm0);
  fr_d : Forall elemOk (stk (dstack vm));
  fr_a : Forall elemOk (stk (astack vm)) }.

Definition height (vm : Engine) : nat := length (stk (dstack vm)) + length (stk (astack vm)).

Definition spec (vm0 : Engine) (k : nat) {A} (m : engineM A) (Q : A -> Prop) : Prop :=
  forall vm n, frame vm0 vm -> (height vm <= n)%nat ->
  match m vm with
  | (Ok a, vm') => frame vm0 vm' /\ (height vm' <= n + k)%nat /\ Q a
  | (Err err, _) => errOk err
  end.

Section rules.
Variable vm0 : Engine.

Lemma spec_ret k {A} (a : A) (Q : A -> Prop) : Q a -> spec vm0 k (mret a) Q.
Proof. intros HQ vm n Hf Hn. cbn. split_and!; [done|lia|done]. Qed.

Lemma spec_bind k1 k2 {A B} (m : engineM A) (f : A -> engineM B) (Q1 : A -> Prop) (Q2 : B -> Prop) :
  spec vm0 k1 m Q1 -> (forall a, Q1 a -> spec vm0 k2 (f a) Q2) -> spec vm0 (k1 + k2) (m ≫= f) Q2.
Proof.
  intros Hm Hf vm n Hfr Hn. specialize (Hm vm n Hfr Hn).
  change ((m ≫= f) vm) with (match m vm with (Ok a, vm') => f a vm' | (Err e, vm') => (Err e, vm') end).
  destruct (m vm) as [[a|err] vm']; [|done]. destruct Hm as (Hfr' & Hn' & HQ).
  specialize (Hf a HQ vm' _ Hfr' Hn'). destruct (f a vm') as [[b|err] vm'']; [|done].
  destruct Hf as (? & ? & ?). split_and!; [done|lia|done].
Qed.

Lemma spec_weaken k k' {A} (m : engineM A) (Q Q' : A -> Prop) :
  spec vm0 k m Q -> (k <= k')%nat -> (forall a, Q a -> Q' a) -> spec vm0 k' m Q'.
Proof.
  intros Hm Hk HQ vm n Hf Hn. specialize (Hm vm n Hf Hn).
  destruct (m vm) as [[a|err] vm']; [|done]. destruct Hm as (? & ? & ?). split_and!; [done|lia|by apply HQ].
Qed.

Lemma spec_lift k {A} (r : result engine_error A) (Q : A -> Prop) :
  (match r with Ok a => Q a | Err err => errOk err end) -> spec vm0 k (liftE r) Q.
Proof. intros Hr vm n Hf Hn. cbn. destruct r; [|done]. split_and!; [done|lia|done]. Qed.

Lemma spec_error k {A} c (Q : A -> Prop) : spec vm0 k (scriptError c) Q.
Proof. by apply spec_lift. Qed.

Lemma spec_failIf b c : spec vm0 0 (failIf b c) (fun _ => b = false).
Proof. unfold failIf. destruct b; [apply spec_error|by apply spec_ret]. Qed.

Lemma spec_checked o : spec vm0 0 (liftE (checked o)) (fun _ => o = None).
Proof. apply spec_lift. by destruct o. Qed.

Lemma spec_getVM : spec vm0 0 getVM (fun vm => frame vm0 vm).
Proof. intros vm n Hf Hn. cbn. split_and!; [done|lia|done]. Qed.

Lemma spec_modify (f : Engine -> Engine) :
  (forall vm, frame vm0 vm -> frame vm0 (f vm) /\ height (f vm) = height vm) ->
  spec vm0 0 (modifyVM f) (fun _ => True).
Proof. intros Hf vm n Hfr Hn. cbn. destruct (Hf vm Hfr) as [? ->]. split_and!; [done|lia|done]. Qed.

Lemma spec_dstack k {A} (m : stackM A) (Q : A -> Prop) : stackSpec k m Q -> spec vm0 k (onDstack m) Q.
Proof.
  intros Hm vm n [] Hn. unfold onDstack. specialize (Hm (dstack vm) _ fr_d0 ltac:(reflexivity)).
  destruct (m (dstack vm)) as [[a|err] s]; [|destruct Hm as [_ Hm]; destruct err; [exact I|exact I|destruct Hm]]. destruct Hm as (Hs & Hl & HQ).
  split_and!; [split; done| |done]. unfold height in *. cbn [dstack astack setDstack]. lia.
Qed.

Lemma spec_astack k {A} (m : stackM A) (Q : A -> Prop) : stackSpec k m Q -> spec vm0 k (onAstack m) Q.
Proof.
  intros Hm vm n [] Hn. unfold onAstack. specialize (Hm (astack vm) _ fr_a0 ltac:(reflexivity)).
  destruct (m (astack vm)) as [[a|err] s]; [|destruct Hm as [_ Hm]; destruct err; [exact I|exact I|destruct Hm]]. destruct Hm as (Hs & Hl & HQ).
  split_and!; [split; done| |done]. unfold height in *. cbn [dstack astack setAstack]. lia.
Qed.

Lemma spec_pop : spec vm0 0 (onDstack PopByteArray) elemOk.
Proof. apply spec_dstack, stackSpec_nipN. Qed.

Lemma spec_popInt : spec vm0 0 (onDstack PopInt) (fun v => Z.abs v < 2^31).
Proof. apply spec_dstack, stackSpec_PopInt. Qed.

Lemma spec_popBool : spec vm0 0 (onDstack PopBool) (fun _ => True).
Proof. apply spec_dstack, stackSpec_PopBool. Qed.

Lemma spec_peek i : spec vm0 0 (onDstack (PeekByteArray i)) elemOk.
Proof. apply spec_dstack, stackSpec_peek. Qed.

Lemma spec_push x : elemOk x -> spec vm0 1 (onDstack (PushByteArray x)) (fun _ => True).
Proof. intros Hx. by apply spec_dstack, stackSpec_push. Qed.

Lemma spec_pushInt n : Z.abs n < 2^63 -> spec vm0 1 (onDstack (PushInt n)) (fun _ => True).
Proof. intros Hn. by apply spec_dstack, stackSpec_PushInt. Qed.

Lemma spec_pushBool b : spec vm0 1 (onDstack (PushBool b)) (fun _ => True).
Proof. apply spec_dstack, stackSpec_PushBool. Qed.

Lemma spec_cached v h sig pk : spec vm0 0 (cachedVerify v h sig pk) (fun _ => True).
Proof.
  intros vm n Hf Hn. unfold cachedVerify.
  destruct (sigCache vm); [|split_and!; [done|lia|done]].
  destruct (SigCacheExists _ _ _ _); [split_and!; [done|lia|done]|]. destruct v; [|split_and!; [done|lia|done]].
  split_and!; [destruct Hf; split; assumption|unfold height in *; cbn; lia|done].
Qed.
End rules.

End specs.

Create HintDb spec.
#[export] Hint Resolve spec_error spec_checked spec_pop spec_popInt spec_popBool spec_peek spec_pushBool
  spec_cached spec_getVM spec_failIf : spec.

(** One step of a proof of a [spec]: the first operation of a bind does not
    grow the stack. *)
Ltac spec_first H :=
  lazymatch goal with
  | |- spec _ _ ?k (?m ≫= _) _ =>
      change k with (0 + k)%nat; eapply (spec_bind _ _ 0 k); [solve [eauto with spec]|];
      intros ? H; cbv beta in H; cbn [Nat.add]
  end.

Section opcode_specs.
Context `{Curve : Secp256k1} {Laws : Secp256k1Laws Curve}.
Context `{Hash160 : Ripemd160} {Hash160Laws : Ripemd160Laws Hash160} `{Picks : MapPick}.
Variable e : EngineParams.
Variable vm0 : Engine.

#[local] Notation OK k m := (spec e vm0 k m (fun _ => True)).

Lemma spec_nop op : OK 0 (opcodeNop e op).
Proof. eapply spec_weaken; [apply spec_failIf|lia|done]. Qed.

Lemma spec_popIfBool : OK 0 (popIfBool e).
Proof.
  unfold popIfBool. spec_first Hvm. destruct (_ && _); [eauto with spec|].
  spec_first Hso. spec_first H1. spec_first H2. by apply spec_ret.
Qed.

Lemma spec_if b : OK 0 (opcodeIf e b).
Proof.
  unfold opcodeIf. spec_first Hvm. apply (spec_bind _ _ 0 0 _ _ (fun _ => True)).
  - destruct (isBranchExecuting _); [|by apply spec_ret].
    apply (spec_bind _ _ 0 0 _ _ (fun _ => True)); [apply spec_popIfBool|]. intros; by apply spec_ret.
  - intros c _. apply spec_modify. intros vm []. split; [by split|done].
Qed.

Lemma spec_else : OK 0 opcodeElse.
Proof.
  unfold opcodeElse. spec_first Hvm. destruct (last _); [|apply spec_error].
  apply spec_modify. intros vm []. split; [by split|done].
Qed.

Lemma spec_endif : OK 0 opcodeEndif.
Proof.
  unfold opcodeEndif. spec_first Hvm. destruct (last _); [|apply spec_error].
  apply spec_modify. intros vm []. split; [by split|done].
Qed.

Lemma spec_verify c : OK 0 (abstractVerify c).
Proof. unfold abstractVerify. spec_first H. eapply spec_weaken; [apply spec_failIf|lia|done]. Qed.

Lemma spec_peekLockTime : OK 0 peekLockTime.
Proof.
  unfold peekLockTime. spec_first Hso. spec_first Hvm.
  apply (spec_bind _ _ 0 0 _ _ (fun _ => True)).
  - apply spec_lift. by destruct (MakeScriptNum _ _ _).
  - intros lt _. spec_first H. by apply spec_ret.
Qed.

Lemma spec_cltv : OK 0 (opcodeCheckLockTimeVerify e).
Proof.
  unfold opcodeCheckLockTimeVerify. destruct (negb _).
  { eapply spec_weaken; [apply spec_failIf|lia|done]. }
  apply (spec_bind _ _ 0 0 _ _ (fun _ => True)); [apply spec_peekLockTime|]. intros lt _.
  spec_first H. eapply spec_weaken; [apply spec_failIf|lia|done].
Qed.

Lemma spec_csv : OK 0 (opcodeCheckSequenceVerify e).
Proof.
  unfold opcodeCheckSequenceVerify. destruct (negb _).
  { eapply spec_weaken; [apply spec_failIf|lia|done]. }
  apply (spec_bind _ _ 0 0 _ _ (fun _ => True)); [apply spec_peekLockTime|]. intros lt _.
  destruct (negb _); [by apply spec_ret|].
  spec_first H1. spec_first H2. eapply spec_weaken; [apply spec_checked|lia|done].
Qed.

Lemma spec_dstack3 k (m : stackM unit) : stackSpec k m (fun _ => True) -> (k <= 3)%nat -> OK 3 (onDstack m).
Proof. intros Hm Hk. eapply spec_weaken; [apply spec_dstack, Hm|done|done]. Qed.

Lemma spec_weaken3 k (m : engineM unit) : OK k m -> (k <= 3)%nat -> OK 3 m.
Proof. intros Hm Hk. by eapply spec_weaken. Qed.

Lemma spec_toAlt : OK 1 opcodeToAltStack.
Proof. unfold opcodeToAltStack. spec_first H. by apply spec_astack, stackSpec_push. Qed.

Lemma spec_fromAlt : OK 1 opcodeFromAltStack.
Proof.
  unfold opcodeFromAltStack. apply (spec_bind _ _ 0 1 _ _ elemOk); [apply spec_astack, stackSpec_nipN|].
  intros so H. by apply spec_push.
Qed.

Lemma spec_ifDup : OK 1 opcodeIfDup.
Proof. unfold opcodeIfDup. spec_first H. destruct (asBool _); [by apply spec_push|by apply spec_ret]. Qed.

Lemma i32_abs z : Z.abs (i32 z) < 2^63.
Proof. pose proof (i32_range z) as H. unfold is_i32 in H. lia. Qed.

Lemma i64_abs z : Z.abs z < 2^62 -> Z.abs (i64 z) < 2^63.
Proof. intros H. rewrite i64_id by (unfold is_i64; lia). lia. Qed.

Lemma spec_depth : OK 1 opcodeDepth.
Proof. unfold opcodeDepth. spec_first H. apply spec_pushInt. apply i32_abs. Qed.

Lemma spec_repush m : stackSpec 0 m elemOk -> OK 1 (onDstack (so ← m; PushByteArray so)).
Proof. intros Hm. by apply spec_dstack, stackSpec_repush. Qed.

Lemma spec_pick : OK 1 opcodePick.
Proof. unfold opcodePick. spec_first H. apply spec_repush, stackSpec_peek. Qed.

Lemma spec_roll : OK 1 opcodeRoll.
Proof. unfold opcodeRoll. spec_first H. apply spec_repush, stackSpec_nipN. Qed.

Lemma spec_size : OK 1 opcodeSize.
Proof.
  unfold opcodeSize. spec_first H. apply spec_pushInt. destruct H as [_ H].
  match type of H with zlen ?x <= _ => pose proof (zlen_nonneg x) end. lia.
Qed.

Lemma spec_stack op : OK 3 (opcodeStack op).
Proof.
  unfold opcodeStack.
  repeat match goal with |- spec _ _ _ (if ?b then _ else _) _ => destruct b end.
  all: first [apply (spec_dstack3 (Z.to_nat 2)); [apply stackSpec_moves|cbn; lia]
             |apply (spec_dstack3 (Z.to_nat 3)); [apply stackSpec_moves|cbn; lia]
             |apply (spec_dstack3 (Z.to_nat 1)); [apply stackSpec_moves|cbn; lia]
             |eapply spec_weaken3; [first [apply spec_toAlt|apply spec_fromAlt|apply spec_ifDup|apply spec_depth
                                          |apply spec_pick|apply spec_roll]|lia]
             |apply (spec_dstack3 3); [apply stackSpec_Tuck|lia]
             |apply (spec_dstack3 0); [apply stackSpec_NipN|lia]].
Qed.

Lemma spec_equal : OK 1 opcodeEqual.
Proof. unfold opcodeEqual. spec_first H1. spec_first H2. eauto with spec. Qed.

Lemma unaryValue_abs op m : Z.abs m < 2^31 -> Z.abs (unaryValue op m) < 2^63.
Proof.
  intros Hm. unfold unaryValue, ofBool. repeat case_match; try (apply i64_abs; lia); lia.
Qed.

Lemma binaryValue_abs op v0 v1 : Z.abs v0 < 2^31 -> Z.abs v1 < 2^31 -> Z.abs (binaryValue op v0 v1) < 2^63.
Proof.
  intros H0 H1. unfold binaryValue, ofBool. repeat case_match; try (apply i64_abs; lia); lia.
Qed.

Lemma spec_unary op : OK 1 (opcodeUnary op).
Proof. unfold opcodeUnary. spec_first H. by apply spec_pushInt, unaryValue_abs. Qed.

Lemma spec_binary op : OK 1 (opcodeBinary op).
Proof. unfold opcodeBinary. spec_first H0. spec_first H1. by apply spec_pushInt, binaryValue_abs. Qed.

Lemma spec_then_verify (m : engineM unit) c : OK 1 m -> OK 1 (_ ← m; abstractVerify c).
Proof.
  intros Hm. apply (spec_bind _ _ 1 0 _ _ (fun _ => True)); [done|]. intros _ _. apply spec_verify.
Qed.

Lemma spec_within : OK 1 opcodeWithin.
Proof.
  unfold opcodeWithin. spec_first H0. spec_first H1. spec_first H2. apply spec_pushInt.
  unfold ofBool. destruct (_ && _); lia.
Qed.

Lemma elemOk_hash op buf : elemOk (hashValue op buf).
Proof.
  assert (Hs : forall h, is_bytes h -> (length h <= 520)%nat -> elemOk h) by (intros h ? ?; split; [done|unfold zlen; lia]).
  assert (Hr : forall m, elemOk (ripemd160 m)).
  { intros m. split; [apply ripemd160_bytes|]. rewrite ripemd160_length. lia. }
  unfold hashValue. repeat case_match; [apply Hr| | |apply Hr|].
  - apply Hs; [apply Sha1.sum_is_bytes|rewrite Sha1.length_sum; lia].
  - apply Hs; [apply Sha256.sum256_is_bytes|rewrite Sha256.length_sum256; lia].
  - apply Hs; [apply DoubleHashB_bytes|rewrite length_DoubleHashB; lia].
Qed.

Lemma spec_hash op : OK 1 (opcodeHash op).
Proof. unfold opcodeHash. spec_first H. apply spec_push, elemOk_hash. Qed.

(** *** Signatures *)

Lemma spec_codeSeparator : OK 0 (opcodeCodeSeparator e).
Proof.
  unfold opcodeCodeSeparator. spec_first Hvm.
  apply (spec_bind _ _ 0 0 _ _ (fun _ => True)).
  { apply spec_modify. intros vm []. split; [by split|done]. }
  intros _ _. destruct (taprootCtx a) as [ctx|] eqn:Ectx.
  - apply spec_modify. intros vm []. split; [|done]. split; try done.
    destruct Hvm as [_ _ _ _ _ Hc _ _]. rewrite Ectx in Hc. exact Hc.
  - eapply spec_weaken; [apply spec_failIf|lia|done].
Qed.

(** Where a tapscript is running, its context is there. *)
Lemma spec_getCtx : isSome (taprootCtx vm0) = true -> spec e vm0 0 getCtx (fun _ => True).
Proof.
  intros Hc. unfold getCtx. spec_first Hvm. destruct Hvm as [_ _ _ _ _ Hc' _ _].
  destruct (taprootCtx a); [by apply spec_ret|]. rewrite Hc in Hc'. discriminate.
Qed.

Lemma spec_tally : isSome (taprootCtx vm0) = true -> OK 0 tallysigOp.
Proof.
  intros Hc. unfold tallysigOp. apply (spec_bind _ _ 0 0 _ _ (fun _ => True)); [by apply spec_getCtx|].
  intros ctx _. apply (spec_bind _ _ 0 0 _ _ (fun _ => True)).
  { apply spec_modify. intros vm []. split; [|done]. split; done. }
  intros _ _. eapply spec_weaken; [apply spec_failIf|lia|done].
Qed.

Definition resOk {A} (r : result engine_error A) : Prop :=
  match r with Ok _ => True | Err err => errOk e err end.

Lemma spec_liftOk k {A} (r : result engine_error A) : resOk r -> spec e vm0 k (liftE r) (fun _ => True).
Proof. intros H. apply spec_lift. by destruct r. Qed.

Lemma notReady_index : TxIns (vm_tx e) !! txIdx e = None -> mayPanic e.
Proof. intros H. left. intros (_ & ti & po & Hti & _). congruence. Qed.

Lemma legacyHash_ok s t r :
  resOk (calcSignatureHashWithReplayProtection s t (vm_tx e) (txIdx e) r).
Proof.
  unfold calcSignatureHashWithReplayProtection. destruct (_ && _); [exact I|].
  destruct (negb _ && _) eqn:E; [|exact I]. apply andb_true_iff in E as [_ E]. apply Z.leb_le in E.
  apply notReady_index, lookup_ge_None. unfold zlen in E. lia.
Qed.

Lemma witnessHash_ok s h t a r :
  resOk (calcWitnessSignatureHashRawWithReplayProtection s h t (vm_tx e) (txIdx e) a r).
Proof. unfold calcWitnessSignatureHashRawWithReplayProtection. by destruct (_ !! _). Qed.

Lemma sigHashesOf_ok : resOk (sigHashesOf e).
Proof.
  unfold sigHashesOf. destruct (hashCache e) eqn:E; [exact I|].
  destruct (NewTxSigHashes _ _) as [h|err] eqn:En; [exact I|]. destruct err; [exact I|exact I|].
  left. intros [H _]. rewrite E in H. discriminate.
Qed.

Lemma taprootHash_ok t o : resOk (taprootSigHash e t o).
Proof.
  unfold taprootSigHash. destruct (hashCache e) as [sh|] eqn:E.
  2:{ assert (mayPanic e) as Hp by (left; intros [H _]; rewrite E in H; discriminate).
      destruct (_ && _); [exact Hp|]. destruct (calcTaprootSignatureHashRaw _ _ _ _ _ _) as [?|[]]; done. }
  unfold calcTaprootSignatureHashRaw. destruct (_ && _); [exact I|]. destruct (negb (isValidTaprootSigHash _)); [exact I|].
  destruct (TxIns (vm_tx e) !! txIdx e) as [ti|] eqn:Ei; [|exact I].
  destruct (if _ =? _ then _ else _) as [po|] eqn:Ef.
  - destruct (_ && _); exact I.
  - left. intros (_ & ti' & po & Hti & Hpo). rewrite Ei in Hti. injection Hti as <-.
    destruct (_ =? _) in Ef; congruence.
Qed.

Lemma spec_orInvalid (r : result engine_error (list Z)) (k : list Z -> engineM verifyResult) :
  resOk r -> (forall h, OK 0 (k h)) -> OK 0 (orInvalid r k).
Proof.
  intros Hr Hk. unfold orInvalid. destruct r as [h|[c|s|s]]; [apply Hk|by apply spec_ret|by apply spec_ret|].
  apply spec_lift. exact Hr.
Qed.

Lemma spec_validOnly m : OK 0 m -> OK 0 (validOnly m).
Proof.
  intros Hm. apply (spec_bind _ _ 0 0 _ _ (fun _ => True)); [exact Hm|]. intros v _. by apply spec_ret.
Qed.

Lemma spec_baseVerify b : OK 0 (baseVerify e b).
Proof.
  unfold baseVerify. destruct (removeOpcodeByData _ _) as [s m].
  apply (spec_bind _ _ 0 0 _ _ (fun _ => True)); [apply spec_liftOk, legacyHash_ok|]. intros h _.
  apply (spec_bind _ _ 0 0 _ _ (fun _ => True)); [apply spec_cached|]. intros v _. by apply spec_ret.
Qed.

Lemma spec_segwitVerify b : OK 0 (segwitVerify e b).
Proof.
  unfold segwitVerify. apply (spec_bind _ _ 0 0 _ _ (fun _ => True)); [apply spec_liftOk, sigHashesOf_ok|].
  intros h _. apply spec_orInvalid; [apply witnessHash_ok|]. intros h'. apply spec_validOnly, spec_cached.
Qed.

Lemma spec_taprootVerify t : OK 0 (taprootVerify e t).
Proof.
  unfold taprootVerify. apply spec_orInvalid; [apply taprootHash_ok|]. intros h. apply spec_validOnly, spec_cached.
Qed.

Lemma spec_tapscriptVerify ctx o : OK 0 (tapscriptVerify e ctx o).
Proof.
  unfold tapscriptVerify. destruct o; [|by apply spec_ret].
  apply spec_orInvalid; [apply taprootHash_ok|]. intros h. apply spec_validOnly, spec_cached.
Qed.

Lemma parseECDSA_ok sig : resOk (parseECDSA e sig).
Proof.
  unfold parseECDSA, ParseDERSignature, ParseSignature.
  assert (H : forall der, resOk (parseSig sig der)).
  { intros der. unfold parseSig, malformed, parseInt. repeat case_match; try exact I. }
  destruct (_ || _); apply H.
Qed.

Lemma resOk_bind {A B} (r : result engine_error A) (f : A -> result engine_error B) :
  resOk r -> (forall a, r = Ok a -> resOk (f a)) -> resOk (r ≫= f).
Proof. intros Hr Hf. destruct r as [a|err]; [by apply Hf|exact Hr]. Qed.

Lemma newBase_ok vm pk sig : 0 < zlen sig -> resOk (newBaseSigVerifier e vm pk sig).
Proof.
  intros Hs. unfold newBaseSigVerifier, parseBaseSigAndPubkey.
  destruct (Z.eqb_spec (zlen sig) 0); [lia|]. result_simpl.
  apply resOk_bind; [|intros [[? ?] ?] _; exact I].
  assert (Hc : forall o, resOk (checked o)) by (by intros []).
  apply resOk_bind; [apply Hc|intros _ _]. apply resOk_bind; [apply Hc|intros _ _].
  apply resOk_bind; [apply Hc|intros _ _].
  apply resOk_bind; [unfold btcecParsePubKey; by destruct (ParsePubKey pk)|intros p _].
  apply resOk_bind; [apply parseECDSA_ok|intros s _; exact I].
Qed.

Lemma schnorrParsePubKey_ok pk : resOk (schnorrParsePubKey pk).
Proof. unfold schnorrParsePubKey. destruct (negb _); [exact I|]. by destruct (ParsePubKey _). Qed.

Lemma newTaproot_ok pk sig annex allow : resOk (newTaprootSigVerifier pk sig annex allow).
Proof.
  assert (Hs : forall sg, resOk (schnorrParseSignature sg)).
  { intros sg. unfold schnorrParseSignature. destruct (_ <? _); [exact I|]. destruct (_ <? _); [exact I|].
    destruct (fieldSetByteSlice _) as [? []]; [exact I|]. by destruct (scalarSetByteSlice _). }
  unfold newTaprootSigVerifier, parseTaprootSigAndPubKey.
  apply resOk_bind; [|intros [[? ?] ?] _; exact I].
  apply resOk_bind; [apply schnorrParsePubKey_ok|]. intros k _.
  destruct (_ =? _); [apply resOk_bind; [apply Hs|done]|].
  destruct (_ && _); [apply resOk_bind; [apply Hs|done]|exact I].
Qed.

Lemma newTapscript_ok ctx pk sig : resOk (newBaseTapscriptSigVerifier e ctx pk sig).
Proof.
  unfold newBaseTapscriptSigVerifier. destruct (_ =? _); [exact I|]. destruct (_ =? _).
  - apply resOk_bind; [apply newTaproot_ok|]. intros t _. by destruct (_ && _).
  - by destruct (hasFlag _ _).
Qed.

Lemma spec_finishCheckSig sig (m : engineM verifyResult) : OK 0 m -> OK 1 (finishCheckSig e sig m).
Proof.
  intros Hm. unfold finishCheckSig. apply (spec_bind _ _ 0 1 _ _ (fun _ => True)); [exact Hm|].
  intros [v mt] _. spec_first Hvm. spec_first H1. spec_first H2. apply spec_pushBool.
Qed.

Lemma spec_checkSigBase pk sig (verify : baseSigVerifier -> engineM verifyResult) :
  0 < zlen sig -> (forall b, OK 0 (verify b)) -> OK 1 (checkSigBase e pk sig verify).
Proof.
  intros Hs Hv. unfold checkSigBase. spec_first Hvm. pose proof (newBase_ok a pk sig Hs) as Hn.
  destruct (newBaseSigVerifier e a pk sig) as [b|[c|r|r]]; [by apply spec_finishCheckSig|..].
  - by apply spec_lift.
  - apply spec_pushBool.
  - by apply spec_lift.
Qed.

Lemma spec_tapscriptSig pk sig onEmpty (k : engineM verifyResult -> engineM unit) :
  isSome (taprootCtx vm0) = true -> OK 1 onEmpty -> (forall m, OK 0 m -> OK 1 (k m)) ->
  OK 1 (tapscriptSig e pk sig onEmpty k).
Proof.
  intros Hc He Hk. unfold tapscriptSig. apply (spec_bind _ _ 0 1 _ _ (fun _ => True)).
  { destruct (0 <? zlen sig); [by apply spec_tally|by apply spec_ret]. }
  intros _ _. spec_first H1. destruct (zlen sig =? 0); [exact He|].
  apply (spec_bind _ _ 0 1 _ _ (fun _ => True)); [by apply spec_getCtx|]. intros ctx _.
  apply (spec_bind _ _ 0 1 _ _ (fun _ => True)); [apply spec_liftOk, newTapscript_ok|]. intros o _.
  apply Hk, spec_tapscriptVerify.
Qed.

(** A signature opcode panics only on a nested program of a later version. *)
Definition sigState : Prop :=
  (isSome (witnessProgram vm0) = true -> witnessVersion e <> 0 -> isSome (taprootCtx vm0) = false -> mayPanic e) /\
  (isSome (taprootCtx vm0) = true -> isSome (witnessProgram vm0) = true /\ witnessVersion e = 1).

Lemma spec_checkSig : sigState -> OK 1 (opcodeCheckSig e).
Proof.
  intros [Hlater Hctx]. unfold opcodeCheckSig. spec_first Hpk. spec_first Hsig. spec_first Hvm.
  destruct Hvm as [_ _ _ _ Hp Hc _ _]. rewrite Hc, Hp.
  unfold isWitnessVersionActive. rewrite Hp.
  destruct (isSome (taprootCtx vm0)) eqn:Ec; cbn [negb andb].
  - destruct (Hctx eq_refl) as [Hsome Hv]. rewrite Hsome, Hv. cbn [negb andb Z.eqb].
    apply spec_tapscriptSig; [done|apply spec_push, elemOk_nil|intros m; apply spec_finishCheckSig].
  - destruct (Z.ltb_spec (zlen a0) 1); [apply spec_pushBool|].
    destruct (isSome (witnessProgram vm0)) eqn:Ew; cbn [negb andb].
    + destruct (Z.eqb_spec (witnessVersion e) 0).
      * apply spec_checkSigBase; [lia|apply spec_segwitVerify].
      * apply spec_lift. by apply Hlater.
    + apply spec_checkSigBase; [lia|apply spec_baseVerify].
Qed.

Lemma spec_checkSigAdd : OK 1 (opcodeCheckSigAdd e).
Proof.
  unfold opcodeCheckSigAdd. spec_first Hvm. destruct Hvm as [_ _ _ _ _ Hc _ _]. spec_first Hsome.
  rewrite Hc in Hsome. apply negb_false_iff in Hsome. spec_first Hpk. spec_first Hn. spec_first Hsig.
  apply spec_tapscriptSig; [done|apply spec_pushInt; lia|]. intros m Hm. unfold finishCheckSigAdd.
  apply (spec_bind _ _ 0 1 _ _ (fun _ => True)); [exact Hm|]. intros [v mt] _. spec_first H1.
  apply spec_pushInt, i64_abs. lia.
Qed.

Lemma spec_popMany n : spec e vm0 0 (popMany n) (fun _ => True).
Proof.
  induction n as [|n IH]; cbn [popMany]; [by apply spec_ret|]. spec_first Hx.
  apply (spec_bind _ _ 0 0 _ _ (fun _ => True)); [exact IH|]. intros; by apply spec_ret.
Qed.

Lemma spec_popCount m c : OK 0 (popCount m c).
Proof. unfold popCount. spec_first H0. spec_first H1. spec_first H2. by apply spec_ret. Qed.

Lemma spec_removeSigs sigs s : OK 0 (removeSigs e sigs s).
Proof.
  revert s; induction sigs as [|sig sigs IH]; intros s; cbn [removeSigs]; [by apply spec_ret|].
  destruct (removeOpcodeByData s sig) as [s' m]. spec_first H. apply IH.
Qed.

Lemma spec_multiSigKey s sig p pk : OK 0 (multiSigKey e s sig p pk).
Proof.
  unfold multiSigKey. destruct (zlen sig =? 0); [by apply spec_ret|].
  apply (spec_bind _ _ 0 0 _ _ (fun _ => True)).
  { unfold parseSigInfo. destruct p; [by apply spec_ret|]. spec_first H1. spec_first H2. by apply spec_ret. }
  intros [ps|] _; [|by apply spec_ret]. spec_first Hvm. spec_first H1.
  destruct (ParsePubKey pk); [|by apply spec_ret].
  apply (spec_bind _ _ 0 0 _ _ (fun _ => True)).
  { unfold multiSigHash. spec_first Hvm'. destruct (isWitnessVersionActive _ _ _).
    - apply (spec_bind _ _ 0 0 _ _ (fun _ => True)); [apply spec_liftOk, sigHashesOf_ok|]. intros h _.
      apply spec_liftOk, witnessHash_ok.
    - apply spec_liftOk, legacyHash_ok. }
  intros h _. spec_first Hv. by apply spec_ret.
Qed.

Lemma spec_multiSigLoop s sigs p pks : OK 0 (multiSigLoop e s sigs p pks).
Proof.
  revert sigs p; induction pks as [|pk pks IH]; intros sigs p.
  - destruct sigs; by apply spec_ret.
  - destruct sigs as [|sig sigs]; cbn [multiSigLoop]; [by apply spec_ret|].
    destruct (_ <? _)%nat; [by apply spec_ret|].
    apply (spec_bind _ _ 0 0 _ _ (fun _ => True)); [apply spec_multiSigKey|]. intros [p' v] _.
    destruct v; apply IH.
Qed.

Lemma spec_checkMultiSig : OK 1 (opcodeCheckMultiSig e).
Proof.
  unfold opcodeCheckMultiSig. spec_first Hvm. spec_first H1.
  apply (spec_bind _ _ 0 1 _ _ (fun _ => True)); [apply spec_popCount|]. intros nk _.
  apply (spec_bind _ _ 0 1 _ _ (fun _ => True)).
  { apply spec_modify. intros vm []. split; [by split|done]. }
  intros _ _. spec_first Hvm2. spec_first H2.
  apply (spec_bind _ _ 0 1 _ _ (fun _ => True)); [apply spec_popMany|]. intros pks _.
  apply (spec_bind _ _ 0 1 _ _ (fun _ => True)); [apply spec_popCount|]. intros ns _.
  apply (spec_bind _ _ 0 1 _ _ (fun _ => True)); [apply spec_popMany|]. intros sigs _.
  spec_first H3. spec_first H4. spec_first Hvm3.
  apply (spec_bind _ _ 0 1 _ _ (fun _ => True)).
  { destruct (isWitnessVersionActive e _ _); [by apply spec_ret|apply spec_removeSigs]. }
  intros s _. apply (spec_bind _ _ 0 1 _ _ (fun _ => True)); [apply spec_multiSigLoop|]. intros ok _.
  spec_first H5. apply spec_pushBool.
Qed.

Lemma spec_opfunc op data :
  0 <= op -> (op <= OP_16 \/ sigState) -> (op <= OP_PUSHDATA4 -> elemOk data) ->
  OK 3 (opfunc e op data).
Proof.
  intros Hop Hsig Hdata.
  assert (Hw : forall m : engineM unit, OK 1 m -> OK 3 m) by (intros m Hm; eapply spec_weaken; [exact Hm|lia|done]).
  assert (Hz : forall m : engineM unit, OK 0 m -> OK 3 m) by (intros m Hm; eapply spec_weaken; [exact Hm|lia|done]).
  unfold opfunc.
  destruct (op =? OP_0); [apply Hw, spec_push, elemOk_nil|].
  destruct (Z.leb_spec op OP_PUSHDATA4); [by apply Hw, spec_push, Hdata|].
  destruct (op =? OP_1NEGATE); [apply Hw, spec_pushInt; lia|].
  destruct (op =? OP_RESERVED); [apply spec_error|].
  destruct (Z.leb_spec op OP_16); [apply Hw, spec_pushInt; unfold OP_1; lia|].
  destruct Hsig as [|Hsig]; [lia|].
  repeat match goal with |- spec _ _ _ (if ?b then _ else _) _ => destruct b end.
  all: first [apply spec_error
             |apply spec_stack
             |apply Hz; first [apply spec_nop|apply spec_if|apply spec_else|apply spec_endif|apply spec_verify
                              |apply spec_cltv|apply spec_csv|apply spec_codeSeparator]
             |apply Hw; first [apply spec_size|apply spec_equal|apply spec_unary|apply spec_binary|apply spec_within
                              |apply spec_hash|by apply spec_checkSig|apply spec_checkSigAdd|apply spec_checkMultiSig]
             |apply Hw, spec_then_verify; first [apply spec_equal|apply spec_binary|by apply spec_checkSig
                                                |apply spec_checkMultiSig]].
Qed.
End opcode_specs.
