(* ===== verification/EngineStep.v ===== *)
(** * The script engine: the invariant of a step

    An invariant of the engine that every step preserves: the stacks are
    bounded, and the program counter is inside one of at most four scripts, the
    signature script, the output script, the redeem script and the script of the
    witness program. *)

From S2P Require Import Prelude ChainParams Sha256 Sha1 Wire Commitment Script ScriptNum Standard SigHash Signature Taproot Engine Opcodes EngineExec EngineSpec.

(** ** One opcode *)

Section steps.
Context `{Curve : Secp256k1} {Laws : Secp256k1Laws Curve}.
Context `{Hash160 : Ripemd160} {Hash160Laws : Ripemd160Laws Hash160} `{Picks : MapPick}.
Variable e : EngineParams.

Lemma spec_executeOpcode vm0 op data :
  0 <= op -> (op <= OP_16 \/ sigState e vm0) -> is_bytes data ->
  spec e vm0 3 (executeOpcode e op data) (fun _ => True).
Proof.
  intros Hop Hsig Hb. unfold executeOpcode. spec_first H1. spec_first H2. spec_first Hvm.
  apply (spec_bind _ _ 0 3 _ _ (fun _ => OP_16 < op \/ zlen data <= 520)).
  { destruct (_ && _) eqn:E.
    - apply andb_true_iff in E as [_ E%Z.ltb_lt]. apply (spec_bind _ _ 0 0 _ _ (fun _ => True)).
      + apply spec_modify. intros vm []. split; [by split|done].
      + intros _ _. eapply spec_weaken; [apply spec_failIf|lia|intros; left; exact E].
    - eapply spec_weaken; [apply spec_failIf|lia|]. intros _ Hl%Z.ltb_ge. right. exact Hl. }
  intros _ Hd. destruct (_ && _); [by apply spec_ret|].
  apply (spec_bind _ _ 0 3 _ _ (fun _ => True)).
  { destruct (_ && _); [|by apply spec_ret]. eapply spec_weaken; [apply spec_checked|lia|done]. }
  intros _ _. apply spec_opfunc; [done|done|]. intros Hle. split; [done|].
  destruct Hd as [Hd|Hd]; [unfold OP_PUSHDATA4 in Hle; lia|exact Hd].
Qed.

(** ** Witness programs *)

Definition witnessOk : Prop :=
  Forall (fun w => is_bytes w /\ zlen w < 2^31) (inputWitness e) /\ zlen (inputWitness e) <= 2^30.

Definition scriptOk (s : list Z) : Prop := is_bytes s /\ zlen s < 2^31.

Definition witnessSize : nat := (25 + sum_list_with length (inputWitness e))%nat.

(** The state [verifyWitnessProgram] leaves: a script to execute was added, or
    none. *)
Record scriptAdded (vm vm' : Engine) : Prop := {
  sa_scriptIdx : scriptIdx vm' = scriptIdx vm;
  sa_cond : condStack vm' = condStack vm;
  sa_astack : astack vm' = astack vm;
  sa_saved : savedFirstStack vm' = savedFirstStack vm;
  sa_scripts : exists s, scripts vm' = scripts vm ++ [s] /\ scriptOk s /\ (length s <= witnessSize)%nat;
  sa_elems : Forall elemOk (stk (dstack vm'));
  sa_height : (length (stk (dstack vm')) <= length (inputWitness e))%nat;
  sa_sig : sigState e vm' }.

Definition afterWitness (vm vm' : Engine) : Prop :=
  (scripts vm' = scripts vm /\ scriptIdx vm' = scriptIdx vm) \/ scriptAdded vm vm'.

(** The outcome of an operation from a given state. *)
Definition wp {A} (m : engineM A) (vm : Engine) (Q : A -> Engine -> Prop) : Prop :=
  match m vm with (Ok a, vm') => Q a vm' | (Err err, _) => errOk e err end.

Lemma wp_bind {A B} (m : engineM A) (f : A -> engineM B) vm Q :
  wp m vm (fun a vm' => wp (f a) vm' Q) -> wp (m ≫= f) vm Q.
Proof.
  unfold wp. change ((m ≫= f) vm) with (match m vm with (Ok a, vm') => f a vm' | (Err e, vm') => (Err e, vm') end).
  by destruct (m vm) as [[a|err] vm'].
Qed.

Lemma wp_failIf b c vm (Q : unit -> Engine -> Prop) : (b = false -> Q tt vm) -> wp (failIf b c) vm Q.
Proof. intros H. destruct b; [exact I|by apply H]. Qed.

Lemma wp_lift {A} (r : result engine_error A) vm (Q : A -> Engine -> Prop) :
  resOk e r -> (forall a, r = Ok a -> Q a vm) -> wp (liftE r) vm Q.
Proof. intros Hr HQ. unfold wp, liftE. destruct r; [by apply HQ|exact Hr]. Qed.

Lemma wp_modify (f : Engine -> Engine) vm (Q : unit -> Engine -> Prop) : Q tt (f vm) -> wp (modifyVM f) vm Q.
Proof. intros H. exact H. Qed.

Lemma wp_getVM vm (Q : Engine -> Engine -> Prop) : Q vm vm -> wp getVM vm Q.
Proof. intros H. exact H. Qed.

Lemma wp_consequence {A} (m : engineM A) vm (Q Q' : A -> Engine -> Prop) :
  wp m vm Q -> (forall a vm', Q a vm' -> Q' a vm') -> wp m vm Q'.
Proof. unfold wp. intros Hm HQ. destruct (m vm) as [[a|err] vm']; [by apply HQ|exact Hm]. Qed.

Lemma wp_spec vm0 k {A} (m : engineM A) (P : A -> Prop) vm Q :
  spec e vm0 k m P -> frame vm0 vm ->
  (forall a vm', frame vm0 vm' -> (height vm' <= height vm + k)%nat -> P a -> Q a vm') -> wp m vm Q.
Proof.
  intros Hs Hf HQ. specialize (Hs vm (height vm) Hf ltac:(lia)). unfold wp.
  destruct (m vm) as [[a|err] vm']; [|exact Hs]. destruct Hs as (? & ? & ?). by apply HQ.
Qed.

Lemma wp_parses s vm (Q : unit -> Engine -> Prop) :
  (checkScriptParses s = None -> Q tt vm) -> wp (parses s) vm Q.
Proof.
  intros HQ. apply wp_lift; [by destruct (checkScriptParses s)|].
  intros [] H. apply HQ. by destruct (checkScriptParses s).
Qed.

Lemma zlen_in_sum (w : list Z) (l : list (list Z)) : w ∈ l -> (length w <= sum_list_with length l)%nat.
Proof.
  induction l as [|x l IH]; [by intros ?%elem_of_nil|]. rewrite elem_of_cons. cbn. intros [->|H]; [lia|].
  specialize (IH H). lia.
Qed.

Lemma is_bytes_around pre data post :
  is_bytes pre -> is_bytes data -> is_bytes post -> zlen data < 256 -> is_bytes (around pre data post).
Proof.
  intros H1 H2 H3 Hl. unfold around. apply Forall_app; split; [done|]. apply Forall_cons; split.
  - pose proof (zlen_nonneg data). unfold is_u8. lia.
  - by apply Forall_app.
Qed.

Section program.
Hypothesis Hwit : witnessOk.

Lemma witness_elem w : w ∈ inputWitness e -> scriptOk w /\ (length w <= witnessSize)%nat.
Proof.
  intros Hw. destruct Hwit as [H _]. rewrite Forall_forall in H. split; [by apply H|].
  apply zlen_in_sum in Hw. unfold witnessSize. lia.
Qed.

Lemma witness_bytes ws : (forall w, w ∈ ws -> w ∈ inputWitness e) -> Forall is_bytes ws.
Proof. intros H. apply Forall_forall. intros w Hw. by destruct (witness_elem w (H w Hw)) as [[? _] _]. Qed.

(** The size check makes the elements of a stack taken from the witness
    admissible. *)
Lemma wp_checkWitnessStack vm (Q : unit -> Engine -> Prop) :
  isWitnessVersionActive e vm 1 || isWitnessVersionActive e vm 0 = true ->
  Forall is_bytes (stk (dstack vm)) ->
  (Forall elemOk (stk (dstack vm)) -> Q tt vm) -> wp (checkWitnessStack e) vm Q.
Proof.
  intros Hv Hb HQ. unfold checkWitnessStack. apply wp_bind, wp_getVM.
  cbv beta. rewrite Hv. apply wp_bind, wp_failIf. intros _. apply wp_failIf. intros Hx. apply HQ.
  rewrite Forall_forall in Hb |- *. intros w Hw. split; [by apply Hb|].
  destruct (Z.leb_spec (zlen w) 520); [done|exfalso].
  assert (existsb (fun w => MaxScriptElementSize <? zlen w) (GetStack vm) = true) as Ht; [|congruence].
  apply existsb_exists. exists w. split; [by apply list_elem_of_In|]. apply Z.ltb_lt. unfold MaxScriptElementSize. lia.
Qed.

Lemma wp_skipWitnessStack vm (Q : unit -> Engine -> Prop) :
  isWitnessVersionActive e vm 1 || isWitnessVersionActive e vm 0 = false ->
  Q tt vm -> wp (checkWitnessStack e) vm Q.
Proof.
  intros Hv HQ. unfold checkWitnessStack. apply wp_bind, wp_getVM.
  cbv beta. rewrite Hv. exact HQ.
Qed.

(** The witness becomes the stack, and [s] the next script. *)
Definition entered (s : list Z) (ws : list (list Z)) (vm : Engine) : Engine :=
  setDstack (setStk (dstack vm) ws) (setScripts (scripts vm ++ [s]) vm).

Definition entrance (s : list Z) (ws : list (list Z)) : Prop :=
  scriptOk s /\ (length s <= witnessSize)%nat /\ (forall w, w ∈ ws -> w ∈ inputWitness e) /\
  (length ws <= length (inputWitness e))%nat.

Lemma elem_of_take_in {A} n (l : list A) x : x ∈ take n l -> x ∈ l.
Proof. intros H. rewrite <- (take_drop n l). apply elem_of_app. by left. Qed.

Lemma wp_verifyWitnessV0 program vm (Q : unit -> Engine -> Prop) :
  is_bytes program ->
  (forall s ws, entrance s ws -> Q tt (entered s ws vm)) ->
  wp (verifyWitnessV0 program (inputWitness e)) vm Q.
Proof.
  intros Hb HQ. unfold verifyWitnessV0. destruct (Z.eqb_spec (zlen program) 20) as [Hl|_].
  - apply wp_bind, wp_failIf. intros _. rewrite payToPubKeyHash_eq by done.
    apply wp_bind, wp_lift; [exact I|]. intros ? [= <-]. apply wp_bind, wp_parses. intros _.
    apply HQ. split; [split|].
    + apply is_bytes_around; [by repeat constructor|done|by repeat constructor|lia].
    + unfold around, zlen in *. rewrite length_app. cbn [length]. rewrite length_app. cbn [length]. lia.
    + split; [|done]. unfold around, witnessSize. rewrite length_app. cbn [length]. rewrite length_app.
      unfold zlen in Hl. cbn [length]. lia.
  - destruct (_ =? 32); [|exact I]. apply wp_bind, wp_failIf. intros Hne. apply wp_bind, wp_failIf. intros _.
    apply wp_bind, wp_failIf. intros _. apply wp_bind, wp_parses. intros _.
    destruct (last (inputWitness e)) as [s|] eqn:El.
    2:{ apply last_None in El. rewrite El in Hne. discriminate. }
    cbn [from_option id]. apply HQ. destruct (witness_elem s) as [Hs Hsz]; [by apply last_Some_elem_of|].
    split; [done|]. split; [done|]. split; [intros w; apply elem_of_take_in|]. rewrite length_take. lia.
Qed.

(** A key from a control block parses again. *)
Lemma leafCommitment_ok b c program script :
  is_bytes b -> ParseControlBlock b = Ok c -> resOk e (VerifyTaprootLeafCommitment c program script).
Proof.
  intros Hb Hc. unfold ParseControlBlock in Hc. destruct (zlen b <? 33) eqn:E1; [discriminate|].
  destruct (_ <? zlen b) eqn:E2; [discriminate|]. destruct (negb (_ =? 0)); [discriminate|]. apply Z.ltb_ge in E1.
  destruct (schnorrParsePubKey (slice 1 33 b)) as [pk|err] eqn:Ek; [|discriminate]. result_simpl.
  injection Hc as <-.
  assert (Hl : zlen (slice 1 33 b) = 32).
  { unfold slice, zlen in *. rewrite length_take, length_drop. lia. }
  assert (Hs : SerializePubKey pk = slice 1 33 b).
  { unfold schnorrParsePubKey in Ek. rewrite Hl in Ek. cbn [Z.eqb Pos.eqb negb] in Ek.
    destruct (ParsePubKey _) as [pk'|] eqn:Ep; [|done]. injection Ek as ->.
    apply ParsePubKey_even in Ep; [|unfold slice; by apply Forall_take, Forall_drop|done].
    unfold SerializePubKey. rewrite Ep. reflexivity. }
  unfold VerifyTaprootLeafCommitment, ComputeTaprootOutputKey. cbn [InternalKey]. rewrite Hs, Ek. result_simpl.
  destruct (negb (bool_decide _)); [exact I|]. by destruct (negb (eqb _ _)).
Qed.

Lemma ParseControlBlock_ok b : resOk e (ParseControlBlock b).
Proof.
  unfold ParseControlBlock. destruct (_ <? _); [exact I|]. destruct (_ <? _); [exact I|].
  destruct (negb _); [exact I|]. apply resOk_bind; [apply schnorrParsePubKey_ok|]. done.
Qed.

Lemma spec_keySpend vm0 program sig : spec e vm0 0 (verifyTaprootKeySpend e program sig) (fun _ => True).
Proof.
  unfold verifyTaprootKeySpend.
  apply (spec_bind _ _ 0 0 _ _ (fun _ => True)); [apply spec_liftOk, newTaproot_ok|]. intros t _.
  apply (spec_bind _ _ 0 0 _ _ (fun _ => True)); [apply spec_taprootVerify|]. intros [[] ?] _.
  - by apply spec_ret.
  - apply spec_error.
Qed.

Definition stacksOk (vm : Engine) : Prop := Forall elemOk (stk (dstack vm)) /\ Forall elemOk (stk (astack vm)).

Lemma frame_refl vm : stacksOk vm -> frame vm vm.
Proof. intros [H1 H2]. by split. Qed.

Lemma wp_verifyScriptPath program witness vm (Q : bool -> Engine -> Prop) :
  (forall w, w ∈ witness -> w ∈ inputWitness e) -> (length witness <= length (inputWitness e))%nat ->
  (2 <= length witness)%nat -> isSome (taprootCtx vm) = true ->
  (forall vm', scripts vm' = scripts vm -> scriptIdx vm' = scriptIdx vm -> Q true vm') ->
  (forall s ws ctx, entrance s ws -> Q false (entered s ws (setTaprootCtx (Some ctx) vm))) ->
  wp (verifyScriptPath e program witness) vm Q.
Proof.
  intros Hin Hlen H2 Hctx Htrue Hfalse. unfold verifyScriptPath. set (n := length witness) in *.
  assert (Hnth : forall i, (i < n)%nat -> nth i witness [] ∈ inputWitness e).
  { intros i Hi. apply Hin, list_elem_of_In, nth_In. exact Hi. }
  destruct (witness_elem _ (Hnth (n - 1)%nat ltac:(lia))) as [[Hcb _] _].
  destruct (witness_elem _ (Hnth (n - 2)%nat ltac:(lia))) as [Hs Hsz].
  apply wp_bind, wp_lift; [apply ParseControlBlock_ok|]. intros c Hc.
  apply wp_bind, wp_lift; [by eapply leafCommitment_ok|]. intros _ _.
  destruct (ScriptHasOpSuccess _).
  { apply wp_bind, wp_failIf. intros _. by apply Htrue. }
  destruct (negb _). { apply wp_bind, wp_failIf. intros _. by apply Htrue. }
  apply wp_bind, wp_parses. intros _. destruct (taprootCtx vm) as [ctx|] eqn:Ectx; [|done].
  apply wp_bind, wp_modify. cbv beta. rewrite Ectx. apply wp_bind, wp_modify. apply wp_bind, wp_modify.
  apply (Hfalse (nth (n - 2) witness []) (take (n - 2) witness) (setTapLeafHash _ ctx)).
  split_and!; [done|done|intros w Hw; by eapply Hin, elem_of_take_in|rewrite length_take; lia].
Qed.

Lemma wp_verifyWitnessV1 program vm (Q : bool -> Engine -> Prop) :
  stacksOk vm ->
  (forall vm', scripts vm' = scripts vm -> scriptIdx vm' = scriptIdx vm -> Q true vm') ->
  (forall s ws ctx, entrance s ws -> Q false (entered s ws (setTaprootCtx (Some ctx) vm))) ->
  wp (verifyWitnessV1 e program (inputWitness e)) vm Q.
Proof.
  intros Hst Htrue Hfalse. unfold verifyWitnessV1. destruct (negb _); [by apply Htrue|].
  apply wp_bind, wp_failIf. intros Hne. apply wp_bind, wp_modify.
  set (vm1 := setTaprootCtx _ vm). set (witness := if isAnnexedWitness _ then _ else _).
  assert (Hin : forall w, w ∈ witness -> w ∈ inputWitness e).
  { unfold witness. destruct (isAnnexedWitness _); [intros w; apply elem_of_take_in|done]. }
  assert (Hlen : (1 <= length witness <= length (inputWitness e))%nat).
  { unfold witness, isAnnexedWitness. apply Z.eqb_neq in Hne. unfold zlen in *.
    destruct (Z.ltb_spec (Z.of_nat (length (inputWitness e))) 2); [lia|].
    destruct (_ && _); [rewrite length_take|]; lia. }
  destruct (Z.eqb_spec (zlen witness) 1) as [H1|H1].
  - unfold verifyKeyPath. apply wp_bind, wp_failIf. intros _. apply wp_bind.
    eapply wp_spec; [apply (spec_keySpend vm1)|by apply frame_refl|].
    intros [] vm' [E1 E2 _ _ _ _ _ _] _ _. apply Htrue; [exact E1|exact E2].
  - apply wp_verifyScriptPath; [done|lia|unfold zlen in H1; lia|done|done|].
    intros s ws ctx Hent. apply (Hfalse s ws ctx Hent).
Qed.

(** What [verifyWitnessProgram] does to a well-formed engine. *)
Lemma wp_verifyWitnessProgram vm program :
  stacksOk vm -> witnessProgram vm = Some program -> is_bytes program -> taprootCtx vm = None ->
  wp (verifyWitnessProgram e (inputWitness e)) vm (fun _ vm' => afterWitness vm vm').
Proof.
  intros Hst Hp Hb Hctx. unfold verifyWitnessProgram. apply wp_bind.
  change (wp getVM vm ?K) with (K vm vm). cbv beta. rewrite Hp. cbn [from_option id].
  assert (Hact : forall v, isWitnessVersionActive e vm v = (witnessVersion e =? v)).
  { intros v. unfold isWitnessVersionActive. by rewrite Hp. }
  rewrite !Hact. destruct (Z.eqb_spec (witnessVersion e) 0) as [H0|H0].
  { apply wp_bind, wp_verifyWitnessV0; [done|]. intros s ws (Hs & Hsz & Hin & Hl).
    apply wp_checkWitnessStack.
    - unfold isWitnessVersionActive. cbn [witnessProgram entered setDstack setScripts]. by rewrite Hp, H0.
    - by apply witness_bytes.
    - intros Hel. right. split; try done; [by eexists|]. split.
      + intros _ Hv. by rewrite H0 in Hv.
      + cbn [taprootCtx entered setDstack setScripts]. by rewrite Hctx. }
  destruct (Z.eqb_spec (witnessVersion e) 1) as [H1|H1]; cbn [andb].
  - destruct (_ && _) eqn:Etap.
    + apply wp_bind, wp_verifyWitnessV1; [done|intros vm' E1 E2; by left|].
      intros s ws ctx (Hs & Hsz & Hin & Hl). apply wp_checkWitnessStack.
      * unfold isWitnessVersionActive. cbn [witnessProgram entered setDstack setScripts setTaprootCtx].
        by rewrite Hp, H1.
      * by apply witness_bytes.
      * intros Hel. right. split; try done; [by eexists|]. split; [intros _ _ [=]|].
        intros _. cbn [witnessProgram entered setDstack setScripts setTaprootCtx]. by rewrite Hp, H1.
    + destruct (hasFlag e _); [exact I|]. apply wp_bind, wp_modify.
      apply wp_skipWitnessStack; [done|]. by left.
  - destruct (hasFlag e _); [exact I|]. apply wp_bind, wp_modify.
    apply wp_skipWitnessStack; [done|]. by left.
Qed.
End program.
End steps.

(** ** The invariant *)

Section invariant.
Context `{Curve : Secp256k1} {Laws : Secp256k1Laws Curve}.
Context `{Hash160 : Ripemd160} {Hash160Laws : Ripemd160Laws Hash160} `{Picks : MapPick}.
Variable e : EngineParams.
Variables scriptSig pkScript : list Z.
Variable program : option (list Z).

(** What [NewEngine] established. *)
Record started : Prop := {
  st_sig : scriptOk scriptSig;
  st_pk : scriptOk pkScript;
  st_wit : witnessOk e;
  st_program p : program = Some p -> is_bytes p;
  st_native : isSome program = true -> bip16 e = false ->
    scriptSig = [] /\ exists v p, pkScript = smallIntOp v :: zlen p :: p /\ 0 <= v <= 16 /\ 2 <= zlen p <= 40;
  st_p2sh : bip16 e = true -> exists rest, pkScript = OP_HASH160 :: rest }.

Hypothesis Hst : started.

(** The four scripts, in order of execution; [pre] is what has been read of the
    current one. *)
Inductive stage (vm : Engine) (pre : list Z) : Prop :=
| StageSig :
    scriptIdx vm = 0 -> scripts vm = [scriptSig; pkScript] -> witnessProgram vm = program ->
    taprootCtx vm = None -> stage vm pre
| StagePk :
    scriptIdx vm = 1 -> scripts vm = [scriptSig; pkScript] -> witnessProgram vm = program ->
    taprootCtx vm = None ->
    (bip16 e = true ->
     match pre with
     | [] => stk (dstack vm) = savedFirstStack vm /\ condStack vm = []
     | _ => savedFirstStack vm <> []
     end) ->
    (isSome program = true -> bip16 e = false -> (length pre <= 1)%nat \/ pre = pkScript) -> stage vm pre
| StageRedeem :
    scriptIdx vm = 2 -> zlen (scripts vm) = 3 -> bip16 e = true -> witnessProgram vm = program ->
    taprootCtx vm = None -> stage vm pre
| StageWitness :
    scriptIdx vm = (if bip16 e then 3 else 2) -> zlen (scripts vm) = scriptIdx vm + 1 -> sigState e vm ->
    stage vm pre.

Record bounded (vm : Engine) : Prop := {
  bd_stacks : stacksOk vm;
  bd_saved : Forall elemOk (savedFirstStack vm);
  bd_savedLen : (length (savedFirstStack vm) <= 1000)%nat;
  bd_height : (height vm <= max 1000 (length (inputWitness e)))%nat;
  bd_scripts : Forall scriptOk (scripts vm) }.

Definition Inv (vm : Engine) : Prop :=
  bounded vm /\
  exists pre post, at_offset (tokenizer vm) pre post /\ currentScript vm = pre ++ post /\ post <> [] /\
    stage vm pre.

(** Bytes still to be read: of this script, and at most of the ones to come. *)
Definition future (idx : Z) : nat :=
  let redeem := if bip16 e then 520%nat else 0%nat in
  if idx =? 0 then (length pkScript + redeem + witnessSize e)%nat
  else if idx =? 1 then (redeem + witnessSize e)%nat
  else if idx =? 2 then (if bip16 e then witnessSize e else 0%nat)
  else 0%nat.

Definition potential (vm : Engine) : nat :=
  (length (currentScript vm) - Z.to_nat (tk_offset (tokenizer vm)) + future (scriptIdx vm))%nat.

(** *** Reading a token *)

Lemma is_bytes_token tok : wf_token tok -> is_bytes (tokenBytes tok) -> is_bytes (default [] tok.2).
Proof.
  destruct tok as [op [d|]]; intros _ Hb; [|constructor]. cbn [snd from_option id]. unfold tokenBytes in Hb.
  destruct (op <=? 75); [by apply Forall_cons_1 in Hb as [_ Hb]|].
  destruct (op =? OP_PUSHDATA1); [|destruct (op =? OP_PUSHDATA2)];
    apply Forall_cons_1 in Hb as [_ Hb]; by apply Forall_app in Hb as [_ Hb].
Qed.

Lemma tokenBytes_head tok : exists rest, tokenBytes tok = tok.1 :: rest.
Proof. destruct tok as [op [d|]]; cbn -[le_bytes]; repeat case_match; by eexists. Qed.

(** In a witness program both opcodes are pushes. *)
Lemma program_token v p pre tok post :
  0 <= v <= 16 -> 2 <= zlen p <= 40 -> wf_token tok ->
  smallIntOp v :: zlen p :: p = pre ++ tokenBytes tok ++ post -> (length pre <= 1)%nat ->
  tok.1 <= OP_16 /\ (post <> [] -> (length (pre ++ tokenBytes tok) <= 1)%nat).
Proof.
  intros Hv Hp Hwf Heq Hpre. destruct (AsSmallInt_smallIntOp v Hv) as (_ & Hsi & _ & _).
  destruct (tokenBytes_head tok) as [rest Hh].
  destruct pre as [|x [|y pre]]; cbn [app length] in *; [| |lia].
  - rewrite Hh in Heq. cbn [app] in Heq. injection Heq as Hop _.
    split; [rewrite <- Hop; unfold smallIntOp, OP_0, OP_1; destruct (v =? 0); lia|].
    rewrite Hop in Hsi. rewrite (wf_token_small_int tok Hwf Hsi). cbn. lia.
  - rewrite Hh in Heq. cbn [app] in Heq. injection Heq as _ Hop Hrest. rewrite <- Hop. split; [lia|].
    intros Hpost. exfalso. apply Hpost. destruct tok as [op [d|]]; cbn [fst snd] in *; destruct Hwf as [_ Hwf]; cbn [fst snd] in Hwf.
    + unfold OP_PUSHDATA1, OP_PUSHDATA2, OP_PUSHDATA4 in Hwf. assert (zlen d = op) as Hd by lia.
      unfold tokenBytes in Hh. destruct (Z.leb_spec op 75); [|lia]. injection Hh as <-.
      assert (length p = length d) as Hl by (unfold zlen in *; lia).
      apply (f_equal length) in Hrest. rewrite length_app in Hrest. destruct post; [done|cbn in Hrest; lia].
    + unfold opcodeLength in Hwf. destruct (Z.eqb_spec op 0); [lia|]. destruct (Z.leb_spec op 75); lia.
Qed.

(** *** The signature opcodes of a stage *)

Lemma stage_sigState vm pre tok post :
  stage vm pre -> currentScript vm = pre ++ tokenBytes tok ++ post -> wf_token tok ->
  tok.1 <= OP_16 \/ sigState e vm.
Proof.
  intros Hs Hcur Hwf.
  assert (Hnone : taprootCtx vm = None -> witnessProgram vm = program ->
                  (isSome program = true -> bip16 e = true) -> sigState e vm).
  { intros Hc Hp Hb. split; [|by rewrite Hc]. rewrite Hp. intros Hsome Hv _. right. split; [by apply Hb|done]. }
  destruct Hs as [H0 Hscr Hp Hc|H1 Hscr Hp Hc _ Hpre|H2 _ Hb Hp Hc|_ _ Hsig]; [..|by right].
  - right. apply Hnone; [done|done|]. intros Hsome. destruct (bip16 e) eqn:Eb; [done|].
    destruct (st_native Hst Hsome Eb) as [-> _]. unfold currentScript in Hcur. rewrite H0, Hscr in Hcur.
    destruct (tokenBytes_head tok) as [rest Hh]. rewrite Hh in Hcur. by destruct pre.
  - destruct (isSome program) eqn:Esome; [|right; apply Hnone; done].
    destruct (bip16 e) eqn:Eb; [right; by apply Hnone|]. left.
    destruct (st_native Hst Esome Eb) as [_ (v & p & Hpk & Hv & Hl)].
    unfold currentScript in Hcur. rewrite H1, Hscr in Hcur. change (nth _ _ _) with pkScript in Hcur.
    destruct (Hpre eq_refl eq_refl) as [Hpre1|Hall].
    + rewrite Hpk in Hcur. by destruct (program_token v p pre tok post Hv Hl Hwf Hcur Hpre1).
    + destruct (tokenBytes_head tok) as [rest Hh]. rewrite Hall, Hh in Hcur.
      apply (f_equal length) in Hcur. rewrite !length_app in Hcur. cbn in Hcur. lia.
  - right. by apply Hnone.
Qed.

(** A pay-to-script-hash output does not run on an empty stack. *)
Lemma hash160_empty vm data (Q : unit -> Engine -> Prop) :
  stk (dstack vm) = [] -> condStack vm = [] -> wp e (executeOpcode e OP_HASH160 data) vm Q.
Proof.
  intros Hd Hc. unfold executeOpcode. apply wp_bind, wp_failIf. intros _. apply wp_bind, wp_failIf. intros _.
  apply wp_bind, wp_getVM. cbv beta. apply wp_bind.
  assert (Hop : forall vm', dstack vm' = dstack vm -> condStack vm' = condStack vm ->
            wp e (if negb (isBranchExecuting vm) && negb (isOpcodeConditional OP_HASH160) then mret tt
                  else _ ← (if verifyMinimalData (dstack vm) && isBranchExecuting vm && (OP_HASH160 <=? OP_PUSHDATA4)
                            then liftE (checked (checkMinimalDataPush OP_HASH160 data)) else mret tt);
                       opfunc e OP_HASH160 data) vm' Q).
  { intros vm' Ed Ec. unfold isBranchExecuting. rewrite Hc. cbn [last negb andb].
    change (OP_HASH160 <=? OP_PUSHDATA4) with false. rewrite andb_false_r. apply wp_bind.
    change (wp e (mret tt) vm' ?K) with (K tt vm'). cbv beta. change (opfunc e OP_HASH160 data) with (opcodeHash OP_HASH160).
    unfold opcodeHash. apply wp_bind. unfold wp, onDstack.
    rewrite PopByteArray_nil by (rewrite Ed; exact Hd). exact I. }
  destruct (negb (isSome (taprootCtx vm)) && (OP_16 <? OP_HASH160)).
  - apply wp_bind, wp_modify. apply wp_failIf. intros _. by apply Hop.
  - apply wp_failIf. intros _. by apply Hop.
Qed.

(** *** The end of a script *)

Lemma setDstack_id vm : setDstack (dstack vm) vm = vm.
Proof. by destruct vm. Qed.

Lemma PopBool_cases s :
  (exists v s', PopBool s = (Ok v, s')) \/ PopBool s = (Err (ScriptErr ErrInvalidStackOperation), s).
Proof.
  unfold PopBool. rewrite stackM_bind_eq. unfold PopByteArray, nipN. cbv zeta.
  destruct (_ || _); [by right|]. left. by eexists _, _.
Qed.

(** [CheckErrorCondition] changes the data stack at most. *)
Lemma wp_checkErrorCondition b vm (Q : unit -> Engine -> Prop) :
  (forall s, Q tt (setDstack s vm)) -> wp e (CheckErrorCondition e b) vm Q.
Proof.
  intros HQ. unfold CheckErrorCondition. apply wp_bind, wp_getVM. cbv beta.
  destruct (match taprootCtx vm with Some _ => _ | None => _ end).
  { change (Q tt vm). rewrite <- (setDstack_id vm). apply HQ. }
  do 4 (apply wp_bind, wp_failIf; intros _). apply wp_bind. unfold wp at 1, onDstack.
  destruct (PopBool_cases (dstack vm)) as [(v & s & ->)| ->]; [|exact I].
  apply wp_failIf. intros _. apply HQ.
Qed.

(** The state in which the next script starts. *)
Definition entering (vm : Engine) : Prop :=
  bounded vm /\ condStack vm = [] /\ scriptIdx vm + 1 = zlen (scripts vm) /\ 0 <= scriptIdx vm /\
  stage vm [].

Lemma stage_tokenizer vm t k pre : stage vm pre -> stage (setTokenizer t (setLastCodeSep k vm)) pre.
Proof. intros []; [by apply StageSig|by apply StagePk|by apply StageRedeem|by apply StageWitness]. Qed.

(** The tail of [endScript], after [advanceScript]. *)
Lemma wp_endTail vm (Q : bool -> Engine -> Prop) :
  zlen (scripts vm) <= scriptIdx vm + 1 ->
  (forall vm', Q true vm') ->
  (scriptIdx vm < zlen (scripts vm) -> currentScript vm <> [] ->
   Q false (setTokenizer (MakeScriptTokenizer 0 (currentScript vm)) (setLastCodeSep 0 vm))) ->
  wp e (_ ← modifyVM (fun vm => if (scriptIdx vm <? zlen (scripts vm)) && (zlen (currentScript vm) =? 0)
                                then setScriptIdx (scriptIdx vm + 1) vm else vm);
        _ ← modifyVM (setLastCodeSep 0);
        vm ← getVM;
        if zlen (scripts vm) <=? scriptIdx vm then mret true
        else
          _ ← modifyVM (setTokenizer (MakeScriptTokenizer 0 (currentScript vm)));
          mret false) vm Q.
Proof.
  intros Htop Htrue Hfalse. apply wp_bind, wp_modify. apply wp_bind, wp_modify. apply wp_bind, wp_getVM. cbv beta.
  destruct (Z.ltb_spec (scriptIdx vm) (zlen (scripts vm))) as [Hlt|Hge]; cbn [andb].
  - destruct (Z.eqb_spec (zlen (currentScript vm)) 0) as [Hz|Hnz].
    + cbn [scriptIdx scripts setLastCodeSep setScriptIdx].
      destruct (Z.leb_spec (zlen (scripts vm)) (scriptIdx vm + 1)); [apply Htrue|lia].
    + cbn [scriptIdx scripts setLastCodeSep].
      destruct (Z.leb_spec (zlen (scripts vm)) (scriptIdx vm)); [lia|].
      apply wp_bind, wp_modify. apply Hfalse; [done|]. intros Hnil. by rewrite Hnil in Hnz.
  - cbn [scriptIdx scripts setLastCodeSep].
    destruct (Z.leb_spec (zlen (scripts vm)) (scriptIdx vm)); [apply Htrue|lia].
Qed.

Lemma zlen_2 {A} (a b : A) : zlen [a; b] = 2.
Proof. reflexivity. Qed.

Lemma nth_last_script (l : list (list Z)) s n : zlen l = Z.of_nat n -> nth n (l ++ [s]) [] = s.
Proof. intros H. replace n with (length l) by (unfold zlen in H; lia). apply nth_middle. Qed.

(** Where [advanceScript] goes: past the end, or to one more script that is
    covered by the bytes accounted for. *)
Definition advanced (old : Z) (vm : Engine) : Prop :=
  zlen (scripts vm) <= scriptIdx vm \/
  (entering vm /\ (length (currentScript vm) + future (scriptIdx vm) <= future old)%nat).

Lemma bounded_entered s ws vm vm0 :
  bounded vm0 -> savedFirstStack vm = savedFirstStack vm0 -> scripts vm = scripts vm0 ->
  scriptOk s -> Forall elemOk ws -> stk (astack vm) = [] ->
  (length ws <= max 1000 (length (inputWitness e)))%nat -> bounded (entered s ws vm).
Proof.
  intros [_ Hsv Hsl _ Hsc] Esv Esc Hs Hws Hast Hl. split.
  - split; [done|]. cbn [astack entered setDstack setScripts]. rewrite Hast. constructor.
  - cbn [savedFirstStack entered setDstack setScripts]. by rewrite Esv.
  - cbn [savedFirstStack entered setDstack setScripts]. by rewrite Esv.
  - unfold height. cbn [astack dstack stk entered setDstack setScripts setStk]. rewrite Hast. cbn [length]. lia.
  - cbn [scripts entered setDstack setScripts]. rewrite Esc. apply Forall_app; split; [done|]. by apply Forall_singleton.
Qed.

Lemma currentScript_entered s ws vm :
  scriptIdx vm = zlen (scripts vm) -> currentScript (entered s ws vm) = s.
Proof.
  intros Hi. unfold currentScript. cbn [scriptIdx scripts entered setDstack setScripts].
  apply nth_last_script. rewrite Hi. unfold zlen. lia.
Qed.

(** The redeem script is the top of the stack the first script left. *)
Lemma wp_redeem vm :
  bounded vm -> condStack vm = [] -> stk (astack vm) = [] ->
  scriptIdx vm = 1 -> zlen (scripts vm) = 2 -> bip16 e = true -> witnessProgram vm = program ->
  taprootCtx vm = None -> savedFirstStack vm <> [] ->
  wp e (enterRedeemScript e) vm (fun _ vm' => advanced (scriptIdx vm) vm').
Proof.
  intros Hbd Hcond Hast Hidx Hscr Hb Hp Hc Hne. pose proof Hbd as [Hst2 Hsv Hsl Hh Hsc].
  unfold enterRedeemScript. apply wp_bind, wp_modify. cbv beta.
  apply wp_bind, wp_checkErrorCondition. intros s. apply wp_bind, wp_getVM. cbv beta.
  set (vm1 := setDstack s _). change (savedFirstStack vm1) with (savedFirstStack vm).
  destruct (exists_last Hne) as (saved & script & Esv). rewrite Esv in *. rewrite last_snoc.
  apply Forall_app in Hsv as [Hsaved Hscript]. apply Forall_cons_1 in Hscript as [Hel _].
  rewrite length_app in *. cbn [length] in *. rewrite Nat.add_sub, take_app_length.
  apply wp_bind, wp_parses. intros _. apply wp_bind, wp_modify. cbv beta. apply wp_modify. cbv beta.
  change (advanced (scriptIdx vm) (entered script saved vm1)). right.
  assert (Hs : scriptOk script) by (destruct Hel; split; [done|lia]).
  assert (Hlen : zlen (scripts vm1) = 2) by exact Hscr.
  assert (Hi1 : scriptIdx vm1 = 2) by (change (scriptIdx vm + 1 = 2); lia).
  rewrite currentScript_entered by lia. split.
  - split; [|split; [exact Hcond|]].
    + apply (bounded_entered _ _ _ vm); done || lia.
    + cbn [scriptIdx scripts entered setDstack setScripts]. rewrite zlen_app, Hlen, Hi1. split; [reflexivity|].
      split; [lia|]. apply StageRedeem; [exact Hi1| |done|exact Hp|exact Hc].
      cbn [scripts entered setDstack setScripts]. rewrite zlen_app, Hlen. reflexivity.
  - change (scriptIdx (entered script saved vm1)) with (scriptIdx vm1). rewrite Hidx, Hi1. unfold future.
    rewrite Hb. cbn [Z.eqb Pos.eqb]. destruct Hel as [_ Hel]. unfold zlen in Hel. lia.
Qed.

(** *** Advancing *)

Lemma stage_end vm pre : stage vm pre -> pre <> [] -> zlen (scripts vm) = Z.max 2 (scriptIdx vm + 1) /\ 0 <= scriptIdx vm.
Proof.
  intros [Hi Hs _ _|Hi Hs _ _ _ _|Hi Hs _ _ _|Hi Hs _] _; rewrite ?Hs, ?Hi; try (split; [reflexivity|lia]).
  destruct (bip16 e); split; lia.
Qed.

Lemma wp_witness vm :
  bounded vm -> condStack vm = [] -> stk (astack vm) = [] ->
  isSome program = true -> witnessProgram vm = program -> taprootCtx vm = None ->
  zlen (scripts vm) = scriptIdx vm + 1 -> scriptIdx vm + 1 = (if bip16 e then 3 else 2) ->
  wp e (_ ← bumpScriptIdx; verifyWitnessProgram e (inputWitness e)) vm
    (fun _ vm' => advanced (scriptIdx vm) vm').
Proof.
  intros Hbd Hcond Hast Hsome Hp Hc Hlen Hidx. pose proof Hbd as [Hst2 Hsv Hsl Hh Hsc].
  apply wp_bind, wp_modify. cbv beta. destruct program as [p|] eqn:Ep; [|done].
  set (vm1 := setScriptIdx _ vm). assert (Hi1 : scriptIdx vm1 = (if bip16 e then 3 else 2)) by exact Hidx.
  assert (Hl1 : zlen (scripts vm1) = scriptIdx vm1) by exact Hlen.
  eapply wp_consequence; [apply (wp_verifyWitnessProgram e (st_wit Hst) vm1 p)|].
  - exact Hst2.
  - exact Hp.
  - by apply (st_program Hst).
  - exact Hc.
  - intros _ vm' [[Es Ei]|[Ei Ecd Eas Esv (s & Es & Hs & Hsz) Hel Hhe Hsig]]; [left; rewrite Es, Ei; lia|right].
    assert (Hlen' : zlen (scripts vm') = scriptIdx vm' + 1) by (rewrite Es, zlen_app, Ei, Hl1; reflexivity).
    assert (Hcur : currentScript vm' = s).
    { unfold currentScript. rewrite Es, Ei. apply nth_last_script. rewrite Hl1. destruct (bip16 e); lia. }
    assert (Hast' : stk (astack vm') = []) by (rewrite Eas; exact Hast).
    split; [split; [split|]|].
    + split; [done|]. rewrite Hast'. constructor.
    + by rewrite Esv.
    + by rewrite Esv.
    + unfold height. rewrite Hast'. cbn [length]. lia.
    + rewrite Es. apply Forall_app; split; [exact Hsc|]. by apply Forall_singleton.
    + split; [rewrite Ecd; exact Hcond|]. split; [lia|]. split; [rewrite Ei, Hi1; destruct (bip16 e); lia|].
      apply StageWitness; [by rewrite Ei|done|done].
    + rewrite Hcur, Ei, Hi1. unfold future. destruct (bip16 e).
      * replace (scriptIdx vm) with 2 by lia. cbn [Z.eqb Pos.eqb]. lia.
      * replace (scriptIdx vm) with 1 by lia. cbn [Z.eqb Pos.eqb]. lia.
Qed.

Lemma scriptOk_current vm : bounded vm -> scriptOk (currentScript vm).
Proof.
  intros [_ _ _ _ Hsc]. unfold currentScript.
  destruct (nth_in_or_default (Z.to_nat (scriptIdx vm)) (scripts vm) []) as [Hi|Hd].
  - rewrite Forall_forall in Hsc. apply Hsc. by apply list_elem_of_In.
  - rewrite Hd. split; [constructor|]. reflexivity.
Qed.

Lemma wp_advanceScript vm pre old :
  old = scriptIdx vm -> bounded vm -> (height vm <= 1000)%nat -> condStack vm = [] -> stk (astack vm) = [] -> stage vm pre -> pre <> [] ->
  wp e (advanceScript e) vm (fun _ vm' => advanced old vm').
Proof.
  intros Hold Hbd Hh Hcond Hast Hstage Hpre. unfold advanceScript. apply wp_bind, wp_getVM. cbv beta.
  destruct Hstage as [Hi Hs Hp Hc|Hi Hs Hp Hc Hsv Hnat|Hi Hs Hb Hp Hc|Hi Hs Hsig].
  - assert (Hent : forall vm', bounded vm' -> condStack vm' = [] -> scripts vm' = scripts vm -> scriptIdx vm' = 1 ->
              witnessProgram vm' = program -> taprootCtx vm' = None ->
              (bip16 e = true -> stk (dstack vm') = savedFirstStack vm') -> advanced old vm').
    { intros vm' Hbd' Hc' Es Ei Ep Ec Hsv. right.
      assert (currentScript vm' = pkScript) as Hcur by (unfold currentScript; rewrite Es, Ei, Hs; reflexivity).
      split.
      - split; [done|]. split; [done|]. rewrite Es, Ei, Hs. split; [reflexivity|]. split; [lia|].
        apply StagePk; [done|by rewrite Es|done|done| |left; cbn; lia]. intros Hb. split; [by apply Hsv|done].
      - rewrite Hcur, Ei, Hold, Hi. unfold future. cbn [Z.eqb Pos.eqb]. lia. }
    rewrite Hi. cbn [Z.eqb Pos.eqb andb orb]. destruct (bip16 e) eqn:Eb.
    + apply wp_bind, wp_modify. cbv beta. apply wp_modify. cbv beta. apply Hent; try done.
      * destruct Hbd as [[Hd Ha] _ _ Hhe Hsc]. split; [by split|exact Hd| |exact Hhe|exact Hsc].
        unfold height in Hh. cbn. unfold GetStack. lia.
      * cbn. by rewrite Hi.
    + apply wp_modify. cbv beta. apply Hent; try done; [by destruct Hbd; split|]. cbn. by rewrite Hi.
  - assert (Hl : zlen (scripts vm) = 2) by by rewrite Hs.
    rewrite Hi. cbn [Z.eqb Pos.eqb andb orb]. destruct (bip16 e) eqn:Eb.
    + rewrite Hold. apply wp_redeem; try done. specialize (Hsv eq_refl). by destruct pre.
    + rewrite Hp, ?andb_false_r, ?orb_false_r. destruct (isSome program) eqn:Esome.
      * rewrite Hold. apply wp_witness; try done; rewrite ?Hl, ?Hi, ?Eb; reflexivity.
      * apply wp_modify. cbv beta. left. cbn. lia.
  - rewrite Hi, Hb, Hp. cbn [Z.eqb Pos.eqb andb orb]. rewrite ?andb_true_r. destruct (isSome program) eqn:Esome.
    + rewrite Hold. apply wp_witness; try done; rewrite ?Hs, ?Hi, ?Hb; reflexivity.
    + apply wp_modify. cbv beta. left. cbn. lia.
  - destruct (bip16 e) eqn:Eb; rewrite Hi; cbn [Z.eqb Pos.eqb andb orb].
    + apply wp_modify. cbv beta. left. cbn. lia.
    + rewrite ?andb_false_r. apply wp_modify. cbv beta. left. cbn. lia.
Qed.

(** What [endScript] does once the last token of a script has been executed. *)
Lemma wp_endScript vm pre (Q : bool -> Engine -> Prop) :
  bounded vm -> (height vm <= 1000)%nat -> stage vm pre -> pre <> [] ->
  (forall vm', Q true vm') ->
  (forall vm', Inv vm' -> (potential vm' <= future (scriptIdx vm))%nat -> Q false vm') ->
  wp e (endScript e) vm Q.
Proof.
  intros Hbd Hh Hstage Hpre Htrue Hfalse. unfold endScript. apply wp_bind, wp_getVM. cbv beta.
  apply wp_bind, wp_failIf. intros Hcond. apply negb_false_iff, bool_decide_eq_true_1 in Hcond.
  apply wp_bind, wp_modify. cbv beta. set (vm1 := setAstack _ _).
  assert (Hbd1 : bounded vm1).
  { destruct Hbd as [[Hd Ha] Hsv Hsl _ Hsc]. split; [split; [exact Hd|constructor]|done|done| |done].
    unfold height in *. cbn. lia. }
  assert (Hstage1 : stage vm1 pre).
  { destruct Hstage; [by apply StageSig|by apply StagePk|by apply StageRedeem|by apply StageWitness]. }
  apply wp_bind. eapply wp_consequence with (Q := fun _ vm' => advanced (scriptIdx vm1) vm').
  2:{ intros _ vm2 Hadv. apply wp_endTail; [|apply Htrue|].
      - destruct Hadv as [|[(_ & _ & ? & _) _]]; lia.
      - intros Hlt Hne. destruct Hadv as [|[(Hbd2 & Hc2 & Hl2 & H0 & Hs2) Hpot]]; [lia|].
        apply Hfalse.
        + split; [by destruct Hbd2; split|]. exists [], (currentScript vm2).
          split; [apply at_offset_start, scriptOk_current, Hbd2|]. split; [done|]. split; [done|by apply stage_tokenizer].
        + unfold potential. cbn [tk_offset tokenizer scriptIdx setTokenizer setLastCodeSep MakeScriptTokenizer].
          change (currentScript (setTokenizer _ _)) with (currentScript vm2).
          change (scriptIdx vm1) with (scriptIdx vm) in Hpot. change (Z.to_nat 0) with 0%nat. lia. }
  apply (wp_advanceScript vm1 pre); [reflexivity|done| |done|reflexivity|done|done].
  unfold height in *. cbn. lia.
Qed.

(** *** One step *)

Lemma wp_nextToken vm (Q : bool -> Engine -> Prop) :
  (forall t, Next (tokenizer vm) = (true, t) -> Q true (setTokenizer t vm)) ->
  (forall t, Next (tokenizer vm) = (false, t) -> Q false (setTokenizer t vm)) -> wp e nextToken vm Q.
Proof. intros H1 H2. unfold wp, nextToken. destruct (Next (tokenizer vm)) as [[] t]; auto. Qed.

(** The stage after a token that was not the last of its script. *)
Lemma stage_advance vm vm' pre tok post :
  stage vm pre -> currentScript vm = pre ++ tokenBytes tok ++ post -> wf_token tok ->
  scriptIdx vm' = scriptIdx vm -> scripts vm' = scripts vm -> witnessProgram vm' = witnessProgram vm ->
  isSome (taprootCtx vm') = isSome (taprootCtx vm) -> savedFirstStack vm' = savedFirstStack vm ->
  (bip16 e = true -> scriptIdx vm = 1 -> savedFirstStack vm <> []) ->
  stage vm' (pre ++ tokenBytes tok).
Proof.
  intros Hs Hcur Hwf Ei Es Ep Ec Esv Hne.
  assert (Hnone : taprootCtx vm = None -> taprootCtx vm' = None).
  { intros H. rewrite H in Ec. by destruct (taprootCtx vm'). }
  destruct Hs as [Hi Hsc Hp Hc|Hi Hsc Hp Hc _ Hnat|Hi Hsc Hb Hp Hc|Hi Hsc Hsig].
  - apply StageSig; [congruence|congruence|congruence|by apply Hnone].
  - apply StagePk; [congruence|congruence|congruence|by apply Hnone| |].
    + intros Hb. destruct (tokenBytes_head tok) as [rest ->]. rewrite Esv. specialize (Hne Hb Hi).
      by destruct pre.
    + intros Hsome Hb. destruct (st_native Hst Hsome Hb) as [_ (v & p & Hpk & Hv & Hl)].
      unfold currentScript in Hcur. rewrite Hi, Hsc in Hcur. change (nth _ _ _) with pkScript in Hcur.
      destruct (decide (post = [])) as [->|Hpost]; [right; by rewrite Hcur, app_nil_r|left].
      destruct (Hnat Hsome Hb) as [Hpre1|Hall].
      * rewrite Hpk in Hcur. by apply (program_token v p pre tok post Hv Hl Hwf Hcur Hpre1).
      * destruct (tokenBytes_head tok) as [rest Hh]. rewrite Hall, Hh in Hcur.
        apply (f_equal length) in Hcur. rewrite !length_app in Hcur. cbn in Hcur. lia.
  - apply StageRedeem; [congruence|congruence|done|congruence|by apply Hnone].
  - apply StageWitness; [congruence|congruence|]. destruct Hsig as [H1 H2]. split; rewrite Ep, Ec; done.
Qed.

Lemma stage_saved vm pre tok post data :
  stage vm pre -> currentScript vm = pre ++ tokenBytes tok ++ post ->
  wp e (executeOpcode e tok.1 data) vm (fun _ _ => True) ->
  (bip16 e = true -> scriptIdx vm = 1 -> savedFirstStack vm <> []) \/
  wp e (executeOpcode e tok.1 data) vm (fun _ _ => False).
Proof.
  intros Hs Hcur _. destruct Hs as [Hi Hsc Hp Hc|Hi Hsc Hp Hc Hsv Hnat|Hi Hsc Hb Hp Hc|Hi Hsc Hsig];
    [left; intros; lia| |left; intros; lia|left; intros _; destruct (bip16 e); lia].
  destruct (bip16 e) eqn:Eb; [|by left]. specialize (Hsv eq_refl).
  destruct pre as [|x pre]; [|by left]. destruct Hsv as [Hd Hcond].
  destruct (savedFirstStack vm) as [|y l] eqn:Esv; [right|by left].
  destruct (st_p2sh Hst Eb) as [rest Hpk]. unfold currentScript in Hcur. rewrite Hi, Hsc in Hcur.
  change (nth _ _ _) with pkScript in Hcur. rewrite Hpk in Hcur. destruct (tokenBytes_head tok) as [r Hh].
  rewrite Hh in Hcur. injection Hcur as Hop _. rewrite <- Hop. by apply hash160_empty.
Qed.

(** A step keeps the invariant and reads at least one byte. *)
Lemma wp_Step vm :
  Inv vm -> wp e (Step e) vm (fun done vm' => done = false -> Inv vm' /\ (potential vm' < potential vm)%nat).
Proof.
  intros (Hbd & pre & post & Hat & Hcur & Hne & Hstage). unfold Step. apply wp_bind, wp_getVM. cbv beta.
  apply wp_bind, wp_failIf. intros _. apply wp_bind, wp_nextToken; intros t Hnext; apply wp_bind, wp_getVM; cbv beta;
    cbn [negb]; [|by destruct (tk_err _)].
  set (vm1 := setTokenizer t vm). change (tokenizer vm1) with t.
  pose proof (scriptOk_current vm Hbd) as [Hcb _]. rewrite Hcur in Hcb. apply Forall_app in Hcb as [_ Hpb].
  destruct (Next_inv _ _ _ _ Hat Hpb Hnext) as (tok & post' & Hpost & Hwf & Hat' & Hop & Hdata).
  unfold Opcode. rewrite Hop, Hdata. cbn [from_option id]. subst post. apply Forall_app in Hpb as [Htb _].
  assert (Hstage1 : stage vm1 pre).
  { destruct Hstage; [by apply StageSig|by apply StagePk|by apply StageRedeem|by apply StageWitness]. }
  assert (Hexec : spec e vm1 3 (executeOpcode e tok.1 (default [] tok.2)) (fun _ => True)).
  { apply spec_executeOpcode; [destruct Hwf as [[? _] _]; lia| |by apply is_bytes_token].
    exact (stage_sigState vm1 pre tok post' Hstage1 Hcur Hwf). }
  assert (Hfr : frame vm1 vm1) by apply frame_refl, Hbd.
  apply wp_bind. destruct (stage_saved vm1 pre tok post' (default [] tok.2) Hstage1 Hcur) as [Hsaved|Hfail].
  { eapply wp_spec; [exact Hexec|exact Hfr|done]. }
  2:{ eapply wp_consequence; [exact Hfail|]. intros _ _ []. }
  eapply wp_spec; [exact Hexec|exact Hfr|]. intros _ vm2 [Fs Fi Ft Fv Fp Fc Fd Fa] Hh2 _.
  apply wp_bind, wp_getVM. cbv beta. apply wp_bind, wp_failIf. intros Hsmall. apply wp_bind, wp_modify. cbv beta.
  assert (Hh : (height vm2 <= 1000)%nat).
  { destruct Hbd as [_ _ _ Hhv _]. destruct (st_wit Hst) as [_ Hw]. change (height vm1) with (height vm) in Hh2.
    apply Z.ltb_ge in Hsmall. unfold Depth, height, zlen in *.
    rewrite (i32_id (Z.of_nat (length (stk (dstack vm2))))), (i32_id (Z.of_nat (length (stk (astack vm2))))),
      i32_id in Hsmall by (unfold is_i32; lia). lia. }
  set (vm3 := setOpcodeIdx _ vm2).
  assert (Hbd3 : bounded vm3).
  { destruct Hbd as [_ Hsv Hsl _ Hsc]. split; [by split|..]; cbn [savedFirstStack scripts vm3 setOpcodeIdx];
      rewrite ?Fv, ?Fs; try done. change (height vm3) with (height vm2). lia. }
  assert (Hstage3 : stage vm3 (pre ++ tokenBytes tok)).
  { eapply (stage_advance vm1); [exact Hstage1|exact Hcur|exact Hwf|..]; done. }
  rewrite Ft. change (tokenizer vm1) with t. rewrite (at_offset_Done _ _ _ Hat').
  assert (Hpot : forall k, (k < length (tokenBytes tok ++ post') + future (scriptIdx vm))%nat -> (k < potential vm)%nat).
  { intros k Hk. unfold potential. destruct Hat as (_ & _ & Ho & _). rewrite Ho, Hcur, length_app. unfold zlen. lia. }
  pose proof (tokenBytes_nonempty tok) as Hnz. unfold zlen in Hnz.
  destruct (bool_decide_reflect (post' = [])) as [->|Hpost].
  - apply (wp_endScript vm3 (pre ++ tokenBytes tok)); [done|exact Hh|done| |discriminate|].
    { destruct (tokenBytes_head tok) as [rest ->]. by destruct pre. }
    intros vm' Hinv Hle _. split; [exact Hinv|]. change (scriptIdx vm3) with (scriptIdx vm2) in Hle.
    rewrite Fi in Hle. change (scriptIdx vm1) with (scriptIdx vm) in Hle. apply Hpot. rewrite length_app. lia.
  - assert (Hcur3 : currentScript vm3 = currentScript vm).
    { unfold currentScript. cbn [scripts scriptIdx vm3 setOpcodeIdx]. by rewrite Fs, Fi. }
    assert (Ht3 : tokenizer vm3 = t) by exact Ft. assert (Hi3 : scriptIdx vm3 = scriptIdx vm) by exact Fi.
    intros _. split.
    + split; [done|]. exists (pre ++ tokenBytes tok), post'. rewrite <- app_assoc, Ht3, Hcur3. done.
    + apply Hpot. unfold potential. destruct Hat' as (_ & _ & Ho & _). rewrite Ht3, Ho, Hcur3, Hi3, Hcur.
      unfold zlen. rewrite !length_app. lia.
Qed.
End invariant.
