(* ===== verification/EngineInv.v ===== *)
(** * The script engine: bounds, termination and panics

    From [NewEngine] to the end of [Execute]: a bound on the number of steps and
    on the stacks, and where the Go code can panic. *)

From S2P Require Import Prelude ChainParams Sha256 Sha1 Wire Commitment Script ScriptNum Standard SigHash Signature Taproot Engine Opcodes EngineExec EngineSpec EngineStep.

(** ** From [NewEngine] to the end *)

Section execution.
Context `{Curve : Secp256k1} {Laws : Secp256k1Laws Curve}.
Context `{Hash160 : Ripemd160} {Hash160Laws : Ripemd160Laws Hash160} `{Picks : MapPick}.

(** States reached by steps that do not end the execution. *)
Inductive reaches (e : EngineParams) (vm : Engine) : Engine -> Prop :=
| reaches_refl : reaches e vm vm
| reaches_step vm1 vm2 : reaches e vm vm1 -> Step e vm1 = (Ok false, vm2) -> reaches e vm vm2.

Lemma reaches_Inv e sig pk program vm vm' :
  started e sig pk program -> Inv e sig pk program vm -> reaches e vm vm' -> Inv e sig pk program vm'.
Proof.
  intros Hst Hi. induction 1 as [|vm1 vm2 _ IH Hs]; [done|].
  pose proof (wp_Step e sig pk program Hst vm1 IH) as H. unfold wp in H. rewrite Hs in H. by apply H.
Qed.

Lemma execLoop_total e sig pk program fuel vm :
  started e sig pk program -> Inv e sig pk program vm -> (potential e pk vm < fuel)%nat ->
  exists r vm', execLoop e fuel vm = Some (r, vm') /\ forall s, r = Err (EnginePanic s) -> mayPanic e.
Proof.
  intros Hst. revert vm. induction fuel as [|fuel IH]; intros vm Hi Hf; [lia|].
  pose proof (wp_Step e sig pk program Hst vm Hi) as H. unfold wp in H. cbn [execLoop].
  destruct (Step e vm) as [[[]|err] vm'] eqn:Es.
  - assert (Hc : wp e (CheckErrorCondition e true) vm' (fun _ _ => True)).
    { by apply wp_checkErrorCondition. }
    unfold wp in Hc. destruct (CheckErrorCondition e true vm') as [[[]|err] vm''].
    + exists (Ok tt), vm''. split; [done|]. intros s [=].
    + exists (Err err), vm''. split; [done|]. intros s [= ->]. exact Hc.
  - destruct (H eq_refl) as [Hi' Hp]. apply (IH vm' Hi'). lia.
  - exists (Err err), vm'. split; [done|]. intros s [= ->]. exact H.
Qed.

(** *** What [NewEngine] establishes *)

Definition inputOk (ti : TxIn) : Prop :=
  is_bytes (SignatureScript ti) /\ Forall (fun w => is_bytes w /\ zlen w < 2^31) (Witness ti) /\
  zlen (Witness ti) <= 2^30.

Lemma checkScripts_ok l : checkScripts l = Ok tt -> Forall (fun s => zlen s <= MaxScriptSize) l.
Proof.
  induction l as [|s l IH]; [constructor|]. cbn [checkScripts].
  destruct (Z.ltb_spec MaxScriptSize (zlen s)); [discriminate|]. unfold checked.
  destruct (checkScriptParses s); [discriminate|]. result_simpl. intros Hl. constructor; [done|by apply IH].
Qed.

Lemma findWitnessProgram_ok sig pk witness b v p :
  is_bytes sig -> is_bytes pk -> findWitnessProgram sig pk witness b = Ok (Some (v, p)) ->
  is_bytes p /\
  (b = false -> sig = [] /\ pk = smallIntOp v :: zlen p :: p /\ 0 <= v <= 16 /\ 2 <= zlen p <= 40).
Proof.
  intros Hs Hp. unfold findWitnessProgram.
  assert (Hx : forall s, is_bytes s -> ExtractWitnessProgramInfo s = Ok (v, p) ->
            s = smallIntOp v :: zlen p :: p /\ 0 <= v <= 16 /\ 2 <= zlen p <= 40 /\ is_bytes p).
  { intros s Hb. unfold ExtractWitnessProgramInfo. destruct (extractWitnessProgramInfo s) as [[v' p']|] eqn:E; [|discriminate].
    intros [= -> ->]. apply extractWitnessProgramInfo_inv in E as (H1 & H2 & ->); [|done].
    split_and!; try done; try lia. apply Forall_cons_1 in Hb as [_ Hb]. by apply Forall_cons_1 in Hb as [_ Hb]. }
  destruct (IsWitnessProgram pk).
  - destruct (Z.eqb_spec (zlen sig) 0) as [Hz|]; [|discriminate]. cbn [negb]. result_simpl.
    destruct (ExtractWitnessProgramInfo pk) as [[v' p']|] eqn:E; [|discriminate]. result_simpl. intros [= -> ->].
    destruct (Hx pk Hp E) as (Hpk & H1 & H2 & H3). split; [done|]. intros _. split; [|done].
    destruct sig; [done|]. rewrite zlen_cons in Hz. pose proof (zlen_nonneg sig). lia.
  - destruct (negb (zlen witness =? 0) && b) eqn:Eb.
    + apply andb_true_iff in Eb as [_ ->].
      destruct (_ && _); [|discriminate]. result_simpl.
      destruct (ExtractWitnessProgramInfo (drop 1 sig)) as [[v' p']|] eqn:E; [|discriminate].
      result_simpl. intros [= -> ->]. destruct (Hx (drop 1 sig)) as (_ & _ & _ & H); [by apply Forall_drop|done|].
      split; [done|discriminate].
    + result_simpl. destruct (negb _); discriminate.
Qed.

Lemma NewEngine_inv pk tx idx fl sc hc amt fetch e vm ti :
  NewEngine pk tx idx fl sc hc amt fetch = Ok (e, vm) ->
  TxIns tx !! Z.to_nat idx = Some ti -> inputOk ti -> is_bytes pk ->
  started e (SignatureScript ti) pk (witnessProgram vm) /\
  Inv e (SignatureScript ti) pk (witnessProgram vm) vm /\
  (potential e pk vm <= executeFuel e vm)%nat.
Proof.
  intros Hnew Hti (Hsb & Hw & Hwl) Hpb. unfold NewEngine in Hnew. rewrite Hti in Hnew. cbv zeta in Hnew.
  set (sig := SignatureScript ti) in *.
  repeat match type of Hnew with (if ?c then _ else _) = _ => destruct c eqn:?E; [discriminate|] end.
  set (b := (Z.land fl _ =? _) && isScriptHashScript pk) in *.
  destruct (checkScripts [sig; pk]) as [[]|] eqn:Ec; [|discriminate]. cbn [mbind result_bind] in Hnew.
  apply checkScripts_ok in Ec. apply Forall_cons_1 in Ec as [Hl1 Ec]. apply Forall_cons_1 in Ec as [Hl2 _].
  unfold MaxScriptSize in Hl1, Hl2.
  match type of Hnew with (?x ≫= _) = _ => destruct x as [info|] eqn:Ei; [|discriminate] end. cbn [mbind result_bind] in Hnew.
  injection Hnew as <- <-. cbn [witnessProgram].
  set (e := mkEngineParams _ _ _ _ _ _ _ _).
  assert (Hwit : inputWitness e = Witness ti) by (unfold inputWitness; cbn; by rewrite Hti).
  assert (Hstart : started e sig pk (snd <$> info)).
  { split.
    - split; [done|lia].
    - split; [done|lia].
    - unfold witnessOk. by rewrite Hwit.
    - intros p Hp. destruct info as [[v p']|]; [|done]. injection Hp as ->.
      destruct (_ =? _) in Ei; [|discriminate]. destruct (negb _) in Ei; [discriminate|].
      by apply findWitnessProgram_ok in Ei as [? _].
    - intros Hsome Hb. destruct info as [[v p']|]; [|done].
      destruct (_ =? _) in Ei; [|discriminate]. destruct (negb _) in Ei; [discriminate|].
      apply findWitnessProgram_ok in Ei as [_ H]; [|done|done]. destruct (H Hb) as (? & ? & ? & ?).
      split; [done|]. by exists v, p'.
    - intros Hb. cbn in Hb. unfold b in Hb. apply andb_true_iff in Hb as [_ Hb]. unfold isScriptHashScript in Hb.
      apply isSome_Some in Hb as [h Hh]. apply extractScriptHash_iff in Hh as [_ ->]. by eexists. }
  split; [exact Hstart|]. match goal with |- Inv _ _ _ _ ?v /\ _ => set (vm := v) end.
  assert (Hcur : currentScript vm = if zlen sig =? 0 then pk else sig)
    by (unfold currentScript, vm; cbn [scripts scriptIdx]; by destruct (zlen sig =? 0)).
  assert (Hidx : scriptIdx vm = if zlen sig =? 0 then 1 else 0) by reflexivity.
  assert (Hfuel : executeFuel e vm = (length sig + length pk + 520 + witnessSize e)%nat).
  { unfold executeFuel, witnessSize. cbn. lia. }
  assert (Hnil : forall l : list Z, zlen l = 0 -> l = []) by (intros [|x l] H; [done|rewrite zlen_cons in H; pose proof (zlen_nonneg l); lia]).
  split; [split|].
  - split; [split; constructor|constructor|cbn; lia|cbn; lia|]. constructor; [split; [done|lia]|].
    constructor; [split; [done|lia]|constructor].
  - exists [], (currentScript vm). rewrite Hcur. split; [apply at_offset_start; destruct (zlen sig =? 0); lia|].
    split; [done|]. destruct (Z.eqb_spec (zlen sig) 0) as [Hz|Hz].
    + split.
      * intros Hpk. rewrite (Hnil sig Hz), Hpk in *. discriminate.
      * apply StagePk; [by rewrite Hidx; destruct (Z.eqb_spec (zlen sig) 0)|done|done|done|by intros _|]. left. cbn. lia.
    + split; [intros H; by rewrite H in Hz|]. apply StageSig; [|done|done|done]. rewrite Hidx.
      by destruct (Z.eqb_spec (zlen sig) 0).
  - rewrite Hfuel. unfold potential. rewrite Hcur, Hidx. change (tk_offset (tokenizer vm)) with 0.
    unfold future. destruct (zlen sig =? 0); cbn [Z.eqb Pos.eqb]; destruct (bip16 e); lia.
Qed.

Lemma NewEngine_params pk tx idx fl sc hc amt fetch e vm :
  NewEngine pk tx idx fl sc hc amt fetch = Ok (e, vm) ->
  vm_tx e = tx /\ txIdx e = Z.to_nat idx /\ hashCache e = hc /\ prevOutFetcher e = fetch.
Proof.
  unfold NewEngine. destruct (_ || _); [discriminate|]. destruct (_ !! _) as [ti|]; [|discriminate]. cbv zeta. intros Hnew.
  repeat match type of Hnew with (if ?c then _ else _) = _ => destruct c; [discriminate|] end.
  destruct (checkScripts _) as [[]|]; [|discriminate]. cbn [mbind result_bind] in Hnew.
  match type of Hnew with (?x ≫= _) = _ => destruct x as [info|]; [|discriminate] end.
  cbn [mbind result_bind] in Hnew. injection Hnew as <- <-. done.
Qed.

(** C9: Executing the scripts of an input always ends, within a number of steps
    given by the sizes of the two scripts and of the witness: [Execute] returns
    nil or an error. It panics only if the signature hash midstates or the
    output being spent were not supplied, or if the input spends a
    pay-to-script-hash output and its signature script was read as a nested
    witness program of version 1 or later. *)
Theorem Execute_total pk tx idx fl sc hc amt fetch e vm ti :
  NewEngine pk tx idx fl sc hc amt fetch = Ok (e, vm) ->
  TxIns tx !! Z.to_nat idx = Some ti -> inputOk ti -> is_bytes pk ->
  exists r vm', Execute e vm = Some (r, vm') /\
    forall s, r = Err (EnginePanic s) ->
      ~ (isSome hc = true /\ exists po, fetch (PreviousOutPoint ti) = Some po) \/
      (bip16 e = true /\ witnessVersion e <> 0).
Proof.
  intros Hnew Hti Hin Hpk. destruct (NewEngine_inv _ _ _ _ _ _ _ _ _ _ _ Hnew Hti Hin Hpk) as (Hst & Hinv & Hf).
  destruct (execLoop_total e _ _ _ (S (executeFuel e vm)) vm Hst Hinv ltac:(lia)) as (r & vm' & Hr & Hp).
  exists r, vm'. split; [exact Hr|]. intros s Hs. destruct (Hp s Hs) as [Hn|Hl]; [left|by right].
  intros [Hhc [po Hpo]]. apply Hn. destruct (NewEngine_params _ _ _ _ _ _ _ _ _ _ Hnew) as (E1 & E2 & E3 & E4).
  split; [by rewrite E3|]. exists ti, po. by rewrite E1, E2, E4.
Qed.

(** C29: At every step of an execution, the elements of the two stacks are at
    most 520 bytes long, and the stacks together hold at most 1000 elements, or
    as many as the witness of the input if that is more (the stack a version 0
    witness program starts from is checked only after its first opcode). *)
Theorem stacks_bounded pk tx idx fl sc hc amt fetch e vm ti vm' :
  NewEngine pk tx idx fl sc hc amt fetch = Ok (e, vm) ->
  TxIns tx !! Z.to_nat idx = Some ti -> inputOk ti -> is_bytes pk -> reaches e vm vm' ->
  Forall (fun x => zlen x <= MaxScriptElementSize) (stk (dstack vm') ++ stk (astack vm')) /\
  zlen (stk (dstack vm') ++ stk (astack vm')) <= Z.max MaxStackSize (zlen (Witness ti)).
Proof.
  intros Hnew Hti Hin Hpk Hr. destruct (NewEngine_inv _ _ _ _ _ _ _ _ _ _ _ Hnew Hti Hin Hpk) as (Hst & Hinv & _).
  destruct (reaches_Inv _ _ _ _ _ _ Hst Hinv Hr) as [[[Hd Ha] _ _ Hh _] _].
  destruct (NewEngine_params _ _ _ _ _ _ _ _ _ _ Hnew) as (E1 & E2 & _). split.
  - apply Forall_app; split; eapply Forall_impl; try done; by intros x [_ Hx].
  - rewrite zlen_app. unfold inputWitness in Hh. rewrite E1, E2, Hti in Hh. unfold height, zlen in *. lia.
Qed.
End execution.

(** ** Witnesses *)

(** A hash of the right size stands for RIPEMD-160. *)
Definition truncatedHash : Ripemd160 := fun m => take 20 (Sha256.sum256 m).

Lemma truncatedHash_laws : Ripemd160Laws truncatedHash.
Proof.
  split; intros m; unfold ripemd160, truncatedHash.
  - unfold zlen. rewrite length_take, Sha256.length_sum256. reflexivity.
  - apply Forall_take, Sha256.sum256_is_bytes.
Qed.

Definition noPicks : MapPick := fun _ => [].

(** An input of one signature script and one witness. *)
Definition spendingTx (scriptSig : list Z) (witness : list (list Z)) : MsgTx :=
  mkMsgTx 2 [mkTxIn (mkOutPoint zeroHash 0) scriptSig witness 0] [] 0.

#[local] Existing Instances truncatedHash truncatedHash_laws noPicks.

Lemma Execute_total_witness :
  exists e vm r vm', NewEngine [0x93; 0x55; 0x9c] (spendingTx [0x52; 0x53] []) 0 0 None None 0 (fun _ => None) = Ok (e, vm)
    /\ Execute (Curve := secp256k1) e vm = Some (r, vm').
Proof.
  do 2 eexists.
  edestruct (Execute_total (Curve := secp256k1) [0x93; 0x55; 0x9c] (spendingTx [0x52; 0x53] []) 0 0 None None 0 (fun _ => None))
    as (r & vm' & Hr & _).
  - vm_compute. reflexivity.
  - reflexivity.
  - split; [repeat constructor; lia|]. split; [constructor|vm_compute; discriminate].
  - repeat constructor; lia.
  - exists r, vm'. split; [vm_compute; reflexivity|exact Hr].
Defined.

Lemma stacks_bounded_witness :
  exists e vm vm', NewEngine [0x93; 0x55; 0x9c] (spendingTx [0x52; 0x53] []) 0 0 None None 0 (fun _ => None) = Ok (e, vm)
    /\ reaches (Curve := secp256k1) e vm vm' /\ stk (dstack vm') = [[2]; [3]]
    /\ zlen (stk (dstack vm') ++ stk (astack vm')) <= Z.max MaxStackSize 0.
Proof.
  do 2 eexists.
  assert (Hgo : forall e vm, NewEngine [0x93; 0x55; 0x9c] (spendingTx [0x52; 0x53] []) 0 0 None None 0 (fun _ => None) = Ok (e, vm) ->
    forall vm', reaches (Curve := secp256k1) e vm vm' -> zlen (stk (dstack vm') ++ stk (astack vm')) <= Z.max MaxStackSize 0).
  { intros e vm Hnew vm' Hr.
    edestruct (stacks_bounded (Curve := secp256k1) [0x93; 0x55; 0x9c] (spendingTx [0x52; 0x53] []) 0 0 None None 0 (fun _ => None))
      as [_ H]; [exact Hnew|reflexivity| | |exact Hr|exact H].
    - split; [repeat constructor; lia|]. split; [constructor|vm_compute; discriminate].
    - repeat constructor; lia. }
  eexists. split; [vm_compute; reflexivity|].
  match goal with |- ?R /\ _ => assert (Hr : R) end.
  { eapply reaches_step; [eapply reaches_step; [apply reaches_refl|vm_compute; reflexivity]|vm_compute; reflexivity]. }
  split; [exact Hr|]. split; [reflexivity|]. eapply Hgo; [|exact Hr]. vm_compute. reflexivity.
Defined.
