(* ===== verification/EngineCache.v ===== *)
(** * The script engine: the signature cache

    The cache of txscript/sigcache.go holds signatures that verified. The outcome
    of validating an input does not depend on it: with any cache whose entries
    are valid signatures the engine returns what it returns without one, and the
    entries it adds are valid. *)

From S2P Require Import Prelude ChainParams Sha256 Sha1 Wire Commitment Script ScriptNum Standard SigHash Signature Taproot Engine Opcodes EngineExec EngineInv.

#[local] Opaque Sha256.sum256 Sha1.sum TaggedHash leafTapHash DoubleHashB.

Section cache.
Context `{Curve : Secp256k1} {Laws : Secp256k1Laws Curve}.
Context `{Hash160 : Ripemd160} `{Picks : MapPick}.

(** What an entry promises: the signature is valid for the key under every way
    the verifiers read the two. *)
Definition entryValid (hash sig pk : list Z) : Prop :=
  (forall key rs, ParsePubKey pk = Some key -> ParseSignature sig = Ok rs -> ecdsaSigVerify rs hash key = true) /\
  (forall key s, schnorrParsePubKey pk = Ok key -> schnorrParseSignature (take 64 sig) = Ok s ->
     schnorrSigVerify s hash key = true).

Definition cacheSound (c : option SigCache) : Prop :=
  match c with Some s => sound entryValid s | None => True end.

Lemma schnorrParsePubKey_length pk key : schnorrParsePubKey pk = Ok key -> zlen pk = 32.
Proof. unfold schnorrParsePubKey. by destruct (Z.eqb_spec (zlen pk) 32). Qed.

Lemma ecdsa_entryValid hash sig pk key rs :
  ParsePubKey pk = Some key -> ParseSignature sig = Ok rs -> ecdsaSigVerify rs hash key = true ->
  entryValid hash sig pk.
Proof.
  intros Hk Hs Hv. split; [intros; congruence|]. intros key' s Hk'%schnorrParsePubKey_length.
  apply ParsePubKey_length in Hk. lia.
Qed.

Lemma schnorr_entryValid hash sig pk key s :
  schnorrParsePubKey pk = Ok key -> schnorrParseSignature (take 64 sig) = Ok s -> schnorrSigVerify s hash key = true ->
  entryValid hash sig pk.
Proof.
  intros Hk Hs Hv. split; [|intros; congruence]. intros key' rs Hk'%ParsePubKey_length.
  apply schnorrParsePubKey_length in Hk. lia.
Qed.

(** An operation that does not depend on the cache, and keeps it sound. *)
Definition transparent {A} (m : engineM A) : Prop :=
  forall vm c, cacheSound (sigCache vm) -> cacheSound c ->
  cacheSound (sigCache (m vm).2) /\
  exists c', cacheSound c' /\ m (setSigCache c vm) = ((m vm).1, setSigCache c' (m vm).2).

Lemma t_const {A} (r : result engine_error A) : transparent (fun vm => (r, vm)).
Proof. intros vm c Hs Hc. split; [exact Hs|]. by exists c. Qed.

Lemma t_ret {A} (a : A) : transparent (mret a).
Proof. apply t_const. Qed.

Lemma t_bind {A B} (m : engineM A) (k : A -> engineM B) :
  transparent m -> (forall a, transparent (k a)) -> transparent (m ≫= k).
Proof.
  intros Hm Hk vm c Hs Hc. destruct (Hm vm c Hs Hc) as (Hs' & c' & Hc' & He).
  unfold mbind, engineM_bind. rewrite He. destruct (m vm) as [[a|err] vm']; cbn [fst snd] in *.
  - apply Hk; done.
  - split; [exact Hs'|]. by exists c'.
Qed.

Lemma t_getVM {B} (k : Engine -> engineM B) :
  (forall vm c, k (setSigCache c vm) = k vm) -> (forall vm, transparent (k vm)) -> transparent (getVM ≫= k).
Proof. intros He Hk vm c Hs Hc. unfold mbind, engineM_bind, getVM. rewrite He. by apply Hk. Qed.

Lemma t_modify (f : Engine -> Engine) :
  (forall vm c, f (setSigCache c vm) = setSigCache c (f vm)) -> (forall vm, sigCache (f vm) = sigCache vm) ->
  transparent (modifyVM f).
Proof.
  intros He Hf vm c Hs Hc. unfold modifyVM. cbn [fst snd]. rewrite Hf, He. split; [exact Hs|]. by exists c.
Qed.

Lemma t_onDstack {A} (m : stackM A) : transparent (onDstack m).
Proof.
  intros vm c Hs Hc. unfold onDstack. change (dstack (setSigCache c vm)) with (dstack vm).
  destruct (m (dstack vm)) as [r s]. split; [exact Hs|]. by exists c.
Qed.

Lemma t_onAstack {A} (m : stackM A) : transparent (onAstack m).
Proof.
  intros vm c Hs Hc. unfold onAstack. change (astack (setSigCache c vm)) with (astack vm).
  destruct (m (astack vm)) as [r s]. split; [exact Hs|]. by exists c.
Qed.

Lemma t_failIf b c : transparent (failIf b c).
Proof. destruct b; apply t_const. Qed.

Lemma t_cachedVerify verify hash sig pk :
  (verify = true -> entryValid hash sig pk) -> (entryValid hash sig pk -> verify = true) ->
  transparent (cachedVerify verify hash sig pk).
Proof.
  intros Hv1 Hv2. 
  assert (Hgo : forall vm, cacheSound (sigCache vm) ->
     exists c', cacheSound c' /\ cachedVerify verify hash sig pk vm = (Ok verify, setSigCache c' vm)).
  { intros vm Hs. unfold cachedVerify. destruct (sigCache vm) as [cache|] eqn:E.
    - destruct (SigCacheExists _ _ _ _) eqn:Ex.
      + apply SigCacheExists_sound with (valid := entryValid) in Ex; [|exact Hs]. rewrite (Hv2 Ex).
        exists (Some cache). split; [exact Hs|]. rewrite <- E. by destruct vm.
      + destruct verify; [eexists; split; [|reflexivity]; by apply SigCacheAdd_sound, Hv1|].
        exists (Some cache). split; [exact Hs|]. rewrite <- E. by destruct vm.
    - exists None. split; [done|]. rewrite <- E. by destruct vm. }
  intros vm c Hs Hc. destruct (Hgo vm Hs) as (c1 & Hc1 & ->). destruct (Hgo (setSigCache c vm) Hc) as (c2 & Hc2 & ->).
  split; [exact Hc1|]. exists c2. split; [exact Hc2|]. reflexivity.
Qed.

End cache.

Create HintDb transparent.
#[export] Hint Resolve t_ret t_const t_onDstack t_onAstack t_failIf : transparent.

(** Follow the structure of an operation. *)
Ltac transparent_step :=
  match goal with
  | |- transparent (mbind ?k getVM) => apply t_getVM; [reflexivity|intros ?vm; cbv beta]
  | |- transparent (mbind ?k ?m) => apply t_bind; [|intros ?x; cbv beta]
  | |- transparent (modifyVM _) => apply t_modify; reflexivity
  | |- transparent (liftE _) => apply t_const
  | |- transparent (scriptError _) => apply t_const
  | |- transparent (enginePanic _) => apply t_const
  | |- transparent nilPointer => apply t_const
  | |- transparent (if ?b then _ else _) => destruct b
  | |- transparent (match ?x with _ => _ end) => destruct x
  | |- transparent (let x := _ in _) => cbv zeta
  | |- transparent _ => solve [auto with transparent nocore]
  end.
Ltac transparent := repeat transparent_step.

Section opcodes.
Context `{Curve : Secp256k1} {Laws : Secp256k1Laws Curve}.
Context `{Hash160 : Ripemd160} `{Picks : MapPick}.
Variable e : EngineParams.

Lemma t_opcodeNop op : transparent (opcodeNop e op).
Proof. unfold opcodeNop. transparent. Qed.
#[local] Hint Resolve t_opcodeNop : transparent.

Lemma t_popIfBool : transparent (popIfBool e).
Proof. unfold popIfBool. transparent. Qed.
#[local] Hint Resolve t_popIfBool : transparent.

Lemma t_opcodeIf b : transparent (opcodeIf e b).
Proof. unfold opcodeIf. transparent. Qed.
#[local] Hint Resolve t_opcodeIf : transparent.

Lemma t_opcodeElse : transparent (opcodeElse).
Proof. unfold opcodeElse. transparent. Qed.
#[local] Hint Resolve t_opcodeElse : transparent.

Lemma t_opcodeEndif : transparent (opcodeEndif).
Proof. unfold opcodeEndif. transparent. Qed.
#[local] Hint Resolve t_opcodeEndif : transparent.

Lemma t_abstractVerify c : transparent (abstractVerify c).
Proof. unfold abstractVerify. transparent. Qed.
#[local] Hint Resolve t_abstractVerify : transparent.

Lemma t_peekLockTime : transparent (peekLockTime).
Proof. unfold peekLockTime. transparent. Qed.
#[local] Hint Resolve t_peekLockTime : transparent.

Lemma t_opcodeCheckLockTimeVerify : transparent (opcodeCheckLockTimeVerify e).
Proof. unfold opcodeCheckLockTimeVerify. transparent. Qed.
#[local] Hint Resolve t_opcodeCheckLockTimeVerify : transparent.

Lemma t_opcodeCheckSequenceVerify : transparent (opcodeCheckSequenceVerify e).
Proof. unfold opcodeCheckSequenceVerify. transparent. Qed.
#[local] Hint Resolve t_opcodeCheckSequenceVerify : transparent.

Lemma t_opcodeToAltStack : transparent (opcodeToAltStack).
Proof. unfold opcodeToAltStack. transparent. Qed.
#[local] Hint Resolve t_opcodeToAltStack : transparent.

Lemma t_opcodeFromAltStack : transparent (opcodeFromAltStack).
Proof. unfold opcodeFromAltStack. transparent. Qed.
#[local] Hint Resolve t_opcodeFromAltStack : transparent.

Lemma t_opcodeIfDup : transparent (opcodeIfDup).
Proof. unfold opcodeIfDup. transparent. Qed.
#[local] Hint Resolve t_opcodeIfDup : transparent.

Lemma t_opcodeDepth : transparent (opcodeDepth).
Proof. unfold opcodeDepth. transparent. Qed.
#[local] Hint Resolve t_opcodeDepth : transparent.

Lemma t_opcodePick : transparent (opcodePick).
Proof. unfold opcodePick. transparent. Qed.
#[local] Hint Resolve t_opcodePick : transparent.

Lemma t_opcodeRoll : transparent (opcodeRoll).
Proof. unfold opcodeRoll. transparent. Qed.
#[local] Hint Resolve t_opcodeRoll : transparent.

Lemma t_opcodeSize : transparent (opcodeSize).
Proof. unfold opcodeSize. transparent. Qed.
#[local] Hint Resolve t_opcodeSize : transparent.

Lemma t_opcodeStack op : transparent (opcodeStack op).
Proof. unfold opcodeStack. transparent. Qed.
#[local] Hint Resolve t_opcodeStack : transparent.

Lemma t_opcodeEqual : transparent (opcodeEqual).
Proof. unfold opcodeEqual. transparent. Qed.
#[local] Hint Resolve t_opcodeEqual : transparent.

Lemma t_opcodeUnary op : transparent (opcodeUnary op).
Proof. unfold opcodeUnary. transparent. Qed.
#[local] Hint Resolve t_opcodeUnary : transparent.

Lemma t_opcodeBinary op : transparent (opcodeBinary op).
Proof. unfold opcodeBinary. transparent. Qed.
#[local] Hint Resolve t_opcodeBinary : transparent.

Lemma t_opcodeNumEqualVerify : transparent (opcodeNumEqualVerify).
Proof. unfold opcodeNumEqualVerify. transparent. Qed.
#[local] Hint Resolve t_opcodeNumEqualVerify : transparent.

Lemma t_opcodeWithin : transparent (opcodeWithin).
Proof. unfold opcodeWithin. transparent. Qed.
#[local] Hint Resolve t_opcodeWithin : transparent.

Lemma t_opcodeHash op : transparent (opcodeHash op).
Proof. unfold opcodeHash. transparent. Qed.
#[local] Hint Resolve t_opcodeHash : transparent.

Lemma t_opcodeCodeSeparator : transparent (opcodeCodeSeparator e).
Proof. unfold opcodeCodeSeparator. transparent. Qed.
#[local] Hint Resolve t_opcodeCodeSeparator : transparent.

Lemma t_getCtx : transparent (getCtx).
Proof. unfold getCtx. transparent. Qed.
#[local] Hint Resolve t_getCtx : transparent.

Lemma t_tallysigOp : transparent (tallysigOp).
Proof. unfold tallysigOp. transparent. Qed.
#[local] Hint Resolve t_tallysigOp : transparent.

(** ** Verifiers *)

Lemma t_orInvalid r k : (forall h, transparent (k h)) -> transparent (orInvalid r k).
Proof. intros Hk. unfold orInvalid. transparent. Qed.

Lemma parseECDSA_lax sig rs : parseECDSA e sig = Ok rs -> ParseSignature sig = Ok rs.
Proof. unfold parseECDSA. destruct (_ || _); [apply ParseDERSignature_lax|exact id]. Qed.

Definition baseReady (b : baseSigVerifier) : Prop :=
  ParsePubKey (bv_pkBytes b) = Some (bv_pubKey b) /\ ParseSignature (sigBytesOf (bv_fullSigBytes b)) = Ok (bv_sig b).

Lemma newBaseSigVerifier_ready vm pk sig b : newBaseSigVerifier e vm pk sig = Ok b -> baseReady b.
Proof.
  unfold newBaseSigVerifier, parseBaseSigAndPubkey. destruct (_ =? 0); [discriminate|]. result_simpl.
  destruct (checkHashTypeEncoding _ _); [discriminate|]. cbn [checked]. result_simpl.
  destruct (checkSignatureEncoding _ _); [discriminate|]. cbn [checked]. result_simpl.
  destruct (checkPubKeyEncoding _ _ _); [discriminate|]. cbn [checked]. result_simpl.
  unfold btcecParsePubKey. destruct (ParsePubKey pk) as [key|] eqn:Ek; [|discriminate]. result_simpl.
  destruct (parseECDSA e _) as [rs|] eqn:Es; [|discriminate]. result_simpl. intros [= <-].
  split; [exact Ek|]. exact (parseECDSA_lax _ _ Es).
Qed.

Lemma t_ecdsa sig hash key fullSig pk :
  ParsePubKey pk = Some key -> ParseSignature fullSig = Ok sig ->
  transparent (cachedVerify (ecdsaSigVerify sig hash key) hash fullSig pk).
Proof.
  intros Hk Hs. apply t_cachedVerify; [by apply ecdsa_entryValid|]. intros [H _]. by apply H.
Qed.

Lemma t_baseVerify b : baseReady b -> transparent (baseVerify e b).
Proof.
  intros [Hk Hs]. unfold baseVerify, baseVerifySig. destruct (removeOpcodeByData _ _) as [scr matched].
  transparent. by apply t_ecdsa.
Qed.

Lemma t_segwitVerify b : baseReady b -> transparent (segwitVerify e b).
Proof.
  intros [Hk Hs]. unfold segwitVerify, baseVerifySig, validOnly. transparent.
  apply t_orInvalid. intros h. transparent. by apply t_ecdsa.
Qed.

Definition taprootReady (t : taprootSigVerifier) : Prop :=
  schnorrParsePubKey (tv_pkBytes t) = Ok (tv_pubKey t) /\
  schnorrParseSignature (take 64 (tv_fullSigBytes t)) = Ok (tv_sig t).

Lemma newTaprootSigVerifier_ready pk sig annex allow t :
  newTaprootSigVerifier pk sig annex allow = Ok t -> taprootReady t.
Proof.
  unfold newTaprootSigVerifier, parseTaprootSigAndPubKey.
  destruct (schnorrParsePubKey pk) as [key|] eqn:Ek; [|discriminate]. result_simpl.
  destruct (Z.eqb_spec (zlen sig) 64) as [Hl|].
  - destruct (schnorrParseSignature sig) as [s|] eqn:Es; [|discriminate]. result_simpl. intros [= <-].
    split; [exact Ek|]. cbn [tv_fullSigBytes tv_sig]. rewrite take_ge by (unfold zlen in Hl; lia). exact Es.
  - destruct (_ && _); [|discriminate].
    destruct (schnorrParseSignature (take 64 sig)) as [s|] eqn:Es; [|discriminate]. result_simpl. intros [= <-].
    by split.
Qed.

Lemma t_taprootVerifySig t hash : taprootReady t -> transparent (taprootVerifySig t hash).
Proof.
  intros [Hk Hs]. apply t_cachedVerify; [by apply schnorr_entryValid|]. intros [_ H]. by apply H.
Qed.

Lemma t_taprootVerify t : taprootReady t -> transparent (taprootVerify e t).
Proof.
  intros Ht. unfold taprootVerify, validOnly. apply t_orInvalid. intros h. transparent. by apply t_taprootVerifySig.
Qed.

Lemma newBaseTapscriptSigVerifier_ready ctx pk sig t :
  newBaseTapscriptSigVerifier e ctx pk sig = Ok (Some t) -> taprootReady t.
Proof.
  unfold newBaseTapscriptSigVerifier. destruct (_ =? 0); [discriminate|].
  destruct (_ =? 32); [|destruct (hasFlag _ _); discriminate].
  destruct (newTaprootSigVerifier _ _ _ _) as [t'|] eqn:Et; [|discriminate]. result_simpl.
  destruct (_ && _); [discriminate|]. intros [= <-]. by apply newTaprootSigVerifier_ready in Et.
Qed.

Lemma t_tapscriptVerify ctx o : (forall t, o = Some t -> taprootReady t) -> transparent (tapscriptVerify e ctx o).
Proof.
  intros Ho. unfold tapscriptVerify, validOnly. destruct o as [t|]; [|apply t_ret].
  apply t_orInvalid. intros h. transparent. by apply t_taprootVerifySig, Ho.
Qed.

(** ** Signature opcodes *)

Lemma t_finishCheckSig sig verify : transparent verify -> transparent (finishCheckSig e sig verify).
Proof. intros Hv. unfold finishCheckSig. transparent. Qed.

Lemma t_finishCheckSigAdd acc verify : transparent verify -> transparent (finishCheckSigAdd acc verify).
Proof. intros Hv. unfold finishCheckSigAdd. transparent. Qed.

Lemma t_checkSigBase pk sig verify :
  (forall b, baseReady b -> transparent (verify b)) -> transparent (checkSigBase e pk sig verify).
Proof.
  intros Hv. unfold checkSigBase. apply t_getVM; [reflexivity|]. intros vm.
  destruct (newBaseSigVerifier e vm pk sig) as [b|] eqn:Eb; [|transparent].
  apply t_finishCheckSig, Hv. exact (newBaseSigVerifier_ready _ _ _ _ Eb).
Qed.

Lemma t_liftBind {A B} (r : result engine_error A) (k : A -> engineM B) :
  (forall a, r = Ok a -> transparent (k a)) -> transparent (liftE r ≫= k).
Proof. intros Hk. destruct r as [a|err]; [by apply Hk|apply (t_const (Err err))]. Qed.

Lemma t_tapscriptSig pk sig onEmpty k :
  transparent onEmpty -> (forall m, transparent m -> transparent (k m)) -> transparent (tapscriptSig e pk sig onEmpty k).
Proof.
  intros Ho Hk. unfold tapscriptSig. apply t_bind; [transparent|intros _]. apply t_bind; [transparent|intros _].
  destruct (_ =? 0); [exact Ho|]. apply t_bind; [transparent|intros ctx]. apply t_liftBind. intros v Hv.
  apply Hk, t_tapscriptVerify. intros t ->. exact (newBaseTapscriptSigVerifier_ready _ _ _ _ Hv).
Qed.

Lemma t_opcodeCheckSig : transparent (opcodeCheckSig e).
Proof.
  unfold opcodeCheckSig. transparent.
  - apply t_checkSigBase, t_baseVerify.
  - apply t_checkSigBase, t_segwitVerify.
  - apply t_tapscriptSig; [transparent|]. intros m. apply t_finishCheckSig.
Qed.
#[local] Hint Resolve t_opcodeCheckSig : transparent.

Lemma t_opcodeCheckSigVerify : transparent (opcodeCheckSigVerify e).
Proof. unfold opcodeCheckSigVerify. transparent. Qed.
#[local] Hint Resolve t_opcodeCheckSigVerify : transparent.

Lemma t_opcodeCheckSigAdd : transparent (opcodeCheckSigAdd e).
Proof.
  unfold opcodeCheckSigAdd. transparent. apply t_tapscriptSig; [transparent|]. intros m. apply t_finishCheckSigAdd.
Qed.
#[local] Hint Resolve t_opcodeCheckSigAdd : transparent.

Lemma t_popMany n : transparent (popMany n).
Proof. induction n; cbn [popMany]; transparent. Qed.
#[local] Hint Resolve t_popMany : transparent.

Lemma t_removeSigs sigs script : transparent (removeSigs e sigs script).
Proof. revert script. induction sigs; intros script; cbn [removeSigs]; transparent. Qed.
#[local] Hint Resolve t_removeSigs : transparent.

Lemma t_multiSigHash script hashType : transparent (multiSigHash e script hashType).
Proof. unfold multiSigHash. transparent. Qed.
#[local] Hint Resolve t_multiSigHash : transparent.

(** What is known of a signature is how it parses. *)
Definition parsedReady (rawSig : list Z) (parsed : parsedSigInfo) : Prop :=
  forall sig, parsed = Some (Some sig) -> ParseSignature (sigBytesOf rawSig) = Ok sig.

(** What the value of an operation that succeeds satisfies. *)
Definition returns {A} (m : engineM A) (P : A -> Prop) : Prop := forall vm a vm', m vm = (Ok a, vm') -> P a.

Lemma t_bind_returns {A B} (m : engineM A) (k : A -> engineM B) (P : A -> Prop) :
  transparent m -> returns m P -> (forall a, P a -> transparent (k a)) -> transparent (m ≫= k).
Proof.
  intros Hm Hr Hk vm c Hs Hc. destruct (Hm vm c Hs Hc) as (Hs' & c' & Hc' & He).
  unfold mbind, engineM_bind. rewrite He. destruct (m vm) as [[a|err] vm'] eqn:E; cbn [fst snd] in *.
  - apply Hk; [exact (Hr _ _ _ E)|done|done].
  - split; [exact Hs'|]. by exists c'.
Qed.

Lemma returns_ret {A} (a : A) P : P a -> returns (mret a) P.
Proof. by intros Ha vm a' vm' [= <- _]. Qed.

Lemma returns_bind {A B} (m : engineM A) (k : A -> engineM B) P Q :
  returns m P -> (forall a, P a -> returns (k a) Q) -> returns (m ≫= k) Q.
Proof.
  intros Hm Hk vm b vm'. unfold mbind, engineM_bind. destruct (m vm) as [[a|err] vm1] eqn:E; [|discriminate].
  apply Hk. exact (Hm _ _ _ E).
Qed.

Lemma returns_any {A} (m : engineM A) : returns m (fun _ => True).
Proof. done. Qed.

Definition parsesTo (rawSig : list Z) (o : option (ModNScalar * ModNScalar)) : Prop :=
  forall sig, o = Some sig -> ParseSignature (sigBytesOf rawSig) = Ok sig.

Lemma returns_parseSigInfo rawSig parsed :
  parsedReady rawSig parsed -> returns (parseSigInfo e rawSig parsed) (parsesTo rawSig).
Proof.
  intros Hp. unfold parseSigInfo. destruct parsed as [o|].
  - apply returns_ret. intros sig ->. by apply Hp.
  - do 2 (eapply returns_bind; [apply returns_any|intros _ _]). apply returns_ret. intros sig Hs.
    destruct (parseECDSA e _) eqn:E; [|discriminate]. injection Hs as ->. exact (parseECDSA_lax _ _ E).
Qed.

Lemma returns_multiSigKey script rawSig parsed pk :
  parsedReady rawSig parsed -> returns (multiSigKey e script rawSig parsed pk) (fun r => parsedReady rawSig r.1).
Proof.
  intros Hp. unfold multiSigKey. destruct (_ =? 0); [by apply returns_ret|].
  eapply returns_bind; [by apply returns_parseSigInfo|]. intros [sig|] Ho; [|by apply returns_ret].
  assert (Hready : parsedReady rawSig (Some (Some sig))) by (intros ? [= <-]; by apply Ho).
  do 2 (eapply returns_bind; [apply returns_any|intros ? _]).
  destruct (ParsePubKey pk); [|by apply returns_ret].
  do 2 (eapply returns_bind; [apply returns_any|intros ? _]). by apply returns_ret.
Qed.

Lemma t_multiSigKey script rawSig parsed pk :
  parsedReady rawSig parsed -> transparent (multiSigKey e script rawSig parsed pk).
Proof.
  intros Hp. unfold multiSigKey. destruct (_ =? 0); [transparent|].
  eapply t_bind_returns; [unfold parseSigInfo; transparent|by apply returns_parseSigInfo|].
  intros [sig|] Ho; [|transparent]. apply t_getVM; [reflexivity|intros vm]. transparent_step; [transparent|].
  destruct (ParsePubKey pk) as [key|] eqn:Ek; [|transparent]. transparent. apply t_ecdsa; [done|by apply Ho].
Qed.

Lemma t_multiSigLoop script sigs parsed pks :
  (forall rawSig rest, sigs = rawSig :: rest -> parsedReady rawSig parsed) ->
  transparent (multiSigLoop e script sigs parsed pks).
Proof.
  revert sigs parsed. induction pks as [|pk pks IH]; intros sigs parsed Hp; cbn [multiSigLoop];
    destruct sigs as [|rawSig sigs]; [apply t_ret..|].
  destruct (_ <? _)%nat; [apply t_ret|]. assert (Hr : parsedReady rawSig parsed) by (by eapply Hp).
  eapply t_bind_returns; [by apply t_multiSigKey|by apply returns_multiSigKey|]. intros [p b] Hp'.
  destruct b; apply IH; [by intros ?? _ ?|]. by intros ?? [= <- <-].
Qed.

Lemma t_opcodeCheckMultiSig : transparent (opcodeCheckMultiSig e).
Proof.
  unfold opcodeCheckMultiSig, popCount. transparent; apply t_multiSigLoop; by intros ?? _ ?.
Qed.
#[local] Hint Resolve t_opcodeCheckMultiSig : transparent.

Lemma t_opfunc op data : transparent (opfunc e op data).
Proof. unfold opfunc. transparent. Qed.
#[local] Hint Resolve t_opfunc : transparent.

(** ** Steps *)

Lemma t_executeOpcode op data : transparent (executeOpcode e op data).
Proof. unfold executeOpcode. transparent. Qed.
#[local] Hint Resolve t_executeOpcode : transparent.

Lemma t_verifyWitnessV0 program witness : transparent (verifyWitnessV0 program witness).
Proof. unfold verifyWitnessV0, parses, appendScript, SetStack. transparent. Qed.
#[local] Hint Resolve t_verifyWitnessV0 : transparent.

Lemma t_verifyTaprootKeySpend program sig : transparent (verifyTaprootKeySpend e program sig).
Proof.
  unfold verifyTaprootKeySpend. apply t_liftBind. intros t Ht. apply t_bind.
  - apply t_taprootVerify. exact (newTaprootSigVerifier_ready _ _ _ _ _ Ht).
  - intros [[] ?]; transparent.
Qed.
#[local] Hint Resolve t_verifyTaprootKeySpend : transparent.

Lemma t_verifyWitnessV1 program witness : transparent (verifyWitnessV1 e program witness).
Proof.
  unfold verifyWitnessV1, verifyKeyPath, verifyScriptPath, succeedNow, modifyCtx, parses, appendScript, SetStack.
  cbv zeta. transparent.
Qed.
#[local] Hint Resolve t_verifyWitnessV1 : transparent.

Lemma t_verifyWitnessProgram witness : transparent (verifyWitnessProgram e witness).
Proof. unfold verifyWitnessProgram, checkWitnessStack. transparent. Qed.
#[local] Hint Resolve t_verifyWitnessProgram : transparent.

Lemma t_CheckErrorCondition final : transparent (CheckErrorCondition e final).
Proof. unfold CheckErrorCondition. transparent. Qed.
#[local] Hint Resolve t_CheckErrorCondition : transparent.

Lemma t_advanceScript : transparent (advanceScript e).
Proof. unfold advanceScript, enterRedeemScript, bumpScriptIdx, parses, appendScript, SetStack. transparent. Qed.
#[local] Hint Resolve t_advanceScript : transparent.

Lemma t_endScript : transparent (endScript e).
Proof.
  unfold endScript. transparent. apply t_modify; intros vm'; [intros c|].
  - change (currentScript (setSigCache c vm')) with (currentScript vm'). cbn [scripts scriptIdx setSigCache].
    by destruct (_ && _).
  - by destruct (_ && _).
Qed.
#[local] Hint Resolve t_endScript : transparent.

Lemma t_nextToken : transparent nextToken.
Proof.
  intros vm c Hs Hc. unfold nextToken. change (tokenizer (setSigCache c vm)) with (tokenizer vm).
  destruct (Next (tokenizer vm)). split; [exact Hs|]. by exists c.
Qed.
#[local] Hint Resolve t_nextToken : transparent.

Lemma t_Step : transparent (Step e).
Proof. unfold Step. transparent. Qed.

Lemma t_execLoop n vm c :
  cacheSound (sigCache vm) -> cacheSound c ->
  fst <$> execLoop e n (setSigCache c vm) = fst <$> execLoop e n vm /\
  forall r vm', execLoop e n vm = Some (r, vm') -> cacheSound (sigCache vm').
Proof.
  revert vm c. induction n as [|n IH]; intros vm c Hs Hc; [done|]. cbn [execLoop].
  destruct (t_Step vm c Hs Hc) as (Hs' & c' & Hc' & He). rewrite He.
  destruct (Step e vm) as [[[]|err] vm']; cbn [fst snd] in *.
  - destruct (t_CheckErrorCondition true vm' c' Hs' Hc') as (H1 & c2 & H2 & H3). rewrite H3.
    destruct (CheckErrorCondition e true vm') as [r vm'']. split; [done|]. by intros ?? [= <- <-].
  - by apply IH.
  - split; [done|]. by intros ?? [= <- <-].
Qed.

End opcodes.

(** ** The cache is transparent *)

Lemma NewEngine_sigCache pk tx idx fl sc sc' hc amt fetch :
  NewEngine pk tx idx fl sc hc amt fetch =
  match NewEngine pk tx idx fl sc' hc amt fetch with
  | Ok (e, vm) => Ok (e, setSigCache sc vm)
  | Err err => Err err
  end.
Proof.
  unfold NewEngine. destruct (_ || _); [done|]. destruct (_ !! _) as [ti|]; [|done]. cbv zeta.
  repeat match goal with |- (if ?c then _ else _) = _ => destruct c; [done|] end.
  destruct (checkScripts _) as [[]|]; [|done]. result_simpl.
  match goal with |- ?x ≫= _ = _ => destruct x as [info|]; [|done] end. done.
Qed.

Lemma NewEngine_cache pk tx idx fl sc hc amt fetch e vm :
  NewEngine pk tx idx fl sc hc amt fetch = Ok (e, vm) -> sigCache vm = sc.
Proof.
  rewrite (NewEngine_sigCache _ _ _ _ sc None). destruct (NewEngine _ _ _ _ _ _ _ _) as [[e' vm']|]; [|done].
  by intros [= _ <-].
Qed.

Section transparent.
Context `{Curve : Secp256k1} {Laws : Secp256k1Laws Curve} `{Hash160 : Ripemd160} `{Picks : MapPick}.

Lemma runScripts_cached pk tx idx fl sc hc amt fetch :
  cacheSound sc -> runScripts pk tx idx fl sc hc amt fetch = runScripts pk tx idx fl None hc amt fetch.
Proof using Laws.
  intros Hs. unfold runScripts. rewrite (NewEngine_sigCache _ _ _ _ sc None).
  destruct (NewEngine _ _ _ _ None _ _ _) as [[e vm]|err] eqn:E; [|done].
  assert (Hn : cacheSound (sigCache vm)) by (by rewrite (NewEngine_cache _ _ _ _ _ _ _ _ _ _ E)).
  exact (proj1 (t_execLoop e (S (executeFuel e vm)) vm sc Hn Hs)).
Qed.

Lemma Execute_cacheSound pk tx idx fl sc hc amt fetch e vm r vm' :
  cacheSound sc -> NewEngine pk tx idx fl sc hc amt fetch = Ok (e, vm) -> Execute e vm = Some (r, vm') ->
  cacheSound (sigCache vm').
Proof using Laws.
  intros Hs E Hr. assert (Hn : cacheSound (sigCache vm)) by (by rewrite (NewEngine_cache _ _ _ _ _ _ _ _ _ _ E)).
  exact (proj2 (t_execLoop e _ vm (sigCache vm) Hn Hn) r vm' Hr).
Qed.
End transparent.

(** C8: The signature cache does not change what is accepted: with a cache
    whose entries are all valid signatures, the engine returns exactly what it
    returns without a cache, for every input, output script and flags, and the
    cache it leaves has only valid signatures. *)
Theorem sigcache_transparent `{Curve : Secp256k1} {Laws : Secp256k1Laws Curve} `{Hash160 : Ripemd160} `{Picks : MapPick}
    pk tx idx fl sc hc amt fetch :
  cacheSound sc ->
  runScripts pk tx idx fl sc hc amt fetch = runScripts pk tx idx fl None hc amt fetch /\
  forall e vm r vm', NewEngine pk tx idx fl sc hc amt fetch = Ok (e, vm) -> Execute e vm = Some (r, vm') ->
    cacheSound (sigCache vm').
Proof.
  intros Hs. split; [by apply runScripts_cached|]. intros e vm r vm'.
  exact (Execute_cacheSound pk tx idx fl sc hc amt fetch e vm r vm' Hs).
Qed.

#[local] Existing Instances truncatedHash noPicks.

(** The empty cache a node starts with. *)
Lemma sigcache_transparent_witness :
  runScripts (Curve := secp256k1) [0x51] (spendingTx [0x51] []) 0 0 (Some (mkSigCache ∅ 1000)) None 0 (fun _ => None)
  = runScripts (Curve := secp256k1) [0x51] (spendingTx [0x51] []) 0 0 None None 0 (fun _ => None).
Proof. apply sigcache_transparent. apply map_Forall_empty. Defined.
