(* ===== verification/EngineRun.v ===== *)
(** * The script engine: running standard inputs

    What validating an input comes to for the standard outputs whose scripts are
    fixed: the engine's whole run is equated with the check it stands for. *)

From S2P Require Import Prelude ChainParams Sha256 Sha1 Wire Commitment Script ScriptNum Standard SigHash Signature Taproot Engine Opcodes EngineExec EngineSpec EngineInv.

(** The flags every block is validated with once the deployments are active. *)
Definition consensusFlags : Z := Eval vm_compute in Z.lor ScriptBip16 (Z.lor ScriptVerifyWitness (Z.lor ScriptVerifyTaproot (Z.lor ScriptVerifyDERSignatures (Z.lor ScriptVerifyCheckLockTimeVerify (Z.lor ScriptVerifyCheckSequenceVerify (Z.lor ScriptStrictMultiSig ScriptVerifyOBTCReplayProtection)))))).

(** ** Running an engine step by step *)

Section running.
Context `{Curve : Secp256k1} `{Hash160 : Ripemd160} {Hash160Laws : Ripemd160Laws Hash160} `{Picks : MapPick}.
Lemma execLoop_S e n vm : execLoop e (S n) vm = match Step e vm with
      | (Err err, vm') => Some (Err err, vm')
      | (Ok true, vm') => Some (CheckErrorCondition e true vm')
      | (Ok false, vm') => execLoop e n vm'
      end.
Proof. reflexivity. Qed.

Lemma execLoop_more e n m vm r : execLoop e n vm = Some r -> (n <= m)%nat -> execLoop e m vm = Some r.
Proof.
  revert m vm; induction n as [|n IH]; intros [|m] vm Hr Hm; [discriminate|discriminate|lia|].
  rewrite execLoop_S in *. destruct (Step e vm) as [[[]|err] vm']; [done| |done]. apply IH; [done|lia].
Qed.

Lemma Execute_short e n vm r : execLoop e n vm = Some r -> (n <= 500)%nat -> Execute e vm = Some r.
Proof. intros Hr Hn. apply (execLoop_more _ _ _ _ _ Hr). unfold executeFuel. lia. Qed.

(** [Step] after the opcode has been executed. *)
Definition afterOpcode (e : EngineParams) : engineM bool :=
  vm ← getVM;
  _ ← failIf (MaxStackSize <? i32 (Depth (dstack vm) + Depth (astack vm))) ErrStackOverflow;
  _ ← modifyVM (fun vm => setOpcodeIdx (opcodeIdx vm + 1) vm);
  if Done (tokenizer vm) then endScript e else mret false.

Lemma Step_opcode e vm t :
  (zlen (scripts vm) <=? scriptIdx vm) = false -> Next (tokenizer vm) = (true, t) ->
  Step e vm =
  match executeOpcode e (Opcode t) (default [] (tk_data t)) (setTokenizer t vm) with
  | (Ok _, vm') => afterOpcode e vm'
  | (Err err, vm') => (Err err, vm')
  end.
Proof.
  intros Hi Ht. unfold Step, nextToken, mbind, engineM_bind, getVM. rewrite Hi. cbn [failIf]. unfold mret, engineM_ret. rewrite Ht. reflexivity.
Qed.

Lemma bytesEqual_refl b : bytesEqual b b = true.
Proof. apply bool_decide_eq_true. reflexivity. Qed.

End running.

(** One opcode, up to what it decides; what follows it in [Step]; the end of a
    script. *)
Ltac eval_opcode :=
  match goal with |- context [executeOpcode ?e ?op ?data ?vm] =>
    let r := eval lazy -[Sha256.sum256 ripemd160 bytesEqual TxIns abstractVerify opcodeCheckSig] in (executeOpcode e op data vm) in
    change (executeOpcode e op data vm) with r end; cbv iota beta.

Ltac eval_after :=
  match goal with |- context [afterOpcode ?e ?vm] =>
    let r := eval lazy -[endScript Sha256.sum256 ripemd160 bytesEqual] in (afterOpcode e vm) in change (afterOpcode e vm) with r end; cbv iota beta.

Ltac exec_opcode :=
  rewrite execLoop_S; erewrite Step_opcode by (lazy; reflexivity); eval_opcode.

Ltac exec_step := exec_opcode; eval_after.

Ltac end_step :=
  match goal with |- context [endScript ?e ?vm] =>
    let r := eval lazy -[TxIns inputWitness] in (endScript e vm) in change (endScript e vm) with r end; cbv iota beta.

Ltac start_engine Hti Hsig Hwit :=
  unfold runScripts, NewEngine; rewrite Hti, Hsig; try rewrite Hwit;
  match goal with Hi : 0 <= ?i < zlen ?l |- _ =>
    destruct (Z.ltb_spec i 0); [lia|]; destruct (Z.leb_spec (zlen l) i); [lia|];
    generalize dependent (Z.to_nat i); intros n Hti end;
  match goal with |- context [checkScripts ?x] => change (checkScripts x) with (Ok tt : result engine_error unit) end;
  set (fw := findWitnessProgram _ _ _ _); lazy in fw; subst fw;
  match goal with |- match ?x with _ => _ end = _ => let r := eval lazy in x in change x with r end;
  cbv beta iota.


(** ** Pay-to-witness-pubkey-hash *)

Section keyhash.
Context `{Curve : Secp256k1} `{Hash160 : Ripemd160} {Hash160Laws : Ripemd160Laws Hash160} `{Picks : MapPick}.

(** The script a key hash stands for. *)
Definition keyHashScript (h : list Z) : list Z := [OP_DUP; OP_HASH160; 20] ++ h ++ [OP_EQUALVERIFY; OP_CHECKSIG].

Lemma verifyWitnessV0_keyhash h witness vm :
  zlen h = 20 ->
  verifyWitnessV0 h witness vm =
    if zlen witness =? 2
    then (Ok tt, setDstack (setStk (dstack vm) witness) (setScripts (scripts vm ++ [keyHashScript h]) vm))
    else (Err (ScriptErr ErrWitnessProgramMismatch), vm).
Proof.
  intros Hh. unfold verifyWitnessV0. rewrite Hh. cbn [Z.eqb Pos.eqb].
  destruct (zlen witness =? 2); [|reflexivity]. explode 20 h. 
  unfold mbind, engineM_bind. cbn [negb failIf]. unfold mret, engineM_ret.
  match goal with |- context [payToPubKeyHashScript ?h] =>
    let r := eval lazy in (payToPubKeyHashScript h) in change (payToPubKeyHashScript h) with r end.
  cbv iota beta. unfold liftE, parses. cbv iota beta. 
  match goal with |- context [checkScriptParses ?h] =>
    let r := eval lazy in (checkScriptParses h) in change (checkScriptParses h) with r end.
  reflexivity.
Qed.

Lemma checkWitnessStack_v0 e vm :
  witnessVersion e = 0 -> isSome (witnessProgram vm) = true ->
  checkWitnessStack e vm =
    if existsb (fun x => MaxScriptElementSize <? zlen x) (stk (dstack vm))
    then (Err (ScriptErr ErrElementTooBig), vm) else (Ok tt, vm).
Proof.
  intros Hv Hp. unfold checkWitnessStack, isWitnessVersionActive, mbind, engineM_bind, getVM. rewrite Hv, Hp.
  cbn [Z.eqb andb orb failIf]. unfold mret, engineM_ret, failIf, GetStack. by destruct (existsb _ _).
Qed.

(** The end of the output script of a native witness program. *)
Definition nextScript : engineM bool :=
  _ ← modifyVM (fun vm => if (scriptIdx vm <? zlen (scripts vm)) && (zlen (currentScript vm) =? 0)
                          then setScriptIdx (scriptIdx vm + 1) vm else vm);
  _ ← modifyVM (setLastCodeSep 0);
  vm ← getVM;
  if zlen (scripts vm) <=? scriptIdx vm then mret true
  else
    _ ← modifyVM (setTokenizer (MakeScriptTokenizer 0 (currentScript vm)));
    mret false.

Lemma endScript_native e vm :
  bip16 e = false -> scriptIdx vm = 1 -> isSome (witnessProgram vm) = true -> condStack vm = [] ->
  endScript e vm =
  match verifyWitnessProgram e (inputWitness e)
          (setScriptIdx 2 (setAstack (setStk (astack vm) []) (setNumOps 0 (setOpcodeIdx 0 vm)))) with
  | (Ok _, vm') => nextScript vm'
  | (Err err, vm') => (Err err, vm')
  end.
Proof.
  destruct vm as [? si ? ? ? ? ? ? cs ? wp ? ?]. cbn [scriptIdx witnessProgram condStack]. intros Hb -> Hp ->.
  destruct wp as [p|]; [|discriminate].
  unfold endScript, advanceScript, bumpScriptIdx, nextScript, mbind, engineM_bind, getVM, modifyVM.
  cbn -[verifyWitnessProgram inputWitness currentScript]. rewrite Hb. reflexivity.
Qed.

Lemma verifyWitnessProgram_keyhash e vm h witness :
  witnessVersion e = 0 -> witnessProgram vm = Some h -> zlen h = 20 ->
  verifyWitnessProgram e witness vm =
    if zlen witness =? 2 then
      let vm' := setDstack (setStk (dstack vm) witness) (setScripts (scripts vm ++ [keyHashScript h]) vm) in
      if existsb (fun x => MaxScriptElementSize <? zlen x) witness
      then (Err (ScriptErr ErrElementTooBig), vm') else (Ok tt, vm')
    else (Err (ScriptErr ErrWitnessProgramMismatch), vm).
Proof.
  intros Hv Hp Hh. unfold verifyWitnessProgram, isWitnessVersionActive, mbind, engineM_bind, getVM.
  rewrite Hv, Hp. cbn [isSome andb Z.eqb default]. rewrite verifyWitnessV0_keyhash by done.
  destruct (zlen witness =? 2); [|reflexivity]. rewrite checkWitnessStack_v0; [reflexivity|done|cbn; by rewrite Hp].
Qed.

(** What OP_CHECKSIG decides in a version 0 script, under the consensus flags. *)
Definition parseBase (e : EngineParams) (pk sig : list Z) : result engine_error (PublicKey * (ModNScalar * ModNScalar)) :=
  _ ← checked (checkHashTypeEncoding e (hashTypeOf sig));
  _ ← checked (checkSignatureEncoding e (sigBytesOf sig));
  pubKey ← btcecParsePubKey pk;
  rs ← parseECDSA e (sigBytesOf sig);
  Ok (pubKey, rs).

Definition segwitHash (e : EngineParams) (script sig : list Z) : result engine_error (list Z) :=
  sigHashes ← sigHashesOf e;
  calcWitnessSignatureHashRawWithReplayProtection script sigHashes (hashTypeOf sig) (vm_tx e) (txIdx e)
    (inputAmount e) (hasFlag e ScriptVerifyOBTCReplayProtection).

Definition segwitCheck (e : EngineParams) (script pk sig : list Z) : result engine_error bool :=
  match parseBase e pk sig with
  | Ok (pubKey, rs) =>
      match sigHashesOf e with
      | Err err => Err err
      | Ok _ =>
          match segwitHash e script sig with
          | Ok hash => Ok (ecdsaSigVerify rs hash pubKey)
          | Err (EnginePanic s) => Err (EnginePanic s)
          | Err _ => Ok false
          end
      end
  | Err (PlainErr _) => Ok false
  | Err err => Err err
  end.

Lemma newBaseSigVerifier_consensus e vm pk sig :
  flags e = consensusFlags -> zlen sig <> 0 ->
  newBaseSigVerifier e vm pk sig =
  match parseBase e pk sig with
  | Ok (pubKey, rs) => Ok (mkBaseSigVerifier pubKey rs sig pk (subScript vm) (hashTypeOf sig))
  | Err err => Err err
  end.
Proof.
  intros Hf Hs. unfold newBaseSigVerifier, parseBaseSigAndPubkey, parseBase.
  destruct (Z.eqb_spec (zlen sig) 0); [done|]. result_simpl.
  destruct (checked (checkHashTypeEncoding _ _)); [|done]. result_simpl.
  destruct (checked (checkSignatureEncoding _ _)); [|done]. result_simpl.
  unfold checkPubKeyEncoding, hasFlag. rewrite Hf. cbn [consensusFlags Z.land Z.eqb Pos.land Pos.eqb andb negb checked N.double Z.of_N]. result_simpl.
  destruct (btcecParsePubKey pk); [|done]. result_simpl. by destruct (parseECDSA e _).
Qed.

Lemma opcodeCheckSig_segwit e vm s sig pk :
  stk (dstack vm) = s ++ [sig; pk] -> zlen (stk (dstack vm)) < 2^31 ->
  taprootCtx vm = None -> isSome (witnessProgram vm) = true ->
  witnessVersion e = 0 -> sigCache vm = None -> flags e = consensusFlags -> zlen sig <> 0 ->
  exists vm', opcodeCheckSig e vm =
    match segwitCheck e (subScript vm) pk sig with
    | Ok b => (Ok tt, setDstack (setStk (dstack vm) (s ++ [fromBool b])) vm)
    | Err err => (Err err, vm')
    end.
Proof.
  intros Hstk Hlen Ht Hp Hv Hc Hf Hs. unfold opcodeCheckSig, mbind, engineM_bind, onDstack.
  rewrite (PopByteArray_app _ (s ++ [sig]) pk) by (done || by rewrite Hstk, <- app_assoc).
  cbn [setDstack dstack]. rewrite (PopByteArray_app _ s sig); [|done|].
  2: { cbn [stk setStk]. rewrite Hstk in Hlen. unfold zlen in *. rewrite !length_app in *. cbn [length] in *. lia. }
  unfold getVM. cbn [taprootCtx witnessProgram setDstack]. rewrite Ht, Hp.
  unfold isWitnessVersionActive. cbn [isSome negb andb witnessProgram setDstack]. rewrite Hp, Hv.
  destruct (Z.ltb_spec (zlen sig) 1) as [|_]; [pose proof (zlen_nonneg sig); lia|]. cbn [andb Z.eqb negb].
  unfold checkSigBase, mbind, engineM_bind, getVM. rewrite newBaseSigVerifier_consensus by done.
  set (vm2 := setDstack _ (setDstack _ vm)). change (subScript vm2) with (subScript vm). unfold segwitCheck.
  destruct (parseBase e pk sig) as [[key rs]|err]; [|exists vm2; by destruct err].
  unfold finishCheckSig, segwitVerify, segwitHash, mbind, engineM_bind, liftE. cbn [bv_subScript bv_hashType].
  destruct (sigHashesOf e) as [sh|err]; [|by exists vm2]. cbn [result_bind].
  unfold orInvalid, validOnly, baseVerifySig, cachedVerify, mbind, engineM_bind.
  assert (Hn : sigCache vm2 = None) by exact Hc. assert (Hn' : taprootCtx vm2 = None) by exact Ht.
  assert (Hd : forall b, hasFlag e ScriptVerifyConstScriptCode && b = false) by (intros b; unfold hasFlag; by rewrite Hf).
  assert (Hnf : hasFlag e ScriptVerifyNullFail = false) by (unfold hasFlag; by rewrite Hf).
  assert (Hend : forall b, (onDstack (PushBool b)) vm2 = (Ok tt, setDstack (setStk (dstack vm) (s ++ [fromBool b])) vm)).
  { intros b. reflexivity. }
  destruct (calcWitnessSignatureHashRawWithReplayProtection _ _ _ _ _ _ _) as [hash|[| |]];
    [exists vm2|exists vm2|exists vm2|by exists vm2].
  all: rewrite ?Hn; unfold mret, engineM_ret, getVM; cbn [fst snd]; rewrite Hd, Hn', Hnf; cbn [isSome andb negb orb];
    rewrite ?andb_false_r; cbn [failIf orb andb]; unfold mret, engineM_ret; by rewrite Hend.
Qed.

(** What validating the input comes to. *)
Definition keyHashResult (e : EngineParams) (h : list Z) (witness : list (list Z)) : result engine_error unit :=
  match witness with
  | [sig; pk] =>
      if existsb (fun x => MaxScriptElementSize <? zlen x) [sig; pk] then Err (ScriptErr ErrElementTooBig)
      else if negb (bytesEqual h (ripemd160 (Sha256.sum256 pk))) then Err (ScriptErr ErrEqualVerify)
      else if zlen sig =? 0 then Err (ScriptErr ErrEvalFalse)
      else match segwitCheck e (keyHashScript h) pk sig with
           | Ok true => Ok tt
           | Ok false => Err (ScriptErr ErrEvalFalse)
           | Err err => Err err
           end
  | _ => Err (ScriptErr ErrWitnessProgramMismatch)
  end.

Lemma p2wpkh_result h tx idx ti hc amt fetch :
  zlen h = 20 -> 0 <= idx < zlen (TxIns tx) -> TxIns tx !! Z.to_nat idx = Some ti -> SignatureScript ti = [] ->
  runScripts ([OP_0; 20] ++ h) tx idx consensusFlags None hc amt fetch
  = Some (keyHashResult (mkEngineParams consensusFlags tx (Z.to_nat idx) false hc fetch amt 0) h (Witness ti)).
Proof.
  intros Hh Hidx Hti Hsig. pose proof Hh as Hh'. explode 20 h.
  start_engine Hti Hsig (eq_refl (Witness ti)).
  match goal with |- fst <$> Execute ?e ?vm = Some ?r =>
    enough (exists vm', execLoop e 12 vm = Some (r, vm')) as [vm' Hrun];
    [rewrite (Execute_short _ _ _ _ Hrun) by lia; reflexivity|] end. 
  do 2 exec_step. rewrite endScript_native by reflexivity. erewrite verifyWitnessProgram_keyhash by reflexivity.
  match goal with |- context [inputWitness ?e] =>
    replace (inputWitness e) with (Witness ti) by (unfold inputWitness; cbn [vm_tx txIdx]; by rewrite Hti) end.
  destruct (Z.eqb_spec (zlen (Witness ti)) 2) as [H2|H2].
  2: { eexists. destruct (Witness ti) as [|a [|b [|c w]]]; try reflexivity. done. }
  destruct (Witness ti) as [|sig [|pk [|c w]]]; try discriminate; [|unfold zlen in H2; cbn [length] in H2; lia].
  unfold keyHashResult. cbv zeta. destruct (existsb _ _) eqn:Ebig; [by eexists|]. cbv iota beta.
  match goal with |- context [nextScript ?vm] =>
    let r := eval lazy in (nextScript vm) in change (nextScript vm) with r end; cbv iota beta.
  do 3 exec_step. exec_opcode.
  destruct (bytesEqual _ _) eqn:Eh.
  2: { eexists. lazy. reflexivity. }
  match goal with |- context [abstractVerify ?c ?vm] =>
    let r := eval lazy in (abstractVerify c vm) in change (abstractVerify c vm) with r end; cbv iota beta.
  eval_after. exec_opcode. cbn [negb]. destruct (Z.eqb_spec (zlen sig) 0) as [Hz|Hz].
  { destruct sig as [|b sig]; [|rewrite zlen_cons in Hz; pose proof (zlen_nonneg sig); lia].
    eexists. lazy. reflexivity. }
  match goal with |- context [opcodeCheckSig ?e ?vm] =>
    edestruct (opcodeCheckSig_segwit e vm [] sig pk) as [vm' Hop];
    [reflexivity|reflexivity|reflexivity|reflexivity|reflexivity|reflexivity|reflexivity|exact Hz|rewrite Hop];
    change (subScript vm) with (keyHashScript [z; z0; z1; z2; z3; z4; z5; z6; z7; z8; z9; z10; z11; z12; z13; z14; z15; z16; z17; z18])
  end. clear Hop.
  match goal with |- context [segwitCheck (mkEngineParams consensusFlags ?a ?b ?c ?d ?f ?g ?h) ?s ?k ?q] =>
    change (segwitCheck (mkEngineParams consensusFlags a b c d f g h) s k q)
      with (segwitCheck (mkEngineParams 2166875 a b c d f g h) s k q) end.
  destruct (segwitCheck _ _ _ _) as [[]|err]; [eexists; lazy; reflexivity..|by eexists].
Qed.

(** A hash type the consensus rules allow. *)
Definition consensusHashType (hashType : Z) : Prop :=
  isOBTCReplayProtectedSigHashType hashType = true /\
  SigHashAll <= Z.ldiff hashType (Z.lor SigHashAnyOneCanPay SigHashOBTCReplayProtection) <= SigHashSingle.

Lemma checkHashTypeEncoding_consensus e hashType :
  flags e = consensusFlags -> checkHashTypeEncoding e hashType = None <-> consensusHashType hashType.
Proof.
  intros Hf. unfold checkHashTypeEncoding, hasFlag, consensusHashType. rewrite Hf.
  change (Z.land consensusFlags ScriptVerifyOBTCReplayProtection =? ScriptVerifyOBTCReplayProtection) with true.
  destruct (isOBTCReplayProtectedSigHashType hashType); cbn [negb]; [|by split; [|intros []]]. cbv zeta.
  destruct (Z.ltb_spec (Z.ldiff hashType (Z.lor SigHashAnyOneCanPay SigHashOBTCReplayProtection)) SigHashAll); cbn [orb].
  { split; [discriminate|]. lia. }
  destruct (Z.ltb_spec SigHashSingle (Z.ldiff hashType (Z.lor SigHashAnyOneCanPay SigHashOBTCReplayProtection))); [|done].
  split; [discriminate|]. lia.
Qed.

Lemma segwitCheck_true e sigHashes script pk sig :
  flags e = consensusFlags -> sigHashesOf e = Ok sigHashes ->
  segwitCheck e script pk sig = Ok true <->
  exists key rs hash, ParsePubKey pk = Some key /\ consensusHashType (hashTypeOf sig) /\
    checkSignatureFormat (sigBytesOf sig) false = None /\ ParseDERSignature (sigBytesOf sig) = Ok rs /\
    calcWitnessSignatureHashRawWithReplayProtection script sigHashes (hashTypeOf sig) (vm_tx e) (txIdx e) (inputAmount e) true
      = Ok hash /\ ecdsaSigVerify rs hash key = true.
Proof.
  intros Hf Hc. setoid_rewrite <- (checkHashTypeEncoding_consensus e); [|exact Hf].
  unfold segwitCheck, parseBase, segwitHash. rewrite Hc. result_simpl.
  assert (Hr : hasFlag e ScriptVerifyOBTCReplayProtection = true) by (unfold hasFlag; by rewrite Hf).
  assert (Hd : checkSignatureEncoding e (sigBytesOf sig) = checkSignatureFormat (sigBytesOf sig) false)
    by (unfold checkSignatureEncoding, hasFlag; by rewrite Hf).
  assert (Hp : parseECDSA e (sigBytesOf sig) = ParseDERSignature (sigBytesOf sig))
    by (unfold parseECDSA, hasFlag; by rewrite Hf).
  rewrite Hd, Hp, Hr. clear Hd Hp Hr. unfold btcecParsePubKey.
  destruct (checkHashTypeEncoding _ _); cbn [checked]; result_simpl; [by split; [|naive_solver]|].
  destruct (checkSignatureFormat _ _); cbn [checked]; result_simpl; [by split; [|naive_solver]|].
  destruct (ParsePubKey pk) as [key|]; result_simpl; [|by split; [|naive_solver]].
  destruct (ParseDERSignature _) as [rs|err]; result_simpl; [|split; [by destruct err|naive_solver]].
  destruct (calcWitnessSignatureHashRawWithReplayProtection _ _ _ _ _ _ _) as [hash|[]];
    [|by split; [|naive_solver]..].
  split; [intros [= Hv]; by exists key, rs, hash|]. intros (?&?&?&?&?&?&?&?&?). congruence.
Qed.

(** With a signature script nothing is accepted. *)
Lemma p2wpkh_sigScript h tx idx ti hc amt fetch :
  zlen h = 20 -> 0 <= idx < zlen (TxIns tx) -> TxIns tx !! Z.to_nat idx = Some ti ->
  runScripts ([OP_0; 20] ++ h) tx idx consensusFlags None hc amt fetch = Some (Ok tt) -> SignatureScript ti = [].
Proof.
  intros Hh Hidx Hti H. destruct (SignatureScript ti) as [|b sig] eqn:E; [done|]. exfalso. revert H. unfold runScripts, NewEngine.
  rewrite Hti, E, (proj2 (Z.ltb_ge idx 0)), (proj2 (Z.leb_gt (zlen (TxIns tx)) idx)) by lia. cbn [orb].
  replace (zlen (b :: sig) =? 0) with false by (rewrite zlen_cons; pose proof (zlen_nonneg sig); symmetry; apply Z.eqb_neq; lia).
  cbn [andb]. explode 20 h.
  change (Z.land consensusFlags ScriptVerifyCleanStack =? ScriptVerifyCleanStack) with false. cbn [andb].
  change (Z.land consensusFlags ScriptVerifySigPushOnly =? ScriptVerifySigPushOnly) with false. cbn [andb].
  match goal with |- context [isScriptHashScript ?pk] => change (isScriptHashScript pk) with false end. rewrite !andb_false_r. cbn [andb].
  destruct (checkScripts _) as [[]|err]; result_simpl; [|discriminate].
  change (Z.land consensusFlags ScriptVerifyWitness =? ScriptVerifyWitness) with true.
  change (Z.land consensusFlags ScriptBip16 =? ScriptBip16) with true. cbv iota. cbn [negb].
  unfold findWitnessProgram. match goal with |- context [IsWitnessProgram ?pk] => change (IsWitnessProgram pk) with true end.
  cbn [app]. discriminate.
Qed.

(** The partial hashes an input is checked with: those it is given, or its own. *)
Definition partialHashes (hc : option TxSigHashes) (tx : MsgTx) (fetch : PrevOutputFetcher) : result engine_error TxSigHashes :=
  match hc with Some sigHashes => Ok sigHashes | None => NewTxSigHashes tx fetch end.

(** A witness that spends a key hash output. *)
Definition keyHashSpend (h : list Z) (tx : MsgTx) (idx : Z) (witness : list (list Z)) (hc : option TxSigHashes) (amt : Z)
    (fetch : PrevOutputFetcher) : Prop :=
  exists sig pk key rs sigHashes hash,
    witness = [sig; pk] /\ zlen sig <= MaxScriptElementSize /\ zlen pk <= MaxScriptElementSize /\
    ripemd160 (Sha256.sum256 pk) = h /\ ParsePubKey pk = Some key /\
    sig <> [] /\ consensusHashType (hashTypeOf sig) /\
    checkSignatureFormat (sigBytesOf sig) false = None /\ ParseDERSignature (sigBytesOf sig) = Ok rs /\
    partialHashes hc tx fetch = Ok sigHashes /\
    calcWitnessSignatureHashRawWithReplayProtection (keyHashScript h) sigHashes (hashTypeOf sig) tx (Z.to_nat idx) amt true
      = Ok hash /\
    ecdsaSigVerify rs hash key = true.

Lemma segwitCheck_needs e script pk sig :
  segwitCheck e script pk sig = Ok true -> exists sigHashes, sigHashesOf e = Ok sigHashes.
Proof.
  unfold segwitCheck. destruct (parseBase e pk sig) as [[key rs]|[| |]]; [|discriminate..].
  destruct (sigHashesOf e) as [sigHashes|]; [by exists sigHashes|discriminate].
Qed.

Lemma keyHashResult_ok h tx idx ti hc amt fetch :
  keyHashResult (mkEngineParams consensusFlags tx (Z.to_nat idx) false hc fetch amt 0) h (Witness ti) = Ok tt <->
  keyHashSpend h tx idx (Witness ti) hc amt fetch.
Proof.
  unfold keyHashResult, keyHashSpend. destruct (Witness ti) as [|sig [|pk [|? ?]]]; try by split; [|naive_solver].
  cbn [existsb]. rewrite orb_false_r. set (e := mkEngineParams _ _ _ _ _ _ _ _).
  pose proof (fun sigHashes => segwitCheck_true e sigHashes (keyHashScript h) pk sig eq_refl) as Hcheck. cbn [vm_tx txIdx inputAmount e] in Hcheck.
  change (sigHashesOf e) with (partialHashes hc tx fetch) in Hcheck. split.
  - destruct (Z.ltb_spec MaxScriptElementSize (zlen sig)); [done|].
    destruct (Z.ltb_spec MaxScriptElementSize (zlen pk)); [done|]. cbn [orb].
    unfold bytesEqual. case_bool_decide as Heq; cbn [negb]; [|done].
    destruct sig as [|b sig]; [done|].
    replace (zlen (b :: sig) =? 0) with false by (rewrite zlen_cons; pose proof (zlen_nonneg sig); symmetry; apply Z.eqb_neq; lia).
    destruct (segwitCheck e (keyHashScript h) pk (b :: sig)) as [[]|err] eqn:Es; [intros _|done..].
    destruct (segwitCheck_needs _ _ _ _ Es) as [sigHashes Hsh]. change (sigHashesOf e) with (partialHashes hc tx fetch) in Hsh.
    destruct (proj1 (Hcheck sigHashes Hsh) eq_refl) as (key & rs & hash & ? & ? & ? & ? & ? & ?).
    exists (b :: sig), pk, key, rs, sigHashes, hash. by split_and!.
  - intros (sig' & pk' & key & rs & sigHashes & hash & [= <- <-] & H1 & H2 & H3 & H4 & H5 & H6 & H7 & H8 & H9 & H10 & H11).
    rewrite (proj2 (Z.ltb_ge _ _) H1), (proj2 (Z.ltb_ge _ _) H2). cbn [orb].
    unfold bytesEqual. rewrite bool_decide_true by done. cbn [negb].
    destruct (Z.eqb_spec (zlen sig) 0) as [Hz|_]; [destruct sig; [done|rewrite zlen_cons in Hz; pose proof (zlen_nonneg sig); lia]|].
    rewrite (proj2 (Hcheck sigHashes H9)); [done|]. by exists key, rs, hash.
Qed.

Lemma p2wpkh_spends h tx idx ti hc amt fetch :
  zlen h = 20 -> 0 <= idx < zlen (TxIns tx) -> TxIns tx !! Z.to_nat idx = Some ti ->
  runScripts ([OP_0; 20] ++ h) tx idx consensusFlags None hc amt fetch = Some (Ok tt) <->
  SignatureScript ti = [] /\ keyHashSpend h tx idx (Witness ti) hc amt fetch.
Proof.
  intros Hh Hidx Hti. rewrite <- keyHashResult_ok. split.
  - intros H. pose proof (p2wpkh_sigScript h tx idx ti hc amt fetch Hh Hidx Hti H) as Hsig. split; [done|].
    rewrite (p2wpkh_result h tx idx ti hc amt fetch Hh Hidx Hti Hsig) in H. congruence.
  - intros [Hsig H]. by rewrite (p2wpkh_result h tx idx ti hc amt fetch Hh Hidx Hti Hsig), H.
Qed.

(** C10: Validating an input that spends a pay-to-witness-pubkey-hash output, under
    the consensus rules, is exactly checking that its signature script is empty and
    that its witness is a signature and a key, that the key has the hash in the
    output, and that the signature is a strict DER encoding with a replay protected
    hash type that verifies under the key for the digest of the input. *)
Theorem p2wpkh_spend_iff h tx idx ti hc amt fetch :
  zlen h = 20 -> 0 <= idx < zlen (TxIns tx) -> TxIns tx !! Z.to_nat idx = Some ti ->
  runScripts ([OP_0; 20] ++ h) tx idx consensusFlags None hc amt fetch = Some (Ok tt) <->
  SignatureScript ti = [] /\
  exists sig pk key rs sigHashes hash,
    Witness ti = [sig; pk] /\ zlen sig <= MaxScriptElementSize /\ zlen pk <= MaxScriptElementSize /\
    ripemd160 (Sha256.sum256 pk) = h /\ ParsePubKey pk = Some key /\
    sig <> [] /\ consensusHashType (hashTypeOf sig) /\
    checkSignatureFormat (sigBytesOf sig) false = None /\ ParseDERSignature (sigBytesOf sig) = Ok rs /\
    partialHashes hc tx fetch = Ok sigHashes /\
    calcWitnessSignatureHashRawWithReplayProtection (keyHashScript h) sigHashes (hashTypeOf sig) tx (Z.to_nat idx) amt true
      = Ok hash /\
    ecdsaSigVerify rs hash key = true.
Proof. exact (p2wpkh_spends h tx idx ti hc amt fetch). Qed.
End keyhash.

(** ** Taproot key spends *)

Section taproot.
Context `{Curve : Secp256k1} `{Hash160 : Ripemd160} `{Picks : MapPick}.

(** A witness for a key spend: the signature, and perhaps an annex. *)
Definition keyPathWitness (sig : list Z) (annex : option (list Z)) : list (list Z) :=
  sig :: match annex with Some a => [TaprootAnnexTag :: a] | None => [] end.

Definition keyPathOptions (annex : option (list Z)) : taprootSigHashOptions :=
  withReplayOpt true (withAnnexOpt (cons TaprootAnnexTag <$> annex) defaultTaprootSighashOptions).

Lemma keyPath_annex sig annex :
  annexOf (keyPathWitness sig annex) = cons TaprootAnnexTag <$> annex /\
  (if isAnnexedWitness (keyPathWitness sig annex)
   then take (length (keyPathWitness sig annex) - 1) (keyPathWitness sig annex) else keyPathWitness sig annex) = [sig].
Proof. by destruct annex as [a|]. Qed.

(** What a key spend checks. *)
Definition keyPathResult (e : EngineParams) (program sig : list Z) (annex : option (list Z)) : result engine_error unit :=
  if negb (zlen sig =? 65) || (byteAt sig 64 =? 0) || negb (isOBTCReplayProtectedSigHashType (byteAt sig 64))
  then Err (ScriptErr ErrInvalidSigHashType)
  else
    '(pubKey, s, hashType) ← parseTaprootSigAndPubKey program sig;
    match taprootSigHash e hashType (keyPathOptions annex) with
    | Ok hash => if schnorrSigVerify s hash pubKey then Ok tt else Err (ScriptErr ErrTaprootSigInvalid)
    | Err (EnginePanic p) => Err (EnginePanic p)
    | Err _ => Err (ScriptErr ErrTaprootSigInvalid)
    end.

Lemma verifyKeyPath_result e vm program sig annex :
  flags e = consensusFlags -> inputWitness e = keyPathWitness sig annex -> sigCache vm = None ->
  verifyKeyPath e program sig vm =
    match keyPathResult e program sig annex with
    | Ok _ => (Ok true, setTaprootCtx (setMustSucceed <$> taprootCtx vm) vm)
    | Err err => (Err err, vm)
    end.
Proof.
  intros Hf Hw Hc. unfold verifyKeyPath, keyPathResult, mbind, engineM_bind.
  assert (Hr : hasFlag e ScriptVerifyOBTCReplayProtection = true) by (unfold hasFlag; by rewrite Hf). rewrite Hr.
  change (SignatureSize + 1) with 65. cbn [andb]. destruct (_ || _ || _); [reflexivity|]. cbn [failIf]. unfold mret, engineM_ret.
  unfold verifyTaprootKeySpend, newTaprootSigVerifier, mbind, engineM_bind, liftE. rewrite Hr, Hw, (proj1 (keyPath_annex sig annex)).
  destruct (parseTaprootSigAndPubKey program sig) as [[[key s] hashType]|err]; [|reflexivity]. cbn [result_bind].
  unfold taprootVerify. cbn [tv_allow tv_annex tv_hashType]. fold (keyPathOptions annex).
  unfold orInvalid, validOnly, taprootVerifySig, cachedVerify, mbind, engineM_bind.
  destruct (taprootSigHash e hashType (keyPathOptions annex)) as [hash|[]]; [|reflexivity..].
  rewrite Hc. cbn [tv_sig tv_pubKey].
  by destruct (schnorrSigVerify s hash key).
Qed.

Lemma verifyWitnessProgram_keypath e vm program sig annex :
  flags e = consensusFlags -> witnessVersion e = 1 -> bip16 e = false -> inputWitness e = keyPathWitness sig annex ->
  witnessProgram vm = Some program -> zlen program = 32 -> sigCache vm = None ->
  exists ctx vm', mustSucceed ctx = true /\
  verifyWitnessProgram e (inputWitness e) vm =
    match keyPathResult e program sig annex with
    | Ok _ => (Ok tt, setTaprootCtx (Some ctx) vm)
    | Err err => (Err err, vm')
    end.
Proof.
  intros Hf Hv Hb Hw Hp Hl Hc. unfold verifyWitnessProgram, isWitnessVersionActive, mbind, engineM_bind, getVM.
  rewrite Hv, Hp. cbn [isSome andb Z.eqb Pos.eqb]. change (default [] (Some program)) with program. rewrite Hl, Hb. cbn [Z.eqb Pos.eqb andb negb].
  unfold verifyWitnessV1, mbind, engineM_bind.
  replace (hasFlag e ScriptVerifyTaproot) with true by (unfold hasFlag; by rewrite Hf).
  rewrite Hw. cbn [negb]. replace (zlen (keyPathWitness sig annex) =? 0) with false by (by destruct annex).
  cbn [failIf]. unfold mret, engineM_ret, modifyVM. rewrite (proj1 (keyPath_annex sig annex)), (proj2 (keyPath_annex sig annex)).
  change (zlen [sig] =? 1) with true. cbn [nth].
  rewrite (verifyKeyPath_result e _ program sig annex) by done. cbn [taprootCtx setTaprootCtx fmap option_fmap option_map].
  eexists _, _. split; [|destruct (keyPathResult e program sig annex); reflexivity]. reflexivity.
Qed.

Lemma p2tr_keyspend_result p tx idx ti sig annex sigHashes amt fetch :
  zlen p = 32 -> 0 <= idx < zlen (TxIns tx) -> TxIns tx !! Z.to_nat idx = Some ti ->
  SignatureScript ti = [] -> Witness ti = keyPathWitness sig annex ->
  runScripts ([OP_1; 32] ++ p) tx idx consensusFlags None (Some sigHashes) amt fetch
  = Some (keyPathResult (mkEngineParams consensusFlags tx (Z.to_nat idx) false (Some sigHashes) fetch amt 1) p sig annex).
Proof.
  intros Hp Hidx Hti Hsig Hwit. pose proof Hp as Hp'. explode 32 p.
  start_engine Hti Hsig (eq_refl (Witness ti)).
  match goal with |- fst <$> Execute ?e ?vm = Some ?r =>
    enough (exists vm', execLoop e 12 vm = Some (r, vm')) as [vm' Hrun];
    [rewrite (Execute_short _ _ _ _ Hrun) by lia; reflexivity|];
    assert (Hw : inputWitness e = keyPathWitness sig annex) by (unfold inputWitness; cbn [vm_tx txIdx]; by rewrite Hti) end. 
  do 2 exec_step. rewrite endScript_native by reflexivity. 
  match goal with |- context [verifyWitnessProgram ?e _ ?vm] =>
    edestruct (verifyWitnessProgram_keypath e vm) as (ctx & vm' & Hc & He);
    [reflexivity|reflexivity|reflexivity|exact Hw|reflexivity|reflexivity|reflexivity|rewrite He] end.
  clear He. change consensusFlags with 2166875. destruct (keyPathResult _ _ _ _) as [[]|err]; [|by eexists].
  cbv iota beta.
  match goal with |- context [nextScript ?vm] =>
    let r := eval lazy in (nextScript vm) in change (nextScript vm) with r end; cbv iota beta.
  unfold CheckErrorCondition, mbind, engineM_bind, getVM. cbn [taprootCtx]. rewrite Hc. by eexists.
Qed.

(** C11: Validating an input that spends a taproot output through its key, under
    the consensus rules, is exactly checking that the signature is 65 bytes long,
    ends in a replay protected hash type, and is a Schnorr signature under the
    key in the output for the digest of the input, annex included. *)
Theorem p2tr_keyspend_iff p tx idx ti sig annex sigHashes amt fetch :
  zlen p = 32 -> 0 <= idx < zlen (TxIns tx) -> TxIns tx !! Z.to_nat idx = Some ti ->
  SignatureScript ti = [] -> Witness ti = keyPathWitness sig annex ->
  runScripts ([OP_1; 32] ++ p) tx idx consensusFlags None (Some sigHashes) amt fetch = Some (Ok tt) <->
  zlen sig = 65 /\ byteAt sig 64 <> 0 /\ isOBTCReplayProtectedSigHashType (byteAt sig 64) = true /\
  exists key s hash, schnorrParsePubKey p = Ok key /\ schnorrParseSignature (take 64 sig) = Ok s /\
    calcTaprootSignatureHashRaw sigHashes (byteAt sig 64) tx (Z.to_nat idx) fetch (keyPathOptions annex) = Ok hash /\
    schnorrSigVerify s hash key = true.
Proof.
  intros Hp Hidx Hti Hsig Hwit. rewrite (p2tr_keyspend_result p tx idx ti sig annex) by done.
  unfold keyPathResult, parseTaprootSigAndPubKey, taprootSigHash. cbn [hashCache vm_tx txIdx prevOutFetcher].
  destruct (Z.eqb_spec (zlen sig) 65) as [Hl|]; cbn [negb orb]; [|by split; [|naive_solver]].
  destruct (Z.eqb_spec (byteAt sig 64) 0); cbn [negb orb]; [by split; [|naive_solver]|].
  destruct (isOBTCReplayProtectedSigHashType (byteAt sig 64)); cbn [negb]; [|by split; [|naive_solver]].
  destruct (schnorrParsePubKey p) as [key|]; result_simpl; [|by split; [|naive_solver]].
  replace (zlen sig =? SignatureSize) with false by (by rewrite Hl). change (SignatureSize + 1) with 65. rewrite Hl. cbn [Z.eqb Pos.eqb andb].
  destruct (schnorrParseSignature (take 64 sig)) as [s|]; result_simpl; [|by split; [|naive_solver]].
  destruct (calcTaprootSignatureHashRaw _ _ _ _ _ _) as [hash|[]]; [|by split; [|naive_solver]..].
  destruct (schnorrSigVerify s hash key) eqn:Ev.
  - split; [|done]. intros _. split_and!; try done. by exists key, s, hash.
  - split; [discriminate|]. intros (_&_&_&?&?&?&?&?&?&?). congruence.
Qed.
End taproot.

(** ** Witnesses *)

#[local] Existing Instances truncatedHash truncatedHash_laws noPicks.

Definition someSigHashes : TxSigHashes := mkTxSigHashes [] [] [] [] [] [] [] [].

(** Without a witness the input is not accepted. *)
Lemma p2wpkh_spend_iff_witness :
  runScripts (Curve := secp256k1) ([OP_0; 20] ++ replicate 20 7) (spendingTx [] []) 0 consensusFlags None
    (Some someSigHashes) 1000 (fun _ => None) <> Some (Ok tt).
Proof.
  intros H. apply (p2wpkh_spend_iff (replicate 20 7) (spendingTx [] []) 0 _ (Some someSigHashes) 1000 (fun _ => None)
    eq_refl (conj (Z.le_refl 0) eq_refl) eq_refl) in H as (_ & ? & ? & ? & ? & ? & ? & H & _). discriminate.
Defined.

(** A 64-byte signature has no replay protected hash type. *)
Lemma p2tr_keyspend_iff_witness :
  runScripts (Curve := secp256k1) ([OP_1; 32] ++ replicate 32 7) (spendingTx [] [replicate 64 1]) 0 consensusFlags None
    (Some someSigHashes) 1000 (fun _ => None) <> Some (Ok tt).
Proof.
  intros H. apply (p2tr_keyspend_iff (replicate 32 7) (spendingTx [] [replicate 64 1]) 0 _ (replicate 64 1) None someSigHashes 1000
    (fun _ => None) eq_refl (conj (Z.le_refl 0) eq_refl) eq_refl eq_refl eq_refl) in H as [H _]. discriminate.
Defined.
