(* ===== verification/EngineNested.v ===== *)
(** * Nested witness programs

    How [NewEngine] (txscript/engine.go) finds the witness program nested in a
    pay-to-script-hash input, and what it admits: the bytes after the first of
    the signature script are taken as the program without checking that they
    are one push. *)

From S2P Require Import Prelude ChainParams Sha256 Sha1 Wire Commitment Script ScriptNum Standard SigHash Signature Taproot Engine Opcodes EngineExec EngineSpec EngineInv EngineRun.

Section nested.
Context `{Curve : Secp256k1} `{Hash160 : Ripemd160} {Hash160Laws : Ripemd160Laws Hash160} `{Picks : MapPick}.

(** An input that spends a pay-to-script-hash output and has a witness. *)
Definition spendsNested (scriptSig : list Z) (tx : MsgTx) (idx : Z) : Prop :=
  0 <= idx < zlen (TxIns tx) /\
  exists ti w ws, TxIns tx !! Z.to_nat idx = Some ti /\ SignatureScript ti = scriptSig /\ Witness ti = w :: ws.

Definition scriptHashOf (redeem : list Z) : list Z :=
  [OP_HASH160; 20] ++ ripemd160 (Sha256.sum256 redeem) ++ [OP_EQUAL].

(** C12: An output that pays to the script hash of a version 0 key hash program
    can be spent without a signature: if the signature script pushes two bytes
    before the program, [0x52 0x17], the bytes after the first read as a version 2
    program, which the consensus rules accept with any witness. *)
Theorem nested_program_misread h tx idx sc hc amt fetch :
  zlen h = 20 -> asBool h = true -> spendsNested ([2; 0x52; 0x17; 22] ++ 0 :: 20 :: h) tx idx ->
  runScripts (scriptHashOf (0 :: 20 :: h)) tx idx consensusFlags sc hc amt fetch = Some (Ok tt).
Proof.
  intros Hh Hb (Hidx & ti & w & ws & Hti & Hsig & Hwit). unfold scriptHashOf.
  match goal with |- context [ripemd160 ?m] => pose proof (ripemd160_length m) as Hk end.
  remember (ripemd160 _) as k eqn:Hhash. symmetry in Hhash. explode 20 h. explode 20 k.
  start_engine Hti Hsig Hwit.
  match goal with |- fst <$> Execute ?e ?vm = _ =>
    enough (exists vm', execLoop e 8 vm = Some (Ok tt, vm')) as [vm' Hrun];
    [rewrite (Execute_short _ _ _ _ Hrun) by lia; reflexivity|] end. 
  do 2 exec_step. end_step. exec_step. rewrite Hhash. do 2 exec_step. rewrite bytesEqual_refl. cbv iota. end_step.
  do 2 exec_step. end_step.
  match goal with |- context [CheckErrorCondition ?e ?b ?vm] =>
    let r := eval lazy -[asBool] in (CheckErrorCondition e b vm) in change (CheckErrorCondition e b vm) with r end.
  rewrite Hb. cbv iota. eexists. reflexivity.
Qed.

(** A 32-byte redeem script that checks a signature. *)
Definition checkingScript : list Z := [1; 1; 1; 1; OP_CHECKSIG] ++ replicate 27 OP_NOP.

(** C39: A pay-to-script-hash redeem script of 32 bytes makes validation panic: if
    the signature script pushes a zero, a one and the script, the bytes after the
    first read as a version 1 program, and while the redeem script runs the
    signature opcodes have no verifier to call. *)
Theorem nested_program_panics tx idx sc hc amt fetch :
  spendsNested ([OP_0; OP_1; 32] ++ checkingScript) tx idx ->
  runScripts (scriptHashOf checkingScript) tx idx consensusFlags sc hc amt fetch = Some (Err (EnginePanic "invalid memory address or nil pointer dereference")).
Proof.
  intros (Hidx & ti & w & ws & Hti & Hsig & Hwit). unfold scriptHashOf.
  match goal with |- context [ripemd160 ?m] => pose proof (ripemd160_length m) as Hk end.
  remember (ripemd160 _) as k eqn:Hhash. symmetry in Hhash. explode 20 k.
  start_engine Hti Hsig Hwit.
  match goal with |- fst <$> Execute ?e ?vm = Some ?r =>
    enough (exists vm', execLoop e 12 vm = Some (r, vm')) as [vm' Hrun];
    [rewrite (Execute_short _ _ _ _ Hrun) by lia; reflexivity|] end. 
  assert (Hfold : ripemd160 (Sha256.sum256 checkingScript) = ripemd160 (Sha256.sum256 ltac:(let s := eval vm_compute in checkingScript in exact s))) by reflexivity.
  rewrite Hhash in Hfold. symmetry in Hfold.
  do 3 exec_step. end_step. exec_step. rewrite Hfold. do 2 exec_step. rewrite bytesEqual_refl. cbv iota. end_step.
  do 2 exec_step. exec_opcode. eexists. reflexivity.
Qed.
End nested.

(** ** Witnesses *)

#[local] Existing Instances truncatedHash truncatedHash_laws noPicks.

Lemma nested_program_misread_witness :
  runScripts (Curve := secp256k1) (scriptHashOf (0 :: 20 :: replicate 20 7))
    (spendingTx ([2; 0x52; 0x17; 22] ++ 0 :: 20 :: replicate 20 7) [[1]]) 0 consensusFlags None None 1000 (fun _ => None)
  = Some (Ok tt).
Proof.
  apply (nested_program_misread (replicate 20 7)); [reflexivity|reflexivity|].
  split; [split; [lia|reflexivity]|]. do 3 eexists. split; [reflexivity|]. split; reflexivity.
Defined.

Lemma nested_program_panics_witness :
  runScripts (Curve := secp256k1) (scriptHashOf checkingScript)
    (spendingTx ([OP_0; OP_1; 32] ++ checkingScript) [[1]]) 0 consensusFlags None None 1000 (fun _ => None)
  = Some (Err (EnginePanic "invalid memory address or nil pointer dereference")).
Proof.
  apply nested_program_panics.
  split; [split; [lia|reflexivity]|]. do 3 eexists. split; [reflexivity|]. split; reflexivity.
Defined.
