(* ===== verification/EngineUnspendable.v ===== *)
(** * The script engine: unspendable outputs

    The outputs [IsUnspendable] (txscript/script.go) keeps out of the set of
    unspent outputs can never be spent: whatever the input, the engine returns an
    error. Opcodes do not move the program counter. *)

From S2P Require Import Prelude ChainParams Sha256 Sha1 Wire Commitment Script ScriptNum Standard SigHash Signature Taproot Engine Opcodes EngineExec EngineInv.

#[local] Opaque Sha256.sum256 Sha1.sum TaggedHash leafTapHash DoubleHashB.

(** ** Operations that leave the program counter alone *)

Definition samePC (vm vm' : Engine) : Prop :=
  scripts vm' = scripts vm /\ scriptIdx vm' = scriptIdx vm /\ tokenizer vm' = tokenizer vm.

Definition keepsPC {A} (m : engineM A) : Prop := forall vm, samePC vm (m vm).2.

Lemma k_const {A} (r : result engine_error A) : keepsPC (fun vm => (r, vm)).
Proof. by intros vm. Qed.

Lemma k_ret {A} (a : A) : keepsPC (mret a).
Proof. by intros vm. Qed.

Lemma k_bind {A B} (m : engineM A) (k : A -> engineM B) :
  keepsPC m -> (forall a, keepsPC (k a)) -> keepsPC (m ≫= k).
Proof.
  intros Hm Hk vm. pose proof (Hm vm) as H. unfold mbind, engineM_bind. destruct (m vm) as [[a|err] vm1]; [|exact H].
  cbn [snd] in H. pose proof (Hk a vm1) as H'. unfold samePC in *. naive_solver congruence.
Qed.

Lemma k_getVM {B} (k : Engine -> engineM B) : (forall vm, keepsPC (k vm)) -> keepsPC (getVM ≫= k).
Proof. intros Hk vm. apply (Hk vm vm). Qed.

Lemma k_modify f : (forall vm, samePC vm (f vm)) -> keepsPC (modifyVM f).
Proof. intros Hf vm. apply Hf. Qed.

Lemma k_onDstack {A} (m : stackM A) : keepsPC (onDstack m).
Proof. intros vm. unfold onDstack. by destruct (m (dstack vm)). Qed.

Lemma k_onAstack {A} (m : stackM A) : keepsPC (onAstack m).
Proof. intros vm. unfold onAstack. by destruct (m (astack vm)). Qed.

Lemma k_failIf b c : keepsPC (failIf b c).
Proof. destruct b; by intros vm. Qed.

Create HintDb keepsPC.
#[export] Hint Resolve k_ret k_const k_onDstack k_onAstack k_failIf : keepsPC.

Ltac keeps_step :=
  match goal with
  | |- keepsPC (mbind ?k getVM) => apply k_getVM; intros ?vm; cbv beta
  | |- keepsPC (mbind ?k ?m) => apply k_bind; [|intros ?x; cbv beta]
  | |- keepsPC (modifyVM _) => apply k_modify; intros ?vm; split_and!; reflexivity
  | |- keepsPC (liftE _) => apply k_const
  | |- keepsPC (scriptError _) => apply k_const
  | |- keepsPC (enginePanic _) => apply k_const
  | |- keepsPC nilPointer => apply k_const
  | |- keepsPC (if ?b then _ else _) => destruct b
  | |- keepsPC (match ?x with _ => _ end) => destruct x
  | |- keepsPC (let x := _ in _) => cbv zeta
  | |- keepsPC _ => solve [auto with keepsPC nocore]
  end.
Ltac keeps := repeat keeps_step.

Section opcodes.
Context `{Curve : Secp256k1} `{Hash160 : Ripemd160} `{Picks : MapPick}.
Variable e : EngineParams.

Lemma k_cachedVerify verify hash sig pk : keepsPC (cachedVerify verify hash sig pk).
Proof.
  intros vm. unfold cachedVerify. destruct (sigCache vm); [|done]. destruct (SigCacheExists _ _ _ _); [done|]. by destruct verify.
Qed.
#[local] Hint Resolve k_cachedVerify : keepsPC.

Lemma k_opcodeNop op : keepsPC (opcodeNop e op).
Proof. unfold opcodeNop. keeps. Qed.
#[local] Hint Resolve k_opcodeNop : keepsPC.

Lemma k_popIfBool : keepsPC (popIfBool e).
Proof. unfold popIfBool. keeps. Qed.
#[local] Hint Resolve k_popIfBool : keepsPC.

Lemma k_opcodeIf b : keepsPC (opcodeIf e b).
Proof. unfold opcodeIf. keeps. Qed.
#[local] Hint Resolve k_opcodeIf : keepsPC.

Lemma k_opcodeElse : keepsPC (opcodeElse).
Proof. unfold opcodeElse. keeps. Qed.
#[local] Hint Resolve k_opcodeElse : keepsPC.

Lemma k_opcodeEndif : keepsPC (opcodeEndif).
Proof. unfold opcodeEndif. keeps. Qed.
#[local] Hint Resolve k_opcodeEndif : keepsPC.

Lemma k_abstractVerify c : keepsPC (abstractVerify c).
Proof. unfold abstractVerify. keeps. Qed.
#[local] Hint Resolve k_abstractVerify : keepsPC.

Lemma k_peekLockTime : keepsPC (peekLockTime).
Proof. unfold peekLockTime. keeps. Qed.
#[local] Hint Resolve k_peekLockTime : keepsPC.

Lemma k_opcodeCheckLockTimeVerify : keepsPC (opcodeCheckLockTimeVerify e).
Proof. unfold opcodeCheckLockTimeVerify. keeps. Qed.
#[local] Hint Resolve k_opcodeCheckLockTimeVerify : keepsPC.

Lemma k_opcodeCheckSequenceVerify : keepsPC (opcodeCheckSequenceVerify e).
Proof. unfold opcodeCheckSequenceVerify. keeps. Qed.
#[local] Hint Resolve k_opcodeCheckSequenceVerify : keepsPC.

Lemma k_opcodeToAltStack : keepsPC (opcodeToAltStack).
Proof. unfold opcodeToAltStack. keeps. Qed.
#[local] Hint Resolve k_opcodeToAltStack : keepsPC.

Lemma k_opcodeFromAltStack : keepsPC (opcodeFromAltStack).
Proof. unfold opcodeFromAltStack. keeps. Qed.
#[local] Hint Resolve k_opcodeFromAltStack : keepsPC.

Lemma k_opcodeIfDup : keepsPC (opcodeIfDup).
Proof. unfold opcodeIfDup. keeps. Qed.
#[local] Hint Resolve k_opcodeIfDup : keepsPC.

Lemma k_opcodeDepth : keepsPC (opcodeDepth).
Proof. unfold opcodeDepth. keeps. Qed.
#[local] Hint Resolve k_opcodeDepth : keepsPC.

Lemma k_opcodePick : keepsPC (opcodePick).
Proof. unfold opcodePick. keeps. Qed.
#[local] Hint Resolve k_opcodePick : keepsPC.

Lemma k_opcodeRoll : keepsPC (opcodeRoll).
Proof. unfold opcodeRoll. keeps. Qed.
#[local] Hint Resolve k_opcodeRoll : keepsPC.

Lemma k_opcodeSize : keepsPC (opcodeSize).
Proof. unfold opcodeSize. keeps. Qed.
#[local] Hint Resolve k_opcodeSize : keepsPC.

Lemma k_opcodeStack op : keepsPC (opcodeStack op).
Proof. unfold opcodeStack. keeps. Qed.
#[local] Hint Resolve k_opcodeStack : keepsPC.

Lemma k_opcodeEqual : keepsPC (opcodeEqual).
Proof. unfold opcodeEqual. keeps. Qed.
#[local] Hint Resolve k_opcodeEqual : keepsPC.

Lemma k_opcodeUnary op : keepsPC (opcodeUnary op).
Proof. unfold opcodeUnary. keeps. Qed.
#[local] Hint Resolve k_opcodeUnary : keepsPC.

Lemma k_opcodeBinary op : keepsPC (opcodeBinary op).
Proof. unfold opcodeBinary. keeps. Qed.
#[local] Hint Resolve k_opcodeBinary : keepsPC.

Lemma k_opcodeNumEqualVerify : keepsPC (opcodeNumEqualVerify).
Proof. unfold opcodeNumEqualVerify. keeps. Qed.
#[local] Hint Resolve k_opcodeNumEqualVerify : keepsPC.

Lemma k_opcodeWithin : keepsPC (opcodeWithin).
Proof. unfold opcodeWithin. keeps. Qed.
#[local] Hint Resolve k_opcodeWithin : keepsPC.

Lemma k_opcodeHash op : keepsPC (opcodeHash op).
Proof. unfold opcodeHash. keeps. Qed.
#[local] Hint Resolve k_opcodeHash : keepsPC.

Lemma k_opcodeCodeSeparator : keepsPC (opcodeCodeSeparator e).
Proof. unfold opcodeCodeSeparator. keeps. Qed.
#[local] Hint Resolve k_opcodeCodeSeparator : keepsPC.

Lemma k_getCtx : keepsPC (getCtx).
Proof. unfold getCtx. keeps. Qed.
#[local] Hint Resolve k_getCtx : keepsPC.

Lemma k_tallysigOp : keepsPC (tallysigOp).
Proof. unfold tallysigOp. keeps. Qed.
#[local] Hint Resolve k_tallysigOp : keepsPC.

Lemma k_checkSigBase pk sig verify : (forall b, keepsPC (verify b)) -> keepsPC (checkSigBase e pk sig verify).
Proof. intros Hv. unfold checkSigBase, finishCheckSig. keeps. Qed.

Lemma k_tapscriptSig pk sig onEmpty k :
  keepsPC onEmpty -> (forall m, keepsPC m -> keepsPC (k m)) -> keepsPC (tapscriptSig e pk sig onEmpty k).
Proof.
  intros Ho Hk. unfold tapscriptSig. keeps. apply Hk. unfold tapscriptVerify, orInvalid, validOnly, taprootVerifySig. keeps.
Qed.

Lemma k_opcodeCheckSig : keepsPC (opcodeCheckSig e).
Proof.
  unfold opcodeCheckSig. keeps.
  - apply k_checkSigBase. intros b. unfold baseVerify, baseVerifySig. keeps.
  - apply k_checkSigBase. intros b. unfold segwitVerify, orInvalid, validOnly, baseVerifySig. keeps.
  - apply k_tapscriptSig; [keeps|]. intros m Hm. unfold finishCheckSig. keeps.
Qed.
#[local] Hint Resolve k_opcodeCheckSig : keepsPC.

Lemma k_opcodeCheckSigAdd : keepsPC (opcodeCheckSigAdd e).
Proof.
  unfold opcodeCheckSigAdd. keeps. apply k_tapscriptSig; [keeps|]. intros m Hm. unfold finishCheckSigAdd. keeps.
Qed.
#[local] Hint Resolve k_opcodeCheckSigAdd : keepsPC.

Lemma k_popMany n : keepsPC (popMany n).
Proof. induction n; cbn [popMany]; keeps. Qed.

Lemma k_removeSigs sigs script : keepsPC (removeSigs e sigs script).
Proof. revert script. induction sigs; intros script; cbn [removeSigs]; keeps. Qed.

Lemma k_multiSigLoop script sigs parsed pks : keepsPC (multiSigLoop e script sigs parsed pks).
Proof.
  revert sigs parsed. induction pks as [|pk pks IH]; intros sigs parsed; cbn [multiSigLoop]; destruct sigs; keeps.
  unfold multiSigKey, parseSigInfo, multiSigHash. keeps.
Qed.
#[local] Hint Resolve k_popMany k_removeSigs k_multiSigLoop : keepsPC.

Lemma k_opcodeCheckMultiSig : keepsPC (opcodeCheckMultiSig e).
Proof. unfold opcodeCheckMultiSig, popCount. keeps. Qed.
#[local] Hint Resolve k_opcodeCheckMultiSig : keepsPC.

Lemma k_executeOpcode op data : keepsPC (executeOpcode e op data).
Proof. unfold executeOpcode, opfunc, opcodeCheckSigVerify. keeps. Qed.

(** ** An output script that starts with OP_RETURN *)

Section returns.
Variables sig rest : list Z.
Let pk : list Z := OP_RETURN :: rest.
Hypothesis Hbip16 : bip16 e = false.
Hypothesis Hsize : zlen pk <= MaxScriptSize.

Definition beforeReturn (vm : Engine) : Prop :=
  scripts vm = [sig; pk] /\
  (scriptIdx vm = 0 \/ (scriptIdx vm = 1 /\ tokenizer vm = MakeScriptTokenizer 0 pk /\ condStack vm = [])).

Lemma endScript_beforeReturn vm :
  scripts vm = [sig; pk] -> scriptIdx vm = 0 ->
  match endScript e vm with
  | (Ok b, vm') => b = false /\ beforeReturn vm'
  | (Err _, _) => True
  end.
Proof.
  destruct vm as [scr si ? ? ? ? ? ? cs ? ? ? ?]. cbn [scripts scriptIdx]. intros -> ->.
  unfold endScript, advanceScript, bumpScriptIdx, mbind, engineM_bind, getVM, modifyVM. cbn [condStack].
  case_bool_decide as Hcs; cbn [negb failIf scriptError]; [|exact I]. unfold mret, engineM_ret. cbn [condStack] in Hcs. rewrite Hcs, Hbip16. cbn -[zlen MakeScriptTokenizer].
  split; [done|]. split; [done|]. right. done.
Qed.

Lemma return_fails data vm : condStack vm = [] -> isSome (match (executeOpcode e OP_RETURN data vm).1 with Ok _ => Some tt | Err _ => None end) = false.
Proof.
  intros Hc. unfold executeOpcode, mbind, engineM_bind, getVM.
  change (isOpcodeDisabled OP_RETURN) with false. change (isOpcodeAlwaysIllegal OP_RETURN) with false.
  cbn [failIf]. unfold mret, engineM_ret.
  assert (Hgo : forall vm', condStack vm' = [] ->
    isSome (match ((if negb (isBranchExecuting vm) && negb (isOpcodeConditional OP_RETURN) then mret tt
       else _ ← (if verifyMinimalData (dstack vm) && isBranchExecuting vm && (OP_RETURN <=? OP_PUSHDATA4)
                 then liftE (checked (checkMinimalDataPush OP_RETURN data)) else mret tt);
            opfunc e OP_RETURN data) vm').1 with Ok _ => Some tt | Err _ => None end) = false).
  { intros vm' _. unfold isBranchExecuting. rewrite Hc. cbn [last negb andb].
    change (OP_RETURN <=? OP_PUSHDATA4) with false. rewrite !andb_false_r. reflexivity. }
  destruct (negb (isSome (taprootCtx vm)) && (OP_16 <? OP_RETURN)).
  - unfold modifyVM, failIf. destruct (MaxOpsPerScript <? _); [reflexivity|]. by apply Hgo.
  - unfold failIf. destruct (MaxScriptElementSize <? _); [reflexivity|]. by apply Hgo.
Qed.

Lemma Step_beforeReturn vm :
  beforeReturn vm ->
  match Step e vm with
  | (Ok b, vm') => b = false /\ beforeReturn vm'
  | (Err _, _) => True
  end.
Proof.
  intros [Hs Hcase]. unfold Step, mbind, engineM_bind, getVM, nextToken. unfold failIf at 1. destruct (_ <=? _); [exact I|].
  unfold mret at 1, engineM_ret at 1. destruct Hcase as [Hi|(Hi & Ht & Hc)].
  - destruct (Next (tokenizer vm)) as [ok t]. destruct ok; cbn [negb].
    2: { by destruct (tk_err _). }
    pose proof (k_executeOpcode (Opcode (tokenizer (setTokenizer t vm))) (default [] (tk_data (tokenizer (setTokenizer t vm)))) (setTokenizer t vm)) as (K1 & K2 & _).
    destruct (executeOpcode _ _ _ _) as [[[]|err] vm1]; [|exact I]. cbn [snd scripts scriptIdx setTokenizer] in K1, K2.
    unfold failIf at 1. destruct (_ <? _); [exact I|]. unfold mret at 1, engineM_ret at 1, modifyVM at 1.
    destruct (Done _).
    + apply endScript_beforeReturn; cbn [scripts scriptIdx setOpcodeIdx]; congruence.
    + split; [done|]. split; [cbn; congruence|]. left. cbn. congruence.
  - rewrite Ht, (Next_unfold _ [] OP_RETURN rest) by (apply at_offset_start; unfold pk, MaxScriptSize in Hsize; lia).
    cbv zeta. change (opcodeLength OP_RETURN) with 1. cbn [Z.eqb Pos.eqb]. unfold tokenizerAdvance. cbv iota beta. set (vm1 := setTokenizer _ vm). change (Opcode (tokenizer vm1)) with OP_RETURN.
    pose proof (return_fails (default [] (tk_data (tokenizer vm1))) vm1 Hc) as Hr. cbn [negb].
    destruct (executeOpcode _ _ _ _) as [[[]|err] vm2]; [discriminate|exact I].
Qed.

Lemma execLoop_beforeReturn n vm vm' : beforeReturn vm -> execLoop e n vm <> Some (Ok tt, vm').
Proof.
  revert vm. induction n as [|n IH]; intros vm Hv; [discriminate|]. cbn [execLoop].
  pose proof (Step_beforeReturn vm Hv) as H. destruct (Step e vm) as [[[]|err] vm1]; [by destruct H|apply IH, H|discriminate].
Qed.

End returns.
End opcodes.

(** C13: An output that [IsUnspendable] reports, and that is therefore never
    added to the set of unspent outputs, cannot be spent: no input makes the
    engine accept it, under any flags. *)
Theorem unspendable_never_spent `{Curve : Secp256k1} `{Hash160 : Ripemd160} `{Picks : MapPick}
    pk tx idx fl sc hc amt fetch :
  IsUnspendable pk = true -> runScripts pk tx idx fl sc hc amt fetch <> Some (Ok tt).
Proof.
  intros Hun. unfold runScripts. destruct (NewEngine _ _ _ _ _ _ _ _) as [[e vm]|err] eqn:Hnew; [|discriminate].
  unfold NewEngine in Hnew. destruct (_ || _) in Hnew; [discriminate|]. destruct (_ !! _) as [ti|] in Hnew; [|discriminate].
  cbv zeta in Hnew. set (sig := SignatureScript ti) in *.
  repeat match type of Hnew with (if ?c then _ else _) = _ => destruct c eqn:?E; [discriminate|] end.
  destruct (checkScripts [sig; pk]) as [[]|] eqn:Ec; [|discriminate]. cbn [mbind result_bind] in Hnew.
  match type of Hnew with (?x ≫= _) = _ => destruct x as [info|]; [|discriminate] end. cbn [mbind result_bind] in Hnew.
  injection Hnew as <- <-.
  assert (Hpk : (exists rest, pk = OP_RETURN :: rest) /\ zlen pk <= MaxScriptSize).
  { cbn [checkScripts] in Ec. destruct (_ <? zlen sig) in Ec; [discriminate|]. destruct (checkScriptParses sig); [discriminate|].
    cbn [checked mbind result_bind] in Ec. destruct (MaxScriptSize <? zlen pk) eqn:El; [discriminate|].
    split; [|by apply Z.ltb_ge]. destruct (checkScriptParses pk) eqn:Ep; [discriminate|]. destruct pk as [|b rest]; [cbn in Hun; by rewrite Ep in Hun|].
    unfold IsUnspendable in Hun. rewrite El, Ep in Hun. destruct (Z.eqb_spec b OP_RETURN) as [->|]; [by exists rest|discriminate]. }
  destruct Hpk as [[rest ->] Hsize]. intros Hr.
  match type of Hr with fst <$> Execute ?e ?vm = _ => destruct (Execute e vm) as [[r vm']|] eqn:Ex end; [|discriminate].
  injection Hr as ->. revert Ex. apply (execLoop_beforeReturn _ sig rest).
  - cbn [bip16]. replace (isScriptHashScript (OP_RETURN :: rest)) with false; [apply andb_false_r|].
    unfold isScriptHashScript. destruct (extractScriptHash (OP_RETURN :: rest)) as [h|] eqn:Eh; [|done].
    by apply extractScriptHash_iff in Eh as [_ Eh].
  - exact Hsize.
  - split; [reflexivity|]. cbn [scriptIdx tokenizer condStack]. destruct (Z.eqb_spec (zlen sig) 0); [by right|by left].
Qed.

Lemma unspendable_never_spent_witness :
  runScripts (Curve := secp256k1) (Hash160 := truncatedHash) (Picks := noPicks)
    [OP_RETURN] (spendingTx [0x51] []) 0 0 None None 0 (fun _ => None) <> Some (Ok tt).
Proof. apply unspendable_never_spent. reflexivity. Defined.
