(* ===== verification/Block.v ===== *)
(** * Blocks

    src/wire/blockheader.go: the 80-byte header, its encoder and decoder, and
    the block hash. A [Block] is what src/btcutil/block.go hands to the chain
    code: header, transactions, and the height set when the block is connected.
    A timestamp is its Unix time, which the wire format cuts to 32 bits. *)

From S2P Require Import Prelude Sha256 Wire.

Record BlockHeader := mkBlockHeader {
  bh_Version : Z;
  bh_PrevBlock : list Z;
  bh_MerkleRoot : list Z;
  bh_Timestamp : Z;
  bh_Bits : Z;
  bh_Nonce : Z }.

#[export] Instance BlockHeader_eq_dec : EqDecision BlockHeader.
Proof. solve_decision. Defined.

Definition blockHeaderLen : Z := 80.

Definition writeBlockHeaderBuf (bh : BlockHeader) : list Z :=
  le_bytes 4 (u32 (bh_Version bh)) ++ bh_PrevBlock bh ++ bh_MerkleRoot bh
  ++ le_bytes 4 (u32 (bh_Timestamp bh)) ++ le_bytes 4 (bh_Bits bh) ++ le_bytes 4 (bh_Nonce bh).

Definition readBlockHeaderBuf : decoder BlockHeader := fun r =>
  '(v, r1) ← readFull 4 r;
  '(prev, r2) ← readFull HashSize r1;
  '(root, r3) ← readFull HashSize r2;
  '(ts, r4) ← readFull 4 r3;
  '(bits, r5) ← readFull 4 r4;
  '(nonce, r6) ← readFull 4 r5;
  Ok (mkBlockHeader (i32 (le_val v)) prev root (le_val ts) (le_val bits) (le_val nonce), r6).

Definition BlockHash (bh : BlockHeader) : list Z := DoubleHashB (writeBlockHeaderBuf bh).

Record Block := mkBlock {
  Height : Z;
  Header : BlockHeader;
  Transactions : list MsgTx }.

Definition Block_Hash (b : Block) : list Z := BlockHash (Header b).

Record wf_header (bh : BlockHeader) : Prop := {
  wf_h_version : is_i32 (bh_Version bh);
  wf_h_prev : length (bh_PrevBlock bh) = HashSize;
  wf_h_root : length (bh_MerkleRoot bh) = HashSize;
  wf_h_time : is_u32 (bh_Timestamp bh);
  wf_h_bits : is_u32 (bh_Bits bh);
  wf_h_nonce : is_u32 (bh_Nonce bh)
}.

Lemma length_Block_Hash b : length (Block_Hash b) = HashSize.
Proof. apply length_DoubleHashB. Qed.

Lemma le_val_u32 z : is_u32 z -> le_val (le_bytes 4 z) = z.
Proof. intros H. rewrite le_val_le_bytes, pow256_4. by apply Z.mod_small. Qed.

(** A block header whose fields fit their widths takes 80 bytes on the
    wire, and reading those bytes gives the header back and leaves what follows
    untouched. *)
Lemma readBlockHeader_write bh r :
  wf_header bh ->
  zlen (writeBlockHeaderBuf bh) = blockHeaderLen /\
  readBlockHeaderBuf (writeBlockHeaderBuf bh ++ r) = Ok (bh, r).
Proof.
  intros [Hv Hp Hm Ht Hb Hn]. split.
  - unfold writeBlockHeaderBuf, zlen. rewrite !length_app, !length_le_bytes, Hp, Hm. done.
  - unfold readBlockHeaderBuf, writeBlockHeaderBuf. rewrite <- !app_assoc.
    rewrite readFull_le. result_simpl.
    rewrite readFull_app by done. result_simpl.
    rewrite readFull_app by done. result_simpl.
    do 3 (rewrite readFull_le; result_simpl).
    rewrite !le_val_u32 by (apply u32_range || done). rewrite i32_u32 by done.
    rewrite u32_id by done. by destruct bh.
Qed.

Definition sampleHeader : BlockHeader :=
  mkBlockHeader 0x20000000 (replicate 32 1) (replicate 32 2) 1700000000 0x207fffff 42.

Lemma readBlockHeader_write_witness :
  readBlockHeaderBuf (writeBlockHeaderBuf sampleHeader ++ [9]) = Ok (sampleHeader, [9]).
Proof. apply (readBlockHeader_write sampleHeader [9]). by split. Defined.
