(* ===== verification/Compress.v ===== *)
(** * Compressed outputs

    src/blockchain/compress.go: variable-length quantities, compressed scripts,
    compressed amounts, and the compressed transaction outputs that the UTXO set
    and the spend journal store.

    The [put] functions of the source write into a slice their callers size with
    the matching size function; here they return the bytes they write, and the
    size functions are proved to be the lengths. Parsing of public keys is
    btcec's, which hands it to another module: a parameter ([KeyCodec]). A slice
    expression past the end of its operand is the panic the source documents for
    data that was not checked. *)

From S2P Require Import Prelude Sha256 Wire Commitment Script.

Inductive chainio_error :=
| ErrDeserialize (what : string)
| ErrCorruption (what : string)
| AssertError (what : string)
| ErrNotInMainChain (what : string)
| SlicePanic.

(** [l[i:j]] *)
Definition sliceZ (i j : Z) (l : list Z) : result chainio_error (list Z) :=
  if (0 <=? i) && (i <=? j) && (j <=? zlen l)
  then Ok (take (Z.to_nat (j - i)) (drop (Z.to_nat i) l)) else Err SlicePanic.

(** ** Variable-length quantities

    A 64-bit number takes at most ten bytes, the fuel of the two loops. *)

Fixpoint sizeVLQLoop (fuel : nat) (n size : Z) : Z :=
  match fuel with
  | O => size
  | S fuel' => if 0x7f <? n then sizeVLQLoop fuel' (Z.shiftr n 7 - 1) (size + 1) else size
  end.

Definition serializeSizeVLQ (n : Z) : Z := sizeVLQLoop 10 n 1.

(** The bytes in the order they are written, before they are reversed. *)
Fixpoint putVLQLoop (fuel : nat) (offset n : Z) : list Z :=
  match fuel with
  | O => []
  | S fuel' =>
      let highBitMask := if offset =? 0 then 0x00 else 0x80 in
      let b := Z.lor (Z.land n 0x7f) highBitMask in
      if n <=? 0x7f then [b] else b :: putVLQLoop fuel' (offset + 1) (Z.shiftr n 7 - 1)
  end.

Definition putVLQ (n : Z) : list Z := reverse (putVLQLoop 10 0 n).

Fixpoint deserializeVLQLoop (serialized : list Z) (n size : Z) : Z * Z :=
  match serialized with
  | [] => (n, size)
  | val :: rest =>
      let n := Z.lor (u64 (Z.shiftl n 7)) (Z.land val 0x7f) in
      if negb (Z.land val 0x80 =? 0x80) then (n, size + 1)
      else deserializeVLQLoop rest (u64 (n + 1)) (size + 1)
  end.

Definition deserializeVLQ (serialized : list Z) : Z * Z := deserializeVLQLoop serialized 0 0.

(** ** Amounts *)

Fixpoint stripZeros (fuel : nat) (amount exponent : Z) : Z * Z :=
  match fuel with
  | O => (amount, exponent)
  | S fuel' =>
      if (amount mod 10 =? 0) && (exponent <? 9) then stripZeros fuel' (amount / 10) (exponent + 1)
      else (amount, exponent)
  end.

Definition compressTxOutAmount (amount : Z) : Z :=
  if amount =? 0 then 0
  else
    let '(amount, exponent) := stripZeros 10 amount 0 in
    if exponent <? 9 then
      let lastDigit := amount mod 10 in
      let amount := amount / 10 in
      u64 (1 + 10 * (9 * amount + lastDigit - 1) + exponent)
    else u64 (10 + 10 * (amount - 1)).

Fixpoint applyExponent (exponent : nat) (n : Z) : Z :=
  match exponent with O => n | S e => applyExponent e (u64 (n * 10)) end.

Definition decompressTxOutAmount (amount : Z) : Z :=
  if amount =? 0 then 0
  else
    let amount := amount - 1 in
    let exponent := amount mod 10 in
    let amount := amount / 10 in
    let n := if exponent <? 9 then
               let lastDigit := amount mod 9 + 1 in
               u64 (amount / 9 * 10 + lastDigit)
             else u64 (amount + 1) in
    applyExponent (Z.to_nat exponent) n.

(** ** Scripts *)

Definition OP_DATA_20 : Z := 0x14.
Definition OP_DATA_33 : Z := 0x21.
Definition OP_DATA_65 : Z := 0x41.
Definition OP_DUP : Z := 0x76.
Definition OP_EQUAL : Z := 0x87.
Definition OP_EQUALVERIFY : Z := 0x88.
Definition OP_HASH160 : Z := 0xa9.
Definition OP_CHECKSIG : Z := 0xac.

Definition cstPayToPubKeyHash : Z := 0.
Definition cstPayToScriptHash : Z := 1.
Definition cstPayToPubKeyComp2 : Z := 2.
Definition cstPayToPubKeyComp3 : Z := 3.
Definition cstPayToPubKeyUncomp4 : Z := 4.
Definition cstPayToPubKeyUncomp5 : Z := 5.
Definition numSpecialScripts : Z := 6.

(** The two results of the recognisers, [(true, data)], are [Some data]. *)
Definition isPubKeyHash (script : list Z) : option (list Z) :=
  if (zlen script =? 25) && (nth 0 script 0 =? OP_DUP) && (nth 1 script 0 =? OP_HASH160)
     && (nth 2 script 0 =? OP_DATA_20) && (nth 23 script 0 =? OP_EQUALVERIFY)
     && (nth 24 script 0 =? OP_CHECKSIG)
  then Some (slice 3 23 script) else None.

Definition isScriptHash (script : list Z) : option (list Z) :=
  if (zlen script =? 23) && (nth 0 script 0 =? OP_HASH160) && (nth 1 script 0 =? OP_DATA_20)
     && (nth 22 script 0 =? OP_EQUAL)
  then Some (slice 2 22 script) else None.

(** Public keys as btcec parses and prints them. *)
Class KeyCodec := {
  PubKey : Type;
  ParsePubKey : list Z -> option PubKey;
  SerializeUncompressed : PubKey -> list Z }.

(** Point decompression, as btcec documents it: a valid uncompressed key is
    recovered from its x coordinate and the oddness of its y coordinate. *)
Class RecoversKeys {codec : KeyCodec} : Prop := recovers : forall X Y key,
  length X = 32%nat -> length Y = 32%nat -> ParsePubKey (4 :: X ++ Y) = Some key ->
  exists key', ParsePubKey (2 + nth 31 Y 0 mod 2 :: X) = Some key' /\
               SerializeUncompressed key' = 4 :: X ++ Y.

Section keys.
Context {codec : KeyCodec}.

Definition isPubKey (script : list Z) : option (list Z) :=
  if (zlen script =? 35) && (nth 0 script 0 =? OP_DATA_33) && (nth 34 script 0 =? OP_CHECKSIG)
     && ((nth 1 script 0 =? 0x02) || (nth 1 script 0 =? 0x03))
     && bool_decide (is_Some (ParsePubKey (slice 1 34 script)))
  then Some (slice 1 34 script)
  else if (zlen script =? 67) && (nth 0 script 0 =? OP_DATA_65) && (nth 66 script 0 =? OP_CHECKSIG)
     && (nth 1 script 0 =? 0x04) && bool_decide (is_Some (ParsePubKey (slice 1 66 script)))
  then Some (slice 1 66 script)
  else None.

Definition compressedScriptSize (pkScript : list Z) : Z :=
  match isPubKeyHash pkScript with
  | Some _ => 21
  | None =>
      match isScriptHash pkScript with
      | Some _ => 21
      | None =>
          match isPubKey pkScript with
          | Some _ => 33
          | None => serializeSizeVLQ (u64 (zlen pkScript + numSpecialScripts)) + zlen pkScript
          end
      end
  end.

Definition putCompressedScript (pkScript : list Z) : list Z :=
  match isPubKeyHash pkScript with
  | Some hash => cstPayToPubKeyHash :: hash
  | None =>
      match isScriptHash pkScript with
      | Some hash => cstPayToScriptHash :: hash
      | None =>
          let general := putVLQ (u64 (zlen pkScript + numSpecialScripts)) ++ pkScript in
          match isPubKey pkScript with
          | Some serializedPubKey =>
              let pubKeyFormat := nth 0 serializedPubKey 0 in
              if (pubKeyFormat =? 0x02) || (pubKeyFormat =? 0x03)
              then pubKeyFormat :: slice 1 33 serializedPubKey
              else if pubKeyFormat =? 0x04
              then Z.lor pubKeyFormat (Z.land (nth 64 serializedPubKey 0) 0x01) :: slice 1 33 serializedPubKey
              else general
          | None => general
          end
      end
  end.

Definition decodeCompressedScriptSize (serialized : list Z) : Z :=
  let '(scriptSize, bytesRead) := deserializeVLQ serialized in
  if bytesRead =? 0 then 0
  else if (scriptSize =? cstPayToPubKeyHash) || (scriptSize =? cstPayToScriptHash) then 21
  else if (scriptSize =? cstPayToPubKeyComp2) || (scriptSize =? cstPayToPubKeyComp3)
          || (scriptSize =? cstPayToPubKeyUncomp4) || (scriptSize =? cstPayToPubKeyUncomp5) then 33
  else i64 (scriptSize - numSpecialScripts + bytesRead).

Definition decompressScript (compressedPkScript : list Z) : result chainio_error (list Z) :=
  if zlen compressedPkScript =? 0 then Ok []
  else
    let '(encodedScriptSize, bytesRead) := deserializeVLQ compressedPkScript in
    if encodedScriptSize =? cstPayToPubKeyHash then
      hash ← sliceZ bytesRead (bytesRead + 20) compressedPkScript;
      Ok ([OP_DUP; OP_HASH160; OP_DATA_20] ++ hash ++ [OP_EQUALVERIFY; OP_CHECKSIG])
    else if encodedScriptSize =? cstPayToScriptHash then
      hash ← sliceZ bytesRead (bytesRead + 20) compressedPkScript;
      Ok ([OP_HASH160; OP_DATA_20] ++ hash ++ [OP_EQUAL])
    else if (encodedScriptSize =? cstPayToPubKeyComp2) || (encodedScriptSize =? cstPayToPubKeyComp3) then
      x ← sliceZ bytesRead (bytesRead + 32) compressedPkScript;
      Ok ([OP_DATA_33; encodedScriptSize] ++ x ++ [OP_CHECKSIG])
    else if (encodedScriptSize =? cstPayToPubKeyUncomp4) || (encodedScriptSize =? cstPayToPubKeyUncomp5) then
      let compressedKey := (encodedScriptSize - 2) :: take 32 (drop 1 compressedPkScript ++ replicate 32 0) in
      match ParsePubKey compressedKey with
      | None => Ok []
      | Some key => Ok ([OP_DATA_65] ++ SerializeUncompressed key ++ [OP_CHECKSIG])
      end
    else
      let scriptSize := i64 (encodedScriptSize - numSpecialScripts) in
      sliceZ bytesRead (bytesRead + scriptSize) compressedPkScript.

(** ** Outputs *)

Definition compressedTxOutSize (amount : Z) (pkScript : list Z) : Z :=
  serializeSizeVLQ (compressTxOutAmount amount) + compressedScriptSize pkScript.

Definition putCompressedTxOut (amount : Z) (pkScript : list Z) : list Z :=
  putVLQ (compressTxOutAmount amount) ++ putCompressedScript pkScript.

(** Amount, script, and the number of bytes read. *)
Definition decodeCompressedTxOut (serialized : list Z) : result chainio_error (Z * list Z * Z) :=
  let '(compressedAmount, bytesRead) := deserializeVLQ serialized in
  if zlen serialized <=? bytesRead
  then Err (ErrDeserialize "unexpected end of data after compressed amount")
  else
    let rest := drop (Z.to_nat bytesRead) serialized in
    let scriptSize := decodeCompressedScriptSize rest in
    if zlen rest <? scriptSize
    then Err (ErrDeserialize "unexpected end of data after script size")
    else
      compressed ← sliceZ 0 scriptSize rest;
      script ← decompressScript compressed;
      Ok (decompressTxOutAmount compressedAmount, script, bytesRead + scriptSize).
End keys.

(** ** VLQ: proofs *)

(** The encoding of [n] with the continuation bit set on every byte, as it
    stands in front of a lower digit. *)
Fixpoint vlqHigh (fuel : nat) (n : Z) : list Z :=
  match fuel with
  | O => []
  | S fuel' =>
      if n <=? 127 then [128 + n]
      else vlqHigh fuel' (n / 128 - 1) ++ [128 + n mod 128]
  end.

Lemma land_127 n : Z.land n 0x7f = n mod 128.
Proof. exact (Z.land_ones n 7 ltac:(lia)). Qed.

Lemma lor_128 d : 0 <= d < 128 -> Z.lor d 0x80 = 128 + d.
Proof.
  intros Hd. pose proof (Z.add_lor_land d 0x80) as H.
  assert (Z.land d 0x80 = 0) as H0; [|lia].
  clear H. change 0x80 with (2^7). apply Z.bits_inj'. intros k Hk.
  rewrite Z.land_spec, Z.bits_0, Z.pow2_bits_eqb by lia.
  destruct (Z.eqb_spec 7 k) as [<-|]; [|by rewrite andb_false_r].
  rewrite andb_true_r. destruct (Z.eq_dec d 0) as [->|]; [apply Z.bits_0|].
  apply Z.bits_above_log2; [lia|]. apply Z.log2_lt_pow2; lia.
Qed.

Lemma reverse_putVLQLoop fuel offset n :
  0 < offset -> 0 <= n -> reverse (putVLQLoop fuel offset n) = vlqHigh fuel n.
Proof.
  revert offset n; induction fuel as [|fuel IH]; intros offset n Ho Hn; [done|].
  cbn [putVLQLoop vlqHigh]. destruct (Z.eqb_spec offset 0); [lia|].
  pose proof (Z.mod_pos_bound n 128 ltac:(lia)).
  rewrite land_127, lor_128 by lia. change 0x7f with 127. destruct (Z.leb_spec n 127).
  - by rewrite Z.mod_small by lia.
  - rewrite Z.shiftr_div_pow2 by lia. change (2^7) with 128.
    rewrite reverse_cons, IH; [done|lia|]. assert (1 <= n / 128) by (apply Z.div_le_lower_bound; lia). lia.
Qed.

Lemma putVLQLoop_S fuel offset n :
  putVLQLoop (S fuel) offset n
  = let b := Z.lor (Z.land n 0x7f) (if offset =? 0 then 0x00 else 0x80) in
    if n <=? 0x7f then [b] else b :: putVLQLoop fuel (offset + 1) (Z.shiftr n 7 - 1).
Proof. done. Qed.

Lemma putVLQ_high n :
  0 <= n -> putVLQ n = if n <=? 127 then [n] else vlqHigh 9 (n / 128 - 1) ++ [n mod 128].
Proof.
  intros Hn. unfold putVLQ. rewrite (putVLQLoop_S 9), Z.eqb_refl, land_127, Z.lor_0_r. cbv zeta.
  change 0x7f with 127. destruct (Z.leb_spec n 127).
  - by rewrite Z.mod_small by lia.
  - rewrite Z.shiftr_div_pow2 by lia. change (2^7) with 128.
    rewrite reverse_cons, reverse_putVLQLoop; [done|lia|].
    assert (1 <= n / 128) by (apply Z.div_le_lower_bound; lia). lia.
Qed.

Lemma land_128_low d : 0 <= d < 128 -> Z.land d 0x80 = 0.
Proof. intros Hd. pose proof (Z.add_lor_land d 0x80). rewrite lor_128 in H by done. lia. Qed.

Lemma land_128_high d : 0 <= d < 128 -> Z.land (128 + d) 0x80 = 0x80.
Proof.
  intros Hd. rewrite <- lor_128 by done. apply Z.bits_inj'. intros k Hk.
  rewrite Z.land_spec, Z.lor_spec. by destruct (Z.testbit 128 k); rewrite ?orb_true_r, ?andb_false_r.
Qed.

Lemma land_127_high d : 0 <= d < 128 -> Z.land (128 + d) 0x7f = d.
Proof.
  intros Hd. rewrite land_127. replace (128 + d) with (d + 1 * 128) by lia.
  rewrite Z.mod_add, Z.mod_small; lia.
Qed.

(** One digit read: the accumulator moves up by seven bits. *)
Lemma vlq_digit q d : 0 <= q -> 0 <= d < 128 -> q * 128 + d < 2^64 ->
  Z.lor (u64 (Z.shiftl q 7)) d = q * 128 + d.
Proof.
  intros Hq Hd Hb. rewrite Z.shiftl_mul_pow2 by lia. change (2^7) with 128.
  rewrite u64_id by (widths; lia).
  pose proof (Z.add_lor_land (q * 128) d) as H.
  assert (Z.land (q * 128) d = 0) as H0; [|lia]. clear H. apply Z.bits_inj'. intros k Hk.
  rewrite Z.land_spec, Z.bits_0. change 128 with (2^7).
  destruct (Z.ltb_spec k 7).
  - by rewrite Z.mul_pow2_bits_low.
  - rewrite andb_comm. destruct (Z.eq_dec d 0) as [->|]; [by rewrite Z.bits_0|].
    rewrite Z.bits_above_log2; [done|lia|]. assert (Z.log2 d < 7) by (apply Z.log2_lt_pow2; lia). lia.
Qed.

Lemma deserialize_high fuel m rest size :
  0 <= m < 2^63 -> m + 1 < 128 ^ Z.of_nat fuel ->
  deserializeVLQLoop (vlqHigh fuel m ++ rest) 0 size
  = deserializeVLQLoop rest (m + 1) (size + zlen (vlqHigh fuel m)).
Proof.
  revert m rest; induction fuel as [|fuel IH]; intros m rest Hm Hf; [cbn in Hf; lia|].
  rewrite Nat2Z.inj_succ, Z.pow_succ_r in Hf by lia. cbn [vlqHigh]. destruct (Z.leb_spec m 127).
  - cbn [app deserializeVLQLoop]. rewrite land_128_high by lia. change (0x80 =? 0x80) with true. cbn [negb].
    rewrite land_127_high, vlq_digit by lia. rewrite u64_id by (widths; lia). done.
  - assert (1 <= m / 128) by (apply Z.div_le_lower_bound; lia).
    assert (m / 128 < 128 ^ Z.of_nat fuel) by (apply Z.div_lt_upper_bound; lia).
    pose proof (Z.div_mod m 128 ltac:(lia)). pose proof (Z.mod_pos_bound m 128 ltac:(lia)).
    rewrite <- app_assoc, IH by lia. cbn [app deserializeVLQLoop].
    rewrite land_128_high by lia. change (0x80 =? 0x80) with true. cbn [negb]. rewrite land_127_high by lia.
    replace (m / 128 - 1 + 1) with (m / 128) by lia.
    rewrite vlq_digit by lia. rewrite u64_id by (widths; lia). rewrite zlen_app.
    f_equal; [lia|]. rewrite (Z.add_assoc size). done.
Qed.

Lemma length_vlqHigh fuel m size :
  0 <= m -> m + 1 < 128 ^ Z.of_nat fuel -> size + zlen (vlqHigh fuel m) = sizeVLQLoop fuel m (size + 1).
Proof.
  revert m size; induction fuel as [|fuel IH]; intros m size Hm Hf; [cbn in Hf; lia|].
  rewrite Nat2Z.inj_succ, Z.pow_succ_r in Hf by lia. cbn [vlqHigh sizeVLQLoop]. change 0x7f with 127.
  destruct (Z.leb_spec m 127), (Z.ltb_spec 127 m); try lia; [done|].
  assert (1 <= m / 128) by (apply Z.div_le_lower_bound; lia).
  assert (m / 128 < 128 ^ Z.of_nat fuel) by (apply Z.div_lt_upper_bound; lia).
  rewrite Z.shiftr_div_pow2 by lia. change (2^7) with 128.
  rewrite zlen_app, <- IH by lia. change (zlen [_]) with 1. lia.
Qed.

Lemma deserializeVLQ_put n rest :
  is_u64 n -> deserializeVLQ (putVLQ n ++ rest) = (n, zlen (putVLQ n)).
Proof.
  intros Hn. widths. rewrite putVLQ_high by lia. unfold deserializeVLQ. destruct (Z.leb_spec n 127).
  - cbn [app deserializeVLQLoop]. rewrite land_128_low, land_127, Z.mod_small by lia. done.
  - assert (1 <= n / 128) by (apply Z.div_le_lower_bound; lia).
    assert (n / 128 < 2^57) by (apply Z.div_lt_upper_bound; lia).
    pose proof (Z.div_mod n 128 ltac:(lia)). pose proof (Z.mod_pos_bound n 128 ltac:(lia)).
    rewrite <- app_assoc, deserialize_high by lia. cbn [app deserializeVLQLoop].
    rewrite land_128_low, land_127, Z.mod_mod by lia. replace (n / 128 - 1 + 1) with (n / 128) by lia.
    rewrite vlq_digit by lia. rewrite zlen_app. change (zlen [_]) with 1. cbn [negb Z.eqb]. f_equal. lia.
Qed.

Lemma sizeVLQLoop_S fuel n size :
  sizeVLQLoop (S fuel) n size
  = if 0x7f <? n then sizeVLQLoop fuel (Z.shiftr n 7 - 1) (size + 1) else size.
Proof. done. Qed.

Lemma zlen_putVLQ n : is_u64 n -> zlen (putVLQ n) = serializeSizeVLQ n.
Proof.
  intros Hn. widths. rewrite putVLQ_high by lia. unfold serializeSizeVLQ. rewrite (sizeVLQLoop_S 9).
  change 0x7f with 127. destruct (Z.leb_spec n 127), (Z.ltb_spec 127 n); try lia; [done|].
  assert (1 <= n / 128) by (apply Z.div_le_lower_bound; lia).
  assert (n / 128 < 2^57) by (apply Z.div_lt_upper_bound; lia).
  rewrite zlen_app, Z.shiftr_div_pow2 by lia. change (2^7) with 128. change (zlen [_]) with 1.
  rewrite <- length_vlqHigh by lia. lia.
Qed.

Lemma sizeVLQLoop_le fuel n size : sizeVLQLoop fuel n size <= size + Z.of_nat fuel.
Proof.
  revert n size; induction fuel as [|fuel IH]; intros n size; [cbn; lia|].
  rewrite sizeVLQLoop_S, Nat2Z.inj_succ. destruct (0x7f <? n); [|lia].
  specialize (IH (Z.shiftr n 7 - 1) (size + 1)). lia.
Qed.

Lemma putVLQ_not_nil n : is_u64 n -> 0 < zlen (putVLQ n).
Proof.
  intros Hn. widths. rewrite putVLQ_high by lia. destruct (n <=? 127); [done|].
  rewrite zlen_app. change (zlen [_]) with 1. pose proof (zlen_nonneg (vlqHigh 9 (n / 128 - 1))). lia.
Qed.

(** The byte order of the encodings is not the order of the numbers, whatever
    the comment on UTXO keys in chainio.go says: the first three-byte quantity
    sorts before the last two-byte one. Only that zero is the least is used. *)
Example putVLQ_order : bytes_compare (putVLQ 16512) (putVLQ 16511) = Lt.
Proof. vm_compute. reflexivity. Qed.

(** ** Amounts: proofs *)

Lemma stripZeros_spec fuel a e a' e' :
  stripZeros fuel a e = (a', e') -> 0 <= e <= 9 -> 10 <= e + Z.of_nat fuel ->
  a = a' * 10 ^ (e' - e) /\ e <= e' <= 9 /\ (e' < 9 -> a' mod 10 <> 0).
Proof.
  revert a e; induction fuel as [|fuel IH]; intros a e; cbn [stripZeros]; [lia|].
  destruct (Z.eqb_spec (a mod 10) 0) as [Ha|Ha]; cbn [andb].
  - destruct (Z.ltb_spec e 9).
    + intros Hs He Hf. destruct (IH (a / 10) (e + 1) Hs) as (E & He' & Hd); [lia|lia|].
      split; [|split; [lia|done]]. pose proof (Z.div_mod a 10 ltac:(lia)).
      replace (e' - e) with (Z.succ (e' - (e + 1))) by lia. rewrite Z.pow_succ_r by lia. lia.
    + intros [= <- <-] He Hf. rewrite Z.sub_diag. split; [lia|]. split; [lia|lia].
  - intros [= <- <-] He Hf. rewrite Z.sub_diag. split; [lia|]. split; [lia|done].
Qed.

Lemma applyExponent_spec e n : 0 <= n -> n * 10 ^ Z.of_nat e < 2^64 -> applyExponent e n = n * 10 ^ Z.of_nat e.
Proof.
  revert n; induction e as [|e IH]; intros n Hn Hb; [cbn; lia|].
  rewrite Nat2Z.inj_succ, Z.pow_succ_r in * by lia. cbn [applyExponent].
  assert (0 < 10 ^ Z.of_nat e) by (apply Z.pow_pos_nonneg; lia).
  rewrite u64_id by (widths; nia). rewrite IH by nia. lia.
Qed.

Lemma compressTxOutAmount_range a : 0 <= a < 2^60 -> is_u64 (compressTxOutAmount a).
Proof.
  intros Ha. unfold compressTxOutAmount. destruct (a =? 0); [done|].
  destruct (stripZeros 10 a 0) as [a' e]. destruct (e <? 9); apply u64_range.
Qed.

Lemma decompress_compress a : 0 <= a < 2^60 -> decompressTxOutAmount (compressTxOutAmount a) = a.
Proof.
  intros Ha. unfold compressTxOutAmount. destruct (Z.eqb_spec a 0) as [->|Hne]; [done|].
  destruct (stripZeros 10 a 0) as [a' e] eqn:Es.
  destruct (stripZeros_spec _ _ _ _ _ Es) as (E & He & Hd); [lia|lia|]. rewrite Z.sub_0_r in E.
  assert (0 < 10 ^ e) by (apply Z.pow_pos_nonneg; lia). assert (0 < a' <= a) by nia.
  assert (Hexp : applyExponent (Z.to_nat e) a' = a).
  { rewrite applyExponent_spec; rewrite ?Z2Nat.id by lia; lia. }
  destruct (Z.ltb_spec e 9).
  - specialize (Hd ltac:(lia)). pose proof (Z.div_mod a' 10 ltac:(lia)).
    pose proof (Z.mod_pos_bound a' 10 ltac:(lia)). set (q := a' / 10) in *. set (d := a' mod 10) in *.
    rewrite u64_id by (widths; lia). unfold decompressTxOutAmount.
    destruct (Z.eqb_spec (1 + 10 * (9 * q + d - 1) + e) 0); [lia|].
    replace (1 + 10 * (9 * q + d - 1) + e - 1) with (e + (9 * q + d - 1) * 10) by lia.
    rewrite Z.mod_add, Z.div_add, Z.mod_small, (Z.div_small e) by lia. destruct (Z.ltb_spec e 9); [|lia].
    replace (0 + (9 * q + d - 1)) with (d - 1 + q * 9) by lia.
    rewrite Z.mod_add, Z.div_add, Z.mod_small, (Z.div_small (d - 1)) by lia.
    rewrite u64_id by (widths; lia). replace ((0 + q) * 10 + (d - 1 + 1)) with a' by lia. done.
  - assert (e = 9) as -> by lia. change (10 ^ 9) with 1000000000 in *.
    rewrite u64_id by (widths; lia). unfold decompressTxOutAmount.
    destruct (Z.eqb_spec (10 + 10 * (a' - 1)) 0); [lia|].
    replace (10 + 10 * (a' - 1) - 1) with (9 + (a' - 1) * 10) by lia.
    rewrite Z.mod_add, Z.div_add by lia. change (9 mod 10) with 9. change (9 / 10) with 0.
    change (9 <? 9) with false. cbn match. rewrite u64_id by (widths; lia).
    replace (0 + (a' - 1) + 1) with a' by lia. done.
Qed.

(** ** Scripts: proofs *)

Lemma slice_nth i j (l : list Z) :
  (i <= j <= length l)%nat -> slice i j l = map (fun k => nth k l 0) (seq i (j - i)).
Proof.
  intros Hij. unfold slice. apply list_eq. intros n. change (map ?f ?k) with (f <$> k).
  rewrite list_lookup_fmap. destruct (decide (n < j - i)%nat) as [Hn|Hn].
  - rewrite lookup_take_lt, lookup_drop, lookup_seq_lt by lia. cbn [fmap option_fmap option_map].
    destruct (lookup_lt_is_Some_2 l (i + n)) as [x Hx]; [lia|]. rewrite Hx. f_equal. symmetry.
    by apply nth_lookup_Some.
  - rewrite lookup_take_ge, lookup_seq_ge by lia. done.
Qed.

Lemma list_nth (l : list Z) n : length l = n -> l = map (fun k => nth k l 0) (seq 0 n).
Proof.
  intros <-. pose proof (slice_nth 0 (length l) l ltac:(lia)) as H. rewrite Nat.sub_0_r in H.
  rewrite <- H. unfold slice. rewrite drop_0, take_ge; [done|lia].
Qed.

Ltac script_shape :=
  rewrite ?andb_true_iff, ?orb_true_iff, ?Z.eqb_eq, ?bool_decide_eq_true in *.

Lemma isPubKeyHash_Some script hash :
  isPubKeyHash script = Some hash ->
  script = [OP_DUP; OP_HASH160; OP_DATA_20] ++ hash ++ [OP_EQUALVERIFY; OP_CHECKSIG] /\ length hash = 20%nat.
Proof.
  unfold isPubKeyHash. case_match eqn:E; [|done]. intros [= <-]. script_shape.
  destruct E as (((((Hl & H0) & H1) & H2) & H3) & H4). unfold zlen in Hl.
  assert (length script = 25%nat) as Hn by lia. split.
  - rewrite slice_nth by lia. rewrite <- H0, <- H1, <- H2, <- H3, <- H4. by apply (list_nth _ 25).
  - unfold slice. rewrite length_take, length_drop. lia.
Qed.

Lemma isScriptHash_Some script hash :
  isScriptHash script = Some hash ->
  script = [OP_HASH160; OP_DATA_20] ++ hash ++ [OP_EQUAL] /\ length hash = 20%nat.
Proof.
  unfold isScriptHash. case_match eqn:E; [|done]. intros [= <-]. script_shape.
  destruct E as (((Hl & H0) & H1) & H2). unfold zlen in Hl.
  assert (length script = 23%nat) as Hn by lia. split.
  - rewrite slice_nth by lia. rewrite <- H0, <- H1, <- H2. by apply (list_nth _ 23).
  - unfold slice. rewrite length_take, length_drop. lia.
Qed.

Section key_proofs.
Context {codec : KeyCodec}.

Lemma isPubKey_Some script key :
  isPubKey script = Some key ->
  is_Some (ParsePubKey key) /\
  ((exists f X, (f = 2 \/ f = 3) /\ key = f :: X /\ length X = 32%nat /\ script = [OP_DATA_33] ++ key ++ [OP_CHECKSIG]) \/
   (exists X Y, key = 4 :: X ++ Y /\ length X = 32%nat /\ length Y = 32%nat /\
                script = [OP_DATA_65] ++ key ++ [OP_CHECKSIG])).
Proof.
  unfold isPubKey. case_match eqn:E; [|clear E; case_match eqn:E; [|done]]; intros [= <-]; script_shape.
  - destruct E as ((((Hl & H0) & H1) & H2) & Hp). split; [done|]. left. unfold zlen in Hl.
    assert (length script = 35%nat) as Hn by lia.
    exists (nth 1 script 0), (slice 2 34 script). split; [done|]. rewrite !slice_nth by lia.
    split; [done|]. split; [done|]. rewrite <- H0, <- H1. by apply (list_nth _ 35).
  - destruct E as ((((Hl & H0) & H1) & H2) & Hp). split; [done|]. right. unfold zlen in Hl.
    assert (length script = 67%nat) as Hn by lia.
    exists (slice 2 34 script), (slice 34 66 script). rewrite !slice_nth by lia.
    split; [by rewrite <- H2|]. split; [done|]. split; [done|].
    rewrite <- H0, <- H1. by apply (list_nth _ 67).
Qed.

Lemma putCompressedScript_size script :
  zlen script + numSpecialScripts < 2^64 ->
  zlen (putCompressedScript script) = compressedScriptSize script.
Proof.
  intros Hb. unfold putCompressedScript, compressedScriptSize, numSpecialScripts in *.
  pose proof (zlen_nonneg script).
  destruct (isPubKeyHash script) eqn:E1; [apply isPubKeyHash_Some in E1 as [_ E1]; unfold zlen; cbn; lia|].
  destruct (isScriptHash script) eqn:E2; [apply isScriptHash_Some in E2 as [_ E2]; unfold zlen; cbn; lia|].
  destruct (isPubKey script) as [key|] eqn:E3.
  - apply isPubKey_Some in E3 as [_ [(f & X & Hf & -> & HX & _)|(X & Y & -> & HX & HY & _)]].
    + destruct Hf as [-> | ->]; cbn -[zlen slice]; rewrite zlen_cons, slice_nth by (cbn; lia); done.
    + cbn -[zlen slice Z.lor]. rewrite zlen_cons, slice_nth by (cbn; rewrite length_app; lia). done.
  - rewrite zlen_app, zlen_putVLQ by apply u64_range. done.
Qed.
Context {codec_ok : RecoversKeys}.

#[local] Ltac script_tag :=
  unfold cstPayToPubKeyHash, cstPayToScriptHash, cstPayToPubKeyComp2, cstPayToPubKeyComp3,
    cstPayToPubKeyUncomp4, cstPayToPubKeyUncomp5; cbn [Z.eqb Pos.eqb orb Z.add Pos.add].

Lemma deserializeVLQ_small c rest : 0 <= c < 128 -> deserializeVLQ (c :: rest) = (c, 1).
Proof.
  intros Hc. unfold deserializeVLQ. cbn [deserializeVLQLoop].
  rewrite land_128_low, land_127, Z.mod_small by lia. done.
Qed.

Lemma sliceZ_app a b c i j :
  i = zlen a -> j = i + zlen b -> sliceZ i j (a ++ b ++ c) = Ok b.
Proof.
  intros -> ->. unfold sliceZ. rewrite !zlen_app.
  pose proof (zlen_nonneg a). pose proof (zlen_nonneg b). pose proof (zlen_nonneg c).
  destruct (Z.leb_spec 0 (zlen a)), (Z.leb_spec (zlen a) (zlen a + zlen b)),
    (Z.leb_spec (zlen a + zlen b) (zlen a + (zlen b + zlen c))); try lia. cbn [andb].
  replace (zlen a + zlen b - zlen a) with (zlen b) by lia. unfold zlen. rewrite !Nat2Z.id.
  by rewrite drop_app_length, take_app_length.
Qed.

Lemma sliceZ_tail a b i j : i = zlen a -> j = i + zlen b -> sliceZ i j (a ++ b) = Ok b.
Proof. intros Hi Hj. rewrite <- (app_nil_r b) at 1. by apply sliceZ_app. Qed.

Lemma parity4 y : Z.lor 4 (Z.land y 1) = 4 + y mod 2.
Proof.
  change (Z.land y 1) with (Z.land y (Z.ones 1)). rewrite Z.land_ones by lia. change (2^1) with 2.
  pose proof (Z.mod_pos_bound y 2 ltac:(lia)). destruct (Z.eq_dec (y mod 2) 0) as [->|]; [done|].
  by assert (y mod 2 = 1) as -> by lia.
Qed.

Lemma decompress_general script rest :
  zlen script < 2^62 ->
  let bs := putVLQ (u64 (zlen script + numSpecialScripts)) ++ script in
  decodeCompressedScriptSize (bs ++ rest) = zlen bs /\
  decompressScript bs = Ok script.
Proof.
  intros Hl. cbv zeta. pose proof (zlen_nonneg script). unfold numSpecialScripts.
  rewrite u64_id by (widths; lia). remember (zlen script + 6) as n eqn:En.
  assert (is_u64 n) as Hn by (widths; lia). pose proof (putVLQ_not_nil n Hn) as H0.
  pose proof (sizeVLQLoop_le 10 n 1) as Hle. rewrite <- (zlen_putVLQ n Hn : _ = sizeVLQLoop 10 n 1) in Hle.
  split.
  - unfold decodeCompressedScriptSize. rewrite <- app_assoc, deserializeVLQ_put by done.
    unfold cstPayToPubKeyHash, cstPayToScriptHash, cstPayToPubKeyComp2, cstPayToPubKeyComp3,
      cstPayToPubKeyUncomp4, cstPayToPubKeyUncomp5, numSpecialScripts.
    destruct (Z.eqb_spec (zlen (putVLQ n)) 0); [lia|].
    destruct (Z.eqb_spec n 0), (Z.eqb_spec n 1), (Z.eqb_spec n 2), (Z.eqb_spec n 3), (Z.eqb_spec n 4),
      (Z.eqb_spec n 5); try lia. cbn [orb].
    rewrite zlen_app, i64_id; [lia|widths; lia].
  - unfold decompressScript. rewrite zlen_app, deserializeVLQ_put by done.
    unfold cstPayToPubKeyHash, cstPayToScriptHash, cstPayToPubKeyComp2, cstPayToPubKeyComp3,
      cstPayToPubKeyUncomp4, cstPayToPubKeyUncomp5, numSpecialScripts.
    destruct (Z.eqb_spec (zlen (putVLQ n) + zlen script) 0); [lia|].
    destruct (Z.eqb_spec n 0), (Z.eqb_spec n 1), (Z.eqb_spec n 2), (Z.eqb_spec n 3), (Z.eqb_spec n 4),
      (Z.eqb_spec n 5); try lia. cbn [orb].
    rewrite i64_id by (widths; lia). apply sliceZ_tail; [done|lia].
Qed.

(** The special forms: a tag and a fixed number of bytes. *)
Lemma decode_special c data rest :
  0 <= c < 6 -> zlen data = (if c <? 2 then 20 else 32) ->
  decodeCompressedScriptSize ((c :: data) ++ rest) = zlen (c :: data).
Proof.
  intros Hc Hd. unfold decodeCompressedScriptSize. cbn [app].
  rewrite deserializeVLQ_small by lia. rewrite zlen_cons, Hd.
  assert (c = 0 \/ c = 1 \/ c = 2 \/ c = 3 \/ c = 4 \/ c = 5) as [-> | [-> | [-> | [-> | [-> | ->]]]]] by lia; done.
Qed.

Lemma putCompressedScript_roundtrip script rest :
  zlen script < 2^62 ->
  decodeCompressedScriptSize (putCompressedScript script ++ rest)
  = zlen (putCompressedScript script) /\
  decompressScript (putCompressedScript script) = Ok script.
Proof.
  intros Hl. unfold putCompressedScript.
  destruct (isPubKeyHash script) as [hash|] eqn:E1.
  { apply isPubKeyHash_Some in E1 as [-> Hh]. assert (zlen hash = 20) as Hz by (unfold zlen; lia).
    split; [by apply decode_special|]. unfold decompressScript. rewrite zlen_cons, Hz, deserializeVLQ_small by done.
    cbn [Z.eqb Z.add Pos.add]. change (cstPayToPubKeyHash =? cstPayToPubKeyHash) with true. cbn match.
    rewrite (sliceZ_tail [cstPayToPubKeyHash] hash) by (rewrite ?Hz; done). done. }
  destruct (isScriptHash script) as [hash|] eqn:E2.
  { apply isScriptHash_Some in E2 as [-> Hh]. assert (zlen hash = 20) as Hz by (unfold zlen; lia).
    split; [by apply decode_special|]. unfold decompressScript. rewrite zlen_cons, Hz, deserializeVLQ_small by done.
    rewrite (sliceZ_tail [cstPayToScriptHash] hash) by (rewrite ?Hz; done). done. }
  destruct (isPubKey script) as [key|] eqn:E3; [|by apply decompress_general].
  apply isPubKey_Some in E3 as [[pk Hpk] [(f & X & Hf & -> & HX & ->)|(X & Y & -> & HX & HY & ->)]].
  - assert (zlen X = 32) as Hz by (unfold zlen; lia).
    assert (slice 1 33 (f :: X) = X) as -> by (change (take 32 X = X); apply take_ge; lia).
    destruct Hf as [-> | ->]; cbn [nth Z.eqb Pos.eqb orb]; (split; [by apply decode_special|]);
      unfold decompressScript; rewrite zlen_cons, Hz, deserializeVLQ_small by done; script_tag;
      [rewrite (sliceZ_tail [2] X) by (rewrite ?Hz; done)|rewrite (sliceZ_tail [3] X) by (rewrite ?Hz; done)]; done.
  - assert (zlen X = 32) as Hz by (unfold zlen; lia). change (nth 0 (4 :: X ++ Y) 0) with 4.
    change ((4 =? 2) || (4 =? 3)) with false. change (4 =? 4) with true. cbn match.
    assert (slice 1 33 (4 :: X ++ Y) = X) as ->.
    { change (take 32 (X ++ Y) = X). by apply take_app_length'. }
    assert (nth 64 (4 :: X ++ Y) 0 = nth 31 Y 0) as ->.
    { change (nth 64 (4 :: X ++ Y) 0) with (nth 63 (X ++ Y) 0). rewrite app_nth2 by lia. by rewrite HX. }
    rewrite parity4. destruct (recovers X Y pk HX HY Hpk) as (key' & Hp & Hs).
    pose proof (Z.mod_pos_bound (nth 31 Y 0) 2 ltac:(lia)) as Hm.
    assert (nth 31 Y 0 mod 2 = 0 \/ nth 31 Y 0 mod 2 = 1) as [E|E] by lia; rewrite E in *;
      (split; [by apply decode_special|]); unfold decompressScript;
      rewrite zlen_cons, Hz, deserializeVLQ_small by done; script_tag; cbn [drop];
      rewrite drop_0, take_app_le, take_ge by lia; [change (4 + 0 - 2) with (2 + 0)|change (4 + 1 - 2) with (2 + 1)];
      by rewrite Hp, Hs.
Qed.

(** ** Outputs: proofs *)

Lemma putCompressedScript_not_nil script : 0 < zlen (putCompressedScript script).
Proof.
  unfold putCompressedScript.
  destruct (isPubKeyHash script) as [h|]; [rewrite zlen_cons; pose proof (zlen_nonneg h); lia|].
  destruct (isScriptHash script) as [h|]; [rewrite zlen_cons; pose proof (zlen_nonneg h); lia|].
  assert (0 < zlen (putVLQ (u64 (zlen script + numSpecialScripts)) ++ script)).
  { rewrite zlen_app. pose proof (putVLQ_not_nil (u64 (zlen script + numSpecialScripts)) (u64_range _)).
    pose proof (zlen_nonneg script). lia. }
  destruct (isPubKey script); [|done].
  case_match; [rewrite zlen_cons; pose proof (zlen_nonneg (slice 1 33 l)); lia|].
  case_match; [rewrite zlen_cons; pose proof (zlen_nonneg (slice 1 33 l)); lia|done].
Qed.

Lemma decodeCompressedTxOut_put amount script rest :
  0 <= amount < 2^60 -> zlen script < 2^62 ->
  decodeCompressedTxOut (putCompressedTxOut amount script ++ rest)
  = Ok (amount, script, zlen (putCompressedTxOut amount script)).
Proof.
  intros Ha Hs. unfold decodeCompressedTxOut, putCompressedTxOut. set (c := compressTxOutAmount amount).
  assert (Hc : is_u64 c) by by apply compressTxOutAmount_range.
  rewrite <- app_assoc, deserializeVLQ_put by done. rewrite !zlen_app.
  set (bs := putCompressedScript script).
  pose proof (putCompressedScript_not_nil script : 0 < zlen bs). pose proof (zlen_nonneg rest).
  destruct (putCompressedScript_roundtrip script rest Hs) as [Hsize Hdec]. fold bs in Hsize, Hdec.
  destruct (Z.leb_spec (zlen (putVLQ c) + (zlen bs + zlen rest)) (zlen (putVLQ c))); [lia|].
  replace (drop (Z.to_nat (zlen (putVLQ c))) (putVLQ c ++ bs ++ rest)) with (bs ++ rest)
    by (unfold zlen; by rewrite Nat2Z.id, drop_app_length).
  cbv zeta. rewrite Hsize, zlen_app. destruct (Z.ltb_spec (zlen bs + zlen rest) (zlen bs)); [lia|].
  rewrite (sliceZ_app [] bs rest) by done. result_simpl. rewrite Hdec. result_simpl.
  unfold c. rewrite decompress_compress by done. done.
Qed.

Lemma zlen_putCompressedTxOut amount script :
  0 <= amount < 2^60 -> zlen script < 2^62 ->
  zlen (putCompressedTxOut amount script) = compressedTxOutSize amount script.
Proof.
  intros Ha Hs. unfold putCompressedTxOut, compressedTxOutSize.
  rewrite zlen_app, zlen_putVLQ, putCompressedScript_size;
    [done|unfold numSpecialScripts; lia|by apply compressTxOutAmount_range].
Qed.
End key_proofs.

(** A codec for concrete examples: keys are an x coordinate and a bit, and the
    y coordinate is that bit. *)
Definition bitCodec : KeyCodec := {|
  PubKey := list Z * Z;
  ParsePubKey := fun bs =>
    match bs with
    | f :: rest =>
        if ((f =? 2) || (f =? 3)) && (zlen rest =? 32) then Some (rest, f - 2)
        else if (f =? 4) && (zlen rest =? 64) then
          let y := drop 32 rest in
          if bool_decide (y = replicate 31 0 ++ [0]) then Some (take 32 rest, 0)
          else if bool_decide (y = replicate 31 0 ++ [1]) then Some (take 32 rest, 1)
          else None
        else None
    | [] => None
    end;
  SerializeUncompressed := fun k => 4 :: k.1 ++ replicate 31 0 ++ [k.2] |}.

Lemma bitCodec_recovers : @RecoversKeys bitCodec.
Proof.
  intros X Y key HX HY Hp. cbn [ParsePubKey bitCodec] in Hp. cbn [Z.eqb Pos.eqb orb andb] in Hp.
  rewrite (drop_app_length' X Y 32) in Hp by done.
  assert (HY2 : exists b, (b = 0 \/ b = 1) /\ Y = replicate 31 0 ++ [b]).
  { destruct (zlen (X ++ Y) =? 64); [|discriminate].
    destruct (decide (Y = replicate 31 0 ++ [0])) as [E0|E0]; [by exists 0; auto|].
    rewrite bool_decide_false in Hp by exact E0.
    destruct (decide (Y = replicate 31 0 ++ [1])) as [E1|E1]; [by exists 1; auto|].
    rewrite bool_decide_false in Hp by exact E1. discriminate. }
  destruct HY2 as (b & Hb & ->). exists (X, b).
  assert ((zlen X =? 32) = true) as Hz by (unfold zlen; lia).
  destruct Hb as [-> | ->]; cbn -[zlen Z.eqb replicate app]; rewrite Hz; split; reflexivity.
Qed.
