(* ===== verification/Bucket.v ===== *)
(** * Buckets of the database

    A bucket is a map from byte strings to byte strings; its cursor visits the
    keys in byte order, as src/database/interface.go documents. What the
    components that store a map in a bucket share: the bucket that indexes a map
    under an injective key ([index_of]), what a cursor visits, where it seeks. *)

From S2P Require Import Prelude.

Abbreviation Bucket := (gmap (list Z) (list Z)).

(** A cursor over a bucket: the keys from its position on, in byte order. *)
Definition cursorFirst (b : Bucket) : list (list Z) := merge_sort bytes_le (map fst (map_to_list b)).

Fixpoint seekIn (seekKey : list Z) (keys : list (list Z)) : list (list Z) :=
  match keys with
  | [] => []
  | k :: keys' => match bytes_compare k seekKey with Lt => seekIn seekKey keys' | _ => keys end
  end.

Definition cursorSeek (b : Bucket) (seekKey : list Z) : list (list Z) :=
  seekIn seekKey (cursorFirst b).

Lemma filter_all {A} (P : A -> bool) l : Forall (fun x => P x = true) l -> List.filter P l = l.
Proof. induction 1 as [|x l Hx _ IH]; [done|]. cbn [List.filter]. by rewrite Hx, IH. Qed.

Lemma filter_map {A B} (P : B -> bool) (f : A -> B) l :
  List.filter P (map f l) = map f (List.filter (fun x => P (f x)) l).
Proof.
  induction l as [|x l IH]; [done|]. cbn [map List.filter]. rewrite IH. by destruct (P (f x)).
Qed.

Lemma filter_filter {A} (P Q : A -> bool) l :
  List.filter P (List.filter Q l) = List.filter (fun x => Q x && P x) l.
Proof.
  induction l as [|x l IH]; [done|]. cbn [List.filter].
  destruct (Q x); cbn [andb List.filter]; by rewrite IH.
Qed.

Lemma filter_eq {A} (P Q : A -> bool) l :
  Forall (fun x => P x = Q x) l -> List.filter P l = List.filter Q l.
Proof. induction 1 as [|x l Hx _ IH]; [done|]. cbn [List.filter]. by rewrite Hx, IH. Qed.

(** The cursor visits every key of the bucket. *)
Lemma elem_of_cursorFirst b k : k ∈ cursorFirst b <-> is_Some (b !! k).
Proof.
  unfold cursorFirst. rewrite merge_sort_Permutation. change (map fst ?l) with (l.*1).
  rewrite list_elem_of_fmap. split.
  - intros ([k' v] & -> & H%elem_of_map_to_list). by exists v.
  - intros [v H]. exists (k, v). by rewrite elem_of_map_to_list.
Qed.

(** ** Seeking

    The keys from [s] on, and the keys after it. *)

Definition notBelow (s k : list Z) : bool := match bytes_compare k s with Lt => false | _ => true end.
Definition above (s k : list Z) : bool := match bytes_compare k s with Gt => true | _ => false end.

Lemma above_trans s k k' : notBelow s k = true -> bytes_compare k k' = Lt -> above s k' = true.
Proof.
  unfold notBelow, above. intros H1 H2. rewrite (bytes_compare_antisym s k').
  destruct (bytes_compare s k') eqn:E; [| done |]; exfalso.
  - apply bytes_compare_eq in E as ->. by rewrite H2 in H1.
  - assert (bytes_compare k s <> Gt) as Hk.
    { apply (bytes_compare_trans k k' s); [by rewrite H2|].
      rewrite bytes_compare_antisym, E. done. }
    destruct (bytes_compare k s) eqn:E2; try done.
    apply bytes_compare_eq in E2 as ->. by rewrite E in H2.
Qed.

Lemma sorted_above s k keys :
  notBelow s k = true -> Forall (fun k' => bytes_compare k k' = Lt) keys ->
  Forall (fun k' => above s k' = true) keys.
Proof. intros Hk Hs. eapply Forall_impl; [exact Hs|]. intros k'. by apply above_trans. Qed.

Lemma above_notBelow s k : above s k = true -> notBelow s k = true.
Proof. unfold above, notBelow. by destruct (bytes_compare k s). Qed.

Lemma seekIn_sorted s keys :
  StronglySorted (fun k k' => bytes_compare k k' = Lt) keys ->
  seekIn s keys = List.filter (notBelow s) keys.
Proof.
  induction 1 as [|k keys Hs IH Hk]; [done|]. cbn [seekIn List.filter].
  destruct (bytes_compare k s) eqn:E; unfold notBelow at 1; rewrite E; [|done|];
    f_equal; symmetry; apply filter_all; eapply Forall_impl;
    [apply (sorted_above s k); [unfold notBelow; by rewrite E|exact Hk]|intros; by apply above_notBelow
    |apply (sorted_above s k); [unfold notBelow; by rewrite E|exact Hk]|intros; by apply above_notBelow].
Qed.

(** The key a seek stops at is the least of those not below the key sought. *)
Lemma seekIn_first s keys :
  StronglySorted (fun k k' => bytes_compare k k' = Lt) keys ->
  match seekIn s keys with
  | [] => Forall (fun k => notBelow s k = false) keys
  | k :: _ => k ∈ keys /\ notBelow s k = true /\
              Forall (fun k' => notBelow s k' = true -> bytes_compare k k' <> Gt) keys
  end.
Proof.
  induction 1 as [|k keys Hs IH Hk]; [constructor|]. cbn [seekIn].
  assert (Hhere : notBelow s k = true ->
    k ∈ k :: keys /\ notBelow s k = true /\
    Forall (fun k' => notBelow s k' = true -> bytes_compare k k' <> Gt) (k :: keys)).
  { intros H. split; [by left|]. split; [done|]. constructor; [by rewrite bytes_compare_refl|].
    eapply Forall_impl; [exact Hk|]. intros k' ->. done. }
  destruct (bytes_compare k s) eqn:E; [apply Hhere; unfold notBelow; by rewrite E| |apply Hhere; unfold notBelow; by rewrite E].
  assert (Hb : notBelow s k = false) by (unfold notBelow; by rewrite E).
  destruct (seekIn s keys) as [|k1 ks]; [by constructor|]. destruct IH as (H1 & H2 & H3).
  split; [by right|]. split; [done|]. constructor; [by rewrite Hb|done].
Qed.

(** Seeking a key and stepping over it if it is there: the keys above it. *)
Lemma seekAfter_sorted s keys :
  StronglySorted (fun k k' => bytes_compare k k' = Lt) keys ->
  match seekIn s keys with
  | k :: keys' => if bool_decide (k = s) then keys' else k :: keys'
  | [] => []
  end = List.filter (above s) keys.
Proof.
  induction 1 as [|k keys Hs IH Hk]; [done|]. cbn [seekIn List.filter].
  assert (Hall : notBelow s k = true -> List.filter (above s) keys = keys).
  { intros H. apply filter_all. by apply (sorted_above s k). }
  destruct (bytes_compare k s) eqn:E; unfold above at 1; rewrite E; [|done|].
  - apply bytes_compare_eq in E as ->. rewrite bool_decide_true by done. symmetry. apply Hall.
    unfold notBelow. by rewrite bytes_compare_refl.
  - rewrite bool_decide_false; [|intros ->; by rewrite bytes_compare_refl in E].
    f_equal. symmetry. apply Hall. unfold notBelow. by rewrite E.
Qed.

(** ** A bucket that indexes a map

    Bucket [b] holds, for every entry [x ↦ y] of the map, the value [g x y]
    under the key [f x y], and nothing else. *)

Section index_of.
Context {K V : Type} `{Countable K}.
Context (f g : K -> V -> list Z) (P : K -> V -> Prop).

Definition index_of (m : gmap K V) (b : Bucket) : Prop :=
  forall k v, b !! k = Some v <-> exists x y, m !! x = Some y /\ k = f x y /\ v = g x y.

Context (f_inj : forall x y x' y', P x y -> P x' y' -> f x y = f x' y' -> x = x').

Lemma index_of_lookup m b x y : index_of m b -> m !! x = Some y -> b !! f x y = Some (g x y).
Proof. intros Hb Hx. apply Hb. eauto. Qed.

Lemma index_of_empty : index_of ∅ ∅.
Proof. intros k v. rewrite lookup_empty. split; [done|]. by intros (x & y & ? & _). Qed.

Lemma index_of_unique m b b' : index_of m b -> index_of m b' -> b = b'.
Proof.
  intros H1 H2. apply map_eq. intros k.
  destruct (b !! k) as [v|] eqn:E; symmetry.
  - by apply H2, H1.
  - destruct (b' !! k) as [v|] eqn:E'; [|done]. apply H2, H1 in E'. congruence.
Qed.

Lemma index_of_insert m b x y :
  map_Forall P m -> P x y -> m !! x = None -> index_of m b ->
  index_of (<[x := y]> m) (<[f x y := g x y]> b).
Proof.
  intros HP Hxy Hx Hb k v. destruct (decide (k = f x y)) as [->|Hne].
  - rewrite lookup_insert_eq. split.
    + intros [= <-]. exists x, y. by rewrite lookup_insert_eq.
    + intros (x' & y' & H1 & H2 & ->). destruct (decide (x' = x)) as [->|Hne].
      * rewrite lookup_insert_eq in H1. by simplify_eq.
      * rewrite lookup_insert_ne in H1 by done. destruct Hne.
        symmetry. eapply f_inj; [done| |done]. by apply HP.
  - rewrite lookup_insert_ne by done. rewrite (Hb k v). split.
    + intros (x' & y' & H1 & H2 & H3). exists x', y'.
      rewrite lookup_insert_ne; [done|]. intros ->. congruence.
    + intros (x' & y' & H1 & -> & ->). exists x', y'.
      destruct (decide (x' = x)) as [->|Hne']; [|by rewrite lookup_insert_ne in H1].
      rewrite lookup_insert_eq in H1. by simplify_eq.
Qed.

Lemma index_of_delete m b x y :
  map_Forall P m -> m !! x = Some y -> index_of m b ->
  index_of (delete x m) (delete (f x y) b).
Proof.
  intros HP Hx Hb k v. rewrite lookup_delete_Some, (Hb k v). split.
  - intros (Hne & x' & y' & H1 & -> & ->). exists x', y'. rewrite lookup_delete_Some.
    split_and!; try done. intros ->. congruence.
  - intros (x' & y' & H1 & -> & ->). apply lookup_delete_Some in H1 as [Hne H1].
    split; [|eauto]. intros Heq. apply Hne. eapply f_inj; [by apply HP|by apply HP|done].
Qed.

Definition keyOf (p : K * V) : list Z := f p.1 p.2.

(** The cursor visits the keys of the entries, each once, in increasing order. *)
Lemma cursorFirst_index m b :
  map_Forall P m -> index_of m b ->
  exists L, cursorFirst b = map keyOf L /\ L ≡ₚ map_to_list m /\
            StronglySorted (fun p q => bytes_compare (keyOf p) (keyOf q) = Lt) L.
Proof.
  intros Hwf Hb.
  assert (HP : cursorFirst b ≡ₚ map keyOf (map_to_list m)).
  { apply NoDup_Permutation.
    - unfold cursorFirst. rewrite merge_sort_Permutation. apply NoDup_fst_map_to_list.
    - apply NoDup_fmap_2_strong; [|apply NoDup_map_to_list].
      intros [x y] [x' y'] H1%elem_of_map_to_list H2%elem_of_map_to_list Hk.
      assert (x = x') as -> by (eapply f_inj; [by apply Hwf|by apply Hwf|exact Hk]).
      congruence.
    - intros k. rewrite elem_of_cursorFirst. change (map keyOf ?l) with (keyOf <$> l).
      rewrite list_elem_of_fmap. split.
      + intros [v (x & y & Hx & -> & _)%Hb]. exists (x, y). by rewrite elem_of_map_to_list.
      + intros ([x y] & -> & Hx%elem_of_map_to_list). exists (g x y). apply Hb. by exists x, y. }
  symmetry in HP. apply Permutation_sym, Permutation_map_inv in HP as (L & EL & HPL).
  exists L. split; [done|]. split; [done|].
  assert (Hs : StronglySorted bytes_le (map keyOf L)).
  { rewrite <- EL. apply StronglySorted_merge_sort; apply _. }
  assert (Hnd : NoDup (map keyOf L)).
  { rewrite <- EL. unfold cursorFirst. rewrite merge_sort_Permutation. apply NoDup_fst_map_to_list. }
  clear EL HPL. induction L as [|p L IH]; [constructor|]. cbn [map] in Hs, Hnd.
  apply StronglySorted_inv in Hs as [Hs Hp]. apply NoDup_cons in Hnd as [Hni Hnd].
  constructor; [by apply IH|]. apply Forall_forall. intros q Hq.
  rewrite Forall_forall in Hp. specialize (Hp (keyOf q)). unfold bytes_le in Hp.
  assert (Hin : keyOf q ∈ map keyOf L) by (by apply list_elem_of_fmap_2).
  specialize (Hp Hin). destruct (bytes_compare (keyOf p) (keyOf q)) eqn:E; [|done|done].
  apply bytes_compare_eq in E. rewrite E in Hni. done.
Qed.
End index_of.
