(* ===== verification/IndexDB.v ===== *)
(** * The buckets of the expiry index

    src/blockchain/expiryindex/buckets.go and accumulator.go, with the two
    operations of expiryindex.go that write one entry ([putTxOutMapping]) and
    erase one ([disconnectTxOut]).

    [Get] answers nil exactly for a missing key, [Put] and
    [Delete] fail only in read-only transactions, which this code never writes
    in: both are what src/database/interface.go documents. A bucket that was not
    created is [None].

    The refinement: the four entry buckets represent one map from outpoints to
    expiry key and amount ([represents]); writing an entry for an outpoint that
    has none refines insertion, erasing refines deletion, and a map is
    represented by one content only. *)

From S2P Require Import Prelude ChainParams Sha256 Wire Encode MuHash Bucket.

Record IndexDB := mkIndexDB {
  bktExpiryMeta : option Bucket;
  bktOutpoint2Expiry : option Bucket;
  bktExpiry2Outpoints : option Bucket;
  bktReapStrictCandidates : option Bucket;
  bktOutpoint2ReapStrict : option Bucket }.

Definition keyTipHeightIndexed : list Z := string_bytes "tip-height".
Definition keyIndexVersion : list Z := string_bytes "version".
Definition keyAccumulatorState : list Z := string_bytes "accumulator-state".
Definition keyAccumulatorTipHash : list Z := string_bytes "accumulator-tip-hash".

Definition CurrentIndexVersion : Z := 6.
Definition DefaultBatchSize : nat := 1000.

Inductive ei_error :=
| BucketMissing (name : string)
| InvalidTipHeightEncoding (got : nat)
| InvalidVersionEncoding (got : nat)
| InvalidAccumulator (got : nat)
| InvalidTipHash (got : nat)
| EncodeError (e : encode_error)
| InconsistentIndex (what : string)
| StxoOutOfRange
| ErrBadExpiryCommitmentDuplicate
| ErrBadExpiryCommitmentMissing
| ErrBadExpiryCommitmentFormat
| ErrBadExpiryCommitmentMismatch
| IndexDisabled
| ParamsMissing
| ChainNotSet
| ChainError
| RuntimePanic (what : string).

(** Errors of the encoding functions, in the index's error type. *)
Definition liftEncode {A} (r : result encode_error A) : result ei_error A :=
  match r with Ok a => Ok a | Err e => Err (EncodeError e) end.

(** A call that panics in the source. *)
Definition orPanic {A} (what : string) (o : option A) : result ei_error A :=
  match o with Some a => Ok a | None => Err (RuntimePanic what) end.

Definition needBucket (name : string) (b : option Bucket) : result ei_error Bucket :=
  match b with Some b => Ok b | None => Err (BucketMissing name) end.

(** ** Metadata *)

Definition withMeta (db : IndexDB) (b : Bucket) : IndexDB :=
  mkIndexDB (Some b) (bktOutpoint2Expiry db) (bktExpiry2Outpoints db)
    (bktReapStrictCandidates db) (bktOutpoint2ReapStrict db).

Definition dbPutIndexMeta (db : IndexDB) (key value : list Z) : result ei_error IndexDB :=
  b ← needBucket "expiry-meta" (bktExpiryMeta db);
  Ok (withMeta db (<[key := value]> b)).

(** [None] inside [Ok] is the nil slice of a missing key. *)
Definition dbGetIndexMeta (db : IndexDB) (key : list Z) : result ei_error (option (list Z)) :=
  b ← needBucket "expiry-meta" (bktExpiryMeta db);
  Ok (b !! key).

Definition dbPutTipHeightIndexed (db : IndexDB) (height : Z) : result ei_error IndexDB :=
  dbPutIndexMeta db keyTipHeightIndexed (le_bytes 4 (u32 height)).

Definition dbGetTipHeightIndexed (db : IndexDB) : result ei_error Z :=
  heightBytes ← dbGetIndexMeta db keyTipHeightIndexed;
  match heightBytes with
  | None => Ok (-1)
  | Some bs => if negb (length bs =? 4)%nat then Err (InvalidTipHeightEncoding (length bs))
               else Ok (i32 (le_val bs))
  end.

Definition dbPutIndexVersion (db : IndexDB) (version : Z) : result ei_error IndexDB :=
  dbPutIndexMeta db keyIndexVersion (le_bytes 2 version).

Definition dbGetIndexVersion (db : IndexDB) : result ei_error Z :=
  versionBytes ← dbGetIndexMeta db keyIndexVersion;
  match versionBytes with
  | None => Ok 0
  | Some bs => if negb (length bs =? 2)%nat then Err (InvalidVersionEncoding (length bs))
               else Ok (le_val bs)
  end.

(** [CreateBucketIfNotExists] keeps a bucket that is there. *)
Definition createIfMissing (b : option Bucket) : option Bucket := Some (default ∅ b).

Definition createExpiryIndexBuckets (db : IndexDB) : IndexDB :=
  mkIndexDB (createIfMissing (bktExpiryMeta db)) (createIfMissing (bktOutpoint2Expiry db))
    (createIfMissing (bktExpiry2Outpoints db)) (createIfMissing (bktReapStrictCandidates db))
    (createIfMissing (bktOutpoint2ReapStrict db)).

(** [DeleteBucket] fails on a bucket that is not there; the caller rolls back. *)
Definition dropExpiryIndexBuckets (db : IndexDB) : result ei_error IndexDB :=
  _ ← needBucket "outpoint-to-reap-strict" (bktOutpoint2ReapStrict db);
  _ ← needBucket "reap-strict-candidates" (bktReapStrictCandidates db);
  _ ← needBucket "expiry-to-outpoints" (bktExpiry2Outpoints db);
  _ ← needBucket "outpoint-to-expiry" (bktOutpoint2Expiry db);
  _ ← needBucket "expiry-meta" (bktExpiryMeta db);
  Ok (mkIndexDB None None None None None).

(** ** The accumulator *)

Definition computeEntryData (op : OutPoint) (expiryKey : Z) : list Z :=
  Hash op ++ le_bytes 4 (Index op) ++ be_bytes 8 expiryKey.

Definition dbGetAccumulatorState (db : IndexDB) : result ei_error MuHash :=
  data ← dbGetIndexMeta db keyAccumulatorState;
  match data with
  | None => Ok NewMuHash
  | Some bs => match MuHashDeserialize bs with
               | Some mh => Ok mh
               | None => Err (InvalidAccumulator (length bs))
               end
  end.

Definition dbPutAccumulatorState (db : IndexDB) (mh : MuHash) : result ei_error IndexDB :=
  bs ← orPanic "muhash serialize" (MuHashSerialize mh);
  dbPutIndexMeta db keyAccumulatorState bs.

Definition dbGetAccumulatorTipHash (db : IndexDB) : result ei_error (list Z) :=
  data ← dbGetIndexMeta db keyAccumulatorTipHash;
  match data with
  | None => Ok zeroHash
  | Some bs => if negb (length bs =? HashSize)%nat then Err (InvalidTipHash (length bs))
               else Ok bs
  end.

Definition dbPutAccumulatorTipHash (db : IndexDB) (hash : option (list Z))
    : result ei_error IndexDB :=
  dbPutIndexMeta db keyAccumulatorTipHash (default zeroHash hash).

(** ** One entry *)

Definition putTxOutMapping (db : IndexDB) (outpoint : OutPoint) (expiryKey amount : Z)
    : result ei_error IndexDB :=
  outpointBucket ← needBucket "outpoint-to-expiry" (bktOutpoint2Expiry db);
  expiryBucket ← needBucket "expiry-to-outpoints" (bktExpiry2Outpoints db);
  reapBucket ← needBucket "reap-strict-candidates" (bktReapStrictCandidates db);
  reapOutpointBucket ← needBucket "outpoint-to-reap-strict" (bktOutpoint2ReapStrict db);
  let outpointBucket' := <[encodeOutPoint outpoint := encodeExpiryKey expiryKey]> outpointBucket in
  let compositeKey := encodeExpiryOutpointCompositeKey expiryKey outpoint in
  let expiryBucket' := <[compositeKey := emptyIndexValue]> expiryBucket in
  reapKey ← liftEncode (encodeReapStrictCompositeKey expiryKey amount outpoint);
  let reapBucket' := <[reapKey := emptyIndexValue]> reapBucket in
  let reapOutpointBucket' := <[encodeOutPoint outpoint := reapKey]> reapOutpointBucket in
  Ok (mkIndexDB (bktExpiryMeta db) (Some outpointBucket') (Some expiryBucket')
        (Some reapBucket') (Some reapOutpointBucket')).

Definition disconnectTxOut (db : IndexDB) (outpoint : OutPoint) : result ei_error IndexDB :=
  let encodedOutpoint := encodeOutPoint outpoint in
  outpointBucket ← needBucket "outpoint-to-expiry" (bktOutpoint2Expiry db);
  match outpointBucket !! encodedOutpoint with
  | None => Ok db
  | Some encodedExpiryKey =>
      expiryKey ← liftEncode (decodeExpiryKey encodedExpiryKey);
      expiryBucket ← needBucket "expiry-to-outpoints" (bktExpiry2Outpoints db);
      reapBucket ← needBucket "reap-strict-candidates" (bktReapStrictCandidates db);
      reapOutpointBucket ← needBucket "outpoint-to-reap-strict" (bktOutpoint2ReapStrict db);
      let compositeKey := encodeExpiryOutpointCompositeKey expiryKey outpoint in
      match expiryBucket !! compositeKey with
      | None => Err (InconsistentIndex "expiry composite key")
      | Some _ =>
          match reapOutpointBucket !! encodedOutpoint with
          | None => Err (InconsistentIndex "REAP strict key for outpoint")
          | Some reapKey =>
              match reapBucket !! reapKey with
              | None => Err (InconsistentIndex "REAP strict composite key")
              | Some _ =>
                  Ok (mkIndexDB (bktExpiryMeta db)
                        (Some (delete encodedOutpoint outpointBucket))
                        (Some (delete compositeKey expiryBucket))
                        (Some (delete reapKey reapBucket))
                        (Some (delete encodedOutpoint reapOutpointBucket)))
              end
          end
      end
  end.

(** ** The map the buckets represent *)

(** Expiry key and amount of an indexed outpoint. *)
Definition entry : Type := Z * Z.

Definition wf_entry (op : OutPoint) (ea : entry) : Prop :=
  wf_outpoint op /\ is_u64 ea.1 /\ is_amount ea.2.

Definition o2e_key (op : OutPoint) (ea : entry) : list Z := encodeOutPoint op.
Definition o2e_val (op : OutPoint) (ea : entry) : list Z := encodeExpiryKey ea.1.
Definition e2o_key (op : OutPoint) (ea : entry) : list Z := encodeExpiryOutpointCompositeKey ea.1 op.
Definition reap_key (op : OutPoint) (ea : entry) : list Z := reapStrictKeyBytes ea.1 ea.2 op.
Definition no_val (op : OutPoint) (ea : entry) : list Z := emptyIndexValue.

Record represents (db : IndexDB) (m : gmap OutPoint entry) : Prop := {
  rep_wf : map_Forall wf_entry m;
  rep_o2e : exists b, bktOutpoint2Expiry db = Some b /\ index_of o2e_key o2e_val m b;
  rep_e2o : exists b, bktExpiry2Outpoints db = Some b /\ index_of e2o_key no_val m b;
  rep_reap : exists b, bktReapStrictCandidates db = Some b /\ index_of reap_key no_val m b;
  rep_o2r : exists b, bktOutpoint2ReapStrict db = Some b /\ index_of o2e_key reap_key m b
}.

Lemma o2e_key_inj x y x' y' : wf_entry x y -> wf_entry x' y' -> o2e_key x y = o2e_key x' y' -> x = x'.
Proof. intros [] []. by apply encodeOutPoint_inj. Qed.

Lemma e2o_key_inj x y x' y' : wf_entry x y -> wf_entry x' y' -> e2o_key x y = e2o_key x' y' -> x = x'.
Proof. intros (?&?&?) (?&?&?) E. by eapply expiryComposite_inj in E as [_ ?]. Qed.

Lemma reap_key_inj x y x' y' :
  wf_entry x y -> wf_entry x' y' -> reap_key x y = reap_key x' y' -> x = x'.
Proof. intros (?&?&?) (?&?&?) E. by eapply reapStrictKeyBytes_inj in E as (_ & _ & ?). Qed.

Create HintDb index_db.
#[export] Hint Resolve o2e_key_inj e2o_key_inj reap_key_inj index_of_insert index_of_delete
  index_of_empty : index_db.

(** Two databases with the same entry buckets. *)
Definition same_entries (db db' : IndexDB) : Prop :=
  bktOutpoint2Expiry db = bktOutpoint2Expiry db' /\
  bktExpiry2Outpoints db = bktExpiry2Outpoints db' /\
  bktReapStrictCandidates db = bktReapStrictCandidates db' /\
  bktOutpoint2ReapStrict db = bktOutpoint2ReapStrict db'.

(** A map is represented by one content of the entry buckets. *)
Lemma represents_unique db db' m : represents db m -> represents db' m -> same_entries db db'.
Proof.
  intros [_ (b1 & E1 & H1) (b2 & E2 & H2) (b3 & E3 & H3) (b4 & E4 & H4)]
    [_ (c1 & F1 & G1) (c2 & F2 & G2) (c3 & F3 & G3) (c4 & F4 & G4)].
  unfold same_entries. rewrite E1, E2, E3, E4, F1, F2, F3, F4.
  split_and!; f_equal; by eapply index_of_unique.
Qed.

Lemma represents_meta db m b : represents db m -> represents (withMeta db b) m.
Proof. by intros []. Qed.

(** ** Writing an entry refines insertion *)

Lemma putTxOutMapping_refines db m op e a :
  represents db m -> wf_entry op (e, a) -> m !! op = None ->
  exists db', putTxOutMapping db op e a = Ok db' /\
    represents db' (<[op := (e, a)]> m) /\ bktExpiryMeta db' = bktExpiryMeta db.
Proof.
  intros [Hwf (b1 & E1 & H1) (b2 & E2 & H2) (b3 & E3 & H3) (b4 & E4 & H4)] Hop Hm.
  unfold putTxOutMapping. rewrite E1, E2, E3, E4. cbn [needBucket]. result_simpl.
  rewrite encodeReapStrict_Ok by apply Hop. cbn [liftEncode]. result_simpl.
  eexists. split; [done|]. split; [|done]. split; cbn; [|eexists; split; [done|]..].
  - by apply map_Forall_insert_2.
  - apply (index_of_insert o2e_key o2e_val wf_entry o2e_key_inj m b1 op (e, a)); done.
  - apply (index_of_insert e2o_key no_val wf_entry e2o_key_inj m b2 op (e, a)); done.
  - apply (index_of_insert reap_key no_val wf_entry reap_key_inj m b3 op (e, a)); done.
  - apply (index_of_insert o2e_key reap_key wf_entry o2e_key_inj m b4 op (e, a)); done.
Qed.

Lemma o2e_lookup m b op :
  map_Forall wf_entry m -> wf_outpoint op -> index_of o2e_key o2e_val m b ->
  b !! encodeOutPoint op = (fun ea : entry => encodeExpiryKey ea.1) <$> m !! op.
Proof.
  intros Hwf Hop Hb. destruct (m !! op) as [ea|] eqn:E; cbn.
  - by apply (index_of_lookup o2e_key o2e_val m b op ea).
  - apply eq_None_not_Some. intros [v Hv]. apply Hb in Hv as (x & y & Hx & Hk & _).
    apply encodeOutPoint_inj in Hk; [congruence|done|]. by apply (Hwf _ _ Hx).
Qed.

(** ** Erasing an entry refines deletion *)

Lemma disconnectTxOut_refines db m op :
  represents db m -> wf_outpoint op ->
  exists db', disconnectTxOut db op = Ok db' /\ represents db' (delete op m) /\
    bktExpiryMeta db' = bktExpiryMeta db.
Proof.
  intros Hrep Hop. pose proof Hrep as
    [Hwf (b1 & E1 & H1) (b2 & E2 & H2) (b3 & E3 & H3) (b4 & E4 & H4)].
  unfold disconnectTxOut. rewrite E1. cbn [needBucket]. result_simpl.
  rewrite (o2e_lookup m b1 op Hwf Hop H1).
  destruct (m !! op) as [[e a]|] eqn:Hm; cbn [fmap option_fmap option_map].
  2:{ exists db. by rewrite delete_id. }
  pose proof (Hwf _ _ Hm) as (_ & He & Ha). cbn [fst snd] in *.
  rewrite decodeExpiryKey_encode by done. cbn [liftEncode]. result_simpl.
  rewrite E2, E3, E4. cbn [needBucket]. result_simpl.
  change (encodeExpiryOutpointCompositeKey e op) with (e2o_key op (e, a)).
  rewrite (index_of_lookup _ _ _ _ _ _ H2 Hm).
  change (encodeOutPoint op) with (o2e_key op (e, a)).
  rewrite (index_of_lookup _ _ _ _ _ _ H4 Hm), (index_of_lookup _ _ _ _ _ _ H3 Hm).
  eexists. split; [done|]. split; [|done]. split; cbn; [|eexists; split; [done|]..].
  - by apply map_Forall_delete.
  - by apply (index_of_delete o2e_key o2e_val wf_entry o2e_key_inj m b1 op (e, a)).
  - by apply (index_of_delete e2o_key no_val wf_entry e2o_key_inj m b2 op (e, a)).
  - by apply (index_of_delete reap_key no_val wf_entry reap_key_inj m b3 op (e, a)).
  - by apply (index_of_delete o2e_key reap_key wf_entry o2e_key_inj m b4 op (e, a)).
Qed.

(** ** The accumulator follows the map *)

Definition entryData (p : OutPoint * entry) : list Z := computeEntryData p.1 p.2.1.

(** The fraction of a map: the product of its entries over 1. *)
Definition setHash (m : gmap OutPoint entry) : MuHash :=
  mkMuHash (product (map entryData (map_to_list m))) 1.

Definition acc_ok (mh : MuHash) (m : gmap OutPoint entry) : Prop :=
  mu_wf mh /\ mu_equiv mh (setHash m).

Lemma setHash_insert m op ea :
  m !! op = None -> Add (setHash m) (entryData (op, ea)) = Some (setHash (<[op := ea]> m)).
Proof.
  intros Hm. rewrite Add_eq. unfold setHash; cbn [numerator denominator]. do 2 f_equal.
  rewrite (map_to_list_insert m op ea Hm). done.
Qed.

Lemma acc_ok_empty : acc_ok NewMuHash ∅.
Proof.
  split; [apply NewMuHash_wf|]. unfold setHash. rewrite map_to_list_empty.
  apply mu_equiv_refl, invertible_1.
Qed.

Lemma acc_ok_add mh m op ea :
  acc_ok mh m -> m !! op = None ->
  exists mh', Add mh (entryData (op, ea)) = Some mh' /\ acc_ok mh' (<[op := ea]> m).
Proof.
  intros [Hwf Heq] Hm. eexists. split; [apply Add_eq|]. split; [split; [apply mulP_lt|apply Hwf]|].
  apply (applyOps_equiv mh (setHash m) [OpAdd (entryData (op, ea))] [OpAdd (entryData (op, ea))]);
    [exact Heq|constructor|constructor|reflexivity|..]; cbn [applyOps applyOp].
  - rewrite Add_eq. reflexivity.
  - rewrite (setHash_insert m op ea Hm). reflexivity.
Qed.

Lemma setHash_delete m op ea :
  m !! op = Some ea -> Add (setHash (delete op m)) (entryData (op, ea)) = Some (setHash m).
Proof.
  intros Hm. rewrite setHash_insert by apply lookup_delete_eq. by rewrite insert_delete_id.
Qed.

(** Removing what was just added changes no fraction. *)
Lemma Remove_Add_equiv m d m1 m2 :
  invertible (denominator m) -> invertible_data d ->
  Add m d = Some m1 -> Remove m1 d = Some m2 -> mu_equiv m2 m.
Proof.
  intros Hm Hd H1 H2.
  apply (applyOps_equiv m m [OpAdd d; OpRemove d] []);
    [by apply mu_equiv_refl|by repeat constructor|constructor|reflexivity| |reflexivity].
  cbn [applyOps applyOp]. rewrite H1. cbn [mbind option_bind]. rewrite H2. reflexivity.
Qed.

Lemma Remove_proper m1 m2 d m1' m2' :
  mu_equiv m1 m2 -> invertible_data d ->
  Remove m1 d = Some m1' -> Remove m2 d = Some m2' -> mu_equiv m1' m2'.
Proof.
  intros Heq Hd H1 H2.
  apply (applyOps_equiv m1 m2 [OpRemove d] [OpRemove d]);
    [done|by repeat constructor|by repeat constructor|reflexivity|..]; cbn [applyOps applyOp];
    [rewrite H1|rewrite H2]; reflexivity.
Qed.

Lemma acc_ok_remove mh m op ea :
  acc_ok mh m -> m !! op = Some ea -> invertible_data (entryData (op, ea)) ->
  exists mh', Remove mh (entryData (op, ea)) = Some mh' /\ acc_ok mh' (delete op m).
Proof.
  intros [Hwf Heq] Hm Hinv. pose proof (setHash_delete m op ea Hm) as Hadd.
  generalize dependent (entryData (op, ea)). intros d Hinv Hadd.
  eexists. split; [apply Remove_eq|].
  split; [split; [apply Hwf|apply mulP_lt]|].
  eapply mu_equiv_trans; [eapply (Remove_proper mh (setHash m) d)|eapply Remove_Add_equiv];
    [exact Heq|exact Hinv|apply Remove_eq|apply Remove_eq|apply invertible_1|exact Hinv|exact Hadd|].
  apply Remove_eq.
Qed.

Lemma acc_ok_digest mh m : acc_ok mh m -> Digest mh = Digest (setHash m).
Proof. intros [_ H]. by rewrite H. Qed.

Lemma acc_ok_Digest_Some mh m : acc_ok mh m -> exists root, Digest mh = Some root /\ length root = 32%nat.
Proof.
  intros [_ (H & _)]. eexists. split; [by apply Digest_Ok|apply Sha256.length_sum256].
Qed.
