(* ===== verification/Ledger.v ===== *)
(** * The ledger a chain of blocks describes

    The abstract specification that the UTXO view and the expiry index are
    proved against: a finite map from outpoints to coins, what a transaction and
    a block do to it, and how a block is undone from the coins it spent. Coins
    are [SpentTxOut] of src/blockchain/chainio.go, the record the spend journal
    keeps. Applying a transaction is partial: it is defined when every input is a
    live coin and no output overwrites one, which is what consensus checks
    (missing inputs are rejected, BIP 30 forbids duplicates). *)

From S2P Require Import Prelude Sha256 Wire Commitment Script Block.

Record SpentTxOut := mkSpentTxOut {
  stxo_Amount : Z;
  stxo_PkScript : list Z;
  stxo_Height : Z;
  stxo_IsCoinBase : bool }.

#[export] Instance SpentTxOut_eq_dec : EqDecision SpentTxOut.
Proof. solve_decision. Defined.

Abbreviation utxo_set := (gmap OutPoint SpentTxOut).

(** The outpoints a transaction spends, and the coins it creates. *)
Definition prevOuts (tx : MsgTx) : list OutPoint := map PreviousOutPoint (TxIns tx).

Definition txOutPoint (hash : list Z) (i : nat) : OutPoint := mkOutPoint hash (u32 (Z.of_nat i)).

Fixpoint newCoinsFrom (hash : list Z) (h : Z) (cb : bool) (i : nat) (outs : list TxOut)
    : list (OutPoint * SpentTxOut) :=
  match outs with
  | [] => []
  | o :: outs' =>
      (if IsUnspendable (PkScript o) then []
       else [(txOutPoint hash i, mkSpentTxOut (Value o) (PkScript o) h cb)])
      ++ newCoinsFrom hash h cb (S i) outs'
  end.

Definition newCoins (h : Z) (tx : MsgTx) : list (OutPoint * SpentTxOut) :=
  newCoinsFrom (TxHash tx) h (IsCoinBaseTx tx) 0 (TxOuts tx).

Fixpoint spendCoins (u : utxo_set) (ops : list OutPoint) : option (utxo_set * list SpentTxOut) :=
  match ops with
  | [] => Some (u, [])
  | op :: ops' =>
      c ← u !! op;
      '(u', cs) ← spendCoins (delete op u) ops';
      Some (u', c :: cs)
  end.

Fixpoint addCoins (u : utxo_set) (l : list (OutPoint * SpentTxOut)) : option utxo_set :=
  match l with
  | [] => Some u
  | (op, c) :: l' =>
      match u !! op with
      | Some _ => None
      | None => addCoins (<[op := c]> u) l'
      end
  end.

(** A transaction at height [h]: the ledger after it and the coins it spent. *)
Definition applyTx (h : Z) (u : utxo_set) (tx : MsgTx) : option (utxo_set * list SpentTxOut) :=
  '(u1, cs) ← (if IsCoinBaseTx tx then Some (u, []) else spendCoins u (prevOuts tx));
  u2 ← addCoins u1 (newCoins h tx);
  Some (u2, cs).

Fixpoint applyTxs (h : Z) (u : utxo_set) (txs : list MsgTx) : option (utxo_set * list SpentTxOut) :=
  match txs with
  | [] => Some (u, [])
  | tx :: txs' =>
      '(u1, cs) ← applyTx h u tx;
      '(u2, cs') ← applyTxs h u1 txs';
      Some (u2, cs ++ cs')
  end.

(** ** Undoing *)

Definition removeCoins (u : utxo_set) (l : list (OutPoint * SpentTxOut)) : utxo_set :=
  foldr (fun oc u => delete oc.1 u) u l.

Definition restoreCoins (u : utxo_set) (l : list (OutPoint * SpentTxOut)) : utxo_set :=
  foldr (fun oc u => <[oc.1 := oc.2]> u) u l.

Definition undoTx (h : Z) (u : utxo_set) (tx : MsgTx) (cs : list SpentTxOut) : utxo_set :=
  restoreCoins (removeCoins u (newCoins h tx))
    (if IsCoinBaseTx tx then [] else zip (prevOuts tx) cs).

Lemma addCoins_remove u l u' : addCoins u l = Some u' -> removeCoins u' l = u.
Proof.
  revert u; induction l as [|[op c] l IH]; intros u; cbn [addCoins].
  - by intros [= ->].
  - destruct (u !! op) eqn:E; [done|]. intros H%IH.
    change (removeCoins u' ((op, c) :: l)) with (delete op (removeCoins u' l)).
    by rewrite H, delete_insert_id.
Qed.

Lemma spendCoins_restore u ops u' cs :
  spendCoins u ops = Some (u', cs) -> restoreCoins u' (zip ops cs) = u /\ length cs = length ops.
Proof.
  revert u cs; induction ops as [|op ops IH]; intros u cs; cbn [spendCoins].
  - intros [= -> <-]. done.
  - destruct (u !! op) as [c|] eqn:E; [|done]. cbn [mbind option_bind].
    destruct (spendCoins (delete op u) ops) as [[u1 cs1]|] eqn:E1; [|done].
    cbn [mbind option_bind]. intros [= <- <-]. destruct (IH _ _ E1) as [H1 H2].
    change (restoreCoins u1 (zip (op :: ops) (c :: cs1)))
      with (<[op := c]> (restoreCoins u1 (zip ops cs1))).
    rewrite H1, insert_delete_id by done. cbn [length]. by rewrite H2.
Qed.

(** Undoing a transaction with the coins it spent gives the ledger before it. *)
Lemma undoTx_applyTx h u tx u' cs : applyTx h u tx = Some (u', cs) -> undoTx h u' tx cs = u.
Proof.
  unfold applyTx, undoTx. intros H.
  destruct (IsCoinBaseTx tx); cbn [mbind option_bind] in H.
  - destruct (addCoins u (newCoins h tx)) as [u2|] eqn:E; cbn in H; simplify_eq.
    by rewrite (addCoins_remove _ _ _ E).
  - destruct (spendCoins u (prevOuts tx)) as [[u1 cs1]|] eqn:E1; cbn in H; [|done].
    destruct (addCoins u1 (newCoins h tx)) as [u2|] eqn:E; cbn in H; simplify_eq.
    rewrite (addCoins_remove _ _ _ E). by apply spendCoins_restore.
Qed.

(** The number of journal entries a transaction has. *)
Definition spentCount (tx : MsgTx) : nat :=
  if IsCoinBaseTx tx then 0%nat else length (TxIns tx).

(** Undoing a block: the last transaction first. *)
Fixpoint undoTxs (h : Z) (u : utxo_set) (txs : list MsgTx) (cs : list SpentTxOut) : utxo_set :=
  match txs with
  | [] => u
  | tx :: txs' =>
      undoTx h (undoTxs h u txs' (drop (spentCount tx) cs)) tx (take (spentCount tx) cs)
  end.

(** A block as sanity checks leave it: a coinbase first and nowhere else. *)
Definition block_shape (txs : list MsgTx) : Prop :=
  match txs with
  | [] => False
  | cb :: rest => IsCoinBaseTx cb = true /\ Forall (fun tx => IsCoinBaseTx tx = false) rest
  end.

Lemma applyTx_count h u tx u' cs : applyTx h u tx = Some (u', cs) -> length cs = spentCount tx.
Proof.
  unfold applyTx, spentCount. intros H.
  destruct (IsCoinBaseTx tx); cbn [mbind option_bind] in H.
  - destruct (addCoins u (newCoins h tx)); cbn in H; by simplify_eq.
  - destruct (spendCoins u (prevOuts tx)) as [[u1 cs1]|] eqn:E1; cbn in H; [|done].
    destruct (addCoins u1 (newCoins h tx)); cbn in H; simplify_eq.
    destruct (spendCoins_restore _ _ _ _ E1) as [_ ->]. unfold prevOuts. by rewrite length_map.
Qed.

Lemma applyTxs_cons h u tx txs u' cs :
  applyTxs h u (tx :: txs) = Some (u', cs) ->
  exists u1 cs1 cs2, applyTx h u tx = Some (u1, cs1) /\ applyTxs h u1 txs = Some (u', cs2) /\
                     cs = cs1 ++ cs2.
Proof.
  cbn [applyTxs]. destruct (applyTx h u tx) as [[u1 cs1]|] eqn:E1; cbn [mbind option_bind]; [|done].
  destruct (applyTxs h u1 txs) as [[u2 cs2]|] eqn:E2; cbn [mbind option_bind]; [|done].
  intros [= -> <-]. eauto 10.
Qed.

Lemma applyTxs_app h u txs1 txs2 u' cs :
  applyTxs h u (txs1 ++ txs2) = Some (u', cs) ->
  exists u1 cs1 cs2, applyTxs h u txs1 = Some (u1, cs1) /\ applyTxs h u1 txs2 = Some (u', cs2) /\
                     cs = cs1 ++ cs2.
Proof.
  revert u cs; induction txs1 as [|tx txs1 IH]; intros u cs H.
  - by exists u, [], cs.
  - apply applyTxs_cons in H as (u1 & cs1 & cs2 & H1 & H2 & ->).
    destruct (IH _ _ H2) as (u3 & cs3 & cs4 & H3 & H4 & ->).
    exists u3, (cs1 ++ cs3), cs4. cbn [applyTxs]. rewrite H1. cbn [mbind option_bind]. rewrite H3.
    by rewrite app_assoc.
Qed.

(** Undoing a block with its spend journal gives the ledger before it. *)
Lemma undoTxs_applyTxs h u txs u' cs :
  applyTxs h u txs = Some (u', cs) -> undoTxs h u' txs cs = u.
Proof.
  revert u cs; induction txs as [|tx txs IH]; intros u cs H.
  - cbn in H. by simplify_eq.
  - apply applyTxs_cons in H as (u1 & cs1 & cs2 & H1 & H2 & ->). cbn [undoTxs].
    rewrite <- (applyTx_count _ _ _ _ _ H1), take_app_length, drop_app_length.
    rewrite (IH _ _ H2). by apply undoTx_applyTx.
Qed.

(** ** Spent and created coins *)

Lemma spendCoins_spec u ops u' cs :
  spendCoins u ops = Some (u', cs) ->
  Forall2 (fun op c => u !! op = Some c) ops cs /\ NoDup ops.
Proof.
  revert u cs; induction ops as [|op ops IH]; intros u cs; cbn [spendCoins].
  - intros [= -> <-]. split; constructor.
  - destruct (u !! op) as [c|] eqn:E; cbn [mbind option_bind]; [|done].
    destruct (spendCoins (delete op u) ops) as [[u1 cs1]|] eqn:E1; cbn [mbind option_bind]; [|done].
    intros [= <- <-]. destruct (IH _ _ E1) as [H1 H2]. split.
    + constructor; [done|]. eapply Forall2_impl; [done|].
      intros op' c' H. by apply lookup_delete_Some in H as [_ ?].
    + constructor; [|done]. intros Hin.
      apply list_elem_of_lookup in Hin as [i Hi].
      destruct (Forall2_lookup_l _ _ _ _ _ H1 Hi) as (c' & _ & Hc).
      by rewrite lookup_delete_eq in Hc.
Qed.

Lemma applyTxs_count h u txs u' cs :
  applyTxs h u txs = Some (u', cs) -> length cs = sum_list (map spentCount txs).
Proof.
  revert u cs; induction txs as [|tx txs IH]; intros u cs H.
  - cbn in H. by simplify_eq.
  - apply applyTxs_cons in H as (u1 & cs1 & cs2 & H1 & H2 & ->).
    rewrite length_app, (applyTx_count _ _ _ _ _ H1), (IH _ _ H2). done.
Qed.

Lemma spentCount_rest txs :
  Forall (fun tx => IsCoinBaseTx tx = false) txs ->
  map spentCount txs = map (fun tx => length (TxIns tx)) txs.
Proof.
  induction 1 as [|tx txs Htx _ IH]; [done|]. cbn [map]. rewrite IH.
  unfold spentCount at 1. by rewrite Htx.
Qed.

(** In a well-shaped block the journal has one entry per non-coinbase input. *)
Lemma applyTxs_journal_length h u txs u' cs :
  block_shape txs -> applyTxs h u txs = Some (u', cs) ->
  length cs = sum_list (map (fun tx => length (TxIns tx)) (drop 1 txs)).
Proof.
  intros Hsh H. rewrite (applyTxs_count _ _ _ _ _ H). destruct txs as [|cb rest]; [done|].
  destruct Hsh as [Hcb Hrest]. change (drop 1 (cb :: rest)) with rest.
  rewrite <- (spentCount_rest rest Hrest).
  change (sum_list (map spentCount (cb :: rest))) with (spentCount cb + sum_list (map spentCount rest))%nat.
  unfold spentCount at 1. by rewrite Hcb.
Qed.
