(* ===== verification/UtxoView.v ===== *)
(** * The UTXO view

    src/blockchain/utxoviewpoint.go: entries with their packed flags, adding
    outputs, connecting and disconnecting the transactions of a block, pruning.
    A view is a map from outpoints to entries; a nil entry of the source's map
    behaves like no entry everywhere it is read and is left out. The pointers of
    the map are not shared with other structures during these operations, so an
    update in place is an update of the map.

    The refinement: the live part of a view (its unspent entries, as coins)
    follows the ledger of Ledger.v through connecting a block and back. *)

From S2P Require Import Prelude Sha256 Wire Commitment Script Block Ledger.

Definition tfCoinBase : Z := 1.
Definition tfSpent : Z := 2.
Definition tfModified : Z := 4.
Definition tfFresh : Z := 8.

Record UtxoEntry := mkUtxoEntry {
  amount : Z;
  pkScript : list Z;
  blockHeight : Z;
  packedFlags : Z }.

#[export] Instance UtxoEntry_eq_dec : EqDecision UtxoEntry.
Proof. solve_decision. Defined.

Definition hasFlag (entry : UtxoEntry) (f : Z) : bool := Z.land (packedFlags entry) f =? f.

Definition isModified (entry : UtxoEntry) : bool := hasFlag entry tfModified.
Definition isFresh (entry : UtxoEntry) : bool := hasFlag entry tfFresh.
Definition IsCoinBase (entry : UtxoEntry) : bool := hasFlag entry tfCoinBase.
Definition IsSpent (entry : UtxoEntry) : bool := hasFlag entry tfSpent.

Definition Spend (entry : UtxoEntry) : UtxoEntry :=
  if IsSpent entry then entry
  else mkUtxoEntry (amount entry) (pkScript entry) (blockHeight entry)
         (Z.lor (packedFlags entry) (Z.lor tfSpent tfModified)).

Definition NewUtxoEntry (txOut : TxOut) (height : Z) (isCoinbase : bool) : UtxoEntry :=
  mkUtxoEntry (Value txOut) (PkScript txOut) height (if isCoinbase then tfCoinBase else 0).

Record UtxoViewpoint := mkUtxoViewpoint {
  entries : gmap OutPoint UtxoEntry;
  bestHash : list Z }.

Definition NewUtxoViewpoint : UtxoViewpoint := mkUtxoViewpoint ∅ zeroHash.

Definition setEntry (view : UtxoViewpoint) (op : OutPoint) (e : UtxoEntry) : UtxoViewpoint :=
  mkUtxoViewpoint (<[op := e]> (entries view)) (bestHash view).

Definition SetBestHash (view : UtxoViewpoint) (hash : list Z) : UtxoViewpoint :=
  mkUtxoViewpoint (entries view) hash.

Definition LookupEntry (view : UtxoViewpoint) (op : OutPoint) : option UtxoEntry :=
  entries view !! op.

Definition FetchPrevOutput (view : UtxoViewpoint) (op : OutPoint) : option TxOut :=
  e ← entries view !! op; Some (mkTxOut (amount e) (pkScript e)).

Definition addTxOut (view : UtxoViewpoint) (op : OutPoint) (txOut : TxOut)
    (isCoinBase : bool) (height : Z) : UtxoViewpoint :=
  if IsUnspendable (PkScript txOut) then view
  else
    setEntry view op
      (mkUtxoEntry (Value txOut) (PkScript txOut) height
         (Z.lor (Z.lor tfFresh tfModified) (if isCoinBase then tfCoinBase else 0))).

(** [AddTxOut]: one output, by its index. *)
Definition AddTxOutAt (view : UtxoViewpoint) (tx : MsgTx) (txOutIdx : Z) (height : Z)
    : UtxoViewpoint :=
  match TxOuts tx !! Z.to_nat txOutIdx with
  | None => view
  | Some txOut => addTxOut view (mkOutPoint (TxHash tx) txOutIdx) txOut (IsCoinBaseTx tx) height
  end.

Fixpoint AddTxOutsFrom (view : UtxoViewpoint) (hash : list Z) (isCoinBase : bool) (height : Z)
    (i : nat) (outs : list TxOut) : UtxoViewpoint :=
  match outs with
  | [] => view
  | o :: outs' =>
      AddTxOutsFrom (addTxOut view (txOutPoint hash i) o isCoinBase height)
        hash isCoinBase height (S i) outs'
  end.

Definition AddTxOuts (view : UtxoViewpoint) (tx : MsgTx) (height : Z) : UtxoViewpoint :=
  AddTxOutsFrom view (TxHash tx) (IsCoinBaseTx tx) height 0 (TxOuts tx).

Inductive view_error :=
| ViewMissingInput (op : OutPoint)
| BadSpentInformation
| CannotResurrect (op : OutPoint)
| StxoIndexPanic
| FetchError.

(** The journal entry of an entry being spent. *)
Definition entryStxo (e : UtxoEntry) : SpentTxOut :=
  mkSpentTxOut (amount e) (pkScript e) (blockHeight e) (IsCoinBase e).

(** The input loop of [connectTransaction]; [stxos] is the slice appended to. *)
Definition spendInput (st : UtxoViewpoint * list SpentTxOut) (op : OutPoint)
    : result view_error (UtxoViewpoint * list SpentTxOut) :=
  let '(view, stxos) := st in
  match entries view !! op with
  | None => Err (ViewMissingInput op)
  | Some e => Ok (setEntry view op (Spend e), stxos ++ [entryStxo e])
  end.

Definition connectTransaction (view : UtxoViewpoint) (tx : MsgTx) (height : Z)
    (stxos : list SpentTxOut) : result view_error (UtxoViewpoint * list SpentTxOut) :=
  if IsCoinBaseTx tx then Ok (AddTxOuts view tx height, stxos)
  else
    '(view1, stxos1) ← foldM spendInput (view, stxos) (prevOuts tx);
    Ok (AddTxOuts view1 tx height, stxos1).

Definition connectTransactions (view : UtxoViewpoint) (block : Block) (stxos : list SpentTxOut)
    : result view_error (UtxoViewpoint * list SpentTxOut) :=
  '(view1, stxos1) ← foldM (fun st tx => connectTransaction st.1 tx (Height block) st.2)
                       (view, stxos) (Transactions block);
  Ok (SetBestHash view1 (Block_Hash block), stxos1).

(** ** Disconnecting a block *)

Definition countSpentOutputs (block : Block) : nat :=
  sum_list (map (fun tx => length (TxIns tx)) (drop 1 (Transactions block))).

Definition MaxOutputsPerBlock : Z := 4000000 / (4 * 9).

(** [fetchEntryByHash]: the lowest index of [hash] the view knows, else what
    the database has ([dbFetch] is the read of the UTXO bucket). *)
Fixpoint lookupFrom (view : UtxoViewpoint) (hash : list Z) (idx : Z) (n : nat) : option UtxoEntry :=
  match n with
  | O => None
  | S n' =>
      match LookupEntry view (mkOutPoint hash idx) with
      | Some e => Some e
      | None => lookupFrom view hash (idx + 1) n'
      end
  end.

Section disconnect.
Context (dbFetch : list Z -> result view_error (option UtxoEntry)).

Definition fetchEntryByHash (view : UtxoViewpoint) (hash : list Z)
    : result view_error (option UtxoEntry) :=
  match lookupFrom view hash 0 (Z.to_nat MaxOutputsPerBlock) with
  | Some e => Ok (Some e)
  | None => dbFetch hash
  end.

(** The output loop: every spendable output of the transaction becomes spent. *)
Fixpoint unconnectOutputs (view : UtxoViewpoint) (hash : list Z) (height : Z) (flags : Z)
    (i : nat) (outs : list TxOut) : UtxoViewpoint :=
  match outs with
  | [] => view
  | o :: outs' =>
      let view' :=
        if IsUnspendable (PkScript o) then view
        else
          let prevOut := txOutPoint hash i in
          let e := match entries view !! prevOut with
                   | Some e => e
                   | None => mkUtxoEntry (Value o) (PkScript o) height flags
                   end in
          setEntry view prevOut (Spend e) in
      unconnectOutputs view' hash height flags (S i) outs'
  end.

(** The state of the input loop: the view, the journal entries not used yet
    (the last one first) and the ones used, as the loop leaves them. *)
Definition undoState : Type := UtxoViewpoint * list SpentTxOut * list SpentTxOut.

(** One input, going backwards: its journal entry restores the output. A
    height of 0 is the legacy journal format, looked up by the hash of the
    spending transaction. *)
Definition restoreInput (txHash : list Z) (st : undoState) (op : OutPoint)
    : result view_error undoState :=
  let '(view, pending, used) := st in
  match pending with
  | [] => Err StxoIndexPanic
  | stxo :: pending' =>
      let view0 := match entries view !! op with
                   | Some _ => view
                   | None => setEntry view op (mkUtxoEntry 0 [] 0 0)
                   end in
      stxo' ←
        (if stxo_Height stxo =? 0 then
           utxo ← fetchEntryByHash view0 txHash;
           match utxo with
           | None => Err (CannotResurrect op)
           | Some u => Ok (mkSpentTxOut (stxo_Amount stxo) (stxo_PkScript stxo)
                             (blockHeight u) (IsCoinBase u))
           end
         else Ok stxo);
      let e := mkUtxoEntry (stxo_Amount stxo') (stxo_PkScript stxo') (stxo_Height stxo')
                 (Z.lor tfModified (if stxo_IsCoinBase stxo' then tfCoinBase else 0)) in
      Ok (setEntry view0 op e, pending', stxo' :: used)
  end.

(** One transaction, with its position in the block. *)
Definition disconnectTransaction (height : Z) (st : undoState) (itx : nat * MsgTx)
    : result view_error undoState :=
  let '(view, pending, used) := st in
  let '(txIdx, tx) := itx in
  let isCoinBase := (txIdx =? 0)%nat in
  let view1 := unconnectOutputs view (TxHash tx) height
                 (if isCoinBase then tfCoinBase else 0) 0 (TxOuts tx) in
  if isCoinBase then Ok (view1, pending, used)
  else foldM (restoreInput (TxHash tx)) (view1, pending, used) (reverse (prevOuts tx)).

(** The view after, and the journal as the legacy lookups left it. *)
Definition disconnectTransactions (view : UtxoViewpoint) (block : Block) (stxos : list SpentTxOut)
    : result view_error (UtxoViewpoint * list SpentTxOut) :=
  if negb (length stxos =? countSpentOutputs block)%nat then Err BadSpentInformation
  else
    let itxs := zip (seq 0 (length (Transactions block))) (Transactions block) in
    '(view1, _, used) ← foldM (disconnectTransaction (Height block))
                          (view, reverse stxos, []) (reverse itxs);
    Ok (SetBestHash view1 (bh_PrevBlock (Header block)), used).
End disconnect.

Definition RemoveEntry (view : UtxoViewpoint) (op : OutPoint) : UtxoViewpoint :=
  mkUtxoViewpoint (delete op (entries view)) (bestHash view).

(** [commit]: drops the entries that are modified and spent, and flips the
    modified flag of the others. *)
Definition commit (view : UtxoViewpoint) : UtxoViewpoint :=
  mkUtxoViewpoint
    (omap (fun e => if isModified e && IsSpent e then None
                    else Some (mkUtxoEntry (amount e) (pkScript e) (blockHeight e)
                                 (Z.lxor (packedFlags e) tfModified)))
       (entries view))
    (bestHash view).

(** ** The live coins of a view *)

Definition live_entry (e : UtxoEntry) : option SpentTxOut :=
  if IsSpent e then None else Some (entryStxo e).

Definition live (view : UtxoViewpoint) : utxo_set := omap live_entry (entries view).

Lemma live_setEntry view op e :
  live (setEntry view op e)
  = match live_entry e with Some c => <[op := c]> (live view) | None => delete op (live view) end.
Proof.
  unfold live, setEntry; cbn [entries]. rewrite omap_insert. by destruct (live_entry e).
Qed.

Lemma Spend_spent e : IsSpent (Spend e) = true.
Proof.
  unfold Spend. destruct (IsSpent e) eqn:E; [done|]. unfold IsSpent, hasFlag; cbn [packedFlags].
  apply Z.eqb_eq. apply Z.bits_inj'. intros n Hn.
  rewrite !Z.land_spec, !Z.lor_spec. unfold tfSpent, tfModified.
  destruct (Z.eqb_spec n 1) as [->|]; [cbn; by rewrite orb_true_r|].
  replace (Z.testbit 2 n) with false; [by rewrite andb_false_r|].
  symmetry. change 2 with (2^1). apply Z.pow2_bits_false. lia.
Qed.

Lemma live_spend view op e :
  live (setEntry view op (Spend e)) = delete op (live view).
Proof. rewrite live_setEntry. unfold live_entry. by rewrite Spend_spent. Qed.

Lemma live_Some view op c :
  live view !! op = Some c <-> exists e, entries view !! op = Some e /\ live_entry e = Some c.
Proof. unfold live. rewrite lookup_omap. destruct (entries view !! op); cbn; naive_solver. Qed.

(** ** Connecting refines the ledger *)

(** The flags a new or restored output is given mark it unspent, and coinbase
    exactly when asked to. *)
Lemma fresh_flags_entry v s h (cb : bool) :
  live_entry (mkUtxoEntry v s h (Z.lor (Z.lor tfFresh tfModified) (if cb then tfCoinBase else 0)))
  = Some (mkSpentTxOut v s h cb).
Proof. by destruct cb. Qed.

Lemma restored_flags_entry v s h (cb : bool) :
  live_entry (mkUtxoEntry v s h (Z.lor tfModified (if cb then tfCoinBase else 0)))
  = Some (mkSpentTxOut v s h cb).
Proof. by destruct cb. Qed.

Lemma live_addTxOut view op o cb h :
  live (addTxOut view op o cb h)
  = if IsUnspendable (PkScript o) then live view
    else <[op := mkSpentTxOut (Value o) (PkScript o) h cb]> (live view).
Proof.
  unfold addTxOut. destruct (IsUnspendable (PkScript o)); [done|].
  by rewrite live_setEntry, fresh_flags_entry.
Qed.

Lemma AddTxOutsFrom_live view hash cb h i outs u :
  addCoins (live view) (newCoinsFrom hash h cb i outs) = Some u ->
  live (AddTxOutsFrom view hash cb h i outs) = u.
Proof.
  revert view i; induction outs as [|o outs IH]; intros view i; cbn [newCoinsFrom AddTxOutsFrom].
  - by intros [= ->].
  - intros H. apply IH. rewrite live_addTxOut.
    destruct (IsUnspendable (PkScript o)); [done|]. cbn [app addCoins] in H.
    by destruct (live view !! txOutPoint hash i).
Qed.

Lemma AddTxOuts_live view tx h u :
  addCoins (live view) (newCoins h tx) = Some u -> live (AddTxOuts view tx h) = u.
Proof. apply AddTxOutsFrom_live. Qed.

Lemma spendInputs_live ops view stxos u cs :
  spendCoins (live view) ops = Some (u, cs) ->
  exists view', foldM spendInput (view, stxos) ops = Ok (view', stxos ++ cs) /\
                live view' = u /\ bestHash view' = bestHash view.
Proof.
  revert view stxos cs; induction ops as [|op ops IH]; intros view stxos cs; cbn [spendCoins foldM].
  - intros [= <- <-]. exists view. by rewrite app_nil_r.
  - destruct (live view !! op) as [c|] eqn:E; cbn [mbind option_bind]; [|done].
    destruct (spendCoins (delete op (live view)) ops) as [[u1 cs1]|] eqn:E1;
      cbn [mbind option_bind]; [|done]. intros [= <- <-].
    apply live_Some in E as (e & He & Hc).
    replace (spendInput (view, stxos) op)
      with (Ok (E:=view_error) (setEntry view op (Spend e), stxos ++ [entryStxo e]))
      by (unfold spendInput; by rewrite He).
    rewrite <- (live_spend view op e) in E1.
    destruct (IH _ (stxos ++ [entryStxo e]) _ E1) as (view' & -> & H2 & H3).
    exists view'. split; [|done]. unfold live_entry in Hc. destruct (IsSpent e); [done|].
    simplify_eq. by rewrite <- app_assoc.
Qed.

Lemma connectTransaction_live view tx h stxos u cs :
  applyTx h (live view) tx = Some (u, cs) ->
  exists view', connectTransaction view tx h stxos = Ok (view', stxos ++ cs) /\ live view' = u.
Proof.
  unfold applyTx, connectTransaction. destruct (IsCoinBaseTx tx); cbn [mbind option_bind].
  - destruct (addCoins (live view) (newCoins h tx)) as [u1|] eqn:E; [|done].
    intros [= <- <-]. eexists. split; [by rewrite app_nil_r|]. by apply AddTxOuts_live.
  - destruct (spendCoins (live view) (prevOuts tx)) as [[u1 cs1]|] eqn:E1;
      cbn [mbind option_bind]; [|done].
    destruct (addCoins u1 (newCoins h tx)) as [u2|] eqn:E2; [|done]. intros [= <- <-].
    destruct (spendInputs_live _ view stxos _ _ E1) as (view1 & -> & <- & _). result_simpl.
    eexists. split; [done|]. by apply AddTxOuts_live.
Qed.

Lemma connectTxs_live h txs view stxos u cs :
  applyTxs h (live view) txs = Some (u, cs) ->
  exists view', foldM (fun st tx => connectTransaction st.1 tx h st.2) (view, stxos) txs
                = Ok (view', stxos ++ cs) /\ live view' = u.
Proof.
  revert view stxos cs; induction txs as [|tx txs IH]; intros view stxos cs H.
  - cbn in H. simplify_eq. exists view. cbn. by rewrite app_nil_r.
  - apply applyTxs_cons in H as (u1 & cs1 & cs2 & H1 & H2 & ->).
    destruct (connectTransaction_live view tx h stxos u1 cs1 H1) as (view1 & E1 & <-).
    cbn [foldM fst snd]. rewrite E1.
    destruct (IH view1 (stxos ++ cs1) cs2 H2) as (view2 & -> & H3).
    exists view2. by rewrite app_assoc.
Qed.

Lemma connectTransactions_refines view block u cs :
  applyTxs (Height block) (live view) (Transactions block) = Some (u, cs) ->
  exists view', connectTransactions view block [] = Ok (view', cs) /\
                live view' = u /\ bestHash view' = Block_Hash block.
Proof.
  intros H. destruct (connectTxs_live _ _ view [] _ _ H) as (view' & E & H').
  unfold connectTransactions. rewrite E. result_simpl. by eexists.
Qed.

(** ** A view over a ledger

    The coins an incomplete view describes: its own entries where it has them,
    those of the ledger [base] it was loaded from elsewhere. *)

Definition coins (base : utxo_set) (view : UtxoViewpoint) : utxo_set :=
  merge (fun e c => match e with Some e => live_entry e | None => c end) (entries view) base.

Lemma lookup_coins base view op :
  coins base view !! op = match entries view !! op with Some e => live_entry e | None => base !! op end.
Proof.
  unfold coins. rewrite lookup_merge. unfold diag_None.
  by destruct (entries view !! op), (base !! op).
Qed.

Lemma coins_empty view : coins ∅ view = live view.
Proof.
  apply map_eq. intros op. rewrite lookup_coins, lookup_empty. unfold live. rewrite lookup_omap.
  by destruct (entries view !! op).
Qed.

Lemma coins_setEntry base view op e :
  coins base (setEntry view op e)
  = match live_entry e with
    | Some c => <[op := c]> (coins base view)
    | None => delete op (coins base view)
    end.
Proof.
  apply map_eq. intros op'. rewrite lookup_coins. unfold setEntry; cbn [entries].
  destruct (decide (op' = op)) as [->|Hne].
  - rewrite lookup_insert_eq. destruct (live_entry e); by rewrite ?lookup_insert_eq, ?lookup_delete_eq.
  - rewrite lookup_insert_ne by done. rewrite <- lookup_coins.
    destruct (live_entry e); by rewrite ?lookup_insert_ne, ?lookup_delete_ne.
Qed.

Lemma coins_spend base view op e :
  coins base (setEntry view op (Spend e)) = delete op (coins base view).
Proof. rewrite coins_setEntry. unfold live_entry. by rewrite Spend_spent. Qed.

(** ** Disconnecting refines undoing *)

Lemma removeCoins_delete u op l : removeCoins (delete op u) l = delete op (removeCoins u l).
Proof.
  induction l as [|[op' c] l IH]; [done|].
  change (delete op' (removeCoins (delete op u) l) = delete op (delete op' (removeCoins u l))).
  by rewrite IH, delete_delete.
Qed.

Lemma unconnectOutputs_coins base view hash h flags cb i outs :
  coins base (unconnectOutputs view hash h flags i outs)
  = removeCoins (coins base view) (newCoinsFrom hash h cb i outs).
Proof.
  revert view i; induction outs as [|o outs IH]; intros view i; cbn [unconnectOutputs newCoinsFrom];
    [done|].
  rewrite IH. destruct (IsUnspendable (PkScript o)); [done|]. cbn [app].
  rewrite coins_spend, removeCoins_delete. done.
Qed.

Section disconnect_proofs.
Context (base : utxo_set) (dbFetch : list Z -> result view_error (option UtxoEntry)).

(** Journal entries of the current format carry the height they were created at. *)
Definition journal_ok (cs : list SpentTxOut) : Prop := Forall (fun c => stxo_Height c <> 0) cs.

Lemma restoreInput_coins txHash view c pending used op :
  stxo_Height c <> 0 ->
  exists view', restoreInput dbFetch txHash (view, c :: pending, used) op
                = Ok (view', pending, c :: used) /\ coins base view' = <[op := c]> (coins base view).
Proof.
  intros Hc. unfold restoreInput. destruct (Z.eqb_spec (stxo_Height c) 0); [done|].
  result_simpl. eexists. split; [done|]. rewrite coins_setEntry, restored_flags_entry.
  replace (mkSpentTxOut _ _ _ _) with c by by destruct c.
  destruct (entries view !! op); [done|]. rewrite coins_setEntry. apply insert_insert_eq.
Qed.

Lemma restoreInputs_coins txHash ops cs view more used :
  length cs = length ops -> journal_ok cs ->
  exists view',
    foldM (restoreInput dbFetch txHash) (view, reverse cs ++ more, used) (reverse ops)
    = Ok (view', more, cs ++ used) /\
    coins base view' = restoreCoins (coins base view) (zip ops cs).
Proof.
  revert cs more used; induction ops as [|op ops IH]; intros [|c cs] more used Hl Hj; try done.
  { by exists view. }
  apply Forall_cons_1 in Hj as [Hc Hj]. injection Hl as Hl.
  rewrite !reverse_cons, <- app_assoc. cbn [app]. rewrite foldM_app.
  destruct (IH cs (c :: more) used Hl Hj) as (view1 & -> & H1). result_simpl. cbn [foldM].
  destruct (restoreInput_coins txHash view1 c more (cs ++ used) op Hc) as (view2 & -> & H2).
  exists view2. split; [done|]. rewrite H2, H1. done.
Qed.

Lemma disconnectTransaction_coins h k tx cs view more used :
  IsCoinBaseTx tx = false -> length cs = length (TxIns tx) -> journal_ok cs ->
  exists view',
    disconnectTransaction dbFetch h (view, reverse cs ++ more, used) (S k, tx)
    = Ok (view', more, cs ++ used) /\ coins base view' = undoTx h (coins base view) tx cs.
Proof.
  intros Hcb Hl Hj. unfold disconnectTransaction. cbn [Nat.eqb].
  set (view1 := unconnectOutputs view (TxHash tx) h 0 0 (TxOuts tx)).
  destruct (restoreInputs_coins (TxHash tx) (prevOuts tx) cs view1 more used) as (view' & E & H);
    [unfold prevOuts; by rewrite length_map|done|].
  exists view'. split; [done|]. rewrite H. unfold undoTx. rewrite Hcb. unfold view1, newCoins.
  by rewrite (unconnectOutputs_coins _ _ _ _ _ (IsCoinBaseTx tx)).
Qed.

Lemma disconnectTxs_coins h txs k cs view more used :
  Forall (fun tx => IsCoinBaseTx tx = false) txs ->
  length cs = sum_list (map (fun tx => length (TxIns tx)) txs) -> journal_ok cs ->
  exists view',
    foldM (disconnectTransaction dbFetch h) (view, reverse cs ++ more, used)
      (reverse (zip (seq (S k) (length txs)) txs))
    = Ok (view', more, cs ++ used) /\ coins base view' = undoTxs h (coins base view) txs cs.
Proof.
  intros Hcb. revert k cs more used; induction Hcb as [|tx txs Htx Hcb IH]; intros k cs more used Hl Hj.
  { destruct cs; [|done]. by exists view. }
  change (length cs = length (TxIns tx) + sum_list (map (fun tx => length (TxIns tx)) txs))%nat in Hl.
  set (n := length (TxIns tx)) in *.
  assert (Hn : spentCount tx = n) by (unfold spentCount; by rewrite Htx).
  replace (reverse cs ++ more) with (reverse (drop n cs) ++ reverse (take n cs) ++ more)
    by (rewrite app_assoc, <- reverse_app, take_drop; done).
  cbn [length seq zip zip_with]. rewrite reverse_cons, foldM_app.
  destruct (IH (S k) (drop n cs) (reverse (take n cs) ++ more) used) as (view1 & -> & H1);
    [rewrite length_drop; lia|by apply Forall_drop|]. result_simpl. cbn [foldM].
  destruct (disconnectTransaction_coins h k tx (take n cs) view1 more (drop n cs ++ used))
    as (view2 & -> & H2); [done|rewrite length_take; lia|by apply Forall_take|].
  exists view2. rewrite app_assoc, take_drop. split; [done|].
  rewrite H2, H1. cbn [undoTxs]. by rewrite Hn.
Qed.

Lemma disconnectTransactions_refines view block cs :
  block_shape (Transactions block) -> length cs = countSpentOutputs block -> journal_ok cs ->
  exists view',
    disconnectTransactions dbFetch view block cs = Ok (view', cs) /\
    coins base view' = undoTxs (Height block) (coins base view) (Transactions block) cs /\
    bestHash view' = bh_PrevBlock (Header block).
Proof.
  intros Hsh Hl Hj. unfold disconnectTransactions. rewrite Hl, Nat.eqb_refl. cbn [negb].
  unfold countSpentOutputs in Hl. destruct (Transactions block) as [|cb rest]; [done|].
  destruct Hsh as [Hcb Hrest]. cbn [drop] in Hl.
  cbn [length seq zip zip_with]. rewrite reverse_cons, foldM_app, <- (app_nil_r (reverse cs)).
  destruct (disconnectTxs_coins (Height block) rest 0 cs view [] [] Hrest Hl Hj) as (view1 & -> & H1).
  result_simpl. cbn [foldM disconnectTransaction Nat.eqb]. result_simpl.
  rewrite app_nil_r. eexists. split; [done|]. split; [|done]. cbn [undoTxs].
  unfold undoTx, spentCount. rewrite Hcb, drop_0, <- H1.
  cbn [restoreCoins foldr SetBestHash]. unfold newCoins.
  change (coins base (SetBestHash ?v _)) with (coins base v). by apply unconnectOutputs_coins.
Qed.
(** ** What a view changes is marked modified

    The entries of a view that are not marked are as the ledger it was loaded
    from has them, so that writing the marked ones is enough. *)

Definition agrees (view : UtxoViewpoint) : Prop :=
  forall op e, entries view !! op = Some e -> isModified e = false -> live_entry e = base !! op.

Lemma agrees_set view op e :
  (isModified e = false -> live_entry e = base !! op) -> agrees view -> agrees (setEntry view op e).
Proof.
  intros He Hv op' e'. unfold setEntry; cbn [entries]. destruct (decide (op' = op)) as [->|Hne].
  - rewrite lookup_insert_eq. intros [= <-]. exact He.
  - rewrite lookup_insert_ne by done. apply Hv.
Qed.

Lemma hasFlag_testbit e k : 0 <= k -> hasFlag e (2^k) = Z.testbit (packedFlags e) k.
Proof.
  intros Hk. unfold hasFlag. destruct (Z.testbit (packedFlags e) k) eqn:E.
  - apply Z.eqb_eq, Z.bits_inj'. intros n Hn. rewrite Z.land_spec, Z.pow2_bits_eqb by done.
    destruct (Z.eqb_spec k n); [subst; by rewrite E|apply andb_false_r].
  - apply Z.eqb_neq. intros H.
    assert (Z.testbit (Z.land (packedFlags e) (2^k)) k = Z.testbit (2^k) k) as Hb by by rewrite H.
    by rewrite Z.land_spec, E, Z.pow2_bits_true in Hb.
Qed.

Lemma Spend_modified e : IsSpent e = false -> isModified (Spend e) = true.
Proof.
  intros H. unfold Spend. rewrite H. unfold isModified. change tfModified with (2^2).
  rewrite hasFlag_testbit by lia. cbn [packedFlags]. rewrite !Z.lor_spec. cbn. by rewrite orb_true_r.
Qed.

Lemma agrees_spend view op e :
  (IsSpent e = true -> entries view !! op = Some e) -> agrees view -> agrees (setEntry view op (Spend e)).
Proof.
  intros He Hv. apply agrees_set; [|done]. intros Hm. destruct (IsSpent e) eqn:Es.
  - assert (Spend e = e) as Ee by (unfold Spend; by rewrite Es). rewrite Ee in *.
    apply Hv; [by apply He|done].
  - by rewrite Spend_modified in Hm.
Qed.

Lemma unconnectOutputs_agrees view hash h flags i outs :
  flags = 0 \/ flags = tfCoinBase -> agrees view -> agrees (unconnectOutputs view hash h flags i outs).
Proof.
  intros Hf. revert view i; induction outs as [|o outs IH]; intros view i Hv; cbn [unconnectOutputs]; [done|].
  apply IH. destruct (IsUnspendable (PkScript o)); [done|]. apply agrees_spend; [|done].
  destruct (entries view !! txOutPoint hash i); [done|]. by destruct Hf as [-> | ->].
Qed.

Lemma restoreInput_agrees txHash st op st' :
  agrees st.1.1 -> restoreInput dbFetch txHash st op = Ok st' -> agrees st'.1.1.
Proof.
  destruct st as [[view pending] used]. cbn [fst]. intros Hv. unfold restoreInput.
  destruct pending as [|c pending]; [done|]. rewrite result_bind_Ok. intros (c' & _ & [= <-]). cbn [fst].
  intros op' e. destruct (decide (op' = op)) as [->|Hne]; unfold setEntry; cbn [entries].
  - rewrite lookup_insert_eq. intros [= <-]. by destruct (stxo_IsCoinBase c').
  - rewrite lookup_insert_ne by done. destruct (entries view !! op); [apply Hv|].
    cbn [entries]. rewrite lookup_insert_ne by done. apply Hv.
Qed.

Lemma disconnectTransaction_agrees h st itx st' :
  agrees st.1.1 -> disconnectTransaction dbFetch h st itx = Ok st' -> agrees st'.1.1.
Proof.
  destruct st as [[view pending] used], itx as [k tx]. cbn [fst]. intros Hv. unfold disconnectTransaction.
  assert (Hf : forall b : bool, (if b then tfCoinBase else 0) = 0 \/ (if b then tfCoinBase else 0) = tfCoinBase)
    by (intros []; auto).
  destruct (k =? 0)%nat.
  - intros [= <-]. cbn [fst]. apply unconnectOutputs_agrees; auto.
  - apply (foldM_inv (fun st : undoState => agrees st.1.1)).
    + cbn [fst]. apply unconnectOutputs_agrees; auto.
    + intros s a s' Hs _. by apply restoreInput_agrees.
Qed.

Lemma disconnectTransactions_agrees view block stxos view' used :
  agrees view -> disconnectTransactions dbFetch view block stxos = Ok (view', used) -> agrees view'.
Proof.
  intros Hv. unfold disconnectTransactions. case_match; [done|]. rewrite result_bind_Ok.
  intros ([[view1 p] us] & E & [= <- <-]). change (agrees (SetBestHash view1 _)) with (agrees view1).
  refine (foldM_inv (fun st : undoState => agrees st.1.1) _ _ _ _ _ _ E); [done|].
  intros s a s' Hs _. by apply disconnectTransaction_agrees.
Qed.
End disconnect_proofs.

(** ** Properties *)

(** Connecting a block to a UTXO view does what the block says and can be
    taken back. When every input of the block is live and no output overwrites
    a live coin, [connectTransactions] succeeds, turns the live coins into those
    of the ledger after the block and journals the coins it spent; giving that
    journal to [disconnectTransactions] succeeds, leaves the journal as it was
    and restores exactly the live coins there were before, with the parent block
    as the best hash. *)
Lemma view_connect_disconnect dbFetch view block u cs :
  block_shape (Transactions block) ->
  applyTxs (Height block) (live view) (Transactions block) = Some (u, cs) -> journal_ok cs ->
  exists view1 view2,
    connectTransactions view block [] = Ok (view1, cs) /\ live view1 = u /\
    bestHash view1 = Block_Hash block /\
    disconnectTransactions dbFetch view1 block cs = Ok (view2, cs) /\
    live view2 = live view /\ bestHash view2 = bh_PrevBlock (Header block).
Proof.
  intros Hsh Happ Hj.
  destruct (connectTransactions_refines view block u cs Happ) as (view1 & E1 & L1 & B1).
  destruct (disconnectTransactions_refines ∅ dbFetch view1 block cs Hsh) as (view2 & E2 & L2 & B2);
    [by eapply applyTxs_journal_length|done|].
  rewrite !coins_empty in L2. exists view1, view2. split_and!; try done.
  rewrite L2, L1. by apply undoTxs_applyTxs.
Qed.

(** [commit] prunes exactly the entries that are both modified and spent;
    every other entry keeps its amount, script, height, coinbase, spent and
    fresh state, but its modified flag is flipped: an entry that was not modified
    comes out marked modified. *)
Lemma commit_spec view op e :
  entries view !! op = Some e ->
  match entries (commit view) !! op with
  | None => isModified e = true /\ IsSpent e = true
  | Some e' =>
      (isModified e && IsSpent e = false) /\
      amount e' = amount e /\ pkScript e' = pkScript e /\ blockHeight e' = blockHeight e /\
      IsCoinBase e' = IsCoinBase e /\ IsSpent e' = IsSpent e /\ isFresh e' = isFresh e /\
      isModified e' = negb (isModified e)
  end.
Proof.
  intros He. unfold commit; cbn [entries]. rewrite lookup_omap, He. cbn [mbind option_bind].
  destruct (isModified e && IsSpent e) eqn:Hp; cbn.
  - by apply andb_true_iff in Hp.
  - unfold IsCoinBase, IsSpent, isFresh, isModified.
    change tfCoinBase with (2^0). change tfSpent with (2^1). change tfFresh with (2^3).
    change tfModified with (2^2).
    rewrite !hasFlag_testbit by done. cbn [packedFlags]. rewrite !Z.lxor_spec.
    split_and!; try done; cbn; by rewrite ?xorb_false_r, ?xorb_true_r.
Qed.

(** A block that spends a coin and creates two, for the witnesses. *)
Definition sampleCoinbase : MsgTx :=
  mkMsgTx 1 [mkTxIn (mkOutPoint zeroHash (2^32 - 1)) [3; 1; 2; 3] [] (2^32 - 1)]
    [mkTxOut 5000000000 [81]] 0.
Definition sampleSpend : MsgTx :=
  mkMsgTx 2 [mkTxIn (mkOutPoint (replicate 32 7) 1) [] [] (2^32 - 1)]
    [mkTxOut 700 [82]; mkTxOut 0 [106; 1; 5]] 0.
Definition sampleBlock : Block := mkBlock 120 sampleHeader [sampleCoinbase; sampleSpend].
Definition sampleView : UtxoViewpoint :=
  mkUtxoViewpoint {[ mkOutPoint (replicate 32 7) 1 := mkUtxoEntry 1000 [83] 90 0 ]} zeroHash.

Definition sampleApplied : option (utxo_set * list SpentTxOut) :=
  applyTxs (Height sampleBlock) (live sampleView) (Transactions sampleBlock).

Lemma sampleApplied_journal :
  match sampleApplied with
  | Some (_, cs) => cs = [mkSpentTxOut 1000 [83] 90 false]
  | None => False
  end.
Proof. vm_compute. reflexivity. Qed.

Lemma sampleBlock_shape : block_shape (Transactions sampleBlock).
Proof. vm_compute. split; [reflexivity|]. constructor; [reflexivity|constructor]. Qed.
