(* ===== verification/WorkMath.v ===== *)
(** * Compact targets and work

    src/blockchain/internal/workmath/difficulty.go: 256-bit targets, their
    compact 32-bit form and the work a target stands for. A [big.Int] is a [Z].

    The compact form keeps the sign and the three highest bytes. The theorems:
    it is exact on the numbers it can represent, it never exceeds the number it
    stands for, and it is within one part in [2^15] of it. *)

From S2P Require Import Prelude.

(** [big.Int.Bytes]: big-endian, without leading zeros, of the absolute value. *)
Definition bigBytesLen (n : Z) : nat := if n =? 0 then 0%nat else Z.to_nat (Z.log2 n / 8 + 1).
Definition bigBytes (n : Z) : list Z := be_bytes (bigBytesLen (Z.abs n)) (Z.abs n).

Definition HashToBig (hash : list Z) : Z := be_val (reverse hash).

Definition CompactToBig (compact : Z) : Z :=
  let mantissa := Z.land compact 0x007fffff in
  let isNegative := negb (Z.land compact 0x00800000 =? 0) in
  let exponent := Z.shiftr compact 24 in
  let bn := if exponent <=? 3 then Z.shiftr mantissa (8 * (3 - exponent))
            else Z.shiftl mantissa (8 * (exponent - 3)) in
  if isNegative then - bn else bn.

Definition BigToCompact (n : Z) : Z :=
  if n =? 0 then 0
  else
    let exponent := Z.of_nat (length (bigBytes n)) in
    let mantissa :=
      if exponent <=? 3 then u32 (Z.shiftl (u32 (Z.abs n)) (8 * (3 - exponent)))
      else u32 (Z.abs (Z.shiftr n (8 * (exponent - 3)))) in
    let '(mantissa, exponent) :=
      if negb (Z.land mantissa 0x00800000 =? 0) then (Z.shiftr mantissa 8, exponent + 1)
      else (mantissa, exponent) in
    let compact := Z.lor (u32 (Z.shiftl exponent 24)) mantissa in
    if n <? 0 then Z.lor compact 0x00800000 else compact.

Definition oneLsh256 : Z := 2 ^ 256.

Definition CalcWork (bits : Z) : Z :=
  let difficultyNum := CompactToBig bits in
  if difficultyNum <=? 0 then 0 else oneLsh256 / (difficultyNum + 1).

(** ** Packing and unpacking *)

Lemma testbit_land n k : 0 <= n -> 0 <= k -> (Z.land n (2^k) =? 0) = negb (Z.testbit n k).
Proof.
  intros Hn Hk. destruct (Z.testbit n k) eqn:E; cbn [negb]; [apply Z.eqb_neq|apply Z.eqb_eq].
  - intros H. assert (Z.testbit (Z.land n (2^k)) k = true) as Ht.
    { rewrite Z.land_spec, E, Z.pow2_bits_true by done. done. }
    rewrite H, Z.bits_0 in Ht. done.
  - apply Z.bits_inj'. intros i Hi. rewrite Z.land_spec, Z.bits_0, Z.pow2_bits_eqb by done.
    destruct (Z.eqb_spec k i) as [<-|]; [by rewrite E|by rewrite andb_false_r].
Qed.


Lemma land_low n k m : 0 <= k -> 0 <= m < 2^k -> Z.land (n * 2^k) m = 0.
Proof.
  intros Hk Hm. apply Z.bits_inj'. intros i Hi. rewrite Z.land_spec, Z.bits_0.
  destruct (Z.ltb_spec i k).
  - by rewrite Z.mul_pow2_bits_low.
  - rewrite andb_comm. destruct (Z.eq_dec m 0) as [->|]; [by rewrite Z.bits_0|].
    rewrite Z.bits_above_log2; [done|lia|]. assert (Z.log2 m < k) by (apply Z.log2_lt_pow2; lia). lia.
Qed.

Lemma lor_low n k m : 0 <= k -> 0 <= m < 2^k -> Z.lor (n * 2^k) m = n * 2^k + m.
Proof. intros Hk Hm. pose proof (Z.add_lor_land (n * 2^k) m). rewrite land_low in * by done. lia. Qed.

(** The value of an unsigned exponent and mantissa. *)
Definition compactValue (e m : Z) : Z :=
  if e <=? 3 then m / 2 ^ (8 * (3 - e)) else m * 2 ^ (8 * (e - 3)).

Lemma testbit_div n k : 0 <= n -> 0 <= k -> Z.testbit n k = ((n / 2^k) mod 2 =? 1).
Proof.
  intros Hn Hk. destruct (Z.testbit n k) eqn:E; symmetry.
  - apply Z.eqb_eq. by apply Z.testbit_true.
  - apply Z.eqb_neq. apply Z.testbit_false in E; lia.
Qed.

Lemma CompactToBig_pack e m :
  0 <= e -> 0 <= m < 2^23 -> CompactToBig (e * 2^24 + m) = compactValue e m.
Proof.
  intros He Hm. unfold CompactToBig, compactValue. change 0x007fffff with (Z.ones 23). change 0x00800000 with (2^23).
  rewrite testbit_land, testbit_div, Z.land_ones, Z.shiftr_div_pow2 by lia.
  replace (e * 2^24 + m) with (m + (e * 2) * 2^23) by (change (2^24) with (2 * 2^23); lia).
  rewrite Z.mod_add, (Z.mod_small m), Z.div_add, (Z.div_small m (2^23)), Z.add_0_l, Z.mod_mul by lia.
  cbn [Z.eqb negb]. replace (m + e * 2 * 2^23) with (e * 2^24 + m) by (change (2^24) with (2 * 2^23); lia).
  rewrite Z.div_add_l, (Z.div_small m (2^24)), Z.add_0_r by lia.
  destruct (Z.leb_spec e 3); [rewrite Z.shiftr_div_pow2|rewrite Z.shiftl_mul_pow2]; lia.
Qed.

(** The exponent of a positive number: its length in bytes. *)
Lemma bytes_bounds n :
  0 < n -> let e := Z.of_nat (length (bigBytes n)) in 1 <= e /\ 2^(8 * (e - 1)) <= n < 2^(8 * e).
Proof.
  intros Hn. cbv zeta. unfold bigBytes, bigBytesLen. rewrite length_be_bytes, Z.abs_eq by lia.
  destruct (Z.eqb_spec n 0); [lia|]. pose proof (Z.log2_spec n Hn) as [H1 H2]. pose proof (Z.log2_nonneg n).
  pose proof (Z.div_mod (Z.log2 n) 8 ltac:(lia)). pose proof (Z.mod_pos_bound (Z.log2 n) 8 ltac:(lia)).
  assert (0 <= Z.log2 n / 8) by (apply Z.div_pos; lia). rewrite Z2Nat.id by lia. split; [lia|]. split.
  - eapply Z.le_trans; [|exact H1]. apply Z.pow_le_mono_r; lia.
  - eapply Z.lt_le_trans; [exact H2|]. apply Z.pow_le_mono_r; lia.
Qed.

(** The three highest bytes of a positive number of [e] bytes. *)
Definition highBytes (e n : Z) : Z :=
  if e <=? 3 then n * 2^(8 * (3 - e)) else n / 2^(8 * (e - 3)).

Lemma highBytes_range e n :
  1 <= e -> 2^(8 * (e - 1)) <= n < 2^(8 * e) -> 2^16 <= highBytes e n < 2^24.
Proof.
  intros He Hn. unfold highBytes. destruct (Z.leb_spec e 3).
  - assert (e = 1 \/ e = 2 \/ e = 3) as [-> | [-> | ->]] by lia; cbn -[Z.mul] in *; lia.
  - assert (0 < 2^(8 * (e - 3))) by (apply Z.pow_pos_nonneg; lia).
    replace (8 * (e - 1)) with (16 + 8 * (e - 3)) in Hn by lia.
    replace (8 * e) with (24 + 8 * (e - 3)) in Hn by lia. rewrite !Z.pow_add_r in Hn by lia. split.
    + apply Z.div_le_lower_bound; lia.
    + apply Z.div_lt_upper_bound; lia.
Qed.

(** Moving down one byte. *)
Lemma highBytes_down e n : 1 <= e -> highBytes e n / 2^8 = highBytes (e + 1) n.
Proof.
  intros He. unfold highBytes. destruct (Z.leb_spec e 3), (Z.leb_spec (e + 1) 3); try lia.
  - replace (8 * (3 - e)) with (8 * (3 - (e + 1)) + 8) by lia. rewrite Z.pow_add_r by lia.
    rewrite Z.mul_assoc, Z.div_mul; lia.
  - assert (e = 3) as -> by lia. cbn -[Z.mul Z.div]. by rewrite Z.mul_1_r.
  - rewrite Z.div_div by lia. rewrite <- Z.pow_add_r by lia. do 2 f_equal. lia.
Qed.

(** What [BigToCompact] computes for a positive number: exponent and the highest
    bytes, one byte less when the sign bit would be taken. *)
Lemma BigToCompact_pos n :
  0 < n < 2^512 ->
  exists e, BigToCompact n = e * 2^24 + highBytes e n /\ 1 <= e < 256 /\ 2^15 <= highBytes e n < 2^23.
Proof.
  intros [Hn Hb]. destruct (bytes_bounds n Hn) as (He & Hlo & Hhi). unfold BigToCompact.
  destruct (Z.eqb_spec n 0); [lia|]. destruct (Z.ltb_spec n 0); [lia|]. rewrite (Z.abs_eq n) by lia.
  remember (Z.of_nat (length (bigBytes n))) as e eqn:Ee. clear Ee.
  pose proof (highBytes_range e n He ltac:(lia)) as Hm.
  assert (e < 255) as He2.
  { assert (8 * (e - 1) < 512) by (apply (Z.pow_lt_mono_r_iff 2); lia). lia. }
  assert ((if e <=? 3 then u32 (Z.shiftl (u32 n) (8 * (3 - e))) else u32 (Z.abs (Z.shiftr n (8 * (e - 3)))))
          = highBytes e n) as ->.
  { unfold highBytes in *. destruct (Z.leb_spec e 3).
    - assert (0 < 2 ^ (8 * (3 - e))) by (apply Z.pow_pos_nonneg; lia).
      rewrite Z.shiftl_mul_pow2 by lia. rewrite (u32_id n) by (widths; nia). apply u32_id. widths; lia.
    - rewrite Z.shiftr_div_pow2, Z.abs_eq by lia. apply u32_id. widths; lia. }
  change 0x00800000 with (2^23). rewrite testbit_land, testbit_div, negb_involutive by lia.
  destruct (Z.ltb_spec (highBytes e n) (2^23)).
  - rewrite (Z.div_small (highBytes e n)) by lia. change (0 mod 2 =? 1) with false. cbn match.
    rewrite Z.shiftl_mul_pow2, u32_id, lor_low by (widths; lia). exists e. split; [done|]. lia.
  - assert (highBytes e n / 2^23 = 1) as -> by (symmetry; apply Z.div_unique with (highBytes e n - 2^23); lia).
    change (1 mod 2 =? 1) with true. cbn match. rewrite Z.shiftr_div_pow2, highBytes_down by lia.
    assert (2^15 <= highBytes (e + 1) n < 2^16).
    { rewrite <- highBytes_down by lia. split; [apply Z.div_le_lower_bound; lia|apply Z.div_lt_upper_bound; lia]. }
    rewrite Z.shiftl_mul_pow2, u32_id, lor_low by (widths; lia). exists (e + 1). split; [done|]. lia.
Qed.

(** ** The target a compact form stands for *)

(** The compact form of a positive number never stands for more than the number,
    and for at most one part in [2^15] less. *)
Lemma compact_rounds_down n :
  0 < n < 2^512 ->
  let t := CompactToBig (BigToCompact n) in 0 < t <= n /\ (n - t) * 2^15 <= t.
Proof.
  intros Hn. destruct (BigToCompact_pos n Hn) as (e & -> & He & Hm). cbv zeta.
  rewrite CompactToBig_pack by lia. unfold compactValue, highBytes in *. destruct (Z.leb_spec e 3).
  - rewrite Z.div_mul by (apply Z.pow_nonzero; lia). lia.
  - assert (0 < 2^(8 * (e - 3))) as Hp by (apply Z.pow_pos_nonneg; lia).
    pose proof (Z.div_mod n (2^(8 * (e - 3))) ltac:(lia)).
    pose proof (Z.mod_pos_bound n (2^(8 * (e - 3))) Hp). nia.
Qed.

(** The exponent is the only one that puts the highest bytes in their range. *)
Lemma highBytes_lt e e' n :
  1 <= e < e' -> highBytes e n < 2^23 -> highBytes e' n < 2^15.
Proof.
  intros He Hm. replace e' with (e + 1 + Z.of_nat (Z.to_nat (e' - e - 1))) by lia.
  induction (Z.to_nat (e' - e - 1)) as [|k IH].
  - rewrite Z.add_0_r, <- highBytes_down by lia. apply Z.div_lt_upper_bound; lia.
  - rewrite Nat2Z.inj_succ. replace (e + 1 + Z.succ (Z.of_nat k)) with (e + 1 + Z.of_nat k + 1) by lia.
    rewrite <- highBytes_down by lia. apply Z.div_lt_upper_bound; lia.
Qed.

Lemma highBytes_unique e e' n :
  1 <= e -> 1 <= e' -> 2^15 <= highBytes e n < 2^23 -> 2^15 <= highBytes e' n < 2^23 -> e = e'.
Proof.
  intros He He' H H'. destruct (Z.lt_trichotomy e e') as [Hlt|[->|Hlt]]; [|done|].
  - pose proof (highBytes_lt e e' n ltac:(lia) ltac:(lia)). lia.
  - pose proof (highBytes_lt e' e n ltac:(lia) ltac:(lia)). lia.
Qed.

Lemma highBytes_mono e n n' : 0 <= n <= n' -> highBytes e n <= highBytes e n'.
Proof.
  intros Hn. unfold highBytes. destruct (Z.leb_spec e 3).
  - assert (0 < 2^(8 * (3 - e))) by (apply Z.pow_pos_nonneg; lia). nia.
  - apply Z.div_le_mono; [apply Z.pow_pos_nonneg|]; lia.
Qed.

(** A positive compact form in normal form: no sign, a mantissa of full length,
    and no digits below the units. *)
Definition normalised (c : Z) : Prop :=
  exists e m, c = e * 2^24 + m /\ 1 <= e < 50 /\ 2^15 <= m < 2^23 /\
    (e <= 3 -> m mod 2^(8 * (3 - e)) = 0).

Lemma BigToCompact_CompactToBig c : normalised c -> BigToCompact (CompactToBig c) = c.
Proof.
  intros (e & m & -> & He & Hm & Hex). rewrite CompactToBig_pack by lia.
  assert (Hhb : highBytes e (compactValue e m) = m).
  { unfold highBytes, compactValue. destruct (Z.leb_spec e 3).
    - pose proof (Z.div_mod m (2^(8 * (3 - e))) ltac:(apply Z.pow_nonzero; lia)). rewrite Hex in * by done. lia.
    - apply Z.div_mul, Z.pow_nonzero; lia. }
  assert (Hb : 0 < compactValue e m < 2^512).
  { unfold compactValue, highBytes in *. destruct (Z.leb_spec e 3).
    - split; [|eapply Z.le_lt_trans; [apply Z.div_le_upper_bound with (q := m); [apply Z.pow_pos_nonneg; lia|]|]; nia].
      destruct (Z.le_gt_cases (m / 2^(8 * (3 - e))) 0); [|lia].
      assert (0 < 2^(8 * (3 - e))) by (apply Z.pow_pos_nonneg; lia). nia.
    - assert (0 < 2^(8 * (e - 3))) by (apply Z.pow_pos_nonneg; lia). split; [nia|].
      assert (2^(8 * (e - 3)) <= 2^400) by (apply Z.pow_le_mono_r; lia).
      assert (2^512 = 2^112 * 2^400) as -> by (rewrite <- Z.pow_add_r; [done|lia|lia]).
      assert (2^23 < 2^112) by (apply Z.pow_lt_mono_r; lia). nia. }
  destruct (BigToCompact_pos _ Hb) as (e' & -> & He' & Hm').
  assert (e' = e) as -> by (apply (highBytes_unique e' e (compactValue e m)); lia). by rewrite Hhb.
Qed.

(** Compacting keeps the order of targets. *)
Lemma compact_mono n n' :
  0 < n <= n' -> n' < 2^512 -> CompactToBig (BigToCompact n) <= CompactToBig (BigToCompact n').
Proof.
  intros Hn Hb. pose proof (compact_rounds_down n ltac:(lia)) as [Hle _]. cbv zeta in Hle.
  destruct (BigToCompact_pos n ltac:(lia)) as (e & E & He & Hm).
  destruct (BigToCompact_pos n' ltac:(lia)) as (e' & E' & He' & Hm').
  rewrite E in Hle |- *. rewrite E'. rewrite CompactToBig_pack in Hle by lia. rewrite !CompactToBig_pack by lia.
  pose proof (highBytes_mono e n n' ltac:(lia)). pose proof (highBytes_mono e' n n' ltac:(lia)).
  destruct (Z.lt_trichotomy e e') as [Hlt|[<-|Hlt]].
  - apply Z.le_trans with n; [lia|]. pose proof (highBytes_lt e e' n ltac:(lia) ltac:(lia)) as Hn15.
    unfold compactValue, highBytes in *. destruct (Z.leb_spec e' 3).
    + rewrite Z.div_mul by (apply Z.pow_nonzero; lia). lia.
    + assert (0 < 2^(8 * (e' - 3))) as Hp by (apply Z.pow_pos_nonneg; lia).
      pose proof (Z.div_mod n (2^(8 * (e' - 3))) ltac:(lia)).
      pose proof (Z.mod_pos_bound n (2^(8 * (e' - 3))) Hp). nia.
  - unfold compactValue. destruct (Z.leb_spec e 3).
    + apply Z.div_le_mono; [apply Z.pow_pos_nonneg|]; lia.
    + apply Z.mul_le_mono_nonneg_r; [apply Z.pow_nonneg|]; lia.
  - pose proof (highBytes_lt e' e n ltac:(lia) ltac:(lia)). lia.
Qed.

(** ** Work *)

Lemma CalcWork_antitone bits bits' :
  0 < CompactToBig bits <= CompactToBig bits' -> CalcWork bits' <= CalcWork bits.
Proof.
  intros H. unfold CalcWork. destruct (Z.leb_spec (CompactToBig bits) 0), (Z.leb_spec (CompactToBig bits') 0); try lia.
  apply Z.div_le_compat_l; [done|lia].
Qed.

Lemma CalcWork_nonneg bits : 0 <= CalcWork bits.
Proof. unfold CalcWork. destruct (Z.leb_spec (CompactToBig bits) 0); [lia|]. apply Z.div_pos; [done|lia]. Qed.
