(* ===== verification/ChainIO.v ===== *)
(** * Chain storage

    src/blockchain/chainio.go and utxo_iter.go: the formats of the spend
    journal, the UTXO set, the block indexes and the best state, the functions
    that read and write them, and the iteration over the stored UTXO set that
    the rebuild of the expiry index starts from.

    [ChainDB] is the part of the database these functions use: the metadata
    bucket and the buckets that [createChainState] makes in it. [Put] and
    [Delete] fail only in read-only transactions, so the functions that only
    write return the new database. Buffers of the free list are overwritten in
    full before they are used and are left out.

    The refinement: the UTXO bucket that stores a ledger ([stored]) answers
    lookups as the ledger does, and writing a view leaves the bucket that stores
    the ledger the view describes. *)

From S2P Require Import Prelude Sha256 Wire Commitment Script Block Compress Bucket Ledger UtxoView WorkMath.

Record ChainDB := mkChainDB {
  metadata : Bucket;
  spendJournalBucket : Bucket;
  utxoSetBucket : Bucket;
  hashIndexBucket : Bucket;
  heightIndexBucket : Bucket;
  blockIndexBucket : Bucket }.

Definition withMetadata (db : ChainDB) (b : Bucket) : ChainDB :=
  mkChainDB b (spendJournalBucket db) (utxoSetBucket db) (hashIndexBucket db)
    (heightIndexBucket db) (blockIndexBucket db).
Definition withSpendJournal (db : ChainDB) (b : Bucket) : ChainDB :=
  mkChainDB (metadata db) b (utxoSetBucket db) (hashIndexBucket db)
    (heightIndexBucket db) (blockIndexBucket db).
Definition withUtxoSet (db : ChainDB) (b : Bucket) : ChainDB :=
  mkChainDB (metadata db) (spendJournalBucket db) b (hashIndexBucket db)
    (heightIndexBucket db) (blockIndexBucket db).
Definition withBlockIndexes (db : ChainDB) (byHash byHeight : Bucket) : ChainDB :=
  mkChainDB (metadata db) (spendJournalBucket db) (utxoSetBucket db) byHash byHeight
    (blockIndexBucket db).
Definition withBlockIndex (db : ChainDB) (b : Bucket) : ChainDB :=
  mkChainDB (metadata db) (spendJournalBucket db) (utxoSetBucket db) (hashIndexBucket db)
    (heightIndexBucket db) b.

(** A deserialisation error is reported as a corrupt database. *)
Definition asCorruption {A} (what : string) (r : result chainio_error A) : result chainio_error A :=
  match r with
  | Err (ErrDeserialize _) => Err (ErrCorruption what)
  | _ => r
  end.

(** ** The spend journal *)

(** Height and coinbase flag, as both formats pack them. *)
Definition headerCode (height : Z) (isCoinBase : bool) : Z :=
  let code := u64 (Z.shiftl (u64 height) 1) in
  if isCoinBase then Z.lor code 0x01 else code.

Definition spentTxOutHeaderCode (stxo : SpentTxOut) : Z :=
  headerCode (stxo_Height stxo) (stxo_IsCoinBase stxo).

Section formats.
Context {codec : KeyCodec}.

Definition spentTxOutSerializeSize (stxo : SpentTxOut) : Z :=
  serializeSizeVLQ (spentTxOutHeaderCode stxo)
  + (if 0 <? stxo_Height stxo then serializeSizeVLQ 0 else 0)
  + compressedTxOutSize (u64 (stxo_Amount stxo)) (stxo_PkScript stxo).

Definition putSpentTxOut (stxo : SpentTxOut) : list Z :=
  putVLQ (spentTxOutHeaderCode stxo)
  ++ (if 0 <? stxo_Height stxo then putVLQ 0 else [])
  ++ putCompressedTxOut (u64 (stxo_Amount stxo)) (stxo_PkScript stxo).

(** The entry and the number of bytes read. *)
Definition decodeSpentTxOut (serialized : list Z) : result chainio_error (SpentTxOut * Z) :=
  if zlen serialized =? 0 then Err (ErrDeserialize "no serialized bytes")
  else
    let '(code, offset) := deserializeVLQ serialized in
    if zlen serialized <=? offset then Err (ErrDeserialize "unexpected end of data after header code")
    else
      let isCoinBase := negb (Z.land code 0x01 =? 0) in
      let height := i32 (Z.shiftr code 1) in
      offset ←
        (if 0 <? height then
           let '(_, bytesRead) := deserializeVLQ (drop (Z.to_nat offset) serialized) in
           if zlen serialized <=? offset + bytesRead
           then Err (ErrDeserialize "unexpected end of data after reserved")
           else Ok (offset + bytesRead)
         else Ok offset);
      match decodeCompressedTxOut (drop (Z.to_nat offset) serialized) with
      | Err SlicePanic => Err SlicePanic
      | Err _ => Err (ErrDeserialize "unable to decode txout")
      | Ok (amount, pkScript, bytesRead) =>
          Ok (mkSpentTxOut (i64 amount) pkScript height isCoinBase, offset + bytesRead)
      end.

(** One input, going backwards: the bytes left and the entries read so far. *)
Definition readStxo (st : list Z * list SpentTxOut) (op : OutPoint)
    : result chainio_error (list Z * list SpentTxOut) :=
  let '(rest, stxos) := st in
  match decodeSpentTxOut rest with
  | Err SlicePanic => Err SlicePanic
  | Err _ => Err (ErrDeserialize "unable to decode stxo")
  | Ok (stxo, n) => Ok (drop (Z.to_nat n) rest, stxo :: stxos)
  end.

Definition deserializeSpendJournalEntry (serialized : list Z) (txns : list MsgTx)
    : result chainio_error (list SpentTxOut) :=
  let inputs := concat (map prevOuts txns) in
  if zlen serialized =? 0 then
    if negb (zlen inputs =? 0) then Err (AssertError "mismatched spend journal serialization")
    else Ok []
  else
    '(_, stxos) ← foldM readStxo (serialized, []) (reverse inputs);
    Ok stxos.

Definition serializeSpendJournalEntry (stxos : list SpentTxOut) : list Z :=
  concat (map putSpentTxOut (reverse stxos)).

Definition dbFetchSpendJournalEntry (db : ChainDB) (block : Block)
    : result chainio_error (list SpentTxOut) :=
  let serialized := default [] (spendJournalBucket db !! Block_Hash block) in
  match Transactions block with
  | [] => Err SlicePanic
  | _ :: blockTxns =>
      asCorruption "corrupt spend information" (deserializeSpendJournalEntry serialized blockTxns)
  end.

Definition dbPutSpendJournalEntry (db : ChainDB) (blockHash : list Z) (stxos : list SpentTxOut)
    : ChainDB :=
  withSpendJournal db (<[blockHash := serializeSpendJournalEntry stxos]> (spendJournalBucket db)).

Definition dbRemoveSpendJournalEntry (db : ChainDB) (blockHash : list Z) : ChainDB :=
  withSpendJournal db (delete blockHash (spendJournalBucket db)).

Definition dbPruneSpendJournalEntry (db : ChainDB) (blockHashes : list (list Z)) : ChainDB :=
  foldl dbRemoveSpendJournalEntry db blockHashes.

(** ** The UTXO set *)

Definition outpointKey (outpoint : OutPoint) : list Z :=
  Hash outpoint ++ putVLQ (Index outpoint).

Definition utxoEntryHeaderCode (entry : UtxoEntry) : result chainio_error Z :=
  if IsSpent entry then Err (AssertError "attempt to serialize spent utxo header")
  else Ok (headerCode (blockHeight entry) (IsCoinBase entry)).

(** A spent entry has no bytes. *)
Definition serializeUtxoEntry (entry : UtxoEntry) : result chainio_error (list Z) :=
  if IsSpent entry then Ok []
  else
    headerCode ← utxoEntryHeaderCode entry;
    Ok (putVLQ headerCode ++ putCompressedTxOut (u64 (amount entry)) (pkScript entry)).

Definition deserializeUtxoEntry (serialized : list Z) : result chainio_error UtxoEntry :=
  let '(code, offset) := deserializeVLQ serialized in
  if zlen serialized <=? offset then Err (ErrDeserialize "unexpected end of data after header")
  else
    let isCoinBase := negb (Z.land code 0x01 =? 0) in
    let blockHeight := i32 (Z.shiftr code 1) in
    match decodeCompressedTxOut (drop (Z.to_nat offset) serialized) with
    | Err SlicePanic => Err SlicePanic
    | Err _ => Err (ErrDeserialize "unable to decode utxo")
    | Ok (amount, pkScript, _) =>
        Ok (mkUtxoEntry (i64 amount) pkScript blockHeight (if isCoinBase then tfCoinBase else 0))
    end.

Definition dbFetchUtxoEntryByHash (db : ChainDB) (hash : list Z)
    : result chainio_error (option UtxoEntry) :=
  match cursorSeek (utxoSetBucket db) (outpointKey (mkOutPoint hash 0)) with
  | [] => Ok None
  | cursorKey :: _ =>
      if (length cursorKey <? HashSize)%nat then Ok None
      else if negb (bool_decide (hash = take HashSize cursorKey)) then Ok None
      else Some <$> deserializeUtxoEntry (default [] (utxoSetBucket db !! cursorKey))
  end.

Definition dbFetchUtxoEntry (db : ChainDB) (outpoint : OutPoint)
    : result chainio_error (option UtxoEntry) :=
  match utxoSetBucket db !! outpointKey outpoint with
  | None => Ok None
  | Some serializedUtxo =>
      if zlen serializedUtxo =? 0
      then Err (AssertError "database contains entry for spent tx output")
      else
        entry ← asCorruption "corrupt utxo entry" (deserializeUtxoEntry serializedUtxo);
        Ok (Some entry)
  end.

Definition dbDeleteUtxoEntry (utxoBucket : Bucket) (outpoint : OutPoint) : Bucket :=
  delete (outpointKey outpoint) utxoBucket.

(** [None] is the nil entry. *)
Definition dbPutUtxoEntry (utxoBucket : Bucket) (outpoint : OutPoint) (entry : option UtxoEntry)
    : result chainio_error Bucket :=
  match entry with
  | None => Err (AssertError "trying to store nil or spent entry")
  | Some e =>
      if IsSpent e then Err (AssertError "trying to store nil or spent entry")
      else
        serialized ← serializeUtxoEntry e;
        Ok (<[outpointKey outpoint := serialized]> utxoBucket)
  end.

(** One entry of the view. *)
Definition putViewEntry (utxoBucket : Bucket) (oe : OutPoint * UtxoEntry)
    : result chainio_error Bucket :=
  let '(outpoint, entry) := oe in
  if negb (isModified entry) then Ok utxoBucket
  else if IsSpent entry then Ok (dbDeleteUtxoEntry utxoBucket outpoint)
  else dbPutUtxoEntry utxoBucket outpoint (Some entry).

Definition dbPutUtxoView (db : ChainDB) (view : option UtxoViewpoint) : result chainio_error ChainDB :=
  match view with
  | None => Ok db
  | Some view =>
      b ← foldM putViewEntry (utxoSetBucket db) (map_to_list (entries view));
      Ok (withUtxoSet db b)
  end.

(** ** Iterating over the stored UTXO set *)

Record UTXOSnapshotEntry := mkUTXOSnapshotEntry {
  snap_OutPoint : OutPoint;
  snap_BlockHeight : Z;
  snap_Amount : Z;
  snap_IsCoinBase : bool;
  snap_PkScript : list Z }.

Inductive iter_error (E : Type) := FnError (e : E) | IterPanic.
#[global] Arguments FnError {E} e.
#[global] Arguments IterPanic {E}.

(** One key of the cursor; [fn] updates the state [s] of its closure. *)
Definition visitUTXO {E S : Type} (utxoBucket : Bucket) (fn : S -> UTXOSnapshotEntry -> result E S)
    (s : S) (key : list Z) : result (iter_error E) S :=
  if (length key <? HashSize + 1)%nat then Ok s
  else
    let hash := take HashSize key in
    let '(idx, _) := deserializeVLQ (drop HashSize key) in
    match deserializeUtxoEntry (default [] (utxoBucket !! key)) with
    | Err SlicePanic => Err IterPanic
    | Err _ => Ok s
    | Ok entry =>
        match fn s (mkUTXOSnapshotEntry (mkOutPoint hash (u32 idx)) (blockHeight entry)
                      (amount entry) (IsCoinBase entry) (pkScript entry)) with
        | Ok s' => Ok s'
        | Err e => Err (FnError e)
        end
    end.

Definition ForEachUTXOInDB {E S : Type} (db : ChainDB) (fn : S -> UTXOSnapshotEntry -> result E S) (s : S)
    : result (iter_error E) S :=
  foldM (visitUTXO (utxoSetBucket db) fn) s (cursorFirst (utxoSetBucket db)).

Definition ForEachUTXOWithAmount {E S : Type} (db : ChainDB) (fn : S -> OutPoint -> Z -> Z -> result E S) (s : S)
    : result (iter_error E) S :=
  ForEachUTXOInDB db
    (fun s entry => fn s (snap_OutPoint entry) (snap_BlockHeight entry) (snap_Amount entry)) s.

Definition ForEachUTXO {E S : Type} (db : ChainDB) (fn : S -> OutPoint -> Z -> result E S) (s : S)
    : result (iter_error E) S :=
  ForEachUTXOWithAmount db (fun s outpoint height _ => fn s outpoint height) s.
End formats.

(** ** Block indexes *)

Definition dbPutBlockIndex (db : ChainDB) (hash : list Z) (height : Z) : ChainDB :=
  let serializedHeight := le_bytes 4 (u32 height) in
  withBlockIndexes db (<[hash := serializedHeight]> (hashIndexBucket db))
    (<[serializedHeight := hash]> (heightIndexBucket db)).

Definition dbRemoveBlockIndex (db : ChainDB) (hash : list Z) (height : Z) : ChainDB :=
  withBlockIndexes db (delete hash (hashIndexBucket db))
    (delete (le_bytes 4 (u32 height)) (heightIndexBucket db)).

Definition dbFetchHeightByHash (db : ChainDB) (hash : list Z) : result chainio_error Z :=
  match hashIndexBucket db !! hash with
  | None => Err (ErrNotInMainChain "block is not in the main chain")
  | Some serializedHeight =>
      bs ← sliceZ 0 4 serializedHeight;
      Ok (i32 (le_val bs))
  end.

(** [copy] into a hash: what is missing stays zero. *)
Definition copyHash (bs : list Z) : list Z := take HashSize (bs ++ replicate HashSize 0).

Definition dbFetchHashByHeight (db : ChainDB) (height : Z) : result chainio_error (list Z) :=
  match heightIndexBucket db !! le_bytes 4 (u32 height) with
  | None => Err (ErrNotInMainChain "no block at height exists")
  | Some hashBytes => Ok (copyHash hashBytes)
  end.

Definition blockIndexKey (blockHash : list Z) (blockHeight : Z) : list Z :=
  be_bytes 4 blockHeight ++ blockHash.

(** [node.status] is a byte. *)
Definition dbStoreBlockNode (db : ChainDB) (header : BlockHeader) (hash : list Z) (height status : Z)
    : ChainDB :=
  withBlockIndex db
    (<[blockIndexKey hash (u32 height) := writeBlockHeaderBuf header ++ [status]]> (blockIndexBucket db)).

Definition deserializeBlockRow (blockRow : list Z) : result wire_error (BlockHeader * Z) :=
  '(header, r) ← readBlockHeaderBuf blockRow;
  '(bs, _) ← readFull 1 r;
  Ok (header, nth 0 bs 0).

(** ** The best state *)

Record bestChainState := mkBestChainState {
  bcs_hash : list Z;
  bcs_height : Z;
  bcs_totalTxns : Z;
  bcs_workSum : Z }.

Definition serializeBestChainState (state : bestChainState) : list Z :=
  let workSumBytes := bigBytes (bcs_workSum state) in
  bcs_hash state ++ le_bytes 4 (bcs_height state) ++ le_bytes 8 (bcs_totalTxns state)
  ++ le_bytes 4 (u32 (zlen workSumBytes)) ++ workSumBytes.

Definition deserializeBestChainState (serializedData : list Z) : result chainio_error bestChainState :=
  if zlen serializedData <? 32 + 16 then Err (ErrCorruption "corrupt best chain state")
  else
    let workSumBytesLen := le_val (slice 44 48 serializedData) in
    let rest := drop 48 serializedData in
    if u32 (zlen rest) <? workSumBytesLen then Err (ErrCorruption "corrupt best chain state")
    else
      workSumBytes ← sliceZ 0 workSumBytesLen rest;
      Ok (mkBestChainState (take 32 serializedData) (le_val (slice 32 36 serializedData))
            (le_val (slice 36 44 serializedData)) (be_val workSumBytes)).

Definition chainStateKeyName : list Z := string_bytes "chainstate".
Definition utxoStateConsistencyKeyName : list Z := string_bytes "utxostateconsistency".

(** The fields of [BestState] that are stored. *)
Definition dbPutBestState (db : ChainDB) (hash : list Z) (height totalTxns workSum : Z) : ChainDB :=
  withMetadata db
    (<[chainStateKeyName := serializeBestChainState (mkBestChainState hash (u32 height) totalTxns workSum)]>
       (metadata db)).

Definition dbPutUtxoStateConsistency (db : ChainDB) (hash : list Z) : ChainDB :=
  withMetadata db (<[utxoStateConsistencyKeyName := hash]> (metadata db)).

Definition dbFetchUtxoStateConsistency (db : ChainDB) : option (list Z) :=
  metadata db !! utxoStateConsistencyKeyName.

Record DBBestSnapshot := mkDBBestSnapshot {
  dbs_Hash : list Z;
  dbs_Height : Z;
  dbs_TotalTxns : Z;
  dbs_UTXOStateHash : option (list Z) }.

Definition BestSnapshotFromDB (db : ChainDB) : result chainio_error DBBestSnapshot :=
  match metadata db !! chainStateKeyName with
  | None => Err (ErrCorruption "missing best chain state")
  | Some serializedData =>
      state ← deserializeBestChainState serializedData;
      let snapshot := mkDBBestSnapshot (bcs_hash state) (i32 (bcs_height state)) (bcs_totalTxns state) in
      match dbFetchUtxoStateConsistency db with
      | None | Some [] => Ok (snapshot None)
      | Some bs =>
          if negb (length bs =? HashSize)%nat
          then Err (ErrCorruption "corrupt UTXO state consistency hash length")
          else Ok (snapshot (Some bs))
      end
  end.

(** ** Header codes and the journal: proofs *)

Lemma headerCode_val h cb : 0 <= h < 2^31 -> headerCode h cb = 2 * h + (if cb then 1 else 0).
Proof.
  intros Hh. unfold headerCode. rewrite Z.shiftl_mul_pow2, (u64_id h) by (widths; lia).
  rewrite u64_id by (widths; lia). destruct cb; [|lia].
  pose proof (Z.add_lor_land (h * 2^1) 1) as H.
  assert (Z.land (h * 2^1) 1 = 0) as H0; [|lia].
  change 1 with (Z.ones 1) at 2. rewrite Z.land_ones by lia. apply Z.mod_mul. lia.
Qed.

Lemma headerCode_range h cb : 0 <= h < 2^31 -> is_u64 (headerCode h cb).
Proof. intros Hh. rewrite headerCode_val by done. widths. destruct cb; lia. Qed.

(** The two fields read back. *)
Lemma headerCode_flag h (cb : bool) :
  0 <= h < 2^31 -> negb (Z.land (headerCode h cb) 0x01 =? 0) = cb.
Proof.
  intros Hh. rewrite headerCode_val by done. change 0x01 with (Z.ones 1). rewrite Z.land_ones by lia.
  change (2^1) with 2. rewrite Z.add_comm, Z.mul_comm, Z.mod_add by lia. by destruct cb.
Qed.

Lemma headerCode_height h cb : 0 <= h < 2^31 -> i32 (Z.shiftr (headerCode h cb) 1) = h.
Proof.
  intros Hh. rewrite headerCode_val, Z.shiftr_div_pow2 by lia. change (2^1) with 2.
  rewrite Z.add_comm, Z.mul_comm, Z.div_add by lia.
  replace ((if cb then 1 else 0) / 2) with 0 by by destruct cb. rewrite i32_id; [lia|widths; lia].
Qed.

(** What the formats can hold: the amounts and heights of real chains. *)
Record storable (c : SpentTxOut) : Prop := {
  st_amount : 0 <= stxo_Amount c < 2^60;
  st_script : zlen (stxo_PkScript c) < 2^62;
  st_height : 0 <= stxo_Height c < 2^31 }.

Lemma drop_putVLQ n rest : drop (Z.to_nat (zlen (putVLQ n))) (putVLQ n ++ rest) = rest.
Proof. unfold zlen. by rewrite Nat2Z.id, drop_app_length. Qed.

Section format_proofs.
Context {codec : KeyCodec}.

Lemma putCompressedTxOut_not_nil a script : 0 < zlen (putCompressedTxOut a script).
Proof.
  unfold putCompressedTxOut. rewrite zlen_app.
  pose proof (putCompressedScript_not_nil script). pose proof (zlen_nonneg (putVLQ (compressTxOutAmount a))).
  lia.
Qed.

Lemma zlen_putSpentTxOut c : storable c -> zlen (putSpentTxOut c) = spentTxOutSerializeSize c.
Proof.
  intros [Ha Hs Hh]. unfold putSpentTxOut, spentTxOutSerializeSize. rewrite u64_id by (widths; lia).
  rewrite !zlen_app, zlen_putVLQ, zlen_putCompressedTxOut by (done || by apply headerCode_range).
  destruct (0 <? stxo_Height c); [rewrite zlen_putVLQ by done|change (zlen []) with 0]; lia.
Qed.

Context {codec_ok : RecoversKeys}.

Lemma decodeSpentTxOut_put c rest :
  storable c -> decodeSpentTxOut (putSpentTxOut c ++ rest) = Ok (c, zlen (putSpentTxOut c)).
Proof.
  intros [Ha Hs Hh]. unfold decodeSpentTxOut, putSpentTxOut, spentTxOutHeaderCode.
  rewrite (u64_id (stxo_Amount c)) by (widths; lia).
  set (code := headerCode _ _). set (out := putCompressedTxOut _ _).
  assert (Hc : is_u64 code) by by apply headerCode_range.
  assert (Hht : i32 (Z.shiftr code 1) = stxo_Height c) by by apply headerCode_height.
  assert (Hcb : negb (Z.land code 0x01 =? 0) = stxo_IsCoinBase c) by by apply headerCode_flag.
  pose proof (putVLQ_not_nil code Hc) as H1. pose proof (putCompressedTxOut_not_nil (stxo_Amount c) (stxo_PkScript c)) as H2.
  fold out in H2. pose proof (zlen_nonneg rest) as H3.
  rewrite <- !app_assoc, deserializeVLQ_put, !zlen_app, drop_putVLQ by done.
  cbv beta iota zeta. rewrite Hht, Hcb. destruct (0 <? stxo_Height c) eqn:Eh.
  - pose proof (putVLQ_not_nil 0 ltac:(done)) as H4. rewrite deserializeVLQ_put by done.
    repeat (case_match; [lia|]). result_simpl.
    replace (Z.to_nat (zlen (putVLQ code) + zlen (putVLQ 0)))
      with (Z.to_nat (zlen (putVLQ code)) + Z.to_nat (zlen (putVLQ 0)))%nat by lia.
    rewrite <- drop_drop, !drop_putVLQ. unfold out. rewrite decodeCompressedTxOut_put by done.
    rewrite i64_id by (widths; lia). f_equal. apply pair_equal_spec. split; [by destruct c|lia].
  - change (zlen []) with 0. repeat (case_match; [lia|]). result_simpl. rewrite drop_putVLQ. cbn [app].
    unfold out. rewrite decodeCompressedTxOut_put by done.
    rewrite i64_id by (widths; lia). f_equal. apply pair_equal_spec. split; [by destruct c|lia].
Qed.

Lemma readStxos cs ops rest acc :
  Forall storable cs -> length cs = length ops ->
  foldM readStxo (concat (map putSpentTxOut cs) ++ rest, acc) ops = Ok (rest, reverse cs ++ acc).
Proof.
  intros Hcs. revert ops acc; induction Hcs as [|c cs Hc Hcs IH]; intros [|op ops] acc Hl; try done.
  cbn [map concat foldM readStxo]. rewrite <- app_assoc, decodeSpentTxOut_put by done.
  unfold zlen. rewrite Nat2Z.id, drop_app_length. rewrite IH by (cbn in Hl; lia).
  by rewrite reverse_cons, <- app_assoc.
Qed.

Lemma putSpentTxOut_not_nil c : 0 <= stxo_Height c < 2^31 -> 0 < zlen (putSpentTxOut c).
Proof.
  intros Hh. unfold putSpentTxOut. rewrite !zlen_app.
  pose proof (putVLQ_not_nil (spentTxOutHeaderCode c) (headerCode_range _ _ Hh)).
  pose proof (putCompressedTxOut_not_nil (u64 (stxo_Amount c)) (stxo_PkScript c)).
  pose proof (zlen_nonneg (if 0 <? stxo_Height c then putVLQ 0 else [])). lia.
Qed.

Lemma journal_roundtrip cs txns :
  Forall storable cs -> length cs = length (concat (map prevOuts txns)) ->
  deserializeSpendJournalEntry (serializeSpendJournalEntry cs) txns = Ok cs.
Proof.
  intros Hcs Hl. unfold deserializeSpendJournalEntry, serializeSpendJournalEntry.
  destruct cs as [|c cs _] using rev_ind.
  { change (zlen (concat (map putSpentTxOut (reverse [])))) with 0. cbn [Z.eqb].
    unfold zlen. rewrite <- Hl. done. }
  rewrite reverse_snoc. cbn [map concat]. apply Forall_app in Hcs as [Hcs Hc].
  apply Forall_cons_1 in Hc as [Hc _]. rewrite zlen_app.
  pose proof (putSpentTxOut_not_nil c ltac:(apply Hc)). pose proof (zlen_nonneg (concat (map putSpentTxOut (reverse cs)))).
  case_match; [lia|]. pose proof (readStxos (c :: reverse cs) (reverse (concat (map prevOuts txns))) [] []) as R.
  cbn [map concat] in R. rewrite app_nil_r in R. rewrite R.
  - result_simpl. rewrite app_nil_r, reverse_cons, reverse_involutive. done.
  - constructor; [done|by apply Forall_reverse].
  - rewrite length_app in Hl. cbn [length] in Hl |- *. rewrite !length_reverse. lia.
Qed.

Lemma length_inputs txs :
  length (concat (map prevOuts txs)) = sum_list (map (fun tx => length (TxIns tx)) txs).
Proof.
  induction txs as [|tx txs IH]; [done|].
  change (length (prevOuts tx ++ concat (map prevOuts txs))
          = length (TxIns tx) + sum_list (map (fun tx => length (TxIns tx)) txs))%nat.
  rewrite length_app, IH. unfold prevOuts. by rewrite length_map.
Qed.

(** The journal a block leaves in the database is read back for that block. *)
Lemma dbSpendJournal_roundtrip db block cs :
  Transactions block <> [] -> Forall storable cs -> length cs = countSpentOutputs block ->
  dbFetchSpendJournalEntry (dbPutSpendJournalEntry db (Block_Hash block) cs) block = Ok cs.
Proof.
  intros Hne Hcs Hl. unfold dbFetchSpendJournalEntry, dbPutSpendJournalEntry. cbn [withSpendJournal spendJournalBucket].
  rewrite lookup_insert_eq. change (default [] (Some ?x)) with x. unfold countSpentOutputs in Hl.
  destruct (Transactions block) as [|cb rest]; [done|]. cbn [drop] in Hl.
  rewrite journal_roundtrip; [done|done|]. by rewrite length_inputs.
Qed.

(** ** The stored UTXO set: proofs *)

(** A coin as a fresh read of the database gives it. *)
Definition storedEntry (c : SpentTxOut) : UtxoEntry :=
  mkUtxoEntry (stxo_Amount c) (stxo_PkScript c) (stxo_Height c)
    (if stxo_IsCoinBase c then tfCoinBase else 0).

Definition coinBytes (c : SpentTxOut) : list Z :=
  putVLQ (spentTxOutHeaderCode c) ++ putCompressedTxOut (u64 (stxo_Amount c)) (stxo_PkScript c).

Lemma serializeUtxoEntry_live e :
  IsSpent e = false -> serializeUtxoEntry e = Ok (coinBytes (entryStxo e)).
Proof. intros He. unfold serializeUtxoEntry, utxoEntryHeaderCode. by rewrite He. Qed.

Lemma coinBytes_not_nil c : 0 < zlen (coinBytes c).
Proof.
  unfold coinBytes. rewrite zlen_app.
  pose proof (putCompressedTxOut_not_nil (u64 (stxo_Amount c)) (stxo_PkScript c)).
  pose proof (zlen_nonneg (putVLQ (spentTxOutHeaderCode c))). lia.
Qed.

Lemma deserializeUtxoEntry_coin c : storable c -> deserializeUtxoEntry (coinBytes c) = Ok (storedEntry c).
Proof.
  intros [Ha Hs Hh]. unfold deserializeUtxoEntry, coinBytes, spentTxOutHeaderCode.
  rewrite (u64_id (stxo_Amount c)) by (widths; lia). set (code := headerCode _ _).
  assert (Hc : is_u64 code) by by apply headerCode_range.
  assert (Hht : i32 (Z.shiftr code 1) = stxo_Height c) by by apply headerCode_height.
  assert (Hcb : negb (Z.land code 0x01 =? 0) = stxo_IsCoinBase c) by by apply headerCode_flag.
  pose proof (putCompressedTxOut_not_nil (stxo_Amount c) (stxo_PkScript c)).
  rewrite deserializeVLQ_put, zlen_app, drop_putVLQ by done. cbv beta iota zeta. rewrite Hht, Hcb.
  case_match; [lia|]. rewrite <- (app_nil_r (putCompressedTxOut _ _)), decodeCompressedTxOut_put by done.
  rewrite i64_id by (widths; lia). done.
Qed.

Lemma outpointKey_inj op op' :
  wf_outpoint op -> wf_outpoint op' -> outpointKey op = outpointKey op' -> op = op'.
Proof.
  intros [Hh Hi] [Hh' Hi'] E. unfold outpointKey in E. apply app_inj_1 in E as [E1 E2]; [|congruence].
  destruct op as [h i], op' as [h' i']; cbn [Hash Index] in *.
  assert (is_u64 i /\ is_u64 i') as [H1 H2] by (widths; lia).
  pose proof (deserializeVLQ_put i [] H1) as D. pose proof (deserializeVLQ_put i' [] H2) as D'.
  rewrite E2, D' in D. congruence.
Qed.

(** The bucket that stores a ledger, and nothing else. *)
Definition wf_coin (op : OutPoint) (c : SpentTxOut) : Prop := wf_outpoint op /\ storable c.

Definition stored (u : utxo_set) (b : Bucket) : Prop :=
  map_Forall wf_coin u /\ index_of (fun op _ => outpointKey op) (fun _ c => coinBytes c) u b.

Lemma coin_key_inj op c op' c' :
  wf_coin op c -> wf_coin op' c' -> outpointKey op = outpointKey op' -> op = op'.
Proof. intros [] []. by apply outpointKey_inj. Qed.

Lemma stored_empty : stored ∅ ∅.
Proof. split; [apply map_Forall_empty|apply index_of_empty]. Qed.

Lemma stored_lookup u b op :
  stored u b -> wf_outpoint op -> b !! outpointKey op = coinBytes <$> u !! op.
Proof.
  intros [Hwf Hb] Hop. destruct (u !! op) as [c|] eqn:E; cbn [fmap option_fmap option_map].
  - apply Hb. by exists op, c.
  - destruct (b !! outpointKey op) as [v|] eqn:Ev; [|done].
    apply Hb in Ev as (op' & c' & H1 & H2 & _).
    assert (op = op') as -> by (apply outpointKey_inj; [done|apply (Hwf _ _ H1)|done]). congruence.
Qed.

Lemma stored_delete u b op :
  stored u b -> wf_outpoint op -> stored (delete op u) (delete (outpointKey op) b).
Proof.
  intros Hs Hop. pose proof (stored_lookup _ _ _ Hs Hop) as Hl. destruct Hs as [Hwf Hb].
  split; [by apply map_Forall_delete|]. destruct (u !! op) as [c|] eqn:E.
  - by apply (index_of_delete _ _ wf_coin coin_key_inj u b op c).
  - by rewrite !delete_id.
Qed.

Lemma stored_insert u b op c :
  stored u b -> wf_coin op c -> stored (<[op := c]> u) (<[outpointKey op := coinBytes c]> b).
Proof.
  intros Hs Hc. destruct (stored_delete u b op Hs ltac:(apply Hc)) as [Hwf Hb].
  rewrite <- (insert_delete_eq u), <- (insert_delete_eq b). split; [by apply map_Forall_insert_2|].
  apply (index_of_insert _ (fun _ c => coinBytes c) wf_coin coin_key_inj (delete op u) _ op c); try done.
  apply lookup_delete_eq.
Qed.

Lemma dbFetchUtxoEntry_stored db u op :
  stored u (utxoSetBucket db) -> wf_outpoint op ->
  dbFetchUtxoEntry db op = Ok (storedEntry <$> u !! op).
Proof.
  intros Hs Hop. unfold dbFetchUtxoEntry. rewrite (stored_lookup _ _ _ Hs Hop).
  destruct (u !! op) as [c|] eqn:E; cbn [fmap option_fmap option_map]; [|done].
  pose proof (coinBytes_not_nil c). case_match; [lia|].
  rewrite deserializeUtxoEntry_coin; [done|]. apply (proj1 Hs _ _ E).
Qed.

(** Reading an entry back loses its fresh and modified marks only. *)
Lemma live_storedEntry c : live_entry (storedEntry c) = Some c.
Proof. destruct c as [a s h []]; done. Qed.

(** ** Writing a view *)

(** The ledger after the marked entries of a view are written over [u]. *)
Definition writeEntry (u : utxo_set) (oe : OutPoint * UtxoEntry) : utxo_set :=
  if negb (isModified oe.2) then u
  else match live_entry oe.2 with Some c => <[oe.1 := c]> u | None => delete oe.1 u end.

(** What a view may hold for its entries to be storable. *)
Definition wf_view_entry (op : OutPoint) (e : UtxoEntry) : Prop :=
  wf_outpoint op /\ (IsSpent e = false -> storable (entryStxo e)).

Lemma putViewEntry_stored u b op e :
  stored u b -> wf_view_entry op e ->
  exists b', putViewEntry b (op, e) = Ok b' /\ stored (writeEntry u (op, e)) b'.
Proof.
  intros Hs [Hop He]. unfold putViewEntry, writeEntry. cbn [fst snd].
  destruct (isModified e); cbn [negb]; [|by eexists].
  unfold live_entry. destruct (IsSpent e) eqn:Es.
  - eexists. split; [done|]. by apply stored_delete.
  - unfold dbPutUtxoEntry. rewrite Es, serializeUtxoEntry_live by done. result_simpl.
    eexists. split; [done|]. apply stored_insert; [done|]. split; auto.
Qed.

Lemma putViewEntries_stored l u b :
  stored u b -> Forall (fun oe => wf_view_entry oe.1 oe.2) l ->
  exists b', foldM putViewEntry b l = Ok b' /\ stored (foldl writeEntry u l) b'.
Proof.
  intros Hs Hl. revert u b Hs; induction Hl as [|[op e] l He Hl IH]; intros u b Hs; [by eexists|].
  destruct (putViewEntry_stored u b op e Hs He) as (b1 & E1 & H1). cbn [foldM foldl]. rewrite E1.
  by apply IH.
Qed.

Lemma foldl_writeEntry l u op :
  NoDup l.*1 ->
  foldl writeEntry u l !! op
  = match (list_to_map l : gmap OutPoint UtxoEntry) !! op with
    | Some e => if isModified e then live_entry e else u !! op
    | None => u !! op
    end.
Proof.
  revert u; induction l as [|[op' e] l IH]; intros u; cbn [fmap list_fmap foldl fst snd]; [done|].
  intros [Hni Hnd]%NoDup_cons. rewrite IH, list_to_map_cons by done. unfold writeEntry; cbn [fst snd].
  apply not_elem_of_list_to_map_1 in Hni. destruct (decide (op = op')) as [->|Hne].
  - rewrite Hni, lookup_insert_eq. destruct (isModified e); [|done]. cbn [negb].
    destruct (live_entry e); by rewrite ?lookup_insert_eq, ?lookup_delete_eq.
  - rewrite lookup_insert_ne by done.
    assert (Hu : (if negb (isModified e) then u
                  else match live_entry e with Some c => <[op' := c]> u | None => delete op' u end) !! op
                 = u !! op).
    { destruct (isModified e); [|done]. cbn [negb]. destruct (live_entry e);
        by rewrite ?lookup_insert_ne, ?lookup_delete_ne. }
    by rewrite Hu.
Qed.

(** Writing a view that agrees with the stored ledger on what it did not touch
    leaves the bucket of the ledger the view describes. *)
Lemma dbPutUtxoView_stored db u view :
  stored u (utxoSetBucket db) -> map_Forall wf_view_entry (entries view) -> agrees u view ->
  exists db', dbPutUtxoView db (Some view) = Ok db' /\ stored (coins u view) (utxoSetBucket db').
Proof.
  intros Hs Hwf Hag. unfold dbPutUtxoView.
  destruct (putViewEntries_stored (map_to_list (entries view)) _ _ Hs) as (b' & -> & Hb').
  { by apply Forall_forall; intros [op e] H%elem_of_map_to_list; apply (Hwf op e). }
  result_simpl. eexists. split; [done|]. cbn [withUtxoSet utxoSetBucket].
  replace (coins u view) with (foldl writeEntry u (map_to_list (entries view))); [done|].
  apply map_eq. intros op. rewrite foldl_writeEntry, list_to_map_to_list by apply NoDup_fst_map_to_list.
  rewrite lookup_coins. destruct (entries view !! op) as [e|] eqn:E; [|done].
  destruct (isModified e) eqn:Em; [done|]. symmetry. by apply Hag.
Qed.
End format_proofs.
