(* ===== verification/ChainStore.v ===== *)
(** * What the stored chain gives back

    Proofs about ChainIO.v: scans of the stored UTXO set, the lookup by
    transaction hash, the best state, the block indexes, and the properties of
    chain storage with their witnesses. *)

From S2P Require Import Prelude Sha256 Wire Commitment Script Block Compress Bucket Ledger UtxoView WorkMath ChainIO.

(** ** Scanning the UTXO set *)

Definition snapshotOf (oc : OutPoint * SpentTxOut) : UTXOSnapshotEntry :=
  mkUTXOSnapshotEntry oc.1 (stxo_Height oc.2) (stxo_Amount oc.2) (stxo_IsCoinBase oc.2) (stxo_PkScript oc.2).

Definition liftFn {E A} (r : result E A) : result (iter_error E) A :=
  match r with Ok a => Ok a | Err e => Err (FnError e) end.

(** The key of a coin in the cursor. *)
Definition coinKey (oc : OutPoint * SpentTxOut) : list Z := outpointKey oc.1.

Section scan.
Context {codec : KeyCodec}.

Lemma cursor_stored u b :
  stored u b ->
  exists L, cursorFirst b = map coinKey L /\ L ≡ₚ map_to_list u /\
            StronglySorted (fun p q => bytes_compare (coinKey p) (coinKey q) = Lt) L.
Proof. intros [Hwf Hb]. exact (cursorFirst_index _ _ wf_coin coin_key_inj u b Hwf Hb). Qed.

Lemma stored_elem u b L op c :
  stored u b -> L ≡ₚ map_to_list u -> (op, c) ∈ L -> u !! op = Some c /\ wf_coin op c.
Proof.
  intros [Hwf _] HP Hin. rewrite HP, elem_of_map_to_list in Hin. split; [done|]. by apply Hwf.
Qed.

Context {codec_ok : RecoversKeys}.

Lemma visitUTXO_coin {E S : Type} (fn : S -> UTXOSnapshotEntry -> result E S) u b s op c :
  stored u b -> u !! op = Some c ->
  visitUTXO b fn s (outpointKey op) = liftFn (fn s (snapshotOf (op, c))).
Proof.
  intros Hs Hc. destruct (proj1 Hs _ _ Hc) as [Hop Hst]. pose proof Hop as [Hh Hi]. unfold visitUTXO.
  rewrite (stored_lookup _ _ _ Hs Hop), Hc. cbn [fmap option_fmap option_map].
  change (default [] (Some ?x)) with x. rewrite deserializeUtxoEntry_coin by done.
  assert (is_u64 (Index op)) as Hi' by (widths; lia). pose proof (putVLQ_not_nil (Index op) Hi') as Hne.
  unfold zlen in Hne. unfold outpointKey. rewrite length_app, Hh.
  destruct (Nat.ltb_spec (HashSize + length (putVLQ (Index op))) (HashSize + 1)); [lia|].
  rewrite drop_app_length', take_app_length' by done.
  rewrite <- (app_nil_r (putVLQ _)), deserializeVLQ_put by done. rewrite u32_id by done.
  unfold snapshotOf. cbn [fst snd]. destruct op, c as [a sc h []]; by destruct (fn s _).
Qed.

(** The scan calls its function on every coin of the ledger, once each, in the
    order of the keys, until it fails. *)
Lemma ForEachUTXOInDB_stored {E S : Type} db u :
  stored u (utxoSetBucket db) ->
  exists L, L ≡ₚ map_to_list u /\
    StronglySorted (fun p q => bytes_compare (coinKey p) (coinKey q) = Lt) L /\
    forall (fn : S -> UTXOSnapshotEntry -> result E S) s,
      ForEachUTXOInDB db fn s = liftFn (foldM fn s (map snapshotOf L)).
Proof.
  intros Hs. destruct (cursor_stored _ _ Hs) as (L & EL & HP & Hsort).
  exists L. split; [done|]. split; [done|]. intros fn s. unfold ForEachUTXOInDB. rewrite EL.
  assert (Hall : Forall (fun oc => u !! oc.1 = Some oc.2) L).
  { apply Forall_forall. intros [op c] Hin. by apply (stored_elem u _ L op c Hs HP). }
  clear EL HP Hsort. revert s. induction Hall as [|[op c] L Hc HL IH]; intros s; [done|].
  cbn [map foldM]. change (coinKey (op, c)) with (outpointKey op). rewrite (visitUTXO_coin fn u _ s op c Hs Hc).
  destruct (fn s (snapshotOf (op, c))); cbn [liftFn]; [apply IH|done].
Qed.
End scan.

(** ** Looking up a transaction by its hash *)

Lemma vlqHigh_nonneg fuel n : 0 <= n -> Forall (fun b => 0 <= b) (vlqHigh fuel n).
Proof.
  revert n; induction fuel as [|fuel IH]; intros n Hn; [constructor|]. cbn [vlqHigh].
  destruct (Z.leb_spec n 127); [repeat constructor; lia|].
  pose proof (Z.mod_pos_bound n 128 ltac:(lia)).
  assert (1 <= n / 128) by (apply Z.div_le_lower_bound; lia).
  apply Forall_app. split; [apply IH; lia|repeat constructor; lia].
Qed.

(** The key of output 0 is the least of the keys of its transaction. *)
Lemma putVLQ_zero_least n : is_u64 n -> bytes_compare (putVLQ 0) (putVLQ n) <> Gt.
Proof.
  intros Hn. pose proof (putVLQ_not_nil n Hn) as Hne. change (putVLQ 0) with [0].
  assert (Forall (fun b => 0 <= b) (putVLQ n)) as Hall.
  { widths. rewrite putVLQ_high by lia. destruct (Z.leb_spec n 127); [repeat constructor; lia|].
    pose proof (Z.mod_pos_bound n 128 ltac:(lia)).
    assert (1 <= n / 128) by (apply Z.div_le_lower_bound; lia).
    apply Forall_app. split; [apply vlqHigh_nonneg; lia|repeat constructor; lia]. }
  destruct (putVLQ n) as [|b bs]; [done|]. apply Forall_cons_1 in Hall as [Hb _]. cbn [bytes_compare].
  destruct (Z.compare_spec 0 b); [by destruct bs|done|lia].
Qed.

(** A key between the first key of a hash and another key of the hash has it. *)
Lemma hash_sandwich h h1 v v1 :
  length h = length h1 ->
  bytes_compare (h ++ putVLQ 0) (h1 ++ v1) <> Gt -> bytes_compare (h1 ++ v1) (h ++ v) <> Gt -> h1 = h.
Proof.
  intros Hl. rewrite !bytes_compare_app by congruence. rewrite (bytes_compare_antisym h h1).
  destruct (bytes_compare h h1) eqn:E; cbn; try done. intros _ _. by apply bytes_compare_eq in E.
Qed.

Section by_hash.
Context {codec : KeyCodec} {codec_ok : RecoversKeys}.

(** The keys of the coins of [hash] are not below its first possible key. *)
Lemma coinKey_notBelow op :
  wf_outpoint op -> notBelow (outpointKey (mkOutPoint (Hash op) 0)) (outpointKey op) = true.
Proof.
  intros [_ Hi]. pose proof (putVLQ_zero_least (Index op) ltac:(widths; lia)) as Hz.
  unfold notBelow, outpointKey. cbn [Hash Index]. rewrite bytes_compare_antisym, bytes_compare_app by done.
  rewrite bytes_compare_refl. cbn [lex]. by destruct (bytes_compare (putVLQ 0) (putVLQ (Index op))).
Qed.

(** Where the seek for a hash stops. *)
Lemma seekHash_stored u b hash :
  stored u b -> length hash = HashSize ->
  match cursorSeek b (outpointKey (mkOutPoint hash 0)) with
  | [] => forall op c, u !! op = Some c -> Hash op <> hash
  | k :: _ => exists op1 c1, k = outpointKey op1 /\ u !! op1 = Some c1 /\
                (Hash op1 <> hash -> forall op c, u !! op = Some c -> Hash op <> hash)
  end.
Proof.
  intros Hs Hlen. destruct (cursor_stored _ _ Hs) as (L & EL & HP & Hsort). unfold cursorSeek. rewrite EL.
  set (s := outpointKey _).
  assert (Hks : StronglySorted (fun k k' => bytes_compare k k' = Lt) (map coinKey L)).
  { clear EL HP. induction Hsort as [|p L HL IH Hp]; cbn [map]; constructor; [done|]. by apply Forall_map. }
  assert (Hel : forall op c, u !! op = Some c -> outpointKey op ∈ map coinKey L).
  { intros op c Hc. apply list_elem_of_fmap. exists (op, c). split; [done|].
    rewrite HP. by apply elem_of_map_to_list. }
  assert (Hnb : forall op c, u !! op = Some c -> Hash op = hash -> notBelow s (outpointKey op) = true).
  { intros op c Hc Hh. unfold s. rewrite <- Hh. apply coinKey_notBelow, (proj1 Hs _ _ Hc). }
  pose proof (seekIn_first s _ Hks) as Hfirst. destruct (seekIn s (map coinKey L)) as [|k ks].
  { intros op c Hc Hh. rewrite Forall_forall in Hfirst.
    pose proof (Hfirst _ (Hel op c Hc)) as Hf. by rewrite (Hnb op c Hc Hh) in Hf. }
  destruct Hfirst as (Hk & Hks1 & Hleast). apply list_elem_of_fmap in Hk as ([op1 c1] & -> & Hin).
  destruct (stored_elem u _ L op1 c1 Hs HP Hin) as [Hc1 [[Hh1 _] _]].
  exists op1, c1. split; [done|]. split; [done|]. intros Hne op c Hc Hh. apply Hne.
  rewrite Forall_forall in Hleast. pose proof (Hleast _ (Hel op c Hc) (Hnb op c Hc Hh)) as Hle. clear Hleast Hnb.
  apply (hash_sandwich hash (Hash op1) (putVLQ (Index op)) (putVLQ (Index op1))); [congruence| |].
  - unfold notBelow in Hks1. rewrite bytes_compare_antisym in Hks1. unfold s, coinKey, outpointKey in Hks1.
    cbn [Hash Index fst] in Hks1. by destruct (bytes_compare (hash ++ putVLQ 0) (Hash op1 ++ putVLQ (Index op1))).
  - rewrite <- Hh. exact Hle.
Qed.

Lemma dbFetchUtxoEntryByHash_stored db u hash :
  stored u (utxoSetBucket db) -> length hash = HashSize ->
  ((forall op c, u !! op = Some c -> Hash op <> hash) /\ dbFetchUtxoEntryByHash db hash = Ok None) \/
  (exists op c, u !! op = Some c /\ Hash op = hash /\
                dbFetchUtxoEntryByHash db hash = Ok (Some (storedEntry c))).
Proof.
  intros Hs Hlen. pose proof (seekHash_stored u _ hash Hs Hlen) as Hseek. unfold dbFetchUtxoEntryByHash.
  destruct (cursorSeek (utxoSetBucket db) (outpointKey (mkOutPoint hash 0))) as [|k ks]; [by left|].
  destruct Hseek as (op1 & c1 & -> & Hc1 & Hne). destruct (proj1 Hs _ _ Hc1) as [Hop1 Hst1].
  pose proof Hop1 as [Hh1 Hi1].
  assert (Htake : take HashSize (outpointKey op1) = Hash op1) by (unfold outpointKey; by apply take_app_length').
  rewrite Htake. destruct (Nat.ltb_spec (length (outpointKey op1)) HashSize) as [Hlt|_].
  { unfold outpointKey in Hlt. rewrite length_app in Hlt. lia. }
  destruct (decide (Hash op1 = hash)) as [Heq|Heq].
  - right. exists op1, c1. split; [done|]. split; [done|].
    rewrite bool_decide_true by done. cbn [negb].
    rewrite (stored_lookup _ _ _ Hs Hop1), Hc1. cbn [fmap option_fmap option_map].
    change (default [] (Some ?x)) with x. rewrite deserializeUtxoEntry_coin by done. reflexivity.
  - left. rewrite bool_decide_false by congruence. split; [by apply Hne|done].
Qed.
End by_hash.

(** ** Best state and block indexes *)

Lemma be_val_bigBytes n : 0 <= n -> be_val (bigBytes n) = n.
Proof.
  intros Hn. unfold bigBytes. rewrite Z.abs_eq, be_val_be_bytes by done. apply Z.mod_small. split; [done|].
  unfold bigBytesLen, pow256. destruct (Z.eqb_spec n 0) as [->|Hne]; [done|].
  pose proof (Z.log2_nonneg n). pose proof (Z.log2_spec n ltac:(lia)) as [_ Hlt].
  assert (0 <= Z.log2 n / 8) by (apply Z.div_pos; lia). rewrite Z2Nat.id by lia.
  change 256 with (2^8). rewrite <- Z.pow_mul_r by lia.
  eapply Z.lt_le_trans; [exact Hlt|]. apply Z.pow_le_mono_r; [lia|].
  pose proof (Z.div_mod (Z.log2 n) 8 ltac:(lia)). pose proof (Z.mod_pos_bound (Z.log2 n) 8 ltac:(lia)). lia.
Qed.

(** The fields of a best state at their widths; the work of a real chain has a
    few dozen bytes. *)
Record wf_best (st : bestChainState) : Prop := {
  wb_hash : length (bcs_hash st) = HashSize;
  wb_height : is_u32 (bcs_height st);
  wb_txns : is_u64 (bcs_totalTxns st);
  wb_work : 0 <= bcs_workSum st;
  wb_size : zlen (bigBytes (bcs_workSum st)) < 2^32 }.

Lemma slice_app_r {A} (a b : list A) i j n :
  length a = n -> (n <= i)%nat -> slice i j (a ++ b) = slice (i - n) (j - n) b.
Proof.
  intros Ha Hi. unfold slice. rewrite drop_app_ge by lia. rewrite Ha. f_equal. lia.
Qed.

Lemma slice_app_l {A} (a b : list A) n : length a = n -> slice 0 n (a ++ b) = a.
Proof. intros Ha. unfold slice. rewrite drop_0, Nat.sub_0_r. by apply take_app_length'. Qed.

Lemma bestState_roundtrip st :
  wf_best st -> deserializeBestChainState (serializeBestChainState st) = Ok st.
Proof.
  intros [Hh Hht Ht Hw Hsz]. unfold deserializeBestChainState, serializeBestChainState.
  set (w := bigBytes (bcs_workSum st)) in *. pose proof (zlen_nonneg w).
  rewrite (u32_id (zlen w)) by (widths; lia).
  unfold HashSize in Hh. assert (zlen (bcs_hash st) = 32) as Hz by (unfold zlen; lia).
  rewrite !zlen_app, !zlen_le_bytes, Hz. rewrite (proj2 (Z.ltb_ge _ _)) by lia.
  rewrite !(slice_app_r (bcs_hash st) _ _ _ 32) by (done || lia). cbn [Nat.sub].
  rewrite (slice_app_r (le_bytes 4 (bcs_height st)) _ 4 12 4), (slice_app_r (le_bytes 4 (bcs_height st)) _ 12 16 4)
    by (apply length_le_bytes || lia).
  rewrite (slice_app_r (le_bytes 8 _) _ _ _ 8) by (apply length_le_bytes || lia).
  cbn [Nat.sub]. rewrite !slice_app_l by apply length_le_bytes.
  rewrite take_app_length' by done. rewrite !le_val_u32 by (widths; lia).
  rewrite le_val_le_bytes, pow256_8, Z.mod_small by done.
  replace 48%nat with (length (bcs_hash st ++ le_bytes 4 (bcs_height st) ++ le_bytes 8 (bcs_totalTxns st) ++ le_bytes 4 (zlen w)))
    by (rewrite !length_app, !length_le_bytes, Hh; done).
  rewrite !app_assoc, drop_app_length. rewrite u32_id by (widths; lia).
  rewrite Z.ltb_irrefl, (sliceZ_tail [] w) by done. result_simpl.
  unfold w. rewrite be_val_bigBytes by done. by destruct st.
Qed.

Lemma blockRow_roundtrip header status r :
  wf_header header -> deserializeBlockRow (writeBlockHeaderBuf header ++ status :: r) = Ok (header, status).
Proof.
  intros Hwf. unfold deserializeBlockRow. destruct (readBlockHeader_write header (status :: r) Hwf) as [_ ->].
  result_simpl. change (status :: r) with ([status] ++ r). by rewrite readFull_app.
Qed.

(** ** Undoing a block from what is stored *)

Section undo_wf.
Context (dbFetch : list Z -> result view_error (option UtxoEntry)).

Definition wf_view (view : UtxoViewpoint) : Prop := map_Forall wf_view_entry (entries view).

Lemma wf_view_set view op e : wf_view view -> wf_view_entry op e -> wf_view (setEntry view op e).
Proof. intros Hv He. by apply map_Forall_insert_2. Qed.

Lemma unconnectOutputs_wf view hash h flags i outs :
  length hash = HashSize -> wf_view view -> wf_view (unconnectOutputs view hash h flags i outs).
Proof.
  intros Hh. revert view i; induction outs as [|o outs IH]; intros view i Hv; cbn [unconnectOutputs]; [done|].
  apply IH. destruct (IsUnspendable (PkScript o)); [done|]. apply wf_view_set; [done|].
  split; [split; [done|apply u32_range]|]. by rewrite Spend_spent.
Qed.

(** The journal entries still to be used are storable and of the current format. *)
Definition wf_undo (st : undoState) : Prop :=
  wf_view st.1.1 /\ Forall (fun c => storable c /\ stxo_Height c <> 0) st.1.2.

Lemma restoreInput_wf txHash st op st' :
  wf_outpoint op -> wf_undo st -> restoreInput dbFetch txHash st op = Ok st' -> wf_undo st'.
Proof.
  destruct st as [[view pending] used]. intros Hop [Hv Hp]. cbn [fst snd] in Hv, Hp. unfold restoreInput.
  destruct pending as [|c pending]; [done|]. apply Forall_cons_1 in Hp as [[Hc Hh] Hp].
  destruct (Z.eqb_spec (stxo_Height c) 0); [done|]. result_simpl. intros [= <-]. split; [|done].
  intros op' e. cbn [fst]. unfold setEntry; cbn [entries]. destruct (decide (op' = op)) as [->|Hne].
  - rewrite lookup_insert_eq. intros [= <-]. split; [done|]. intros _. by destruct c as [a s h []].
  - rewrite lookup_insert_ne by done. destruct (entries view !! op); [apply Hv|].
    cbn [entries]. rewrite lookup_insert_ne by done. apply Hv.
Qed.

Lemma disconnectTransaction_wf h st itx st' :
  Forall wf_outpoint (prevOuts itx.2) -> wf_undo st ->
  disconnectTransaction dbFetch h st itx = Ok st' -> wf_undo st'.
Proof.
  destruct st as [[view pending] used], itx as [k tx]. cbn [snd]. intros Hin [Hv Hp]. unfold disconnectTransaction.
  assert (Hu : forall flags, wf_view (unconnectOutputs view (TxHash tx) h flags 0 (TxOuts tx)))
    by (intros; apply unconnectOutputs_wf; [apply length_DoubleHashB|done]).
  destruct (k =? 0)%nat; [intros [= <-]; split; [apply Hu|done]|]. apply foldM_inv; [split; [apply Hu|done]|].
  intros s op s' Hs Hop. apply restoreInput_wf; [|done].
  rewrite Forall_forall in Hin. apply Hin. by rewrite elem_of_reverse in Hop.
Qed.

Lemma disconnectTransactions_wf view block stxos view' used :
  Forall (fun tx => Forall wf_outpoint (prevOuts tx)) (Transactions block) -> wf_view view ->
  Forall storable stxos -> journal_ok stxos ->
  disconnectTransactions dbFetch view block stxos = Ok (view', used) -> wf_view view'.
Proof.
  intros Hin Hv Hst Hj. unfold disconnectTransactions. case_match; [done|]. rewrite result_bind_Ok.
  intros ([[view1 p] us] & E & [= <- <-]). change (wf_view (SetBestHash view1 _)) with (wf_view view1).
  refine (proj1 (foldM_inv wf_undo _ _ _ _ _ _ E)).
  - split; [done|]. apply Forall_reverse, Forall_and. by split.
  - intros s [k tx] s' Hs Hx. apply disconnectTransaction_wf; [|done].
    rewrite elem_of_reverse in Hx. apply elem_of_zip_r in Hx. rewrite Forall_forall in Hin. by apply Hin.
Qed.
End undo_wf.

Section storage_properties.
Context {codec : KeyCodec} {codec_ok : RecoversKeys}.

(** C34: a block can be undone from what the node stored about it. Let the UTXO
    bucket store the ledger after a block, and the block's journal be written
    with [dbPutSpendJournalEntry]. Then [dbFetchSpendJournalEntry] gives the
    journal back; undoing the block on any view loaded from that ledger succeeds,
    and writing the view with [dbPutUtxoView] succeeds and leaves the bucket that
    stores the ledger before the block. *)
Theorem undo_from_disk dbFetch db block view u0 u cs :
  block_shape (Transactions block) ->
  Forall (fun tx => Forall wf_outpoint (prevOuts tx)) (Transactions block) ->
  applyTxs (Height block) u0 (Transactions block) = Some (u, cs) ->
  Forall storable cs -> journal_ok cs ->
  stored u (utxoSetBucket db) -> coins u view = u -> agrees u view -> wf_view view ->
  let db1 := dbPutSpendJournalEntry db (Block_Hash block) cs in
  dbFetchSpendJournalEntry db1 block = Ok cs /\
  exists view' db2,
    disconnectTransactions dbFetch view block cs = Ok (view', cs) /\
    dbPutUtxoView db1 (Some view') = Ok db2 /\ stored u0 (utxoSetBucket db2).
Proof.
  intros Hsh Hin Happ Hst Hj Hs Hco Hag Hwf db1. pose proof (applyTxs_journal_length _ _ _ _ _ Hsh Happ) as Hl.
  split.
  - apply dbSpendJournal_roundtrip; [|done|done]. by destruct (Transactions block).
  - destruct (disconnectTransactions_refines u dbFetch view block cs Hsh Hl Hj) as (view' & E & Hc & _).
    destruct (dbPutUtxoView_stored db1 u view') as (db2 & E2 & Hs2); [done| | |].
    + by apply (disconnectTransactions_wf dbFetch view block cs view' cs).
    + by apply (disconnectTransactions_agrees u dbFetch view block cs view' cs).
    + exists view', db2. split; [done|]. split; [done|].
      rewrite Hc, Hco, (undoTxs_applyTxs _ _ _ _ _ Happ) in Hs2. done.
Qed.

(** Scanning the stored UTXO set visits the ledger. [ForEachUTXOInDB] calls
    its function once for every coin, with the coin's outpoint, height, amount,
    coinbase flag and script, in the increasing order of the keys; it stops
    exactly where the function fails and returns that error. *)
Theorem ForEachUTXOInDB_visits {E S : Type} db u (fn : S -> UTXOSnapshotEntry -> result E S) s :
  stored u (utxoSetBucket db) ->
  exists L, L ≡ₚ map_to_list u /\
    StronglySorted (fun p q => bytes_compare (coinKey p) (coinKey q) = Lt) L /\
    ForEachUTXOInDB db fn s
    = match foldM fn s (map snapshotOf L) with Ok s' => Ok s' | Err e => Err (FnError e) end.
Proof.
  intros Hs. destruct (ForEachUTXOInDB_stored (E:=E) (S:=S) db u Hs) as (L & HP & Hsort & H).
  exists L. split; [done|]. split; [done|]. apply H.
Qed.
End storage_properties.

(** ** Ledgers of well-formed blocks are storable *)

Definition wf_outputs (txs : list MsgTx) : Prop :=
  Forall (fun tx => Forall (fun o => 0 <= Value o < 2^60 /\ zlen (PkScript o) < 2^62) (TxOuts tx)) txs.

Lemma newCoinsFrom_wf hash h cb i outs :
  length hash = HashSize -> 0 <= h < 2^31 ->
  Forall (fun o => 0 <= Value o < 2^60 /\ zlen (PkScript o) < 2^62) outs ->
  Forall (fun oc => wf_coin oc.1 oc.2) (newCoinsFrom hash h cb i outs).
Proof.
  intros Hh Hht Ho. revert i; induction Ho as [|o outs [Ho1 Ho2] Ho IH]; intros i; cbn [newCoinsFrom]; [constructor|].
  apply Forall_app. split; [|apply IH]. destruct (IsUnspendable (PkScript o)); [constructor|].
  constructor; [|constructor]. split; split; try done; apply u32_range.
Qed.

Lemma addCoins_wf u l u' :
  map_Forall wf_coin u -> Forall (fun oc => wf_coin oc.1 oc.2) l -> addCoins u l = Some u' -> map_Forall wf_coin u'.
Proof.
  intros Hu Hl. revert u Hu; induction Hl as [|[op c] l Hc Hl IH]; intros u Hu; cbn [addCoins]; [by intros [= <-]|].
  destruct (u !! op); [done|]. apply IH. by apply map_Forall_insert_2.
Qed.

Lemma spendCoins_wf u ops u' cs :
  map_Forall wf_coin u -> spendCoins u ops = Some (u', cs) -> map_Forall wf_coin u' /\ Forall storable cs.
Proof.
  revert u cs; induction ops as [|op ops IH]; intros u cs Hu; cbn [spendCoins]; [intros [= <- <-]; by split|].
  destruct (u !! op) as [c|] eqn:E; cbn [mbind option_bind]; [|done].
  destruct (spendCoins (delete op u) ops) as [[u1 cs1]|] eqn:E1; cbn [mbind option_bind]; [|done].
  intros [= <- <-]. destruct (IH _ _ (map_Forall_delete _ _ _ Hu) E1) as [H1 H2].
  split; [done|]. constructor; [|done]. apply (Hu _ _ E).
Qed.

Lemma applyTxs_wf h u txs u' cs :
  0 <= h < 2^31 -> map_Forall wf_coin u -> wf_outputs txs ->
  applyTxs h u txs = Some (u', cs) -> map_Forall wf_coin u' /\ Forall storable cs.
Proof.
  intros Hh Hu Ho. revert u cs Hu; induction Ho as [|tx txs Htx Ho IH]; intros u cs Hu H.
  { cbn in H. simplify_eq. by split. }
  apply applyTxs_cons in H as (u1 & cs1 & cs2 & H1 & H2 & ->).
  assert (map_Forall wf_coin u1 /\ Forall storable cs1) as [Hu1 Hc1].
  { pose proof (newCoinsFrom_wf (TxHash tx) h (IsCoinBaseTx tx) 0 (TxOuts tx) (length_DoubleHashB _) Hh Htx) as Hn.
    unfold applyTx in H1. destruct (IsCoinBaseTx tx) eqn:Ecb; cbn [mbind option_bind] in H1.
    - destruct (addCoins u (newCoins h tx)) eqn:Ea; cbn in H1; simplify_eq. split; [|constructor].
      refine (addCoins_wf u _ _ Hu _ Ea). unfold newCoins. by rewrite Ecb.
    - destruct (spendCoins u (prevOuts tx)) as [[us css]|] eqn:Es; cbn in H1; [|done].
      destruct (addCoins us (newCoins h tx)) eqn:Ea; cbn in H1; simplify_eq.
      destruct (spendCoins_wf u _ _ _ Hu Es) as [Hus Hcs]. split; [|done].
      refine (addCoins_wf us _ _ Hus _ Ea). unfold newCoins. by rewrite Ecb. }
  destruct (IH u1 cs2 Hu1 H2) as [Hu' Hc2]. split; [done|]. apply Forall_app. by split.
Qed.

(** The bucket that stores a ledger, built. *)
Definition storeLedger {codec : KeyCodec} (u : utxo_set) : Bucket :=
  map_fold (fun op c b => <[outpointKey op := coinBytes c]> b) ∅ u.

Lemma stored_storeLedger {codec : KeyCodec} u : map_Forall wf_coin u -> stored u (storeLedger u).
Proof.
  unfold storeLedger. apply (map_fold_weak_ind (fun b u => map_Forall wf_coin u -> stored u b)).
  - intros _. apply stored_empty.
  - intros op c u' b Hn IH Hwf. apply map_Forall_insert in Hwf as [Hc Hwf]; [|done].
    apply stored_insert; [by apply IH|done].
Qed.

(** ** Witnesses *)

#[local] Existing Instances bitCodec bitCodec_recovers.

Definition sampleDB (u : utxo_set) : ChainDB := mkChainDB ∅ ∅ (storeLedger u) ∅ ∅ ∅.

Lemma sampleView_live :
  live sampleView = {[mkOutPoint (replicate 32 7) 1 := mkSpentTxOut 1000 [83] 90 false]}.
Proof. unfold live, sampleView. cbn [entries]. rewrite omap_singleton. reflexivity. Qed.

Lemma sampleView_wf : map_Forall wf_coin (live sampleView).
Proof.
  rewrite sampleView_live. apply map_Forall_singleton. split; split; done.
Qed.

Lemma sampleBlock_outputs : wf_outputs (Transactions sampleBlock).
Proof.
  constructor; [|constructor; [|constructor]]; cbn [TxOuts sampleCoinbase sampleSpend];
    repeat (constructor; [split; [split|]; done|]); constructor.
Qed.

Lemma sampleBlock_inputs : Forall (fun tx => Forall wf_outpoint (prevOuts tx)) (Transactions sampleBlock).
Proof.
  constructor; [|constructor; [|constructor]];
    (constructor; [split; [reflexivity|split; [discriminate|reflexivity]]|constructor]).
Qed.

Lemma undo_from_disk_witness :
  exists u cs, sampleApplied = Some (u, cs) /\
    dbFetchSpendJournalEntry (dbPutSpendJournalEntry (sampleDB u) (Block_Hash sampleBlock) cs) sampleBlock = Ok cs /\
    exists view' db2,
      disconnectTransactions (fun _ => Ok None) NewUtxoViewpoint sampleBlock cs = Ok (view', cs) /\
      dbPutUtxoView (dbPutSpendJournalEntry (sampleDB u) (Block_Hash sampleBlock) cs) (Some view') = Ok db2 /\
      stored (live sampleView) (utxoSetBucket db2).
Proof.
  pose proof sampleApplied_journal as Hcs.
  destruct sampleApplied as [[u cs]|] eqn:E; [|destruct Hcs].
  assert (Hj : journal_ok cs) by (rewrite Hcs; constructor; [discriminate|constructor]).
  assert (Hwf : map_Forall wf_coin u /\ Forall storable cs).
  { refine (applyTxs_wf (Height sampleBlock) (live sampleView) (Transactions sampleBlock) u cs _ sampleView_wf
              sampleBlock_outputs E). split; [discriminate|reflexivity]. }
  exists u, cs. split; [reflexivity|].
  apply (undo_from_disk (fun _ => Ok None) (sampleDB u) sampleBlock NewUtxoViewpoint (live sampleView) u cs
           sampleBlock_shape sampleBlock_inputs E (proj2 Hwf) Hj).
  - apply stored_storeLedger, Hwf.
  - apply map_eq. intros op. rewrite lookup_coins. cbn [entries NewUtxoViewpoint]. by rewrite lookup_empty.
  - intros op e H. cbn [entries NewUtxoViewpoint] in H. by rewrite lookup_empty in H.
  - apply map_Forall_empty.
Defined.

Lemma ForEachUTXOInDB_visits_witness :
  ForEachUTXOInDB (E:=Empty_set) (sampleDB (live sampleView)) (fun acc e => Ok (acc ++ [snap_Amount e])) []
  = Ok [1000].
Proof.
  destruct (ForEachUTXOInDB_visits (E:=Empty_set) (sampleDB (live sampleView)) (live sampleView)
              (fun acc e => Ok (acc ++ [snap_Amount e])) [] (stored_storeLedger _ sampleView_wf)) as (L & HP & _ & ->).
  rewrite sampleView_live, map_to_list_singleton in HP. apply Permutation_singleton_r in HP as ->. reflexivity.
Defined.
