(* ===== verification/BlockNode.v ===== *)
(** * Block nodes

    src/blockchain/blockindex.go: the nodes of the block tree with their parent
    and skip pointers, [Ancestor], [CalcPastMedianTime], and the index of nodes
    with their validation status.

    A node carries its pointers, so that a node determines its whole branch; the
    status, the one field that changes, is kept by the index. Nodes are built by
    [newBlockNode], which fills in height, work and the skip pointer.

    The theorems: following skip pointers finds the node that following parents
    finds, work only grows along a branch, and the median time past of a chain
    never goes back. *)

From S2P Require Import Prelude Sha256 Wire Block WorkMath.

Record nodeData := mkNodeData {
  nd_hash : list Z;
  nd_workSum : Z;
  nd_height : Z;
  nd_version : Z;
  nd_bits : Z;
  nd_nonce : Z;
  nd_timestamp : Z;
  nd_merkleRoot : list Z }.

#[local] Set Warnings "-register-all".

Inductive blockNode :=
| Node (parent ancestor : option blockNode) (data : nodeData).

Definition nodeParent (n : blockNode) : option blockNode := let 'Node p _ _ := n in p.
Definition nodeAncestor (n : blockNode) : option blockNode := let 'Node _ a _ := n in a.
Definition nodeInfo (n : blockNode) : nodeData := let 'Node _ _ d := n in d.
Definition node_hash (n : blockNode) : list Z := nd_hash (nodeInfo n).
Definition node_height (n : blockNode) : Z := nd_height (nodeInfo n).
Definition node_workSum (n : blockNode) : Z := nd_workSum (nodeInfo n).
Definition node_bits (n : blockNode) : Z := nd_bits (nodeInfo n).
Definition node_timestamp (n : blockNode) : Z := nd_timestamp (nodeInfo n).

Definition invertLowestOne (n : Z) : Z := Z.land n (i32 (n - 1)).
Definition getAncestorHeight (height : Z) : Z := invertLowestOne (invertLowestOne height).

(** The loop of [Ancestor]; every step goes to a node the pointer holds. *)
Fixpoint ancestorLoop (n : blockNode) (height : Z) : option blockNode :=
  match n with
  | Node p a d =>
      if nd_height d =? height then Some n
      else
        match a with
        | Some a' =>
            if height <=? getAncestorHeight (nd_height d) then ancestorLoop a' height
            else match p with Some p' => ancestorLoop p' height | None => None end
        | None => match p with Some p' => ancestorLoop p' height | None => None end
        end
  end.

Definition Ancestor (node : blockNode) (height : Z) : option blockNode :=
  if (height <? 0) || (node_height node <? height) then None else ancestorLoop node height.

Definition RelativeAncestor (node : blockNode) (distance : Z) : option blockNode :=
  Ancestor node (i32 (node_height node - distance)).

Definition buildAncestor (parent : option blockNode) (height : Z) : option blockNode :=
  p ← parent; Ancestor p (getAncestorHeight height).

Definition newBlockNode (blockHeader : BlockHeader) (parent : option blockNode) : blockNode :=
  let height := match parent with Some p => i32 (node_height p + 1) | None => 0 end in
  let work := CalcWork (bh_Bits blockHeader) in
  Node parent (buildAncestor parent height)
    (mkNodeData (BlockHash blockHeader)
       (match parent with Some p => node_workSum p + work | None => work end)
       height (bh_Version blockHeader) (bh_Bits blockHeader) (bh_Nonce blockHeader)
       (bh_Timestamp blockHeader) (bh_MerkleRoot blockHeader)).

(** [Header]: the header back from the node. *)
Definition nodeHeader (node : blockNode) : BlockHeader :=
  let d := nodeInfo node in
  mkBlockHeader (nd_version d)
    (match nodeParent node with Some p => node_hash p | None => zeroHash end)
    (nd_merkleRoot d) (nd_timestamp d) (nd_bits d) (nd_nonce d).

(** Nodes of one index are the same node exactly when they have the same hash. *)
Definition sameNode (a b : blockNode) : bool := bool_decide (node_hash a = node_hash b).

Definition IsAncestor (node : blockNode) (otherNode : option blockNode) : bool :=
  match otherNode with
  | None => false
  | Some other =>
      match Ancestor node (node_height other) with
      | None => false
      | Some ancestor =>
          if node_height node =? node_height ancestor then false else sameNode ancestor other
      end
  end.

(** ** Median time past *)

Definition medianTimeBlocks : nat := 11.

(** The timestamps of the last [k] nodes, the node itself first. *)
Fixpoint pastTimestamps (k : nat) (node : blockNode) : list Z :=
  match k with
  | O => []
  | S k' =>
      node_timestamp node
        :: match nodeParent node with Some p => pastTimestamps k' p | None => [] end
  end.

(** [sort.Sort] of a [timeSorter]. *)
Definition sortTimes (l : list Z) : list Z := merge_sort Z.le l.

Definition medianOf (timestamps : list Z) : Z :=
  nth (length timestamps / 2) (sortTimes timestamps) 0.

Definition CalcPastMedianTime (node : blockNode) : Z :=
  medianOf (pastTimestamps medianTimeBlocks node).

(** ** The block index *)

Definition statusDataStored : Z := 1.
Definition statusValid : Z := 2.
Definition statusValidateFailed : Z := 4.
Definition statusInvalidAncestor : Z := 8.

Definition HaveData (status : Z) : bool := negb (Z.land status statusDataStored =? 0).
Definition KnownValid (status : Z) : bool := negb (Z.land status statusValid =? 0).
Definition KnownInvalid (status : Z) : bool :=
  negb (Z.land status (Z.lor statusValidateFailed statusInvalidAncestor) =? 0).

Record blockIndex := mkBlockIndex {
  bi_index : gmap (list Z) blockNode;
  bi_status : gmap (list Z) Z;
  bi_dirty : gset (list Z) }.

Definition HaveBlock (bi : blockIndex) (hash : list Z) : bool := bool_decide (is_Some (bi_index bi !! hash)).
Definition LookupNode (bi : blockIndex) (hash : list Z) : option blockNode := bi_index bi !! hash.

Definition addNode (bi : blockIndex) (node : blockNode) (status : Z) : blockIndex :=
  mkBlockIndex (<[node_hash node := node]> (bi_index bi)) (<[node_hash node := status]> (bi_status bi)) (bi_dirty bi).
Definition AddNode (bi : blockIndex) (node : blockNode) (status : Z) : blockIndex :=
  let bi' := addNode bi node status in
  mkBlockIndex (bi_index bi') (bi_status bi') ({[node_hash node]} ∪ bi_dirty bi').

Definition NodeStatus (bi : blockIndex) (node : blockNode) : Z := default 0 (bi_status bi !! node_hash node).

Definition SetStatusFlags (bi : blockIndex) (node : blockNode) (flags : Z) : blockIndex :=
  mkBlockIndex (bi_index bi) (<[node_hash node := Z.lor (NodeStatus bi node) flags]> (bi_status bi))
    ({[node_hash node]} ∪ bi_dirty bi).
Definition UnsetStatusFlags (bi : blockIndex) (node : blockNode) (flags : Z) : blockIndex :=
  mkBlockIndex (bi_index bi) (<[node_hash node := Z.ldiff (NodeStatus bi node) flags]> (bi_status bi))
    ({[node_hash node]} ∪ bi_dirty bi).

(** ** Branches *)

(** The node, its parent, and so on to the genesis block. *)
Fixpoint branch (n : blockNode) : list blockNode :=
  match n with
  | Node p _ _ => n :: match p with Some p' => branch p' | None => [] end
  end.

Inductive wf_node : blockNode -> Prop :=
| wf_genesis d : nd_height d = 0 -> wf_node (Node None None d)
| wf_child p d :
    wf_node p -> nd_height d = node_height p + 1 -> nd_height d < 2^31 ->
    wf_node (Node (Some p) (Ancestor p (getAncestorHeight (nd_height d))) d).

(** Induction along the parents. *)
Lemma node_parent_ind (P : blockNode -> Prop) :
  (forall a d, P (Node None a d)) -> (forall p a d, P p -> P (Node (Some p) a d)) -> forall n, P n.
Proof. intros H0 H1. fix IH 1. intros [[p|] a d]; [apply H1, IH|apply H0]. Qed.

Lemma branch_unfold n :
  branch n = n :: match nodeParent n with Some p => branch p | None => [] end.
Proof. by destruct n. Qed.

Lemma wf_node_height n : wf_node n -> 0 <= node_height n < 2^31.
Proof. induction 1; unfold node_height in *; cbn [nodeInfo] in *; lia. Qed.

Lemma length_branch n : wf_node n -> Z.of_nat (length (branch n)) = node_height n + 1.
Proof.
  induction 1 as [d Hd|p d Hp IH Hd Hb]; unfold node_height in *; cbn [branch length nodeInfo] in *; lia.
Qed.

Lemma branch_lookup n k m :
  wf_node n -> branch n !! k = Some m ->
  wf_node m /\ node_height m = node_height n - Z.of_nat k /\ branch m = drop k (branch n).
Proof.
  intros Hn. revert k; induction Hn as [d Hd|p d Hp IH Hd Hb]; intros k; cbn [branch].
  - destruct k; [|done]. intros [= <-]. split; [by constructor|].
    unfold node_height; cbn [nodeInfo]. split; [lia|done].
  - destruct k as [|k].
    + intros [= <-]. split; [by constructor|]. split; [lia|done].
    + intros H. change (branch p !! k = Some m) in H. destruct (IH k H) as (H1 & H2 & H3).
      split; [done|]. split; [|done]. unfold node_height in *; cbn [nodeInfo] in *. lia.
Qed.

Lemma land_pred n : 0 < n -> 0 <= Z.land n (n - 1) <= n - 1.
Proof.
  intros Hn. split; [apply Z.land_nonneg; lia|].
  rewrite <- (Z2N.id n), <- (Z2N.id (Z.of_N (Z.to_N n) - 1)) by lia. rewrite <- N2Z.inj_land.
  pose proof (N.land_le_r (Z.to_N n) (Z.to_N (Z.of_N (Z.to_N n) - 1))). lia.
Qed.

Lemma getAncestorHeight_range h : 0 < h < 2^31 -> 0 <= getAncestorHeight h <= h - 1.
Proof.
  intros Hh. unfold getAncestorHeight, invertLowestOne. rewrite (i32_id (h - 1)) by (widths; lia).
  pose proof (land_pred h ltac:(lia)) as H1. remember (Z.land h (h - 1)) as k eqn:Ek.
  rewrite (i32_id (k - 1)) by (widths; lia). destruct (Z.eq_dec k 0) as [->|]; [change (Z.land 0 (0 - 1)) with 0; lia|].
  pose proof (land_pred k ltac:(lia)). lia.
Qed.

(** ** Skip pointers *)

(** The node of height [h] on the branch of [n], by following parents. *)
Definition atHeight (n : blockNode) (h : Z) : option blockNode :=
  if (h <? 0) || (node_height n <? h) then None else branch n !! Z.to_nat (node_height n - h).

Lemma ancestorLoop_branch n h :
  wf_node n -> 0 <= h <= node_height n -> ancestorLoop n h = branch n !! Z.to_nat (node_height n - h).
Proof.
  remember (Z.to_nat (node_height n)) as k eqn:Ek. revert n h Ek.
  induction (lt_wf k) as [k _ IH]; intros n h -> Hn Hh.
  destruct Hn as [d Hd|p d Hp Hd Hb]; unfold node_height in Hh |- *; cbn [nodeInfo] in *.
  { cbn [ancestorLoop branch]. destruct (Z.eqb_spec (nd_height d) h); [|lia]. by rewrite Hd, <- e, Hd. }
  pose proof (wf_node_height p Hp) as Hph.
  assert (Hlt : (Z.to_nat (node_height p) < Z.to_nat (nd_height d))%nat) by lia.
  set (g := getAncestorHeight (nd_height d)). assert (0 <= g <= nd_height d - 1) as Hg.
  { apply getAncestorHeight_range. lia. }
  assert (Hpar : nd_height d <> h ->
    ancestorLoop p h = branch (Node (Some p) (Ancestor p g) d) !! Z.to_nat (nd_height d - h)).
  { intros Hne. rewrite (IH _ Hlt) by (done || lia).
    cbn [branch]. replace (Z.to_nat (nd_height d - h)) with (S (Z.to_nat (node_height p - h))) by lia. done. }
  cbn [ancestorLoop]. destruct (Z.eqb_spec (nd_height d) h) as [->|Hne].
  { cbn [branch]. rewrite Z.sub_diag. done. }
  destruct (Ancestor p g) as [a|] eqn:Ea; [|by apply Hpar]. fold g. destruct (Z.leb_spec h g); [|by apply Hpar].
  unfold Ancestor in Ea. destruct (Z.ltb_spec g 0), (Z.ltb_spec (node_height p) g); try done; cbn [orb] in Ea.
  rewrite (IH _ Hlt) in Ea by (done || lia).
  destruct (branch_lookup p _ a Hp Ea) as (Hwa & Hha & Hba).
  assert (Hlt2 : (Z.to_nat (node_height a) < Z.to_nat (nd_height d))%nat) by lia.
  rewrite (IH _ Hlt2) by (done || lia).
  rewrite Hba, lookup_drop. cbn [branch].
  replace (Z.to_nat (nd_height d - h)) with (S (Z.to_nat (node_height p - h))) by lia.
  change (branch p !! (Z.to_nat (node_height p - g) + Z.to_nat (node_height a - h))%nat
          = branch p !! Z.to_nat (node_height p - h)). f_equal. lia.
Qed.

Lemma Ancestor_atHeight n h : wf_node n -> Ancestor n h = atHeight n h.
Proof.
  intros Hn. unfold Ancestor, atHeight. destruct (Z.ltb_spec h 0); [done|].
  destruct (Z.ltb_spec (node_height n) h); [done|]. cbn [orb]. apply ancestorLoop_branch; [done|lia].
Qed.

Lemma newBlockNode_wf header parent :
  match parent with Some p => wf_node p /\ node_height p + 1 < 2^31 | None => True end ->
  wf_node (newBlockNode header parent).
Proof.
  destruct parent as [p|]; unfold newBlockNode; [|by constructor]. intros [Hp Hb].
  pose proof (wf_node_height p Hp). rewrite i32_id by (widths; lia).
  exact (wf_child p (mkNodeData _ _ (node_height p + 1) _ _ _ _ _) Hp eq_refl Hb).
Qed.

(** ** Median time past: proofs *)

Definition countBelow (m : Z) (l : list Z) : nat := length (List.filter (fun x => x <? m) l).

Lemma countBelow_perm m l l' : l ≡ₚ l' -> countBelow m l = countBelow m l'.
Proof.
  intros HP. unfold countBelow. induction HP; cbn [List.filter]; [done| | |congruence].
  - by destruct (x <? m); cbn [length]; rewrite IHHP.
  - by destruct (x <? m), (y <? m).
Qed.

Lemma countBelow_take m k l : (countBelow m (take k l) <= countBelow m l)%nat.
Proof.
  unfold countBelow. revert k; induction l as [|x l IH]; intros [|k]; cbn [take List.filter length]; try lia.
  specialize (IH k). destruct (x <? m); cbn [length]; lia.
Qed.

(** The element at position [i] of a sorted list is at least [m] exactly when at
    most [i] elements are below [m]. *)
Lemma sorted_nth_ge m s i :
  StronglySorted Z.le s -> (i < length s)%nat -> m <= nth i s 0 <-> (countBelow m s <= i)%nat.
Proof.
  intros Hs. revert i; induction Hs as [|x s Hs IH Hx]; intros i Hi; [cbn in Hi; lia|].
  unfold countBelow in *. cbn [List.filter length nth] in *. destruct (Z.ltb_spec x m).
  - cbn [length]. destruct i as [|i]; [lia|]. rewrite IH by lia. lia.
  - assert (List.filter (fun y => y <? m) s = []) as ->.
    { rewrite Forall_forall in Hx. clear -Hx H. induction s as [|y s IH]; [done|]. cbn [List.filter].
      destruct (Z.ltb_spec y m); [pose proof (Hx y ltac:(by left)); lia|]. apply IH. intros z Hz. apply Hx. by right. }
    cbn [length]. split; [lia|]. intros _. destruct i as [|i]; [done|].
    rewrite Forall_forall in Hx. assert (x <= nth i s 0); [|lia]. apply Hx, list_elem_of_In, nth_In. lia.
Qed.

Lemma sortTimes_spec l : StronglySorted Z.le (sortTimes l) /\ sortTimes l ≡ₚ l.
Proof.
  unfold sortTimes. split; [|apply merge_sort_Permutation].
  apply StronglySorted_merge_sort; [intros x y z; lia|intros x y; lia].
Qed.

Lemma medianOf_ge m l : l <> [] -> m <= medianOf l <-> (countBelow m l <= length l / 2)%nat.
Proof.
  intros Hne. destruct (sortTimes_spec l) as [Hs HP]. unfold medianOf.
  rewrite <- (countBelow_perm m _ _ HP). apply sorted_nth_ge; [done|]. rewrite HP.
  destruct l; [done|]. apply Nat.div_lt; cbn; lia.
Qed.

Lemma pastTimestamps_take k k' n :
  (k <= k')%nat -> pastTimestamps k n = take k (pastTimestamps k' n).
Proof.
  revert k' n; induction k as [|k IH]; intros k' n Hk; [done|].
  destruct k' as [|k']; [lia|]. cbn [pastTimestamps take]. f_equal.
  destruct (nodeParent n); [apply IH; lia|by rewrite take_nil].
Qed.

Lemma pastTimestamps_length k n : (length (pastTimestamps k n) <= k)%nat.
Proof.
  revert n; induction k as [|k IH]; intros n; cbn [pastTimestamps length]; [lia|].
  destruct (nodeParent n) as [p|]; cbn [length]; [specialize (IH p)|]; lia.
Qed.

Lemma pastTimestamps_S k n :
  pastTimestamps (S k) n
  = node_timestamp n :: match nodeParent n with Some p => pastTimestamps k p | None => [] end.
Proof. done. Qed.

(** A node no older than the median of its parent does not lower the median. *)
Lemma median_step n p :
  nodeParent n = Some p -> CalcPastMedianTime p <= node_timestamp n ->
  CalcPastMedianTime p <= CalcPastMedianTime n.
Proof.
  intros Hp Ht. unfold CalcPastMedianTime, medianTimeBlocks in *. rewrite (pastTimestamps_S 10 n), Hp.
  rewrite (pastTimestamps_take 10 11 p) by lia. remember (pastTimestamps 11 p) as w eqn:Ew.
  assert (w <> []) as Hne by (by rewrite Ew). pose proof (pastTimestamps_length 11 p) as Hl. rewrite <- Ew in Hl. clear Ew.
  set (m := medianOf w) in *.
  apply medianOf_ge; [done|]. pose proof (proj1 (medianOf_ge m w Hne) (Z.le_refl _)) as Hm.
  unfold countBelow at 1. cbn [List.filter]. destruct (Z.ltb_spec (node_timestamp n) m); [lia|].
  pose proof (countBelow_take m 10 w) as Hc. unfold countBelow at 1 in Hc. cbn [length]. rewrite length_take.
  eapply Nat.le_trans; [exact Hc|]. eapply Nat.le_trans; [exact Hm|].
  destruct (Nat.eq_dec (length w) 11%nat) as [->|]; [cbn; lia|]. apply Nat.Div0.div_le_mono; lia.
Qed.

(** Every block of the branch is later than the median time of its parent, which
    is what block validation asks for. *)
Definition times_ok (n : blockNode) : Prop :=
  Forall (fun m => match nodeParent m with Some p => CalcPastMedianTime p < node_timestamp m | None => True end)
    (branch n).

Lemma median_time_branch n m : times_ok n -> m ∈ branch n -> CalcPastMedianTime m <= CalcPastMedianTime n.
Proof.
  unfold times_ok. remember (branch n) as l eqn:El. revert n El.
  induction l as [|x l IH]; intros n El Hok Hm; [by apply not_elem_of_nil in Hm|].
  rewrite branch_unfold in El. injection El as -> El. apply Forall_cons_1 in Hok as [Hx Hok].
  apply elem_of_cons in Hm as [->|Hm]; [lia|]. destruct (nodeParent n) as [p|] eqn:Ep; [|subst l; by apply not_elem_of_nil in Hm].
  pose proof (IH p El Hok Hm). pose proof (median_step n p Ep ltac:(lia)). lia.
Qed.

(** ** Work *)

Lemma work_grows header p : node_workSum p <= node_workSum (newBlockNode header (Some p)).
Proof.
  change (node_workSum p <= node_workSum p + CalcWork (bh_Bits header)).
  pose proof (CalcWork_nonneg (bh_Bits header)). lia.
Qed.

(** ** Properties *)

(** The skip pointers of the block tree change nothing but the speed. On a
    node built by [newBlockNode] from the genesis block up, [Ancestor] answers
    nil for a height outside the branch and otherwise returns the node of that
    height that following parents alone reaches; that node is itself well formed
    and the rest of its branch is the rest of this one. *)
Theorem Ancestor_follows_parents n h :
  wf_node n ->
  match Ancestor n h with
  | None => h < 0 \/ node_height n < h
  | Some m => 0 <= h <= node_height n /\ branch n !! Z.to_nat (node_height n - h) = Some m /\
              node_height m = h /\ wf_node m /\ branch m = drop (Z.to_nat (node_height n - h)) (branch n)
  end.
Proof.
  intros Hn. rewrite Ancestor_atHeight by done. unfold atHeight. pose proof (length_branch n Hn) as Hl.
  destruct (Z.ltb_spec h 0); [cbn; lia|]. destruct (Z.ltb_spec (node_height n) h); [cbn; lia|]. cbn [orb].
  destruct (branch n !! Z.to_nat (node_height n - h)) as [m|] eqn:E.
  - destruct (branch_lookup n _ m Hn E) as (H1 & H2 & H3). split_and!; try done; lia.
  - apply lookup_ge_None in E. lia.
Qed.

(** The median time past of a chain never goes back. When every block of a
    branch is later than the median time past of its parent, as block validation
    demands, [CalcPastMedianTime] of a block is at least that of every ancestor. *)
Theorem median_time_never_goes_back n m :
  Forall (fun x => match nodeParent x with Some p => CalcPastMedianTime p < node_timestamp x | None => True end)
    (branch n) ->
  m ∈ branch n -> CalcPastMedianTime m <= CalcPastMedianTime n.
Proof. intros Hok Hm. by apply median_time_branch. Qed.

(** ** Witnesses *)

(** A chain of blocks ten minutes apart, at the difficulty of the fork reset. *)
Definition sampleNodeHeader (k : nat) : BlockHeader :=
  mkBlockHeader 1 zeroHash zeroHash (1700000000 + 600 * Z.of_nat k) 0x1d00ffff (Z.of_nat k).

Fixpoint sampleNode (k : nat) : blockNode :=
  match k with
  | O => newBlockNode (sampleNodeHeader 0) None
  | S k' => newBlockNode (sampleNodeHeader k) (Some (sampleNode k'))
  end.

Lemma sampleNode_wf k : Z.of_nat k < 2^31 -> wf_node (sampleNode k) /\ node_height (sampleNode k) = Z.of_nat k.
Proof.
  induction k as [|k IH]; intros Hk.
  - split; [by apply newBlockNode_wf|done].
  - destruct IH as [H1 H2]; [lia|]. split.
    + apply (newBlockNode_wf (sampleNodeHeader (S k)) (Some (sampleNode k))). split; [exact H1|]. rewrite H2. lia.
    + change (i32 (node_height (sampleNode k) + 1) = Z.of_nat (S k)). rewrite H2, i32_id by (widths; lia). lia.
Qed.

Lemma sampleNode_bits k : Forall (fun m => node_bits m = 0x1d00ffff) (branch (sampleNode k)).
Proof.
  induction k as [|k IH]; rewrite branch_unfold; (constructor; [reflexivity|]); [constructor|exact IH].
Qed.

Lemma Ancestor_follows_parents_witness :
  match Ancestor (sampleNode 21) 5 with
  | None => 5 < 0 \/ node_height (sampleNode 21) < 5
  | Some m => node_height m = 5
  end.
Proof.
  pose proof (Ancestor_follows_parents (sampleNode 21) 5 (proj1 (sampleNode_wf 21 eq_refl))) as H.
  destruct (Ancestor (sampleNode 21) 5) as [m|]; [exact (proj1 (proj2 (proj2 H)))|exact H].
Defined.

Lemma sampleNode_times k :
  Forall (fun x => match nodeParent x with Some p => CalcPastMedianTime p < node_timestamp x | None => True end)
    (branch (sampleNode k)).
Proof.
  induction k as [|k IH]; [by repeat constructor|].
  cbn [sampleNode]. rewrite branch_unfold. cbn [nodeParent newBlockNode].
  constructor; [|done]. cbn [nodeParent newBlockNode].
  assert (Hw : forall j, Forall (fun t => t <= 1700000000 + 600 * Z.of_nat k) (pastTimestamps j (sampleNode k))).
  { clear IH. induction k as [|k IHk]; intros [|j]; cbn [pastTimestamps sampleNode]; try constructor;
      try (unfold node_timestamp; cbn [nodeInfo newBlockNode nd_timestamp sampleNodeHeader bh_Timestamp]; lia).
    - cbn. constructor.
    - cbn [nodeParent newBlockNode]. eapply Forall_impl; [apply IHk|]. cbn. intros; lia. }
  unfold node_timestamp. cbn [nodeInfo newBlockNode nd_timestamp sampleNodeHeader bh_Timestamp].
  assert (CalcPastMedianTime (sampleNode k) <= 1700000000 + 600 * Z.of_nat k); [|lia].
  unfold CalcPastMedianTime, medianOf. set (w := pastTimestamps medianTimeBlocks (sampleNode k)).
  destruct (sortTimes_spec w) as [_ HP]. specialize (Hw medianTimeBlocks). fold w in Hw.
  assert (Hne : w <> []) by (subst w; by destruct k).
  assert (nth (length w / 2) (sortTimes w) 0 ∈ sortTimes w) as Hin.
  { apply list_elem_of_In, nth_In. rewrite HP. destruct w; [done|]. apply Nat.div_lt; cbn; lia. }
  apply (elem_of_Permutation_proper _ _ _ HP) in Hin. rewrite Forall_forall in Hw. by apply Hw.
Qed.

Lemma median_time_never_goes_back_witness :
  sampleNode 3 ∈ branch (sampleNode 5) /\ CalcPastMedianTime (sampleNode 3) <= CalcPastMedianTime (sampleNode 5).
Proof.
  assert (H : sampleNode 3 ∈ branch (sampleNode 5)) by (right; right; left).
  split; [exact H|]. exact (median_time_never_goes_back (sampleNode 5) (sampleNode 3) (sampleNode_times 5) H).
Defined.
