(* ===== verification/Difficulty.v ===== *)
(** * Required difficulty

    src/blockchain/difficulty.go: the ASERT rule of the OBTC fork, its bootstrap
    and normal epochs, Bitcoin's retarget rule that applies before the fork, and
    the bound on difficulty used against checkpoints. The retarget intervals are
    those [New] of src/blockchain/chain.go derives from the chain parameters;
    durations are whole seconds.

    The theorems: the ASERT polynomial does not overflow and stays between one
    and two; the target it gives is positive, within the proof-of-work limit and
    never falls as time passes; on a well-formed branch every rule answers, with
    a target within the limit. *)

From S2P Require Import Prelude ChainParams Sha256 Wire Block WorkMath BlockNode.

Inductive diff_error := DiffAssertError (what : string).

Definition asertRadix : Z := 2 ^ 16.

(** ** ASERT *)

Definition asertExponent (timeDiff heightDiff targetSpacing halfLife : Z) : Z :=
  Z.quot (i64 ((timeDiff - heightDiff * targetSpacing) * asertRadix)) halfLife.

Definition asertFactor (frac : Z) : Z :=
  u64 (asertRadix
       + Z.shiftr (u64 (195766423245049 * frac + 971821376 * frac * frac
                        + 5127 * frac * frac * frac + 2 ^ 47)) 48).

(** The target before it is limited. *)
Definition asertTarget (anchorTarget exponent : Z) : Z :=
  let shifts := Z.shiftr exponent 16 in
  let frac := u64 (exponent - shifts * asertRadix) in
  let newTarget := anchorTarget * asertFactor frac in
  Z.shiftr (if shifts <? 0 then Z.shiftr newTarget (- shifts) else Z.shiftl newTarget shifts) 16.

Definition calcASERTRequiredDifficulty (anchor : option blockNode) (nextHeight newBlockTime : Z)
    (targetSpacing halfLife powLimit : Z) : result diff_error Z :=
  match anchor with
  | None => Err (DiffAssertError "missing ASERT anchor")
  | Some anchor =>
      if (halfLife <=? 0) || (targetSpacing <=? 0)
      then Err (DiffAssertError "invalid ASERT timing parameters")
      else
        let timeDiff := i64 (newBlockTime - node_timestamp anchor) in
        let heightDiff := i32 (nextHeight - node_height anchor) in
        let exponent := asertExponent timeDiff heightDiff targetSpacing halfLife in
        let newTarget := asertTarget (CompactToBig (node_bits anchor)) exponent in
        let newTarget := if newTarget <=? 0 then 1 else newTarget in
        let newTarget := if powLimit <? newTarget then powLimit else newTarget in
        Ok (BigToCompact newTarget)
  end.

(** [None] is the answer [false]: the fork rule does not apply. *)
Definition calcOBTCForkNextRequiredDifficulty (lastNode : blockNode) (newBlockTime : Z)
    (params : Params) : result diff_error (option Z) :=
  if (ForkDAAStartHeight params <=? 0) || (ForkDAAForkResetBits params =? 0) then Ok None
  else
    let nextHeight := i32 (node_height lastNode + 1) in
    if nextHeight <? ForkDAAStartHeight params then Ok None
    else if nextHeight =? ForkDAAStartHeight params then Ok (Some (ForkDAAForkResetBits params))
    else
      let '(anchorHeight, halfLife) :=
        if (ForkDAAStartHeight params <=? ForkDAABootstrapEndHeight params)
           && (ForkDAABootstrapEndHeight params <? nextHeight)
        then (ForkDAABootstrapEndHeight params, ForkDAANormalHalfLife params)
        else (ForkDAAStartHeight params, ForkDAABootstrapHalfLife params) in
      let distance := i32 (node_height lastNode - anchorHeight) in
      if distance <? 0 then Err (DiffAssertError "ASERT anchor is ahead of previous block")
      else
        bits ← calcASERTRequiredDifficulty (RelativeAncestor lastNode distance) nextHeight newBlockTime
                 (TargetTimePerBlock params) halfLife (PowLimit params);
        Ok (Some bits).

(** ** Retargeting before the fork *)

Definition minRetargetTimespan (params : Params) : Z :=
  Z.quot (TargetTimespan params) (RetargetAdjustmentFactor params).
Definition maxRetargetTimespan (params : Params) : Z :=
  TargetTimespan params * RetargetAdjustmentFactor params.
Definition blocksPerRetarget (params : Params) : Z :=
  i32 (Z.quot (TargetTimespan params) (TargetTimePerBlock params)).

(** The node the search stops at, if any. *)
Fixpoint prevNonMinimum (params : Params) (iterNode : blockNode) : option blockNode :=
  match iterNode with
  | Node p _ _ =>
      if negb (Z.rem (node_height iterNode) (blocksPerRetarget params) =? 0)
         && (node_bits iterNode =? PowLimitBits params)
      then match p with Some p' => prevNonMinimum params p' | None => None end
      else Some iterNode
  end.

Definition findPrevTestNetDifficulty (startNode : blockNode) (params : Params) : Z :=
  match prevNonMinimum params startNode with
  | Some n => node_bits n
  | None => PowLimitBits params
  end.

Definition calcNextRequiredDifficulty (lastNode : option blockNode) (newBlockTime : Z)
    (params : Params) : result diff_error Z :=
  if PoWNoRetargeting params then Ok (PowLimitBits params)
  else
    match lastNode with
    | None => Ok (PowLimitBits params)
    | Some lastNode =>
        fork ← calcOBTCForkNextRequiredDifficulty lastNode newBlockTime params;
        match fork with
        | Some difficulty => Ok difficulty
        | None =>
            if negb (Z.rem (i32 (node_height lastNode + 1)) (blocksPerRetarget params) =? 0) then
              if ReduceMinDifficulty params then
                let allowMinTime := i64 (node_timestamp lastNode + MinDiffReductionTime params) in
                if allowMinTime <? newBlockTime then Ok (PowLimitBits params)
                else Ok (findPrevTestNetDifficulty lastNode params)
              else Ok (node_bits lastNode)
            else
              match RelativeAncestor lastNode (i32 (blocksPerRetarget params - 1)) with
              | None => Err (DiffAssertError "unable to obtain previous retarget block")
              | Some firstNode =>
                  let actualTimespan := i64 (node_timestamp lastNode - node_timestamp firstNode) in
                  let adjustedTimespan :=
                    if actualTimespan <? minRetargetTimespan params then minRetargetTimespan params
                    else if maxRetargetTimespan params <? actualTimespan then maxRetargetTimespan params
                    else actualTimespan in
                  let oldTarget := CompactToBig (if EnforceBIP94 params then node_bits firstNode
                                                 else node_bits lastNode) in
                  let newTarget := oldTarget * adjustedTimespan / TargetTimespan params in
                  let newTarget := if PowLimit params <? newTarget then PowLimit params else newTarget in
                  Ok (BigToCompact newTarget)
              end
        end
    end.

(** ** The easiest difficulty after a checkpoint *)

(** A round makes the target easier or is the last; [maxRetargetTimespan] is
    taken from the duration each time, so the duration bounds the rounds. *)
Fixpoint easiestLoop (fuel : nat) (params : Params) (durationVal newTarget : Z) : Z :=
  match fuel with
  | O => newTarget
  | S fuel' =>
      if (0 <? durationVal) && (newTarget <? PowLimit params)
      then easiestLoop fuel' params (durationVal - maxRetargetTimespan params)
             (newTarget * RetargetAdjustmentFactor params)
      else newTarget
  end.

Definition calcEasiestDifficulty (params : Params) (bits durationVal : Z) : Z :=
  if ReduceMinDifficulty params && (MinDiffReductionTime params <? durationVal) then PowLimitBits params
  else
    let newTarget := easiestLoop (Z.to_nat (durationVal / maxRetargetTimespan params + 1)) params
                       durationVal (CompactToBig bits) in
    let newTarget := if PowLimit params <? newTarget then PowLimit params else newTarget in
    BigToCompact newTarget.

(** ** ASERT: proofs *)

Lemma asertFactor_poly frac :
  0 <= frac < 2^16 ->
  asertFactor frac
  = 2^16 + (195766423245049 * frac + 971821376 * frac * frac + 5127 * frac * frac * frac + 2^47) / 2^48 /\
  2^16 <= asertFactor frac < 2^17.
Proof.
  intros Hf. unfold asertFactor, asertRadix.
  assert (0 <= frac * frac <= 65535 * 65535) by nia.
  assert (0 <= frac * frac * frac <= 65535 * 65535 * 65535) by nia.
  set (P := 195766423245049 * frac + 971821376 * frac * frac + 5127 * frac * frac * frac + 2^47).
  assert (0 <= P < 65536 * 2^48) by (subst P; lia). rewrite (u64_id P) by (widths; lia).
  rewrite Z.shiftr_div_pow2 by lia.
  assert (0 <= P / 2^48 < 2^16) by (split; [apply Z.div_pos; lia|apply Z.div_lt_upper_bound; lia]).
  rewrite u64_id by (widths; lia). lia.
Qed.

Lemma asertFactor_mono f f' : 0 <= f <= f' -> f' < 2^16 -> asertFactor f <= asertFactor f'.
Proof.
  intros Hf Hf'. destruct (asertFactor_poly f ltac:(lia)) as [-> _]. destruct (asertFactor_poly f' ltac:(lia)) as [-> _].
  apply Z.add_le_mono_l, Z.div_le_mono; [lia|].
  assert (f * f <= f' * f') by nia. assert (f * f * f <= f' * f' * f') by nia. lia.
Qed.

(** The whole and the fractional part of the exponent. *)
Definition expInt (x : Z) : Z := x / 2^16.
Definition expFrac (x : Z) : Z := x mod 2^16.

Lemma asertTarget_parts T x :
  asertTarget T x
  = if expInt x <? 0 then T * asertFactor (expFrac x) / 2^(- expInt x) / 2^16
    else T * asertFactor (expFrac x) * 2^(expInt x) / 2^16.
Proof.
  unfold asertTarget, expInt, expFrac, asertRadix. rewrite (Z.shiftr_div_pow2 x 16) by lia.
  pose proof (Z.div_mod x (2^16) ltac:(lia)). pose proof (Z.mod_pos_bound x (2^16) ltac:(lia)).
  replace (x - x / 2^16 * 2^16) with (x mod 2^16) by lia. rewrite u64_id by (widths; lia).
  destruct (Z.ltb_spec (x / 2^16) 0).
  - rewrite (Z.shiftr_div_pow2 _ (- (x / 2^16))), Z.shiftr_div_pow2 by lia. done.
  - rewrite Z.shiftl_mul_pow2, Z.shiftr_div_pow2 by lia. done.
Qed.

(** Over one denominator, for any [K] that makes the exponents non-negative. *)
Lemma asertTarget_common T x K :
  0 <= T -> 0 <= K -> - expInt x <= K ->
  asertTarget T x = T * asertFactor (expFrac x) * 2^(K + expInt x) / 2^(K + 16).
Proof.
  intros HT HK Hs. rewrite asertTarget_parts. set (s := expInt x) in *. set (F := T * asertFactor (expFrac x)).
  destruct (Z.ltb_spec s 0).
  - rewrite Z.div_div by (try apply Z.pow_pos_nonneg; try apply Z.pow_nonzero; lia).
    rewrite <- Z.pow_add_r by lia. replace (K + 16) with ((- s + 16) + (K + s)) by lia.
    rewrite (Z.pow_add_r 2 (- s + 16)) by lia. rewrite Z.div_mul_cancel_r; [done| |]; apply Z.pow_nonzero; lia.
  - rewrite (Z.add_comm K s), (Z.add_comm K 16), !Z.pow_add_r, Z.mul_assoc by lia.
    rewrite Z.div_mul_cancel_r; [done|lia|apply Z.pow_nonzero; lia].
Qed.

Lemma asertTarget_mono T x x' : 0 <= T -> x <= x' -> asertTarget T x <= asertTarget T x'.
Proof.
  intros HT Hx. set (K := Z.max 0 (Z.max (- expInt x) (- expInt x'))).
  rewrite (asertTarget_common T x K), (asertTarget_common T x' K) by lia.
  pose proof (Z.mod_pos_bound x (2^16) ltac:(lia)) as Hm. pose proof (Z.mod_pos_bound x' (2^16) ltac:(lia)) as Hm'.
  fold (expFrac x) in Hm. fold (expFrac x') in Hm'.
  destruct (asertFactor_poly (expFrac x) Hm) as [_ Hf]. destruct (asertFactor_poly (expFrac x') Hm') as [_ Hf'].
  assert (Hs : expInt x <= expInt x') by (apply Z.div_le_mono; lia).
  apply Z.div_le_mono; [apply Z.pow_pos_nonneg; lia|].
  rewrite <- !Z.mul_assoc. apply Z.mul_le_mono_nonneg_l; [done|].
  assert (0 < 2^(K + expInt x)) as Hp by (apply Z.pow_pos_nonneg; lia).
  destruct (Z.eq_dec (expInt x) (expInt x')) as [E|E].
  - rewrite <- E. apply Z.mul_le_mono_nonneg_r; [lia|]. apply asertFactor_mono; [|lia].
    unfold expInt, expFrac in *. pose proof (Z.div_mod x (2^16)). pose proof (Z.div_mod x' (2^16)). lia.
  - assert (2^(K + expInt x + 1) <= 2^(K + expInt x')) as Hq by (apply Z.pow_le_mono_r; lia).
    rewrite Z.pow_add_r in Hq by lia. nia.
Qed.

Lemma asertTarget_on_schedule T : asertTarget T 0 = T.
Proof.
  rewrite asertTarget_parts. change (expInt 0 <? 0) with false. change (asertFactor (expFrac 0)) with (2^16).
  change (2^expInt 0) with 1. cbn match. rewrite Z.mul_1_r. apply Z.div_mul. lia.
Qed.

(** One half-life later the target has doubled, up to its last bit. *)
Lemma asertTarget_doubles T x :
  0 <= T -> 2 * asertTarget T x <= asertTarget T (x + 2^16) <= 2 * asertTarget T x + 1.
Proof.
  intros HT. assert (Ei : expInt (x + 2^16) = expInt x + 1).
  { unfold expInt. replace (x + 2^16) with (x + 1 * 2^16) by lia. rewrite Z.div_add; lia. }
  assert (Ef : expFrac (x + 2^16) = expFrac x).
  { unfold expFrac. replace (x + 2^16) with (x + 1 * 2^16) by lia. apply Z.mod_add. lia. }
  set (K := Z.max 0 (- expInt x)). rewrite (asertTarget_common T x K), (asertTarget_common T (x + 2^16) K) by lia.
  rewrite Ei, Ef. set (F := T * asertFactor (expFrac x)). rewrite Z.add_assoc, (Z.pow_add_r 2 (K + expInt x)) by lia.
  rewrite Z.mul_assoc. set (N := F * 2^(K + expInt x)). change (2^1) with 2. set (D := 2^(K + 16)).
  assert (0 < D) by (apply Z.pow_pos_nonneg; lia).
  pose proof (Z.div_mod N D ltac:(lia)). pose proof (Z.mod_pos_bound N D ltac:(lia)).
  split; [apply Z.div_le_lower_bound; lia|]. apply Z.lt_succ_r, Z.div_lt_upper_bound; lia.
Qed.

(** ** Limits *)

Definition target_ok (params : Params) (bits : Z) : Prop := 0 < CompactToBig bits <= PowLimit params.

Record diff_params_ok (params : Params) : Prop := {
  dp_limit : 0 < PowLimit params < 2^256;
  dp_limit_bits : target_ok params (PowLimitBits params);
  dp_factor : 0 < RetargetAdjustmentFactor params < 2^16;
  dp_spacing : 0 < TargetTimePerBlock params;
  dp_timespan : TargetTimePerBlock params <= TargetTimespan params < 2^31;
  dp_bootstrap : 0 < ForkDAABootstrapHalfLife params \/ ForkDAAStartHeight params <= 0;
  dp_normal : 0 < ForkDAANormalHalfLife params \/ ForkDAAStartHeight params <= 0;
  dp_start : is_i32 (ForkDAAStartHeight params) /\ is_i32 (ForkDAABootstrapEndHeight params);
  dp_reset : ForkDAAForkResetBits params = 0 \/ target_ok params (ForkDAAForkResetBits params) }.

(** A number limited to [limit] compacts to a target within it. *)
Lemma limited_compact limit n :
  0 < limit < 2^256 -> 0 < n ->
  0 < CompactToBig (BigToCompact (if limit <? n then limit else n)) <= limit.
Proof.
  intros Hl Hn. set (t := if limit <? n then limit else n).
  assert (0 < t <= limit) as Ht by (subst t; destruct (Z.ltb_spec limit n); lia).
  assert (2^256 < 2^512) by (apply Z.pow_lt_mono_r; lia).
  destruct (compact_rounds_down t ltac:(lia)) as [H1 _]. cbv zeta in H1. lia.
Qed.

Lemma asert_limited anchor nextHeight t spacing halfLife powLimit :
  0 < powLimit < 2^256 -> 0 < spacing -> 0 < halfLife ->
  exists bits, calcASERTRequiredDifficulty (Some anchor) nextHeight t spacing halfLife powLimit = Ok bits /\
               0 < CompactToBig bits <= powLimit.
Proof.
  intros Hl Hs Hh. unfold calcASERTRequiredDifficulty.
  destruct (Z.leb_spec halfLife 0), (Z.leb_spec spacing 0); try lia. cbn [orb].
  eexists. split; [done|]. apply limited_compact; [done|]. case_match; lia.
Qed.

Section branch_limits.
Context (params : Params) (Hp : diff_params_ok params).

(** A branch whose blocks all have targets within the limit. *)
Definition targets_ok (n : blockNode) : Prop := Forall (fun m => target_ok params (node_bits m)) (branch n).

Lemma RelativeAncestor_Some n h :
  wf_node n -> 0 <= h <= node_height n ->
  exists m, RelativeAncestor n (i32 (node_height n - h)) = Some m /\ m ∈ branch n /\ node_height m = h.
Proof.
  intros Hn Hh. pose proof (wf_node_height n Hn). pose proof (length_branch n Hn) as Hl. unfold RelativeAncestor.
  rewrite (i32_id (node_height n - h)), i32_id by (widths; lia).
  replace (node_height n - (node_height n - h)) with h by lia. rewrite Ancestor_atHeight by done. unfold atHeight.
  destruct (Z.ltb_spec h 0), (Z.ltb_spec (node_height n) h); try lia. cbn [orb].
  destruct (lookup_lt_is_Some_2 (branch n) (Z.to_nat (node_height n - h))) as [m Hm]; [lia|].
  exists m. split; [done|]. split; [by eapply list_elem_of_lookup_2|].
  destruct (branch_lookup n _ m Hn Hm) as (_ & Hht & _). lia.
Qed.

Lemma fork_total n t :
  wf_node n -> node_height n + 1 < 2^31 ->
  exists o, calcOBTCForkNextRequiredDifficulty n t params = Ok o /\
            match o with Some bits => target_ok params bits | None => True end.
Proof.
  intros Hn Hb. destruct Hp as [Hl Hlb Hf Hsp Hts Hbo Hno Hst Hre]. unfold calcOBTCForkNextRequiredDifficulty.
  pose proof (wf_node_height n Hn). destruct Hst as [Hst Hen].
  destruct (Z.leb_spec (ForkDAAStartHeight params) 0); cbn [orb]; [by eexists|].
  destruct (Z.eqb_spec (ForkDAAForkResetBits params) 0); [by eexists|].
  rewrite (i32_id (node_height n + 1)) by (widths; lia).
  destruct (Z.ltb_spec (node_height n + 1) (ForkDAAStartHeight params)); [by eexists|].
  destruct (Z.eqb_spec (node_height n + 1) (ForkDAAStartHeight params)).
  { eexists. split; [done|]. by destruct Hre. }
  assert (Hcase : forall a hl, ForkDAAStartHeight params <= a <= node_height n -> 0 < hl ->
    exists o, (if i32 (node_height n - a) <? 0 then Err (DiffAssertError "ASERT anchor is ahead of previous block")
               else bits ← calcASERTRequiredDifficulty (RelativeAncestor n (i32 (node_height n - a)))
                             (node_height n + 1) t (TargetTimePerBlock params) hl (PowLimit params);
                    Ok (Some bits)) = Ok o /\
              match o with Some bits => target_ok params bits | None => True end).
  { intros a hl Ha Hhl. destruct (Z.ltb_spec (i32 (node_height n - a)) 0) as [Hneg|_].
    { rewrite i32_id in Hneg by (widths; lia). lia. }
    destruct (RelativeAncestor_Some n a Hn ltac:(lia)) as (m & -> & _ & _).
    destruct (asert_limited m (node_height n + 1) t (TargetTimePerBlock params) hl (PowLimit params)) as (bits & -> & Hbits);
      [done|done|done|]. result_simpl. by eexists. }
  destruct (Z.leb_spec (ForkDAAStartHeight params) (ForkDAABootstrapEndHeight params)); cbn [andb].
  - destruct (Z.ltb_spec (ForkDAABootstrapEndHeight params) (node_height n + 1)); apply Hcase; lia.
  - apply Hcase; lia.
Qed.

Lemma prevNonMinimum_branch n m : prevNonMinimum params n = Some m -> m ∈ branch n.
Proof.
  induction n as [a d|p a d IH] using node_parent_ind; cbn [prevNonMinimum branch]; case_match; try done.
  - intros [= <-]. by left.
  - intros Hm. right. by apply IH.
  - intros [= <-]. by left.
Qed.

Lemma blocksPerRetarget_pos : 0 < blocksPerRetarget params < 2^31.
Proof.
  destruct Hp. unfold blocksPerRetarget. rewrite Z.quot_div_nonneg by lia.
  assert (1 <= TargetTimespan params / TargetTimePerBlock params) by (apply Z.div_le_lower_bound; lia).
  assert (TargetTimespan params / TargetTimePerBlock params <= TargetTimespan params)
    by (apply Z.div_le_upper_bound; nia).
  rewrite i32_id by (widths; lia). lia.
Qed.

(** The retarget rule, whatever the timestamps. *)
Lemma retarget_limited n first :
  target_ok params (node_bits n) -> target_ok params (node_bits first) ->
  forall span : Z,
  let adjusted := if span <? minRetargetTimespan params then minRetargetTimespan params
                  else if maxRetargetTimespan params <? span then maxRetargetTimespan params else span in
  let old := CompactToBig (if EnforceBIP94 params then node_bits first else node_bits n) in
  let new := old * adjusted / TargetTimespan params in
  0 <= CompactToBig (BigToCompact (if PowLimit params <? new then PowLimit params else new)) <= PowLimit params.
Proof.
  intros Hn Hf span adjusted old new. destruct Hp as [Hl Hlb Hfa Hsp Hts Hbo Hno Hst Hre].
  assert (Hold : 0 < old) by (subst old; destruct (EnforceBIP94 params); unfold target_ok in *; lia).
  assert (Hadj : 0 <= adjusted).
  { assert (0 <= minRetargetTimespan params) by (apply Z.quot_pos; lia).
    assert (0 <= maxRetargetTimespan params) by (unfold maxRetargetTimespan; nia).
    subst adjusted. destruct (Z.ltb_spec span (minRetargetTimespan params)); [done|]. case_match; lia. }
  assert (0 <= new) as Hnew by (apply Z.div_pos; [nia|lia]).
  destruct (Z.eq_dec new 0) as [->|].
  - destruct (Z.ltb_spec (PowLimit params) 0); [lia|]. change (CompactToBig (BigToCompact 0)) with 0. lia.
  - pose proof (limited_compact (PowLimit params) new Hl ltac:(lia)). lia.
Qed.

Lemma required_total n t :
  wf_node n -> node_height n + 1 < 2^31 -> targets_ok n ->
  exists bits, calcNextRequiredDifficulty (Some n) t params = Ok bits /\
               0 <= CompactToBig bits <= PowLimit params.
Proof.
  intros Hn Hb Hok. unfold calcNextRequiredDifficulty. destruct Hp as [Hl Hlb Hfa Hsp Hts Hbo Hno Hst Hre] eqn:Ep.
  clear Ep. pose proof (wf_node_height n Hn).
  destruct (PoWNoRetargeting params); [eexists; split; [done|]; unfold target_ok in Hlb; lia|].
  destruct (fork_total n t Hn Hb) as ([bits|] & -> & Hbits); result_simpl.
  { eexists. split; [done|]. unfold target_ok in Hbits. lia. }
  assert (Hmem : forall m, m ∈ branch n -> 0 <= CompactToBig (node_bits m) <= PowLimit params).
  { intros m Hm. unfold targets_ok in Hok. rewrite Forall_forall in Hok. pose proof (Hok m Hm) as Hk.
    unfold target_ok in Hk. lia. }
  assert (Hself : n ∈ branch n) by (rewrite branch_unfold; by left).
  pose proof blocksPerRetarget_pos as Hbpr. rewrite (i32_id (node_height n + 1)) by (widths; lia).
  destruct (Z.eqb_spec (Z.rem (node_height n + 1) (blocksPerRetarget params)) 0) as [Hrem|Hrem]; cbn [negb].
  2: { destruct (ReduceMinDifficulty params); [case_match|]; eexists; split; try done; unfold target_ok in *; [lia| |by apply Hmem].
       unfold findPrevTestNetDifficulty. destruct (prevNonMinimum params n) as [m|] eqn:Em; [|lia].
       apply Hmem. by apply prevNonMinimum_branch. }
  assert (blocksPerRetarget params <= node_height n + 1).
  { rewrite Z.rem_mod_nonneg in Hrem by lia. apply Z.mod_divide in Hrem; [|lia].
    apply Z.divide_pos_le in Hrem; lia. }
  destruct (RelativeAncestor_Some n (node_height n - (blocksPerRetarget params - 1)) Hn ltac:(lia)) as (first & Ef & Hin & _).
  replace (node_height n - (node_height n - (blocksPerRetarget params - 1))) with (blocksPerRetarget params - 1) in Ef by lia.
  rewrite Ef. eexists. split; [done|].
  unfold targets_ok in Hok. rewrite Forall_forall in Hok. apply retarget_limited; by apply Hok.
Qed.
End branch_limits.

(** The rounds of [easiestLoop] end before the fuel does. *)
Lemma easiestLoop_enough params fuel d T :
  0 < maxRetargetTimespan params -> d <= Z.of_nat fuel * maxRetargetTimespan params ->
  easiestLoop (S fuel) params d T = easiestLoop fuel params d T.
Proof.
  intros Hm. revert d T; induction fuel as [|fuel IH]; intros d T Hd.
  - cbn [easiestLoop]. destruct (Z.ltb_spec 0 d); [lia|done].
  - change (easiestLoop (S (S fuel)) params d T)
      with (if (0 <? d) && (T <? PowLimit params)
            then easiestLoop (S fuel) params (d - maxRetargetTimespan params) (T * RetargetAdjustmentFactor params)
            else T).
    cbn [easiestLoop]. case_match; [|done]. apply IH. lia.
Qed.

(** ** Properties *)

(** What the times and heights of blocks satisfy: 32-bit header times. *)
Record asert_inputs (anchor : blockNode) (nextHeight t spacing : Z) : Prop := {
  ai_anchor_time : is_u32 (node_timestamp anchor);
  ai_time : is_u32 t;
  ai_heights : 0 <= node_height anchor <= nextHeight /\ nextHeight < 2^31;
  ai_spacing : 0 < spacing < 2^15 }.

Lemma asert_exponent_exact anchor nextHeight t spacing halfLife :
  asert_inputs anchor nextHeight t spacing -> 0 < halfLife ->
  asertExponent (i64 (t - node_timestamp anchor)) (i32 (nextHeight - node_height anchor)) spacing halfLife
  = Z.quot ((t - node_timestamp anchor - (nextHeight - node_height anchor) * spacing) * 2^16) halfLife.
Proof.
  intros [H1 H2 [H3 H4] H5] Hh. widths. unfold asertExponent, asertRadix.
  rewrite (i64_id (t - _)), (i32_id (nextHeight - _)) by (widths; lia).
  assert (0 <= (nextHeight - node_height anchor) * spacing <= 2^31 * 2^15) by nia.
  rewrite i64_id by (widths; lia). done.
Qed.

(** The exponent of the schedule: how late the block is, in half-lives. *)
Definition lateness (anchor : blockNode) (nextHeight t spacing halfLife : Z) : Z :=
  Z.quot ((t - node_timestamp anchor - (nextHeight - node_height anchor) * spacing) * 2^16) halfLife.

(** A target limited from both sides. *)
Definition limited (powLimit target : Z) : Z :=
  let target := if target <=? 0 then 1 else target in if powLimit <? target then powLimit else target.

Lemma limited_range powLimit x : 0 < powLimit -> 0 < limited powLimit x <= powLimit.
Proof.
  intros Hl. unfold limited. destruct (Z.leb_spec x 0).
  - destruct (Z.ltb_spec powLimit 1); lia.
  - destruct (Z.ltb_spec powLimit x); lia.
Qed.

Lemma limited_mono powLimit x x' : x <= x' -> limited powLimit x <= limited powLimit x'.
Proof.
  intros Hx. unfold limited. destruct (Z.leb_spec x 0), (Z.leb_spec x' 0); try lia.
  - destruct (Z.ltb_spec powLimit 1), (Z.ltb_spec powLimit x'); lia.
  - destruct (Z.ltb_spec powLimit x), (Z.ltb_spec powLimit x'); lia.
Qed.

Lemma asert_value anchor nextHeight t spacing halfLife powLimit :
  asert_inputs anchor nextHeight t spacing -> 0 < halfLife ->
  calcASERTRequiredDifficulty (Some anchor) nextHeight t spacing halfLife powLimit
  = Ok (BigToCompact (limited powLimit
      (asertTarget (CompactToBig (node_bits anchor)) (lateness anchor nextHeight t spacing halfLife)))).
Proof.
  intros Hi Hh. pose proof (ai_spacing _ _ _ _ Hi) as Hsp. unfold calcASERTRequiredDifficulty.
  destruct (Z.leb_spec halfLife 0), (Z.leb_spec spacing 0); try lia. cbn [orb]. cbv zeta.
  by rewrite (asert_exponent_exact _ _ _ _ _ Hi Hh).
Qed.

(** C35: the ASERT rule gives every block a usable target that only gets easier
    while nobody finds a block. For an anchor with a positive target and any two
    candidate times [t <= t'], [calcASERTRequiredDifficulty] succeeds for both;
    both targets are positive and within the proof-of-work limit, the later one
    is at least the earlier one, and a block found exactly on schedule gets the
    target of the anchor. *)
Theorem asert_bounded_and_monotone anchor nextHeight t t' spacing halfLife powLimit :
  asert_inputs anchor nextHeight t spacing -> asert_inputs anchor nextHeight t' spacing -> t <= t' ->
  0 < halfLife -> 0 < powLimit < 2^256 -> 0 < CompactToBig (node_bits anchor) <= powLimit ->
  exists bits bits',
    calcASERTRequiredDifficulty (Some anchor) nextHeight t spacing halfLife powLimit = Ok bits /\
    calcASERTRequiredDifficulty (Some anchor) nextHeight t' spacing halfLife powLimit = Ok bits' /\
    0 < CompactToBig bits /\ CompactToBig bits <= CompactToBig bits' /\ CompactToBig bits' <= powLimit /\
    (t = node_timestamp anchor + (nextHeight - node_height anchor) * spacing ->
     normalised (node_bits anchor) -> bits = node_bits anchor).
Proof.
  intros Hi Hi' Ht Hh Hl HT. rewrite (asert_value _ _ _ _ _ _ Hi Hh), (asert_value _ _ _ _ _ _ Hi' Hh).
  set (T := CompactToBig (node_bits anchor)) in *. set (x := lateness _ _ t _ _). set (x' := lateness _ _ t' _ _).
  assert (Hx : x <= x') by (apply Z.quot_le_mono; lia).
  pose proof (asertTarget_mono T x x' ltac:(lia) Hx) as Hm. assert (2^256 < 2^512) by (apply Z.pow_lt_mono_r; lia).
  pose proof (limited_range powLimit (asertTarget T x) ltac:(lia)) as Hr.
  pose proof (limited_range powLimit (asertTarget T x') ltac:(lia)) as Hr'.
  pose proof (limited_mono powLimit _ _ Hm) as Hlm.
  destruct (compact_rounds_down (limited powLimit (asertTarget T x)) ltac:(lia)) as [Hc _].
  destruct (compact_rounds_down (limited powLimit (asertTarget T x')) ltac:(lia)) as [Hc' _]. cbv zeta in Hc, Hc'.
  do 2 eexists. split; [reflexivity|]. split; [reflexivity|]. split; [lia|].
  split; [apply compact_mono; lia|]. split; [lia|]. intros Hon Hno.
  assert (x = 0) as ->.
  { unfold x, lateness. replace (t - node_timestamp anchor - (nextHeight - node_height anchor) * spacing) with 0 by lia.
    apply Z.quot_0_l. lia. }
  rewrite asertTarget_on_schedule. unfold limited. destruct (Z.leb_spec T 0); [lia|].
  destruct (Z.ltb_spec powLimit T); [lia|]. by apply BigToCompact_CompactToBig.
Qed.

(** C36: the difficulty rules always answer, within the limit. For a well-formed
    branch of blocks whose targets are positive and within the proof-of-work
    limit, and any time, [calcNextRequiredDifficulty] returns, without error, a
    target that is not negative and not above the limit, whichever rule applies:
    no retargeting, the fork reset, ASERT in either epoch, the minimum-difficulty
    exceptions or the retarget. *)
Theorem required_difficulty_total params n t :
  diff_params_ok params -> wf_node n -> node_height n + 1 < 2^31 ->
  Forall (fun m => 0 < CompactToBig (node_bits m) <= PowLimit params) (branch n) ->
  exists bits, calcNextRequiredDifficulty (Some n) t params = Ok bits /\
               0 <= CompactToBig bits <= PowLimit params.
Proof. intros Hp Hn Hb Hok. by apply required_total. Qed.

(** ** Witnesses *)

Definition sampleAnchor : blockNode :=
  Node None None (mkNodeData zeroHash 0 1000001 1 0x1d00ffff 0 1700000000 zeroHash).

Lemma asert_bounded_and_monotone_witness :
  exists bits',
    calcASERTRequiredDifficulty (Some sampleAnchor) 1000011 1700006000 600 3600 (2^224 - 1) = Ok 0x1d00ffff /\
    calcASERTRequiredDifficulty (Some sampleAnchor) 1000011 1700020000 600 3600 (2^224 - 1) = Ok bits' /\
    CompactToBig 0x1d00ffff <= CompactToBig bits'.
Proof.
  destruct (asert_bounded_and_monotone sampleAnchor 1000011 1700006000 1700020000 600 3600 (2^224 - 1))
    as (bits & bits' & H1 & H2 & H3 & H4 & H5 & H6).
  - repeat split; vm_compute; congruence.
  - repeat split; vm_compute; congruence.
  - vm_compute; congruence.
  - reflexivity.
  - split; vm_compute; reflexivity.
  - split; vm_compute; [reflexivity|congruence].
  - exists bits'. assert (Hb : bits = 0x1d00ffff).
    { apply H6; [reflexivity|]. exists 29, 65535. vm_compute. repeat split; congruence. }
    rewrite Hb in H1, H4. exact (conj H1 (conj H2 H4)).
Defined.

Lemma mainnet_diff_params : diff_params_ok ObtcMainNetParams.
Proof.
  constructor; try (vm_compute; split; congruence); try (left; reflexivity).
  - split; split; vm_compute; congruence.
  - right. split; vm_compute; congruence.
Qed.

Lemma required_difficulty_total_witness :
  exists bits, calcNextRequiredDifficulty (Some (sampleNode 5)) 1700003600 ObtcMainNetParams = Ok bits /\
               0 <= CompactToBig bits <= PowLimit ObtcMainNetParams.
Proof.
  apply (required_difficulty_total ObtcMainNetParams (sampleNode 5) 1700003600 mainnet_diff_params).
  - exact (proj1 (sampleNode_wf 5 eq_refl)).
  - reflexivity.
  - refine (Forall_impl _ _ _ (sampleNode_bits 5) _). intros m Hm. cbn beta in Hm. rewrite Hm.
    split; vm_compute; congruence.
Defined.
