(* ===== verification/Threshold.v ===== *)
(** * Rule change deployments

    src/blockchain/thresholdstate.go and src/blockchain/versionbits.go with the
    clocks of src/chaincfg/deployment_time_frame.go: the state machine by which
    soft forks are voted in (BIP 9 and its "speedy trial" variant), the cached
    computation of the state after a node, the checkers for a known deployment
    and for an unknown version bit, and the block version the node expects.

    A checker may consult the chain, whose own caches it then updates; its
    conditions thread a state for that, [unit] for a known deployment and the
    deployment caches for a version bit.

    The reference is [bip9State], the table of BIP 9 evaluated window by window
    along the parents of a node, without caches and without the shortcut for
    deployments that have not started. The theorems: the cached computation is
    the reference, whatever sound cache it starts from, and leaves a sound cache;
    a deployment that is not forced is active only after a window in which enough
    blocks voted for it; on every OBTC network CSV, segwit and taproot are active
    for every block after the first and no vote is open. *)

From S2P Require Import Prelude ChainParams Sha256 Wire Block WorkMath BlockNode.

Inductive ThresholdState :=
| ThresholdDefined
| ThresholdStarted
| ThresholdLockedIn
| ThresholdActive
| ThresholdFailed.

#[export] Instance ThresholdState_eq_dec : EqDecision ThresholdState.
Proof. solve_decision. Defined.

Inductive threshold_error :=
| ThresholdAssert (what : string)
| DeploymentError (id : Z)
| ThresholdPanic (what : string)
| ThresholdFuel.

(** [thresholdConditionChecker], over the state its conditions update. *)
Record thresholdConditionChecker (S : Type) := mkChecker {
  HasStarted : blockNode -> bool;
  HasEnded : blockNode -> bool;
  ck_RuleChangeActivationThreshold : Z;
  ck_MinerConfirmationWindow : Z;
  EligibleToActivate : blockNode -> bool;
  IsSpeedy : bool;
  Condition : S -> blockNode -> S * result threshold_error bool;
  ForceActive : option blockNode -> bool }.
Arguments mkChecker {S}. Arguments HasStarted {S}. Arguments HasEnded {S}.
Arguments ck_RuleChangeActivationThreshold {S}. Arguments ck_MinerConfirmationWindow {S}.
Arguments EligibleToActivate {S}. Arguments IsSpeedy {S}. Arguments Condition {S}. Arguments ForceActive {S}.

Definition thresholdStateCache : Type := gmap (list Z) ThresholdState.

Definition cacheLookup (c : thresholdStateCache) (hash : list Z) : option ThresholdState := c !! hash.
Definition cacheUpdate (c : thresholdStateCache) (hash : list Z) (state : ThresholdState) : thresholdStateCache :=
  <[hash := state]> c.
Definition newThresholdCaches (numCaches : Z) : list thresholdStateCache := replicate (Z.to_nat numCaches) ∅.

(** ** The state machine *)

Section machine.
Context {S : Type} (checker : thresholdConditionChecker S).

(** The votes of the window that ends at [countNode]; past the genesis block the
    condition is asked of nil. *)
Fixpoint countVotes (window : nat) (st : S) (countNode : option blockNode) (count : Z)
    : S * result threshold_error Z :=
  match window with
  | O => (st, Ok count)
  | Datatypes.S window' =>
      match countNode with
      | None => (st, Err (ThresholdPanic "nil node"))
      | Some n =>
          match Condition checker st n with
          | (st1, Err e) => (st1, Err e)
          | (st1, Ok condition) =>
              countVotes window' st1 (nodeParent n) (if condition then u32 (count + 1) else count)
          end
      end
  end.

Definition thresholdStateTransition (st : S) (state : ThresholdState) (prevNode : blockNode)
    (confirmationWindow : Z) : S * result threshold_error ThresholdState :=
  match state with
  | ThresholdDefined =>
      (st, Ok (if negb (IsSpeedy checker) && HasEnded checker prevNode then ThresholdFailed
               else if HasStarted checker prevNode then ThresholdStarted else ThresholdDefined))
  | ThresholdStarted =>
      if negb (IsSpeedy checker) && HasEnded checker prevNode then (st, Ok ThresholdFailed)
      else
        match countVotes (Z.to_nat confirmationWindow) st (Some prevNode) 0 with
        | (st1, Err e) => (st1, Err e)
        | (st1, Ok count) =>
            (st1, Ok (if ck_RuleChangeActivationThreshold checker <=? count then ThresholdLockedIn
                      else if IsSpeedy checker && HasEnded checker prevNode then ThresholdFailed
                      else ThresholdStarted))
        end
  | ThresholdLockedIn =>
      (st, Ok (if EligibleToActivate checker prevNode then ThresholdActive else ThresholdLockedIn))
  | ThresholdActive => (st, Ok ThresholdActive)
  | ThresholdFailed => (st, Ok ThresholdFailed)
  end.

(** The walk back over the ends of the previous windows, to a state that is
    cached or known: the nodes passed, oldest first, and where it stopped. *)
Fixpoint neededStates (fuel : nat) (confirmationWindow : Z) (cache : thresholdStateCache)
    (prevNode : option blockNode) (needed : list blockNode)
    : option (thresholdStateCache * list blockNode * option blockNode) :=
  match fuel with
  | O => None
  | Datatypes.S fuel' =>
      match prevNode with
      | None => Some (cache, needed, None)
      | Some n =>
          match cacheLookup cache (node_hash n) with
          | Some _ => Some (cache, needed, Some n)
          | None =>
              if negb (HasStarted checker n)
              then Some (cacheUpdate cache (node_hash n) ThresholdDefined, needed, Some n)
              else neededStates fuel' confirmationWindow cache (RelativeAncestor n confirmationWindow) (n :: needed)
          end
      end
  end.

(** The states of the nodes passed, each cached. *)
Fixpoint replayStates (confirmationWindow : Z) (st : S) (cache : thresholdStateCache)
    (state : ThresholdState) (needed : list blockNode)
    : S * thresholdStateCache * result threshold_error ThresholdState :=
  match needed with
  | [] => (st, cache, Ok state)
  | n :: needed' =>
      match thresholdStateTransition st state n confirmationWindow with
      | (st1, Err e) => (st1, cache, Err e)
      | (st1, Ok state1) =>
          replayStates confirmationWindow st1 (cacheUpdate cache (node_hash n) state1) state1 needed'
      end
  end.

(** The state of the block after [prevNode]. *)
Definition thresholdState (st : S) (cache : thresholdStateCache) (prevNode : option blockNode)
    : S * thresholdStateCache * result threshold_error ThresholdState :=
  if ForceActive checker prevNode then (st, cache, Ok ThresholdActive)
  else
    let confirmationWindow := i32 (ck_MinerConfirmationWindow checker) in
    match prevNode with
    | None => (st, cache, Ok ThresholdDefined)
    | Some n =>
        if i32 (node_height n + 1) <? confirmationWindow then (st, cache, Ok ThresholdDefined)
        else if confirmationWindow =? 0 then (st, cache, Err (ThresholdPanic "integer divide by zero"))
        else
          let start := Ancestor n (i32 (node_height n - Z.rem (i32 (node_height n + 1)) confirmationWindow)) in
          match neededStates (Datatypes.S (Datatypes.S (Z.to_nat (node_height n)))) confirmationWindow cache start [] with
          | None => (st, cache, Err ThresholdFuel)
          | Some (cache1, needed, stop) =>
              match stop with
              | None => replayStates confirmationWindow st cache1 ThresholdDefined needed
              | Some m =>
                  match cacheLookup cache1 (node_hash m) with
                  | None => (st, cache1, Err (ThresholdAssert "thresholdState: cache lookup failed"))
                  | Some state => replayStates confirmationWindow st cache1 state needed
                  end
              end
          end
    end.
End machine.

(** ** Block clocks *)

(** [PastMedianTime], from the header alone: the parent is looked up. *)
Definition PastMedianTime (index : blockIndex) (blockHeader : BlockHeader) : option Z :=
  match LookupNode index (bh_PrevBlock blockHeader) with
  | None => None
  | Some prevNode => Some (CalcPastMedianTime (newBlockNode blockHeader (Some prevNode)))
  end.

(** [HasStarted] of a starter and [HasEnded] of an ender whose clock is set; an
    error of the clock is read as false by the only callers. *)
Definition timeStarted (clock : BlockHeader -> option Z) (startTime : option Z) (blkHeader : BlockHeader) : bool :=
  match startTime with
  | None => true
  | Some t => match clock blkHeader with None => false | Some medianTime => t <=? medianTime end
  end.
Definition timeEnded (clock : BlockHeader -> option Z) (endTime : option Z) (blkHeader : BlockHeader) : bool :=
  match endTime with
  | None => false
  | Some t => match clock blkHeader with None => false | Some medianTime => t <=? medianTime end
  end.

(** ** The checkers *)

Definition vbTopBits : Z := 0x20000000.
Definition vbTopMask : Z := 0xe0000000.
Definition vbNumBits : nat := 29.

Definition node_version (n : blockNode) : Z := nd_version (nodeInfo n).

(** [Condition] of a deployment. *)
Definition votesFor (bit : Z) (n : blockNode) : bool :=
  let version := u32 (node_version n) in
  (Z.land version vbTopMask =? vbTopBits) && negb (Z.land version (u32 (Z.shiftl 1 bit)) =? 0).

Section chain.
Context (chainParams : Params) (index : blockIndex).

Definition deploymentChecker (deployment : ConsensusDeployment) : thresholdConditionChecker unit :=
  mkChecker
    (fun blkNode => timeStarted (PastMedianTime index) (DeploymentStarter deployment) (nodeHeader blkNode))
    (fun blkNode => timeEnded (PastMedianTime index) (DeploymentEnder deployment) (nodeHeader blkNode))
    (if negb (CustomActivationThreshold deployment =? 0) then CustomActivationThreshold deployment
     else RuleChangeActivationThreshold chainParams)
    (MinerConfirmationWindow chainParams)
    (fun blkNode =>
       if MinActivationHeight deployment =? 0 then true
       else MinActivationHeight deployment <=? u32 (u32 (node_height blkNode) + 1))
    (negb (MinActivationHeight deployment =? 0) || negb (CustomActivationThreshold deployment =? 0))
    (fun st node => (st, Ok (votesFor (BitNumber deployment) node)))
    (fun node =>
       match node with
       | None => false
       | Some n => EffectiveAlwaysActiveHeight deployment <=? u32 (u32 (node_height n) + 1)
       end).

(** The state after [prevNode] of the deployment [deploymentID]. The guard lets
    the number of deployments through, which then is out of range. *)
Definition deploymentState (caches : list thresholdStateCache) (prevNode : option blockNode) (deploymentID : Z)
    : list thresholdStateCache * result threshold_error ThresholdState :=
  if zlen (Deployments chainParams) <? deploymentID then (caches, Err (DeploymentError deploymentID))
  else
    let id := Z.to_nat deploymentID in
    match Deployments chainParams !! id, caches !! id with
    | Some deployment, Some cache =>
        let '(_, cache1, r) := thresholdState (deploymentChecker deployment) tt cache prevNode in
        (<[id := cache1]> caches, r)
    | _, _ => (caches, Err (ThresholdPanic "index out of range"))
    end.

(** The loop of [calcNextBlockVersion] over the deployments from [id] on. *)
Fixpoint nextVersionFrom (id : nat) (deployments : list ConsensusDeployment) (caches : list thresholdStateCache)
    (prevNode : option blockNode) (expectedVersion : Z) : list thresholdStateCache * result threshold_error Z :=
  match deployments with
  | [] => (caches, Ok expectedVersion)
  | deployment :: deployments' =>
      match caches !! id with
      | None => (caches, Err (ThresholdPanic "index out of range"))
      | Some cache =>
          let '(_, cache1, r) := thresholdState (deploymentChecker deployment) tt cache prevNode in
          let caches1 := <[id := cache1]> caches in
          match r with
          | Err e => (caches1, Err e)
          | Ok state =>
              nextVersionFrom (S id) deployments' caches1 prevNode
                (if bool_decide (state = ThresholdStarted) || bool_decide (state = ThresholdLockedIn)
                 then Z.lor expectedVersion (u32 (Z.shiftl 1 (BitNumber deployment)))
                 else expectedVersion)
          end
      end
  end.

Definition calcNextBlockVersion (caches : list thresholdStateCache) (prevNode : option blockNode)
    : list thresholdStateCache * result threshold_error Z :=
  let '(caches1, r) := nextVersionFrom 0 (Deployments chainParams) caches prevNode vbTopBits in
  (caches1, version ← r; Ok (i32 version)).

(** The checker that watches a version bit for votes nobody here knows of. *)
Definition bitConditionChecker (bit : Z) : thresholdConditionChecker (list thresholdStateCache) :=
  mkChecker (fun _ => true) (fun _ => false)
    (RuleChangeActivationThreshold chainParams) (MinerConfirmationWindow chainParams)
    (fun _ => true) false
    (fun caches node =>
       let conditionMask := u32 (Z.shiftl 1 bit) in
       let version := u32 (node_version node) in
       if negb (Z.land version vbTopMask =? vbTopBits) then (caches, Ok false)
       else if Z.land version conditionMask =? 0 then (caches, Ok false)
       else
         match calcNextBlockVersion caches (nodeParent node) with
         | (caches1, Err e) => (caches1, Err e)
         | (caches1, Ok expectedVersion) => (caches1, Ok (Z.land (u32 expectedVersion) conditionMask =? 0))
         end)
    (fun _ => false).

(** ** Warnings *)

(** [warningCaches], [deploymentCaches] and [unknownRulesWarned]. *)
Record VersionBits := mkVersionBits {
  warningCaches : list thresholdStateCache;
  deploymentCaches : list thresholdStateCache;
  unknownRulesWarned : bool }.

(** One bit of [warnUnknownRuleActivations] or [initThresholdCaches]. *)
Definition watchBit (vb : VersionBits) (prevNode : option blockNode) (bit : nat)
    : VersionBits * result threshold_error ThresholdState :=
  match warningCaches vb !! bit with
  | None => (vb, Err (ThresholdPanic "index out of range"))
  | Some cache =>
      let '(caches1, cache1, r) := thresholdState (bitConditionChecker (Z.of_nat bit)) (deploymentCaches vb) cache prevNode in
      (mkVersionBits (<[bit := cache1]> (warningCaches vb)) caches1 (unknownRulesWarned vb), r)
  end.

Fixpoint warnBits (bits : list nat) (vb : VersionBits) (prevNode : option blockNode)
    : VersionBits * result threshold_error unit :=
  match bits with
  | [] => (vb, Ok tt)
  | bit :: bits' =>
      match watchBit vb prevNode bit with
      | (vb1, Err e) => (vb1, Err e)
      | (vb1, Ok state) =>
          warnBits bits'
            (mkVersionBits (warningCaches vb1) (deploymentCaches vb1)
               (unknownRulesWarned vb1 || bool_decide (state = ThresholdActive))) prevNode
      end
  end.

Definition warnUnknownRuleActivations (vb : VersionBits) (node : blockNode) : VersionBits * result threshold_error unit :=
  warnBits (seq 0 vbNumBits) vb (nodeParent node).

Fixpoint initBits (bits : list nat) (vb : VersionBits) (prevNode : option blockNode)
    : VersionBits * result threshold_error unit :=
  match bits with
  | [] => (vb, Ok tt)
  | bit :: bits' =>
      match watchBit vb prevNode bit with
      | (vb1, Err e) => (vb1, Err e)
      | (vb1, Ok _) => initBits bits' vb1 prevNode
      end
  end.

Fixpoint initDeployments (ids : list nat) (vb : VersionBits) (prevNode : option blockNode)
    : VersionBits * result threshold_error unit :=
  match ids with
  | [] => (vb, Ok tt)
  | id :: ids' =>
      let '(caches1, r) := deploymentState (deploymentCaches vb) prevNode (Z.of_nat id) in
      let vb1 := mkVersionBits (warningCaches vb) caches1 (unknownRulesWarned vb) in
      match r with
      | Err e => (vb1, Err e)
      | Ok _ => initDeployments ids' vb1 prevNode
      end
  end.

(** [isCurrent] is what the chain says of itself. *)
Definition initThresholdCaches (vb : VersionBits) (tip : blockNode) (isCurrent : bool)
    : VersionBits * result threshold_error unit :=
  match initBits (seq 0 vbNumBits) vb (nodeParent tip) with
  | (vb1, Err e) => (vb1, Err e)
  | (vb1, Ok _) =>
      match initDeployments (seq 0 (length (Deployments chainParams))) vb1 (nodeParent tip) with
      | (vb2, Err e) => (vb2, Err e)
      | (vb2, Ok _) => if isCurrent then warnUnknownRuleActivations vb2 tip else (vb2, Ok tt)
      end
  end.
End chain.

(** ** The reference *)

Section reference.
Context {S : Type} (checker : thresholdConditionChecker S) (votes : blockNode -> bool).

Definition windowSize : Z := ck_MinerConfirmationWindow checker.

(** The blocks of the window that ends at [n] that vote. *)
Definition voteCount (n : blockNode) : Z :=
  zlen (List.filter votes (take (Z.to_nat windowSize) (branch n))).

(** The table of BIP 9: the state of the window after the one that ends at [n],
    from the state of that one. *)
Definition nextState (state : ThresholdState) (n : blockNode) : ThresholdState :=
  match state with
  | ThresholdDefined =>
      if negb (IsSpeedy checker) && HasEnded checker n then ThresholdFailed
      else if HasStarted checker n then ThresholdStarted else ThresholdDefined
  | ThresholdStarted =>
      if negb (IsSpeedy checker) && HasEnded checker n then ThresholdFailed
      else if ck_RuleChangeActivationThreshold checker <=? voteCount n then ThresholdLockedIn
      else if IsSpeedy checker && HasEnded checker n then ThresholdFailed else ThresholdStarted
  | ThresholdLockedIn => if EligibleToActivate checker n then ThresholdActive else ThresholdLockedIn
  | ThresholdActive => ThresholdActive
  | ThresholdFailed => ThresholdFailed
  end.

(** The state after [k] windows, the last of which ends at [n]. *)
Fixpoint windowState (k : nat) (n : blockNode) : ThresholdState :=
  match k with
  | O => ThresholdDefined
  | Datatypes.S k' =>
      nextState
        match branch n !! Z.to_nat windowSize with
        | Some m => windowState k' m
        | None => ThresholdDefined
        end n
  end.

(** The state of the block after [n]: that of the last complete window. *)
Definition bip9State (n : blockNode) : ThresholdState :=
  let windows := (node_height n + 1) / windowSize in
  match atHeight n (windows * windowSize - 1) with
  | Some m => windowState (Z.to_nat windows) m
  | None => ThresholdDefined
  end.
End reference.

(** ** The cached computation is the reference *)

Section correctness.
Context {S : Type} (checker : thresholdConditionChecker S) (votes : blockNode -> bool).
Context (U : blockNode -> Prop) (I : S -> Prop).
#[local] Abbreviation w := (windowSize checker).

Hypothesis window_range : 0 < w < 2^31.
Hypothesis U_wf : forall n, U n -> wf_node n.
Hypothesis U_branch : forall n m, U n -> m ∈ branch n -> U m.
Hypothesis U_hash : forall n m, U n -> U m -> node_hash n = node_hash m -> n = m.
Hypothesis condition_votes : forall st n, I st -> U n ->
  exists st', Condition checker st n = (st', Ok (votes n)) /\ I st'.
Hypothesis unstarted_defined : forall n k, U n -> node_height n + 1 = Z.of_nat k * w -> HasStarted checker n = false ->
  windowState checker votes k n = ThresholdDefined.

Lemma countVotes_spec k st n count :
  I st -> U n -> Z.of_nat k <= node_height n + 1 -> 0 <= count -> count + Z.of_nat k < 2^32 ->
  exists st', countVotes checker k st (Some n) count
              = (st', Ok (count + zlen (List.filter votes (take k (branch n))))) /\ I st'.
Proof using U_branch U_wf condition_votes.
  revert st n count. induction k as [|k IH]; intros st n count Hst Hn Hk Hc Hb.
  { exists st. split; [|done]. cbn [countVotes take List.filter]. unfold zlen; cbn [length]. by rewrite Z.add_0_r. }
  cbn [countVotes]. destruct (condition_votes st n Hst Hn) as (st1 & -> & Hst1).
  rewrite branch_unfold. cbn [take List.filter].
  assert (Hcount : (if votes n then u32 (count + 1) else count) = if votes n then count + 1 else count)
    by (destruct (votes n); [apply u32_id; widths; lia|done]). rewrite Hcount.
  destruct (nodeParent n) as [p|] eqn:Ep.
  - assert (Hp : U p) by (apply (U_branch n); [done|]; rewrite branch_unfold, Ep; right; rewrite branch_unfold; left).
    assert (Hh : node_height p + 1 = node_height n).
    { destruct (U_wf n Hn) as [d|q d _ E _]; [done|]. injection Ep as ->. unfold node_height in *; cbn [nodeInfo] in *; lia. }
    destruct (IH st1 p (if votes n then count + 1 else count)) as (st2 & -> & Hst2); [done|done|lia|destruct (votes n); lia|destruct (votes n); lia|].
    exists st2. split; [|done]. f_equal; f_equal. destruct (votes n); unfold zlen; cbn [length]; lia.
  - assert (k = 0%nat) as -> by (destruct (U_wf n Hn) as [d E|q d _ _ _]; [|done]; unfold node_height in *; cbn [nodeInfo] in *; lia).
    exists st1. split; [|done]. cbn [countVotes take List.filter]. f_equal; f_equal. destruct (votes n); unfold zlen; cbn; lia.
Qed.

Lemma transition_spec st s n :
  I st -> U n -> w <= node_height n + 1 ->
  exists st', thresholdStateTransition checker st s n w = (st', Ok (nextState checker votes s n)) /\ I st'.
Proof using U_branch U_wf condition_votes window_range.
  intros Hst Hn Hw. destruct s; cbn [thresholdStateTransition nextState]; try (by eexists).
  destruct (negb (IsSpeedy checker) && HasEnded checker n); [by eexists|].
  destruct (countVotes_spec (Z.to_nat w) st n 0) as (st1 & -> & Hst1); [done|done|lia|lia|lia|].
  exists st1. by rewrite Z.add_0_l.
Qed.

(** Every entry is the state the reference gives after a window of [U]. *)
Definition cacheOK (c : thresholdStateCache) : Prop :=
  forall h s, c !! h = Some s ->
    exists n k, U n /\ node_hash n = h /\ node_height n + 1 = Z.of_nat k * w /\ s = windowState checker votes k n.

Lemma cacheOK_empty : cacheOK ∅.
Proof using. intros h s H. by apply (lookup_empty_Some (M := gmap (list Z))) in H. Qed.

Lemma cacheOK_lookup c n k s :
  cacheOK c -> U n -> node_height n + 1 = Z.of_nat k * w -> c !! node_hash n = Some s ->
  s = windowState checker votes k n.
Proof using U_hash window_range.
  intros Hc Hn Hk Hs. destruct (Hc _ _ Hs) as (m & j & Hm & Hh & Hj & ->).
  apply U_hash in Hh as ->; [|done|done]. f_equal. nia.
Qed.

Lemma cacheOK_update c n k :
  cacheOK c -> U n -> node_height n + 1 = Z.of_nat k * w ->
  cacheOK (cacheUpdate c (node_hash n) (windowState checker votes k n)).
Proof using.
  intros Hc Hn Hk h s. unfold cacheUpdate, cacheOK, thresholdStateCache in *.
  intros [[<- <-]|[_ Hs]]%lookup_insert_Some; [by exists n, k|by apply Hc].
Qed.

Lemma previous_window n k :
  U n -> node_height n + 1 = Z.of_nat (Datatypes.S k) * w ->
  RelativeAncestor n w = branch n !! Z.to_nat w /\
  match branch n !! Z.to_nat w with
  | Some m => U m /\ (0 < k)%nat /\ node_height m + 1 = Z.of_nat k * w
  | None => k = 0%nat
  end.
Proof using U_branch U_wf window_range.
  intros Hn Hk. pose proof (U_wf n Hn) as Hwf. pose proof (wf_node_height n Hwf). pose proof (length_branch n Hwf) as Hl.
  unfold RelativeAncestor. rewrite i32_id by (widths; lia). rewrite Ancestor_atHeight by done. unfold atHeight.
  destruct (branch n !! Z.to_nat w) as [m|] eqn:E.
  - destruct (branch_lookup n _ m Hwf E) as (Hm & Hh & _). pose proof (lookup_lt_Some _ _ _ E).
    rewrite (proj2 (Z.ltb_ge _ _)), (proj2 (Z.ltb_ge _ _)) by lia. cbn [orb].
    replace (node_height n - (node_height n - w)) with w by lia. split; [done|].
    split_and!; [by apply (U_branch n); [|eapply list_elem_of_lookup_2]|nia|nia].
  - apply lookup_ge_None in E. split; [by rewrite (proj2 (Z.ltb_lt _ _)) by nia|]. nia.
Qed.

Lemma windowState_S k n :
  windowState checker votes (Datatypes.S k) n
  = nextState checker votes
      match branch n !! Z.to_nat w with Some m => windowState checker votes k m | None => ThresholdDefined end n.
Proof using. done. Qed.

Lemma needed_replay fuel k n cache needed :
  U n -> (0 < k)%nat -> node_height n + 1 = Z.of_nat k * w -> (k < fuel)%nat -> cacheOK cache ->
  exists cache' pre stop s0,
    neededStates checker fuel w cache (Some n) needed = Some (cache', pre ++ needed, stop) /\ cacheOK cache' /\
    match stop with None => s0 = ThresholdDefined | Some m => cacheLookup cache' (node_hash m) = Some s0 end /\
    forall st c rest, I st -> cacheOK c ->
      exists st' c', replayStates checker w st c s0 (pre ++ rest)
                     = replayStates checker w st' c' (windowState checker votes k n) rest /\ I st' /\ cacheOK c'.
Proof using All.
  revert k n cache needed. induction fuel as [|fuel IH]; intros k n cache needed Hn Hk Hkw Hf Hc; [lia|].
  cbn [neededStates]. destruct (cacheLookup cache (node_hash n)) as [s|] eqn:El.
  { exists cache, [], (Some n), s. split_and!; [done|done|done|]. intros st c rest Hst Hcc. exists st, c.
    by rewrite <- (cacheOK_lookup cache n k s Hc Hn Hkw El). }
  destruct (HasStarted checker n) eqn:Es; cbn [negb].
  2:{ pose proof (unstarted_defined n k Hn Hkw Es) as Hd. pose proof (cacheOK_update cache n k Hc Hn Hkw) as Hu.
    rewrite Hd in Hu. exists (cacheUpdate cache (node_hash n) ThresholdDefined), [], (Some n), ThresholdDefined.
    split_and!; [done|done|by apply lookup_insert_eq|]. intros st c rest Hst Hcc. exists st, c. by rewrite Hd. }
  destruct k as [|k]; [lia|]. destruct (previous_window n k Hn Hkw) as [Hr Hp]. rewrite Hr.
  assert (Hstep : forall st c rest s0, I st -> cacheOK c ->
    nextState checker votes s0 n = windowState checker votes (Datatypes.S k) n ->
    exists st' c', replayStates checker w st c s0 (n :: rest)
      = replayStates checker w st' c' (windowState checker votes (Datatypes.S k) n) rest /\ I st' /\ cacheOK c').
  { intros st c rest s0 Hst Hcc Hnext. cbn [replayStates].
    destruct (transition_spec st s0 n Hst Hn) as (st1 & -> & Hst1); [nia|]. rewrite Hnext.
    eexists st1, _. split_and!; [done|done|]. by apply cacheOK_update. }
  destruct (branch n !! Z.to_nat w) as [m|] eqn:Em.
  - destruct Hp as (Hm & Hk0 & Hmk).
    destruct (IH k m cache (n :: needed) Hm Hk0 Hmk ltac:(lia) Hc) as (cache' & pre & stop & s0 & -> & Hc' & Hs0 & Hrep).
    exists cache', (pre ++ [n]), stop, s0. split_and!; [by rewrite <- app_assoc|done|done|].
    intros st c rest Hst Hcc. rewrite <- app_assoc. destruct (Hrep st c ([n] ++ rest) Hst Hcc) as (st1 & c1 & -> & Hst1 & Hc1).
    apply (Hstep st1 c1); [done|done|]. by rewrite windowState_S, Em.
  - subst k. destruct fuel as [|fuel]; [lia|]. cbn [neededStates].
    exists cache, [n], None, ThresholdDefined. split_and!; [done|done|done|].
    intros st c rest Hst Hcc. apply Hstep; [done|done|]. by rewrite windowState_S, Em.
Qed.

Lemma thresholdState_spec st cache n :
  I st -> cacheOK cache -> U n -> node_height n + 1 < 2^31 ->
  exists st' cache',
    thresholdState checker st cache (Some n)
    = (st', cache', Ok (if ForceActive checker (Some n) then ThresholdActive else bip9State checker votes n)) /\
    I st' /\ cacheOK cache'.
Proof using All.
  intros Hst Hc Hn Hmax. unfold thresholdState. destruct (ForceActive checker (Some n)); [by eexists st, cache|].
  pose proof (U_wf n Hn) as Hwf. pose proof (wf_node_height n Hwf) as Hh. pose proof (length_branch n Hwf) as Hl.
  change (ck_MinerConfirmationWindow checker) with w. rewrite (i32_id w), (i32_id (node_height n + 1)) by (widths; lia).
  unfold bip9State. rewrite Z.rem_mod_nonneg by lia. pose proof (Z.mod_pos_bound (node_height n + 1) w ltac:(lia)) as Hmod.
  pose proof (Z.div_mod (node_height n + 1) w ltac:(lia)) as Hdiv. set (q := (node_height n + 1) / w) in *.
  destruct (Z.ltb_spec (node_height n + 1) w) as [Hlt|Hge].
  { assert (q = 0) as -> by (apply Z.div_small; lia). exists st, cache. by unfold atHeight. }
  assert (1 <= q) by (apply Z.div_le_lower_bound; lia).
  rewrite (proj2 (Z.eqb_neq _ _)) by lia. rewrite i32_id by (widths; lia). rewrite Ancestor_atHeight by done.
  replace (node_height n - (node_height n + 1) mod w) with (q * w - 1) by lia. unfold atHeight.
  rewrite (proj2 (Z.ltb_ge _ _)), (proj2 (Z.ltb_ge _ _)) by nia. cbn [orb].
  destruct (branch n !! Z.to_nat (node_height n - (q * w - 1))) as [m|] eqn:Em; [|apply lookup_ge_None in Em; nia].
  destruct (branch_lookup n _ m Hwf Em) as (Hm & Hhm & _).
  assert (U m) as HUm by (apply (U_branch n); [done|by eapply list_elem_of_lookup_2]).
  destruct (needed_replay (Datatypes.S (Datatypes.S (Z.to_nat (node_height n)))) (Z.to_nat q) m cache [])
    as (cache' & pre & stop & s0 & -> & Hc' & Hs0 & Hrep); [done|lia|nia|nia|done|].
  destruct (Hrep st cache' [] Hst Hc') as (st1 & c1 & Hr & Hst1 & Hc1). exists st1, c1.
  destruct stop as [m'|]; [rewrite Hs0|subst s0]; rewrite Hr; by split_and!.
Qed.
End correctness.

(** ** Deployments *)

(** Votes are counted from a start to an end that do not cross. *)
Definition saneTimes (d : ConsensusDeployment) : Prop :=
  match DeploymentStarter d, DeploymentEnder d with Some s, Some e => s <= e | _, _ => True end.

(** A node of the index whose ancestors are in the index too, and whose times
    validation accepted. *)
Definition indexed (index : blockIndex) (n : blockNode) : Prop :=
  wf_node n /\ times_ok n /\ Forall (fun m => LookupNode index (node_hash m) = Some m) (branch n).

Lemma branch_trans n m : wf_node n -> m ∈ branch n -> exists k, branch n !! k = Some m /\ branch m = drop k (branch n).
Proof.
  intros Hn Hm. apply list_elem_of_lookup in Hm as [k Hk]. exists k. split; [done|].
  by destruct (branch_lookup n k m Hn Hk) as (_ & _ & ?).
Qed.

Lemma indexed_branch index n m : indexed index n -> m ∈ branch n -> indexed index m.
Proof.
  intros (Hwf & Ht & Hi) Hm. destruct (branch_trans n m Hwf Hm) as (k & Hk & Hd).
  destruct (branch_lookup n k m Hwf Hk) as (Hwm & _ & _). unfold indexed, times_ok in *. rewrite Hd.
  split_and!; [done|by apply Forall_drop|by apply Forall_drop].
Qed.

Lemma indexed_self index n : indexed index n -> LookupNode index (node_hash n) = Some n.
Proof. intros (_ & _ & Hi). rewrite branch_unfold in Hi. by apply Forall_cons_1 in Hi as [? _]. Qed.

Lemma indexed_hash index n m : indexed index n -> indexed index m -> node_hash n = node_hash m -> n = m.
Proof. intros Hn%indexed_self Hm%indexed_self E. rewrite E in Hn. congruence. Qed.

Lemma clock_node index n :
  LookupNode index zeroHash = None -> indexed index n ->
  PastMedianTime index (nodeHeader n) = match nodeParent n with Some _ => Some (CalcPastMedianTime n) | None => None end.
Proof.
  intros Hz Hn. unfold PastMedianTime. change (bh_PrevBlock (nodeHeader n)) with
    (match nodeParent n with Some p => node_hash p | None => zeroHash end).
  destruct (nodeParent n) as [p|] eqn:Ep; [|by rewrite Hz].
  rewrite (indexed_self index p).
  - f_equal. unfold CalcPastMedianTime, medianTimeBlocks. by rewrite !(pastTimestamps_S 10), Ep.
  - apply (indexed_branch index n); [done|]. rewrite branch_unfold, Ep. right. rewrite branch_unfold. left.
Qed.

Section deployment.
Context (chainParams : Params) (index : blockIndex) (d : ConsensusDeployment).
#[local] Abbreviation checker := (deploymentChecker chainParams index d).

Hypothesis no_zero : LookupNode index zeroHash = None.
Hypothesis sane : saneTimes d.

Lemma started_node n : indexed index n ->
  HasStarted checker n
  = match DeploymentStarter d, nodeParent n with None, _ => true | Some _, None => false | Some t, Some _ => t <=? CalcPastMedianTime n end.
Proof using no_zero.
  intros Hn. cbn [HasStarted deploymentChecker]. unfold timeStarted. rewrite clock_node by done.
  by destruct (DeploymentStarter d), (nodeParent n).
Qed.
Lemma ended_node n : indexed index n ->
  HasEnded checker n
  = match DeploymentEnder d, nodeParent n with Some t, Some _ => t <=? CalcPastMedianTime n | _, _ => false end.
Proof using no_zero.
  intros Hn. cbn [HasEnded deploymentChecker]. unfold timeEnded. rewrite clock_node by done.
  by destruct (DeploymentEnder d), (nodeParent n).
Qed.

Lemma started_later n m :
  indexed index n -> m ∈ branch n -> HasStarted checker n = false -> HasStarted checker m = false.
Proof using no_zero.
  intros Hn Hm. rewrite !started_node by (done || by eapply indexed_branch).
  destruct (DeploymentStarter d) as [t|]; [|done].
  destruct (nodeParent n) as [p|] eqn:Ep.
  - pose proof (median_time_branch n m ltac:(apply Hn) Hm). destruct (nodeParent m); [|done].
    intros ?%Z.leb_gt. apply Z.leb_gt. lia.
  - intros _. rewrite branch_unfold, Ep in Hm. apply list_elem_of_singleton in Hm as ->. by rewrite Ep.
Qed.

Lemma ended_started n : indexed index n -> HasStarted checker n = false -> HasEnded checker n = false.
Proof using no_zero sane.
  intros Hn. rewrite started_node, ended_node by done. unfold saneTimes in sane.
  destruct (DeploymentStarter d) as [s|], (DeploymentEnder d) as [e|], (nodeParent n); try done.
  intros ?%Z.leb_gt. apply Z.leb_gt. lia.
Qed.

Lemma deployment_unstarted votes k n :
  indexed index n -> HasStarted checker n = false -> windowState checker votes k n = ThresholdDefined.
Proof using no_zero sane.
  revert n. induction k as [|k IH]; intros n Hn Hs; [done|]. rewrite windowState_S.
  assert (match branch n !! Z.to_nat (windowSize checker) with
          | Some m => windowState checker votes k m | None => ThresholdDefined end = ThresholdDefined) as ->.
  { destruct (branch n !! _) as [m|] eqn:E; [|done]. apply list_elem_of_lookup_2 in E.
    apply IH; [by eapply indexed_branch|by eapply started_later]. }
  cbn [nextState]. by rewrite (ended_started n Hn Hs), Hs, andb_false_r.
Qed.
End deployment.

(** ** The chain's caches *)

(** What the reference says of a deployment for the block after [prevNode]. *)
Definition deploymentSpec (chainParams : Params) (index : blockIndex) (d : ConsensusDeployment)
    (prevNode : option blockNode) : ThresholdState :=
  match prevNode with
  | None => ThresholdDefined
  | Some n =>
      if ForceActive (deploymentChecker chainParams index d) prevNode then ThresholdActive
      else bip9State (deploymentChecker chainParams index d) (votesFor (BitNumber d)) n
  end.

(** The version a block after [prevNode] is expected to have. *)
Definition expectedVersionFrom (chainParams : Params) (index : blockIndex) (prevNode : option blockNode)
    (deployments : list ConsensusDeployment) (version : Z) : Z :=
  foldl (fun v d =>
           if bool_decide (deploymentSpec chainParams index d prevNode ∈ [ThresholdStarted; ThresholdLockedIn])
           then Z.lor v (u32 (Z.shiftl 1 (BitNumber d))) else v) version deployments.

Definition deploymentCacheOK (chainParams : Params) (index : blockIndex) (d : ConsensusDeployment)
    (c : thresholdStateCache) : Prop :=
  cacheOK (deploymentChecker chainParams index d) (votesFor (BitNumber d)) (indexed index) c.

Definition cachesSound (chainParams : Params) (index : blockIndex) (caches : list thresholdStateCache) : Prop :=
  Forall2 (deploymentCacheOK chainParams index) (Deployments chainParams) caches.

(** The node a computation starts from: none, or one of the index. *)
Definition prevOK (index : blockIndex) (prevNode : option blockNode) : Prop :=
  match prevNode with None => True | Some n => indexed index n /\ node_height n + 1 < 2^31 end.

Section chain_proofs.
Context (chainParams : Params) (index : blockIndex).
Hypothesis window_range : 0 < MinerConfirmationWindow chainParams < 2^31.
Hypothesis no_zero : LookupNode index zeroHash = None.
Hypothesis sane : Forall saneTimes (Deployments chainParams).

Lemma deployment_threshold d cache prevNode :
  saneTimes d -> deploymentCacheOK chainParams index d cache -> prevOK index prevNode ->
  exists cache', thresholdState (deploymentChecker chainParams index d) tt cache prevNode
                 = (tt, cache', Ok (deploymentSpec chainParams index d prevNode)) /\
                 deploymentCacheOK chainParams index d cache'.
Proof using no_zero window_range.
  intros Hd Hc Hp. destruct prevNode as [n|]; [|by exists cache]. destruct Hp as [Hn Hmax].
  destruct (thresholdState_spec (deploymentChecker chainParams index d) (votesFor (BitNumber d)) (indexed index) (fun _ => True))
    with (st := tt) (cache := cache) (n := n) as ([] & cache' & -> & _ & Hc'); try done.
  - by intros m [].
  - intros m x Hm Hx. by eapply indexed_branch.
  - apply indexed_hash.
  - intros [] m _ _. by exists tt.
  - intros m k Hm _ Hs. by apply deployment_unstarted.
  - by exists cache'.
Qed.

Lemma deploymentState_sound caches prevNode id d :
  cachesSound chainParams index caches -> prevOK index prevNode -> 0 <= id ->
  Deployments chainParams !! Z.to_nat id = Some d ->
  exists caches', deploymentState chainParams index caches prevNode id
                  = (caches', Ok (deploymentSpec chainParams index d prevNode)) /\
                  cachesSound chainParams index caches'.
Proof using no_zero sane window_range.
  intros Hc Hp H0 Hd. unfold deploymentState. pose proof (lookup_lt_Some _ _ _ Hd) as Hlt.
  rewrite (proj2 (Z.ltb_ge _ _)) by (unfold zlen; lia). rewrite Hd.
  destruct (Forall2_lookup_l _ _ _ _ _ Hc Hd) as (cache & -> & Hcd).
  destruct (deployment_threshold d cache prevNode) as (cache' & -> & Hc'); [by eapply Forall_lookup_1|done|done|].
  eexists. split; [done|]. unfold cachesSound. rewrite <- (list_insert_id _ _ _ Hd). by apply Forall2_insert.
Qed.

Lemma nextVersion_sound id deployments caches prevNode v :
  cachesSound chainParams index caches -> prevOK index prevNode ->
  deployments = drop id (Deployments chainParams) ->
  exists caches', nextVersionFrom chainParams index id deployments caches prevNode v
                  = (caches', Ok (expectedVersionFrom chainParams index prevNode deployments v)) /\
                  cachesSound chainParams index caches'.
Proof using no_zero sane window_range.
  revert id caches v. induction deployments as [|d ds IH]; intros id caches v Hc Hp Hds; [by exists caches|].
  assert (Hd : Deployments chainParams !! id = Some d).
  { rewrite <- (Nat.add_0_r id), <- lookup_drop, <- Hds. done. }
  cbn [nextVersionFrom]. destruct (Forall2_lookup_l _ _ _ _ _ Hc Hd) as (cache & -> & Hcd).
  destruct (deployment_threshold d cache prevNode) as (cache' & -> & Hc'); [by eapply Forall_lookup_1|done|done|].
  destruct (IH (S id) (<[id := cache']> caches)
    (if bool_decide (deploymentSpec chainParams index d prevNode ∈ [ThresholdStarted; ThresholdLockedIn])
     then Z.lor v (u32 (Z.shiftl 1 (BitNumber d))) else v)) as (caches' & Hr & Hcs).
  - unfold cachesSound. rewrite <- (list_insert_id _ _ _ Hd). by apply Forall2_insert.
  - done.
  - replace (S id) with (id + 1)%nat by lia. rewrite <- drop_drop, <- Hds. done.
  - exists caches'. split; [|done]. unfold expectedVersionFrom in *. cbn [foldl]. rewrite <- Hr. f_equal.
    by destruct (deploymentSpec chainParams index d prevNode).
Qed.

Lemma calcNextBlockVersion_sound caches prevNode :
  cachesSound chainParams index caches -> prevOK index prevNode ->
  exists caches', calcNextBlockVersion chainParams index caches prevNode
    = (caches', Ok (i32 (expectedVersionFrom chainParams index prevNode (Deployments chainParams) vbTopBits))) /\
    cachesSound chainParams index caches'.
Proof using no_zero sane window_range.
  intros Hc Hp. unfold calcNextBlockVersion.
  destruct (nextVersion_sound 0 (Deployments chainParams) caches prevNode vbTopBits Hc Hp) as (caches' & -> & Hc'); [done|].
  by exists caches'.
Qed.

(** A block that votes with a bit it is not expected to set. *)
Definition votesUnknown (bit : Z) (n : blockNode) : bool :=
  votesFor bit n &&
  (Z.land (u32 (i32 (expectedVersionFrom chainParams index (nodeParent n) (Deployments chainParams) vbTopBits)))
     (u32 (Z.shiftl 1 bit)) =? 0).

(** The watch of an unknown bit, too, is the reference. *)
Lemma watch_sound bit caches cache n :
  cachesSound chainParams index caches ->
  cacheOK (bitConditionChecker chainParams index bit) (votesUnknown bit) (indexed index) cache ->
  indexed index n -> node_height n + 1 < 2^31 ->
  exists caches' cache',
    thresholdState (bitConditionChecker chainParams index bit) caches cache (Some n)
    = (caches', cache', Ok (bip9State (bitConditionChecker chainParams index bit) (votesUnknown bit) n)) /\
    cachesSound chainParams index caches' /\
    cacheOK (bitConditionChecker chainParams index bit) (votesUnknown bit) (indexed index) cache'.
Proof using no_zero sane window_range.
  intros Hcs Hc Hn Hmax. 
  apply (thresholdState_spec (bitConditionChecker chainParams index bit) (votesUnknown bit) (indexed index)
           (cachesSound chainParams index)); try done.
  - by intros m [].
  - intros m x Hm Hx. by eapply indexed_branch.
  - apply indexed_hash.
  - intros st m Hst Hm. cbn [Condition bitConditionChecker]. unfold votesUnknown, votesFor.
    destruct (Z.land (u32 (node_version m)) vbTopMask =? vbTopBits); cbn [negb andb]; [|by exists st].
    destruct (Z.land (u32 (node_version m)) (u32 (Z.shiftl 1 bit)) =? 0); cbn [negb andb]; [by exists st|].
    destruct (calcNextBlockVersion_sound st (nodeParent m) Hst) as (st' & -> & Hst'); [|by exists st'].
    destruct (nodeParent m) as [p|] eqn:Ep; [|done]. cbn [prevOK].
    assert (Hp : indexed index p) by (apply (indexed_branch index m); [done|]; rewrite branch_unfold, Ep; right; rewrite branch_unfold; left).
    split; [done|]. destruct Hm as [Hwm _]. pose proof (wf_node_height m Hwm).
    destruct Hwm as [|q dd _ E _]; [done|]. injection Ep as ->. unfold node_height in *; cbn [nodeInfo] in *; lia.
Qed.
End chain_proofs.

(** ** What the states mean *)

Section meaning.
Context {S : Type} (checker : thresholdConditionChecker S) (votes : blockNode -> bool).
#[local] Abbreviation w := (windowSize checker).
Hypothesis window_range : 0 < w.

(** [m] ends a window of its branch. *)
Definition endsWindow (m : blockNode) : Prop := (node_height m + 1) mod w = 0.

Lemma window_before n k :
  wf_node n -> node_height n + 1 = Z.of_nat (Datatypes.S k) * w ->
  match branch n !! Z.to_nat w with
  | Some m => wf_node m /\ m ∈ branch n /\ node_height m + 1 = Z.of_nat k * w /\ branch m = drop (Z.to_nat w) (branch n)
  | None => k = 0%nat
  end.
Proof using window_range.
  intros Hn Hk. pose proof (length_branch n Hn). destruct (branch n !! Z.to_nat w) as [m|] eqn:E.
  - destruct (branch_lookup n _ m Hn E) as (Hm & Hh & Hd). split_and!; [done|by eapply list_elem_of_lookup_2|nia|done].
  - apply lookup_ge_None in E. nia.
Qed.

(** A rule is locked in, or active, only after a window with enough votes. *)
Lemma locked_in_voted k n :
  wf_node n -> node_height n + 1 = Z.of_nat k * w ->
  windowState checker votes k n ∈ [ThresholdLockedIn; ThresholdActive] ->
  exists m, m ∈ branch n /\ endsWindow m /\ ck_RuleChangeActivationThreshold checker <= voteCount checker votes m.
Proof using window_range.
  revert n. induction k as [|k IH]; intros n Hn Hk; [by rewrite !elem_of_cons, elem_of_nil; intros [|[|]]|].
  rewrite windowState_S. pose proof (window_before n k Hn Hk) as Hprev.
  assert (Hself : n ∈ branch n) by (rewrite branch_unfold; left).
  assert (Hend : endsWindow n) by (unfold endsWindow; rewrite Hk; apply Z.mod_mul; lia).
  assert (Hup : forall m, branch n !! Z.to_nat w = Some m ->
    windowState checker votes k m ∈ [ThresholdLockedIn; ThresholdActive] -> exists m, m ∈ branch n /\ endsWindow m /\
    ck_RuleChangeActivationThreshold checker <= voteCount checker votes m).
  { intros m E Hs. rewrite E in Hprev. destruct Hprev as (Hm & _ & Hh & Hd).
    destruct (IH m Hm Hh Hs) as (x & Hx & He & Hv). exists x. split; [|done]. rewrite Hd in Hx.
    apply list_elem_of_lookup in Hx as [i Hi]. rewrite lookup_drop in Hi. by eapply list_elem_of_lookup_2. }
  destruct (branch n !! Z.to_nat w) as [m|] eqn:E.
  - destruct (windowState checker votes k m) eqn:Es; cbn [nextState].
    + repeat case_match; by rewrite !elem_of_cons, elem_of_nil; intros [|[|]].
    + destruct (_ && _); [by rewrite !elem_of_cons, elem_of_nil; intros [|[|]]|].
      destruct (Z.leb_spec (ck_RuleChangeActivationThreshold checker) (voteCount checker votes n)); [by exists n|].
      destruct (_ && _); by rewrite !elem_of_cons, elem_of_nil; intros [|[|]].
    + intros _. apply (Hup m); [done|]. rewrite Es. left.
    + intros _. apply (Hup m); [done|]. rewrite Es. right; left.
    + by rewrite !elem_of_cons, elem_of_nil; intros [|[|]].
  - cbn [nextState]. repeat case_match; by rewrite !elem_of_cons, elem_of_nil; intros [|[|]].
Qed.

(** The two final states are final along a branch. *)
Lemma final_stays s k j n m :
  s ∈ [ThresholdActive; ThresholdFailed] -> wf_node n -> m ∈ branch n ->
  node_height m + 1 = Z.of_nat k * w -> node_height n + 1 = Z.of_nat j * w ->
  windowState checker votes k m = s -> windowState checker votes j n = s.
Proof using window_range.
  intros Hs. revert n. induction j as [|j IH]; intros n Hn Hm Hk Hj Hw.
  { apply list_elem_of_lookup in Hm as [i Hi]. destruct (branch_lookup n i m Hn Hi) as (Hwm & Hh & _).
    pose proof (wf_node_height m Hwm). pose proof (wf_node_height n Hn). lia. }
  apply list_elem_of_lookup in Hm as [i Hi]. destruct (branch_lookup n i m Hn Hi) as (Hwm & Hh & _).
  pose proof (window_before n j Hn Hj) as Hprev. pose proof (wf_node_height m Hwm).
  destruct (decide (i = 0%nat)) as [->|Hi0].
  { rewrite branch_unfold in Hi. injection Hi as <-. assert (k = Datatypes.S j) as -> by nia. done. }
  assert (Hij : Z.of_nat i = (Z.of_nat (Datatypes.S j) - Z.of_nat k) * w) by lia.
  assert (Z.of_nat k < Z.of_nat (Datatypes.S j)) by nia. assert (Z.to_nat w <= i)%nat by nia.
  rewrite windowState_S. destruct (branch n !! Z.to_nat w) as [p|] eqn:Ep.
  - destruct Hprev as (Hp & _ & Hhp & Hd). rewrite (IH p Hp); [|..|done|done|done].
    + rewrite !elem_of_cons, elem_of_nil in Hs. by destruct Hs as [->|[->|[]]].
    + rewrite Hd. apply list_elem_of_lookup_2 with (i := (i - Z.to_nat w)%nat). rewrite lookup_drop, <- Hi. f_equal. lia.
  - apply lookup_ge_None in Ep. apply lookup_lt_Some in Hi. lia.
Qed.

Lemma bip9State_window n :
  wf_node n -> node_height n + 1 < w /\ bip9State checker votes n = ThresholdDefined \/
  exists m k, m ∈ branch n /\ wf_node m /\ (0 < k)%nat /\ node_height m + 1 = Z.of_nat k * w /\
    node_height n - node_height m < w /\ bip9State checker votes n = windowState checker votes k m.
Proof using window_range.
  intros Hn. pose proof (wf_node_height n Hn). pose proof (length_branch n Hn). unfold bip9State.
  pose proof (Z.mod_pos_bound (node_height n + 1) w ltac:(lia)). pose proof (Z.div_mod (node_height n + 1) w ltac:(lia)).
  set (q := (node_height n + 1) / w) in *. destruct (Z.ltb_spec (node_height n + 1) w).
  { left. split; [done|]. assert (q = 0) as -> by (apply Z.div_small; lia). done. }
  right. assert (1 <= q) by (apply Z.div_le_lower_bound; lia). unfold atHeight.
  rewrite (proj2 (Z.ltb_ge _ _)), (proj2 (Z.ltb_ge _ _)) by nia. cbn [orb].
  destruct (branch n !! Z.to_nat (node_height n - (q * w - 1))) as [m|] eqn:Em; [|apply lookup_ge_None in Em; nia].
  destruct (branch_lookup n _ m Hn Em) as (Hm & Hhm & _). exists m, (Z.to_nat q).
  split_and!; [by eapply list_elem_of_lookup_2|done|nia|nia|nia|done].
Qed.
End meaning.

(** ** Adding blocks *)

Lemma windowState_ext {S} (ck ck' : thresholdConditionChecker S) votes (P : blockNode -> Prop) k n :
  windowSize ck = windowSize ck' -> IsSpeedy ck = IsSpeedy ck' ->
  ck_RuleChangeActivationThreshold ck = ck_RuleChangeActivationThreshold ck' ->
  (forall m, P m -> HasStarted ck m = HasStarted ck' m /\ HasEnded ck m = HasEnded ck' m /\
                    EligibleToActivate ck m = EligibleToActivate ck' m) ->
  (forall m x, P m -> x ∈ branch m -> P x) -> P n ->
  windowState ck votes k n = windowState ck' votes k n.
Proof.
  intros Hw Hs Ht HP Hcl. revert n. induction k as [|k IH]; intros n Hn; [done|]. rewrite !windowState_S, Hw.
  assert (Hvc : voteCount ck votes n = voteCount ck' votes n) by (unfold voteCount; by rewrite Hw).
  destruct (HP n Hn) as (H1 & H2 & H3).
  assert (Hns : forall s, nextState ck votes s n = nextState ck' votes s n).
  { intros s. unfold nextState. by rewrite Hs, H1, H2, H3, Ht, Hvc. }
  rewrite Hns. f_equal. destruct (branch n !! _) as [m|] eqn:E; [|done]. apply IH, (Hcl n); [done|].
  by eapply list_elem_of_lookup_2.
Qed.

Lemma indexed_extend index index' n :
  (forall h n, LookupNode index h = Some n -> LookupNode index' h = Some n) -> indexed index n -> indexed index' n.
Proof.
  intros Hsub (H1 & H2 & H3). split_and!; [done|done|]. eapply Forall_impl; [exact H3|]. intros m. apply Hsub.
Qed.

(** Adding blocks to the index changes no state of the blocks it has. *)
Lemma windowState_extend chainParams index index' d k n :
  LookupNode index zeroHash = None -> LookupNode index' zeroHash = None ->
  (forall h n, LookupNode index h = Some n -> LookupNode index' h = Some n) -> indexed index n ->
  windowState (deploymentChecker chainParams index d) (votesFor (BitNumber d)) k n
  = windowState (deploymentChecker chainParams index' d) (votesFor (BitNumber d)) k n.
Proof.
  intros Hz Hz' Hsub Hn.
  apply (windowState_ext _ _ _ (indexed index)); [done|done|done| |intros m x; apply indexed_branch|done].
  intros m Hm. pose proof (indexed_extend index index' m Hsub Hm) as Hm'.
  by rewrite (started_node chainParams index d Hz m Hm), (started_node chainParams index' d Hz' m Hm'),
    (ended_node chainParams index d Hz m Hm), (ended_node chainParams index' d Hz' m Hm').
Qed.

(** The caches stay sound while blocks are added to the index. *)
Lemma cachesSound_extend chainParams index index' caches :
  LookupNode index zeroHash = None -> LookupNode index' zeroHash = None ->
  (forall h n, LookupNode index h = Some n -> LookupNode index' h = Some n) ->
  cachesSound chainParams index caches -> cachesSound chainParams index' caches.
Proof.
  intros Hz Hz' Hsub Hc. pose proof (fun n => indexed_extend index index' n Hsub) as Hidx.
  eapply Forall2_impl; [exact Hc|]. intros d c Hdc h s Hs. destruct (Hdc h s Hs) as (n & k & Hn & Hh & Hk & ->).
  exists n, k. split_and!; [by apply Hidx|done|done|]. by apply windowState_extend.
Qed.

(** And so does the reference. *)
Lemma deploymentSpec_extend chainParams index index' d n :
  0 < MinerConfirmationWindow chainParams -> LookupNode index zeroHash = None -> LookupNode index' zeroHash = None ->
  (forall h n, LookupNode index h = Some n -> LookupNode index' h = Some n) -> indexed index n ->
  deploymentSpec chainParams index d (Some n) = deploymentSpec chainParams index' d (Some n).
Proof.
  intros Hw Hz Hz' Hsub Hn. unfold deploymentSpec.
  change (ForceActive (deploymentChecker chainParams index' d) (Some n))
    with (ForceActive (deploymentChecker chainParams index d) (Some n)). destruct (ForceActive _ _); [done|].
  unfold bip9State. change (windowSize (deploymentChecker chainParams index' d)) with (windowSize (deploymentChecker chainParams index d)).
  destruct (atHeight n _) as [m|] eqn:Em; [|done]. unfold atHeight in Em. destruct (_ || _); [done|].
  apply windowState_extend; try done. apply (indexed_branch index n); [done|]. by eapply list_elem_of_lookup_2.
Qed.

(** When the reference says active, the votes are there, and it says so of every
    descendant. *)
Lemma active_voted_and_final chainParams index d n :
  0 < MinerConfirmationWindow chainParams -> wf_node n ->
  deploymentSpec chainParams index d (Some n) = ThresholdActive ->
  (EffectiveAlwaysActiveHeight d <= node_height n + 1 \/
   exists m, m ∈ branch n /\ (node_height m + 1) mod MinerConfirmationWindow chainParams = 0 /\
     ck_RuleChangeActivationThreshold (deploymentChecker chainParams index d)
     <= zlen (List.filter (votesFor (BitNumber d)) (take (Z.to_nat (MinerConfirmationWindow chainParams)) (branch m)))) /\
  forall n', wf_node n' -> n ∈ branch n' -> deploymentSpec chainParams index d (Some n') = ThresholdActive.
Proof.
  intros Hw Hn Ha. set (ck := deploymentChecker chainParams index d) in *. pose proof (wf_node_height n Hn) as Hh.
  change (0 < windowSize ck) in Hw.
  assert (Hforce : forall m, wf_node m -> ForceActive ck (Some m) = (EffectiveAlwaysActiveHeight d <=? node_height m + 1)).
  { intros m Hm. pose proof (wf_node_height m Hm). cbn [ck ForceActive deploymentChecker].
    by rewrite (u32_id (node_height m)), u32_id by (widths; lia). }
  assert (Hup : forall n', wf_node n' -> n ∈ branch n' -> node_height n <= node_height n').
  { intros n' Hn' Hin. apply list_elem_of_lookup in Hin as [i Hi]. destruct (branch_lookup n' i n Hn' Hi) as (_ & -> & _). lia. }
  unfold deploymentSpec in *. fold ck in Ha |- *. rewrite Hforce in Ha by done.
  destruct (Z.leb_spec (EffectiveAlwaysActiveHeight d) (node_height n + 1)) as [Hle|Hgt].
  { split; [by left|]. intros n' Hn' Hin. rewrite Hforce by done. pose proof (Hup n' Hn' Hin).
    by rewrite (proj2 (Z.leb_le _ _)) by lia. }
  destruct (bip9State_window ck (votesFor (BitNumber d)) Hw n Hn) as [[_ E]|(m & k & Hm & Hwm & Hk & Hkw & _ & E)]; [congruence|].
  rewrite E in Ha. split.
  - right. destruct (locked_in_voted ck (votesFor (BitNumber d)) Hw k m Hwm Hkw) as (x & Hx & He & Hv); [rewrite Ha; right; left|].
    exists x. split; [|done]. destruct (branch_trans n m Hn Hm) as (i & _ & Hd). rewrite Hd in Hx.
    apply list_elem_of_lookup in Hx as [j Hj]. rewrite lookup_drop in Hj. by eapply list_elem_of_lookup_2.
  - intros n' Hn' Hin. rewrite Hforce by done. destruct (_ <=? _); [done|].
    assert (Hmn : m ∈ branch n').
    { destruct (branch_trans n' n Hn' Hin) as (i & _ & Hd). rewrite Hd in Hm.
      apply list_elem_of_lookup in Hm as [j Hj]. rewrite lookup_drop in Hj. by eapply list_elem_of_lookup_2. }
    assert (node_height m <= node_height n') by
      (apply list_elem_of_lookup in Hmn as [i Hi]; destruct (branch_lookup n' i m Hn' Hi) as (_ & -> & _); lia).
    destruct (bip9State_window ck (votesFor (BitNumber d)) Hw n' Hn') as [[Hlt _]|(m' & k' & Hm' & Hwm' & Hk' & Hkw' & Hd' & ->)]; [nia|].
    destruct (branch_trans n' m Hn' Hmn) as (i & Hi & _), (branch_trans n' m' Hn' Hm') as (i' & Hi' & Hb').
    destruct (branch_lookup n' i m Hn' Hi) as (_ & Hhm & _), (branch_lookup n' i' m' Hn' Hi') as (_ & Hhm' & _).
    apply (final_stays ck (votesFor (BitNumber d)) Hw ThresholdActive k k' m' m); [left|done| |done|done|done].
    rewrite Hb'. apply list_elem_of_lookup_2 with (i := (i - i')%nat). rewrite lookup_drop, <- Hi. f_equal.
    assert (Hij : Z.of_nat i - Z.of_nat i' = (Z.of_nat k' - Z.of_nat k) * windowSize ck) by lia.
    assert (Z.of_nat k <= Z.of_nat k') by nia. assert (i' <= i)%nat by nia. lia.
Qed.

(** ** Properties *)

(** C15: the cached state of a deployment is the BIP 9 reference. Whatever sound
    caches the chain holds, [deploymentState] answers for every known deployment
    and every node of the index what the table of BIP 9 gives window by window
    along the parents of the node (or active, from the height at which the
    deployment is forced), and it leaves sound caches, which stay sound when
    blocks are added to the index. *)
Theorem deployment_state_is_bip9 chainParams index index' caches prevNode id d :
  0 < MinerConfirmationWindow chainParams < 2^31 -> Forall saneTimes (Deployments chainParams) ->
  LookupNode index zeroHash = None -> cachesSound chainParams index caches -> prevOK index prevNode ->
  0 <= id -> Deployments chainParams !! Z.to_nat id = Some d ->
  LookupNode index' zeroHash = None -> (forall h n, LookupNode index h = Some n -> LookupNode index' h = Some n) ->
  exists caches', deploymentState chainParams index caches prevNode id
                  = (caches', Ok (deploymentSpec chainParams index d prevNode)) /\
                  cachesSound chainParams index caches' /\ cachesSound chainParams index' caches'.
Proof.
  intros Hw Hs Hz Hc Hp H0 Hd Hz' Hsub.
  destruct (deploymentState_sound chainParams index Hw Hz Hs caches prevNode id d Hc Hp H0 Hd) as (c' & -> & Hc').
  exists c'. split_and!; [done|done|exact (cachesSound_extend chainParams index index' c' Hz Hz' Hsub Hc')].
Qed.

(** C24: a soft fork needs its votes and is irreversible. Let the caches be sound,
    as the empty caches of a new chain are and every query leaves them, and let no
    deployment end before it starts. When [deploymentState] answers that a
    deployment is active for the block after a node, then either the deployment is
    forced from that height on, or one window of the node's branch has as many
    voting blocks as the deployment, or else the network, asks for. And it answers
    active after every descendant of the node, with whatever sound caches and
    whatever blocks the index has got in between. *)
Theorem activation_voted_and_final chainParams index caches n id d caches' :
  0 < MinerConfirmationWindow chainParams < 2^31 -> Forall saneTimes (Deployments chainParams) ->
  LookupNode index zeroHash = None -> cachesSound chainParams index caches -> prevOK index (Some n) ->
  0 <= id -> Deployments chainParams !! Z.to_nat id = Some d ->
  deploymentState chainParams index caches (Some n) id = (caches', Ok ThresholdActive) ->
  (EffectiveAlwaysActiveHeight d <= node_height n + 1 \/
   exists m, m ∈ branch n /\ (node_height m + 1) mod MinerConfirmationWindow chainParams = 0 /\
     (if CustomActivationThreshold d =? 0 then RuleChangeActivationThreshold chainParams else CustomActivationThreshold d)
     <= zlen (List.filter (votesFor (BitNumber d)) (take (Z.to_nat (MinerConfirmationWindow chainParams)) (branch m)))) /\
  forall index' caches1 n',
    LookupNode index' zeroHash = None -> (forall h m, LookupNode index h = Some m -> LookupNode index' h = Some m) ->
    cachesSound chainParams index' caches1 -> prevOK index' (Some n') -> n ∈ branch n' ->
    exists caches2, deploymentState chainParams index' caches1 (Some n') id = (caches2, Ok ThresholdActive).
Proof.
  intros Hw Hs Hz Hc Hp H0 Hd Ha.
  destruct (deploymentState_sound chainParams index Hw Hz Hs caches (Some n) id d Hc Hp H0 Hd) as (c1 & E & _).
  assert (Hspec : deploymentSpec chainParams index d (Some n) = ThresholdActive) by congruence.
  destruct Hp as [Hn Hmax]. pose proof Hn as (Hwf & _ & _). split.
  - destruct (active_voted_and_final chainParams index d n (proj1 Hw) Hwf Hspec) as [[H|(m & Hm & He & Hv)] _]; [by left|].
    right. exists m. split; [done|]. split; [done|]. cbn [ck_RuleChangeActivationThreshold deploymentChecker] in Hv.
    by destruct (CustomActivationThreshold d =? 0).
  - intros index' caches1 n' Hz' Hsub Hc1 Hp' Hin. pose proof Hp' as [(Hwf' & _ & _) _].
    rewrite (deploymentSpec_extend chainParams index index' d n (proj1 Hw) Hz Hz' Hsub Hn) in Hspec.
    destruct (active_voted_and_final chainParams index' d n (proj1 Hw) Hwf Hspec) as [_ Hup].
    destruct (deploymentState_sound chainParams index' Hw Hz' Hs caches1 (Some n') id d Hc1 Hp' H0 Hd) as (c2 & E2 & _).
    rewrite (Hup n' Hwf' Hin) in E2. by exists c2.
Qed.

(** The two deployments of the OBTC networks nobody forces have ended when they
    start, so they are never voted on. *)
Lemma obtc_dummies_never_open chainParams index d n :
  DeploymentStarter d = Some 0 -> DeploymentEnder d = Some 0 -> MinActivationHeight d = 0 ->
  CustomActivationThreshold d = 0 ->
  deploymentSpec chainParams index d (Some n) ∈ [ThresholdDefined; ThresholdActive; ThresholdFailed].
Proof.
  intros Hs He Hm Hc. unfold deploymentSpec. destruct (ForceActive _ _); [right; left|].
  unfold bip9State. destruct (atHeight _ _) as [m|]; [|left]. generalize (Z.to_nat ((node_height n + 1) / windowSize (deploymentChecker chainParams index d))) as k.
  intros k.
  assert (windowState (deploymentChecker chainParams index d) (votesFor (BitNumber d)) k m ∈ [ThresholdDefined; ThresholdFailed]) as H.
  { revert m. induction k as [|k IH]; intros m; [left|]. rewrite windowState_S.
    assert (Hn : forall s, s ∈ [ThresholdDefined; ThresholdFailed] ->
      nextState (deploymentChecker chainParams index d) (votesFor (BitNumber d)) s m ∈ [ThresholdDefined; ThresholdFailed]).
    { intros s. rewrite !elem_of_cons, elem_of_nil. intros [->|[->|[]]]; [|auto]. cbn [nextState IsSpeedy HasEnded HasStarted deploymentChecker].
      rewrite Hm, Hc, Hs, He. cbn [timeEnded timeStarted]. destruct (PastMedianTime _ _) as [t|]; [|auto]. destruct (0 <=? t); auto. }
    apply Hn. destruct (branch m !! _); [apply IH|left]. }
  rewrite !elem_of_cons, elem_of_nil in *. naive_solver.
Qed.

(** The networks of the fork. *)
Definition forkNets : list Params := [ObtcMainNetParams; ObtcTestNetParams; ObtcRegTestParams].

Lemma forkNets_deployments chainParams : chainParams ∈ forkNets -> Deployments chainParams = obtcDeployments.
Proof. unfold forkNets. rewrite !elem_of_cons, elem_of_nil. by intros [->|[->|[->|[]]]]. Qed.

Lemma obtc_forceActive chainParams index d n :
  wf_node n -> AlwaysActiveHeight d = 1 -> ForceActive (deploymentChecker chainParams index d) (Some n) = true.
Proof.
  intros Hn Hd. pose proof (wf_node_height n Hn) as Hh. cbn [ForceActive deploymentChecker]. unfold EffectiveAlwaysActiveHeight.
  rewrite Hd. cbn [Z.eqb]. rewrite (u32_id (node_height n)), u32_id by (widths; lia). apply Z.leb_le. lia.
Qed.

Lemma obtc_deployment_active chainParams index caches n id :
  chainParams ∈ forkNets -> length caches = length (Deployments chainParams) -> wf_node n ->
  id ∈ [DeploymentCSV; DeploymentSegwit; DeploymentTaproot] ->
  deploymentState chainParams index caches (Some n) id = (caches, Ok ThresholdActive).
Proof.
  intros Hnet Hlen Hn Hid. pose proof (forkNets_deployments chainParams Hnet) as Hds. rewrite Hds in Hlen.
  assert (exists d, obtcDeployments !! Z.to_nat id = Some d /\ AlwaysActiveHeight d = 1 /\ id <= 6) as (d & Hd & Ha & Hid6).
  { rewrite !elem_of_cons, elem_of_nil in Hid. destruct Hid as [->|[->|[->|[]]]]; eexists; split_and!; done. }
  assert (exists c, caches !! Z.to_nat id = Some c) as [c Hc].
  { apply lookup_lt_is_Some_2. rewrite Hlen. by eapply lookup_lt_Some. }
  unfold deploymentState. rewrite Hds, Hd, Hc. change (zlen obtcDeployments) with 6.
  rewrite (proj2 (Z.ltb_ge _ _)) by lia. unfold thresholdState. rewrite obtc_forceActive by done. f_equal. by apply list_insert_id.
Qed.

(** No deployment of the networks is open to a vote, so no bit is expected. *)
Lemma obtc_expected_version chainParams index n :
  chainParams ∈ forkNets -> wf_node n ->
  expectedVersionFrom chainParams index (Some n) (Deployments chainParams) vbTopBits = 0x20000000.
Proof.
  intros Hnet Hn.
  rewrite (forkNets_deployments chainParams Hnet). unfold expectedVersionFrom, obtcDeployments. cbn [foldl].
  assert (Hno : forall d, deploymentSpec chainParams index d (Some n) ∈ [ThresholdDefined; ThresholdActive; ThresholdFailed] ->
    bool_decide (deploymentSpec chainParams index d (Some n) ∈ [ThresholdStarted; ThresholdLockedIn]) = false).
  { intros d. rewrite !elem_of_cons, elem_of_nil. intros [->|[->|[->|[]]]]; reflexivity. }
  assert (Hyes : forall d, AlwaysActiveHeight d = 1 -> deploymentSpec chainParams index d (Some n) = ThresholdActive).
  { intros d Hd. unfold deploymentSpec. by rewrite obtc_forceActive. }
  rewrite !Hno; [done|..]; try (rewrite Hyes by done; right; left); by apply obtc_dummies_never_open.
Qed.

(** C25: on the three OBTC networks the rules of CSV, segwit and taproot hold for
    every block after the genesis block, without a vote, and no deployment is open
    to a vote. [deploymentState] answers active for the three deployments, whatever
    the caches and the index hold; and with sound caches, for a node of the index,
    [calcNextBlockVersion] gives the plain version-bits pattern, no bit set. *)
Theorem obtc_rules_always_active chainParams index caches n :
  chainParams ∈ forkNets -> length caches = length (Deployments chainParams) -> wf_node n ->
  (forall id, id ∈ [DeploymentCSV; DeploymentSegwit; DeploymentTaproot] ->
     deploymentState chainParams index caches (Some n) id = (caches, Ok ThresholdActive)) /\
  (LookupNode index zeroHash = None -> cachesSound chainParams index caches -> prevOK index (Some n) ->
   exists caches', calcNextBlockVersion chainParams index caches (Some n) = (caches', Ok 0x20000000)).
Proof.
  intros Hnet Hlen Hn. split; [intros id Hid; by apply obtc_deployment_active|]. intros Hz Hc Hp.
  assert (Hw : 0 < MinerConfirmationWindow chainParams < 2^31 /\ Forall saneTimes (Deployments chainParams)).
  { rewrite (forkNets_deployments chainParams Hnet). split; [|by repeat constructor].
    unfold forkNets in Hnet. rewrite !elem_of_cons, elem_of_nil in Hnet. by destruct Hnet as [->|[->|[->|[]]]]. }
  destruct (calcNextBlockVersion_sound chainParams index (proj1 Hw) Hz (proj2 Hw) caches (Some n) Hc Hp) as (caches' & -> & _).
  exists caches'. by rewrite obtc_expected_version.
Qed.

(** The guard of [deploymentState] is one too generous: the first unknown
    deployment is an index out of range, not a deployment error. *)
Lemma unknown_deployment_panics chainParams index caches prevNode :
  deploymentState chainParams index caches prevNode (zlen (Deployments chainParams))
  = (caches, Err (ThresholdPanic "index out of range")).
Proof.
  unfold deploymentState. rewrite Z.ltb_irrefl. unfold zlen. rewrite Nat2Z.id.
  by rewrite (proj2 (lookup_ge_None _ _)) by lia.
Qed.

(** ** Witnesses *)

(** A network with windows of two blocks, both of which must vote for the one
    deployment, and a chain of voting blocks. *)
Definition votingDeployment : ConsensusDeployment := mkDeployment 0 0 0 0 None None.
Definition votingParams : Params :=
  let p := ObtcRegTestParams in
  Build_Params (Name p) (Net p) (PowLimit p) (PowLimitBits p) (PoWNoRetargeting p) (EnforceBIP94 p) (BIP0034Height p)
    (BIP0065Height p) (BIP0066Height p) (CoinbaseMaturity p) (SubsidyReductionInterval p) (TargetTimespan p)
    (TargetTimePerBlock p) (RetargetAdjustmentFactor p) (ReduceMinDifficulty p) (MinDiffReductionTime p)
    (ForkDAAStartHeight p) (ForkDAABootstrapEndHeight p) (ForkDAAForkResetBits p) (ForkDAABootstrapHalfLife p)
    (ForkDAANormalHalfLife p) 2 2 (GenesisHash p) (Checkpoints p) [votingDeployment] (Space p).

Fixpoint votingNode (k : nat) : blockNode :=
  let parent := match k with O => None | S k' => Some (votingNode k') end in
  Node parent (match k with O => None | S _ => buildAncestor parent (Z.of_nat k) end)
    (mkNodeData (Z.of_nat k :: repeat 1 31) 0 (Z.of_nat k) 0x20000001 0x1d00ffff 0 (1700000000 + 600 * Z.of_nat k) zeroHash).

Definition votingIndex (k : nat) : blockIndex :=
  mkBlockIndex (list_to_map (map (fun i => (node_hash (votingNode i), votingNode i)) (seq 0 k))) ∅ ∅.

Lemma votingNode_wf k : (k < 100)%nat -> wf_node (votingNode k) /\ node_height (votingNode k) = Z.of_nat k.
Proof.
  induction k as [|k IH]; intros Hk; (split; [|reflexivity]); [by apply wf_genesis|].
  destruct IH as [Hw Hh]; [lia|].
  exact (wf_child (votingNode k) (mkNodeData _ 0 (Z.of_nat (S k)) _ _ _ _ _) Hw ltac:(cbn [nd_height]; lia) ltac:(cbn [nd_height]; lia)).
Qed.

Lemma votingNode_branch k : branch (votingNode k) = map votingNode (rev (seq 0 (S k))).
Proof.
  induction k as [|k IH]; [done|]. rewrite seq_S, rev_app_distr. cbn [rev app map]. rewrite <- IH.
  rewrite branch_unfold. done.
Qed.

Lemma votingNode_times : forallb (fun i =>
  match nodeParent (votingNode i) with Some p => CalcPastMedianTime p <? node_timestamp (votingNode i) | None => true end)
  (seq 0 6) = true.
Proof. vm_compute. reflexivity. Qed.

Lemma votingNode_hashes : bool_decide (NoDup (map (fun i => node_hash (votingNode i)) (seq 0 7))) = true.
Proof. vm_compute. reflexivity. Qed.

Lemma votingIndex_lookup k h n : (k <= 7)%nat ->
  LookupNode (votingIndex k) h = Some n <-> exists i, (i < k)%nat /\ h = node_hash (votingNode i) /\ n = votingNode i.
Proof.
  intros Hk. unfold LookupNode, votingIndex. cbn [bi_index]. rewrite <- elem_of_list_to_map.
  - rewrite list_elem_of_fmap. split.
    + intros (i & [= -> ->] & Hi%elem_of_seq). exists i. split; [lia|done].
    + intros (i & Hi & -> & ->). exists i. split; [done|apply elem_of_seq; lia].
  - rewrite <- list_fmap_compose. pose proof (bool_decide_eq_true_1 _ votingNode_hashes) as H.
    replace (seq 0 7) with (seq 0 k ++ seq k (7 - k)) in H by (rewrite <- seq_app; f_equal; lia).
    rewrite fmap_app in H. by apply NoDup_app in H as [H _].
Qed.

Lemma votingNode_indexed k i : (i < 6)%nat -> (i < k)%nat -> (k <= 7)%nat -> indexed (votingIndex k) (votingNode i).
Proof.
  intros Hi Hik Hk. split; [by apply votingNode_wf; lia|]. unfold times_ok. rewrite votingNode_branch.
  split; apply Forall_fmap, Forall_forall; intros j Hj%list_elem_of_In%in_rev%in_seq; lazy beta delta [compose].
  - pose proof votingNode_times as H. rewrite forallb_forall in H. specialize (H j ltac:(apply in_seq; lia)).
    destruct (nodeParent (votingNode j)); [by apply Z.ltb_lt|done].
  - apply votingIndex_lookup; [done|]. exists j. split; [lia|done].
Qed.

Lemma votingIndex_zero k : (k <= 7)%nat -> LookupNode (votingIndex k) zeroHash = None.
Proof.
  intros Hk. destruct (LookupNode _ _) as [n|] eqn:E; [|done]. apply votingIndex_lookup in E as (i & Hi & E & _); [|done].
  assert (forallb (fun i => negb (bool_decide (zeroHash = node_hash (votingNode i)))) (seq 0 7) = true) as H by (vm_compute; reflexivity).
  rewrite forallb_forall in H. specialize (H i ltac:(apply in_seq; lia)). by rewrite bool_decide_eq_true_2 in H.
Qed.

Lemma deployment_state_is_bip9_witness :
  exists caches', deploymentState votingParams (votingIndex 6) [∅] (Some (votingNode 5)) 0
    = (caches', Ok (deploymentSpec votingParams (votingIndex 6) votingDeployment (Some (votingNode 5)))) /\
    cachesSound votingParams (votingIndex 6) caches' /\ cachesSound votingParams (votingIndex 7) caches'.
Proof.
  apply deployment_state_is_bip9.
  - split; reflexivity.
  - repeat constructor.
  - apply votingIndex_zero; lia.
  - constructor; [apply cacheOK_empty|constructor].
  - split; [apply votingNode_indexed; lia|]. destruct (votingNode_wf 5) as [_ ->]; [lia|reflexivity].
  - lia.
  - reflexivity.
  - apply votingIndex_zero; lia.
  - intros h n H. apply votingIndex_lookup in H as (i & Hi & H); [|lia]. apply votingIndex_lookup; [lia|]. exists i. split; [lia|exact H].
Defined.

Lemma votingIndex_extend h n : LookupNode (votingIndex 6) h = Some n -> LookupNode (votingIndex 7) h = Some n.
Proof.
  intros H. apply votingIndex_lookup in H as (i & Hi & H); [|lia]. apply votingIndex_lookup; [lia|]. exists i. split; [lia|exact H].
Qed.

Lemma votingNode_prevOK k i : (i < 6)%nat -> (i < k)%nat -> (k <= 7)%nat -> prevOK (votingIndex k) (Some (votingNode i)).
Proof.
  intros Hi Hik Hk. split; [by apply votingNode_indexed|]. destruct (votingNode_wf i) as [_ ->]; lia.
Qed.

(** The votes of heights 2 and 3 lock the rule in, and it is active from the
    block after height 5 on. *)
Lemma activation_voted_and_final_witness :
  exists caches', deploymentState votingParams (votingIndex 6) [∅] (Some (votingNode 5)) 0 = (caches', Ok ThresholdActive) /\
  (exists m, m ∈ branch (votingNode 5) /\ (node_height m + 1) mod 2 = 0 /\
     2 <= zlen (List.filter (votesFor 0) (take 2 (branch m)))) /\
  exists caches2, deploymentState votingParams (votingIndex 7) [∅] (Some (votingNode 5)) 0 = (caches2, Ok ThresholdActive).
Proof.
  assert (H : (deploymentState votingParams (votingIndex 6) [∅] (Some (votingNode 5)) 0).2 = Ok ThresholdActive) by (vm_compute; reflexivity).
  destruct (deploymentState votingParams (votingIndex 6) [∅] (Some (votingNode 5)) 0) as [caches' r] eqn:E. cbn [snd] in H. subst r.
  destruct (activation_voted_and_final votingParams (votingIndex 6) [∅] (votingNode 5) 0 votingDeployment caches') as [[H|H] Hup].
  - split; reflexivity.
  - repeat constructor.
  - apply votingIndex_zero; lia.
  - constructor; [apply cacheOK_empty|constructor].
  - apply votingNode_prevOK; lia.
  - lia.
  - reflexivity.
  - exact E.
  - exfalso. revert H. vm_compute. intros H. exact (H eq_refl).
  - exists caches'. split; [reflexivity|]. split; [exact H|]. apply Hup.
    + apply votingIndex_zero; lia.
    + apply votingIndex_extend.
    + constructor; [apply cacheOK_empty|constructor].
    + apply votingNode_prevOK; lia.
    + rewrite branch_unfold. left.
Defined.

Lemma obtc_rules_always_active_witness :
  deploymentState ObtcMainNetParams (votingIndex 6) (newThresholdCaches 6) (Some (votingNode 5)) DeploymentTaproot
  = (newThresholdCaches 6, Ok ThresholdActive) /\
  exists caches', calcNextBlockVersion ObtcMainNetParams (votingIndex 6) (newThresholdCaches 6) (Some (votingNode 5))
                  = (caches', Ok 0x20000000).
Proof.
  destruct (obtc_rules_always_active ObtcMainNetParams (votingIndex 6) (newThresholdCaches 6) (votingNode 5)) as [H1 H2].
  - left.
  - reflexivity.
  - apply votingNode_wf. lia.
  - split; [apply H1; right; right; left|]. apply H2.
    + apply votingIndex_zero; lia.
    + repeat (constructor; [apply cacheOK_empty|]). constructor.
    + apply votingNode_prevOK; lia.
Defined.
