(* ===== verification/SizeHelper.v ===== *)
(** * The memory a map of UTXO entries takes

    Models src/blockchain/sizehelper.go: the estimate of what the Go runtime
    allocates for a map ([calculateRoughMapSize]) and the number of entries that
    makes a map of a given size ([calculateMinEntries]), with the size classes of
    the allocator. The UTXO cache preallocates its maps with them and decides
    from them when it is full. The numbers are those of a 64-bit system:
    [uintptr] and [int] have 64 bits.

    [math.Log2] of a bucket count is [Z.log2] of it: the result is truncated to
    an integer, and counts stay far below the 2^47 from which a double could
    round up to the next power. For a count that is not positive the conversion
    of the infinite or undefined logarithm to [uint8] gives 0, as does [Z.log2]. *)

From S2P Require Import Prelude.

Definition bucketSize : Z := 16 + 8 * 36 + 8 * 8.
Definition baseEntrySize : Z := 40.
Definition avgEntrySize : Z := baseEntrySize + (25 + 7).

Definition maxAlloc : Z := Z.shiftl 1 40.
Definition MaxUintptr : Z := 2^64 - 1.

Definition class_to_size : list Z :=
  [0; 8; 16; 24; 32; 48; 64; 80; 96; 112; 128; 144; 160; 176; 192; 208; 224; 240; 256; 288; 320;
   352; 384; 416; 448; 480; 512; 576; 640; 704; 768; 896; 1024; 1152; 1280; 1408; 1536; 1792; 2048;
   2304; 2688; 3072; 3200; 3456; 4096; 4864; 5376; 6144; 6528; 6784; 6912; 8192; 9472; 9728; 10240;
   10880; 12288; 13568; 14336; 16384; 18432; 19072; 20480; 21760; 24576; 27264; 28672; 32768].

Definition size_to_class8 : list Z :=
  [0; 1; 2; 3; 4; 5; 5; 6; 6; 7; 7; 8; 8; 9; 9; 10; 10; 11; 11; 12; 12; 13; 13; 14; 14; 15; 15; 16;
   16; 17; 17; 18; 18; 19; 19; 19; 19; 20; 20; 20; 20; 21; 21; 21; 21; 22; 22; 22; 22; 23; 23; 23;
   23; 24; 24; 24; 24; 25; 25; 25; 25; 26; 26; 26; 26; 27; 27; 27; 27; 27; 27; 27; 27; 28; 28; 28;
   28; 28; 28; 28; 28; 29; 29; 29; 29; 29; 29; 29; 29; 30; 30; 30; 30; 30; 30; 30; 30; 31; 31; 31;
   31; 31; 31; 31; 31; 31; 31; 31; 31; 31; 31; 31; 31; 32; 32; 32; 32; 32; 32; 32; 32; 32; 32; 32;
   32; 32; 32; 32; 32].

Definition size_to_class128 : list Z :=
  [32; 33; 34; 35; 36; 37; 37; 38; 38; 39; 39; 40; 40; 40; 41; 41; 41; 42; 43; 43; 44; 44; 44; 44;
   44; 45; 45; 45; 45; 45; 45; 46; 46; 46; 46; 47; 47; 47; 47; 47; 47; 48; 48; 48; 49; 49; 50; 51;
   51; 51; 51; 51; 51; 51; 51; 51; 51; 52; 52; 52; 52; 52; 52; 52; 52; 52; 52; 53; 53; 54; 54; 54;
   54; 55; 55; 55; 55; 55; 56; 56; 56; 56; 56; 56; 56; 56; 56; 56; 56; 57; 57; 57; 57; 57; 57; 57;
   57; 57; 57; 58; 58; 58; 58; 58; 58; 59; 59; 59; 59; 59; 59; 59; 59; 59; 59; 59; 59; 59; 59; 59;
   59; 60; 60; 60; 60; 60; 60; 60; 60; 60; 60; 60; 60; 60; 60; 60; 60; 61; 61; 61; 61; 61; 62; 62;
   62; 62; 62; 62; 62; 62; 62; 62; 62; 63; 63; 63; 63; 63; 63; 63; 63; 63; 63; 64; 64; 64; 64; 64;
   64; 64; 64; 64; 64; 64; 64; 64; 64; 64; 64; 64; 64; 64; 64; 64; 64; 65; 65; 65; 65; 65; 65; 65;
   65; 65; 65; 65; 65; 65; 65; 65; 65; 65; 65; 65; 65; 65; 66; 66; 66; 66; 66; 66; 66; 66; 66; 66;
   66; 67; 67; 67; 67; 67; 67; 67; 67; 67; 67; 67; 67; 67; 67; 67; 67; 67; 67; 67; 67; 67; 67; 67;
   67; 67; 67; 67; 67; 67; 67; 67; 67].

Definition mulUintptr (a b : Z) : Z * bool :=
  if (Z.lor a b <? Z.shiftl 1 32) || (a =? 0) then (u64 (a * b), false)
  else (u64 (a * b), MaxUintptr / a <? b).

Definition divRoundUp (n a : Z) : Z := u64 (n + a - 1) / a.
Definition alignUp (n a : Z) : Z := Z.ldiff (u64 (n + a - 1)) (a - 1).

(** An index past the tables would panic; [roundupsize] stays inside them. *)
Definition at_ (l : list Z) (i : Z) : Z := nth (Z.to_nat i) l 0.

Definition roundupsize (size : Z) : Z :=
  if size <? 32768 then
    if size <=? 1024 - 8 then at_ class_to_size (at_ size_to_class8 (divRoundUp size 8))
    else at_ class_to_size (at_ size_to_class128 (divRoundUp (u64 (size - 1024)) 128))
  else if u64 (size + 8192) <? size then size
  else alignUp size 8192.

Definition bucketShift (b : Z) : Z := u64 (Z.shiftl 1 (Z.land b (8 * 8 - 1))).

Definition overLoadFactor (count B : Z) : bool :=
  (8 <? count) && (u64 (13 * (bucketShift B / 2)) <? u64 count).

(** [for overLoadFactor(hint, B) { B++ }]; 64 rounds reach every count below
    the largest allocation. *)
Fixpoint growB (fuel : nat) (hint B : Z) : Z :=
  match fuel with
  | O => B
  | S fuel' => if overLoadFactor hint B then growB fuel' hint (B + 1) else B
  end.

Definition calculateRoughMapSize (hint bucketSize : Z) : Z :=
  let '(mem, overflow) := mulUintptr (u64 hint) bucketSize in
  let hint := if overflow || (maxAlloc <? mem) then 0 else hint in
  let B := growB 64 hint 0 in
  let base := bucketShift B in
  let numBuckets :=
    if 4 <=? B then
      let n := u64 (base + bucketShift (B - 4)) in
      let sz := u64 (bucketSize * n) in
      let up := roundupsize sz in
      if negb (up =? sz) then up / bucketSize else n
    else base in
  let '(total, _) := mulUintptr bucketSize numBuckets in
  let total := if negb (base =? numBuckets) then u64 (total + 24) else total in
  i64 (u64 (total + 48)).

Definition calculateMinEntries (totalBytes bucketSize : Z) : Z :=
  let totalBytes := i64 (totalBytes - 48) in
  let numBuckets := Z.quot totalBytes bucketSize in
  let B := Z.log2 numBuckets in
  if B <? 4 then
    if B =? 0 then 0 else if B =? 1 then 9 else if B =? 2 then 14 else 27
  else i64 (13 * (bucketShift (B - 1) / 2)) + 1.

(** ** The preallocated map fits

    [calculateMinEntries] depends on the byte count through a logarithm alone, so
    the claim for every size below 2^55 is one evaluation per power of two. *)

Definition entriesAt (B : Z) : Z :=
  if B <? 4 then
    if B =? 0 then 0 else if B =? 1 then 9 else if B =? 2 then 14 else 27
  else i64 (13 * (bucketShift (B - 1) / 2)) + 1.

Definition fitsAt (B : Z) : bool :=
  calculateRoughMapSize (entriesAt B - 1) bucketSize <=? 48 + (bucketSize + avgEntrySize) * 2^B.

Lemma fitsAt_all B : 0 <= B < 47 -> fitsAt B = true.
Proof.
  intros HB. assert (Hall : forallb fitsAt (seqZ 0 47) = true) by (vm_compute; reflexivity).
  rewrite forallb_forall in Hall. apply Hall, list_elem_of_In, elem_of_seqZ. lia.
Qed.

(** A map made for one entry fewer than [calculateMinEntries] asks for takes at
    most the memory it was sized for, however much that is. *)
Lemma preallocation_fits totalBytes :
  48 + (bucketSize + avgEntrySize) <= totalBytes < 2^55 ->
  calculateRoughMapSize (calculateMinEntries totalBytes (bucketSize + avgEntrySize) - 1) bucketSize <= totalBytes.
Proof.
  intros Ht. change (bucketSize + avgEntrySize) with 440 in *. unfold calculateMinEntries.
  rewrite i64_id by (widths; lia). cbv zeta. set (nb := Z.quot (totalBytes - 48) 440).
  assert (Hnb : nb = (totalBytes - 48) / 440) by (apply Z.quot_div_nonneg; lia).
  assert (1 <= nb) by (rewrite Hnb; apply Z.div_le_lower_bound; lia).
  assert (nb < 2^47) by (rewrite Hnb; apply Z.div_lt_upper_bound; lia).
  pose proof (Z.log2_spec nb ltac:(lia)) as Hlog.
  assert (HB : 0 <= Z.log2 nb < 47) by (split; [apply Z.log2_nonneg|apply Z.log2_lt_pow2; lia]).
  pose proof (fitsAt_all (Z.log2 nb) HB) as Hfit. unfold fitsAt in Hfit.
  change (bucketSize + avgEntrySize) with 440 in Hfit. rewrite Z.leb_le in Hfit.
  fold (entriesAt (Z.log2 nb)). etransitivity; [exact Hfit|].
  assert (440 * nb <= totalBytes - 48) by (rewrite Hnb; apply Z.mul_div_le; lia). lia.
Qed.
