(* ===== verification/UtxoCache.v ===== *)
(** * The UTXO cache

    Models src/blockchain/utxocache.go and the parts of utxoviewpoint.go that
    read through the cache: the slice of bounded maps ([mapSlice]), fetching
    entries with their misses, adding outputs and spending inputs of a connected
    block, and writing the cache back to the UTXO bucket.

    A cached entry is [Some e], or [None] for the nil that records a miss. The
    database handle is an argument, and a write returns the new contents. Spending
    changes an entry that the cache holds, which is written out as an update of
    the cached entry. [memoryUsage] counts the capacity of a script, which is its
    length for the scripts the cache allocates. The time is an argument [now].

    The refinement: [standsFor base s u] says that a cache over the database of
    the ledger [base] stands for the ledger [u]; fetching reads [u], connecting a
    block applies it to [u], and writing the cache stores [u]. *)

From S2P Require Import Prelude Sha256 Wire Commitment Script Block Compress Bucket Ledger UtxoView WorkMath ChainIO ChainStore SizeHelper.

(** ** The slice of maps *)

Record mapSlice := mkMapSlice {
  ms_maps : list (gmap OutPoint (option UtxoEntry));
  ms_maxEntries : list Z;
  ms_maxTotalMemoryUsage : Z }.

Definition msLength (ms : mapSlice) : Z :=
  foldr (fun m l => Z.of_nat (base.size m) + l) 0 (ms_maps ms).

Definition msSize (ms : mapSlice) : Z :=
  foldr (fun num size => calculateRoughMapSize num bucketSize + size) 0 (ms_maxEntries ms).

Fixpoint getFrom (maps : list (gmap OutPoint (option UtxoEntry))) (op : OutPoint)
    : option (option UtxoEntry) :=
  match maps with
  | [] => None
  | m :: maps' => match m !! op with Some entry => Some entry | None => getFrom maps' op end
  end.

Definition msGet (ms : mapSlice) (op : OutPoint) : option (option UtxoEntry) := getFrom (ms_maps ms) op.

(** The first loop of [put]: the map that has the key, if one has. *)
Fixpoint overwriteIn (maps : list (gmap OutPoint (option UtxoEntry))) (op : OutPoint)
    (entry : option UtxoEntry) : option (list (gmap OutPoint (option UtxoEntry))) :=
  match maps with
  | [] => None
  | m :: maps' =>
      match m !! op with
      | Some _ => Some (<[op := entry]> m :: maps')
      | None => cons m <$> overwriteIn maps' op entry
      end
  end.

(** The second loop: the first map that is not full. *)
Fixpoint insertRoom (maxEntries : list Z) (maps : list (gmap OutPoint (option UtxoEntry)))
    (op : OutPoint) (entry : option UtxoEntry) : option (list (gmap OutPoint (option UtxoEntry))) :=
  match maxEntries, maps with
  | maxNum :: maxEntries', m :: maps' =>
      if maxNum <=? Z.of_nat (base.size m) then cons m <$> insertRoom maxEntries' maps' op entry
      else Some (<[op := entry]> m :: maps')
  | _, _ => None
  end.

(** [makeNewMap]: the limit of the new map; the leftover memory wraps around
    when there is none. *)
Definition newMapEntries (ms : mapSlice) (totalEntryMemory : Z) : Z :=
  let memSize :=
    foldl (fun mem maxNum => u64 (mem - u64 (calculateRoughMapSize maxNum bucketSize)))
      (u64 (ms_maxTotalMemoryUsage ms - totalEntryMemory)) (ms_maxEntries ms) in
  calculateMinEntries (i64 memSize) (bucketSize + avgEntrySize) - 1.

Definition msPut (ms : mapSlice) (op : OutPoint) (entry : option UtxoEntry) (totalEntryMemory : Z)
    : mapSlice :=
  match overwriteIn (ms_maps ms) op entry with
  | Some maps => mkMapSlice maps (ms_maxEntries ms) (ms_maxTotalMemoryUsage ms)
  | None =>
      match insertRoom (ms_maxEntries ms) (ms_maps ms) op entry with
      | Some maps => mkMapSlice maps (ms_maxEntries ms) (ms_maxTotalMemoryUsage ms)
      | None =>
          mkMapSlice (ms_maps ms ++ [{[op := entry]}])
            (ms_maxEntries ms ++ [newMapEntries ms totalEntryMemory]) (ms_maxTotalMemoryUsage ms)
      end
  end.

Definition msDelete (ms : mapSlice) (op : OutPoint) : mapSlice :=
  mkMapSlice (delete op <$> ms_maps ms) (ms_maxEntries ms) (ms_maxTotalMemoryUsage ms).

(** [deleteMaps]: all maps but the first are dropped. *)
Definition deleteMaps (ms : mapSlice) : mapSlice :=
  mkMapSlice (take 1 (ms_maps ms)) (take 1 (ms_maxEntries ms)) (ms_maxTotalMemoryUsage ms).

(** ** The cache *)

Inductive FlushMode := FlushRequired | FlushPeriodic | FlushIfNeeded.

(** [time.Minute * 5], in nanoseconds. *)
Definition utxoFlushPeriodicInterval : Z := 5 * 60 * 10^9.

Record utxoCache := mkUtxoCache {
  uc_maxTotalMemoryUsage : Z;
  uc_cachedEntries : mapSlice;
  uc_totalEntryMemory : Z;
  uc_lastFlushHash : list Z;
  uc_lastFlushTime : Z }.

Definition withEntries (s : utxoCache) (ms : mapSlice) (mem : Z) : utxoCache :=
  mkUtxoCache (uc_maxTotalMemoryUsage s) ms mem (uc_lastFlushHash s) (uc_lastFlushTime s).

Definition withFlush (s : utxoCache) (hash : list Z) (now : Z) : utxoCache :=
  mkUtxoCache (uc_maxTotalMemoryUsage s) (uc_cachedEntries s) (uc_totalEntryMemory s) hash now.

Definition newUtxoCache (maxTotalMemoryUsage : Z) : utxoCache :=
  let numMaxElements := calculateMinEntries (i64 maxTotalMemoryUsage) (bucketSize + avgEntrySize) - 1 in
  mkUtxoCache maxTotalMemoryUsage (mkMapSlice [∅] [numMaxElements] maxTotalMemoryUsage) 0 zeroHash 0.

Definition memoryUsage (entry : option UtxoEntry) : Z :=
  match entry with
  | None => 0
  | Some e => u64 (baseEntrySize + zlen (pkScript e))
  end.

Definition totalMemoryUsage (s : utxoCache) : Z :=
  u64 (u64 (msSize (uc_cachedEntries s)) + uc_totalEntryMemory s).

Definition cachePut (s : utxoCache) (op : OutPoint) (entry : option UtxoEntry) : utxoCache :=
  withEntries s (msPut (uc_cachedEntries s) op entry (uc_totalEntryMemory s))
    (u64 (uc_totalEntryMemory s + memoryUsage entry)).

Section operations.
Context {codec : KeyCodec}.

(** The read of the missing outpoints from the database. *)
Fixpoint dbFetchAll (db : ChainDB) (ops : list OutPoint) : result chainio_error (list (option UtxoEntry)) :=
  match ops with
  | [] => Ok []
  | op :: ops' =>
      entry ← dbFetchUtxoEntry db op;
      entries ← dbFetchAll db ops';
      Ok (entry :: entries)
  end.

(** The database entries take the places of the misses, in order. *)
Fixpoint fillIn (hits : list (option (option UtxoEntry))) (dbEntries : list (option UtxoEntry))
    : list (option UtxoEntry) :=
  match hits with
  | [] => []
  | Some entry :: hits' => entry :: fillIn hits' dbEntries
  | None :: hits' => default None (head dbEntries) :: fillIn hits' (tail dbEntries)
  end.

Definition fetchEntries (db : ChainDB) (s : utxoCache) (outpoints : list OutPoint)
    : result chainio_error (list (option UtxoEntry) * utxoCache) :=
  let missingOps := filter (fun op => msGet (uc_cachedEntries s) op = None) outpoints in
  let hits := msGet (uc_cachedEntries s) <$> outpoints in
  dbEntries ← dbFetchAll db missingOps;
  let s' := foldl (fun s oe => cachePut s oe.1 oe.2) s (zip missingOps dbEntries) in
  Ok (fillIn hits dbEntries, s').

Definition cacheAddTxOut (s : utxoCache) (outpoint : OutPoint) (txOut : TxOut) (isCoinBase : bool)
    (blockHeight : Z) : utxoCache :=
  if IsUnspendable (PkScript txOut) then s
  else
    cachePut s outpoint
      (Some (mkUtxoEntry (Value txOut) (PkScript txOut) blockHeight
               (Z.lor (Z.lor tfFresh tfModified) (if isCoinBase then tfCoinBase else 0)))).

Fixpoint cacheAddTxOutsFrom (s : utxoCache) (hash : list Z) (isCoinBase : bool) (height : Z)
    (i : nat) (outs : list TxOut) : utxoCache :=
  match outs with
  | [] => s
  | o :: outs' =>
      cacheAddTxOutsFrom (cacheAddTxOut s (txOutPoint hash i) o isCoinBase height)
        hash isCoinBase height (S i) outs'
  end.

Definition cacheAddTxOuts (s : utxoCache) (tx : MsgTx) (blockHeight : Z) : utxoCache :=
  cacheAddTxOutsFrom s (TxHash tx) (IsCoinBaseTx tx) blockHeight 0 (TxOuts tx).

(** [stxos] is [None] when the caller passes nil. *)
Definition addTxIn (db : ChainDB) (st : utxoCache * option (list SpentTxOut)) (op : OutPoint)
    : (utxoCache * option (list SpentTxOut)) * result chainio_error unit :=
  let '(s, stxos) := st in
  match fetchEntries db s [op] with
  | Err e => (st, Err e)
  | Ok ([Some entry], s1) =>
      let stxos' := (fun l => l ++ [entryStxo entry]) <$> stxos in
      let spent := Spend entry in
      let ms := uc_cachedEntries s1 in
      let ms1 := mkMapSlice (default (ms_maps ms) (overwriteIn (ms_maps ms) op (Some spent)))
                   (ms_maxEntries ms) (ms_maxTotalMemoryUsage ms) in
      ((if isFresh spent
        then withEntries s1 (msDelete ms1 op) (u64 (uc_totalEntryMemory s1 - memoryUsage (Some spent)))
        else withEntries s1 ms1 (u64 (uc_totalEntryMemory s1 - memoryUsage None)), stxos'), Ok tt)
  | Ok (_, s1) => ((s1, stxos), Err (AssertError "missing input"))
  end.

(** A loop that stops at the first error, with the state it has reached. *)
Fixpoint foldS {E S A} (f : S -> A -> S * result E unit) (s : S) (l : list A) : S * result E unit :=
  match l with
  | [] => (s, Ok tt)
  | a :: l' =>
      match f s a with
      | (s1, Ok _) => foldS f s1 l'
      | (s1, Err e) => (s1, Err e)
      end
  end.

Definition addTxIns (db : ChainDB) (st : utxoCache * option (list SpentTxOut)) (tx : MsgTx)
    : (utxoCache * option (list SpentTxOut)) * result chainio_error unit :=
  if IsCoinBaseTx tx then (st, Ok tt) else foldS (addTxIn db) st (prevOuts tx).

Definition cacheConnectTransaction (db : ChainDB) (blockHeight : Z)
    (st : utxoCache * option (list SpentTxOut)) (tx : MsgTx)
    : (utxoCache * option (list SpentTxOut)) * result chainio_error unit :=
  match addTxIns db st tx with
  | (st1, Err e) => (st1, Err e)
  | ((s1, stxos1), Ok _) => ((cacheAddTxOuts s1 tx blockHeight, stxos1), Ok tt)
  end.

(** What an error leaves behind stays in the cache. *)
Definition cacheConnectTransactions (db : ChainDB) (s : utxoCache) (block : Block)
    (stxos : option (list SpentTxOut)) : (utxoCache * option (list SpentTxOut)) * result chainio_error unit :=
  foldS (cacheConnectTransaction db (Height block)) (s, stxos) (Transactions block).

(** One entry of the loop of [writeCache]. *)
Definition writeCacheEntry (utxoBucket : Bucket) (oe : OutPoint * option UtxoEntry)
    : result chainio_error Bucket :=
  let '(outpoint, entry) := oe in
  match entry with
  | None => Ok (dbDeleteUtxoEntry utxoBucket outpoint)
  | Some e =>
      if IsSpent e then Ok (dbDeleteUtxoEntry utxoBucket outpoint)
      else if negb (isModified e) then Ok utxoBucket
      else dbPutUtxoEntry utxoBucket outpoint entry
  end.

Definition writeCache (db : ChainDB) (s : utxoCache) (bestHash : list Z) (now : Z)
    : result chainio_error (ChainDB * utxoCache) :=
  b ← foldM writeCacheEntry (utxoSetBucket db) (concat (map_to_list <$> ms_maps (uc_cachedEntries s)));
  let ms := uc_cachedEntries s in
  let emptied := mkMapSlice ((fun _ => ∅) <$> ms_maps ms) (ms_maxEntries ms) (ms_maxTotalMemoryUsage ms) in
  Ok (dbPutUtxoStateConsistency (withUtxoSet db b) bestHash,
      withFlush (withEntries s (deleteMaps emptied) 0) bestHash now).

Definition flush (db : ChainDB) (s : utxoCache) (mode : FlushMode) (bestHash : list Z) (now : Z)
    : result chainio_error (ChainDB * utxoCache) :=
  let flushAt threshold :=
    if threshold <=? totalMemoryUsage s then writeCache db s bestHash now else Ok (db, s) in
  match mode with
  | FlushRequired => flushAt 0
  | FlushIfNeeded =>
      if bool_decide (bestHash = uc_lastFlushHash s) then Ok (db, s)
      else flushAt (uc_maxTotalMemoryUsage s)
  | FlushPeriodic =>
      flushAt (if utxoFlushPeriodicInterval <? now - uc_lastFlushTime s then 0
               else uc_maxTotalMemoryUsage s)
  end.

(** ** Views that read through the cache *)

(** A nil entry of a view reads as no entry. *)
Definition fetchUtxosFromCache (db : ChainDB) (s : utxoCache) (view : UtxoViewpoint)
    (outpoints : list OutPoint) : result chainio_error (UtxoViewpoint * utxoCache) :=
  match outpoints with
  | [] => Ok (view, s)
  | _ =>
      '(fetched, s') ← fetchEntries db s outpoints;
      let es := foldl (fun es oe => partial_alter (fun _ => oe.2) oe.1 es) (entries view)
                  (zip outpoints fetched) in
      Ok (mkUtxoViewpoint es (bestHash view), s')
  end.

Definition fetchUtxos (db : ChainDB) (s : utxoCache) (view : UtxoViewpoint) (outpoints : list OutPoint)
    : result chainio_error (UtxoViewpoint * utxoCache) :=
  fetchUtxosFromCache db s view (filter (fun op => entries view !! op = None) outpoints).

(** The position of the last transaction of the block with a hash. *)
Definition txInFlight (txs : list MsgTx) : gmap (list Z) nat :=
  foldl (fun m itx => <[TxHash itx.2 := itx.1]> m) ∅ (zip (seq 0 (length txs)) txs).

(** One input of the transaction at position [i + 1]. *)
Definition inputToFetch (block : Block) (i : nat) (st : UtxoViewpoint * list OutPoint) (op : OutPoint)
    : UtxoViewpoint * list OutPoint :=
  let '(view, needed) := st in
  let fetchIt :=
    match entries view !! op with Some _ => st | None => (view, needed ++ [op]) end in
  match txInFlight (Transactions block) !! Hash op with
  | Some inFlightIndex =>
      if (inFlightIndex <=? i)%nat then
        match Transactions block !! inFlightIndex with
        | Some originTx => (AddTxOuts view originTx (Height block), needed)
        | None => st
        end
      else fetchIt
  | None => fetchIt
  end.

Definition findInputsToFetch (view : UtxoViewpoint) (block : Block) : UtxoViewpoint * list OutPoint :=
  let rest := drop 1 (Transactions block) in
  foldl (fun st itx => foldl (inputToFetch block itx.1) st (prevOuts itx.2)) (view, [])
    (zip (seq 0 (length rest)) rest).

Definition fetchInputUtxos (db : ChainDB) (s : utxoCache) (view : UtxoViewpoint) (block : Block)
    : result chainio_error (UtxoViewpoint * utxoCache) :=
  let '(view1, needed) := findInputsToFetch view block in
  fetchUtxosFromCache db s view1 needed.

Definition FetchUtxoEntry (db : ChainDB) (s : utxoCache) (outpoint : OutPoint)
    : result chainio_error (option UtxoEntry * utxoCache) :=
  '(es, s') ← fetchEntries db s [outpoint];
  Ok (default None (head es), s').
End operations.

(** ** What the slice of maps holds *)

(** No outpoint is in two of the maps. *)
Fixpoint uniq (maps : list (gmap OutPoint (option UtxoEntry))) : Prop :=
  match maps with
  | [] => True
  | m :: maps' => (forall op, is_Some (m !! op) -> getFrom maps' op = None) /\ uniq maps'
  end.

(** [maps'] is [maps] with [op] set to [e]. *)
Definition sets (maps : list (gmap OutPoint (option UtxoEntry))) op e maps' : Prop :=
  (forall op', getFrom maps' op' = if decide (op' = op) then Some e else getFrom maps op') /\
  (uniq maps -> uniq maps').

Lemma sets_insert m maps op e :
  m !! op <> None \/ getFrom maps op = None -> sets (m :: maps) op e (<[op := e]> m :: maps).
Proof.
  intros Hm. split.
  - intros op'. cbn [getFrom]. destruct (decide (op' = op)) as [->|Hne].
    + by rewrite lookup_insert_eq.
    + by rewrite lookup_insert_ne.
  - cbn [uniq]. intros [H1 H2]. split; [|done]. intros op'. destruct (decide (op' = op)) as [->|Hne].
    + intros _. destruct Hm as [Hm|Hm]; [|done]. apply H1. by destruct (m !! op).
    + rewrite lookup_insert_ne by done. apply H1.
Qed.

Lemma sets_cons m maps op e maps' : m !! op = None -> sets maps op e maps' -> sets (m :: maps) op e (m :: maps').
Proof.
  intros Hm [Hg Hu]. split.
  - intros op'. cbn [getFrom]. rewrite Hg. destruct (decide (op' = op)) as [->|]; [by rewrite Hm|done].
  - cbn [uniq]. intros [H1 H2]. split; [|auto]. intros op' Hs. rewrite Hg.
    destruct (decide (op' = op)) as [->|]; [|auto]. rewrite Hm in Hs. by destruct Hs.
Qed.

Lemma overwriteIn_sets maps op e :
  match overwriteIn maps op e with
  | Some maps' => sets maps op e maps' /\ length maps' = length maps
  | None => getFrom maps op = None
  end.
Proof.
  induction maps as [|m maps IH]; cbn [overwriteIn getFrom]; [done|].
  destruct (m !! op) eqn:E; [split; [apply sets_insert; left; by rewrite E|done]|].
  destruct (overwriteIn maps op e) as [maps'|]; cbn [fmap option_fmap option_map]; [|done].
  destruct IH as [H1 H2]. split; [by apply sets_cons|cbn; by rewrite H2].
Qed.

Lemma insertRoom_sets maxEntries maps op e maps' :
  getFrom maps op = None -> insertRoom maxEntries maps op e = Some maps' ->
  sets maps op e maps' /\ length maps' = length maps.
Proof.
  revert maxEntries maps'; induction maps as [|m maps IH]; intros [|n ns] maps' Hg; cbn [insertRoom]; try done.
  cbn [getFrom] in Hg. destruct (m !! op) eqn:E; [done|]. case_match.
  - destruct (insertRoom ns maps op e) as [l|] eqn:Er; [|done]. intros [= <-].
    destruct (IH _ _ Hg Er) as [H1 H2]. split; [by apply sets_cons|cbn; by rewrite H2].
  - intros [= <-]. split; [apply sets_insert; by right|done].
Qed.

Lemma append_sets maps op e : getFrom maps op = None -> sets maps op e (maps ++ [{[op := e]}]).
Proof.
  induction maps as [|m maps IH]; cbn [getFrom app].
  - intros _. split; [|cbn; done]. intros op'. cbn [getFrom].
    destruct (decide (op' = op)) as [->|]; [by rewrite lookup_singleton_eq|by rewrite lookup_singleton_ne].
  - destruct (m !! op) eqn:E; [done|]. intros H. by apply sets_cons, IH.
Qed.

(** The lists have the same length, and there is a first map. *)
Definition ms_shape (ms : mapSlice) : Prop :=
  length (ms_maps ms) = length (ms_maxEntries ms) /\ ms_maps ms <> [].

Lemma msPut_spec ms op e mem :
  ms_shape ms ->
  ms_shape (msPut ms op e mem) /\ sets (ms_maps ms) op e (ms_maps (msPut ms op e mem)).
Proof.
  intros [Hl Hn]. unfold msPut. pose proof (overwriteIn_sets (ms_maps ms) op e) as Ho.
  assert (Hnil : forall l : list (gmap OutPoint (option UtxoEntry)),
             length l = length (ms_maps ms) -> l <> []).
  { intros l Hll ->. apply Hn. by destruct (ms_maps ms). }
  destruct (overwriteIn _ op e) as [maps'|].
  - destruct Ho as [H1 H2]. split; [split; cbn; [by rewrite H2|by apply Hnil]|done].
  - destruct (insertRoom _ _ op e) as [maps'|] eqn:Er.
    + destruct (insertRoom_sets _ _ _ _ _ Ho Er) as [H1 H2]. split; [split; cbn; [by rewrite H2|by apply Hnil]|done].
    + split; [split; cbn; [rewrite !length_app, Hl; done|by destruct (ms_maps ms)]|]. by apply append_sets.
Qed.

Lemma getFrom_delete maps op op' :
  getFrom (delete op <$> maps) op' = if decide (op' = op) then None else getFrom maps op'.
Proof.
  induction maps as [|m maps IH]; cbn [fmap list_fmap getFrom]; [by case_decide|]. rewrite IH.
  destruct (decide (op' = op)) as [->|]; [by rewrite lookup_delete_eq|by rewrite lookup_delete_ne].
Qed.

Lemma uniq_delete maps op : uniq maps -> uniq (delete op <$> maps).
Proof.
  induction maps as [|m maps IH]; cbn [fmap list_fmap uniq]; [done|]. intros [H1 H2]. split; [|auto].
  intros op' Hs. rewrite getFrom_delete. case_decide; [done|]. rewrite lookup_delete_ne in Hs by done. auto.
Qed.

(** ** A cache over a stored ledger stands for a ledger *)

(** What the cache may hold for an outpoint, given the coin of the database and
    the coin of the ledger. *)
Definition entry_rep (stored : option SpentTxOut) (cached : option (option UtxoEntry))
    (coin : option SpentTxOut) : Prop :=
  match cached with
  | None => coin = stored
  | Some None => stored = None /\ coin = None
  | Some (Some e) =>
      live_entry e = coin /\ (isModified e = false -> coin = stored) /\ (isFresh e = true -> stored = None)
  end.

Record standsFor (base : utxo_set) (s : utxoCache) (u : utxo_set) : Prop := {
  rep_shape : ms_shape (uc_cachedEntries s);
  rep_uniq : uniq (ms_maps (uc_cachedEntries s));
  rep_key : forall op, is_Some (msGet (uc_cachedEntries s) op) -> wf_outpoint op;
  rep_wf : map_Forall wf_coin u;
  rep_entry : forall op, entry_rep (base !! op) (msGet (uc_cachedEntries s) op) (u !! op) }.

(** Setting one entry, while the ledger changes at its outpoint alone. *)
Lemma standsFor_set base s u op e u' maps mem :
  standsFor base s u -> wf_outpoint op -> map_Forall wf_coin u' ->
  sets (ms_maps (uc_cachedEntries s)) op e (ms_maps maps) -> ms_shape maps ->
  (forall op', op' <> op -> u' !! op' = u !! op') -> entry_rep (base !! op) (Some e) (u' !! op) ->
  standsFor base (withEntries s maps mem) u'.
Proof.
  intros [H1 H2 H3 H4 H5] Hop Hu' [Hg Hu] Hsh Hne He. split; cbn [uc_cachedEntries withEntries]; auto.
  - intros op'. unfold msGet. rewrite Hg. case_decide; [by subst|]. apply H3.
  - intros op'. unfold msGet. rewrite Hg. destruct (decide (op' = op)) as [->|Hn]; [done|].
    rewrite (Hne op' Hn). apply H5.
Qed.

Lemma standsFor_put base s u op e u' :
  standsFor base s u -> wf_outpoint op -> map_Forall wf_coin u' ->
  (forall op', op' <> op -> u' !! op' = u !! op') -> entry_rep (base !! op) (Some e) (u' !! op) ->
  standsFor base (cachePut s op e) u'.
Proof.
  intros Hr Hop Hu' Hne He. pose proof (rep_shape _ _ _ Hr) as Hsh.
  destruct (msPut_spec (uc_cachedEntries s) op e (uc_totalEntryMemory s) Hsh) as [H1 H2].
  by apply (standsFor_set base s u op e u').
Qed.

Lemma standsFor_delete base s u op u' mem :
  standsFor base s u -> map_Forall wf_coin u' -> base !! op = None -> u' !! op = None ->
  (forall op', op' <> op -> u' !! op' = u !! op') ->
  standsFor base (withEntries s (msDelete (uc_cachedEntries s) op) mem) u'.
Proof.
  intros [[Hl Hn] H2 H3 H4 H5] Hu' Hb Hu Hne.
  split; cbn [uc_cachedEntries withEntries]; unfold msGet; cbn [msDelete ms_maps]; auto.
  - split; cbn; [by rewrite length_fmap|]. by destruct (ms_maps (uc_cachedEntries s)).
  - by apply uniq_delete.
  - intros op'. rewrite getFrom_delete. case_decide; [by intros []|]. apply H3.
  - intros op'. rewrite getFrom_delete. destruct (decide (op' = op)) as [->|Hno]; cbn; [congruence|].
    rewrite (Hne op' Hno). apply H5.
Qed.

(** A new cache stands for the stored ledger. *)
Lemma standsFor_new base n : map_Forall wf_coin base -> standsFor base (newUtxoCache n) base.
Proof.
  intros Hb. split; cbn [newUtxoCache uc_cachedEntries]; unfold msGet; cbn [ms_maps getFrom]; try done.
  intros op. rewrite lookup_empty. by intros [].
Qed.

(** An empty cache stands for whatever ledger is stored below it. *)
Lemma standsFor_empty base s u v :
  standsFor base s u -> (forall op, msGet (uc_cachedEntries s) op = None) -> map_Forall wf_coin v -> standsFor v s v.
Proof.
  intros [H1 H2 H3 H4 H5] He Hv. split; try done. intros op. by rewrite He.
Qed.

Section refinement.
Context {codec : KeyCodec} {codec_ok : RecoversKeys}.

Lemma dbFetchAll_stored db base ops :
  stored base (utxoSetBucket db) -> Forall wf_outpoint ops ->
  dbFetchAll db ops = Ok ((fun op => storedEntry <$> base !! op) <$> ops).
Proof.
  intros Hs. induction 1 as [|op ops Hop _ IH]; cbn [dbFetchAll fmap list_fmap]; [done|].
  by rewrite (dbFetchUtxoEntry_stored db base op Hs Hop), IH.
Qed.

Lemma fillIn_spec (get : OutPoint -> option (option UtxoEntry)) f ops :
  fillIn (get <$> ops) (f <$> filter (fun op => get op = None) ops)
  = (fun op => match get op with Some e => e | None => f op end) <$> ops.
Proof.
  induction ops as [|op ops IH]; [done|]. rewrite filter_cons. cbn [fmap list_fmap fillIn].
  destruct (get op) as [e|] eqn:E.
  - rewrite decide_False by done. by rewrite IH.
  - rewrite decide_True by done. cbn [fmap list_fmap head tail]. by rewrite IH.
Qed.

(** Coins read from the database may be cached. *)
Lemma standsFor_fetched base s u ops :
  standsFor base s u -> Forall (fun op => wf_outpoint op /\ u !! op = base !! op) ops ->
  let f op := storedEntry <$> base !! op in
  let s' := foldl (fun s oe => cachePut s oe.1 oe.2) s (zip ops (f <$> ops)) in
  standsFor base s' u /\
  forall op, msGet (uc_cachedEntries s') op
             = if decide (op ∈ ops) then Some (f op) else msGet (uc_cachedEntries s) op.
Proof.
  intros Hr Hops f. revert s Hr; induction Hops as [|op ops [Hop Hu] _ IH]; intros s Hr; cbn [fmap list_fmap zip_with foldl].
  { split; [done|]. intros op. by rewrite decide_False by apply not_elem_of_nil. }
  assert (He : entry_rep (base !! op) (Some (f op)) (u !! op)).
  { rewrite Hu. unfold f. destruct (base !! op) as [c|]; [|done].
    split; [apply live_storedEntry|]. split; [done|]. by destruct c as [? ? ? []]. }
  pose proof (standsFor_put base s u op (f op) u Hr Hop (rep_wf _ _ _ Hr) (fun _ _ => eq_refl) He) as Hr1.
  destruct (IH (cachePut s op (f op)) Hr1) as [H1 H2]. split; [done|]. intros op'. rewrite H2.
  destruct (msPut_spec (uc_cachedEntries s) op (f op) (uc_totalEntryMemory s) (rep_shape _ _ _ Hr)) as [_ [Hg _]].
  change (msGet (uc_cachedEntries (cachePut s op (f op))) op')
    with (getFrom (ms_maps (msPut (uc_cachedEntries s) op (f op) (uc_totalEntryMemory s))) op').
  rewrite Hg. destruct (decide (op' ∈ ops)).
  - by rewrite decide_True by (by right).
  - destruct (decide (op' = op)) as [->|]; [by rewrite decide_True by left|].
    rewrite decide_False; [done|]. by intros [?|?]%elem_of_cons.
Qed.

(** Fetching returns what the cache then holds, and changes no coin. *)
Lemma fetchEntries_rep db base s u ops :
  stored base (utxoSetBucket db) -> standsFor base s u -> Forall wf_outpoint ops ->
  exists es s', fetchEntries db s ops = Ok (es, s') /\ standsFor base s' u /\
    Forall2 (fun op e => msGet (uc_cachedEntries s') op = Some e) ops es.
Proof.
  intros Hs Hr Hops. unfold fetchEntries. set (get := msGet (uc_cachedEntries s)).
  set (M := filter (fun op => get op = None) ops).
  assert (HM : Forall (fun op => wf_outpoint op /\ u !! op = base !! op) M).
  { apply Forall_forall. intros op [Hg Hin]%list_elem_of_filter. rewrite Forall_forall in Hops.
    split; [by apply Hops|]. pose proof (rep_entry _ _ _ Hr op) as He. fold get in He. by rewrite Hg in He. }
  assert (HM' : Forall wf_outpoint M) by (eapply Forall_impl; [exact HM|]; cbn; tauto).
  rewrite (dbFetchAll_stored db base M Hs HM'). result_simpl. eexists _, _. split; [reflexivity|].
  destruct (standsFor_fetched base s u M Hr HM) as [H1 H2]. split; [exact H1|].
  unfold M at 2. rewrite fillIn_spec. rewrite Forall2_fmap_r. apply Forall_Forall2_diag, Forall_forall.
  intros op Hin. unfold compose. rewrite H2. fold get. destruct (get op) eqn:E.
  - rewrite decide_False; [done|]. unfold M. rewrite list_elem_of_filter. intros [? _]. congruence.
  - rewrite decide_True; [done|]. apply list_elem_of_filter. done.
Qed.

(** ** Connecting a block to the cache *)

Lemma isFresh_Spend e : isFresh (Spend e) = isFresh e.
Proof.
  unfold Spend. destruct (IsSpent e); [done|]. unfold isFresh. change tfFresh with (2^3).
  rewrite !hasFlag_testbit by lia. cbn [packedFlags]. rewrite !Z.lor_spec. cbn. by rewrite orb_false_r.
Qed.

Lemma addTxIn_rep db base s u stxos op c :
  stored base (utxoSetBucket db) -> standsFor base s u -> u !! op = Some c ->
  exists s', addTxIn db (s, stxos) op = ((s', (fun l => l ++ [c]) <$> stxos), Ok tt) /\
             standsFor base s' (delete op u).
Proof.
  intros Hs Hr Hc. pose proof (proj1 (rep_wf _ _ _ Hr op c Hc)) as Hop. unfold addTxIn.
  destruct (fetchEntries_rep db base s u [op] Hs Hr (proj2 (Forall_singleton _ _) Hop)) as (es & s1 & -> & Hr1 & Hf).
  apply Forall2_cons_inv_l in Hf as (e & es' & He & Hnil & ->). apply Forall2_nil_inv_l in Hnil as ->.
  pose proof (rep_entry _ _ _ Hr1 op) as Hrep. rewrite He, Hc in Hrep.
  destruct e as [e|]; [|by destruct Hrep]. destruct Hrep as (Hlive & Hmod & Hfresh).
  assert (Hns : IsSpent e = false) by (unfold live_entry in Hlive; by destruct (IsSpent e)).
  assert (entryStxo e = c) as -> by (unfold live_entry in Hlive; rewrite Hns in Hlive; congruence).
  set (ms := uc_cachedEntries s1) in *. pose proof (overwriteIn_sets (ms_maps ms) op (Some (Spend e))) as Ho.
  destruct (overwriteIn _ op _) as [maps'|]; [|unfold msGet in He; congruence].
  destruct Ho as [Hset Hlen]. cbn [default].
  set (ms1 := mkMapSlice maps' (ms_maxEntries ms) (ms_maxTotalMemoryUsage ms)). assert (Hsh : ms_shape ms1).
  { destruct (rep_shape _ _ _ Hr1) as [Hl Hn]. fold ms in Hl, Hn. split; cbn; [congruence|]. intros ->.
    by destruct (ms_maps ms). }
  assert (Hwf' : map_Forall wf_coin (delete op u)) by by apply map_Forall_delete, (rep_wf _ _ _ Hr).
  assert (Hne : forall op', op' <> op -> delete op u !! op' = u !! op') by (intros; by apply lookup_delete_ne).
  assert (Hrm : forall mem, standsFor base (withEntries s1 ms1 mem) (delete op u)).
  { intros mem. apply (standsFor_set base s1 u op (Some (Spend e)) _ ms1 mem Hr1 Hop Hwf' Hset Hsh Hne).
    rewrite lookup_delete_eq. cbn. unfold live_entry. rewrite Spend_spent, Spend_modified, isFresh_Spend by done.
    split; [reflexivity|]. split; [discriminate|exact Hfresh]. }
  rewrite isFresh_Spend. destruct (isFresh e) eqn:Ef; eexists; (split; [reflexivity|]); [|apply Hrm].
  apply (standsFor_delete base (withEntries s1 ms1 0) (delete op u) op _ _ (Hrm 0) Hwf' (Hfresh eq_refl)).
  - apply lookup_delete_eq.
  - done.
Qed.

Lemma addTxIns_rep db base ops s u stxos u' cs :
  stored base (utxoSetBucket db) -> standsFor base s u -> spendCoins u ops = Some (u', cs) ->
  exists s', foldS (addTxIn db) (s, stxos) ops = ((s', (fun l => l ++ cs) <$> stxos), Ok tt) /\
             standsFor base s' u'.
Proof.
  intros Hs. revert s u stxos cs; induction ops as [|op ops IH]; intros s u stxos cs Hr; cbn [spendCoins foldS].
  { intros [= <- <-]. exists s. split; [|done]. do 2 f_equal. destruct stxos; cbn; by rewrite ?app_nil_r. }
  destruct (u !! op) as [c|] eqn:Hc; cbn [mbind option_bind]; [|done].
  destruct (spendCoins (delete op u) ops) as [[u1 cs1]|] eqn:E; cbn [mbind option_bind]; [|done].
  intros [= <- <-]. destruct (addTxIn_rep db base s u stxos op c Hs Hr Hc) as (s1 & -> & Hr1).
  destruct (IH s1 _ ((fun l => l ++ [c]) <$> stxos) _ Hr1 E) as (s2 & E2 & Hr2). exists s2. split; [|done].
  rewrite E2. do 2 f_equal. destruct stxos; cbn; [|done]. by rewrite <- app_assoc.
Qed.

(** The coins a transaction may create: storable, and not in the database. *)
Definition may_create (base : utxo_set) (oc : OutPoint * SpentTxOut) : Prop :=
  wf_coin oc.1 oc.2 /\ base !! oc.1 = None.

Lemma cacheAddTxOutsFrom_rep base s u hash cb h i outs u' :
  standsFor base s u -> Forall (may_create base) (newCoinsFrom hash h cb i outs) ->
  addCoins u (newCoinsFrom hash h cb i outs) = Some u' ->
  standsFor base (cacheAddTxOutsFrom s hash cb h i outs) u'.
Proof.
  revert s u i; induction outs as [|o outs IH]; intros s u i Hr; cbn [newCoinsFrom cacheAddTxOutsFrom].
  { by intros _ [= <-]. }
  unfold cacheAddTxOut. destruct (IsUnspendable (PkScript o)); [by apply IH|]. cbn [app addCoins].
  intros [[Hwf Hb] Hm]%Forall_cons_1. destruct (u !! txOutPoint hash i) eqn:Hu; [done|]. apply IH; [|done].
  apply (standsFor_put base s u); [done|apply Hwf| | |].
  - apply map_Forall_insert_2; [done|apply Hr].
  - intros op' Hne. by apply lookup_insert_ne.
  - rewrite lookup_insert_eq. cbn [fst] in Hb. rewrite Hb. split; [apply fresh_flags_entry|]. split; [|done].
    by destruct cb.
Qed.

Lemma cacheConnectTransaction_rep db base h s u stxos tx u' cs :
  stored base (utxoSetBucket db) -> standsFor base s u -> Forall (may_create base) (newCoins h tx) ->
  applyTx h u tx = Some (u', cs) ->
  exists s', cacheConnectTransaction db h (s, stxos) tx = ((s', (fun l => l ++ cs) <$> stxos), Ok tt) /\
             standsFor base s' u'.
Proof.
  intros Hs Hr Hm. unfold applyTx, cacheConnectTransaction, addTxIns.
  assert (Hout : forall s1 u1 u2, standsFor base s1 u1 -> addCoins u1 (newCoins h tx) = Some u2 ->
                   standsFor base (cacheAddTxOuts s1 tx h) u2)
    by (intros; by eapply cacheAddTxOutsFrom_rep).
  destruct (IsCoinBaseTx tx); cbn [mbind option_bind].
  - destruct (addCoins u (newCoins h tx)) as [u2|] eqn:E; [|done]. intros [= <- <-]. eexists.
    split; [|by eapply Hout]. do 2 f_equal. destruct stxos; cbn; by rewrite ?app_nil_r.
  - destruct (spendCoins u (prevOuts tx)) as [[u1 cs1]|] eqn:E1; cbn [mbind option_bind]; [|done].
    destruct (addCoins u1 (newCoins h tx)) as [u2|] eqn:E; [|done]. intros [= <- <-].
    destruct (addTxIns_rep db base _ s u stxos _ _ Hs Hr E1) as (s1 & -> & Hr1).
    eexists. split; [reflexivity|]. by eapply Hout.
Qed.

Lemma cacheConnectTransactions_rep db base s u block stxos u' cs :
  stored base (utxoSetBucket db) -> standsFor base s u ->
  Forall (fun tx => Forall (may_create base) (newCoins (Height block) tx)) (Transactions block) ->
  applyTxs (Height block) u (Transactions block) = Some (u', cs) ->
  exists s', cacheConnectTransactions db s block stxos = ((s', (fun l => l ++ cs) <$> stxos), Ok tt) /\
             standsFor base s' u'.
Proof.
  intros Hs Hr Hm. unfold cacheConnectTransactions. revert s u stxos cs Hr.
  induction Hm as [|tx txs Htx Hm IH]; intros s u stxos cs Hr H.
  { cbn in H. simplify_eq. exists s. split; [|done]. cbn [foldS]. do 2 f_equal. destruct stxos; cbn; by rewrite ?app_nil_r. }
  apply applyTxs_cons in H as (u1 & cs1 & cs2 & H1 & H2 & ->).
  destruct (cacheConnectTransaction_rep db base _ s u stxos tx u1 cs1 Hs Hr Htx H1) as (s1 & E1 & Hr1).
  destruct (IH s1 u1 ((fun l => l ++ cs1) <$> stxos) cs2 Hr1 H2) as (s2 & E2 & Hr2).
  exists s2. split; [|done]. cbn [foldS]. rewrite E1, E2. do 2 f_equal.
  destruct stxos; cbn; [|done]. by rewrite <- app_assoc.
Qed.

(** ** Writing the cache *)

(** The ledger after one cached entry is written. *)
Definition writeCoin (u : utxo_set) (oe : OutPoint * option UtxoEntry) : utxo_set :=
  match oe.2 with
  | None => delete oe.1 u
  | Some e =>
      match live_entry e with
      | None => delete oe.1 u
      | Some c => if isModified e then <[oe.1 := c]> u else u
      end
  end.

Definition wf_cached (oe : OutPoint * option UtxoEntry) : Prop :=
  wf_outpoint oe.1 /\ forall e, oe.2 = Some e -> IsSpent e = false -> storable (entryStxo e).

Lemma writeCacheEntry_stored u b oe :
  stored u b -> wf_cached oe ->
  exists b', writeCacheEntry b oe = Ok b' /\ stored (writeCoin u oe) b'.
Proof.
  destruct oe as [op [e|]]; intros Hs [Hop He]; unfold writeCacheEntry, writeCoin; cbn [fst snd].
  - unfold live_entry. destruct (IsSpent e) eqn:Es; [eexists; split; [done|]; by apply stored_delete|].
    destruct (isModified e); cbn [negb]; [|by eexists].
    unfold dbPutUtxoEntry. rewrite Es, serializeUtxoEntry_live by done. result_simpl.
    eexists. split; [done|]. apply stored_insert; [done|]. split; [done|]. by apply He.
  - eexists. split; [done|]. by apply stored_delete.
Qed.

Lemma writeCacheEntries_stored l u b :
  stored u b -> Forall wf_cached l ->
  exists b', foldM writeCacheEntry b l = Ok b' /\ stored (foldl writeCoin u l) b'.
Proof.
  intros Hs Hl. revert u b Hs; induction Hl as [|oe l He Hl IH]; intros u b Hs; [by eexists|].
  destruct (writeCacheEntry_stored u b oe Hs He) as (b1 & E1 & H1). cbn [foldM foldl]. rewrite E1. by apply IH.
Qed.

Lemma writeCoin_ne u oe op : op <> oe.1 -> writeCoin u oe !! op = u !! op.
Proof.
  intros Hne. unfold writeCoin. destruct (oe.2) as [e|]; [|by rewrite lookup_delete_ne].
  destruct (live_entry e); [|by rewrite lookup_delete_ne].
  destruct (isModified e); [by rewrite lookup_insert_ne|done].
Qed.

(** Each outpoint is written by its own entry alone, so the order of the maps
    does not matter. *)
Lemma foldl_writeCoin l u op :
  NoDup l.*1 ->
  foldl writeCoin u l !! op
  = match (list_to_map l : gmap OutPoint (option UtxoEntry)) !! op with
    | Some e => writeCoin u (op, e) !! op
    | None => u !! op
    end.
Proof.
  revert u; induction l as [|[op' e] l IH]; intros u; cbn [fmap list_fmap foldl fst]; [done|].
  intros [Hni Hnd]%NoDup_cons. rewrite IH, list_to_map_cons by done.
  apply not_elem_of_list_to_map_1 in Hni. destruct (decide (op = op')) as [->|Hne].
  - by rewrite Hni, lookup_insert_eq.
  - rewrite lookup_insert_ne by done. destruct (list_to_map l !! op) as [e'|]; [|by apply writeCoin_ne].
    unfold writeCoin at 1 3; cbn [fst snd]. destruct e' as [e'|]; [|by rewrite !lookup_delete_eq].
    destruct (live_entry e'); [|by rewrite !lookup_delete_eq].
    destruct (isModified e'); [by rewrite !lookup_insert_eq|by apply writeCoin_ne].
Qed.
Lemma list_to_map_entries maps op :
  (list_to_map (concat (map_to_list <$> maps)) : gmap OutPoint (option UtxoEntry)) !! op = getFrom maps op.
Proof.
  induction maps as [|m maps IH]; cbn [fmap list_fmap concat getFrom]; [done|].
  rewrite list_to_map_app, list_to_map_to_list, lookup_union, IH.
  destruct (m !! op), (getFrom maps op); done.
Qed.

Lemma NoDup_entries maps : uniq maps -> NoDup (concat (map_to_list <$> maps)).*1.
Proof.
  induction maps as [|m maps IH]; cbn [fmap list_fmap concat uniq]; [constructor|]. intros [H1 H2].
  rewrite fmap_app. apply NoDup_app. split; [apply NoDup_fst_map_to_list|]. split; [|by apply IH].
  intros op ([op' e] & -> & Hin%elem_of_map_to_list)%list_elem_of_fmap Hrest. cbn [fst] in *.
  assert (Hn : getFrom maps op' = None) by (apply H1; by exists e).
  rewrite <- list_to_map_entries in Hn. by apply not_elem_of_list_to_map in Hn.
Qed.

(** Writing the cache stores the ledger it stands for, marks the database as
    consistent at the given block, and leaves an empty cache over it. *)
Lemma writeCache_rep db base s u hash now :
  stored base (utxoSetBucket db) -> standsFor base s u ->
  exists db' s', writeCache db s hash now = Ok (db', s') /\ stored u (utxoSetBucket db') /\
    standsFor u s' u /\ dbFetchUtxoStateConsistency db' = Some hash /\ uc_lastFlushHash s' = hash /\
    db' = dbPutUtxoStateConsistency (withUtxoSet db (utxoSetBucket db')) hash /\
    forall op, msGet (uc_cachedEntries s') op = None.
Proof.
  intros Hs Hr. unfold writeCache. set (l := concat _).
  assert (Hget : forall op, (list_to_map l : gmap OutPoint (option UtxoEntry)) !! op
                            = msGet (uc_cachedEntries s) op) by apply list_to_map_entries.
  pose proof (NoDup_entries _ (rep_uniq _ _ _ Hr)) as Hnd. fold l in Hnd.
  assert (Hl : Forall wf_cached l).
  { apply Forall_forall. intros [op oe] Hin. apply (elem_of_list_to_map_1 (M := gmap OutPoint) _ _ _ Hnd) in Hin.
    rewrite Hget in Hin. split; cbn [fst snd]; [apply (rep_key _ _ _ Hr); by eexists|].
    intros e -> He. pose proof (rep_entry _ _ _ Hr op) as Hrep. rewrite Hin in Hrep. destruct Hrep as (Hlive & _).
    unfold live_entry in Hlive. rewrite He in Hlive. symmetry in Hlive. apply (rep_wf _ _ _ Hr op _ Hlive). }
  destruct (writeCacheEntries_stored l base _ Hs Hl) as (b' & -> & Hb'). result_simpl.
  eexists _, _. split; [reflexivity|]. cbn [dbPutUtxoStateConsistency withUtxoSet withMetadata utxoSetBucket].
  assert (Hu : foldl writeCoin base l = u).
  { apply map_eq. intros op. rewrite foldl_writeCoin, Hget by done. pose proof (rep_entry _ _ _ Hr op) as Hrep.
    destruct (msGet _ op) as [[e|]|]; cbn [entry_rep] in Hrep; [| |done].
    - destruct Hrep as (Hlive & Hmod & _). unfold writeCoin; cbn [fst snd]. rewrite <- Hlive in *.
      destruct (live_entry e); [|apply lookup_delete_eq].
      destruct (isModified e); [apply lookup_insert_eq|]. symmetry. by apply Hmod.
    - destruct Hrep as [_ ->]. apply lookup_delete_eq. }
  rewrite Hu in Hb'. destruct (rep_shape _ _ _ Hr) as [Hlen Hne].
  destruct (uc_cachedEntries s) as [[|m maps] [|k ks] mx]; try done. cbn [ms_maps ms_maxEntries fmap list_fmap].
  assert (Hempty : forall op, getFrom [∅ : gmap OutPoint (option UtxoEntry)] op = None)
    by (intros op; cbn [getFrom]; by rewrite lookup_empty).
  split; [done|]. split; [|split; [apply lookup_insert_eq|split; [reflexivity|split; [reflexivity|exact Hempty]]]].
  split; cbn [withFlush withEntries deleteMaps uc_cachedEntries ms_maps ms_maxEntries take]; unfold msGet;
    cbn [ms_maps]; [split; [reflexivity|discriminate]| | |apply Hr|].
  - split; [|done]. intros op. rewrite lookup_empty. by intros [].
  - intros op. rewrite Hempty. by intros [].
  - intros op. by rewrite Hempty.
Qed.

(** A flush of any mode keeps the ledger the pair stands for; a required one
    stores it. *)
Lemma flush_rep db base s u mode hash now :
  stored base (utxoSetBucket db) -> standsFor base s u ->
  exists db' s', flush db s mode hash now = Ok (db', s') /\
    ((db' = db /\ s' = s /\ mode <> FlushRequired) \/
     (stored u (utxoSetBucket db') /\ standsFor u s' u /\ dbFetchUtxoStateConsistency db' = Some hash /\
      uc_lastFlushHash s' = hash /\ db' = dbPutUtxoStateConsistency (withUtxoSet db (utxoSetBucket db')) hash /\
      forall op, msGet (uc_cachedEntries s') op = None)).
Proof.
  intros Hs Hr. destruct (writeCache_rep db base s u hash now Hs Hr) as (db' & s' & E & H).
  assert (Hat : forall t, t = 0 \/ mode <> FlushRequired ->
    exists db' s', (if t <=? totalMemoryUsage s then writeCache db s hash now else Ok (db, s)) = Ok (db', s') /\
      ((db' = db /\ s' = s /\ mode <> FlushRequired) \/
       (stored u (utxoSetBucket db') /\ standsFor u s' u /\ dbFetchUtxoStateConsistency db' = Some hash /\
        uc_lastFlushHash s' = hash /\ db' = dbPutUtxoStateConsistency (withUtxoSet db (utxoSetBucket db')) hash /\
        forall op, msGet (uc_cachedEntries s') op = None))).
  { intros t Ht. destruct (Z.leb_spec t (totalMemoryUsage s)) as [_|Hlt]; [exists db', s'; auto|].
    exists db, s. split; [done|]. left. split_and!; try done. destruct Ht as [->|]; [|done].
    pose proof (u64_range (u64 (msSize (uc_cachedEntries s)) + uc_totalEntryMemory s)).
    unfold totalMemoryUsage in Hlt. widths. lia. }
  unfold flush. destruct mode; cbv zeta.
  - apply Hat. by left.
  - apply Hat. by right.
  - case_bool_decide; [|apply Hat; by right]. exists db, s. split; [done|]. by left.
Qed.

(** ** A view fetched for a block holds the coins the block spends *)

(** No coin of the ledger belongs to a transaction of the block, as BIP 30
    demands. *)
Definition new_ids (u : utxo_set) (txs : list MsgTx) : Prop :=
  forall op c tx, u !! op = Some c -> tx ∈ txs -> Hash op <> TxHash tx.

Lemma AddTxOutsFrom_other view hash cb h i outs op :
  Hash op <> hash -> entries (AddTxOutsFrom view hash cb h i outs) !! op = entries view !! op.
Proof.
  intros Hne. revert view i; induction outs as [|o outs IH]; intros view i; cbn [AddTxOutsFrom]; [done|].
  rewrite IH. unfold addTxOut. destruct (IsUnspendable (PkScript o)); [done|]. cbn [setEntry entries].
  rewrite lookup_insert_ne; [done|]. intros <-. by apply Hne.
Qed.

Lemma txInFlight_hash txs h i : txInFlight txs !! h = Some i -> exists tx, txs !! i = Some tx /\ h = TxHash tx.
Proof.
  unfold txInFlight. set (l := zip _ _).
  assert (Hl : Forall (fun itx => txs !! itx.1 = Some itx.2) l).
  { apply Forall_forall. intros [j tx] [k Hk]%list_elem_of_lookup. unfold l in Hk.
    apply lookup_zip_with_Some in Hk as (j' & tx' & [= <- <-] & Hj & Ht). apply lookup_seq in Hj as [-> _]. done. }
  assert (Hm : forall m : gmap (list Z) nat,
    (forall h i, m !! h = Some i -> exists tx, txs !! i = Some tx /\ h = TxHash tx) ->
    forall h i, foldl (fun m itx => <[TxHash itx.2 := itx.1]> m) m l !! h = Some i ->
                exists tx, txs !! i = Some tx /\ h = TxHash tx); [|apply Hm; intros ? ?; by rewrite lookup_empty].
  induction Hl as [|[j tx] l Hj _ IH]; intros m Hm; cbn [foldl]; [done|]. apply IH. cbn [fst snd] in *.
  intros h' i' [[<- <-]|[_ H]]%lookup_insert_Some; eauto.
Qed.

Lemma newCoinsFrom_hash hash h cb i outs op c :
  (op, c) ∈ newCoinsFrom hash h cb i outs -> Hash op = hash.
Proof.
  revert i; induction outs as [|o outs IH]; intros i; cbn [newCoinsFrom].
  - intros H. by apply not_elem_of_nil in H.
  - intros [H|H]%elem_of_app; [|by eapply IH]. destruct (IsUnspendable (PkScript o)); [by apply not_elem_of_nil in H|].
    apply list_elem_of_singleton in H. by injection H as -> _.
Qed.

Definition createdBy (h : Z) (txs : list MsgTx) (op : OutPoint) : Prop :=
  exists tx, tx ∈ txs /\ op ∈ (newCoins h tx).*1.

(** The view has, unspent, every coin of the ledger that [ops] will ask for. *)
Definition covers (view : UtxoViewpoint) (u : utxo_set) (ops : list OutPoint) : Prop :=
  forall op c, op ∈ ops -> u !! op = Some c ->
  exists e, entries view !! op = Some e /\ live_entry e = Some c.

(** [overlay X v view u]: the view, laid over the ledger [v] of the cache, shows
    the ledger [u] except on the outpoints of [X]. *)
Definition overlay (X : OutPoint -> Prop) (v : utxo_set) (view : UtxoViewpoint) (u : utxo_set) : Prop :=
  forall op, ~ X op -> coins v view !! op = u !! op.

(** The view alone, with nothing excepted. *)
Definition shows (v : utxo_set) (view : UtxoViewpoint) (u : utxo_set) : Prop := overlay (fun _ => False) v view u.

Lemma overlay_weaken (X Y : OutPoint -> Prop) v view u :
  (forall op, X op -> Y op) -> overlay X v view u -> overlay Y v view u.
Proof. intros HXY H op Hop. apply H. intros HX. by apply Hop, HXY. Qed.

Lemma shows_new v hash : shows v (SetBestHash NewUtxoViewpoint hash) v.
Proof. intros op _. rewrite lookup_coins. cbn [SetBestHash entries NewUtxoViewpoint]. by rewrite lookup_empty. Qed.

Lemma overlay_set X v view u op e :
  overlay (fun op' => X op' \/ op' = op) v view u ->
  overlay X v (setEntry view op e) (match live_entry e with Some c => <[op := c]> u | None => delete op u end).
Proof.
  intros H op' Hop'. rewrite lookup_coins. cbn [setEntry entries]. destruct (decide (op' = op)) as [->|Hne].
  - rewrite lookup_insert_eq. destruct (live_entry e); [by rewrite lookup_insert_eq|by rewrite lookup_delete_eq].
  - rewrite lookup_insert_ne by done. rewrite <- lookup_coins, H by tauto.
    destruct (live_entry e); [by rewrite lookup_insert_ne|by rewrite lookup_delete_ne].
Qed.

Lemma AddTxOutsFrom_overlay X v hash cb h i outs view u u' :
  overlay (fun op => X op \/ op ∈ (newCoinsFrom hash h cb i outs).*1) v view u ->
  addCoins u (newCoinsFrom hash h cb i outs) = Some u' ->
  overlay X v (AddTxOutsFrom view hash cb h i outs) u'.
Proof.
  revert view u i; induction outs as [|o outs IH]; intros view u i Ho; cbn [newCoinsFrom AddTxOutsFrom] in *.
  { intros [= <-]. revert Ho. apply overlay_weaken. intros op [H|H]; [done|]. by apply not_elem_of_nil in H. }
  unfold addTxOut. destruct (IsUnspendable (PkScript o)); [by apply IH|]. cbn [app addCoins].
  destruct (u !! txOutPoint hash i) eqn:Hu; [done|]. apply IH.
  set (e := mkUtxoEntry _ _ _ _). set (c := mkSpentTxOut _ _ _ _).
  assert (Hl : live_entry e = Some c) by apply fresh_flags_entry.
  pose proof (overlay_set (fun op => X op \/ op ∈ (newCoinsFrom hash h cb (S i) outs).*1) v view u (txOutPoint hash i) e) as H.
  rewrite Hl in H. apply H. revert Ho. apply overlay_weaken. cbn [app fmap list_fmap fst].
  intros op [HX|Hin]; [tauto|]. apply elem_of_cons in Hin as [->|Hin]; tauto.
Qed.

(** Loading the outputs of a transaction of the block. *)
Lemma AddTxOutsFrom_excepted X v hash cb h i outs view u :
  (forall op, op ∈ (newCoinsFrom hash h cb i outs).*1 -> X op) ->
  overlay X v view u -> overlay X v (AddTxOutsFrom view hash cb h i outs) u.
Proof.
  revert view i; induction outs as [|o outs IH]; intros view i HX Ho; cbn [newCoinsFrom AddTxOutsFrom] in *; [done|].
  unfold addTxOut. destruct (IsUnspendable (PkScript o)); [by apply IH|]. cbn [app fmap list_fmap fst] in HX.
  apply IH; [intros op Hop; apply HX; by right|]. intros op Hop. rewrite lookup_coins. cbn [setEntry entries].
  rewrite lookup_insert_ne; [by rewrite <- lookup_coins; apply Ho|]. intros <-. apply Hop, HX. left.
Qed.

Lemma spendInputs_overlay X v ops view u stxos view' stxos' u' cs :
  overlay X v view u -> foldM spendInput (view, stxos) ops = Ok (view', stxos') -> spendCoins u ops = Some (u', cs) ->
  overlay X v view' u'.
Proof.
  revert view u stxos cs; induction ops as [|op ops IH]; intros view u stxos cs Ho; cbn [spendCoins foldM].
  { by intros [= <- <-] [= <- <-]. }
  destruct (spendInput (view, stxos) op) as [[view1 st1]|] eqn:E; result_simpl; [|done]. intros HM.
  destruct (u !! op) as [c|] eqn:Hu; cbn [mbind option_bind]; [|done].
  destruct (spendCoins (delete op u) ops) as [[u1 cs1]|] eqn:E1; cbn [mbind option_bind]; [|done].
  intros [= <- <-]. apply (IH view1 (delete op u) st1 cs1); [|done|done]. unfold spendInput in E.
  destruct (entries view !! op) as [e|] eqn:Ee; [|done]. injection E as <- <-.
  pose proof (overlay_set X v view u op (Spend e)) as H. unfold live_entry in H at 1. rewrite Spend_spent in H.
  apply H. revert Ho. apply overlay_weaken. tauto.
Qed.

Lemma connectTransaction_overlay h tx rest v view u stxos view' stxos' u' cs :
  overlay (createdBy h (tx :: rest)) v view u -> connectTransaction view tx h stxos = Ok (view', stxos') ->
  applyTx h u tx = Some (u', cs) -> overlay (createdBy h rest) v view' u'.
Proof.
  intros Ho E Happ.
  assert (Hw : forall w x, overlay (createdBy h (tx :: rest)) v w x ->
                 overlay (fun op => createdBy h rest op \/ op ∈ (newCoins h tx).*1) v w x).
  { intros w x. apply overlay_weaken. intros op (tx' & [->|Hin]%elem_of_cons & Hop); [by right|]. left. by exists tx'. }
  unfold applyTx, connectTransaction in *. destruct (IsCoinBaseTx tx); cbn [mbind option_bind] in Happ.
  - destruct (addCoins u (newCoins h tx)) as [u2|] eqn:E2; [|done]. cbn in Happ. injection Happ as -> <-.
    injection E as <- <-. apply (AddTxOutsFrom_overlay _ _ _ _ _ _ _ _ u); [by apply Hw|exact E2].
  - destruct (spendCoins u (prevOuts tx)) as [[u3 cs3]|] eqn:E3; cbn [mbind option_bind] in Happ; [|done].
    destruct (addCoins u3 (newCoins h tx)) as [u2|] eqn:E2; [|done]. cbn in Happ. injection Happ as -> <-.
    destruct (foldM spendInput (view, stxos) (prevOuts tx)) as [[view3 st3]|] eqn:EM; result_simpl; [|done].
    injection E as <- <-. apply (AddTxOutsFrom_overlay _ _ _ _ _ _ _ _ u3); [|exact E2]. apply Hw.
    by apply (spendInputs_overlay _ _ _ _ u _ _ _ _ cs3 Ho EM).
Qed.

Lemma connectTxs_overlay h txs v view u stxos view' stxos' u' cs :
  overlay (createdBy h txs) v view u ->
  foldM (fun st tx => connectTransaction st.1 tx h st.2) (view, stxos) txs = Ok (view', stxos') ->
  applyTxs h u txs = Some (u', cs) -> shows v view' u'.
Proof.
  revert view u stxos cs; induction txs as [|tx txs IH]; intros view u stxos cs Ho; cbn [foldM].
  { intros [= <- <-] H. cbn in H. simplify_eq. revert Ho. apply overlay_weaken.
    intros op (tx & Hin & _). by apply not_elem_of_nil in Hin. }
  cbn [fst snd]. destruct (connectTransaction view tx h stxos) as [[view1 st1]|] eqn:E1; result_simpl; [|done].
  intros E H. apply applyTxs_cons in H as (u1 & cs1 & cs2 & H1 & H2 & ->).
  apply (IH view1 u1 st1 cs2); [|done|done]. by apply (connectTransaction_overlay h tx txs v view u stxos view1 st1 u1 cs1).
Qed.

(** An invariant of the walk over the inputs, with the inputs seen. *)
Lemma findInputsToFetch_ind block (P : list OutPoint -> UtxoViewpoint * list OutPoint -> Prop) view :
  (forall i seen st tx op, tx ∈ Transactions block -> op ∈ prevOuts tx -> P seen st ->
     P (op :: seen) (inputToFetch block i st op)) ->
  P [] (view, []) -> P (reverse (concat (map prevOuts (drop 1 (Transactions block))))) (findInputsToFetch view block).
Proof.
  intros Hstep H0. unfold findInputsToFetch.
  assert (Hrest : forall tx, tx ∈ drop 1 (Transactions block) -> tx ∈ Transactions block).
  { intros tx Htx. rewrite <- (take_drop 1 (Transactions block)). apply elem_of_app. by right. }
  revert Hrest. generalize (drop 1 (Transactions block)). intros rest Hrest.
  assert (Hall : forall j seen st, P seen st ->
    P (reverse (concat (map prevOuts rest)) ++ seen)
      (foldl (fun st itx => foldl (inputToFetch block itx.1) st (prevOuts itx.2)) st (zip (seq j (length rest)) rest))).
  { induction rest as [|tx rest IH]; intros j seen st H; cbn [map concat length seq zip_with foldl fst snd]; [done|].
    rewrite reverse_app, <- app_assoc. apply IH; [intros tx' Htx'; apply Hrest; by right|]. clear IH.
    assert (Hops : forall op, op ∈ prevOuts tx -> op ∈ prevOuts tx) by done. revert Hops. revert seen st H.
    generalize (prevOuts tx) at 1 3 4. intros ops. induction ops as [|op ops IH]; intros seen st H Hops; cbn [foldl]; [done|].
    rewrite reverse_cons, <- app_assoc. apply IH; [|intros op' Hop'; apply Hops; by right].
    apply (Hstep _ _ _ tx); [apply Hrest; left|apply Hops; left|done]. }
  rewrite <- (app_nil_r (reverse _)). by apply Hall.
Qed.

Lemma foldl_alter_lookup (f : OutPoint -> option UtxoEntry) ops m op :
  foldl (fun es oe => partial_alter (fun _ => oe.2) oe.1 es) m (zip ops (f <$> ops)) !! op
  = if decide (op ∈ ops) then f op else (m : gmap OutPoint UtxoEntry) !! op.
Proof.
  revert m; induction ops as [|op' ops IH]; intros m; cbn [fmap list_fmap zip_with foldl].
  { by rewrite decide_False by apply not_elem_of_nil. }
  rewrite IH. cbn [fst snd]. destruct (decide (op ∈ ops)); [by rewrite decide_True by (by right)|].
  destruct (decide (op = op')) as [->|Hne].
  - rewrite lookup_partial_alter_eq. by rewrite decide_True by left.
  - rewrite lookup_partial_alter_ne by done. rewrite decide_False; [done|]. by intros [?|?]%elem_of_cons.
Qed.

(** What a view holds after it was filled from the cache: at the outpoints asked
    for, the coins of the cache's ledger; elsewhere, what it held. *)
Lemma fetchUtxosFromCache_fills db base s v view ops :
  stored base (utxoSetBucket db) -> standsFor base s v -> Forall wf_outpoint ops ->
  exists view' s', fetchUtxosFromCache db s view ops = Ok (view', s') /\ standsFor base s' v /\
    bestHash view' = bestHash view /\
    (forall op, op ∈ ops -> live view' !! op = v !! op) /\
    (forall op, op ∉ ops -> entries view' !! op = entries view !! op).
Proof using codec_ok.
  intros Hs Hr Hwf. unfold fetchUtxosFromCache. destruct ops as [|n0 ops'].
  { exists view, s. split_and!; try done. intros op H. by apply not_elem_of_nil in H. }
  remember (n0 :: ops') as ops eqn:En. clear En.
  destruct (fetchEntries_rep db base s v ops Hs Hr Hwf) as (es & s' & -> & Hr' & Hf). result_simpl.
  set (f op := default None (msGet (uc_cachedEntries s') op)).
  assert (es = f <$> ops) as ->.
  { clear -Hf. induction Hf as [|op e l l' H _ IH]; [done|]. cbn [fmap list_fmap]. unfold f at 1. by rewrite H, IH. }
  eexists _, s'. split; [reflexivity|]. split; [done|]. split; [done|]. unfold live. cbn [entries]. split; intros op Hi.
  - rewrite lookup_omap, foldl_alter_lookup, decide_True by done.
    apply list_elem_of_lookup in Hi as [k Hk]. destruct (Forall2_lookup_l _ _ _ _ _ Hf Hk) as (e & _ & He).
    unfold f. rewrite He. cbn [default from_option id]. pose proof (rep_entry _ _ _ Hr' op) as Hrep. rewrite He in Hrep.
    destruct e as [e|]; cbn [mbind option_bind]; [by apply Hrep|symmetry; apply Hrep].
  - by rewrite foldl_alter_lookup, decide_False.
Qed.

(** Filling a view where it has no entry changes none of the coins it shows. *)
Lemma filled_overlay (X : OutPoint -> Prop) v view view' u (ops : list OutPoint) :
  overlay X v view u -> (forall op, op ∈ ops -> entries view !! op = None \/ X op) ->
  (forall op, op ∈ ops -> live view' !! op = v !! op) ->
  (forall op, op ∉ ops -> entries view' !! op = entries view !! op) -> overlay X v view' u.
Proof.
  intros Ho Hmiss Hin Hout op Hop. rewrite <- Ho by done. rewrite !lookup_coins.
  destruct (decide (op ∈ ops)) as [Hi|Hi]; [|by rewrite Hout].
  destruct (Hmiss op Hi) as [->|]; [|done]. pose proof (Hin op Hi) as H. unfold live in H. rewrite lookup_omap in H.
  by destruct (entries view' !! op).
Qed.

Section fetch.
Context (block : Block) (u v : utxo_set).
Context (Hin : Forall (fun tx => Forall wf_outpoint (prevOuts tx)) (Transactions block)).

Definition blockCreates (op : OutPoint) : Prop := createdBy (Height block) (Transactions block) op.

(** While the inputs are collected: those seen are in the view, will be fetched,
    or belong to the block. *)
Record collects (seen : list OutPoint) (st : UtxoViewpoint * list OutPoint) : Prop := {
  co_overlay : overlay blockCreates v st.1 u;
  co_seen : forall op, op ∈ seen -> is_Some (entries st.1 !! op) \/ op ∈ st.2 \/
              exists tx, tx ∈ Transactions block /\ Hash op = TxHash tx;
  co_missing : forall op, op ∈ st.2 -> entries st.1 !! op = None \/ blockCreates op;
  co_wf : Forall wf_outpoint st.2 }.

Lemma AddTxOutsFrom_keeps view hash cb h i outs op :
  is_Some (entries view !! op) -> is_Some (entries (AddTxOutsFrom view hash cb h i outs) !! op).
Proof.
  revert view i; induction outs as [|o outs IH]; intros view i H; cbn [AddTxOutsFrom]; [done|]. apply IH.
  unfold addTxOut. destruct (IsUnspendable (PkScript o)); [done|]. cbn [setEntry entries]. apply lookup_insert_is_Some'. by right.
Qed.

Lemma AddTxOutsFrom_new view hash cb h i outs op :
  op ∉ (newCoinsFrom hash h cb i outs).*1 -> entries (AddTxOutsFrom view hash cb h i outs) !! op = entries view !! op.
Proof.
  revert view i; induction outs as [|o outs IH]; intros view i H; cbn [AddTxOutsFrom newCoinsFrom] in *; [done|].
  unfold addTxOut. destruct (IsUnspendable (PkScript o)); [by apply IH|]. cbn [app fmap list_fmap fst] in H.
  apply not_elem_of_cons in H as [H1 H2]. rewrite IH by done. cbn [setEntry entries]. by rewrite lookup_insert_ne.
Qed.

Lemma inputToFetch_collects i seen st op :
  wf_outpoint op -> collects seen st -> collects (op :: seen) (inputToFetch block i st op).
Proof.
  destruct st as [view needed]. intros Hop [Ho Hs Hm Hw]. cbn [fst snd] in *.
  assert (Hfetch : collects (op :: seen)
                     match entries view !! op with Some _ => (view, needed) | None => (view, needed ++ [op]) end).
  { destruct (entries view !! op) eqn:E; split; cbn [fst snd]; try done.
    - intros op' [->|Hi]%elem_of_cons; [left; by eexists|by apply Hs].
    - intros op' [->|Hi]%elem_of_cons; [right; left; apply elem_of_app; right; left|].
      destruct (Hs op' Hi) as [?|[?|?]]; [by left|right; left; apply elem_of_app; by left|by right; right].
    - intros op' [Hi|Hi]%elem_of_app; [by apply Hm|]. apply list_elem_of_singleton in Hi as ->. by left.
    - apply Forall_app. split; [done|]. by constructor. }
  unfold inputToFetch. destruct (txInFlight _ !! Hash op) as [k|] eqn:Ek; [|exact Hfetch].
  destruct (k <=? i)%nat; [|exact Hfetch]. apply txInFlight_hash in Ek as (tx & Htx & Hh). rewrite Htx.
  apply list_elem_of_lookup_2 in Htx. split; cbn [fst snd]; try done.
  - apply AddTxOutsFrom_excepted; [|done]. intros op' Hop'. by exists tx.
  - intros op' [->|Hi]%elem_of_cons; [right; right; by exists tx|].
    destruct (Hs op' Hi) as [?|[?|?]]; [left; by apply AddTxOutsFrom_keeps|by right; left|by right; right].
  - intros op' Hi. destruct (Hm op' Hi) as [Hn|]; [|by right]. unfold AddTxOuts.
    destruct (decide (op' ∈ (newCoins (Height block) tx).*1)) as [Hc|Hc]; [right; by exists tx|left].
    by rewrite AddTxOutsFrom_new.
Qed.

Lemma findInputsToFetch_collects view :
  overlay blockCreates v view u ->
  collects (reverse (concat (map prevOuts (drop 1 (Transactions block))))) (findInputsToFetch view block).
Proof using Hin.
  intros Ho. apply findInputsToFetch_ind.
  - intros i seen st tx op Htx Hop. apply inputToFetch_collects. rewrite Forall_forall in Hin.
    specialize (Hin tx Htx). rewrite Forall_forall in Hin. by apply Hin.
  - split; cbn [fst snd]; try done; intros op H; by apply not_elem_of_nil in H.
Qed.

(** A view in which the collected inputs are filled in has an entry for every coin
    of the ledger that the block spends. *)
Lemma collects_covers seen view1 needed view2 :
  collects seen (view1, needed) -> overlay blockCreates v view2 u ->
  (forall op, op ∉ needed -> entries view2 !! op = entries view1 !! op) ->
  (forall op c, op ∈ needed -> u !! op = Some c -> ~ blockCreates op -> is_Some (entries view2 !! op)) ->
  new_ids u (Transactions block) -> covers view2 u seen.
Proof.
  intros [_ Hseen _ _] Ho2 Hout2 Hin2 Hids op c Hop Hc. cbn [fst snd] in Hseen.
  assert (Hnc : ~ blockCreates op).
  { intros (tx & Htx & Hop'). apply list_elem_of_fmap in Hop' as ([op' c'] & -> & Hoc). cbn [fst] in *.
    apply newCoinsFrom_hash in Hoc. by apply (Hids op' c tx Hc Htx). }
  assert (is_Some (entries view2 !! op)) as [e He].
  { destruct (decide (op ∈ needed)) as [Hi|Hi]; [by eapply Hin2|]. rewrite Hout2 by done.
    destruct (Hseen op Hop) as [H|[H|(tx & Htx & E)]]; [done|done|]. by destruct (Hids op c tx Hc Htx). }
  exists e. split; [done|]. pose proof (Ho2 op Hnc) as H. by rewrite lookup_coins, He, Hc in H.
Qed.

(** The fetched view shows the same ledger and has an entry for every coin of the
    ledger that the block spends. *)
Lemma fetchInputUtxos_overlay db base s view :
  stored base (utxoSetBucket db) -> standsFor base s v -> shows v view u ->
  exists view1 s1, fetchInputUtxos db s view block = Ok (view1, s1) /\ standsFor base s1 v /\
    overlay blockCreates v view1 u /\
    (new_ids u (Transactions block) ->
     covers view1 u (reverse (concat (map prevOuts (drop 1 (Transactions block)))))).
Proof using Hin codec_ok.
  intros Hs Hr Ho. apply (overlay_weaken _ blockCreates) in Ho; [|done].
  pose proof (findInputsToFetch_collects view Ho) as Hco. unfold fetchInputUtxos.
  destruct (findInputsToFetch view block) as [view1 needed]. pose proof Hco as [Ho1 _ Hmiss Hwf]. cbn [fst snd] in *.
  destruct (fetchUtxosFromCache_fills db base s v view1 needed Hs Hr Hwf) as (view2 & s2 & -> & Hr2 & _ & Hfill & Hkeep).
  exists view2, s2. split; [done|]. split; [done|].
  pose proof (filled_overlay _ _ _ _ _ _ Ho1 Hmiss Hfill Hkeep) as Ho2. split; [exact Ho2|].
  apply (collects_covers _ _ _ _ Hco); [exact Ho2|exact Hkeep|]. intros op c Hi Hc Hnc.
  pose proof (Ho1 op Hnc) as H. rewrite lookup_coins in H. destruct (Hmiss op Hi) as [Hn|]; [|done]. rewrite Hn in H.
  pose proof (Hfill op Hi) as Hfo. rewrite H, Hc in Hfo. apply live_Some in Hfo as (e & He & _). by eexists.
Qed.
End fetch.

Lemma AddTxOutsFrom_covers view u hash cb h i outs u' ops :
  covers view u ops -> addCoins u (newCoinsFrom hash h cb i outs) = Some u' ->
  covers (AddTxOutsFrom view hash cb h i outs) u' ops.
Proof.
  revert view u i; induction outs as [|o outs IH]; intros view u i Hc; cbn [newCoinsFrom AddTxOutsFrom].
  { by intros [= <-]. }
  unfold addTxOut. destruct (IsUnspendable (PkScript o)); [by apply IH|]. cbn [app addCoins].
  destruct (u !! txOutPoint hash i) eqn:Hu; [done|]. apply IH. intros op c Hin. cbn [setEntry entries].
  destruct (decide (op = txOutPoint hash i)) as [->|Hne].
  - rewrite !lookup_insert_eq. intros [= <-]. eexists. split; [done|]. apply fresh_flags_entry.
  - rewrite !lookup_insert_ne by done. by apply Hc.
Qed.

Lemma AddTxOuts_covers view u h tx u' ops :
  covers view u ops -> addCoins u (newCoins h tx) = Some u' -> covers (AddTxOuts view tx h) u' ops.
Proof. apply AddTxOutsFrom_covers. Qed.

Lemma spendInputs_covers ops more view u stxos u' cs :
  covers view u (ops ++ more) -> spendCoins u ops = Some (u', cs) ->
  exists view', foldM spendInput (view, stxos) ops = Ok (view', stxos ++ cs) /\ covers view' u' more.
Proof.
  revert view u stxos cs; induction ops as [|op ops IH]; intros view u stxos cs Hc; cbn [spendCoins foldM].
  { intros [= <- <-]. exists view. by rewrite app_nil_r. }
  destruct (u !! op) as [c|] eqn:Hu; cbn [mbind option_bind]; [|done].
  destruct (spendCoins (delete op u) ops) as [[u1 cs1]|] eqn:E; cbn [mbind option_bind]; [|done].
  intros [= <- <-]. destruct (Hc op c ltac:(left) Hu) as (e & He & Hl).
  assert (E0 : spendInput (view, stxos) op = Ok (setEntry view op (Spend e), stxos ++ [entryStxo e]))
    by (unfold spendInput; by rewrite He). rewrite E0.
  result_simpl. assert (entryStxo e = c) as -> by (unfold live_entry in Hl; by destruct (IsSpent e); simplify_eq).
  destruct (IH (setEntry view op (Spend e)) (delete op u) (stxos ++ [c]) cs1) as (view' & E' & Hc'); [|done|].
  - intros op' c' Hin. destruct (decide (op' = op)) as [->|Hne]; [by rewrite lookup_delete_eq|].
    rewrite lookup_delete_ne by done. cbn [setEntry entries]. rewrite lookup_insert_ne by done. apply Hc. by right.
  - exists view'. split; [|done]. by rewrite E', <- app_assoc.
Qed.

Definition spentBy (tx : MsgTx) : list OutPoint := if IsCoinBaseTx tx then [] else prevOuts tx.

Lemma connectTransaction_covers h tx more view u stxos u' cs :
  covers view u (spentBy tx ++ more) -> applyTx h u tx = Some (u', cs) ->
  exists view', connectTransaction view tx h stxos = Ok (view', stxos ++ cs) /\ covers view' u' more.
Proof.
  unfold applyTx, connectTransaction, spentBy. intros Hc H. destruct (IsCoinBaseTx tx); cbn [mbind option_bind] in H.
  - destruct (addCoins u (newCoins h tx)) as [u2|] eqn:E; [|done]. cbn in H. injection H as -> <-.
    rewrite app_nil_r. eexists. split; [reflexivity|]. by eapply AddTxOuts_covers.
  - destruct (spendCoins u (prevOuts tx)) as [[u3 cs3]|] eqn:E3; cbn [mbind option_bind] in H; [|done].
    destruct (addCoins u3 (newCoins h tx)) as [u2|] eqn:E; [|done]. cbn in H. injection H as -> <-.
    destruct (spendInputs_covers _ _ view u stxos _ _ Hc E3) as (view3 & -> & Hc3). result_simpl.
    eexists. split; [reflexivity|]. by eapply AddTxOuts_covers.
Qed.

Lemma connectTxs_covers h txs view u stxos u' cs :
  covers view u (concat (map spentBy txs)) -> applyTxs h u txs = Some (u', cs) ->
  exists view', foldM (fun st tx => connectTransaction st.1 tx h st.2) (view, stxos) txs = Ok (view', stxos ++ cs).
Proof.
  revert view u stxos cs; induction txs as [|tx txs IH]; intros view u stxos cs Hc H.
  { cbn in H. simplify_eq. exists view. cbn [foldM]. by rewrite app_nil_r. }
  apply applyTxs_cons in H as (u1 & cs1 & cs2 & H1 & H2 & ->). cbn [map concat] in Hc.
  destruct (connectTransaction_covers h tx _ view u stxos u1 cs1 Hc H1) as (view1 & E1 & Hc1).
  destruct (IH view1 u1 (stxos ++ cs1) cs2 Hc1 H2) as (view' & E). exists view'.
  cbn [foldM fst snd]. rewrite E1. result_simpl. rewrite E. by rewrite app_assoc.
Qed.

Lemma spentBy_block txs :
  block_shape txs -> concat (map spentBy txs) = concat (map prevOuts (drop 1 txs)).
Proof.
  destruct txs as [|cb rest]; [done|]. intros [Hcb Hrest]. cbn [map concat drop]. unfold spentBy at 1. rewrite Hcb.
  cbn [app]. f_equal. induction Hrest as [|tx rest Htx _ IH]; [done|]. cbn [map]. rewrite IH. f_equal.
  unfold spentBy. by rewrite Htx.
Qed.

Lemma may_create_block base h txs :
  0 <= h < 2^31 -> wf_outputs txs -> new_ids base txs ->
  Forall (fun tx => Forall (may_create base) (newCoins h tx)) txs.
Proof.
  intros Hh Ho Hids. apply Forall_forall. intros tx Htx. unfold wf_outputs in Ho. rewrite Forall_forall in Ho.
  pose proof (newCoinsFrom_wf (TxHash tx) h (IsCoinBaseTx tx) 0 (TxOuts tx) (length_DoubleHashB _) Hh (Ho tx Htx)) as Hn.
  assert (Hhash : forall i outs, Forall (fun oc => Hash oc.1 = TxHash tx)
                                   (newCoinsFrom (TxHash tx) h (IsCoinBaseTx tx) i outs)).
  { intros i outs. revert i; induction outs as [|o outs IH]; intros i; cbn [newCoinsFrom]; [constructor|].
    destruct (IsUnspendable (PkScript o)); [apply IH|]. constructor; [done|apply IH]. }
  unfold newCoins. specialize (Hhash 0%nat (TxOuts tx)). rewrite Forall_forall in Hhash, Hn. apply Forall_forall.
  intros oc Hin. split; [by apply Hn|]. destruct (base !! oc.1) as [c|] eqn:E; [|done].
  destruct (Hids _ _ _ E Htx). by apply Hhash.
Qed.

(** Fetching the inputs of a block only reads through the cache. *)
Lemma fetchInputUtxos_reads block db base s v view :
  Forall (fun tx => Forall wf_outpoint (prevOuts tx)) (Transactions block) ->
  stored base (utxoSetBucket db) -> standsFor base s v ->
  exists view1 s1, fetchInputUtxos db s view block = Ok (view1, s1) /\ standsFor base s1 v.
Proof.
  intros Hin Hs Hr.
  destruct (fetchInputUtxos_overlay block (coins v view) v Hin db base s view Hs Hr) as (view1 & s1 & E & Hr1 & _); [done|].
  by exists view1, s1.
Qed.

Lemma fetchInputUtxos_connects db base s v view u block u' cs :
  stored base (utxoSetBucket db) -> standsFor base s v -> shows v view u -> new_ids u (Transactions block) ->
  block_shape (Transactions block) ->
  Forall (fun tx => Forall wf_outpoint (prevOuts tx)) (Transactions block) ->
  applyTxs (Height block) u (Transactions block) = Some (u', cs) ->
  exists view1 s' view', fetchInputUtxos db s view block = Ok (view1, s') /\ standsFor base s' v /\
    connectTransactions view1 block [] = Ok (view', cs) /\ shows v view' u'.
Proof.
  intros Hs Hr Hv Hids Hsh Hops Happ.
  destruct (fetchInputUtxos_overlay block u v Hops db base s view Hs Hr Hv) as (view1 & s' & E & Hr' & Ho & Hc).
  assert (Hc1 : covers view1 u (concat (map spentBy (Transactions block)))).
  { intros op c Hop. apply (Hc Hids). by rewrite elem_of_reverse, <- (spentBy_block _ Hsh). }
  destruct (connectTxs_covers _ _ view1 u [] u' cs Hc1 Happ) as [view2 E2].
  exists view1, s', (SetBestHash view2 (Block_Hash block)). split; [done|]. split; [done|].
  unfold connectTransactions. rewrite E2. split; [done|].
  exact (connectTxs_overlay _ _ _ _ _ _ _ _ _ _ Ho E2 Happ).
Qed.

(** Reading through the cache reads the ledger. *)
Lemma FetchUtxoEntry_rep db base s u op :
  stored base (utxoSetBucket db) -> standsFor base s u -> wf_outpoint op ->
  exists e s', FetchUtxoEntry db s op = Ok (e, s') /\ (e ≫= live_entry) = u !! op.
Proof.
  intros Hs Hr Hop. unfold FetchUtxoEntry.
  destruct (fetchEntries_rep db base s u [op] Hs Hr (proj2 (Forall_singleton _ _) Hop)) as (es & s' & -> & Hr' & Hf).
  result_simpl. apply Forall2_cons_inv_l in Hf as (e & es' & He & _ & ->). exists e, s'. split; [done|].
  pose proof (rep_entry _ _ _ Hr' op) as Hrep. rewrite He in Hrep. destruct e as [e|]; [apply Hrep|]. by destruct Hrep.
Qed.

(** ** Properties *)

(** C20: a UTXO cache is the ledger, for connecting, reading and flushing. A cache
    over a stored ledger that stands for the ledger [u] connects a block that
    applies to [u], hands back exactly the coins the block spent, and after a
    flush of any mode the database and the cache together stand for the ledger
    after the block: every later read of an outpoint answers with its coin or
    with no unspent entry. A required flush stores that ledger and marks the
    database consistent at the given block. The block must create no outpoint of
    a transaction the database already has coins of. *)
Theorem cache_refines_ledger db base s u block u' cs :
  stored base (utxoSetBucket db) -> standsFor base s u -> 0 <= Height block < 2^31 ->
  wf_outputs (Transactions block) -> new_ids base (Transactions block) ->
  applyTxs (Height block) u (Transactions block) = Some (u', cs) ->
  exists s1, cacheConnectTransactions db s block (Some []) = ((s1, Some cs), Ok tt) /\
  forall mode hash now, exists db2 base2 s2,
    flush db s1 mode hash now = Ok (db2, s2) /\ stored base2 (utxoSetBucket db2) /\ standsFor base2 s2 u' /\
    (mode = FlushRequired -> base2 = u' /\ dbFetchUtxoStateConsistency db2 = Some hash) /\
    forall op, wf_outpoint op ->
      exists e s3, FetchUtxoEntry db2 s2 op = Ok (e, s3) /\ (e ≫= live_entry) = u' !! op.
Proof.
  intros Hs Hr Hh Ho Hids Happ. pose proof (may_create_block base _ _ Hh Ho Hids) as Hm.
  destruct (cacheConnectTransactions_rep db base s u block (Some []) u' cs Hs Hr Hm Happ) as (s1 & E1 & Hr1).
  exists s1. split; [exact E1|]. intros mode hash now.
  destruct (flush_rep db base s1 u' mode hash now Hs Hr1) as (db2 & s2 & E2 & H2).
  destruct H2 as [(-> & -> & Hne)|(H1 & H2 & H3 & _)].
  - exists db, base, s1. split_and!; try done. intros op Hop. by apply (FetchUtxoEntry_rep db base).
  - exists db2, u', s2. split_and!; try done. intros op Hop. by apply (FetchUtxoEntry_rep db2 u').
Qed.

End refinement.

(** ** Witnesses *)

#[local] Existing Instances bitCodec bitCodec_recovers.

Lemma sampleView_ids : new_ids (live sampleView) (Transactions sampleBlock).
Proof.
  intros op c tx Hop Htx. rewrite sampleView_live in Hop. apply lookup_singleton_Some in Hop as [<- _]. cbn [Hash].
  apply elem_of_cons in Htx as [->|Htx]; [vm_compute; discriminate|].
  apply list_elem_of_singleton in Htx as ->. vm_compute. discriminate.
Qed.

Lemma cache_refines_ledger_witness :
  exists u cs s1, sampleApplied = Some (u, cs) /\
    cacheConnectTransactions (sampleDB (live sampleView)) (newUtxoCache (2^27)) sampleBlock (Some []) = ((s1, Some cs), Ok tt) /\
    exists db2 s2, flush (sampleDB (live sampleView)) s1 FlushRequired (Block_Hash sampleBlock) 0 = Ok (db2, s2) /\
                   stored u (utxoSetBucket db2).
Proof.
  pose proof sampleApplied_journal as Hcs. destruct sampleApplied as [[u cs]|] eqn:E; [|destruct Hcs].
  destruct (cache_refines_ledger (sampleDB (live sampleView)) (live sampleView) (newUtxoCache (2^27)) (live sampleView)
              sampleBlock u cs (stored_storeLedger _ sampleView_wf) (standsFor_new _ _ sampleView_wf)
              ltac:(split; [discriminate|reflexivity]) sampleBlock_outputs sampleView_ids E) as (s1 & E1 & Hf).
  destruct (Hf FlushRequired (Block_Hash sampleBlock) 0) as (db2 & base2 & s2 & H1 & H2 & _ & H3 & _).
  destruct (H3 eq_refl) as [Hb _]. rewrite Hb in H2.
  exists u, cs, s1. split; [reflexivity|]. split; [exact E1|]. exists db2, s2. exact (conj H1 H2).
Defined.

(** The hypothesis that a block creates no outpoint of the database is needed:
    [cacheAddTxOut] marks every output fresh, so an outpoint whose deletion is
    still pending, created again and spent again before a flush, is dropped from
    the cache and its old coin stays in the database. *)
Definition spendAgain : result chainio_error (option UtxoEntry) :=
  let db := sampleDB (live sampleView) in
  let op := mkOutPoint (replicate 32 7) 1 in
  let s1 := (addTxIn db (newUtxoCache (2^27), None) op).1.1 in
  let s2 := (addTxIn db (cacheAddTxOut s1 op (mkTxOut 500 [83]) false 120, None) op).1.1 in
  '(db', _) ← flush db s2 FlushRequired zeroHash 0;
  dbFetchUtxoEntry db' op.

Lemma spent_coin_stays_stored : spendAgain = Ok (Some (mkUtxoEntry 1000 [83] 90 0)).
Proof. vm_compute. reflexivity. Qed.
