(* ===== verification/ChainView.v ===== *)
(** * The flat view of a branch

    Models src/blockchain/chainview.go: the slice of nodes from the genesis block
    to the tip, switching its tip, lookups, the fork point with another branch and
    block locators; and the lookups of chain.go that are answered from it
    ([HeightRange], [locateInventory], [locateBlocks], [locateHeaders]).

    A view is a list of nodes, nil while a slot is not filled. An index past the
    slice and a method call on a nil node panic, which is [None] here. Nodes are
    compared by hash: they are nodes of one block index, which has one node per
    hash ([tree_ok]).

    The theorems: after any switch the view is exactly the branch of its tip; the
    fork point is the highest common block; a locator has its entries at fixed
    distances and ends with the genesis block; a peer is answered with the main
    chain after the first locator entry it shares. *)

From S2P Require Import Prelude Sha256 Wire Block WorkMath BlockNode.

(** ** The model *)

Abbreviation chainView := (list (option blockNode)).

(** [floor(log2(n))] of a [uint32], in five steps. *)
Definition log2FloorMasks : list Z := [0xffff0000; 0xff00; 0xf0; 0xc; 0x2].

Definition log2Step (st : Z * Z * Z) (mask : Z) : Z * Z * Z :=
  let '(n, rv, exponent) := st in
  let '(n, rv) := if negb (Z.land n mask =? 0) then (Z.shiftr n exponent, rv + exponent) else (n, rv) in
  (n, rv, Z.shiftr exponent 1).

Definition fastLog2Floor (n : Z) : Z := (foldl log2Step (n, 0, 16) log2FloorMasks).1.2.

Definition viewTip (c : chainView) : option blockNode := mjoin (last c).
Definition viewGenesis (c : chainView) : option blockNode := mjoin (head c).

(** Whether a slot holds the node; [None] past the end of the slice. *)
Definition slotIs (c : chainView) (node : blockNode) : option bool :=
  slot ← c !! Z.to_nat (node_height node);
  Some (match slot with Some n => sameNode n node | None => false end).

(** The loop of [setTip]: write the nodes down to the first that is in place. *)
Fixpoint setTipLoop (c : chainView) (node : blockNode) : option chainView :=
  match node with
  | Node parent _ _ =>
      inPlace ← slotIs c node;
      if (inPlace : bool) then Some c
      else
        let c' := <[Z.to_nat (node_height node) := Some node]> c in
        match parent with Some p => setTipLoop c' p | None => Some c' end
  end.

Definition setTip (c : chainView) (node : option blockNode) : option chainView :=
  match node with
  | None => Some []
  | Some n => setTipLoop (resize (Z.to_nat (i32 (node_height n + 1))) None c) n
  end.

Definition viewHeight (c : chainView) : Z := i32 (zlen c - 1).

Definition nodeByHeight (c : chainView) (height : Z) : option blockNode :=
  if (height <? 0) || (i32 (zlen c) <=? height) then None else mjoin (c !! Z.to_nat height).

Definition viewEquals (c other : chainView) : bool :=
  (length c =? length other)%nat &&
  match viewTip c, viewTip other with
  | Some a, Some b => sameNode a b
  | None, None => true
  | _, _ => false
  end.

Definition contains (c : chainView) (node : blockNode) : bool :=
  match nodeByHeight c (node_height node) with Some n => sameNode n node | None => false end.

Definition next (c : chainView) (node : option blockNode) : option blockNode :=
  match node with
  | None => None
  | Some n => if contains c n then nodeByHeight c (i32 (node_height n + 1)) else None
  end.

Fixpoint findForkLoop (c : chainView) (node : blockNode) : option blockNode :=
  match node with
  | Node parent _ _ =>
      if contains c node then Some node
      else match parent with Some p => findForkLoop c p | None => None end
  end.

Definition findFork (c : chainView) (node : option blockNode) : option blockNode :=
  n ← node;
  n' ← (if viewHeight c <? node_height n then Ancestor n (viewHeight c) else Some n);
  findForkLoop c n'.

(** [maxEntries]: the capacity of a locator. *)
Definition locatorCapacity (height : Z) : Z :=
  if height <=? 12 then u8 (u8 height + 1) else u8 (12 + fastLog2Floor (u32 (u32 height - 10))).

(** One round per entry; the height strictly falls, so [height + 1] rounds
    reach the genesis block. *)
Fixpoint locatorLoop (fuel : nat) (c : chainView) (node : blockNode) (step : Z) (locator : list (list Z))
    : list (list Z) :=
  match fuel with
  | O => locator
  | S fuel' =>
      let locator' := locator ++ [node_hash node] in
      if node_height node =? 0 then locator'
      else
        let height := Z.max 0 (i32 (node_height node - step)) in
        let node' := if contains c node then mjoin (c !! Z.to_nat height) else Ancestor node height in
        let step' := if 10 <? zlen locator' then i32 (step * 2) else step in
        match node' with
        | Some n => locatorLoop fuel' c n step' locator'
        | None => locator'
        end
  end.

Definition blockLocator (c : chainView) (node : option blockNode) : list (list Z) :=
  match (match node with Some n => Some n | None => viewTip c end) with
  | None => []
  | Some n => locatorLoop (S (Z.to_nat (node_height n))) c n 1 []
  end.

(** [HeightRange]: an error for a bad range; a nil tip panics. *)
Definition HeightRange (c : chainView) (startHeight endHeight : Z) : option (option (list (list Z))) :=
  if startHeight <? 0 then Some None
  else if endHeight <? startHeight then Some None
  else if startHeight =? endHeight then Some (Some [])
  else
    tip ← viewTip c;
    if node_height tip <? startHeight then Some (Some [])
    else
      let endHeight := if i32 (node_height tip + 1) <? endHeight then i32 (node_height tip + 1) else endHeight in
      hashes ← mapM (fun h => node_hash <$> nodeByHeight c h) (seqZ startHeight (endHeight - startHeight));
      Some (Some hashes).

Section locate.
Context (bi : blockIndex) (c : chainView).

(** The most recent entry of the locator on the main chain. *)
Fixpoint firstKnown (locator : list (list Z)) : option blockNode :=
  match locator with
  | [] => viewGenesis c
  | hash :: locator' =>
      match LookupNode bi hash with
      | Some node => if contains c node then Some node else firstKnown locator'
      | None => firstKnown locator'
      end
  end.

(** The result is [None] for a panic on a missing tip. *)
Definition locateInventory (locator : list (list Z)) (hashStop : list Z) (maxEntries : Z)
    : option (option blockNode * Z) :=
  let stopNode := LookupNode bi hashStop in
  match locator with
  | [] => Some (match stopNode with None => (None, 0) | Some n => (Some n, 1) end)
  | _ =>
      match next c (firstKnown locator) with
      | None => Some (None, 0)
      | Some startNode =>
          tip ← viewTip c;
          let total := u32 (i32 (i32 (node_height tip - node_height startNode) + 1)) in
          let total :=
            match stopNode with
            | Some stop =>
                if contains c stop && (node_height startNode <=? node_height stop)
                then u32 (i32 (i32 (node_height stop - node_height startNode) + 1)) else total
            | None => total
            end in
          Some (Some startNode, if maxEntries <? total then maxEntries else total)
      end
  end.

(** [total] nodes from [node] on along the main chain; a nil node panics. *)
Fixpoint nodesFrom (total : nat) (node : option blockNode) : option (list blockNode) :=
  match total with
  | O => Some []
  | S total' => n ← node; rest ← nodesFrom total' (next c (Some n)); Some (n :: rest)
  end.

Definition locateBlocks (locator : list (list Z)) (hashStop : list Z) (maxHashes : Z)
    : option (list (list Z)) :=
  '(node, total) ← locateInventory locator hashStop maxHashes;
  nodes ← nodesFrom (Z.to_nat total) node; Some (map node_hash nodes).

Definition locateHeaders (locator : list (list Z)) (hashStop : list Z) (maxHeaders : Z)
    : option (list BlockHeader) :=
  '(node, total) ← locateInventory locator hashStop maxHeaders;
  nodes ← nodesFrom (Z.to_nat total) node; Some (map nodeHeader nodes).
End locate.

(** ** One index, one node per hash *)

Definition inIndex (bi : blockIndex) (n : blockNode) : Prop := bi_index bi !! node_hash n = Some n.

(** The nodes of an index are well formed, under their own hash, and their
    parents are nodes of the index. *)
Definition tree_ok (bi : blockIndex) : Prop :=
  map_Forall (fun h n => node_hash n = h /\ wf_node n /\ node_height n + 1 < 2^31 /\
                         match nodeParent n with Some p => inIndex bi p | None => True end) (bi_index bi).

Lemma inIndex_wf bi n : tree_ok bi -> inIndex bi n -> wf_node n /\ node_height n + 1 < 2^31.
Proof. intros Hbi Hn. destruct (Hbi _ _ Hn) as (_ & H1 & H2 & _). by split. Qed.

Lemma inIndex_branch bi n m : tree_ok bi -> inIndex bi n -> m ∈ branch n -> inIndex bi m.
Proof.
  intros Hbi. induction n as [a d|p a d IH] using node_parent_ind; intros Hn; rewrite branch_unfold;
    intros [->|Hm]%elem_of_cons; try done; cbn [nodeParent] in Hm; [by apply not_elem_of_nil in Hm|].
  destruct (Hbi _ _ Hn) as (_ & _ & _ & Hp). by apply IH.
Qed.

Lemma sameNode_eq bi a b : inIndex bi a -> inIndex bi b -> sameNode a b = true <-> a = b.
Proof.
  intros Ha Hb. unfold sameNode. rewrite bool_decide_eq_true. split; [|by intros ->].
  intros H. unfold inIndex in *. rewrite H in Ha. congruence.
Qed.

(** Adding a block that the index does not have keeps it well formed. *)
Lemma AddNode_ok bi header p status :
  tree_ok bi -> match p with Some p => inIndex bi p /\ node_height p + 2 < 2^31 | None => True end ->
  bi_index bi !! node_hash (newBlockNode header p) = None ->
  tree_ok (AddNode bi (newBlockNode header p) status) /\ inIndex (AddNode bi (newBlockNode header p) status) (newBlockNode header p).
Proof.
  intros Hbi Hp Hnew. set (n := newBlockNode header p) in *. split; [|apply lookup_insert_eq].
  assert (Hkeep : forall m, inIndex bi m -> inIndex (AddNode bi n status) m).
  { intros m Hm. unfold inIndex, AddNode, addNode in *. cbn [bi_index].
    rewrite lookup_insert_ne; [done|]. intros E. rewrite E in Hnew. congruence. }
  apply map_Forall_insert_2.
  - split; [done|]. assert (Hw : wf_node n /\ node_height n + 1 < 2^31).
    { destruct p as [p|]; [|split; [by apply newBlockNode_wf|done]]. destruct Hp as [Hp Hh].
      destruct (inIndex_wf bi p Hbi Hp) as [Hw _]. pose proof (wf_node_height p Hw).
      split; [apply newBlockNode_wf; split; [done|lia]|].
      change (node_height n) with (i32 (node_height p + 1)). rewrite i32_id by (widths; lia). lia. }
    split; [apply Hw|]. split; [apply Hw|]. unfold n. cbn [nodeParent newBlockNode]. destruct p as [p|]; [|done].
    apply Hkeep, Hp.
  - intros h m Hm. destruct (Hbi h m Hm) as (H1 & H2 & H3 & H4). split_and!; try done.
    destruct (nodeParent m); [by apply Hkeep|done].
Qed.

(** ** The view of a branch *)

Definition viewOf (n : blockNode) : chainView := Some <$> reverse (branch n).

Lemma length_viewOf n : wf_node n -> Z.of_nat (length (viewOf n)) = node_height n + 1.
Proof. intros Hn. unfold viewOf. rewrite length_fmap, length_reverse. by apply length_branch. Qed.

Lemma viewOf_child n p : nodeParent n = Some p -> viewOf n = viewOf p ++ [Some n].
Proof. intros Hp. unfold viewOf. by rewrite branch_unfold, Hp, reverse_cons, fmap_app. Qed.

Lemma viewOf_root n : nodeParent n = None -> viewOf n = [Some n].
Proof. intros Hp. unfold viewOf. by rewrite branch_unfold, Hp. Qed.

Lemma viewOf_lookup n h :
  wf_node n -> 0 <= h <= node_height n -> viewOf n !! Z.to_nat h = Some (Ancestor n h).
Proof.
  intros Hn Hh. pose proof (length_branch n Hn) as Hl. rewrite Ancestor_atHeight by done. unfold atHeight, viewOf.
  destruct (Z.ltb_spec h 0), (Z.ltb_spec (node_height n) h); try lia. cbn [orb].
  rewrite list_lookup_fmap, reverse_lookup by lia.
  replace (length (branch n) - S (Z.to_nat h))%nat with (Z.to_nat (node_height n - h)) by lia.
  destruct (lookup_lt_is_Some_2 (branch n) (Z.to_nat (node_height n - h))) as [m Hm]; [lia|]. by rewrite Hm.
Qed.

Lemma nodeByHeight_viewOf n h :
  wf_node n -> node_height n + 1 < 2^31 -> nodeByHeight (viewOf n) h = Ancestor n h.
Proof.
  intros Hn Hb. pose proof (wf_node_height n Hn). unfold nodeByHeight, zlen.
  rewrite length_viewOf, i32_id by (done || (widths; lia)).
  destruct (Z.ltb_spec h 0), (Z.leb_spec (node_height n + 1) h); cbn [orb];
    try (rewrite Ancestor_atHeight by done; unfold atHeight;
         destruct (Z.ltb_spec h 0), (Z.ltb_spec (node_height n) h); done || lia).
  rewrite viewOf_lookup by (done || lia). done.
Qed.

Lemma viewTip_viewOf n : viewTip (viewOf n) = Some n.
Proof.
  unfold viewTip. destruct (nodeParent n) as [p|] eqn:Hp.
  - by rewrite (viewOf_child n p Hp), last_snoc.
  - by rewrite viewOf_root.
Qed.

Lemma viewHeight_viewOf n : wf_node n -> viewHeight (viewOf n) = node_height n.
Proof.
  intros Hn. pose proof (wf_node_height n Hn). unfold viewHeight, zlen. rewrite length_viewOf by done.
  rewrite i32_id by (widths; lia). lia.
Qed.

Lemma Ancestor_Some n h m :
  wf_node n -> Ancestor n h = Some m ->
  m ∈ branch n /\ node_height m = h /\ wf_node m /\ branch m = drop (Z.to_nat (node_height n - h)) (branch n) /\
  0 <= h <= node_height n.
Proof.
  intros Hn. rewrite Ancestor_atHeight by done. unfold atHeight.
  destruct (Z.ltb_spec h 0), (Z.ltb_spec (node_height n) h); try done. cbn [orb]. intros E.
  destruct (branch_lookup n _ m Hn E) as (H1 & H2 & H3). apply list_elem_of_lookup_2 in E. split_and!; try done; lia.
Qed.

Lemma Ancestor_on_branch n m : wf_node n -> m ∈ branch n -> Ancestor n (node_height m) = Some m.
Proof.
  intros Hn [k Hk]%list_elem_of_lookup. destruct (branch_lookup n k m Hn Hk) as (H1 & H2 & _).
  pose proof (wf_node_height m H1). rewrite Ancestor_atHeight by done. unfold atHeight.
  destruct (Z.ltb_spec (node_height m) 0), (Z.ltb_spec (node_height n) (node_height m)); try lia. cbn [orb].
  replace (Z.to_nat (node_height n - node_height m)) with k by lia. done.
Qed.

Lemma Ancestor_exists n h : wf_node n -> 0 <= h <= node_height n -> exists m, Ancestor n h = Some m.
Proof.
  intros Hn Hh. rewrite Ancestor_atHeight by done. unfold atHeight. pose proof (length_branch n Hn).
  destruct (Z.ltb_spec h 0), (Z.ltb_spec (node_height n) h); try lia. cbn [orb]. apply lookup_lt_is_Some_2. lia.
Qed.

Lemma branch_height_le n m : wf_node n -> m ∈ branch n -> 0 <= node_height m <= node_height n.
Proof.
  intros Hn Hm. pose proof (Ancestor_on_branch n m Hn Hm) as Ha. by destruct (Ancestor_Some n _ m Hn Ha) as (_ & _ & _ & _ & ?).
Qed.

(** Nodes of one branch at one height are the same. *)
Lemma branch_height_inj n m m' :
  wf_node n -> m ∈ branch n -> m' ∈ branch n -> node_height m = node_height m' -> m = m'.
Proof.
  intros Hn H1%(Ancestor_on_branch n m Hn) H2%(Ancestor_on_branch n m' Hn) E. rewrite E in H1. congruence.
Qed.

(** An ancestor's branch is the lower part of the branch. *)
Lemma branch_below n f m :
  wf_node n -> f ∈ branch n -> m ∈ branch n -> node_height m <= node_height f <-> m ∈ branch f.
Proof.
  intros Hn Hf Hm. pose proof (Ancestor_on_branch n f Hn Hf) as Ef.
  destruct (Ancestor_Some n _ f Hn Ef) as (_ & _ & Hwf & Hb & Hr). split; intros H.
  - rewrite Hb. apply list_elem_of_lookup in Hm as [k Hk]. destruct (branch_lookup n k m Hn Hk) as (_ & Hh & _).
    apply list_elem_of_lookup. exists (k - Z.to_nat (node_height n - node_height f))%nat. rewrite lookup_drop.
    rewrite <- Hk. f_equal. lia.
  - apply list_elem_of_lookup in H as [k Hk]. destruct (branch_lookup f k m Hwf Hk) as (_ & Hh & _). lia.
Qed.

Section view.
Context (bi : blockIndex) (Hbi : tree_ok bi).

Lemma contains_viewOf t m : inIndex bi t -> inIndex bi m -> contains (viewOf t) m = true <-> m ∈ branch t.
Proof using Hbi.
  intros Ht Hm. destruct (inIndex_wf bi t Hbi Ht) as [Hw Hb]. unfold contains. rewrite nodeByHeight_viewOf by done.
  split.
  - destruct (Ancestor t (node_height m)) as [x|] eqn:E; [|done].
    destruct (Ancestor_Some t _ x Hw E) as (Hx & _). intros H.
    apply (sameNode_eq bi) in H as ->; [done| |done]. by apply (inIndex_branch bi t).
  - intros Hin. rewrite (Ancestor_on_branch t m Hw Hin). by apply (sameNode_eq bi).
Qed.

(** ** Switching the tip *)

Lemma setTipLoop_viewOf n c :
  inIndex bi n -> (Z.to_nat (node_height n) < length c)%nat ->
  (forall h m, (h <= Z.to_nat (node_height n))%nat -> c !! h = Some (Some m) ->
     inIndex bi m /\ take (S h) c = viewOf m) ->
  setTipLoop c n = Some (viewOf n ++ drop (S (Z.to_nat (node_height n))) c).
Proof using Hbi.
  revert c; induction n as [a d|p a d IH] using node_parent_ind; intros c Hn Hl Hc;
    remember (Node _ a d) as n eqn:En; destruct (inIndex_wf bi n Hbi Hn) as [Hw Hb];
    pose proof (wf_node_height n Hw) as Hh; set (h := Z.to_nat (node_height n)) in *;
    destruct (lookup_lt_is_Some_2 c h Hl) as [slot Hslot].
  all: assert (Hplace : (match slot with Some m => sameNode m n | None => false end) = true ->
                  c = viewOf n ++ drop (S h) c) by
    (destruct slot as [m|]; [|done]; intros Hs; destruct (Hc h m (le_n _) Hslot) as [Hm Ht];
     apply (sameNode_eq bi) in Hs as ->; [|done|done]; by rewrite <- Ht, take_drop).
  - assert (Hp : nodeParent n = None) by by subst n. rewrite En; cbn [setTipLoop]; rewrite <- En.
    unfold slotIs. fold h. rewrite Hslot. cbn [mbind option_bind]. destruct (match slot with Some _ => _ | None => _ end);
      [f_equal; by apply Hplace|].
    assert (Hh0 : h = 0%nat).
    { unfold h. destruct Hw as [d0 Hd0|]; [|by subst]. unfold node_height. cbn [nodeInfo]. by rewrite Hd0. }
    rewrite viewOf_root by done. rewrite Hh0. destruct c as [|x c]; [done|]. done.
  - assert (Hp : nodeParent n = Some p) by by subst n. rewrite En; cbn [setTipLoop]; rewrite <- En.
    unfold slotIs. fold h. rewrite Hslot. cbn [mbind option_bind]. destruct (match slot with Some _ => _ | None => _ end);
      [f_equal; by apply Hplace|].
    assert (Hpi : inIndex bi p).
    { destruct (Hbi _ _ Hn) as (_ & _ & _ & H). by rewrite Hp in H. }
    destruct (inIndex_wf bi p Hbi Hpi) as [Hwp _]. pose proof (wf_node_height p Hwp).
    assert (Hhp : node_height n = node_height p + 1).
    { pose proof (length_branch n Hw) as H1. pose proof (length_branch p Hwp) as H2.
      rewrite branch_unfold, Hp in H1. cbn [length] in H1. lia. }
    rewrite IH; [|done|rewrite length_insert; lia|].
    + f_equal. rewrite (viewOf_child n p Hp), <- app_assoc. f_equal.
      replace (S (Z.to_nat (node_height p))) with h by lia.
      rewrite drop_insert_ge by done. rewrite Nat.sub_diag. rewrite (drop_S c slot h Hslot). done.
    + intros h' m Hle. rewrite list_lookup_insert_ne by lia. intros Hm.
      rewrite take_insert_ge by lia. apply Hc; [lia|done].
Qed.

Lemma take_viewOf t m :
  wf_node t -> m ∈ branch t -> take (S (Z.to_nat (node_height m))) (viewOf t) = viewOf m.
Proof.
  intros Hw Hin. pose proof (Ancestor_on_branch t m Hw Hin) as Ha.
  destruct (Ancestor_Some t _ m Hw Ha) as (_ & _ & Hwm & Hb & Hr). pose proof (length_branch t Hw) as Hl.
  unfold viewOf. rewrite <- fmap_take. f_equal. rewrite take_reverse, Hb. do 2 f_equal. lia.
Qed.

(** The views the node keeps: not initialised, or the branch of a tip. *)
Definition view_of (c : chainView) (tip : option blockNode) : Prop :=
  match tip with None => c = [] | Some t => inIndex bi t /\ c = viewOf t end.

Lemma setTip_viewOf c tip n :
  view_of c tip -> inIndex bi n -> setTip c (Some n) = Some (viewOf n).
Proof using Hbi.
  intros Hc Hn. destruct (inIndex_wf bi n Hbi Hn) as [Hw Hb]. pose proof (wf_node_height n Hw) as Hh.
  unfold setTip. rewrite i32_id by (widths; lia).
  rewrite setTipLoop_viewOf; [|done|rewrite length_resize; lia|].
  - f_equal. rewrite drop_ge by (rewrite length_resize; lia). apply app_nil_r.
  - intros h m Hle Hlk. destruct tip as [t|]; cbn [view_of] in Hc; [|subst c; rewrite resize_nil, lookup_replicate in Hlk; by destruct Hlk].
    destruct Hc as [Ht ->]. destruct (inIndex_wf bi t Hbi Ht) as [Hwt Hbt].
    rewrite resize_spec in Hlk. apply lookup_app_Some in Hlk as [Hlk|[_ Hlk]]; [|apply lookup_replicate in Hlk; by destruct Hlk].
    apply lookup_take_Some in Hlk as [Hlk Hlt]. pose proof (lookup_lt_Some _ _ _ Hlk) as Hlen.
    pose proof (length_viewOf t Hwt) as Hl. pose proof (viewOf_lookup t (Z.of_nat h) Hwt ltac:(lia)) as Hv.
    rewrite Nat2Z.id, Hlk in Hv. injection Hv as Hv. symmetry in Hv.
    destruct (Ancestor_Some t _ m Hwt Hv) as (Hin & Hmh & _).
    split; [by apply (inIndex_branch bi t)|]. rewrite <- (take_viewOf t m Hwt Hin).
    rewrite resize_spec, take_app_le by (rewrite length_take; lia). rewrite take_take. f_equal. lia.
Qed.

(** ** The fork point *)

Lemma findForkLoop_spec c n :
  match findForkLoop c n with
  | Some f => f ∈ branch n /\ contains c f = true /\ forall m, m ∈ branch n -> contains c m = true -> m ∈ branch f
  | None => forall m, m ∈ branch n -> contains c m = false
  end.
Proof.
  induction n as [a d|p a d IH] using node_parent_ind; rewrite branch_unfold; cbn [findForkLoop nodeParent];
    set (n := Node _ a d) in *; destruct (contains c n) eqn:E.
  - split; [left|]. split; [done|]. intros m Hm _. by rewrite branch_unfold.
  - intros m [->|Hm]%elem_of_cons; [done|]. by apply not_elem_of_nil in Hm.
  - split; [left|]. split; [done|]. intros m Hm _. by rewrite branch_unfold.
  - destruct (findForkLoop c p) as [f|].
    + destruct IH as (H1 & H2 & H3). split; [by right|]. split; [done|].
      intros m [->|Hm]%elem_of_cons Hc; [congruence|by apply H3].
    + intros m [->|Hm]%elem_of_cons; [done|by apply IH].
Qed.

Lemma findFork_viewOf t n :
  inIndex bi t -> inIndex bi n ->
  match findFork (viewOf t) (Some n) with
  | Some f => f ∈ branch n /\ f ∈ branch t /\ forall m, m ∈ branch n -> m ∈ branch t -> m ∈ branch f
  | None => forall m, m ∈ branch n -> m ∉ branch t
  end.
Proof using Hbi.
  intros Ht Hn. destruct (inIndex_wf bi t Hbi Ht) as [Hwt Hbt]. destruct (inIndex_wf bi n Hbi Hn) as [Hwn Hbn].
  pose proof (wf_node_height t Hwt). unfold findFork. cbn [mbind option_bind]. rewrite viewHeight_viewOf by done.
  set (start := if node_height t <? node_height n then Ancestor n (node_height t) else Some n).
  assert (exists n', start = Some n' /\ n' ∈ branch n /\ forall m, m ∈ branch n -> m ∈ branch t -> m ∈ branch n')
    as (n' & -> & Hin & Hsub).
  { unfold start. destruct (Z.ltb_spec (node_height t) (node_height n)) as [Hlt|_].
    - destruct (Ancestor_exists n (node_height t) Hwn ltac:(lia)) as [n' E]. rewrite E.
      destruct (Ancestor_Some n _ n' Hwn E) as (H1 & H2 & _). exists n'. split_and!; try done.
      intros m Hm Hmt. apply (branch_below n n' m Hwn H1 Hm). rewrite H2. by apply branch_height_le.
    - exists n. split_and!; try done. rewrite branch_unfold. left. }
  cbn [mbind option_bind]. pose proof (findForkLoop_spec (viewOf t) n') as Hf.
  assert (Hsub' : forall m, m ∈ branch n' -> m ∈ branch n).
  { intros m Hm. pose proof (Ancestor_on_branch n n' Hwn Hin) as Ha.
    destruct (Ancestor_Some n _ n' Hwn Ha) as (_ & _ & _ & Hb & _). rewrite Hb in Hm.
    rewrite <- (take_drop (Z.to_nat (node_height n - node_height n')) (branch n)). apply elem_of_app. by right. }
  assert (Hidx : forall m, m ∈ branch n -> inIndex bi m) by (intros; by apply (inIndex_branch bi n)).
  destruct (findForkLoop (viewOf t) n') as [f|].
  - destruct Hf as (H1 & H2 & H3). apply (contains_viewOf t f Ht (Hidx f (Hsub' f H1))) in H2.
    split; [by apply Hsub'|]. split; [done|]. intros m Hm Hmt. apply H3; [by apply Hsub|].
    by apply contains_viewOf; auto.
  - intros m Hm Hmt. pose proof (Hf m (Hsub m Hm Hmt)) as Hc.
    assert (contains (viewOf t) m = true) by (by apply contains_viewOf; auto). congruence.
Qed.

(** ** Locators *)

(** How far below the first entry the entry [i] is: one block apart for the first
    twelve, then twice as far each time. *)
Definition locatorOffset (i : nat) : Z := if (i <=? 11)%nat then Z.of_nat i else 9 + 2^(Z.of_nat i - 10).
Definition locatorStep (i : nat) : Z := if (i <=? 10)%nat then 1 else 2^(Z.of_nat i - 10).

Lemma locatorOffset_S i : locatorOffset (S i) = locatorOffset i + locatorStep i.
Proof.
  unfold locatorOffset, locatorStep. destruct (Nat.leb_spec i 10), (Nat.leb_spec (S i) 11), (Nat.leb_spec i 11); try lia.
  - assert (i = 11%nat) as -> by lia. done.
  - replace (Z.of_nat (S i) - 10) with (Z.succ (Z.of_nat i - 10)) by lia. rewrite Z.pow_succ_r by lia. lia.
Qed.

Lemma locatorStep_S i : locatorStep (S i) = if (10 <? S i)%nat then locatorStep i * 2 else locatorStep i.
Proof.
  unfold locatorStep. destruct (Nat.leb_spec (S i) 10), (Nat.ltb_spec 10 (S i)), (Nat.leb_spec i 10); try lia.
  - assert (i = 10%nat) as -> by lia. done.
  - replace (Z.of_nat (S i) - 10) with (Z.succ (Z.of_nat i - 10)) by lia. rewrite Z.pow_succ_r by lia. lia.
Qed.

Lemma locatorStep_pos i : 0 < locatorStep i.
Proof. unfold locatorStep. destruct (Nat.leb_spec i 10); [lia|]. apply Z.pow_pos_nonneg; lia. Qed.

Lemma locatorStep_offset i : locatorStep i <= locatorOffset i + 1.
Proof.
  unfold locatorOffset, locatorStep. destruct (Nat.leb_spec i 10), (Nat.leb_spec i 11); try lia.
  assert (i = 11%nat) as -> by lia. done.
Qed.

Lemma locatorOffset_nonneg i : 0 <= locatorOffset i.
Proof.
  induction i as [|i IH]; [done|]. rewrite locatorOffset_S. pose proof (locatorStep_pos i). lia.
Qed.

Lemma locatorOffset_mono i j : (i <= j)%nat -> locatorOffset i <= locatorOffset j.
Proof.
  induction 1 as [|j _ IH]; [lia|]. rewrite locatorOffset_S. pose proof (locatorStep_pos j). lia.
Qed.

Definition hashAt (n : blockNode) (h : Z) : list Z := default [] (node_hash <$> Ancestor n h).

(** The next node is the same ancestor, found in the view or not. *)
Lemma locator_next t n x h :
  inIndex bi t -> inIndex bi n -> x ∈ branch n -> 0 <= h <= node_height x ->
  (if contains (viewOf t) x then mjoin (viewOf t !! Z.to_nat h) else Ancestor x h) = Ancestor n h.
Proof using Hbi.
  intros Ht Hn Hx Hh. destruct (inIndex_wf bi t Hbi Ht) as [Hwt Hbt]. destruct (inIndex_wf bi n Hbi Hn) as [Hwn Hbn].
  assert (Hxi : inIndex bi x) by (by apply (inIndex_branch bi n)).
  destruct (inIndex_wf bi x Hbi Hxi) as [Hwx _].
  assert (Hanc : forall y, wf_node y -> x ∈ branch y -> Ancestor y h = Ancestor x h).
  { intros y Hy Hxy. pose proof (Ancestor_on_branch y x Hy Hxy) as Ha.
    destruct (Ancestor_Some y _ x Hy Ha) as (_ & _ & _ & Hb & Hr). rewrite !Ancestor_atHeight by done. unfold atHeight.
    destruct (Z.ltb_spec h 0), (Z.ltb_spec (node_height y) h), (Z.ltb_spec (node_height x) h); try lia. cbn [orb].
    rewrite Hb, lookup_drop. f_equal. lia. }
  rewrite (Hanc n Hwn Hx). destruct (contains (viewOf t) x) eqn:E; [|done].
  apply contains_viewOf in E; [|done|done]. pose proof (Ancestor_on_branch t x Hwt E) as Ha.
  destruct (Ancestor_Some t _ x Hwt Ha) as (_ & _ & _ & _ & Hr). rewrite viewOf_lookup by (done || lia).
  by apply Hanc.
Qed.

Lemma locatorLoop_spec t n fuel : forall x step loc,
  inIndex bi t -> inIndex bi n ->
  let i := length loc in
  Ancestor n (Z.max 0 (node_height n - locatorOffset i)) = Some x ->
  (locatorOffset i < node_height n -> step = locatorStep i) -> node_height x < Z.of_nat fuel ->
  exists K, (i <= K)%nat /\ node_height n <= locatorOffset K /\
    (forall j, (i <= j < K)%nat -> locatorOffset j < node_height n) /\
    locatorLoop fuel (viewOf t) x step loc
    = loc ++ ((fun j => hashAt n (Z.max 0 (node_height n - locatorOffset j))) <$> seq i (S K - i)).
Proof using Hbi.
  induction fuel as [|fuel IH]; intros x step loc Ht Hn i Hx Hstep Hfuel;
    destruct (inIndex_wf bi n Hbi Hn) as [Hwn Hbn]; pose proof (wf_node_height n Hwn) as Hhn;
    destruct (Ancestor_Some n _ x Hwn Hx) as (Hin & Hxh & Hwx & _ & _); [lia|].
  assert (Hhash : node_hash x = hashAt n (Z.max 0 (node_height n - locatorOffset i))) by (unfold hashAt; by rewrite Hx).
  cbn [locatorLoop]. destruct (Z.eqb_spec (node_height x) 0) as [H0|H0].
  { exists i. split_and!; [done|lia|lia|]. replace (S i - i)%nat with 1%nat by lia. cbn [seq fmap list_fmap]. by rewrite Hhash. }
  assert (Hlt : locatorOffset i < node_height n) by lia. rewrite (Hstep Hlt).
  pose proof (locatorStep_pos i) as Hpos. pose proof (locatorStep_offset i) as Hso.
  pose proof (locatorOffset_nonneg i) as Hnn.
  rewrite (i32_id (node_height x - locatorStep i)) by (widths; lia).
  set (h := Z.max 0 (node_height x - locatorStep i)).
  assert (Hh : h = Z.max 0 (node_height n - locatorOffset (S i))) by (rewrite locatorOffset_S; lia).
  rewrite (locator_next t n x h Ht Hn Hin) by lia.
  destruct (Ancestor_exists n h Hwn ltac:(lia)) as [y Ey]. rewrite Ey.
  destruct (Ancestor_Some n _ y Hwn Ey) as (_ & Hyh & _).
  assert (Hlen : length (loc ++ [node_hash x]) = S i) by (rewrite length_app; cbn; lia).
  destruct (IH y (if 10 <? zlen (loc ++ [node_hash x]) then i32 (locatorStep i * 2) else locatorStep i)
              (loc ++ [node_hash x]) Ht Hn) as (K & H1 & H2 & H3 & H4).
  - rewrite Hlen, <- Hh. done.
  - rewrite Hlen. intros Hlt'. rewrite locatorStep_S. unfold zlen. rewrite Hlen.
    pose proof (locatorStep_offset (S i)) as Hso'. rewrite locatorStep_S in Hso'.
    destruct (Z.ltb_spec 10 (Z.of_nat (S i))), (Nat.ltb_spec 10 (S i)); try lia. by rewrite i32_id by (widths; lia).
  - lia.
  - rewrite Hlen in H1, H3, H4. exists K. split_and!; [lia|done| |].
    + intros j Hj. destruct (decide (j = i)) as [->|]; [done|]. apply H3. lia.
    + rewrite H4, <- app_assoc. f_equal. replace (S K - i)%nat with (S (S K - S i)) by lia.
      cbn [seq fmap list_fmap app]. by rewrite Hhash.
Qed.

(** A locator lists the branch at the offsets, up to the first that reaches the
    genesis block. *)
Lemma blockLocator_spec t n :
  inIndex bi t -> inIndex bi n ->
  exists K, node_height n <= locatorOffset K /\
    (forall j, (j < K)%nat -> locatorOffset j < node_height n) /\
    blockLocator (viewOf t) (Some n)
    = (fun j => hashAt n (Z.max 0 (node_height n - locatorOffset j))) <$> seq 0 (S K).
Proof using Hbi.
  intros Ht Hn. destruct (inIndex_wf bi n Hbi Hn) as [Hwn Hbn]. pose proof (wf_node_height n Hwn).
  destruct (locatorLoop_spec t n (S (Z.to_nat (node_height n))) n 1 [] Ht Hn) as (K & _ & H1 & H2 & H3).
  - cbn [length]. change (locatorOffset 0) with 0. rewrite Z.max_r, Z.sub_0_r by lia.
    apply Ancestor_on_branch; [done|]. rewrite branch_unfold. left.
  - done.
  - lia.
  - exists K. split; [done|]. split; [intros; apply H2; cbn; lia|]. exact H3.
Qed.

(** ** Answering a locator *)

Lemma firstKnown_spec t n L i k :
  inIndex bi t -> inIndex bi n ->
  (forall j, (i <= j < i + k)%nat -> exists x, Ancestor n (L j) = Some x) ->
  (exists j x, (i <= j < i + k)%nat /\ Ancestor n (L j) = Some x /\ x ∈ branch t) ->
  exists j f, (i <= j < i + k)%nat /\ Ancestor n (L j) = Some f /\ f ∈ branch t /\
    firstKnown bi (viewOf t) ((fun j => hashAt n (L j)) <$> seq i k) = Some f /\
    forall j' x, (i <= j' < j)%nat -> Ancestor n (L j') = Some x -> x ∉ branch t.
Proof using Hbi.
  intros Ht Hn. destruct (inIndex_wf bi n Hbi Hn) as [Hwn _].
  revert i; induction k as [|k IH]; intros i Hall (j & x & Hj & Hx & Hxt); [lia|]. cbn [seq fmap list_fmap firstKnown].
  destruct (Hall i ltac:(lia)) as [y Hy]. assert (Hh : hashAt n (L i) = node_hash y) by (unfold hashAt; by rewrite Hy). rewrite Hh.
  destruct (Ancestor_Some n _ y Hwn Hy) as (Hyn & _).
  assert (Hyi : inIndex bi y) by (by apply (inIndex_branch bi n)).
  unfold LookupNode. rewrite Hyi. destruct (contains (viewOf t) y) eqn:E.
  - apply contains_viewOf in E; [|done|done]. exists i, y. split_and!; try done; lia.
  - assert (Hny : y ∉ branch t).
    { intros Hin. apply contains_viewOf in Hin; [congruence|done|done]. }
    destruct (decide (j = i)) as [->|Hne]; [rewrite Hy in Hx; congruence|].
    destruct (IH (S i)) as (j0 & f & H1 & H2 & H3 & H4 & H5).
    + intros j' Hj'. apply Hall. lia.
    + exists j, x. split_and!; try done; lia.
    + exists j0, f. split_and!; try done; try lia. intros j' x' Hj' Hx'.
      destruct (decide (j' = i)) as [->|]; [congruence|]. apply (H5 j'); [lia|done].
Qed.

(** The nodes of the main chain from a height on. *)
Lemma nodesFrom_viewOf t count f :
  inIndex bi t -> f ∈ branch t -> node_height f + Z.of_nat count <= node_height t + 1 ->
  exists nodes, nodesFrom (viewOf t) count (Some f) = Some nodes /\
    map node_hash nodes = hashAt t <$> seqZ (node_height f) (Z.of_nat count).
Proof using Hbi.
  intros Ht. destruct (inIndex_wf bi t Hbi Ht) as [Hwt Hbt]. revert f; induction count as [|count IH]; intros f Hf Hle.
  { exists []. done. }
  pose proof (Ancestor_on_branch t f Hwt Hf) as Ha. destruct (Ancestor_Some t _ f Hwt Ha) as (_ & _ & Hwf & _ & Hr).
  rewrite seqZ_cons by lia. cbn [nodesFrom mbind option_bind fmap list_fmap].
  assert (Hhf : hashAt t (node_height f) = node_hash f) by (unfold hashAt; by rewrite Ha). rewrite Hhf.
  replace (Z.pred (Z.of_nat (S count))) with (Z.of_nat count) by lia.
  destruct count as [|count].
  { exists [f]. split; [done|]. done. }
  assert (Hfc : contains (viewOf t) f = true).
  { apply contains_viewOf; [done| |done]. by apply (inIndex_branch bi t). }
  unfold next at 1. rewrite Hfc, i32_id, nodeByHeight_viewOf by (done || (widths; lia)).
  destruct (Ancestor_exists t (node_height f + 1) Hwt ltac:(lia)) as [g Eg]. rewrite Eg.
  destruct (Ancestor_Some t _ g Hwt Eg) as (Hg & Hgh & _).
  destruct (IH g Hg ltac:(lia)) as (nodes & E & Hmap). rewrite E. cbn [mbind option_bind].
  exists (f :: nodes). split; [done|]. cbn [map]. rewrite Hmap, Hgh. done.
Qed.

(** Below a shared block the branches are the same. *)
Lemma shared_below t n m x :
  inIndex bi t -> inIndex bi n -> m ∈ branch n -> m ∈ branch t -> x ∈ branch n ->
  node_height x <= node_height m -> x ∈ branch t.
Proof using Hbi.
  intros Ht Hn Hm Hmt Hx Hle. destruct (inIndex_wf bi t Hbi Ht) as [Hwt _]. destruct (inIndex_wf bi n Hbi Hn) as [Hwn _].
  apply (branch_below n m x Hwn Hm Hx) in Hle. pose proof (Ancestor_on_branch t m Hwt Hmt) as Ha.
  destruct (Ancestor_Some t _ m Hwt Ha) as (_ & _ & _ & Hb & _). rewrite Hb in Hle.
  rewrite <- (take_drop (Z.to_nat (node_height t - node_height m)) (branch t)). apply elem_of_app. by right.
Qed.

(** With an unknown stop hash, the answer is the main chain after the first known
    block. *)
Lemma locateBlocks_from t f hash locator hashStop maxHashes :
  inIndex bi t -> f ∈ branch t -> firstKnown bi (viewOf t) (hash :: locator) = Some f ->
  LookupNode bi hashStop = None -> 0 <= maxHashes < 2^32 ->
  locateBlocks bi (viewOf t) (hash :: locator) hashStop maxHashes
  = Some (hashAt t <$> seqZ (node_height f + 1) (Z.min maxHashes (node_height t - node_height f))).
Proof using Hbi.
  intros Ht Hft Hfirst Hstop Hmax. destruct (inIndex_wf bi t Hbi Ht) as [Hwt Hbt].
  pose proof (branch_height_le t f Hwt Hft) as Hfh. assert (Hfi : inIndex bi f) by (by apply (inIndex_branch bi t)).
  unfold locateBlocks, locateInventory. rewrite Hfirst, Hstop. unfold next at 1.
  rewrite (proj2 (contains_viewOf t f Ht Hfi) Hft), i32_id, nodeByHeight_viewOf by (done || (widths; lia)).
  destruct (Z.eq_dec (node_height f) (node_height t)) as [Heq|Hne].
  { replace (node_height t - node_height f) with 0 by lia. rewrite Z.min_r by lia.
    rewrite Ancestor_atHeight by done. unfold atHeight.
    rewrite (proj2 (Z.ltb_lt (node_height t) (node_height f + 1))) by lia. rewrite orb_true_r. done. }
  destruct (Ancestor_exists t (node_height f + 1) Hwt ltac:(lia)) as [g Eg]. rewrite Eg.
  destruct (Ancestor_Some t _ g Hwt Eg) as (Hg & Hgh & _). rewrite viewTip_viewOf. cbn [mbind option_bind].
  rewrite (i32_id (node_height t - node_height g)), i32_id, u32_id by (widths; lia).
  set (total := if _ <? _ then _ else _).
  assert (Htot : total = Z.min maxHashes (node_height t - node_height f))
    by (unfold total; destruct (Z.ltb_spec maxHashes (node_height t - node_height g + 1)); lia).
  destruct (nodesFrom_viewOf t (Z.to_nat total) g Ht Hg ltac:(lia)) as (nodes & -> & Hmap).
  cbn [mbind option_bind]. by rewrite Hmap, Hgh, Z2Nat.id, Htot by lia.
Qed.
End view.

(** [fastLog2Floor] is the logarithm: each step halves the window the highest bit
    is in. *)
Lemma log2Step_spec n rv e :
  0 < e -> 0 < n < 2^(2 * e) ->
  let '(n', rv', e') := log2Step (n, rv, e) (Z.shiftl (Z.ones e) e) in
  0 < n' < 2^e /\ rv' + Z.log2 n' = rv + Z.log2 n /\ e' = e / 2.
Proof.
  intros He Hn. unfold log2Step.
  assert (Hsh : 0 <= Z.shiftr n e < 2^e).
  { rewrite Z.shiftr_div_pow2 by lia. replace (2 * e) with (e + e) in Hn by lia. rewrite Z.pow_add_r in Hn by lia.
    split; [apply Z.div_pos; lia|apply Z.div_lt_upper_bound; lia]. }
  assert (Hland : Z.land n (Z.shiftl (Z.ones e) e) = Z.shiftl (Z.shiftr n e) e).
  { apply Z.bits_inj'. intros k Hk. rewrite Z.land_spec, !Z.shiftl_spec by lia.
    destruct (Z.ltb_spec k e).
    - rewrite !Z.testbit_neg_r with (n := k - e) by lia. by rewrite andb_false_r.
    - rewrite Z.shiftr_spec by lia. replace (k - e + e) with k by lia. rewrite Z.testbit_ones by lia.
      destruct (Z.ltb_spec (k - e) e); [by replace (0 <=? k - e) with true by lia; rewrite andb_true_r|].
      rewrite andb_false_r. replace (Z.testbit n k) with false; [done|]. symmetry.
      apply Z.bits_above_log2; [lia|]. apply Z.log2_lt_pow2; [lia|]. pose proof (Z.pow_le_mono_r 2 (2 * e) k). lia. }
  rewrite Hland. pose proof (Z.pow_pos_nonneg 2 e) as Hp. pose proof (Z.div_mod n (2^e)) as Hdm.
  pose proof (Z.mod_pos_bound n (2^e)). rewrite Z.shiftl_mul_pow2, Z.shiftr_div_pow2, (Z.shiftr_div_pow2 e 1) in * by lia.
  destruct (Z.eqb_spec (n / 2^e * 2^e) 0) as [H0|H0]; cbn [negb]; (split; [nia|split; [|done]]); [done|].
  assert (Hq : 0 < n / 2^e) by nia. rewrite <- Z.add_assoc. f_equal. pose proof (Z.log2_spec (n / 2^e) Hq) as [Hl1 Hl2].
  symmetry. apply Z.log2_unique; [pose proof (Z.log2_nonneg (n / 2^e)); lia|].
  rewrite Z.pow_succ_r in Hl2 by apply Z.log2_nonneg.
  rewrite <- Z.add_succ_r, !Z.pow_add_r, Z.pow_succ_r by (apply Z.log2_nonneg || lia || (pose proof (Z.log2_nonneg (n / 2^e)); lia)).
  split; nia.
Qed.

Lemma fastLog2Floor_log2 n : 0 < n < 2^32 -> fastLog2Floor n = Z.log2 n.
Proof.
  intros Hn. unfold fastLog2Floor, log2FloorMasks. cbn [foldl].
  change 0xffff0000 with (Z.shiftl (Z.ones 16) 16). change 0xff00 with (Z.shiftl (Z.ones 8) 8).
  change 0xf0 with (Z.shiftl (Z.ones 4) 4). change 0xc with (Z.shiftl (Z.ones 2) 2).
  change (log2Step ?st 0x2) with (log2Step st (Z.shiftl (Z.ones 1) 1)).
  pose proof (log2Step_spec n 0 16 ltac:(lia) Hn) as H1. destruct (log2Step (n, 0, 16) _) as [[n1 r1] e1].
  destruct H1 as (H1 & E1 & ->). pose proof (log2Step_spec n1 r1 8 ltac:(lia) H1) as H2.
  change (16 / 2) with 8. destruct (log2Step (n1, r1, 8) _) as [[n2 r2] e2].
  destruct H2 as (H2 & E2 & ->). pose proof (log2Step_spec n2 r2 4 ltac:(lia) H2) as H3.
  change (8 / 2) with 4. destruct (log2Step (n2, r2, 4) _) as [[n3 r3] e3].
  destruct H3 as (H3 & E3 & ->). pose proof (log2Step_spec n3 r3 2 ltac:(lia) H3) as H4.
  change (4 / 2) with 2. destruct (log2Step (n3, r3, 2) _) as [[n4 r4] e4].
  destruct H4 as (H4 & E4 & ->). pose proof (log2Step_spec n4 r4 1 ltac:(lia) H4) as H5.
  change (2 / 2) with 1. destruct (log2Step (n4, r4, 1) _) as [[n5 r5] e5].
  destruct H5 as (H5 & E5 & _). cbn [fst snd]. assert (n5 = 1) as -> by lia. change (Z.log2 1) with 0 in E5. lia.
Qed.

(** The capacity computed for a locator is enough. *)
Lemma blockLocator_capacity bi t n :
  tree_ok bi -> inIndex bi t -> inIndex bi n ->
  zlen (blockLocator (viewOf t) (Some n)) <= locatorCapacity (node_height n).
Proof.
  intros Hbi Ht Hn. destruct (inIndex_wf bi n Hbi Hn) as [Hwn Hbn]. pose proof (wf_node_height n Hwn) as Hh.
  destruct (blockLocator_spec bi Hbi t n Ht Hn) as (K & H1 & H2 & ->). unfold zlen. rewrite length_fmap, length_seq.
  unfold locatorCapacity. destruct (Z.leb_spec (node_height n) 12).
  - rewrite (u8_id (node_height n)), u8_id by (widths; lia). destruct K as [|K]; [lia|].
    pose proof (H2 K ltac:(lia)) as Hk. unfold locatorOffset in Hk. destruct (Nat.leb_spec K 11); [lia|].
    pose proof (Z.pow_le_mono_r 2 2 (Z.of_nat K - 10)). lia.
  - rewrite (u32_id (node_height n)), u32_id by (widths; lia). rewrite fastLog2Floor_log2 by lia.
    set (L := Z.log2 (node_height n - 10)). pose proof (Z.log2_spec (node_height n - 10) ltac:(lia)) as Hl. fold L in Hl.
    assert (1 <= L < 32) by (split; [apply (Z.log2_le_mono 2); lia|apply Z.log2_lt_pow2; lia]).
    rewrite u8_id by (widths; lia). destruct (Z.le_gt_cases (Z.of_nat (S K)) (12 + L)); [done|].
    pose proof (H2 (Z.to_nat (11 + L)) ltac:(lia)) as Hk. unfold locatorOffset in Hk.
    destruct (Nat.leb_spec (Z.to_nat (11 + L)) 11); [lia|].
    replace (Z.of_nat (Z.to_nat (11 + L)) - 10) with (Z.succ L) in Hk by lia. lia.
Qed.

(** ** Properties *)

(** Switching the chain tip leaves exactly the branch of the new tip. From a
    view that is not initialised or shows the branch of any node of the index,
    [setTip], which stops at the first node already in place, does not panic and
    gives a view whose lookups by height are the ancestors of the new tip and
    which contains exactly the nodes of its branch. *)
Theorem setTip_is_branch bi c tip n :
  tree_ok bi -> view_of bi c tip -> inIndex bi n ->
  exists c', setTip c (Some n) = Some c' /\ view_of bi c' (Some n) /\ viewTip c' = Some n /\
    viewHeight c' = node_height n /\ (forall h, nodeByHeight c' h = Ancestor n h) /\
    forall m, inIndex bi m -> contains c' m = true <-> m ∈ branch n.
Proof.
  intros Hbi Hc Hn. destruct (inIndex_wf bi n Hbi Hn) as [Hw Hb]. exists (viewOf n).
  split; [by apply (setTip_viewOf bi Hbi c tip)|]. split; [by split|]. split; [apply viewTip_viewOf|].
  split; [by apply viewHeight_viewOf|]. split; [intros; by apply nodeByHeight_viewOf|].
  intros m Hm. by apply (contains_viewOf bi).
Qed.

(** A block locator brings two peers together. A node whose main chain ends in
    [t], asked with the locator of any known block [n] that shares a block with
    its chain and a stop hash it does not know, answers without a panic with the
    hashes of its main chain from the block after some common block [f] on, as
    many as there are up to the limit; and [f] is at most twice as far below [n]
    as any block the two branches share. *)
Theorem locator_answered bi t t' n hashStop maxHashes :
  tree_ok bi -> inIndex bi t -> inIndex bi t' -> inIndex bi n ->
  (exists m, m ∈ branch n /\ m ∈ branch t) -> LookupNode bi hashStop = None -> 0 <= maxHashes < 2^32 ->
  exists f, f ∈ branch n /\ f ∈ branch t /\
    locateBlocks bi (viewOf t) (blockLocator (viewOf t') (Some n)) hashStop maxHashes
    = Some (hashAt t <$> seqZ (node_height f + 1) (Z.min maxHashes (node_height t - node_height f))) /\
    forall m, m ∈ branch n -> m ∈ branch t ->
      node_height n - node_height f <= 2 * (node_height n - node_height m).
Proof.
  intros Hbi Ht Ht' Hn (m0 & Hm0 & Hm0t) Hstop Hmax. destruct (inIndex_wf bi n Hbi Hn) as [Hwn Hbn].
  destruct (blockLocator_spec bi Hbi t' n Ht' Hn) as (K & HK1 & HK2 & Hloc).
  set (L j := Z.max 0 (node_height n - locatorOffset j)) in *. pose proof (wf_node_height n Hwn) as Hhn.
  assert (HL : forall j, exists x, Ancestor n (L j) = Some x).
  { intros j. pose proof (locatorOffset_nonneg j). apply Ancestor_exists; [done|unfold L; lia]. }
  assert (Hknown : forall m, m ∈ branch n -> m ∈ branch t -> forall j x,
            node_height n - node_height m <= locatorOffset j -> Ancestor n (L j) = Some x -> x ∈ branch t).
  { intros m Hm Hmt j x Hj Hx. apply (shared_below bi Hbi t n m x Ht Hn Hm Hmt).
    - by destruct (Ancestor_Some n _ x Hwn Hx).
    - destruct (Ancestor_Some n _ x Hwn Hx) as (_ & -> & _). pose proof (branch_height_le n m Hwn Hm). unfold L. lia. }
  destruct (firstKnown_spec bi Hbi t n L 0 (S K) Ht Hn) as (j & f & Hj & Hf & Hft & Hfirst & Hbefore).
  { intros; apply HL. }
  { destruct (HL K) as [x Hx]. exists K, x. split; [lia|]. split; [done|]. apply (Hknown m0 Hm0 Hm0t K x); [|done].
    pose proof (branch_height_le n m0 Hwn Hm0). lia. }
  destruct (Ancestor_Some n _ f Hwn Hf) as (Hfn & Hfh & _).
  exists f. split; [done|]. split; [done|]. split.
  - rewrite Hloc. apply (locateBlocks_from bi Hbi); try done.
  - intros m Hm Hmt. assert (Hoff : node_height n - node_height f <= locatorOffset j) by (rewrite Hfh; unfold L; lia).
    etransitivity; [exact Hoff|]. pose proof (branch_height_le n m Hwn Hm) as Hmh.
    destruct j as [|j]; [change (locatorOffset 0) with 0; lia|].
    assert (Hlt : locatorOffset j < node_height n - node_height m).
    { destruct (Z.lt_ge_cases (locatorOffset j) (node_height n - node_height m)); [done|].
      destruct (HL j) as [x Hx]. destruct (Hbefore j x ltac:(lia) Hx). by apply (Hknown m Hm Hmt j x). }
    rewrite locatorOffset_S. pose proof (locatorStep_offset j). lia.
Qed.

(** ** Witnesses *)

(** Three blocks in a row and a block beside the last one. *)
Definition sampleSide : blockNode :=
  newBlockNode (mkBlockHeader 1 zeroHash zeroHash 1700000900 0x1d00ffff 99) (Some (sampleNode 1)).
Definition sampleIndex : blockIndex :=
  foldl (fun bi n => AddNode bi n statusDataStored) (mkBlockIndex ∅ ∅ ∅)
    [sampleNode 0; sampleNode 1; sampleNode 2; sampleSide].

Lemma sampleTree_ok :
  tree_ok sampleIndex /\ inIndex sampleIndex (sampleNode 2) /\ inIndex sampleIndex sampleSide.
Proof.
  assert (Hk : forall bi header p q, inIndex bi q -> bi_index bi !! node_hash (newBlockNode header p) = None ->
            inIndex (AddNode bi (newBlockNode header p) statusDataStored) q).
  { intros bi header p q Hq Hn. unfold inIndex, AddNode, addNode in *. cbn [bi_index].
    rewrite lookup_insert_ne; [done|]. intros E. rewrite E in Hn. congruence. }
  unfold sampleIndex. cbn [foldl]. set (b0 := AddNode (mkBlockIndex ∅ ∅ ∅) (sampleNode 0) statusDataStored).
  destruct (AddNode_ok (mkBlockIndex ∅ ∅ ∅) (sampleNodeHeader 0) None statusDataStored) as [H0 I0];
    [apply map_Forall_empty|done|apply lookup_empty|].
  change (tree_ok b0) in H0. change (inIndex b0 (sampleNode 0)) in I0.
  set (b1 := AddNode b0 (sampleNode 1) statusDataStored).
  destruct (AddNode_ok b0 (sampleNodeHeader 1) (Some (sampleNode 0)) statusDataStored H0) as [H1 I1];
    [split; [exact I0|reflexivity]|vm_compute; reflexivity|].
  change (tree_ok b1) in H1. change (inIndex b1 (sampleNode 1)) in I1.
  set (b2 := AddNode b1 (sampleNode 2) statusDataStored).
  assert (E2 : bi_index b1 !! node_hash (sampleNode 2) = None) by (vm_compute; reflexivity).
  destruct (AddNode_ok b1 (sampleNodeHeader 2) (Some (sampleNode 1)) statusDataStored H1) as [H2 I2];
    [split; [exact I1|reflexivity]|exact E2|].
  change (tree_ok b2) in H2. change (inIndex b2 (sampleNode 2)) in I2.
  assert (I21 : inIndex b2 (sampleNode 1)).
  { apply (Hk b1 (sampleNodeHeader 2) (Some (sampleNode 1)) (sampleNode 1)); [exact I1|exact E2]. }
  assert (E3 : bi_index b2 !! node_hash sampleSide = None) by (vm_compute; reflexivity).
  destruct (AddNode_ok b2 (mkBlockHeader 1 zeroHash zeroHash 1700000900 0x1d00ffff 99) (Some (sampleNode 1))
              statusDataStored H2) as [H3 I3]; [split; [exact I21|reflexivity]|exact E3|].
  split; [exact H3|]. split; [|exact I3].
  apply (Hk b2 (mkBlockHeader 1 zeroHash zeroHash 1700000900 0x1d00ffff 99) (Some (sampleNode 1)) (sampleNode 2));
    [exact I2|exact E3].
Qed.

Lemma setTip_is_branch_witness :
  exists c', setTip (viewOf (sampleNode 2)) (Some sampleSide) = Some c' /\ viewTip c' = Some sampleSide /\
             nodeByHeight c' 1 = Ancestor sampleSide 1.
Proof.
  destruct sampleTree_ok as (H & H2 & Hs).
  destruct (setTip_is_branch sampleIndex (viewOf (sampleNode 2)) (Some (sampleNode 2)) sampleSide H
              (conj H2 eq_refl) Hs) as (c' & E & _ & Ht & _ & Hh & _).
  exists c'. split; [exact E|]. split; [exact Ht|exact (Hh 1)].
Defined.

Lemma sampleNode1_shared : sampleNode 1 ∈ branch sampleSide /\ sampleNode 1 ∈ branch (sampleNode 2).
Proof. split; right; left. Qed.

Lemma locator_answered_witness :
  exists f, f ∈ branch sampleSide /\ f ∈ branch (sampleNode 2) /\
    locateBlocks sampleIndex (viewOf (sampleNode 2)) (blockLocator (viewOf (sampleNode 2)) (Some sampleSide)) zeroHash 500
    = Some (hashAt (sampleNode 2) <$> seqZ (node_height f + 1) (Z.min 500 (node_height (sampleNode 2) - node_height f))).
Proof.
  destruct sampleTree_ok as (H & H2 & Hs).
  destruct (locator_answered sampleIndex (sampleNode 2) (sampleNode 2) sampleSide zeroHash 500 H H2 H2 Hs
              (ex_intro _ (sampleNode 1) sampleNode1_shared)) as (f & F1 & F2 & F3 & _).
  - vm_compute. reflexivity.
  - split; [discriminate|reflexivity].
  - exists f. exact (conj F1 (conj F2 F3)).
Defined.
