(* ===== verification/ExpiryIndex.v ===== *)
(** * The expiry index

    src/blockchain/expiryindex/expiryindex.go, reindex.go and shadow.go:
    connecting and disconnecting blocks, the expiry commitment check, the scans
    that RPC, mining and consensus read, statistics, and building the index from
    the UTXO set or block by block.

    A database transaction is a function from the buckets to their new content
    or an error; [dbUpdate] is [db.Update], which keeps the old content on an
    error. Logging is left out, except that the arguments of the last debug line
    of [ConnectBlock] compute a digest, which can panic. *)

From S2P Require Import Prelude ChainParams Sha256 Wire Encode MuHash Commitment Script Block Bucket IndexDB Ledger.

Record ExpiryIndex := mkExpiryIndex {
  expiryParams : ExpiryIndexParams;
  curTipHeight : Z;
  disabled : bool }.

Definition NewExpiryIndex (params : Params) : result ei_error ExpiryIndex :=
  match GetExpiryIndexParams params with
  | None => Err ParamsMissing
  | Some ep => Ok (mkExpiryIndex ep (-1) false)
  end.

Definition withTip (idx : ExpiryIndex) (h : Z) : ExpiryIndex :=
  mkExpiryIndex (expiryParams idx) h (disabled idx).

Definition dbUpdate (db : IndexDB) (f : IndexDB -> result ei_error IndexDB)
    : IndexDB * result ei_error unit :=
  match f db with Ok db' => (db', Ok tt) | Err e => (db, Err e) end.

Definition Create (idx : ExpiryIndex) (db : IndexDB) : result ei_error IndexDB :=
  if disabled idx then Ok db
  else dbPutIndexVersion (createExpiryIndexBuckets db) CurrentIndexVersion.

Definition shouldIndexCreateHeight (idx : ExpiryIndex) (createHeight : Z) : bool :=
  (0 <? createHeight) && (eiStartScanHeight (expiryParams idx) <=? createHeight).

Definition connectTxOut (idx : ExpiryIndex) (db : IndexDB) (outpoint : OutPoint)
    (createHeight amount : Z) : result ei_error IndexDB :=
  if negb (shouldIndexCreateHeight idx createHeight) then Ok db
  else putTxOutMapping db outpoint (eiCalculateExpiryKey (expiryParams idx) createHeight) amount.

(** ** The expiry commitment *)

Definition isCommitmentActive (idx : ExpiryIndex) (height : Z) : bool :=
  let h := eiExpiryCommitmentEnableAtHeight (expiryParams idx) in
  (0 <? h) && (h <=? height).

Definition validateExpiryCommitment (idx : ExpiryIndex) (block : Block) (expectedRoot : list Z)
    : result ei_error unit :=
  if negb (isCommitmentActive idx (Height block)) then Ok tt
  else
    match Transactions block with
    | [] => Err (RuntimePanic "no coinbase")
    | coinbaseTx :: _ =>
        if 1 <? CountExpiryCommitments coinbaseTx then Err ErrBadExpiryCommitmentDuplicate
        else
          match ExtractExpiryCommitment coinbaseTx with
          | None => Err ErrBadExpiryCommitmentMissing
          | Some (version, root) =>
              if negb (version =? ExpiryCommitmentVersion) then Err ErrBadExpiryCommitmentFormat
              else if negb (bool_decide (root = expectedRoot)) then Err ErrBadExpiryCommitmentMismatch
              else Ok tt
          end
    end.

(** ** Connecting a block *)

(** The buckets and the accumulator in memory. *)
Definition indexState : Type := IndexDB * MuHash.

Definition connectInput (st : indexState) (op : OutPoint) : result ei_error indexState :=
  let '(db, mh) := st in
  outpointBucket ← orPanic "nil outpoint bucket" (bktOutpoint2Expiry db);
  mh' ← match outpointBucket !! encodeOutPoint op with
        | None => Ok mh
        | Some encodedEK =>
            let ek := match decodeExpiryKey encodedEK with Ok ek => ek | Err _ => 0 end in
            orPanic "muhash" (Remove mh (computeEntryData op ek))
        end;
  db' ← disconnectTxOut db op;
  Ok (db', mh').

Definition connectOutput (idx : ExpiryIndex) (h : Z) (outpoint : OutPoint) (txOut : TxOut)
    (st : indexState) : result ei_error indexState :=
  let '(db, mh) := st in
  if negb (shouldIndexCreateHeight idx h) then Ok st
  else if IsUnspendable (PkScript txOut) then Ok st
  else
    let expiryKey := eiCalculateExpiryKey (expiryParams idx) h in
    mh' ← orPanic "muhash" (Add mh (computeEntryData outpoint expiryKey));
    db' ← connectTxOut idx db outpoint h (Value txOut);
    Ok (db', mh').

Fixpoint connectOutputs (idx : ExpiryIndex) (h : Z) (hash : list Z) (i : nat) (outs : list TxOut)
    (st : indexState) : result ei_error indexState :=
  match outs with
  | [] => Ok st
  | o :: outs' =>
      st' ← connectOutput idx h (txOutPoint hash i) o st;
      connectOutputs idx h hash (S i) outs' st'
  end.

Definition connectTx (idx : ExpiryIndex) (h : Z) (st : indexState) (tx : MsgTx)
    : result ei_error indexState :=
  st1 ← (if IsCoinBaseTx tx then Ok st else foldM connectInput st (prevOuts tx));
  connectOutputs idx h (TxHash tx) 0 (TxOuts tx) st1.

Definition ConnectBlock (idx : ExpiryIndex) (db : IndexDB) (block : Block)
    : result ei_error (IndexDB * ExpiryIndex) :=
  if disabled idx then Ok (db, idx)
  else
    let h := Height block in
    if negb (IsIndexingEnabled (expiryParams idx) h) then
      db1 ← dbPutTipHeightIndexed db h;
      db2 ← dbPutAccumulatorTipHash db1 (Some (Block_Hash block));
      Ok (db2, idx)
    else
      mh ← dbGetAccumulatorState db;
      root ← orPanic "muhash digest" (Digest mh);
      _ ← validateExpiryCommitment idx block root;
      '(db1, mh1) ← foldM (connectTx idx h) (db, mh) (Transactions block);
      db2 ← dbPutAccumulatorState db1 mh1;
      db3 ← dbPutAccumulatorTipHash db2 (Some (Block_Hash block));
      db4 ← dbPutTipHeightIndexed db3 h;
      _ ← orPanic "muhash digest" (Digest mh1);
      Ok (db4, withTip idx h).

(** ** Disconnecting a block *)

Definition disconnectOutput (idx : ExpiryIndex) (h : Z) (hash : list Z)
    (st : indexState) (io : nat * TxOut) : result ei_error indexState :=
  let '(db, mh) := st in
  let '(i, txOut) := io in
  if negb (shouldIndexCreateHeight idx h) then Ok st
  else if IsUnspendable (PkScript txOut) then Ok st
  else
    let outpoint := txOutPoint hash i in
    let expiryKey := eiCalculateExpiryKey (expiryParams idx) h in
    mh' ← orPanic "muhash" (Remove mh (computeEntryData outpoint expiryKey));
    db' ← disconnectTxOut db outpoint;
    Ok (db', mh').

(** An input with the place of its journal entry. *)
Definition reconnectInput (idx : ExpiryIndex) (stxos : list SpentTxOut)
    (st : indexState) (iop : nat * OutPoint) : result ei_error indexState :=
  let '(db, mh) := st in
  let '(stxoIdx, op) := iop in
  match stxos !! stxoIdx with
  | None => Err StxoOutOfRange
  | Some stxo =>
      if negb (shouldIndexCreateHeight idx (stxo_Height stxo)) then Ok st
      else
        let expiryKey := eiCalculateExpiryKey (expiryParams idx) (stxo_Height stxo) in
        mh' ← orPanic "muhash" (Add mh (computeEntryData op expiryKey));
        db' ← connectTxOut idx db op (stxo_Height stxo) (stxo_Amount stxo);
        Ok (db', mh')
  end.

(** [stxoOffsets]: where the journal entries of each transaction start. *)
Fixpoint stxoOffsetsFrom (txIdx offset : nat) (txs : list MsgTx) : list nat :=
  match txs with
  | [] => []
  | tx :: txs' =>
      offset :: stxoOffsetsFrom (S txIdx)
        (if (txIdx =? 0)%nat then offset else (offset + length (TxIns tx))%nat) txs'
  end.

Definition enumerate {A} (start : nat) (l : list A) : list (nat * A) :=
  zip (seq start (length l)) l.

Definition disconnectTx (idx : ExpiryIndex) (h : Z) (stxos : list SpentTxOut)
    (st : indexState) (entry : nat * (nat * MsgTx)) : result ei_error indexState :=
  let '(txIdx, (baseOffset, tx)) := entry in
  st1 ← foldM (disconnectOutput idx h (TxHash tx)) st (reverse (enumerate 0 (TxOuts tx)));
  if (txIdx =? 0)%nat then Ok st1
  else foldM (reconnectInput idx stxos) st1 (enumerate baseOffset (prevOuts tx)).

Definition DisconnectBlock (idx : ExpiryIndex) (db : IndexDB) (block : Block)
    (stxos : list SpentTxOut) : result ei_error (IndexDB * ExpiryIndex) :=
  if disabled idx then Ok (db, idx)
  else
    let h := Height block in
    let prevHash := bh_PrevBlock (Header block) in
    if negb (IsIndexingEnabled (expiryParams idx) h) then
      db1 ← dbPutTipHeightIndexed db (i32 (h - 1));
      db2 ← dbPutAccumulatorTipHash db1 (Some prevHash);
      Ok (db2, idx)
    else
      mh ← dbGetAccumulatorState db;
      let txs := Transactions block in
      let work := enumerate 0 (zip (stxoOffsetsFrom 0 0 txs) txs) in
      '(db1, mh1) ← foldM (disconnectTx idx h stxos) (db, mh) (reverse work);
      db2 ← dbPutAccumulatorState db1 mh1;
      db3 ← dbPutAccumulatorTipHash db2 (Some prevHash);
      db4 ← dbPutTipHeightIndexed db3 (i32 (h - 1));
      Ok (db4, withTip idx (i32 (h - 1))).

(** ** Queries *)

Record AccumulatorSnapshot := mkSnapshot {
  Root : list Z;
  TipHash : list Z;
  TipHeight : Z }.

Definition GetAccumulatorSnapshot (idx : ExpiryIndex) (db : IndexDB)
    : result ei_error AccumulatorSnapshot :=
  if disabled idx then Err IndexDisabled
  else
    mh ← dbGetAccumulatorState db;
    root ← orPanic "muhash digest" (Digest mh);
    tipHeight ← dbGetTipHeightIndexed db;
    tipHash ← dbGetAccumulatorTipHash db;
    Ok (mkSnapshot root tipHash tipHeight).

Definition GetAccumulatorDigest (idx : ExpiryIndex) (db : IndexDB) : result ei_error (list Z) :=
  snapshot ← GetAccumulatorSnapshot idx db;
  Ok (Root snapshot).

Definition ReapPrefixTipHeight (idx : ExpiryIndex) (db : IndexDB) : result ei_error Z :=
  if disabled idx then Err IndexDisabled else dbGetTipHeightIndexed db.

(** [blockchain.ReapPrefixCandidate] *)
Record ReapPrefixCandidate := mkReapPrefixCandidate {
  rpc_OutPoint : OutPoint;
  rpc_ExpiryKey : Z;
  rpc_Amount : Z }.

#[export] Instance ReapPrefixCandidate_eq_dec : EqDecision ReapPrefixCandidate.
Proof. solve_decision. Defined.

Fixpoint prefixLoop (toKey limit : Z) (keys : list (list Z)) (results : list ReapPrefixCandidate)
    : result ei_error (list ReapPrefixCandidate) :=
  match keys with
  | [] => Ok results
  | key :: keys' =>
      '(expiryKey, amount, outpoint) ← liftEncode (decodeReapStrictCompositeKey key);
      if toKey <? expiryKey then Ok results
      else
        let results' := results ++ [mkReapPrefixCandidate outpoint expiryKey amount] in
        if limit <=? zlen results' then Ok results'
        else prefixLoop toKey limit keys' results'
  end.

Definition ReapPrefixCandidates (idx : ExpiryIndex) (db : IndexDB) (blockHeight limit : Z)
    : result ei_error (list ReapPrefixCandidate) :=
  if disabled idx then Err IndexDisabled
  else if limit <=? 0 then Ok []
  else if blockHeight <? 0 then Ok []
  else
    reapBucket ← needBucket "reap-strict-candidates" (bktReapStrictCandidates db);
    prefixLoop (u64 blockHeight) limit (cursorFirst reapBucket) [].

Record ExpiringUTXO := mkExpiringUTXO { eu_OutPoint : OutPoint; eu_ExpiryKey : Z }.

Fixpoint scanLoop (toKey maxResults : Z) (keys : list (list Z)) (results : list ExpiringUTXO)
    : result ei_error (list ExpiringUTXO * bool) :=
  match keys with
  | [] => Ok (results, false)
  | key :: keys' =>
      '(expiryKey, outpoint) ← liftEncode (decodeExpiryOutpointCompositeKey key);
      if toKey <? expiryKey then Ok (results, false)
      else if maxResults <=? zlen results then Ok (results, true)
      else scanLoop toKey maxResults keys' (results ++ [mkExpiringUTXO outpoint expiryKey])
  end.

Definition ScanExpiringUTXOs (idx : ExpiryIndex) (db : IndexDB) (fromKey toKey maxResults : Z)
    (startAfter : option OutPoint) : result ei_error (list ExpiringUTXO * bool) :=
  if disabled idx then Err IndexDisabled
  else if maxResults <=? 0 then Ok ([], false)
  else
    expiryBucket ← needBucket "expiry-to-outpoints" (bktExpiry2Outpoints db);
    let keys :=
      match startAfter with
      | Some op =>
          let seekKey := encodeExpiryOutpointCompositeKey fromKey op in
          match cursorSeek expiryBucket seekKey with
          | k :: keys' => if bool_decide (k = seekKey) then keys' else k :: keys'
          | [] => []
          end
      | None => cursorSeek expiryBucket (expiryCompositePrefix fromKey)
      end in
    scanLoop toKey maxResults keys [].

(** The bisection of [findOutPointStartIndex], on fuel: the interval halves. *)
Fixpoint bisectAfter (fuel : nat) (outpoints : list OutPoint) (startAfter : OutPoint)
    (low high : Z) : Z :=
  match fuel with
  | O => low
  | S fuel' =>
      if low <? high then
        let mid := (low + high) / 2 in
        match compareOutPoint (nth (Z.to_nat mid) outpoints (mkOutPoint [] 0)) startAfter with
        | Gt => bisectAfter fuel' outpoints startAfter low mid
        | _ => bisectAfter fuel' outpoints startAfter (mid + 1) high
        end
      else low
  end.

Definition findOutPointStartIndex (outpoints : list OutPoint) (startAfter : option OutPoint) : Z :=
  match startAfter with
  | None => 0
  | Some op => bisectAfter (S (length outpoints)) outpoints op 0 (zlen outpoints)
  end.

Record ExpiryIndexStats := mkStats {
  st_Disabled : bool;
  st_TipHeight : Z;
  st_TotalUTXOs : Z;
  st_TotalExpiryKeys : Z }.

(** The distinct expiry keys of consecutive scan keys. *)
Fixpoint countExpiryKeys (keys : list (list Z)) (last : option Z) (count : Z)
    : result ei_error Z :=
  match keys with
  | [] => Ok count
  | key :: keys' =>
      if negb (length key =? expiryOutpointCompositeKeySize)%nat
      then Err (EncodeError (InvalidExpiryCompositeKeyLength (length key)))
      else
        expiryKey ← liftEncode (decodeExpiryKey (take expiryKeyEncodedSize key));
        if bool_decide (last = Some expiryKey) then countExpiryKeys keys' last count
        else countExpiryKeys keys' (Some expiryKey) (count + 1)
  end.

Definition GetStats (idx : ExpiryIndex) (db : IndexDB) : result ei_error ExpiryIndexStats :=
  if disabled idx then Ok (mkStats true 0 0 0)
  else
    tipHeight ← dbGetTipHeightIndexed db;
    let total := match bktOutpoint2Expiry db with
                 | Some b => zlen (cursorFirst b)
                 | None => 0
                 end in
    keys ← match bktExpiry2Outpoints db with
           | Some b => countExpiryKeys (cursorFirst b) None 0
           | None => Ok 0
           end;
    Ok (mkStats false tipHeight total keys).

(** ** Clearing and rebuilding *)

(** [clearExpiryIndexBuckets]: the cursor loops delete every key of the four
    entry buckets that exist. *)
Definition clearBucket (b : option Bucket) : option Bucket :=
  match b with
  | Some b => Some (foldl (fun b k => delete k b) b (cursorFirst b))
  | None => None
  end.

Definition clearExpiryIndexBuckets (db : IndexDB) : result ei_error IndexDB :=
  let db0 := mkIndexDB (bktExpiryMeta db) (clearBucket (bktOutpoint2Expiry db))
               (clearBucket (bktExpiry2Outpoints db)) (clearBucket (bktReapStrictCandidates db))
               (clearBucket (bktOutpoint2ReapStrict db)) in
  db1 ← dbPutAccumulatorState db0 NewMuHash;
  db2 ← dbPutAccumulatorTipHash db1 (Some zeroHash);
  dbPutTipHeightIndexed db2 (-1).

Definition ReindexExpiryIndex (db : IndexDB) : IndexDB * result ei_error unit :=
  dbUpdate db (fun db =>
    db1 ← clearExpiryIndexBuckets (createExpiryIndexBuckets db);
    db2 ← dbPutTipHeightIndexed db1 (-1);
    dbPutIndexVersion db2 CurrentIndexVersion).

(** The chain as the index sees it: tip height, blocks and spend journals by
    height, and the UTXO set in the order the iterator visits it, with an error
    when the iteration breaks off. *)
Record ChainAccessor := mkChainAccessor {
  BestHeight : Z;
  BlockByHeight : Z -> result ei_error Block;
  FetchSpendJournal : Block -> result ei_error (list SpentTxOut);
  ForEachUTXOWithAmount : list (OutPoint * Z * Z);
  ForEachUTXOError : option ei_error }.

(** An entry waiting to be written: outpoint, expiry key, amount. *)
Definition batchEntry : Type := OutPoint * Z * Z.

Definition writeBatch (batch : list batchEntry) (db : IndexDB) : result ei_error IndexDB :=
  foldM (fun db e => putTxOutMapping db e.1.1 e.1.2 e.2) db batch.

(** The rebuild loop: the buckets, the accumulator and the unwritten batch.
    [keep] decides which outputs are indexed. *)
Definition rebuildState : Type := IndexDB * MuHash * list batchEntry.

Definition processUTXO (p : ExpiryIndexParams) (keep : Z -> bool) (batchSize : nat)
    (st : rebuildState) (utxo : OutPoint * Z * Z) : rebuildState * result ei_error unit :=
  let '(db, mh, batch) := st in
  let '(outpoint, createHeight, amount) := utxo in
  if negb (keep createHeight) then (st, Ok tt)
  else
    let expiryKey := eiCalculateExpiryKey p createHeight in
    match Add mh (computeEntryData outpoint expiryKey) with
    | None => (st, Err (RuntimePanic "muhash"))
    | Some mh' =>
        let batch' := batch ++ [(outpoint, expiryKey, amount)] in
        if (batchSize <=? length batch')%nat then
          match writeBatch batch' db with
          | Ok db' => ((db', mh', []), Ok tt)
          | Err e => ((db, mh', batch'), Err e)
          end
        else ((db, mh', batch'), Ok tt)
    end.

Fixpoint processUTXOs (p : ExpiryIndexParams) (keep : Z -> bool) (batchSize : nat)
    (st : rebuildState) (utxos : list (OutPoint * Z * Z)) : rebuildState * result ei_error unit :=
  match utxos with
  | [] => (st, Ok tt)
  | u :: utxos' =>
      match processUTXO p keep batchSize st u with
      | (st', Ok _) => processUTXOs p keep batchSize st' utxos'
      | (st', Err e) => (st', Err e)
      end
  end.

(** Populating from an iterator and flushing the rest of the batch. *)
Definition populate (p : ExpiryIndexParams) (keep : Z -> bool) (batchSize : nat)
    (db : IndexDB) (utxos : list (OutPoint * Z * Z)) (iterErr : option ei_error)
    : IndexDB * MuHash * result ei_error unit :=
  match processUTXOs p keep batchSize (db, NewMuHash, []) utxos with
  | ((db1, mh, _), Err e) => (db1, mh, Err e)
  | ((db1, mh, batch), Ok _) =>
      match iterErr with
      | Some e => (db1, mh, Err e)
      | None =>
          match writeBatch batch db1 with
          | Ok db2 => (db2, mh, Ok tt)
          | Err e => (db1, mh, Err e)
          end
      end
  end.

(** What a rebuild leaves: buckets, index, and whether it failed. *)
Definition rebuildResult : Type := IndexDB * ExpiryIndex * result ei_error unit.

(** [resetToEmpty]: the error of clearing is only logged. *)
Definition resetToEmpty (db : IndexDB) (idx : ExpiryIndex) (cause : ei_error) : rebuildResult :=
  ((dbUpdate db clearExpiryIndexBuckets).1, withTip idx (-1), Err cause).

Definition fastRebuildFromUTXO (idx : ExpiryIndex) (chain : option ChainAccessor) (db : IndexDB)
    (chainTipHeight : Z) : rebuildResult :=
  match chain with
  | None => (db, idx, Err ChainNotSet)
  | Some ch =>
      match dbUpdate db clearExpiryIndexBuckets with
      | (db0, Err e) => (db0, idx, Err e)
      | (db0, Ok _) =>
          let idx0 := withTip idx (-1) in
          match populate (expiryParams idx) (shouldIndexCreateHeight idx) DefaultBatchSize db0
                  (ForEachUTXOWithAmount ch) (ForEachUTXOError ch) with
          | (db1, _, Err e) => resetToEmpty db1 idx0 e
          | (db1, mh, Ok _) =>
              match dbUpdate db1 (fun db =>
                      db2 ← dbPutAccumulatorState db mh;
                      db3 ← (if 0 <=? chainTipHeight then
                               block ← BlockByHeight ch chainTipHeight;
                               dbPutAccumulatorTipHash db2 (Some (Block_Hash block))
                             else dbPutAccumulatorTipHash db2 (Some zeroHash));
                      dbPutTipHeightIndexed db3 chainTipHeight) with
              | (db4, Ok _) => (db4, withTip idx0 chainTipHeight, Ok tt)
              | (db4, Err e) => resetToEmpty db4 idx0 e
              end
          end
      end
  end.

(** The blocks [height], [height + 1], ... connected one at a time. Their spend
    journals are fetched, which can fail, but connecting does not use them. *)
Fixpoint catchUpLoop (n : nat) (ch : ChainAccessor) (height : Z) (db : IndexDB)
    (idx : ExpiryIndex) : rebuildResult :=
  match n with
  | O => (db, idx, Ok tt)
  | S n' =>
      match BlockByHeight ch height with
      | Err e => (db, idx, Err e)
      | Ok block =>
          match FetchSpendJournal ch block with
          | Err e => (db, idx, Err e)
          | Ok _ =>
              match ConnectBlock idx db block with
              | Err e => (db, idx, Err e)
              | Ok (db', idx') => catchUpLoop n' ch (height + 1) db' idx'
              end
          end
      end
  end.

Definition incrementalCatchUp (idx : ExpiryIndex) (chain : option ChainAccessor) (db : IndexDB)
    (fromHeight toHeight : Z) : rebuildResult :=
  if toHeight <=? fromHeight then (db, idx, Ok tt)
  else
    match chain with
    | None => (db, idx, Err ChainNotSet)
    | Some ch => catchUpLoop (Z.to_nat (toHeight - fromHeight)) ch (fromHeight + 1) db idx
    end.

Definition tryFastRebuildOrFallback (idx : ExpiryIndex) (chain : option ChainAccessor)
    (db : IndexDB) (chainTipHeight : Z) : rebuildResult :=
  match fastRebuildFromUTXO idx chain db chainTipHeight with
  | (db1, idx1, Ok _) => (db1, idx1, Ok tt)
  | (db1, idx1, Err _) => incrementalCatchUp idx1 chain db1 (curTipHeight idx1) chainTipHeight
  end.

Definition getChainTipHeight (idx : ExpiryIndex) (chain : option ChainAccessor) : Z :=
  match chain with None => curTipHeight idx | Some ch => BestHeight ch end.

Definition fastRebuildThreshold : Z := 1000.

Definition smartRebuild (idx : ExpiryIndex) (chain : option ChainAccessor) (db : IndexDB)
    (indexTipHeight : Z) : rebuildResult :=
  let chainTipHeight := getChainTipHeight idx chain in
  let lag := i32 (chainTipHeight - indexTipHeight) in
  if indexTipHeight =? -1 then tryFastRebuildOrFallback idx chain db chainTipHeight
  else if fastRebuildThreshold <? lag then tryFastRebuildOrFallback idx chain db chainTipHeight
  else if 0 <? lag then incrementalCatchUp idx chain db indexTipHeight chainTipHeight
  else (db, idx, Ok tt).

(** [Init]: an index of another version is emptied first; the rebuild runs now
    when the chain is there and is left to [SetChainAccessor] otherwise. *)
Definition Init (idx : ExpiryIndex) (chain : option ChainAccessor) (db : IndexDB) : rebuildResult :=
  if disabled idx then (db, idx, Ok tt)
  else
    match (version ← dbGetIndexVersion db; tip ← dbGetTipHeightIndexed db; Ok (version, tip)) with
    | Err e => (db, idx, Err e)
    | Ok (storedVersion, tip) =>
        let '(db1, r, tip1) :=
          if negb (storedVersion =? 0) && negb (storedVersion =? CurrentIndexVersion) then
            let '(db1, r) := dbUpdate db (fun db =>
              db1 ← clearExpiryIndexBuckets db;
              db2 ← dbPutTipHeightIndexed db1 (-1);
              dbPutIndexVersion db2 CurrentIndexVersion) in
            (db1, r, -1)
          else (db, Ok tt, tip) in
        match r with
        | Err e => (db1, idx, Err e)
        | Ok _ =>
            let idx1 := withTip idx tip1 in
            match chain with
            | Some _ => smartRebuild idx1 chain db1 tip1
            | None => (db1, idx1, Ok tt)
            end
        end
    end.

(** [SetChainAccessor]: the error of the deferred rebuild is only logged. *)
Definition SetChainAccessor (idx : ExpiryIndex) (chain : ChainAccessor) (db : IndexDB)
    : IndexDB * ExpiryIndex :=
  if disabled idx then (db, idx)
  else (smartRebuild idx (Some chain) db (curTipHeight idx)).1.

(** ** The shadow builder of src/blockchain/expiryindex/shadow.go *)

Record ShadowUTXO := mkShadowUTXO {
  su_OutPoint : OutPoint;
  su_CreateHeight : Z;
  su_Amount : Z;
  su_IsCoinBase : bool }.

Record ShadowBuildOptions := mkShadowOptions {
  so_ChainTipHeight : Z;
  so_ChainTipHash : option (list Z);
  so_BatchSize : Z;
  so_SkipImmatureCoinbase : bool;
  so_CoinbaseMaturity : Z }.

Definition shadowKeep (p : ExpiryIndexParams) (opts : ShadowBuildOptions) (u : ShadowUTXO) : bool :=
  negb (su_CreateHeight u <=? 0)
  && negb (su_CreateHeight u <? eiStartScanHeight p)
  && negb (so_SkipImmatureCoinbase opts && su_IsCoinBase u
           && (i32 (so_ChainTipHeight opts - su_CreateHeight u) <? so_CoinbaseMaturity opts)).

Definition resetShadowIndex (db : IndexDB) : IndexDB :=
  (dbUpdate db (fun db => clearExpiryIndexBuckets (createExpiryIndexBuckets db))).1.

(** [source] is the callback's sequence of outputs and the error it ends with.
    The statistics are left out; the buckets are what the build leaves. *)
Definition BuildShadowIndexFromUTXO (db : IndexDB) (params : Params)
    (source : list ShadowUTXO * option ei_error) (opts : ShadowBuildOptions)
    : IndexDB * result ei_error unit :=
  match GetExpiryIndexParams params with
  | None => (db, Err ParamsMissing)
  | Some p =>
      let batchSize := if so_BatchSize opts <=? 0 then DefaultBatchSize
                       else Z.to_nat (so_BatchSize opts) in
      match dbUpdate db (fun db =>
              db1 ← clearExpiryIndexBuckets (createExpiryIndexBuckets db);
              dbPutIndexVersion db1 CurrentIndexVersion) with
      | (db0, Err e) => (db0, Err e)
      | (db0, Ok _) =>
          let kept := List.filter (shadowKeep p opts) source.1 in
          match populate p (fun _ => true) batchSize db0
                  (map (fun u => (su_OutPoint u, su_CreateHeight u, su_Amount u)) kept)
                  source.2 with
          | (db1, _, Err e) => (resetShadowIndex db1, Err e)
          | (db1, mh, Ok _) =>
              match dbUpdate db1 (fun db =>
                      db2 ← dbPutAccumulatorState db mh;
                      db3 ← dbPutAccumulatorTipHash db2 (Some (default zeroHash (so_ChainTipHash opts)));
                      db4 ← dbPutTipHeightIndexed db3 (so_ChainTipHeight opts);
                      dbPutIndexVersion db4 CurrentIndexVersion) with
              | (db2, Err e) => (resetShadowIndex db2, Err e)
              | (db2, Ok _) => (db2, Ok tt)
              end
          end
      end
  end.
