(* ===== verification/IndexRefine.v ===== *)
(** * The expiry index refines the ledger

    The index is proved to hold, at every block, exactly the projection of the
    ledger of Ledger.v to the outputs it should index, with the expiry key their
    creation height gives: [project]. Connecting a block refines [applyTxs],
    disconnecting it goes back, and the accumulator is the multiset hash of the
    projected entries throughout. *)

From S2P Require Import Prelude ChainParams Sha256 Wire Encode MuHash Commitment Script Block Bucket IndexDB Ledger ExpiryIndex.

(** ** Metadata *)

Lemma dbPutIndexMeta_Ok db b key v :
  bktExpiryMeta db = Some b -> dbPutIndexMeta db key v = Ok (withMeta db (<[key := v]> b)).
Proof. intros H. unfold dbPutIndexMeta. by rewrite H. Qed.

Lemma keys_distinct :
  keyTipHeightIndexed <> keyAccumulatorState /\ keyTipHeightIndexed <> keyAccumulatorTipHash /\
  keyAccumulatorTipHash <> keyAccumulatorState /\ keyIndexVersion <> keyAccumulatorState /\
  keyIndexVersion <> keyTipHeightIndexed /\ keyIndexVersion <> keyAccumulatorTipHash.
Proof. by vm_compute. Qed.

(** What a database says of itself: accumulator, tip height and tip hash. *)
Definition meta_is (db : IndexDB) (mh : MuHash) (tip : Z) (hash : list Z) : Prop :=
  dbGetAccumulatorState db = Ok mh /\ dbGetTipHeightIndexed db = Ok tip /\
  dbGetAccumulatorTipHash db = Ok hash.

(** The three writes that end every block, in the order of the source. *)
Lemma put_meta_spec db b mh hash tip :
  bktExpiryMeta db = Some b -> mu_wf mh -> length hash = HashSize -> is_i32 tip ->
  exists db1 db2 db3,
    dbPutAccumulatorState db mh = Ok db1 /\
    dbPutAccumulatorTipHash db1 (Some hash) = Ok db2 /\
    dbPutTipHeightIndexed db2 tip = Ok db3 /\
    same_entries db db3 /\ meta_is db3 mh tip hash.
Proof.
  intros Hb Hmh Hh Ht. destruct keys_distinct as (K1 & K2 & K3 & _).
  unfold dbPutAccumulatorState. rewrite MuHashSerialize_Ok by done. cbn [orPanic]. result_simpl.
  do 3 eexists. split; [by apply dbPutIndexMeta_Ok|].
  split; [by apply dbPutIndexMeta_Ok|]. split; [by apply dbPutIndexMeta_Ok|].
  split; [done|]. unfold meta_is, dbGetAccumulatorState, dbGetTipHeightIndexed, dbGetAccumulatorTipHash,
    dbGetIndexMeta. cbn [withMeta bktExpiryMeta needBucket]. result_simpl. split_and!.
  - rewrite !lookup_insert_ne, lookup_insert_eq by done. by rewrite MuHashDeserialize_serialized.
  - rewrite lookup_insert_eq, length_le_bytes. cbn [Nat.eqb negb].
    by rewrite le_val_u32, i32_u32 by (done || apply u32_range).
  - rewrite lookup_insert_ne, lookup_insert_eq by done. change (default zeroHash (Some hash)) with hash. by rewrite Hh.
Qed.

Lemma meta_is_bucket db mh tip hash : meta_is db mh tip hash -> exists b, bktExpiryMeta db = Some b.
Proof.
  intros (H & _). unfold dbGetAccumulatorState, dbGetIndexMeta in H.
  destruct (bktExpiryMeta db); [eauto|done].
Qed.

Lemma meta_is_eq db db' mh tip hash :
  bktExpiryMeta db' = bktExpiryMeta db -> meta_is db mh tip hash -> meta_is db' mh tip hash.
Proof.
  intros E. unfold meta_is, dbGetAccumulatorState, dbGetTipHeightIndexed, dbGetAccumulatorTipHash,
    dbGetIndexMeta. by rewrite E.
Qed.

Lemma represents_same db db' m : same_entries db db' -> represents db m -> represents db' m.
Proof. intros (E1 & E2 & E3 & E4) []. split; by rewrite <- ?E1, <- ?E2, <- ?E3, <- ?E4. Qed.

(** ** The projection *)

Section refine.
Context (idx : ExpiryIndex).

Definition coinEntry (c : SpentTxOut) : option entry :=
  if shouldIndexCreateHeight idx (stxo_Height c)
  then Some (eiCalculateExpiryKey (expiryParams idx) (stxo_Height c), stxo_Amount c) else None.

Definition project (u : utxo_set) : gmap OutPoint entry := omap coinEntry u.

(** Coins as validation leaves them: a real outpoint, an amount that is not
    negative, and an entry that is invertible in the accumulator. *)
Definition good_coin (op : OutPoint) (c : SpentTxOut) : Prop :=
  wf_outpoint op /\ is_amount (stxo_Amount c) /\
  invertible_data (computeEntryData op (eiCalculateExpiryKey (expiryParams idx) (stxo_Height c))).

Lemma coinEntry_wf op c ea :
  good_coin op c -> coinEntry c = Some ea ->
  wf_entry op ea /\ invertible_data (entryData (op, ea)).
Proof.
  intros (H1 & H2 & H3). unfold coinEntry. destruct (shouldIndexCreateHeight _ _); [|done].
  intros [= <-]. split; [|done]. split; [done|]. split; [apply u64_range|exact H2].
Qed.

Lemma project_delete u op : project (delete op u) = delete op (project u).
Proof. apply omap_delete. Qed.

Lemma project_lookup u op : project u !! op = (u !! op) ≫= coinEntry.
Proof. apply lookup_omap. Qed.

Lemma project_insert_Some u op c ea :
  coinEntry c = Some ea -> project (<[op := c]> u) = <[op := ea]> (project u).
Proof. intros H. unfold project. rewrite omap_insert. by rewrite H. Qed.

Lemma project_insert_None u op c :
  coinEntry c = None -> u !! op = None -> project (<[op := c]> u) = project u.
Proof.
  intros H Hu. unfold project. rewrite omap_insert, H. apply delete_id.
  change (project u !! op = None). by rewrite project_lookup, Hu.
Qed.

(** ** One input, one output *)

(** Buckets and accumulator agree with a ledger. *)
Record inv (st : indexState) (u : utxo_set) : Prop := {
  inv_rep : represents st.1 (project u);
  inv_acc : acc_ok st.2 (project u)
}.

Definition keeps_meta (st st' : indexState) : Prop :=
  bktExpiryMeta st'.1 = bktExpiryMeta st.1.

Lemma connectInput_refines st u op c :
  inv st u -> u !! op = Some c -> good_coin op c ->
  exists st', connectInput st op = Ok st' /\ inv st' (delete op u) /\ keeps_meta st st'.
Proof.
  destruct st as [db mh]. intros [Hrep Hacc] Hop Hgood. cbn [fst snd] in *.
  destruct (disconnectTxOut_refines db _ op Hrep (proj1 Hgood)) as (db' & Edis & Hrep' & Hmeta).
  pose proof Hrep as [Hwf (b1 & E1 & H1) _ _ _].
  unfold connectInput. rewrite E1. cbn [orPanic]. result_simpl.
  rewrite (o2e_lookup _ b1 op Hwf (proj1 Hgood) H1). rewrite project_lookup, Hop.
  cbn [mbind option_bind].
  destruct (coinEntry c) as [ea|] eqn:Ec; cbn [fmap option_fmap option_map].
  - destruct (coinEntry_wf op c ea Hgood Ec) as [(_ & He & _) Hinv].
    rewrite decodeExpiryKey_encode by done.
    destruct (acc_ok_remove mh (project u) op ea Hacc) as (mh' & Erem & Hacc');
      [by rewrite project_lookup, Hop|done|].
    change (computeEntryData op ea.1) with (entryData (op, ea)). rewrite Erem. cbn [orPanic].
    result_simpl. rewrite Edis. result_simpl. eexists. split; [done|].
    split; [split; cbn [fst snd]; by rewrite project_delete|done].
  - result_simpl. rewrite Edis. result_simpl. eexists. split; [done|].
    split; [|done]. split; cbn [fst snd]; rewrite project_delete; [done|].
    rewrite delete_id; [done|]. by rewrite project_lookup, Hop.
Qed.

(** Adding a coin, in memory and in the buckets: the common step of connecting
    an output and of restoring an input. *)
Lemma addEntry_refines db mh u op c ea :
  inv (db, mh) u -> u !! op = None -> good_coin op c -> coinEntry c = Some ea ->
  exists db' mh',
    Add mh (computeEntryData op (eiCalculateExpiryKey (expiryParams idx) (stxo_Height c))) = Some mh' /\
    connectTxOut idx db op (stxo_Height c) (stxo_Amount c) = Ok db' /\
    inv (db', mh') (<[op := c]> u) /\ bktExpiryMeta db' = bktExpiryMeta db.
Proof.
  intros [Hrep Hacc] Hop Hgood Ec. cbn [fst snd] in *.
  destruct (coinEntry_wf op c ea Hgood Ec) as [Hwf _].
  assert (Hnone : project u !! op = None) by by rewrite project_lookup, Hop.
  pose proof Ec as Ec'. unfold coinEntry in Ec'.
  unfold connectTxOut. destruct (shouldIndexCreateHeight idx (stxo_Height c)) eqn:Hs; [|done].
  injection Ec' as <-. cbn [negb].
  destruct (acc_ok_add mh _ op (eiCalculateExpiryKey (expiryParams idx) (stxo_Height c), stxo_Amount c)
              Hacc Hnone) as (mh' & Eadd & Hacc').
  destruct (putTxOutMapping_refines db _ op _ _ Hrep Hwf Hnone) as (db' & Eput & Hrep' & Hmeta).
  exists db', mh'. split_and!; [done|done| |done].
  split; cbn [fst snd]; by erewrite project_insert_Some.
Qed.

Definition good_set (u : utxo_set) : Prop := map_Forall good_coin u.
Definition good_new (l : list (OutPoint * SpentTxOut)) : Prop :=
  Forall (fun oc => good_coin oc.1 oc.2) l.

Lemma connectOutput_refines h op o cb st u :
  let c := mkSpentTxOut (Value o) (PkScript o) h cb in
  inv st u -> IsUnspendable (PkScript o) = false -> u !! op = None -> good_coin op c ->
  exists st', connectOutput idx h op o st = Ok st' /\ inv st' (<[op := c]> u) /\ keeps_meta st st'.
Proof.
  intros c Hinv Hus Hop Hgood. destruct st as [db mh]. unfold connectOutput. rewrite Hus.
  destruct (coinEntry c) as [ea|] eqn:Ec.
  - destruct (addEntry_refines db mh u op c ea Hinv Hop Hgood Ec) as (db' & mh' & E1 & E2 & Hinv' & Hm).
    pose proof Ec as Hs. unfold coinEntry in Hs. cbn [c stxo_Height stxo_Amount] in *.
    destruct (shouldIndexCreateHeight idx h); [|done]. cbn [negb].
    rewrite E1. cbn [orPanic]. result_simpl. rewrite E2. result_simpl. by eexists.
  - pose proof Ec as Hs. unfold coinEntry in Hs. cbn [c stxo_Height] in Hs.
    destruct (shouldIndexCreateHeight idx h); [done|]. cbn [negb]. eexists. split; [done|].
    split; [|done]. destruct Hinv. by split; rewrite project_insert_None.
Qed.

Lemma connectOutputs_refines h hash cb i outs st u u' :
  inv st u -> addCoins u (newCoinsFrom hash h cb i outs) = Some u' ->
  good_new (newCoinsFrom hash h cb i outs) ->
  exists st', connectOutputs idx h hash i outs st = Ok st' /\ inv st' u' /\ keeps_meta st st'.
Proof.
  revert i st u; induction outs as [|o outs IH]; intros i st u Hinv;
    cbn [newCoinsFrom connectOutputs].
  { intros [= <-] _. by exists st. }
  destruct (IsUnspendable (PkScript o)) eqn:Hus; cbn [app addCoins].
  - intros Hadd Hgood. assert (connectOutput idx h (txOutPoint hash i) o st = Ok st) as ->.
    { destruct st. unfold connectOutput. rewrite Hus. by destruct (negb _). }
    result_simpl. by eapply IH.
  - destruct (u !! txOutPoint hash i) eqn:Hop; [done|]. intros Hadd [Hg Hgs]%Forall_cons_1.
    destruct (connectOutput_refines h _ o cb st u Hinv Hus Hop Hg) as (st1 & -> & Hinv1 & Hm1).
    result_simpl. destruct (IH _ _ _ Hinv1 Hadd Hgs) as (st2 & -> & Hinv2 & Hm2).
    exists st2. split_and!; try done; try apply Hinv2. unfold keeps_meta in *. congruence.
Qed.

Lemma connectInputs_refines ops st u u' cs :
  inv st u -> spendCoins u ops = Some (u', cs) -> good_set u ->
  exists st', foldM connectInput st ops = Ok st' /\ inv st' u' /\ keeps_meta st st' /\ good_set u'.
Proof.
  revert st u cs; induction ops as [|op ops IH]; intros st u cs Hinv; cbn [spendCoins foldM].
  { intros [= <- _] Hg. by exists st. }
  destruct (u !! op) as [c|] eqn:Hop; cbn [mbind option_bind]; [|done].
  destruct (spendCoins (delete op u) ops) as [[u1 cs1]|] eqn:E1; cbn [mbind option_bind]; [|done].
  intros [= <- <-] Hg.
  destruct (connectInput_refines st u op c Hinv Hop (Hg _ _ Hop)) as (st1 & -> & Hinv1 & Hm1).
  destruct (IH st1 (delete op u) cs1 Hinv1 E1) as (st2 & -> & Hinv2 & Hm2 & Hg2);
    [by apply map_Forall_delete|].
  exists st2. split; [done|]. split; [done|]. split; [|done]. unfold keeps_meta in *. congruence.
Qed.

Lemma good_addCoins l u u' :
  good_set u -> good_new l -> addCoins u l = Some u' -> good_set u'.
Proof.
  intros Hu Hl. revert u Hu; induction Hl as [|[op c] l Hc Hl IH]; intros u Hu; cbn [addCoins].
  { by intros [= <-]. }
  destruct (u !! op); [done|]. apply IH. by apply map_Forall_insert_2.
Qed.

Lemma connectTx_refines h st u tx u' cs :
  inv st u -> applyTx h u tx = Some (u', cs) -> good_set u -> good_new (newCoins h tx) ->
  exists st', connectTx idx h st tx = Ok st' /\ inv st' u' /\ keeps_meta st st' /\ good_set u'.
Proof.
  intros Hinv Happ Hg Hn. unfold connectTx, applyTx in *.
  assert (exists u1, (exists st1, (if IsCoinBaseTx tx then Ok st else foldM connectInput st (prevOuts tx))
      = Ok st1 /\ inv st1 u1 /\ keeps_meta st st1) /\ good_set u1 /\ addCoins u1 (newCoins h tx) = Some u')
    as (u1 & (st1 & E1 & Hinv1 & Hm1) & Hg1 & Hadd).
  { destruct (IsCoinBaseTx tx); cbn [mbind option_bind] in Happ.
    - exists u. destruct (addCoins u (newCoins h tx)) eqn:Ea; cbn in Happ; simplify_eq.
      split; [by exists st|done].
    - destruct (spendCoins u (prevOuts tx)) as [[u1 cs1]|] eqn:Es; cbn in Happ; [|done].
      destruct (addCoins u1 (newCoins h tx)) eqn:Ea; cbn in Happ; simplify_eq.
      destruct (connectInputs_refines _ _ _ _ _ Hinv Es Hg) as (st1 & E1 & H1 & H2 & H3).
      exists u1. split; [by exists st1|done]. }
  rewrite E1. result_simpl.
  destruct (connectOutputs_refines h _ _ _ _ st1 u1 u' Hinv1 Hadd Hn) as (st2 & -> & Hinv2 & Hm2).
  exists st2. split; [done|]. split; [done|]. split; [unfold keeps_meta in *; congruence|].
  by eapply good_addCoins.
Qed.

Definition good_txs (h : Z) (txs : list MsgTx) : Prop :=
  Forall (fun tx => good_new (newCoins h tx)) txs.

Lemma connectTxs_refines h txs st u u' cs :
  inv st u -> applyTxs h u txs = Some (u', cs) -> good_set u -> good_txs h txs ->
  exists st', foldM (connectTx idx h) st txs = Ok st' /\ inv st' u' /\ keeps_meta st st' /\ good_set u'.
Proof.
  revert st u cs; induction txs as [|tx txs IH]; intros st u cs Hinv Happ Hg Hn.
  { cbn in Happ. simplify_eq. by exists st. }
  apply applyTxs_cons in Happ as (u1 & cs1 & cs2 & H1 & H2 & ->).
  apply Forall_cons_1 in Hn as [Hn Hns]. cbn [foldM].
  destruct (connectTx_refines h st u tx u1 cs1 Hinv H1 Hg Hn) as (st1 & -> & Hinv1 & Hm1 & Hg1).
  destruct (IH st1 u1 cs2 Hinv1 H2 Hg1 Hns) as (st2 & -> & Hinv2 & Hm2 & Hg2).
  exists st2. split; [done|]. split; [done|]. split; [unfold keeps_meta in *; congruence|done].
Qed.

(** ** Going back *)

Lemma disconnectOutput_refines h hash i o cb st u :
  let op := txOutPoint hash i in
  let c := mkSpentTxOut (Value o) (PkScript o) h cb in
  inv st (<[op := c]> u) -> IsUnspendable (PkScript o) = false -> u !! op = None -> good_coin op c ->
  exists st', disconnectOutput idx h hash st (i, o) = Ok st' /\ inv st' u /\ keeps_meta st st'.
Proof.
  intros op c Hinv Hus Hop Hgood. destruct st as [db mh]. unfold disconnectOutput. rewrite Hus.
  destruct Hinv as [Hrep Hacc]. cbn [fst snd] in *.
  destruct (coinEntry c) as [ea|] eqn:Ec.
  - destruct (coinEntry_wf op c ea Hgood Ec) as [_ Hi].
    rewrite (project_insert_Some _ _ _ _ Ec) in Hrep, Hacc.
    assert (Hnone : project u !! op = None) by by rewrite project_lookup, Hop.
    destruct (acc_ok_remove mh _ op ea Hacc) as (mh' & Erem & Hacc'); [apply lookup_insert_eq|done|].
    destruct (disconnectTxOut_refines db _ op Hrep (proj1 Hgood)) as (db' & Edis & Hrep' & Hm).
    rewrite delete_insert_id in Hacc', Hrep' by done.
    pose proof Ec as Hs. unfold coinEntry in Hs. cbn [c stxo_Height stxo_Amount] in *.
    destruct (shouldIndexCreateHeight idx h); [|done]. cbn [negb]. injection Hs as <-.
    change (Remove mh (computeEntryData op (eiCalculateExpiryKey (expiryParams idx) h)) = Some mh') in Erem.
    fold op. rewrite Erem. cbn [orPanic]. result_simpl. rewrite Edis. result_simpl. by eexists.
  - pose proof Ec as Hs. unfold coinEntry in Hs. cbn [c stxo_Height] in Hs.
    destruct (shouldIndexCreateHeight idx h); [done|]. cbn [negb]. eexists. split; [done|].
    split; [|done]. rewrite project_insert_None in Hrep, Hacc by done. by split.
Qed.

Lemma disconnectOutputs_refines h hash cb outs i st u u' :
  inv st u' -> addCoins u (newCoinsFrom hash h cb i outs) = Some u' ->
  good_new (newCoinsFrom hash h cb i outs) ->
  exists st', foldM (disconnectOutput idx h hash) st (reverse (enumerate i outs)) = Ok st' /\
              inv st' u /\ keeps_meta st st'.
Proof.
  revert i u; induction outs as [|o outs IH]; intros i u Hinv; cbn [newCoinsFrom].
  { intros [= <-] _. by exists st. }
  change (enumerate i (o :: outs)) with ((i, o) :: enumerate (S i) outs).
  rewrite reverse_cons, foldM_app.
  destruct (IsUnspendable (PkScript o)) eqn:Hus; cbn [app addCoins].
  - intros Hadd Hgood. destruct (IH (S i) u Hinv Hadd Hgood) as (st1 & -> & Hinv1 & Hm1).
    exists st1. result_simpl. cbn [foldM]. destruct st1 as [db1 mh1]. unfold disconnectOutput.
    rewrite Hus. by destruct (negb _).
  - destruct (u !! txOutPoint hash i) eqn:Hop; [done|]. intros Hadd [Hg Hgs]%Forall_cons_1.
    destruct (IH (S i) _ Hinv Hadd Hgs) as (st1 & -> & Hinv1 & Hm1). result_simpl. cbn [foldM].
    destruct (disconnectOutput_refines h hash i o cb st1 u Hinv1 Hus Hop Hg) as (st2 & -> & Hinv2 & Hm2).
    exists st2. split; [done|]. split; [done|]. unfold keeps_meta in *. congruence.
Qed.

Lemma spendCoins_insert m ops m' cs op c :
  op ∉ ops -> spendCoins m ops = Some (m', cs) ->
  spendCoins (<[op := c]> m) ops = Some (<[op := c]> m', cs).
Proof.
  revert m cs; induction ops as [|op' ops IH]; intros m cs Hni; cbn [spendCoins].
  { by intros [= <- <-]. }
  apply not_elem_of_cons in Hni as [Hne Hni].
  rewrite lookup_insert_ne by done. destruct (m !! op') as [c'|]; cbn [mbind option_bind]; [|done].
  destruct (spendCoins (delete op' m) ops) as [[m1 cs1]|] eqn:E; cbn [mbind option_bind]; [|done].
  intros [= <- <-]. rewrite delete_insert_ne by done. by rewrite (IH _ _ Hni E).
Qed.

Lemma spendCoins_None u ops u' cs op :
  spendCoins u ops = Some (u', cs) -> op ∈ ops \/ u !! op = None -> u' !! op = None.
Proof.
  revert u cs; induction ops as [|op' ops IH]; intros u cs; cbn [spendCoins].
  { intros [= <- _] [H|H]; [by apply not_elem_of_nil in H|done]. }
  destruct (u !! op') as [c'|]; cbn [mbind option_bind]; [|done].
  destruct (spendCoins (delete op' u) ops) as [[u1 cs1]|] eqn:E; cbn [mbind option_bind]; [|done].
  intros [= <- _] H. eapply IH; [done|]. destruct (decide (op = op')) as [->|Hne].
  - right. apply lookup_delete_eq.
  - destruct H as [[]%elem_of_cons|H]; [done|by left|]. right. by rewrite lookup_delete_ne.
Qed.

Lemma reconnectInput_refines stxos k op c st u :
  inv st u -> stxos !! k = Some c -> u !! op = None -> good_coin op c ->
  exists st', reconnectInput idx stxos st (k, op) = Ok st' /\ inv st' (<[op := c]> u) /\
              keeps_meta st st'.
Proof.
  intros Hinv Hk Hop Hgood. destruct st as [db mh]. unfold reconnectInput. rewrite Hk.
  destruct (coinEntry c) as [ea|] eqn:Ec.
  - destruct (addEntry_refines db mh u op c ea Hinv Hop Hgood Ec) as (db' & mh' & E1 & E2 & Hinv' & Hm).
    pose proof Ec as Hs. unfold coinEntry in Hs.
    destruct (shouldIndexCreateHeight idx (stxo_Height c)); [|done]. cbn [negb].
    rewrite E1. cbn [orPanic]. result_simpl. rewrite E2. result_simpl. by eexists.
  - pose proof Ec as Hs. unfold coinEntry in Hs.
    destruct (shouldIndexCreateHeight idx (stxo_Height c)); [done|]. cbn [negb].
    eexists. split; [done|]. split; [|done]. destruct Hinv. by split; rewrite project_insert_None.
Qed.

(** Restoring the spent coins in the order of the inputs. *)
Lemma reconnectInputs_refines stxos ops k st u u' cs :
  inv st u' -> spendCoins u ops = Some (u', cs) -> good_set u ->
  (forall j c, cs !! j = Some c -> stxos !! (k + j)%nat = Some c) ->
  exists st', foldM (reconnectInput idx stxos) st (enumerate k ops) = Ok st' /\
              inv st' u /\ keeps_meta st st'.
Proof.
  revert k st u u' cs; induction ops as [|op ops IH]; intros k st u u' cs Hinv Hsp Hg Hk.
  { cbn in Hsp. simplify_eq. by exists st. }
  destruct (spendCoins_spec _ _ _ _ Hsp) as [_ [Hni _]%NoDup_cons].
  pose proof (spendCoins_None _ _ _ _ op Hsp ltac:(left; set_solver)) as Hnone.
  cbn [spendCoins] in Hsp. destruct (u !! op) as [c|] eqn:Hop; cbn [mbind option_bind] in Hsp; [|done].
  destruct (spendCoins (delete op u) ops) as [[u1 cs1]|] eqn:E; cbn [mbind option_bind] in Hsp; [|done].
  injection Hsp as <- <-.
  change (enumerate k (op :: ops)) with ((k, op) :: enumerate (S k) ops). cbn [foldM].
  destruct (reconnectInput_refines stxos k op c st u1 Hinv) as (st1 & -> & Hinv1 & Hm1);
    [rewrite <- (Nat.add_0_r k); by apply Hk|done|by apply Hg|].
  apply (spendCoins_insert _ _ _ _ op c Hni) in E. rewrite insert_delete_id in E by done.
  destruct (IH (S k) st1 u _ cs1 Hinv1 E Hg) as (st2 & -> & Hinv2 & Hm2).
  { intros j c' Hj. rewrite Nat.add_succ_l, <- Nat.add_succ_r. by apply Hk. }
  exists st2. split; [done|]. split; [done|]. unfold keeps_meta in *. congruence.
Qed.

Lemma good_spendCoins ops u u' cs : good_set u -> spendCoins u ops = Some (u', cs) -> good_set u'.
Proof.
  revert u cs; induction ops as [|op ops IH]; intros u cs Hg; cbn [spendCoins].
  { by intros [= <- _]. }
  destruct (u !! op); cbn [mbind option_bind]; [|done].
  destruct (spendCoins (delete op u) ops) as [[u1 cs1]|] eqn:E; cbn [mbind option_bind]; [|done].
  intros [= <- _]. eapply IH; [|done]. by apply map_Forall_delete.
Qed.

(** The ledger between the inputs and the outputs of a transaction. *)
Lemma applyTx_split h u tx u' cs :
  applyTx h u tx = Some (u', cs) ->
  exists u1, addCoins u1 (newCoins h tx) = Some u' /\
    if IsCoinBaseTx tx then u1 = u else spendCoins u (prevOuts tx) = Some (u1, cs).
Proof.
  unfold applyTx. destruct (IsCoinBaseTx tx); cbn [mbind option_bind].
  - destruct (addCoins u (newCoins h tx)) eqn:E; cbn; [|done]. intros [= <- _]. by exists u.
  - destruct (spendCoins u (prevOuts tx)) as [[u1 cs1]|]; cbn; [|done].
    destruct (addCoins u1 (newCoins h tx)) eqn:E; cbn; [|done]. intros [= <- <-]. by exists u1.
Qed.

Lemma good_applyTx h u tx u' cs :
  good_set u -> good_new (newCoins h tx) -> applyTx h u tx = Some (u', cs) -> good_set u'.
Proof.
  intros Hg Hn (u1 & Hadd & Hu1)%applyTx_split. eapply good_addCoins; [|done|done].
  destruct (IsCoinBaseTx tx); [by subst|by eapply good_spendCoins].
Qed.

Lemma disconnectTx_refines h stxos k base st u tx u' cs :
  inv st u' -> applyTx h u tx = Some (u', cs) -> good_set u -> good_new (newCoins h tx) ->
  IsCoinBaseTx tx = (k =? 0)%nat ->
  (forall j c, cs !! j = Some c -> stxos !! (base + j)%nat = Some c) ->
  exists st', disconnectTx idx h stxos st (k, (base, tx)) = Ok st' /\ inv st' u /\ keeps_meta st st'.
Proof.
  intros Hinv (u1 & Hadd & Hu1)%applyTx_split Hg Hn Hcb Hk. unfold disconnectTx.
  destruct (disconnectOutputs_refines h _ _ _ 0 st u1 u' Hinv Hadd Hn) as (st1 & -> & Hinv1 & Hm1).
  result_simpl. rewrite <- Hcb. destruct (IsCoinBaseTx tx).
  - subst u1. by exists st1.
  - destruct (reconnectInputs_refines stxos _ base st1 u u1 cs Hinv1 Hu1 Hg Hk)
      as (st2 & -> & Hinv2 & Hm2).
    exists st2. split; [done|]. split; [done|]. unfold keeps_meta in *. congruence.
Qed.

Lemma disconnectTxs_refines h stxos txs k base st u u' cs :
  inv st u' -> applyTxs h u txs = Some (u', cs) -> good_set u -> good_txs h txs ->
  Forall (fun tx => IsCoinBaseTx tx = false) txs ->
  (forall j c, cs !! j = Some c -> stxos !! (base + j)%nat = Some c) ->
  exists st',
    foldM (disconnectTx idx h stxos) st
      (reverse (enumerate (S k) (zip (stxoOffsetsFrom (S k) base txs) txs))) = Ok st' /\
    inv st' u /\ keeps_meta st st'.
Proof.
  revert k base u cs; induction txs as [|tx txs IH]; intros k base u cs Hinv Happ Hg Hn Hcb Hk.
  { cbn in Happ. simplify_eq. by exists st. }
  apply applyTxs_cons in Happ as (u1 & cs1 & cs2 & H1 & H2 & ->).
  apply Forall_cons_1 in Hn as [Hn Hns]. apply Forall_cons_1 in Hcb as [Hcb Hcbs].
  pose proof (applyTx_count _ _ _ _ _ H1) as Hlen. unfold spentCount in Hlen. rewrite Hcb in Hlen.
  cbn [stxoOffsetsFrom Nat.eqb zip zip_with].
  change (enumerate (S k) ((base, tx) :: ?l)) with ((S k, (base, tx)) :: enumerate (S (S k)) l).
  rewrite reverse_cons, foldM_app.
  destruct (IH (S k) (base + length (TxIns tx))%nat u1 cs2 Hinv H2) as (st1 & -> & Hinv1 & Hm1);
    [by eapply good_applyTx|done|done| |].
  { intros j c Hj. rewrite <- Hlen, <- Nat.add_assoc. apply Hk.
    rewrite lookup_app_r by lia. by rewrite Nat.add_sub_swap, Nat.sub_diag by lia. }
  result_simpl. cbn [foldM].
  destruct (disconnectTx_refines h stxos (S k) base st1 u tx u1 cs1 Hinv1 H1 Hg Hn)
    as (st2 & -> & Hinv2 & Hm2); [done| |].
  { intros j c Hj. apply Hk. by apply lookup_app_l_Some. }
  exists st2. split; [done|]. split; [done|]. unfold keeps_meta in *. congruence.
Qed.

(** ** Whole blocks *)

(** The index of a ledger, with the tip it claims. *)
Definition index_ok (db : IndexDB) (u : utxo_set) (tip : Z) (hash : list Z) : Prop :=
  represents db (project u) /\
  exists mh, acc_ok mh (project u) /\ meta_is db mh tip hash.

(** The root a ledger commits to. *)
Definition rootOf (u : utxo_set) : option (list Z) := Digest (setHash (project u)).

Lemma rootOf_Some u : exists root, rootOf u = Some root /\ length root = 32%nat.
Proof.
  eexists. split; [apply Digest_Ok, invertible_1|apply Sha256.length_sum256].
Qed.

Lemma ConnectBlock_spec db block u u' cs tip hash root :
  disabled idx = false -> IsIndexingEnabled (expiryParams idx) (Height block) = true ->
  is_i32 (Height block) -> index_ok db u tip hash -> good_set u ->
  good_txs (Height block) (Transactions block) ->
  applyTxs (Height block) u (Transactions block) = Some (u', cs) ->
  rootOf u = Some root -> validateExpiryCommitment idx block root = Ok tt ->
  exists db', ConnectBlock idx db block = Ok (db', withTip idx (Height block)) /\
    index_ok db' u' (Height block) (Block_Hash block) /\ good_set u'.
Proof.
  intros Hdis Hen Hh [Hrep (mh & Hacc & Hmeta)] Hg Hn Happ Hroot Hval. unfold ConnectBlock.
  rewrite Hdis, Hen. cbn [negb]. pose proof Hmeta as (Hget & _). rewrite Hget. result_simpl.
  rewrite (acc_ok_digest _ _ Hacc). unfold rootOf in Hroot. rewrite Hroot. cbn [orPanic]. result_simpl.
  rewrite Hval. result_simpl.
  destruct (connectTxs_refines (Height block) (Transactions block) (db, mh) u u' cs) as ([db1 mh1] & -> & Hinv & Hm & Hg');
    [by split|done|done|done|]. result_simpl. destruct Hinv as [Hrep1 Hacc1]. cbn [fst snd] in *.
  destruct (meta_is_bucket _ _ _ _ Hmeta) as [b Hb]. unfold keeps_meta in Hm. cbn in Hm.
  destruct (put_meta_spec db1 b mh1 (Block_Hash block) (Height block)) as (d1 & d2 & d3 & E1 & E2 & E3 & Hs & Hmd);
    [congruence|apply Hacc1|apply length_Block_Hash|done|].
  rewrite E1. result_simpl. rewrite E2. result_simpl. rewrite E3. result_simpl.
  destruct (acc_ok_Digest_Some _ _ Hacc1) as (root1 & -> & _). cbn [orPanic]. result_simpl.
  exists d3. split; [done|]. split; [|done]. split; [by eapply represents_same|]. by exists mh1.
Qed.

Lemma DisconnectBlock_spec db block u u' cs tip hash :
  disabled idx = false -> IsIndexingEnabled (expiryParams idx) (Height block) = true ->
  length (bh_PrevBlock (Header block)) = HashSize ->
  index_ok db u' tip hash -> good_set u ->
  good_txs (Height block) (Transactions block) -> block_shape (Transactions block) ->
  applyTxs (Height block) u (Transactions block) = Some (u', cs) ->
  exists db', DisconnectBlock idx db block cs = Ok (db', withTip idx (i32 (Height block - 1))) /\
    index_ok db' u (i32 (Height block - 1)) (bh_PrevBlock (Header block)).
Proof.
  intros Hdis Hen Hprev [Hrep (mh & Hacc & Hmeta)] Hg Hn Hsh Happ. unfold DisconnectBlock.
  rewrite Hdis, Hen. cbn [negb]. pose proof Hmeta as (Hget & _). rewrite Hget. result_simpl. cbv zeta.
  destruct (Transactions block) as [|cb rest]; [done|]. destruct Hsh as [Hcb Hrest].
  apply applyTxs_cons in Happ as (u1 & cs1 & cs2 & H1 & H2 & ->).
  apply Forall_cons_1 in Hn as [Hn Hns].
  pose proof (applyTx_count _ _ _ _ _ H1) as Hlen. unfold spentCount in Hlen. rewrite Hcb in Hlen.
  destruct cs1; [|done]. cbn [app].
  change (enumerate 0 (zip (stxoOffsetsFrom 0 0 (cb :: rest)) (cb :: rest)))
    with ((0%nat, (0%nat, cb)) :: enumerate 1 (zip (stxoOffsetsFrom 1 0 rest) rest)).
  rewrite reverse_cons, foldM_app.
  destruct (disconnectTxs_refines (Height block) cs2 rest 0 0 (db, mh) u1 u' cs2)
    as (st1 & -> & Hinv1 & Hm1); [by split|done|by eapply good_applyTx|done|done|done|].
  result_simpl. cbn [foldM].
  destruct (disconnectTx_refines (Height block) cs2 0 0 st1 u cb u1 [] Hinv1 H1 Hg Hn)
    as ([db2 mh2] & -> & [Hrep2 Hacc2] & Hm2); [done|done|]. result_simpl. cbn [fst snd] in *.
  destruct (meta_is_bucket _ _ _ _ Hmeta) as [b Hb]. unfold keeps_meta in *. cbn [fst] in *.
  destruct (put_meta_spec db2 b mh2 (bh_PrevBlock (Header block)) (i32 (Height block - 1)))
    as (d1 & d2 & d3 & E1 & E2 & E3 & Hs & Hmd); [congruence|apply Hacc2|done|apply i32_range|].
  rewrite E1. result_simpl. rewrite E2. result_simpl. rewrite E3. result_simpl.
  exists d3. split; [done|]. split; [by eapply represents_same|]. by exists mh2.
Qed.
End refine.
