(* ===== verification/IndexRebuild.v ===== *)
(** * Rebuilding the index from the UTXO set

    [fastRebuildFromUTXO] empties the buckets and writes every output of the
    UTXO set again, in batches. It is proved to end, whatever was in the buckets
    and in whatever order the set is visited, in the same entry buckets and the
    same accumulator root as following the chain block by block; and to leave an
    empty index when it fails. *)

From S2P Require Import Prelude ChainParams Sha256 Wire Encode MuHash Commitment Script Block Bucket IndexDB Ledger ExpiryIndex IndexRefine.

(** ** Clearing *)

Lemma foldl_delete_lookup (ks : list (list Z)) (b : Bucket) k :
  k ∈ ks \/ b !! k = None -> foldl (fun b k => delete k b) b ks !! k = None.
Proof.
  revert b; induction ks as [|k' ks IH]; intros b; cbn [foldl].
  - intros [H|H]; [by apply not_elem_of_nil in H|done].
  - intros H. apply IH. destruct (decide (k = k')) as [->|Hne].
    + right. apply lookup_delete_eq.
    + destruct H as [[]%elem_of_cons|H]; [done|by left|right]. by rewrite lookup_delete_ne.
Qed.

Lemma clearBucket_Some b : clearBucket (Some b) = Some ∅.
Proof.
  unfold clearBucket. f_equal. apply map_empty. intros k. apply foldl_delete_lookup.
  destruct (b !! k) eqn:E; [left|by right]. apply elem_of_cursorFirst. by rewrite E.
Qed.

(** All five buckets exist. *)
Definition created (db : IndexDB) : Prop :=
  is_Some (bktExpiryMeta db) /\ is_Some (bktOutpoint2Expiry db) /\
  is_Some (bktExpiry2Outpoints db) /\ is_Some (bktReapStrictCandidates db) /\
  is_Some (bktOutpoint2ReapStrict db).

Lemma represents_empty db :
  bktOutpoint2Expiry db = Some ∅ -> bktExpiry2Outpoints db = Some ∅ ->
  bktReapStrictCandidates db = Some ∅ -> bktOutpoint2ReapStrict db = Some ∅ -> represents db ∅.
Proof.
  intros E1 E2 E3 E4. split; [apply map_Forall_empty|..]; eexists; (split; [eassumption|apply index_of_empty]).
Qed.

Lemma clear_spec db :
  created db ->
  exists db', clearExpiryIndexBuckets db = Ok db' /\ represents db' ∅ /\
    meta_is db' NewMuHash (-1) zeroHash /\ is_Some (bktExpiryMeta db').
Proof.
  intros ([b0 E0] & [b1 E1] & [b2 E2] & [b3 E3] & [b4 E4]). unfold clearExpiryIndexBuckets.
  rewrite E0, E1, E2, E3, E4, !clearBucket_Some. cbv zeta.
  destruct (put_meta_spec (mkIndexDB (Some b0) (Some ∅) (Some ∅) (Some ∅) (Some ∅)) b0 NewMuHash zeroHash (-1))
    as (d1 & d2 & d3 & -> & F2 & F3 & Hs & Hm); [done|apply NewMuHash_wf|done|by widths|].
  result_simpl. rewrite F2. result_simpl. exists d3. split; [done|]. split.
  - eapply represents_same; [done|]. by apply represents_empty.
  - split; [done|]. destruct (meta_is_bucket _ _ _ _ Hm) as [b ->]. by exists b.
Qed.

(** ** Writing a batch *)

(** Inserting a batch into a map, defined when no key is there yet. *)
Fixpoint addBatch (m : gmap OutPoint entry) (b : list batchEntry) : option (gmap OutPoint entry) :=
  match b with
  | [] => Some m
  | (op, e, a) :: b' =>
      match m !! op with
      | Some _ => None
      | None => addBatch (<[op := (e, a)]> m) b'
      end
  end.

Lemma addBatch_snoc m b op e a m' :
  addBatch m b = Some m' -> m' !! op = None ->
  addBatch m (b ++ [(op, e, a)]) = Some (<[op := (e, a)]> m').
Proof.
  revert m; induction b as [|[[op1 e1] a1] b IH]; intros m; cbn [app addBatch].
  - intros [= ->] ->. done.
  - destruct (m !! op1); [done|]. apply IH.
Qed.

Lemma writeBatch_refines b db m m' :
  represents db m -> addBatch m b = Some m' ->
  Forall (fun e : batchEntry => wf_entry e.1.1 (e.1.2, e.2)) b ->
  exists db', writeBatch b db = Ok db' /\ represents db' m' /\ bktExpiryMeta db' = bktExpiryMeta db.
Proof.
  revert db m; induction b as [|[[op e] a] b IH]; intros db m Hrep; cbn [addBatch].
  { intros [= <-] _. by exists db. }
  destruct (m !! op) eqn:Hop; [done|]. intros Hadd [Hwf Hwfs]%Forall_cons_1.
  destruct (putTxOutMapping_refines db m op e a Hrep Hwf Hop) as (db1 & E1 & Hrep1 & Hm1).
  destruct (IH db1 _ Hrep1 Hadd Hwfs) as (db2 & E2 & Hrep2 & Hm2).
  exists db2. unfold writeBatch in *. cbn [foldM fst snd]. rewrite E1. split; [done|].
  split; [done|congruence].
Qed.

(** ** The loop *)

Section rebuild.
Context (idx : ExpiryIndex) (batchSize : nat).

(** Written entries, waiting entries and accumulator make up the map [m]. *)
Definition rebuild_inv (db0 : IndexDB) (st : rebuildState) (m : gmap OutPoint entry) : Prop :=
  let '(db, mh, batch) := st in
  acc_ok mh m /\ bktExpiryMeta db = bktExpiryMeta db0 /\
  Forall (fun e : batchEntry => wf_entry e.1.1 (e.1.2, e.2)) batch /\
  exists mw, represents db mw /\ addBatch mw batch = Some m.

Definition utxoRow (oc : OutPoint * SpentTxOut) : OutPoint * Z * Z :=
  (oc.1, stxo_Height oc.2, stxo_Amount oc.2).

Lemma processUTXO_refines db0 st u op c :
  rebuild_inv db0 st (project idx u) -> u !! op = None -> good_coin idx op c ->
  exists st',
    processUTXO (expiryParams idx) (shouldIndexCreateHeight idx) batchSize st (utxoRow (op, c))
    = (st', Ok tt) /\ rebuild_inv db0 st' (project idx (<[op := c]> u)).
Proof.
  destruct st as [[db mh] batch]. intros (Hacc & Hm & Hwf & mw & Hrep & Hadd) Hop Hgood.
  cbn [processUTXO utxoRow fst snd].
  destruct (coinEntry idx c) as [ea|] eqn:Ec.
  - destruct (coinEntry_wf idx op c ea Hgood Ec) as [Hwf1 _].
    assert (Hnone : project idx u !! op = None) by by rewrite project_lookup, Hop.
    destruct (acc_ok_add mh _ op ea Hacc Hnone) as (mh' & Eadd & Hacc').
    rewrite (project_insert_Some idx u op c ea Ec). unfold coinEntry in Ec.
    destruct (shouldIndexCreateHeight idx (stxo_Height c)); [|done]. cbn [negb]. injection Ec as <-.
    unfold entryData in Eadd; cbn [fst snd] in Eadd. rewrite Eadd. cbv zeta.
    set (b' := batch ++ [(op, eiCalculateExpiryKey (expiryParams idx) (stxo_Height c), stxo_Amount c)]).
    assert (Hadd' : addBatch mw b' = Some (<[op := (eiCalculateExpiryKey (expiryParams idx) (stxo_Height c), stxo_Amount c)]> (project idx u)))
      by by apply addBatch_snoc.
    assert (Hwf' : Forall (fun e : batchEntry => wf_entry e.1.1 (e.1.2, e.2)) b')
      by (apply Forall_app_2; [done|by constructor]).
    destruct (batchSize <=? length b')%nat.
    + destruct (writeBatch_refines b' db mw _ Hrep Hadd' Hwf') as (db' & -> & Hrep' & Hm').
      eexists. split; [done|]. split_and!; [done|congruence|constructor|]. by eexists.
    + eexists. split; [done|]. split_and!; [done..|]. by exists mw.
  - rewrite (project_insert_None idx u op c Ec Hop). unfold coinEntry in Ec.
    destruct (shouldIndexCreateHeight idx (stxo_Height c)); [done|]. cbn [negb].
    eexists. split; [done|]. split_and!; [done..|]. by exists mw.
Qed.

Lemma processUTXOs_refines db0 l st u u' :
  rebuild_inv db0 st (project idx u) -> addCoins u l = Some u' -> good_new idx l ->
  exists st',
    processUTXOs (expiryParams idx) (shouldIndexCreateHeight idx) batchSize st (map utxoRow l)
    = (st', Ok tt) /\ rebuild_inv db0 st' (project idx u').
Proof.
  revert st u; induction l as [|[op c] l IH]; intros st u Hinv; cbn [addCoins].
  { intros [= <-] _. by exists st. }
  destruct (u !! op) eqn:Hop; [done|]. intros Hadd [Hg Hgs]%Forall_cons_1.
  destruct (processUTXO_refines db0 st u op c Hinv Hop Hg) as (st1 & E1 & Hinv1).
  cbn [map processUTXOs]. rewrite E1. by eapply IH.
Qed.

Lemma populate_refines db l u :
  represents db ∅ -> addCoins ∅ l = Some u -> good_new idx l ->
  exists db' mh,
    populate (expiryParams idx) (shouldIndexCreateHeight idx) batchSize db (map utxoRow l) None
    = (db', mh, Ok tt) /\
    represents db' (project idx u) /\ acc_ok mh (project idx u) /\
    bktExpiryMeta db' = bktExpiryMeta db.
Proof.
  intros Hrep Hadd Hg. unfold populate.
  destruct (processUTXOs_refines db l (db, NewMuHash, []) ∅ u) as ([[db1 mh] batch] & -> & Hinv);
    [|done|done|].
  { split_and!; [|done|constructor|].
    - unfold project. rewrite omap_empty. apply acc_ok_empty.
    - exists ∅. split; [done|]. unfold project. by rewrite omap_empty. }
  destruct Hinv as (Hacc & Hm & Hwf & mw & Hrep' & Hadd').
  destruct (writeBatch_refines batch db1 mw _ Hrep' Hadd' Hwf) as (db2 & -> & Hrep2 & Hm2).
  exists db2, mh. split_and!; [done|done|done|congruence].
Qed.
End rebuild.

(** ** Visiting a UTXO set in any order *)

Lemma addCoins_lookup l m :
  NoDup l.*1 -> (forall op, op ∈ l.*1 -> m !! op = None) ->
  exists m', addCoins m l = Some m' /\
    forall op c, m' !! op = Some c <-> (op, c) ∈ l \/ m !! op = Some c.
Proof.
  revert m; induction l as [|[op c] l IH]; intros m Hnd Hm; cbn [addCoins].
  { exists m. split; [done|]. intros op c. rewrite elem_of_nil. tauto. }
  rewrite fmap_cons in Hnd, Hm. apply NoDup_cons in Hnd as [Hni Hnd]. cbn [fst] in *.
  rewrite (Hm op) by set_solver.
  destruct (IH (<[op := c]> m) Hnd) as (m' & E & Hm').
  { intros op' Hop'. rewrite lookup_insert_ne by (intros ->; done). apply Hm. set_solver. }
  exists m'. split; [done|]. intros op' c'. rewrite Hm', elem_of_cons, lookup_insert_Some.
  destruct (decide (op = op')) as [->|Hne].
  - assert (m !! op' = None) as Hmo by (apply Hm; left). split.
    + intros [H|[[_ ->]|[H _]]]; [left; by right|left; by left|done].
    + intros [[[= ->]|H]|H]; [right; by left|by left|congruence].
  - split.
    + intros [H|[[? _]|[_ H]]]; [left; by right|done|by right].
    + intros [[[= ? ?]|H]|H]; [congruence|by left|right; by right].
Qed.

Lemma addCoins_perm l (u : utxo_set) : l ≡ₚ map_to_list u -> addCoins ∅ l = Some u.
Proof.
  intros HP. destruct (addCoins_lookup l ∅) as (m' & E & Hm').
  - rewrite HP. apply NoDup_fst_map_to_list.
  - intros op _. apply lookup_empty.
  - rewrite E. f_equal. apply map_eq. intros op. apply option_eq. intros c.
    rewrite Hm', HP, elem_of_map_to_list, lookup_empty. split; [by intros [?|?]|by left].
Qed.

Lemma good_new_perm idx l u : l ≡ₚ map_to_list u -> good_set idx u -> good_new idx l.
Proof.
  intros HP Hg. unfold good_new. rewrite HP. apply Forall_forall.
  intros [op c] H%elem_of_map_to_list. by apply Hg.
Qed.

(** ** The whole rebuild *)

Lemma index_ok_snapshot idx db u tip hash root :
  disabled idx = false -> index_ok idx db u tip hash -> rootOf idx u = Some root ->
  GetAccumulatorSnapshot idx db = Ok (mkSnapshot root hash tip).
Proof.
  intros Hd [_ (mh & Hacc & E1 & E2 & E3)] Hr. unfold GetAccumulatorSnapshot.
  rewrite Hd, E1. result_simpl. rewrite (acc_ok_digest _ _ Hacc). unfold rootOf in Hr.
  rewrite Hr. cbn [orPanic]. result_simpl. rewrite E2. result_simpl. rewrite E3. done.
Qed.

Lemma fastRebuild_spec idx ch db l u tip block :
  created db -> ForEachUTXOWithAmount ch = map utxoRow l -> ForEachUTXOError ch = None ->
  l ≡ₚ map_to_list u -> good_set idx u ->
  0 <= tip -> is_i32 tip -> BlockByHeight ch tip = Ok block ->
  exists db', fastRebuildFromUTXO idx (Some ch) db tip = (db', withTip idx tip, Ok tt) /\
              index_ok idx db' u tip (Block_Hash block).
Proof.
  intros Hc Hl He HP Hg H0 Htip Hb. unfold fastRebuildFromUTXO.
  destruct (clear_spec db Hc) as (db0 & Ec & Hrep0 & _ & [b0 Hb0]).
  unfold dbUpdate at 1. rewrite Ec, Hl, He.
  destruct (populate_refines idx DefaultBatchSize db0 l u Hrep0) as (db1 & mh & -> & Hrep1 & Hacc1 & Hm1);
    [by apply addCoins_perm|by eapply good_new_perm|].
  destruct (put_meta_spec db1 b0 mh (Block_Hash block) tip) as (d1 & d2 & d3 & E1 & E2 & E3 & Hs & Hmd);
    [congruence|apply Hacc1|apply length_Block_Hash|done|].
  unfold dbUpdate. rewrite E1. result_simpl. destruct (Z.leb_spec 0 tip); [|lia].
  rewrite Hb. result_simpl. rewrite E2. result_simpl. rewrite E3.
  exists d3. split; [done|]. split; [by eapply represents_same|]. by exists mh.
Qed.

(** ** Failures *)

Lemma put_created db op e a db' : created db -> putTxOutMapping db op e a = Ok db' -> created db'.
Proof.
  intros (H0 & [b1 E1] & [b2 E2] & [b3 E3] & [b4 E4]). unfold putTxOutMapping.
  rewrite E1, E2, E3, E4. cbn [needBucket]. result_simpl.
  destruct (encodeReapStrictCompositeKey e a op); cbn [liftEncode]; result_simpl; [|done].
  intros [= <-]. unfold created; cbn. split_and!; [done|by eexists..].
Qed.

Lemma writeBatch_created b db db' : created db -> writeBatch b db = Ok db' -> created db'.
Proof.
  intros H Hw. unfold writeBatch in Hw. eapply (foldM_inv created); [exact H| |exact Hw].
  intros s x s' Hs _. by apply put_created.
Qed.

Lemma processUTXOs_created p keep n utxos st st' r :
  created st.1.1 -> processUTXOs p keep n st utxos = (st', r) -> created st'.1.1.
Proof.
  revert st; induction utxos as [|[[op h] a] utxos IH]; intros [[db mh] batch] Hc; cbn [processUTXOs].
  { by intros [= <- _]. }
  cbn [processUTXO]. destruct (negb (keep h)); [by apply IH|]. cbv zeta.
  destruct (Add mh _) as [mh'|]; [|by intros [= <- _]].
  destruct (n <=? _)%nat; [|by apply IH].
  destruct (writeBatch _ db) as [db'|e] eqn:Ew; [|by intros [= <- _]].
  apply IH. cbn in *. by eapply writeBatch_created.
Qed.

Lemma populate_created p keep n db utxos err db' mh r :
  created db -> populate p keep n db utxos err = (db', mh, r) -> created db'.
Proof.
  intros Hc. unfold populate.
  destruct (processUTXOs p keep n (db, NewMuHash, []) utxos) as [[[db1 mh1] batch] r1] eqn:E.
  pose proof (processUTXOs_created p keep n utxos (db, NewMuHash, []) _ _ Hc E) as Hc1. cbn in Hc1.
  destruct r1; [|by intros [= <- _ _]]. destruct err; [by intros [= <- _ _]|].
  destruct (writeBatch batch db1) as [db2|e] eqn:Ew; intros [= <- _ _]; [|done].
  by eapply writeBatch_created.
Qed.

(** An empty index: no entries, the identity accumulator, no tip. *)
Definition index_empty (db : IndexDB) : Prop :=
  represents db ∅ /\ meta_is db NewMuHash (-1) zeroHash.

Lemma resetToEmpty_spec db idx e db' idx' r :
  created db -> resetToEmpty db idx e = (db', idx', r) ->
  index_empty db' /\ idx' = withTip idx (-1) /\ r = Err e.
Proof.
  intros Hc. unfold resetToEmpty, dbUpdate.
  destruct (clear_spec db Hc) as (db1 & -> & Hrep & Hm & _). by intros [= <- <- <-].
Qed.
