(* ===== verification/IndexQuery.v ===== *)
(** * What the scans of the expiry index return

    Proofs about [ReapPrefixCandidates] and [ScanExpiringUTXOs] of
    ExpiryIndex.v: on buckets that represent a map, they return exactly the
    entries asked for, in the canonical order, cut at the limit; and a caller
    that pages through [ScanExpiringUTXOs] sees every entry once. *)

From Stdlib Require Import Permutation Sorted.
From S2P Require Import Prelude ChainParams Sha256 Wire Encode MuHash Commitment Script Block Bucket IndexDB Ledger ExpiryIndex IndexRebuild.

(** In a list sorted by [R], a test that can only turn from true to false along
    the list selects a prefix. *)
Fixpoint takeWhileB {A} (P : A -> bool) (l : list A) : list A :=
  match l with
  | [] => []
  | x :: l' => if P x then x :: takeWhileB P l' else []
  end.

Lemma takeWhileB_filter {A} (R : A -> A -> Prop) (P : A -> bool) l :
  StronglySorted R l -> (forall x y, R x y -> P y = true -> P x = true) ->
  takeWhileB P l = List.filter P l.
Proof.
  intros Hs HP. induction Hs as [|x l Hs IH Hx]; [done|]. cbn [takeWhileB List.filter].
  destruct (P x) eqn:E; [by rewrite IH|]. symmetry.
  clear IH Hs. induction Hx as [|y l Hy Hx IH]; [done|]. cbn [List.filter].
  destruct (P y) eqn:E'; [|done]. by rewrite (HP x y) in E.
Qed.

(** ** The REAP prefix *)

Definition candOf (p : OutPoint * entry) : ReapPrefixCandidate :=
  mkReapPrefixCandidate p.1 p.2.1 p.2.2.

Definition candKey (c : ReapPrefixCandidate) : reapInputOrderKey :=
  mkReapInputOrderKey (rpc_ExpiryKey c) (rpc_Amount c) (rpc_OutPoint c).

Definition expiredAt (h : Z) (c : ReapPrefixCandidate) : bool := rpc_ExpiryKey c <=? h.

Lemma prefixLoop_spec toKey limit L res :
  Forall (fun p => wf_entry p.1 p.2) L -> zlen res < limit ->
  prefixLoop toKey limit (map (keyOf reap_key) L) res
  = Ok (res ++ take (Z.to_nat (limit - zlen res)) (takeWhileB (expiredAt toKey) (map candOf L))).
Proof.
  intros Hwf. revert res; induction Hwf as [|[op [e a]] L (Hop & He & Ha) Hwf IH]; intros res Hlim;
    cbn [map prefixLoop].
  { cbn [takeWhileB]. by rewrite take_nil, app_nil_r. }
  cbn [fst snd] in *. change (keyOf reap_key (op, (e, a))) with (reapStrictKeyBytes e a op).
  rewrite decodeReapStrict_encode by done. cbn [liftEncode]. result_simpl.
  cbn [takeWhileB]. change (expiredAt toKey (candOf (op, (e, a)))) with (e <=? toKey).
  destruct (Z.ltb_spec toKey e), (Z.leb_spec e toKey); try lia.
  { by rewrite take_nil, app_nil_r. }
  assert (Hz : zlen (res ++ [mkReapPrefixCandidate op e a]) = zlen res + 1) by (rewrite zlen_app; done).
  destruct (Z.leb_spec limit (zlen (res ++ [mkReapPrefixCandidate op e a]))).
  - replace (Z.to_nat (limit - zlen res)) with 1%nat by lia. done.
  - rewrite IH by lia. rewrite Hz, <- app_assoc. do 2 f_equal.
    replace (Z.to_nat (limit - zlen res)) with (S (Z.to_nat (limit - (zlen res + 1)))) by lia. done.
Qed.

Lemma reap_sorted L :
  Forall (fun p => wf_entry p.1 p.2) L ->
  StronglySorted (fun p q => bytes_compare (keyOf reap_key p) (keyOf reap_key q) = Lt) L ->
  StronglySorted (fun c d => compareReapInputOrderKey (candKey c) (candKey d) = Lt) (map candOf L).
Proof.
  intros Hwf Hs. induction Hs as [|[op [e a]] L Hs IH Hx]; cbn [map]; [constructor|].
  apply Forall_cons_1 in Hwf as [(H1 & H2 & H3) Hwf]. constructor; [by apply IH|].
  apply Forall_fmap, Forall_forall. intros [op' [e' a']] Hin.
  rewrite Forall_forall in Hx, Hwf. specialize (Hx _ Hin). destruct (Hwf _ Hin) as (G1 & G2 & G3).
  unfold keyOf, reap_key in Hx. cbn [fst snd] in *. by rewrite reapStrict_compare in Hx.
Qed.

Lemma compareReap_expiry c d :
  compareReapInputOrderKey (candKey c) (candKey d) = Lt -> rpc_ExpiryKey c <= rpc_ExpiryKey d.
Proof.
  unfold candKey. rewrite compareReapInputOrderKey_spec.
  destruct (Z.compare_spec (rpc_ExpiryKey c) (rpc_ExpiryKey d)); cbn [lex]; intros; (lia || done).
Qed.

(** The canonical order of a map: all entries, strictly increasing. *)
Definition canonical (m : gmap OutPoint entry) (L : list ReapPrefixCandidate) : Prop :=
  L ≡ₚ map candOf (map_to_list m) /\
  StronglySorted (fun c d => compareReapInputOrderKey (candKey c) (candKey d) = Lt) L.

Lemma ReapPrefixCandidates_spec idx db m :
  disabled idx = false -> represents db m ->
  exists L, canonical m L /\
    forall h limit, is_i32 h -> 0 < limit ->
      ReapPrefixCandidates idx db h limit
      = Ok (take (Z.to_nat limit) (List.filter (expiredAt h) L)).
Proof.
  intros Hd Hrep. pose proof Hrep as [Hwf _ _ (b & Eb & Hb) _].
  destruct (cursorFirst_index reap_key no_val wf_entry reap_key_inj m b Hwf Hb) as (L & EL & HP & Hs).
  assert (HwfL : Forall (fun p => wf_entry p.1 p.2) L).
  { rewrite HP. apply Forall_forall. intros [x y] H%elem_of_map_to_list. by apply Hwf. }
  pose proof (reap_sorted L HwfL Hs) as Hs'.
  exists (map candOf L). split; [split; [by rewrite HP|done]|].
  intros h limit Hh Hlim. unfold ReapPrefixCandidates. rewrite Hd.
  destruct (Z.leb_spec limit 0); [lia|]. widths.
  destruct (Z.ltb_spec h 0).
  - assert (List.filter (expiredAt h) (map candOf L) = []) as ->; [|by rewrite take_nil].
    clear -HwfL H0. induction HwfL as [|[op [e a]] L (_ & He & _) _ IH]; [done|]. cbn [map List.filter].
    change (expiredAt h (candOf (op, (e, a)))) with (e <=? h). cbn [fst snd] in He. widths.
    destruct (Z.leb_spec e h); [lia|done].
  - rewrite Eb. cbn [needBucket]. result_simpl. rewrite EL, prefixLoop_spec by done.
    rewrite u64_id by (widths; lia). change (zlen []) with 0. rewrite Z.sub_0_r. cbn [app].
    do 2 f_equal. eapply takeWhileB_filter; [exact Hs'|].
    intros c d Hcd%compareReap_expiry. unfold expiredAt. rewrite !Z.leb_le. lia.
Qed.

(** ** The expiry scan *)

Definition scanOf (p : OutPoint * entry) : ExpiringUTXO := mkExpiringUTXO p.1 p.2.1.

Definition compareScan (e1 : Z) (op1 : OutPoint) (e2 : Z) (op2 : OutPoint) : comparison :=
  lex (e1 ?= e2) (compareOutPoint op1 op2).

(** Where a scan starts: at a key, or after a position already seen. *)
Definition scanFrom (fromKey : Z) (startAfter : option OutPoint) (x : ExpiringUTXO) : bool :=
  match startAfter with
  | None => fromKey <=? eu_ExpiryKey x
  | Some op => match compareScan (eu_ExpiryKey x) (eu_OutPoint x) fromKey op with Gt => true | _ => false end
  end.

Definition scanUpTo (toKey : Z) (x : ExpiringUTXO) : bool := eu_ExpiryKey x <=? toKey.

Definition scanLt (x y : ExpiringUTXO) : Prop :=
  compareScan (eu_ExpiryKey x) (eu_OutPoint x) (eu_ExpiryKey y) (eu_OutPoint y) = Lt.

Lemma scanLt_expiry x y : scanLt x y -> eu_ExpiryKey x <= eu_ExpiryKey y.
Proof.
  unfold scanLt, compareScan. destruct (Z.compare_spec (eu_ExpiryKey x) (eu_ExpiryKey y)); cbn [lex]; intros;
    (lia || done).
Qed.

Lemma scanLoop_spec toKey maxResults L res :
  Forall (fun p => wf_entry p.1 p.2) L -> zlen res <= maxResults ->
  scanLoop toKey maxResults (map (keyOf e2o_key) L) res
  = let R := takeWhileB (scanUpTo toKey) (map scanOf L) in
    Ok (res ++ take (Z.to_nat (maxResults - zlen res)) R, maxResults <? zlen res + zlen R).
Proof.
  intros Hwf. revert res; induction Hwf as [|[op [e a]] L (Hop & He & Ha) Hwf IH]; intros res Hlim;
    cbn [map scanLoop]; cbv zeta.
  { cbn [takeWhileB]. change (zlen []) with 0. rewrite take_nil, app_nil_r.
    destruct (Z.ltb_spec maxResults (zlen res + 0)); [lia|done]. }
  cbn [fst snd] in *. change (keyOf e2o_key (op, (e, a))) with (encodeExpiryOutpointCompositeKey e op).
  rewrite decodeExpiryOutpointCompositeKey_encode by done. cbn [liftEncode]. result_simpl.
  cbn [takeWhileB]. change (scanUpTo toKey (scanOf (op, (e, a)))) with (e <=? toKey).
  destruct (Z.ltb_spec toKey e), (Z.leb_spec e toKey); try lia.
  { change (zlen []) with 0. rewrite take_nil, app_nil_r.
    destruct (Z.ltb_spec maxResults (zlen res + 0)); [lia|done]. }
  rewrite zlen_cons. set (R := takeWhileB _ _). pose proof (zlen_nonneg R).
  destruct (Z.leb_spec maxResults (zlen res)).
  - replace (Z.to_nat (maxResults - zlen res)) with 0%nat by lia.
    destruct (Z.ltb_spec maxResults (zlen res + (1 + zlen R))); [|lia]. by rewrite take_0, app_nil_r.
  - assert (Hz : zlen (res ++ [mkExpiringUTXO op e]) = zlen res + 1) by (rewrite zlen_app; done).
    rewrite IH by lia. cbv zeta. fold R. rewrite Hz, <- app_assoc.
    replace (Z.to_nat (maxResults - zlen res)) with (S (Z.to_nat (maxResults - (zlen res + 1)))) by lia.
    cbn [app take]. do 2 f_equal. f_equal. lia.
Qed.

Lemma e2o_sorted L :
  Forall (fun p => wf_entry p.1 p.2) L ->
  StronglySorted (fun p q => bytes_compare (keyOf e2o_key p) (keyOf e2o_key q) = Lt) L ->
  StronglySorted scanLt (map scanOf L).
Proof.
  intros Hwf Hs. induction Hs as [|[op [e a]] L Hs IH Hx]; cbn [map]; [constructor|].
  apply Forall_cons_1 in Hwf as [(H1 & H2 & H3) Hwf]. constructor; [by apply IH|].
  apply Forall_fmap, Forall_forall. intros [op' [e' a']] Hin.
  rewrite Forall_forall in Hx, Hwf. specialize (Hx _ Hin). destruct (Hwf _ Hin) as (G1 & G2 & G3).
  unfold keyOf, e2o_key in Hx. cbn [fst snd] in *. by rewrite expiryComposite_compare in Hx.
Qed.

Lemma sorted_map_keys (f : OutPoint -> entry -> list Z) L :
  StronglySorted (fun p q => bytes_compare (keyOf f p) (keyOf f q) = Lt) L ->
  StronglySorted (fun k k' => bytes_compare k k' = Lt) (map (keyOf f) L).
Proof.
  induction 1 as [|p L Hs IH Hp]; cbn [map]; [constructor|]. constructor; [done|].
  by apply Forall_fmap.
Qed.

Lemma prefix_notBelow fromKey p :
  is_u64 fromKey -> wf_entry p.1 p.2 ->
  notBelow (expiryCompositePrefix fromKey) (keyOf e2o_key p) = scanFrom fromKey None (scanOf p).
Proof.
  destruct p as [op [e a]]. intros Hf (Hop & He & _). cbn [fst snd] in *.
  unfold notBelow, keyOf, e2o_key, expiryCompositePrefix, encodeExpiryOutpointCompositeKey, scanFrom, scanOf.
  cbn [fst snd eu_ExpiryKey]. rewrite <- (app_nil_r (encodeExpiryKey fromKey)).
  rewrite bytes_compare_app by bytes_auto. unfold encodeExpiryKey. rewrite bytes_compare_be by done.
  destruct (Z.compare_spec e fromKey), (Z.leb_spec fromKey e); cbn [lex]; try lia; try done.
  by destruct (encodeOrderedOutPoint op).
Qed.

Lemma composite_above fromKey op p :
  is_u64 fromKey -> wf_outpoint op -> wf_entry p.1 p.2 ->
  above (encodeExpiryOutpointCompositeKey fromKey op) (keyOf e2o_key p)
  = scanFrom fromKey (Some op) (scanOf p).
Proof.
  destruct p as [op' [e a]]. intros Hf Hop (Hop' & He & _). cbn [fst snd] in *.
  unfold above, keyOf, e2o_key, scanFrom, scanOf, compareScan. cbn [fst snd eu_ExpiryKey eu_OutPoint].
  by rewrite expiryComposite_compare.
Qed.

Lemma Forall_filter_B {A} (Q : A -> Prop) (P : A -> bool) l :
  Forall Q l -> Forall Q (List.filter P l).
Proof.
  induction 1 as [|x l Hx _ IH]; cbn [List.filter]; [constructor|].
  destruct (P x); [by constructor|done].
Qed.

Lemma StronglySorted_filter {A} (R : A -> A -> Prop) (P : A -> bool) l :
  StronglySorted R l -> StronglySorted R (List.filter P l).
Proof.
  induction 1 as [|x l Hs IH Hx]; cbn [List.filter]; [constructor|].
  destruct (P x); [|done]. constructor; [done|]. apply Forall_forall. intros y Hy.
  rewrite Forall_forall in Hx. apply Hx. apply list_elem_of_In, filter_In in Hy as [Hy _].
  by apply list_elem_of_In.
Qed.

(** The scan order of a map: all entries, strictly increasing. *)
Definition scanOrder (m : gmap OutPoint entry) (L : list ExpiringUTXO) : Prop :=
  L ≡ₚ map scanOf (map_to_list m) /\ StronglySorted scanLt L.

Definition scanRange (fromKey toKey : Z) (startAfter : option OutPoint) (x : ExpiringUTXO) : bool :=
  scanFrom fromKey startAfter x && scanUpTo toKey x.

Lemma ScanExpiringUTXOs_spec idx db m :
  disabled idx = false -> represents db m ->
  exists L, scanOrder m L /\
    forall fromKey toKey maxResults startAfter,
      is_u64 fromKey -> 0 < maxResults -> (forall op, startAfter = Some op -> wf_outpoint op) ->
      let R := List.filter (scanRange fromKey toKey startAfter) L in
      ScanExpiringUTXOs idx db fromKey toKey maxResults startAfter
      = Ok (take (Z.to_nat maxResults) R, maxResults <? zlen R).
Proof.
  intros Hd Hrep. pose proof Hrep as [Hwf _ (b & Eb & Hb) _ _].
  destruct (cursorFirst_index e2o_key no_val wf_entry e2o_key_inj m b Hwf Hb) as (L & EL & HP & Hs).
  assert (HwfL : Forall (fun p => wf_entry p.1 p.2) L).
  { rewrite HP. apply Forall_forall. intros [x y] H%elem_of_map_to_list. by apply Hwf. }
  pose proof (e2o_sorted L HwfL Hs) as Hs'. pose proof (sorted_map_keys _ _ Hs) as Hk.
  exists (map scanOf L). split; [split; [by rewrite HP|done]|].
  intros from to mx after Hf Hmx Hop R. unfold ScanExpiringUTXOs. rewrite Hd.
  destruct (Z.leb_spec mx 0); [lia|]. rewrite Eb. cbn [needBucket]. result_simpl.
  unfold cursorSeek. rewrite EL.
  assert (Ekeys : match after with
     | Some op => match seekIn (encodeExpiryOutpointCompositeKey from op) (map (keyOf e2o_key) L) with
                  | k :: keys' => if bool_decide (k = encodeExpiryOutpointCompositeKey from op)
                                  then keys' else k :: keys'
                  | [] => [] end
     | None => seekIn (expiryCompositePrefix from) (map (keyOf e2o_key) L)
     end = map (keyOf e2o_key) (List.filter (fun p => scanFrom from after (scanOf p)) L)).
  { destruct after as [op|].
    - rewrite seekAfter_sorted by done. rewrite filter_map. f_equal. apply filter_eq.
      eapply Forall_impl; [exact HwfL|]. intros p Hp. apply composite_above; auto.
    - rewrite seekIn_sorted by done. rewrite filter_map. f_equal. apply filter_eq.
      eapply Forall_impl; [exact HwfL|]. intros p Hp. by apply prefix_notBelow. }
  rewrite Ekeys. clear Ekeys. rewrite scanLoop_spec; [|by apply Forall_filter_B|change (zlen []) with 0; lia].
  cbv zeta. change (zlen []) with 0. rewrite Z.sub_0_r, Z.add_0_l. cbn [app].
  rewrite <- (filter_map (scanFrom from after) scanOf).
  rewrite (takeWhileB_filter scanLt);
    [by rewrite filter_filter|by apply StronglySorted_filter|].
  intros x y Hxy%scanLt_expiry. unfold scanUpTo. rewrite !Z.leb_le. lia.
Qed.

(** ** The bisection of [findOutPointStartIndex] *)

Lemma compareOutPoint_trans a b c :
  wf_outpoint a -> wf_outpoint b -> wf_outpoint c ->
  compareOutPoint a b = Lt -> compareOutPoint a c = Gt -> compareOutPoint b c = Gt.
Proof.
  intros Ha Hb Hc. rewrite !compareOutPoint_spec by done. intros H1 H2.
  pose proof (above_trans (encodeOrderedOutPoint c) (encodeOrderedOutPoint a) (encodeOrderedOutPoint b)) as H.
  unfold notBelow, above in H. rewrite H2 in H. specialize (H eq_refl H1).
  by destruct (bytes_compare (encodeOrderedOutPoint b) (encodeOrderedOutPoint c)).
Qed.

Definition opAfter (startAfter x : OutPoint) : bool :=
  match compareOutPoint x startAfter with Gt => true | _ => false end.

(** The bisection keeps everything below [low] at or before the position and
    everything from [high] on after it. *)
Lemma bisectAfter_spec fuel l op low high :
  (forall i j x y, l !! i = Some x -> l !! j = Some y -> (i <= j)%nat ->
     opAfter op x = true -> opAfter op y = true) ->
  0 <= low <= high -> high <= zlen l -> high - low < Z.of_nat fuel ->
  (forall i x, l !! i = Some x -> Z.of_nat i < low -> opAfter op x = false) ->
  (forall i x, l !! i = Some x -> high <= Z.of_nat i -> opAfter op x = true) ->
  let r := bisectAfter fuel l op low high in
  0 <= r <= zlen l /\
  (forall i x, l !! i = Some x -> opAfter op x = (r <=? Z.of_nat i)).
Proof.
  intros Hmono. revert low high; induction fuel as [|fuel IH]; intros low high Hlh Hh Hf Hlo Hhi; [lia|].
  cbn [bisectAfter]. destruct (Z.ltb_spec low high); cbv zeta.
  - set (mid := (low + high) / 2).
    assert (Hmid : low <= mid < high).
    { split; [apply Z.div_le_lower_bound; lia|apply Z.div_lt_upper_bound; lia]. }
    destruct (lookup_lt_is_Some_2 l (Z.to_nat mid)) as [x Hx]; [unfold zlen in *; lia|].
    rewrite (nth_lookup_Some l (Z.to_nat mid) _ x Hx).
    assert (Hnot : opAfter op x = false -> forall i y, l !! i = Some y -> Z.of_nat i < mid + 1 ->
              opAfter op y = false).
    { intros Hxf i y Hy Hi. destruct (opAfter op y) eqn:E; [|done].
      rewrite (Hmono i (Z.to_nat mid) y x) in Hxf; [done|done|done|lia|done]. }
    destruct (compareOutPoint x op) eqn:E.
    1,2: apply IH; [lia|lia|lia|apply Hnot; unfold opAfter; by rewrite E|done].
    apply IH; [lia|lia|lia|done|]. intros i y Hy Hi.
    apply (Hmono (Z.to_nat mid) i x y); [done|done|lia|]. unfold opAfter. by rewrite E.
  - split; [lia|]. intros i x Hx. destruct (Z.leb_spec low (Z.of_nat i)).
    + apply (Hhi i); [done|lia].
    + by apply (Hlo i).
Qed.

Lemma sorted_lookup_mono l op :
  Forall wf_outpoint l -> wf_outpoint op ->
  StronglySorted (fun a b => compareOutPoint a b = Lt) l ->
  forall i j x y, l !! i = Some x -> l !! j = Some y -> (i <= j)%nat ->
  opAfter op x = true -> opAfter op y = true.
Proof.
  intros Hwf Hop Hs i j x y Hx Hy Hij Hax. destruct (decide (i = j)) as [->|Hne]; [congruence|].
  pose proof (proj1 (Forall_lookup _ _) Hwf i x Hx). pose proof (proj1 (Forall_lookup _ _) Hwf j y Hy).
  assert (Hlt : compareOutPoint x y = Lt).
  { clear -Hs Hx Hy Hij Hne. revert i j Hx Hy Hij Hne. induction Hs as [|a l Hs IH Ha]; [done|].
    intros [|i] [|j] Hx Hy Hij Hne; [done| |lia|].
    - injection Hx as ->. by apply (proj1 (Forall_lookup _ _) Ha j).
    - apply (IH i j); [done|done|lia|lia]. }
  unfold opAfter in *. destruct (compareOutPoint x op) eqn:E; try done.
  by rewrite (compareOutPoint_trans x y op).
Qed.

Lemma drop_filter {A} (P : A -> bool) (l : list A) (r : nat) :
  (r <= length l)%nat -> (forall i x, l !! i = Some x -> P x = (r <=? i)%nat) -> drop r l = List.filter P l.
Proof.
  revert r; induction l as [|x l IH]; intros r Hr HP; [by destruct r|]. cbn [List.filter].
  pose proof (HP 0%nat x eq_refl) as H0. rewrite H0. destruct r as [|r]; cbn [Nat.leb drop].
  - f_equal. rewrite <- (IH 0%nat); [by rewrite drop_0|lia|]. intros i y Hy. by rewrite (HP (S i) y Hy).
  - apply IH; [cbn in Hr; lia|]. intros i y Hy. by rewrite (HP (S i) y Hy).
Qed.

(** Paging in memory. On outpoints in strictly increasing order the bisection
    ends and the index it returns cuts off exactly the outpoints at or before the
    given position, so what is left are all the later ones. *)
Lemma findOutPointStartIndex_cuts l op :
  Forall wf_outpoint l -> wf_outpoint op ->
  StronglySorted (fun a b => compareOutPoint a b = Lt) l ->
  drop (Z.to_nat (findOutPointStartIndex l (Some op))) l = List.filter (opAfter op) l.
Proof.
  intros Hwf Hop Hs. unfold findOutPointStartIndex.
  destruct (bisectAfter_spec (S (length l)) l op 0 (zlen l)) as [Hr HP];
    [by apply sorted_lookup_mono|pose proof (zlen_nonneg l); lia|lia|unfold zlen; lia|lia| |].
  { intros i x Hx%lookup_lt_Some Hi. unfold zlen in Hi. lia. }
  cbv zeta in Hr, HP. revert Hr HP. generalize (bisectAfter (S (length l)) l op 0 (zlen l)). intros r Hr HP.
  apply drop_filter; [unfold zlen in Hr; lia|]. intros i x Hx. rewrite (HP i x Hx).
  destruct (Z.leb_spec r (Z.of_nat i)), (Nat.leb_spec (Z.to_nat r) i); try done; lia.
Qed.

Lemma findOutPointStartIndex_cuts_witness :
  drop (Z.to_nat (findOutPointStartIndex [sampleOp 1 0; sampleOp 1 7; sampleOp 2 0] (Some (sampleOp 1 3))))
    [sampleOp 1 0; sampleOp 1 7; sampleOp 2 0] = [sampleOp 1 7; sampleOp 2 0].
Proof.
  rewrite findOutPointStartIndex_cuts; [reflexivity| |by apply wf_sampleOp|].
  - repeat constructor; cbn; lia.
  - repeat constructor.
Defined.
