(* ===== verification/IndexProps.v ===== *)
(** * What the expiry index guarantees

    The properties of the expiry index that its callers rely on, proved from the
    refinement of IndexRefine.v, the rebuild of IndexRebuild.v and the scans of
    IndexQuery.v, each with a witness on a small main net chain. *)

From Stdlib Require Import Permutation Sorted.
From S2P Require Import Prelude ChainParams Sha256 Wire Encode MuHash Commitment Script Block Bucket IndexDB Ledger UtxoView ExpiryIndex IndexRefine IndexRebuild IndexQuery.

(** ** Following a chain *)

Section chain.
Context (idx : ExpiryIndex) (ch : ChainAccessor).

(** A block the rest of validation accepts on the ledger [u]. *)
Record block_ok (h : Z) (u : utxo_set) (b : Block) (u' : utxo_set) : Prop := {
  bok_height : Height b = h;
  bok_range : is_i32 h;
  bok_indexed : IsIndexingEnabled (expiryParams idx) h = true;
  bok_new : good_txs idx h (Transactions b);
  bok_apply : exists cs, applyTxs h u (Transactions b) = Some (u', cs);
  bok_commit : forall root, rootOf idx u = Some root -> validateExpiryCommitment idx b root = Ok tt
}.

(** The blocks the accessor returns take the ledger from one height to another. *)
Inductive chain_run : Z -> utxo_set -> list Z -> Z -> utxo_set -> list Z -> Prop :=
| run_nil h u hash : chain_run h u hash h u hash
| run_step h u hash b u1 js h' u' hash' :
    BlockByHeight ch (h + 1) = Ok b -> FetchSpendJournal ch b = Ok js ->
    block_ok (h + 1) u b u1 ->
    chain_run (h + 1) u1 (Block_Hash b) h' u' hash' ->
    chain_run h u hash h' u' hash'.

Lemma chain_run_le h u hash h' u' hash' : chain_run h u hash h' u' hash' -> h <= h'.
Proof. induction 1; lia. Qed.

Lemma ConnectBlock_block_ok h u b u1 db tip hash tip0 :
  disabled idx = false -> block_ok h u b u1 -> index_ok idx db u tip hash -> good_set idx u ->
  exists db', ConnectBlock (withTip idx tip0) db b = Ok (db', withTip idx h) /\
    index_ok idx db' u1 h (Block_Hash b) /\ good_set idx u1.
Proof.
  intros Hd [<- Hr Hi Hn [cs Ha] Hc] Hok Hg. destruct (rootOf_Some idx u) as (root & Hroot & _).
  exact (ConnectBlock_spec (withTip idx tip0) db b u u1 cs tip hash root Hd Hi Hr Hok Hg Hn Ha Hroot (Hc _ Hroot)).
Qed.

Lemma catchUpLoop_run h u hash h' u' hash' db tip0 :
  disabled idx = false -> chain_run h u hash h' u' hash' -> index_ok idx db u h hash -> good_set idx u ->
  exists db', catchUpLoop (Z.to_nat (h' - h)) ch (h + 1) db (withTip idx tip0)
              = (db', withTip idx (if h =? h' then tip0 else h'), Ok tt) /\
    index_ok idx db' u' h' hash' /\ good_set idx u'.
Proof.
  intros Hd Hrun. revert db tip0. induction Hrun as [h u hash|h u hash b u1 js h' u' hash' Hb Hj Hok Hrun IH];
    intros db tip0 Hi Hg.
  { rewrite Z.sub_diag, Z.eqb_refl. by exists db. }
  pose proof (chain_run_le _ _ _ _ _ _ Hrun).
  destruct (ConnectBlock_block_ok _ _ _ _ db h hash tip0 Hd Hok Hi Hg) as (db1 & E1 & Hi1 & Hg1).
  destruct (IH db1 (h + 1) Hi1 Hg1) as (db2 & E2 & Hi2 & Hg2).
  exists db2. split; [|done].
  replace (Z.to_nat (h' - h)) with (S (Z.to_nat (h' - (h + 1)))) by lia. cbn [catchUpLoop].
  rewrite Hb, Hj, E1, E2. destruct (Z.eqb_spec h h'); [lia|].
  by destruct (Z.eqb_spec (h + 1) h') as [->|].
Qed.

Lemma incrementalCatchUp_run h u hash h' u' hash' db :
  disabled idx = false -> chain_run h u hash h' u' hash' -> index_ok idx db u h hash -> good_set idx u ->
  exists db', incrementalCatchUp (withTip idx h) (Some ch) db h h' = (db', withTip idx h', Ok tt) /\
    index_ok idx db' u' h' hash' /\ good_set idx u'.
Proof.
  intros Hd Hrun Hi Hg. pose proof (chain_run_le _ _ _ _ _ _ Hrun).
  destruct (catchUpLoop_run _ _ _ _ _ _ db h Hd Hrun Hi Hg) as (db' & E & Hi' & Hg').
  exists db'. split; [|done]. unfold incrementalCatchUp. destruct (Z.leb_spec h' h).
  - assert (h = h') as -> by lia. rewrite Z.sub_diag, Z.eqb_refl in E. by injection E as <-.
  - rewrite E. by destruct (Z.eqb_spec h h'); [lia|].
Qed.
End chain.

Lemma index_empty_ok idx db u : project idx u = ∅ -> index_empty db -> index_ok idx db u (-1) zeroHash.
Proof.
  intros Hu [Hrep Hm]. split; rewrite Hu; [done|]. exists NewMuHash. split; [apply acc_ok_empty|done].
Qed.

Lemma index_ok_project idx db u v tip hash :
  project idx u = project idx v -> index_ok idx db u tip hash -> index_ok idx db v tip hash.
Proof. unfold index_ok. by intros ->. Qed.

(** Two databases that index the same ledger at the same block answer alike. *)
Lemma index_ok_agree idx db db' u tip hash :
  disabled idx = false -> index_ok idx db u tip hash -> index_ok idx db' u tip hash ->
  same_entries db db' /\ GetAccumulatorSnapshot idx db = GetAccumulatorSnapshot idx db'.
Proof.
  intros Hd H1 H2. split; [eapply represents_unique; [apply H1|apply H2]|].
  destruct (rootOf_Some idx u) as (root & Hroot & _).
  rewrite (index_ok_snapshot idx db u tip hash root), (index_ok_snapshot idx db' u tip hash root) by done.
  done.
Qed.

Lemma represents_created db m : represents db m -> is_Some (bktExpiryMeta db) -> created db.
Proof.
  intros [_ (?&E1&_) (?&E2&_) (?&E3&_) (?&E4&_)] H. unfold created. rewrite E1, E2, E3, E4. by eauto.
Qed.

(** A rebuild that cannot finish. *)
Lemma fastRebuild_failed idx ch db tip db' idx' e :
  created db -> fastRebuildFromUTXO idx (Some ch) db tip = (db', idx', Err e) ->
  index_empty db' /\ idx' = withTip idx (-1).
Proof.
  intros Hc. unfold fastRebuildFromUTXO. destruct (clear_spec db Hc) as (db0 & Ec & Hr0 & _ & Hm0).
  assert (Hc0 : created db0) by (by eapply represents_created).
  unfold dbUpdate at 1. rewrite Ec.
  destruct (populate _ _ _ _ _ _) as [[db1 mh] r] eqn:Ep.
  pose proof (populate_created _ _ _ _ _ _ _ _ _ Hc0 Ep) as Hc1.
  destruct r as [[]|e1].
  - unfold dbUpdate at 1.
    match goal with |- context [match ?x with Ok d => (d, Ok tt) | Err e0 => (db1, Err e0) end] => destruct x end;
      [done|].
    by intros (H1 & H2 & _)%resetToEmpty_spec.
  - by intros (H1 & H2 & _)%resetToEmpty_spec.
Qed.

(** ** Commitments of a coinbase *)

Lemma commitment_single coinbase before o after root :
  length root = AccumulatorDigestSize -> TxOuts coinbase = before ++ o :: after ->
  Forall (fun o => isCommitmentScript (PkScript o) = false) (before ++ after) ->
  PkScript o = BuildExpiryCommitmentScript root ->
  CountExpiryCommitments coinbase = 1 /\
  ExtractExpiryCommitment coinbase = Some (ExpiryCommitmentVersion, root).
Proof.
  intros Hl Eo [Hb Ha]%Forall_app Es. rewrite CountExpiryCommitments_spec. unfold ExtractExpiryCommitment.
  rewrite Eo. destruct o as [v pk]; cbn [PkScript] in Es; subst pk. split; [|by apply extract_single].
  apply filter_false_Forall in Hb, Ha. rewrite List.filter_app, zlen_app, Hb. cbn [List.filter PkScript].
  rewrite isCommitmentScript_Build, zlen_cons, Ha by done. done.
Qed.

Lemma filter_single {A} (P : A -> bool) l :
  zlen (List.filter P l) = 1 ->
  exists before x after, l = before ++ x :: after /\ P x = true /\
    Forall (fun y => P y = false) (before ++ after).
Proof.
  induction l as [|x l IH]; [done|]. cbn [List.filter]. destruct (P x) eqn:E.
  - rewrite zlen_cons. intros H. exists [], x, l. split; [done|]. split; [done|].
    apply filter_false_Forall. cbn [app]. lia.
  - intros (b & y & a & -> & Hy & Hf)%IH. exists (x :: b), y, a. split; [done|]. split; [done|].
    by constructor.
Qed.

(** A commitment script is determined by its version byte and its root. *)
Lemma isCommitmentScript_inv pk :
  isCommitmentScript pk = true ->
  pk = [OP_RETURN; OP_DATA_37] ++ ExpiryCommitmentTag ++ [nth 6 pk 0] ++ slice 7 (7 + AccumulatorDigestSize) pk.
Proof.
  unfold isCommitmentScript. rewrite !andb_true_iff, bool_decide_eq_true, Nat.eqb_eq, !Z.eqb_eq.
  intros [[[Hl H0] H1] H2]. unfold slice in *.
  destruct pk as [|x0 [|x1 [|x2 [|x3 [|x4 [|x5 [|x6 pk]]]]]]]; try done.
  cbn in H0, H1. subst. cbn in H2. injection H2 as -> -> -> ->. cbn [nth drop]. rewrite drop_0.
  change ExpiryCommitmentScriptLen with 39%nat in Hl. cbn [length] in Hl.
  rewrite take_ge; [done|]. change (7 + AccumulatorDigestSize - 7)%nat with 32%nat. lia.
Qed.

Lemma commitment_single_inv coinbase root :
  (if 1 <? CountExpiryCommitments coinbase then Err ErrBadExpiryCommitmentDuplicate
   else match ExtractExpiryCommitment coinbase with
        | Some (version, root0) =>
            if negb (version =? ExpiryCommitmentVersion) then Err ErrBadExpiryCommitmentFormat
            else if negb (bool_decide (root0 = root)) then Err ErrBadExpiryCommitmentMismatch else Ok tt
        | None => Err ErrBadExpiryCommitmentMissing
        end) = Ok tt ->
  exists before o after,
    TxOuts coinbase = before ++ o :: after /\
    Forall (fun o => isCommitmentScript (PkScript o) = false) (before ++ after) /\
    PkScript o = BuildExpiryCommitmentScript root.
Proof.
  destruct (Z.ltb_spec 1 (CountExpiryCommitments coinbase)) as [|Hc]; [done|].
  destruct (ExtractExpiryCommitment coinbase) as [[v r]|] eqn:Ex; [|done].
  destruct (Z.eqb_spec v ExpiryCommitmentVersion) as [->|]; [|done].
  destruct (bool_decide_reflect (r = root)) as [->|]; [|done]. intros _.
  assert (Hne : CountExpiryCommitments coinbase <> 0).
  { intros H%extract_iff_count. congruence. }
  rewrite CountExpiryCommitments_spec in Hc, Hne.
  set (P := fun o => isCommitmentScript (PkScript o)) in *.
  pose proof (zlen_nonneg (List.filter P (TxOuts coinbase))).
  destruct (filter_single P (TxOuts coinbase)) as (b & o & a & Eo & Ho & Hf); [lia|].
  exists b, o, a. split; [done|]. split; [done|].
  unfold ExtractExpiryCommitment in Ex. rewrite Eo, reverse_app, reverse_cons, <- app_assoc in Ex.
  apply Forall_app in Hf as [_ Ha]. rewrite extractFrom_app in Ex by (by apply Forall_reverse).
  cbn [app extractFrom] in Ex. unfold P in Ho. rewrite Ho in Ex. injection Ex as Hv Hr.
  change (slice 7 (7 + AccumulatorDigestSize) (PkScript o) = root) in Hr.
  rewrite (isCommitmentScript_inv _ Ho), Hv, Hr. done.
Qed.

(** ** Writing over an entry *)

Lemma putTxOutMapping_overwrite db m op e a e0 a0 :
  represents db m -> m !! op = Some (e0, a0) -> wf_entry op (e, a) -> e <> e0 ->
  exists db' b, putTxOutMapping db op e a = Ok db' /\ bktExpiry2Outpoints db' = Some b /\
    is_Some (b !! encodeExpiryOutpointCompositeKey e0 op) /\
    is_Some (b !! encodeExpiryOutpointCompositeKey e op) /\
    forall m', ~ represents db' m'.
Proof.
  intros [Hwf (b1 & E1 & H1) (b2 & E2 & H2) (b3 & E3 & H3) (b4 & E4 & H4)] Hm Hop Hne.
  pose proof (Hwf _ _ Hm) as (G1 & G2 & _). pose proof Hop as (_ & G3 & _). cbn [fst snd] in *.
  unfold putTxOutMapping. rewrite E1, E2, E3, E4. cbn [needBucket]. result_simpl.
  rewrite encodeReapStrict_Ok by apply Hop. cbn [liftEncode]. result_simpl.
  assert (Hk0 : b2 !! encodeExpiryOutpointCompositeKey e0 op = Some emptyIndexValue).
  { apply (index_of_lookup e2o_key no_val m b2 op (e0, a0) H2 Hm). }
  eexists _, _. split; [reflexivity|]. split; [reflexivity|].
  assert (Hold : <[encodeExpiryOutpointCompositeKey e op:=emptyIndexValue]> b2
                 !! encodeExpiryOutpointCompositeKey e0 op = Some emptyIndexValue).
  { destruct (decide (encodeExpiryOutpointCompositeKey e op = encodeExpiryOutpointCompositeKey e0 op)) as [->|];
      [apply lookup_insert_eq|by rewrite lookup_insert_ne]. }
  split; [by rewrite Hold|]. split; [by rewrite lookup_insert_eq|].
  intros m' [Hwf' _ (c2 & F2 & K2) _ _]. cbn in F2. injection F2 as <-.
  pose proof (proj1 (K2 _ _) Hold) as (x & [ex ax] & Hx & Ek & _).
  pose proof (proj1 (K2 _ _) (lookup_insert_eq b2 (encodeExpiryOutpointCompositeKey e op) emptyIndexValue))
    as (y & [ey ay] & Hy & Ek' & _).
  destruct (Hwf' _ _ Hx) as (W1 & W2 & _), (Hwf' _ _ Hy) as (W3 & W4 & _).
  unfold e2o_key in Ek, Ek'. cbn [fst snd] in *.
  apply expiryComposite_inj in Ek as [<- <-]; [|done..].
  apply expiryComposite_inj in Ek' as [<- <-]; [|done..].
  congruence.
Qed.

(** ** Properties *)

(** C18: connecting a block follows the ledger. If the index holds exactly the
    projection of the ledger before the block, the block applies to the ledger
    and carries the commitment the rule asks for, then [ConnectBlock] succeeds,
    the buckets hold exactly the projection of the ledger after the block, and
    the snapshot names the block and the multiset hash of that projection. *)
Theorem ConnectBlock_follows_ledger idx db block u u' tip hash :
  disabled idx = false -> block_ok idx (Height block) u block u' ->
  index_ok idx db u tip hash -> good_set idx u ->
  exists db' root,
    ConnectBlock idx db block = Ok (db', withTip idx (Height block)) /\
    represents db' (project idx u') /\ rootOf idx u' = Some root /\
    GetAccumulatorSnapshot idx db' = Ok (mkSnapshot root (Block_Hash block) (Height block)).
Proof.
  intros Hd Hb Hi Hg. destruct (rootOf_Some idx u') as (root & Hroot & _).
  destruct (ConnectBlock_block_ok idx _ _ _ _ db tip hash (curTipHeight idx) Hd Hb Hi Hg)
    as (db' & E & Hi' & _).
  exists db', root. split; [by destruct idx|]. split; [apply Hi'|]. split; [done|].
  by eapply index_ok_snapshot.
Qed.

(** C19: disconnecting undoes connecting. After [ConnectBlock] and
    [DisconnectBlock] with the journal of the same block, the four entry buckets
    hold the very bytes they held before, the accumulator has the digest it had,
    and the index claims the parent block as its tip. *)
Theorem connect_disconnect_restores idx db block u u' cs tip hash root :
  disabled idx = false -> IsIndexingEnabled (expiryParams idx) (Height block) = true ->
  is_i32 (Height block) -> 0 <= Height block -> length (bh_PrevBlock (Header block)) = HashSize ->
  index_ok idx db u tip hash -> good_set idx u ->
  good_txs idx (Height block) (Transactions block) -> block_shape (Transactions block) ->
  applyTxs (Height block) u (Transactions block) = Some (u', cs) ->
  rootOf idx u = Some root -> validateExpiryCommitment idx block root = Ok tt ->
  exists db1 idx1 db2,
    ConnectBlock idx db block = Ok (db1, idx1) /\
    DisconnectBlock idx1 db1 block cs = Ok (db2, withTip idx (Height block - 1)) /\
    same_entries db db2 /\
    GetAccumulatorSnapshot idx db2
    = Ok (mkSnapshot root (bh_PrevBlock (Header block)) (Height block - 1)) /\
    GetAccumulatorDigest idx db2 = GetAccumulatorDigest idx db.
Proof.
  intros Hd Hen Hr H0 Hl Hi Hg Hn Hs Ha Hroot Hc.
  destruct (ConnectBlock_spec idx db block u u' cs tip hash root) as (db1 & E1 & Hi1 & _); [done..|].
  destruct (DisconnectBlock_spec (withTip idx (Height block)) db1 block u u' cs
              (Height block) (Block_Hash block)) as (db2 & E2 & Hi2); [done..|].
  rewrite i32_id in E2, Hi2 by (widths; lia).
  assert (Hsnap : GetAccumulatorSnapshot idx db2
    = Ok (mkSnapshot root (bh_PrevBlock (Header block)) (Height block - 1)))
    by (eapply index_ok_snapshot; [done|exact Hi2|done]).
  exists db1, (withTip idx (Height block)), db2. split; [done|]. split; [done|].
  split; [eapply represents_unique; [apply Hi|apply Hi2]|]. split; [done|].
  unfold GetAccumulatorDigest. rewrite Hsnap, (index_ok_snapshot idx db u tip hash root) by done. done.
Qed.

(** C27: however a node gets its index, it is the same index. Rebuilding from the
    UTXO set at a block, in whatever order the set is visited, and connecting the
    blocks one at a time from an empty index give the same four buckets, the same
    accumulator root, tip hash and tip height. *)
Theorem fastRebuild_agrees_with_catchUp idx ch db db0 l v u0 u tip hash block :
  disabled idx = false -> created db -> index_empty db0 -> project idx u0 = ∅ -> good_set idx u0 ->
  chain_run idx ch (-1) u0 zeroHash tip u hash ->
  0 <= tip -> is_i32 tip -> BlockByHeight ch tip = Ok block -> hash = Block_Hash block ->
  ForEachUTXOWithAmount ch = map utxoRow l -> ForEachUTXOError ch = None ->
  l ≡ₚ map_to_list v -> good_set idx v -> project idx v = project idx u ->
  exists db1 db2,
    fastRebuildFromUTXO idx (Some ch) db tip = (db1, withTip idx tip, Ok tt) /\
    incrementalCatchUp (withTip idx (-1)) (Some ch) db0 (-1) tip = (db2, withTip idx tip, Ok tt) /\
    same_entries db1 db2 /\
    GetAccumulatorSnapshot idx db1 = GetAccumulatorSnapshot idx db2.
Proof.
  intros Hd Hc He Hu0 Hg0 Hrun H0 Ht Hb -> Hl Herr HP Hgv Hvu.
  destruct (fastRebuild_spec idx ch db l v tip block) as (db1 & E1 & Hi1); [done..|].
  destruct (incrementalCatchUp_run idx ch (-1) u0 zeroHash tip u (Block_Hash block) db0)
    as (db2 & E2 & Hi2 & _); [done|done|by apply index_empty_ok|done|].
  exists db1, db2. split; [done|]. split; [done|].
  eapply index_ok_agree; [done| |exact Hi2]. by eapply index_ok_project.
Qed.

(** A rebuild always reaches the tip or leaves a clean index. From any
    database with its buckets, whatever the UTXO iterator does: when the fast
    rebuild reports an error the index is empty with no tip, and the fallback of
    [tryFastRebuildOrFallback] then connects the chain from its first block and
    ends with the index of the ledger at the tip. *)
Theorem failed_rebuild_falls_back idx ch db tip u0 u hash db1 idx1 e :
  disabled idx = false -> created db -> project idx u0 = ∅ -> good_set idx u0 ->
  chain_run idx ch (-1) u0 zeroHash tip u hash ->
  fastRebuildFromUTXO idx (Some ch) db tip = (db1, idx1, Err e) ->
  index_empty db1 /\ curTipHeight idx1 = -1 /\
  exists db', tryFastRebuildOrFallback idx (Some ch) db tip = (db', withTip idx tip, Ok tt) /\
    index_ok idx db' u tip hash.
Proof.
  intros Hd Hc Hu0 Hg0 Hrun Ef. destruct (fastRebuild_failed idx ch db tip db1 idx1 e Hc Ef) as [He ->].
  split; [done|]. split; [done|].
  destruct (incrementalCatchUp_run idx ch (-1) u0 zeroHash tip u hash db1) as (db2 & E2 & Hi2 & _);
    [done|done|by apply index_empty_ok|done|].
  exists db2. split; [|done]. unfold tryFastRebuildOrFallback. rewrite Ef. exact E2.
Qed.

(** The REAP prefix is complete and canonical. On an index that represents a
    set of entries there is one list of all of them in the strictly increasing
    order of [compareReapInputOrderKey], and for every height and limit
    [ReapPrefixCandidates] returns the first [limit] elements of the expired ones
    in that list. *)
Theorem ReapPrefixCandidates_first_expired idx db m h limit :
  disabled idx = false -> represents db m -> is_i32 h -> 0 < limit ->
  exists L, canonical m L /\
    ReapPrefixCandidates idx db h limit = Ok (take (Z.to_nat limit) (List.filter (expiredAt h) L)).
Proof.
  intros Hd Hr Hh Hl. destruct (ReapPrefixCandidates_spec idx db m Hd Hr) as (L & HL & HS).
  exists L. split; [done|]. by apply HS.
Qed.

(** A scan returns the entries of its range. On an index that represents a
    set of entries there is one list of all of them in the strictly increasing
    order of expiry key and [compareOutPoint], and every scan returns the first
    [maxResults] of the entries from its start (or after its position) up to its
    end in that list, and says whether there are more. *)
Theorem ScanExpiringUTXOs_page idx db m :
  disabled idx = false -> represents db m ->
  exists L, scanOrder m L /\
    forall fromKey toKey maxResults startAfter,
      is_u64 fromKey -> 0 < maxResults -> (forall op, startAfter = Some op -> wf_outpoint op) ->
      let R := List.filter (scanRange fromKey toKey startAfter) L in
      ScanExpiringUTXOs idx db fromKey toKey maxResults startAfter
      = Ok (take (Z.to_nat maxResults) R, maxResults <? zlen R).
Proof. apply ScanExpiringUTXOs_spec. Qed.

(** What a block must commit to. Once the rule is active, a coinbase passes
    exactly when one of its outputs, and no other, has the shape of a commitment,
    and that output carries version 1 and the root of the index before the block;
    before activation nothing is asked. *)
Theorem validateExpiryCommitment_iff idx block coinbase rest root :
  Transactions block = coinbase :: rest -> length root = AccumulatorDigestSize ->
  validateExpiryCommitment idx block root = Ok tt <->
  (isCommitmentActive idx (Height block) = true ->
   exists before o after,
     TxOuts coinbase = before ++ o :: after /\
     Forall (fun o => isCommitmentScript (PkScript o) = false) (before ++ after) /\
     PkScript o = BuildExpiryCommitmentScript root).
Proof.
  intros Ht Hl. unfold validateExpiryCommitment. rewrite Ht.
  destruct (isCommitmentActive idx (Height block)); cbn [negb]; [|by split].
  split.
  - intros H _. by apply commitment_single_inv.
  - intros H. destruct (H eq_refl) as (before & o & after & Eo & Hf & Es).
    destruct (commitment_single coinbase before o after root) as [-> ->]; [done..|].
    cbn. by rewrite bool_decide_true.
Qed.

(** Indexing an outpoint that is already indexed corrupts the index. When an
    output is connected over a live entry with another expiry key (as the two
    duplicate coinbases of the main chain history do), the old scan key stays
    beside the new one, the old entry stays in the accumulator, and the buckets
    no longer represent any set of outputs. *)
Theorem connectOutput_overwrite_stale idx h op o db mh m e0 a0 :
  represents db m -> m !! op = Some (e0, a0) ->
  wf_entry op (eiCalculateExpiryKey (expiryParams idx) h, Value o) ->
  shouldIndexCreateHeight idx h = true -> IsUnspendable (PkScript o) = false ->
  eiCalculateExpiryKey (expiryParams idx) h <> e0 ->
  exists db' mh' b,
    connectOutput idx h op o (db, mh) = Ok (db', mh') /\
    Add mh (computeEntryData op (eiCalculateExpiryKey (expiryParams idx) h)) = Some mh' /\
    bktExpiry2Outpoints db' = Some b /\
    is_Some (b !! encodeExpiryOutpointCompositeKey e0 op) /\
    is_Some (b !! encodeExpiryOutpointCompositeKey (eiCalculateExpiryKey (expiryParams idx) h) op) /\
    forall m', ~ represents db' m'.
Proof.
  intros Hrep Hop Hwf Hsh Hsp Hne. set (e := eiCalculateExpiryKey (expiryParams idx) h) in *.
  destruct (putTxOutMapping_overwrite db m op e (Value o) e0 a0 Hrep Hop Hwf Hne)
    as (db' & b & Eput & Eb & H0 & H1 & Hno).
  unfold connectOutput, connectTxOut. rewrite Hsh, Hsp. cbn [negb]. fold e.
  rewrite Add_eq. cbn [orPanic]. result_simpl. rewrite Eput. result_simpl.
  eexists db', _, b. split; [reflexivity|]. split; [reflexivity|]. done.
Qed.

(** ** A small main net chain, for the witnesses *)

Definition sampleIdx : ExpiryIndex :=
  match NewExpiryIndex ObtcMainNetParams with
  | Ok idx => idx
  | Err _ => mkExpiryIndex (Build_ExpiryIndexParams 0 0 0 0 0) 0 true
  end.

Definition sampleCb (n : Z) (outs : list TxOut) : MsgTx :=
  mkMsgTx 1 [mkTxIn (mkOutPoint zeroHash (2^32 - 1)) [2; n; 0] [] (2^32 - 1)] outs 0.

Definition sampleGenesis : Block := mkBlock 0 sampleHeader [sampleCb 0 [mkTxOut 0 [106]]].
Definition samplePay : MsgTx := sampleCb 1 [mkTxOut 5000000000 [81]].
Definition sampleBlock1 : Block := mkBlock 1 sampleHeader [samplePay].
Definition sampleOp1 : OutPoint := txOutPoint (TxHash samplePay) 0.
Definition sampleCoin1 : SpentTxOut := mkSpentTxOut 5000000000 [81] 1 true.
Definition sampleU1 : utxo_set := {[ sampleOp1 := sampleCoin1 ]}.

(** The coinbase output of block 1 spent in block 2. *)
Definition samplePass : MsgTx :=
  mkMsgTx 2 [mkTxIn sampleOp1 [] [] (2^32 - 1)] [mkTxOut 4999999000 [82]] 0.
Definition sampleBlock2 : Block := mkBlock 2 sampleHeader [sampleCb 2 [mkTxOut 0 [106]]; samplePass].
Definition sampleU2 : utxo_set :=
  {[ txOutPoint (TxHash samplePass) 0 := mkSpentTxOut 4999999000 [82] 2 false ]}.

Lemma sample_apply0 : applyTxs 0 ∅ (Transactions sampleGenesis) = Some (∅, []).
Proof. apply (bool_decide_unpack _). vm_compute. exact I. Qed.

Lemma sample_apply1 : applyTxs 1 ∅ (Transactions sampleBlock1) = Some (sampleU1, []).
Proof. apply (bool_decide_unpack _). vm_compute. exact I. Qed.

Lemma sample_apply2 : applyTxs 2 sampleU1 (Transactions sampleBlock2) = Some (sampleU2, [sampleCoin1]).
Proof. apply (bool_decide_unpack _). vm_compute. exact I. Qed.

Lemma sample_good1 : good_coin sampleIdx sampleOp1 sampleCoin1.
Proof.
  split; [|split].
  - split; [apply Sha256.length_sum256|]. vm_compute; split; [discriminate|reflexivity].
  - vm_compute; split; [discriminate|reflexivity].
  - unfold invertible_data, invertible. vm_compute. reflexivity.
Qed.

Lemma sample_good2 : good_coin sampleIdx (txOutPoint (TxHash samplePass) 0) (mkSpentTxOut 4999999000 [82] 2 false).
Proof.
  split; [|split].
  - split; [apply Sha256.length_sum256|]. vm_compute; split; [discriminate|reflexivity].
  - vm_compute; split; [discriminate|reflexivity].
  - unfold invertible_data, invertible. vm_compute. reflexivity.
Qed.

Lemma sample_goodU1 : good_set sampleIdx sampleU1.
Proof. apply map_Forall_singleton, sample_good1. Qed.

Lemma sample_newCoins :
  map (newCoins 0) (Transactions sampleGenesis) = [[]] /\
  map (newCoins 1) (Transactions sampleBlock1) = [[(sampleOp1, sampleCoin1)]] /\
  map (newCoins 2) (Transactions sampleBlock2)
  = [[]; [(txOutPoint (TxHash samplePass) 0, mkSpentTxOut 4999999000 [82] 2 false)]].
Proof. apply (bool_decide_unpack _). vm_compute. exact I. Qed.

Lemma good_txs_map idx h txs : Forall (good_new idx) (map (newCoins h) txs) -> good_txs idx h txs.
Proof. apply (proj1 (Forall_fmap (newCoins h) (good_new idx) txs)). Qed.

Lemma sample_block0_ok : block_ok sampleIdx 0 ∅ sampleGenesis ∅.
Proof.
  split; [done|by vm_compute|by vm_compute| |exists []; exact sample_apply0|done].
  apply good_txs_map. destruct sample_newCoins as [-> _]. by repeat constructor.
Qed.

Lemma sample_block1_ok : block_ok sampleIdx 1 ∅ sampleBlock1 sampleU1.
Proof.
  split; [done|by vm_compute|by vm_compute| |exists []; exact sample_apply1|done].
  apply good_txs_map. destruct sample_newCoins as (_ & -> & _).
  constructor; [constructor; [exact sample_good1|constructor]|constructor].
Qed.

Lemma sample_good_block2 : good_txs sampleIdx 2 (Transactions sampleBlock2).
Proof.
  apply good_txs_map. destruct sample_newCoins as (_ & _ & ->).
  constructor; [constructor|constructor; [constructor; [exact sample_good2|constructor]|constructor]].
Qed.

Lemma sample_block2_ok : block_ok sampleIdx 2 sampleU1 sampleBlock2 sampleU2.
Proof.
  split; [done|by vm_compute|by vm_compute|exact sample_good_block2|exists [sampleCoin1]; exact sample_apply2|done].
Qed.

Definition sampleChain (err : option ei_error) : ChainAccessor :=
  mkChainAccessor 1
    (fun h => if h =? 0 then Ok sampleGenesis else if h =? 1 then Ok sampleBlock1
              else Err (RuntimePanic "height"))
    (fun _ => Ok []) (map utxoRow [(sampleOp1, sampleCoin1)]) err.

Definition sampleDB : IndexDB := createExpiryIndexBuckets (mkIndexDB None None None None None).

Lemma sampleDB_created : created sampleDB.
Proof. vm_compute. split_and!; by eexists. Qed.

Lemma sample_run err :
  chain_run sampleIdx (sampleChain err) (-1) ∅ zeroHash 1 sampleU1 (Block_Hash sampleBlock1).
Proof.
  eapply run_step; [reflexivity|reflexivity|exact sample_block0_ok|].
  eapply run_step; [reflexivity|reflexivity|exact sample_block1_ok|]. apply run_nil.
Qed.

Lemma sample_index : exists db, index_ok sampleIdx db sampleU1 1 (Block_Hash sampleBlock1).
Proof.
  destruct (fastRebuild_spec sampleIdx (sampleChain None) sampleDB [(sampleOp1, sampleCoin1)] sampleU1 1
    sampleBlock1) as (db & _ & H); [exact sampleDB_created|reflexivity|reflexivity| |exact sample_goodU1|lia|by vm_compute|reflexivity|].
  - unfold sampleU1. by rewrite map_to_list_singleton.
  - by exists db.
Qed.

Lemma ConnectBlock_follows_ledger_witness :
  exists db db' root, index_ok sampleIdx db sampleU1 1 (Block_Hash sampleBlock1) /\
    ConnectBlock sampleIdx db sampleBlock2 = Ok (db', withTip sampleIdx 2) /\
    represents db' (project sampleIdx sampleU2) /\
    GetAccumulatorSnapshot sampleIdx db' = Ok (mkSnapshot root (Block_Hash sampleBlock2) 2).
Proof.
  destruct sample_index as [db Hi].
  destruct (ConnectBlock_follows_ledger sampleIdx db sampleBlock2 sampleU1 sampleU2 1
    (Block_Hash sampleBlock1) eq_refl sample_block2_ok Hi sample_goodU1) as (db' & root & H1 & H2 & _ & H3).
  exists db, db', root. split; [exact Hi|]. split; [exact H1|]. split; [exact H2|exact H3].
Defined.

Lemma connect_disconnect_restores_witness :
  exists db db1 idx1 db2, index_ok sampleIdx db sampleU1 1 (Block_Hash sampleBlock1) /\
    ConnectBlock sampleIdx db sampleBlock2 = Ok (db1, idx1) /\
    DisconnectBlock idx1 db1 sampleBlock2 [sampleCoin1] = Ok (db2, withTip sampleIdx 1) /\
    same_entries db db2.
Proof.
  destruct sample_index as [db Hi]. destruct (rootOf_Some sampleIdx sampleU1) as (root & Hroot & _).
  destruct (connect_disconnect_restores sampleIdx db sampleBlock2 sampleU1 sampleU2 [sampleCoin1] 1
    (Block_Hash sampleBlock1) root) as (db1 & idx1 & db2 & H1 & H2 & H3 & _).
  - reflexivity.
  - reflexivity.
  - vm_compute; split; [discriminate|reflexivity].
  - vm_compute; discriminate.
  - reflexivity.
  - exact Hi.
  - exact sample_goodU1.
  - exact sample_good_block2.
  - split; [reflexivity|]. repeat constructor.
  - exact sample_apply2.
  - exact Hroot.
  - reflexivity.
  - exists db, db1, idx1, db2. split; [exact Hi|]. split; [exact H1|]. split; [exact H2|exact H3].
Defined.

Lemma fastRebuild_agrees_with_catchUp_witness :
  exists db0 db1 db2,
    fastRebuildFromUTXO sampleIdx (Some (sampleChain None)) sampleDB 1 = (db1, withTip sampleIdx 1, Ok tt) /\
    incrementalCatchUp (withTip sampleIdx (-1)) (Some (sampleChain None)) db0 (-1) 1
    = (db2, withTip sampleIdx 1, Ok tt) /\
    same_entries db1 db2.
Proof.
  destruct (clear_spec sampleDB sampleDB_created) as (db0 & _ & Hr & Hm & _).
  destruct (fastRebuild_agrees_with_catchUp sampleIdx (sampleChain None) sampleDB db0
    [(sampleOp1, sampleCoin1)] sampleU1 ∅ sampleU1 1 (Block_Hash sampleBlock1) sampleBlock1)
    as (db1 & db2 & H1 & H2 & H3 & _).
  - reflexivity.
  - exact sampleDB_created.
  - exact (conj Hr Hm).
  - reflexivity.
  - apply map_Forall_empty.
  - exact (sample_run None).
  - lia.
  - vm_compute; split; [discriminate|reflexivity].
  - reflexivity.
  - reflexivity.
  - reflexivity.
  - reflexivity.
  - unfold sampleU1. rewrite map_to_list_singleton. reflexivity.
  - exact sample_goodU1.
  - reflexivity.
  - exists db0, db1, db2. split; [exact H1|]. split; [exact H2|exact H3].
Defined.

(** An iterator that breaks off. *)
Definition brokenChain : ChainAccessor := sampleChain (Some StxoOutOfRange).

Lemma broken_fails :
  exists db1 idx1 e,
    fastRebuildFromUTXO sampleIdx (Some brokenChain) sampleDB 1 = (db1, idx1, Err e).
Proof.
  unfold fastRebuildFromUTXO. destruct (clear_spec sampleDB sampleDB_created) as (db0 & Ec & _).
  unfold dbUpdate at 1. rewrite Ec.
  change (ForEachUTXOError brokenChain) with (Some StxoOutOfRange). unfold populate.
  destruct (processUTXOs _ _ _ _ _) as [[[db1 mh] batch] r]. destruct r as [[]|e]; by do 3 eexists.
Qed.

Lemma failed_rebuild_falls_back_witness :
  exists db1 db', index_empty db1 /\
    tryFastRebuildOrFallback sampleIdx (Some brokenChain) sampleDB 1 = (db', withTip sampleIdx 1, Ok tt) /\
    index_ok sampleIdx db' sampleU1 1 (Block_Hash sampleBlock1).
Proof.
  destruct broken_fails as (db1 & idx1 & e & He).
  destruct (failed_rebuild_falls_back sampleIdx brokenChain sampleDB 1 ∅ sampleU1 (Block_Hash sampleBlock1)
    db1 idx1 e eq_refl sampleDB_created (omap_empty _) (map_Forall_empty _) (sample_run _) He)
    as (H1 & _ & db' & H2 & H3).
  exists db1, db'. split; [exact H1|]. split; [exact H2|exact H3].
Defined.

Lemma ReapPrefixCandidates_first_expired_witness :
  exists db, represents db (project sampleIdx sampleU1) /\
    exists L, canonical (project sampleIdx sampleU1) L /\
      ReapPrefixCandidates sampleIdx db 400000 5 = Ok (take 5 (List.filter (expiredAt 400000) L)).
Proof.
  destruct sample_index as [db Hi]. exists db. split; [exact (proj1 Hi)|].
  apply (ReapPrefixCandidates_first_expired sampleIdx db _ 400000 5 eq_refl (proj1 Hi)).
  - vm_compute; split; [discriminate|reflexivity].
  - reflexivity.
Defined.

Lemma ScanExpiringUTXOs_page_witness :
  exists db L, represents db (project sampleIdx sampleU1) /\ scanOrder (project sampleIdx sampleU1) L /\
    ScanExpiringUTXOs sampleIdx db 0 400000 5 None
    = Ok (take 5 (List.filter (scanRange 0 400000 None) L),
          5 <? zlen (List.filter (scanRange 0 400000 None) L)).
Proof.
  destruct sample_index as [db Hi].
  destruct (ScanExpiringUTXOs_page sampleIdx db _ eq_refl (proj1 Hi)) as (L & HL & HS).
  exists db, L. split; [exact (proj1 Hi)|]. split; [exact HL|].
  apply (HS 0 400000 5 None); [vm_compute; split; [discriminate|reflexivity]|reflexivity|discriminate].
Defined.

Lemma validateExpiryCommitment_iff_witness :
  validateExpiryCommitment sampleIdx
    (mkBlock 1002016 sampleHeader [sampleCb 3 [mkTxOut 7 [81]; mkTxOut 0 (BuildExpiryCommitmentScript zeroHash)]])
    zeroHash = Ok tt.
Proof.
  eapply (proj2 (validateExpiryCommitment_iff sampleIdx (mkBlock 1002016 sampleHeader [_]) _ [] zeroHash
    eq_refl eq_refl)). intros _.
  exists [mkTxOut 7 [81]], (mkTxOut 0 (BuildExpiryCommitmentScript zeroHash)), [].
  split; [reflexivity|]. split; [|reflexivity]. repeat constructor.
Defined.

Lemma connectOutput_overwrite_stale_witness :
  exists db mh db' mh', represents db (project sampleIdx sampleU1) /\
    connectOutput sampleIdx 2 sampleOp1 (mkTxOut 7 [81]) (db, mh) = Ok (db', mh') /\
    forall m', ~ represents db' m'.
Proof.
  destruct sample_index as [db Hi]. exists db, NewMuHash.
  destruct (connectOutput_overwrite_stale sampleIdx 2 sampleOp1 (mkTxOut 7 [81]) db NewMuHash
    (project sampleIdx sampleU1) 362881 5000000000) as (db' & mh' & b & H1 & _ & _ & _ & _ & H2).
  - exact (proj1 Hi).
  - rewrite project_lookup. unfold sampleU1. rewrite lookup_singleton_eq. reflexivity.
  - split; [exact (proj1 sample_good1)|]. vm_compute. split; split; (discriminate || reflexivity).
  - reflexivity.
  - reflexivity.
  - vm_compute. discriminate.
  - exists db', mh'. split; [exact (proj1 Hi)|]. split; [exact H1|exact H2].
Defined.
