(* ===== verification/IndexTools.v ===== *)
(** * Starting the index, and the tools around it

    What a node finds after [Init], whatever it found on disk; the shadow build
    that rehearses the index outside a node; the statistics. *)

From Stdlib Require Import Permutation Sorted.
From stdpp Require Import fin_sets.
From S2P Require Import Prelude ChainParams Sha256 Wire Encode MuHash Commitment Script Block Bucket IndexDB Ledger ExpiryIndex IndexRefine IndexRebuild IndexQuery IndexProps.

(** ** Starting up *)

Lemma chain_run_last idx ch h u hash h' u' hash' :
  chain_run idx ch h u hash h' u' hash' -> h < h' ->
  exists b, BlockByHeight ch h' = Ok b /\ hash' = Block_Hash b.
Proof.
  induction 1 as [|h u hash b u1 js h' u' hash' Hb Hj Hok Hrun IH]; [lia|]. intros _.
  pose proof (chain_run_le _ _ _ _ _ _ _ _ Hrun).
  destruct (decide (h + 1 < h')) as [Hlt|]; [by apply IH|]. assert (h' = h + 1) as -> by lia.
  inversion Hrun as [|? ? ? ? ? ? ? ? ? _ _ _ Hrun']; subst; [by exists b|].
  apply chain_run_le in Hrun'. lia.
Qed.

Lemma chain_run_refl idx ch h u hash u' hash' :
  chain_run idx ch h u hash h u' hash' -> u = u' /\ hash = hash'.
Proof.
  inversion 1 as [|? ? ? ? ? ? ? ? ? _ _ _ Hrun]; [done|]. apply chain_run_le in Hrun. lia.
Qed.

(** The iterator of the chain visits the coins of the ledger, up to coins the
    index leaves out, unless it breaks off with an error. *)
Definition serves (idx : ExpiryIndex) (ch : ChainAccessor) (u : utxo_set) : Prop :=
  ForEachUTXOError ch = None ->
  exists l v, ForEachUTXOWithAmount ch = map utxoRow l /\ l ≡ₚ map_to_list v /\
    good_set idx v /\ project idx v = project idx u.

Lemma populate_iterErr p keep n db utxos e :
  exists db' mh e', populate p keep n db utxos (Some e) = (db', mh, Err e').
Proof.
  unfold populate. destruct (processUTXOs _ _ _ _ _) as [[[db1 mh] batch] r].
  destruct r; by do 3 eexists.
Qed.

Lemma fastRebuild_iterErr idx ch db tip e :
  created db -> ForEachUTXOError ch = Some e ->
  exists db' idx' e', fastRebuildFromUTXO idx (Some ch) db tip = (db', idx', Err e').
Proof.
  intros Hc He. unfold fastRebuildFromUTXO. destruct (clear_spec db Hc) as (db0 & Ec & _).
  unfold dbUpdate at 1. rewrite Ec, He.
  destruct (populate_iterErr (expiryParams idx) (shouldIndexCreateHeight idx) DefaultBatchSize db0
              (ForEachUTXOWithAmount ch) e) as (db1 & mh & e' & ->).
  by do 3 eexists.
Qed.

Section startup.
Context (idx : ExpiryIndex) (ch : ChainAccessor) (u0 u : utxo_set) (tip : Z) (hash : list Z).
Context (Hd : disabled idx = false) (Hu0 : project idx u0 = ∅) (Hg0 : good_set idx u0).
Context (Hrun : chain_run idx ch (-1) u0 zeroHash tip u hash).
Context (Hs : serves idx ch u) (Htip : 0 <= tip < 2^31).

Lemma tryFastRebuildOrFallback_run k db :
  created db ->
  exists db', tryFastRebuildOrFallback (withTip idx k) (Some ch) db tip = (db', withTip idx tip, Ok tt) /\
    index_ok idx db' u tip hash.
Proof.
  intros Hc. unfold tryFastRebuildOrFallback. destruct (ForEachUTXOError ch) as [e|] eqn:He.
  - destruct (fastRebuild_iterErr (withTip idx k) ch db tip e Hc He) as (db1 & idx1 & e' & Ef).
    rewrite Ef. destruct (fastRebuild_failed _ ch db tip db1 idx1 e' Hc Ef) as [Hem ->].
    destruct (incrementalCatchUp_run idx ch (-1) u0 zeroHash tip u hash db1) as (db2 & E2 & Hi2 & _);
      [done|done|by apply index_empty_ok|done|].
    by exists db2.
  - destruct (Hs He) as (l & v & Hl & HP & Hgv & Hvu).
    destruct (chain_run_last _ _ _ _ _ _ _ _ Hrun) as (b & Hb & Eh); [lia|].
    destruct (fastRebuild_spec (withTip idx k) ch db l v tip b) as (db1 & -> & Hi1);
      [done|done|done|done|done|lia|widths; lia|done|].
    exists db1. split; [done|]. rewrite Eh. by eapply index_ok_project.
Qed.

Lemma smartRebuild_run k db :
  BestHeight ch = tip -> created db ->
  (k <> -1 -> 0 <= k /\ exists uk hk, index_ok idx db uk k hk /\ good_set idx uk /\
                          chain_run idx ch k uk hk tip u hash) ->
  exists db', smartRebuild (withTip idx k) (Some ch) db k = (db', withTip idx tip, Ok tt) /\
    index_ok idx db' u tip hash.
Proof.
  intros Hbest Hc Hk. unfold smartRebuild, getChainTipHeight. rewrite Hbest. cbv zeta.
  destruct (Z.eqb_spec k (-1)) as [->|Hne]; [by apply tryFastRebuildOrFallback_run|].
  destruct (Hk Hne) as (H0 & uk & hk & Hi & Hg & Hrunk).
  pose proof (chain_run_le _ _ _ _ _ _ _ _ Hrunk). rewrite i32_id by (widths; lia).
  destruct (Z.ltb_spec fastRebuildThreshold (tip - k)); [by apply tryFastRebuildOrFallback_run|].
  destruct (Z.ltb_spec 0 (tip - k)).
  - destruct (incrementalCatchUp_run idx ch k uk hk tip u hash db) as (db' & -> & Hi' & _); [done..|].
    by exists db'.
  - assert (k = tip) as -> by lia. apply chain_run_refl in Hrunk as [-> ->]. by exists db.
Qed.
End startup.

Lemma createExpiryIndexBuckets_created db : created (createExpiryIndexBuckets db).
Proof. unfold created; cbn. split_and!; by eexists. Qed.

Lemma dbPutIndexVersion_Ok db v :
  is_Some (bktExpiryMeta db) ->
  exists db', dbPutIndexVersion db v = Ok db' /\ same_entries db db' /\ is_Some (bktExpiryMeta db') /\
    forall mh tip hash, meta_is db mh tip hash -> meta_is db' mh tip hash.
Proof.
  intros [b Hb]. unfold dbPutIndexVersion. rewrite (dbPutIndexMeta_Ok db b) by done.
  eexists. split; [done|]. split; [done|]. split; [by eexists|]. intros mh tip hash.
  destruct keys_distinct as (_ & _ & _ & K4 & K5 & K6).
  unfold meta_is, dbGetAccumulatorState, dbGetTipHeightIndexed, dbGetAccumulatorTipHash, dbGetIndexMeta.
  cbn [withMeta bktExpiryMeta needBucket]. rewrite Hb. cbn [needBucket]. result_simpl.
  by rewrite !lookup_insert_ne by done.
Qed.

Lemma dbPutTipHeightIndexed_Ok db h :
  is_Some (bktExpiryMeta db) ->
  exists db', dbPutTipHeightIndexed db h = Ok db' /\ same_entries db db' /\ is_Some (bktExpiryMeta db').
Proof.
  intros [b Hb]. unfold dbPutTipHeightIndexed. rewrite (dbPutIndexMeta_Ok db b) by done.
  eexists. split; [done|]. split; [done|by eexists].
Qed.

Lemma upgrade_created db :
  created db ->
  exists db', (db1 ← clearExpiryIndexBuckets db; db2 ← dbPutTipHeightIndexed db1 (-1);
               dbPutIndexVersion db2 CurrentIndexVersion) = Ok db' /\ created db'.
Proof.
  intros Hc. destruct (clear_spec db Hc) as (db1 & -> & Hr & _ & Hm). result_simpl.
  destruct (dbPutTipHeightIndexed_Ok db1 (-1) Hm) as (db2 & -> & Hs2 & Hm2). result_simpl.
  destruct (dbPutIndexVersion_Ok db2 CurrentIndexVersion Hm2) as (db3 & -> & Hs3 & Hm3 & _).
  exists db3. split; [done|]. eapply represents_created; [|done].
  eapply represents_same; [exact Hs3|]. by eapply represents_same.
Qed.

(** ** The shadow build *)

Definition shadowRow (oc : OutPoint * SpentTxOut) : ShadowUTXO :=
  mkShadowUTXO oc.1 (stxo_Height oc.2) (stxo_Amount oc.2) (stxo_IsCoinBase oc.2).

(** The coins the build leaves out on request: coinbases that are not mature at
    the tip. *)
Definition immatureAt (opts : ShadowBuildOptions) (c : SpentTxOut) : bool :=
  so_SkipImmatureCoinbase opts && stxo_IsCoinBase c
  && (i32 (so_ChainTipHeight opts - stxo_Height c) <? so_CoinbaseMaturity opts).

Definition matureCoins (opts : ShadowBuildOptions) (u : utxo_set) : utxo_set :=
  filter (fun oc => immatureAt opts oc.2 = false) u.

(** Filtering before the loop is filtering in it. *)
Lemma processUTXOs_filter p keep n utxos st :
  processUTXOs p (fun _ => true) n st (List.filter (fun x => keep x.1.2) utxos)
  = processUTXOs p keep n st utxos.
Proof.
  revert st; induction utxos as [|[[op h] a] utxos IH]; intros st; [done|].
  cbn [List.filter processUTXOs fst snd]. destruct st as [[db mh] batch]. cbn [processUTXO].
  destruct (keep h) eqn:E; cbn [negb]; [|by rewrite IH].
  cbn [processUTXOs processUTXO negb]. destruct (Add mh _); [|done].
  destruct (n <=? _)%nat; [|by rewrite IH]. destruct (writeBatch _ db); [by rewrite IH|done].
Qed.

Lemma shadow_rows idx opts l :
  map (fun u => (su_OutPoint u, su_CreateHeight u, su_Amount u))
    (List.filter (shadowKeep (expiryParams idx) opts) (map shadowRow l))
  = List.filter (fun x => shouldIndexCreateHeight idx x.1.2)
      (map utxoRow (List.filter (fun oc => negb (immatureAt opts oc.2)) l)).
Proof.
  induction l as [|[op c] l IH]; [done|]. cbn [map List.filter].
  assert (E : shadowKeep (expiryParams idx) opts (shadowRow (op, c))
              = shouldIndexCreateHeight idx (stxo_Height c) && negb (immatureAt opts c)).
  { unfold shadowKeep, shouldIndexCreateHeight, immatureAt, shadowRow. cbn.
    by rewrite (Z.leb_antisym 0 (stxo_Height c)), (Z.ltb_antisym _ (stxo_Height c)), !negb_involutive. }
  rewrite E. cbn [snd]. destruct (immatureAt opts c); cbn [negb andb]; [by rewrite andb_false_r|].
  rewrite andb_true_r. cbn [map List.filter utxoRow fst snd].
  destruct (shouldIndexCreateHeight idx (stxo_Height c)); [|done]. cbn [map]. by rewrite IH.
Qed.

Lemma matureCoins_perm opts l u :
  l ≡ₚ map_to_list u ->
  List.filter (fun oc => negb (immatureAt opts oc.2)) l ≡ₚ map_to_list (matureCoins opts u).
Proof.
  intros HP. apply NoDup_Permutation.
  - apply NoDup_ListNoDup, List.NoDup_filter, NoDup_ListNoDup. rewrite HP. apply NoDup_map_to_list.
  - apply NoDup_map_to_list.
  - intros [op c]. rewrite list_elem_of_In, filter_In, <- list_elem_of_In, HP, !elem_of_map_to_list.
    unfold matureCoins. rewrite map_lookup_filter_Some, negb_true_iff. done.
Qed.

Lemma shadow_reset db : index_empty (resetShadowIndex db).
Proof.
  unfold resetShadowIndex, dbUpdate.
  destruct (clear_spec _ (createExpiryIndexBuckets_created db)) as (db1 & -> & Hrep & Hm & _). done.
Qed.

Section shadow.
Context (idx : ExpiryIndex) (params : Params) (opts : ShadowBuildOptions).
Context (Hp : GetExpiryIndexParams params = Some (expiryParams idx)).

(** The first step: five empty buckets. *)
Lemma shadow_start db :
  exists db0, (db1 ← clearExpiryIndexBuckets (createExpiryIndexBuckets db);
               dbPutIndexVersion db1 CurrentIndexVersion) = Ok db0 /\
    represents db0 ∅ /\ is_Some (bktExpiryMeta db0).
Proof.
  destruct (clear_spec _ (createExpiryIndexBuckets_created db)) as (db1 & -> & Hr & _ & Hm). result_simpl.
  destruct (dbPutIndexVersion_Ok db1 CurrentIndexVersion Hm) as (db2 & -> & Hs & Hm2 & _).
  exists db2. split; [done|]. split; [by eapply represents_same|done].
Qed.

Lemma shadow_spec db l u :
  l ≡ₚ map_to_list u -> good_set idx (matureCoins opts u) -> is_i32 (so_ChainTipHeight opts) ->
  length (default zeroHash (so_ChainTipHash opts)) = HashSize ->
  exists db', BuildShadowIndexFromUTXO db params (map shadowRow l, None) opts = (db', Ok tt) /\
    index_ok idx db' (matureCoins opts u) (so_ChainTipHeight opts) (default zeroHash (so_ChainTipHash opts)).
Proof.
  intros HP Hg Ht Hh. unfold BuildShadowIndexFromUTXO. rewrite Hp. cbv zeta. cbn [fst snd].
  destruct (shadow_start db) as (db0 & E0 & Hrep0 & [b0 Hb0]). unfold dbUpdate at 1. rewrite E0, shadow_rows.
  set (n := if so_BatchSize opts <=? 0 then _ else _).
  set (l' := List.filter (fun oc => negb (immatureAt opts oc.2)) l).
  pose proof (matureCoins_perm opts l u HP) as HP'. fold l' in HP'.
  destruct (populate_refines idx n db0 l' (matureCoins opts u) Hrep0) as (db1 & mh & E1 & Hrep1 & Hacc1 & Hm1);
    [by apply addCoins_perm|by eapply good_new_perm|].
  unfold populate in E1 |- *. rewrite processUTXOs_filter, E1.
  destruct (put_meta_spec db1 b0 mh (default zeroHash (so_ChainTipHash opts)) (so_ChainTipHeight opts))
    as (d1 & d2 & d3 & F1 & F2 & F3 & Hs & Hmd); [congruence|apply Hacc1|done|done|].
  unfold dbUpdate. rewrite F1. result_simpl. rewrite F2. result_simpl. rewrite F3. result_simpl.
  destruct (meta_is_bucket _ _ _ _ Hmd) as [b3 Hb3].
  destruct (dbPutIndexVersion_Ok d3 CurrentIndexVersion) as (d4 & -> & Hs4 & _ & Hm4); [by eexists|].
  exists d4. split; [done|]. split; [|by exists mh; split; [|apply Hm4]].
  eapply represents_same; [exact Hs4|]. by eapply represents_same.
Qed.

Lemma shadow_failed db rows e :
  exists db' e', BuildShadowIndexFromUTXO db params (rows, Some e) opts = (db', Err e') /\ index_empty db'.
Proof.
  unfold BuildShadowIndexFromUTXO. rewrite Hp. cbv zeta. cbn [fst snd].
  destruct (shadow_start db) as (db0 & E0 & _). unfold dbUpdate at 1. rewrite E0.
  match goal with |- context [populate ?p ?k ?n ?d ?r (Some e)] =>
    destruct (populate_iterErr p k n d r e) as (db1 & mh & e' & ->) end.
  eexists _, e'. split; [reflexivity|apply shadow_reset].
Qed.
End shadow.

(** ** Statistics *)

Definition expiryKeys (L : list (OutPoint * entry)) : gset Z := list_to_set (map (fun p => p.2.1) L).

Lemma expiryKeys_cons p L : expiryKeys (p :: L) = {[p.2.1]} ∪ expiryKeys L.
Proof. done. Qed.

Lemma elem_of_expiryKeys x L : x ∈ expiryKeys L <-> exists p, p ∈ L /\ x = p.2.1.
Proof.
  unfold expiryKeys. rewrite elem_of_list_to_set. change (map ?f L) with (f <$> L).
  rewrite list_elem_of_fmap. split; intros (p & H1 & H2); by exists p.
Qed.

(** Distinct keys of a list whose keys do not decrease, not counting the last
    one seen. *)
Lemma countExpiryKeys_spec L last count :
  Forall (fun p => wf_entry p.1 p.2) L ->
  StronglySorted (fun p q : OutPoint * entry => p.2.1 <= q.2.1) L ->
  (forall x, last = Some x -> Forall (fun p : OutPoint * entry => x <= p.2.1) L) ->
  countExpiryKeys (map (keyOf e2o_key) L) last count
  = Ok (count + Z.of_nat (size (expiryKeys L ∖ match last with Some x => {[x]} | None => ∅ end))).
Proof.
  intros Hwf Hs. revert last count; induction Hs as [|[op [e a]] L Hs IH Hx]; intros last count Hl.
  { cbn [map countExpiryKeys]. f_equal. replace (_ ∖ _) with (∅ : gset Z) by set_solver. rewrite size_empty. lia. }
  apply Forall_cons_1 in Hwf as [(Hop & He & Ha) Hwf]. cbn [map countExpiryKeys fst snd] in *.
  change (keyOf e2o_key (op, (e, a))) with (be_bytes 8 e ++ encodeOrderedOutPoint op).
  rewrite length_app, length_be_bytes, length_encodeOrderedOutPoint by done.
  cbn [Nat.eqb Nat.add negb expiryOutpointCompositeKeySize].
  rewrite (proj1 (take_drop_app expiryKeyEncodedSize (be_bytes 8 e) (encodeOrderedOutPoint op) ltac:(bytes_auto))).
  change (be_bytes 8 e) with (encodeExpiryKey e). rewrite decodeExpiryKey_encode by done.
  cbn [liftEncode]. result_simpl. rewrite expiryKeys_cons; cbn [fst snd].
  destruct (bool_decide_reflect (last = Some e)) as [->|Hne].
  - rewrite IH by (done || by intros x [= <-]). do 4 f_equal. set_solver.
  - rewrite IH by (done || by intros x [= <-]). f_equal.
    assert (E : ({[e]} ∪ expiryKeys L) ∖ match last with Some x => {[x]} | None => ∅ end
                = {[e]} ∪ expiryKeys L ∖ {[e]}).
    { destruct last as [x|].
      - assert (x < e) as Hlt by (specialize (Hl x eq_refl); apply Forall_cons_1 in Hl as [Hl _]; cbn [fst snd] in Hl;
          assert (x <> e) by congruence; lia).
        assert (x ∉ expiryKeys L).
        { intros (p & Hp & ->)%elem_of_expiryKeys. rewrite Forall_forall in Hx. specialize (Hx p Hp). exact (Z.lt_irrefl _ (Z.le_lt_trans _ _ _ Hx Hlt)). }
        apply set_eq. intros y. destruct (decide (y = e)); set_solver by lia.
      - apply set_eq. intros y. destruct (decide (y = e)); set_solver. }
    rewrite E. assert (Hd : ({[e]} : gset Z) ## expiryKeys L ∖ {[e]}) by set_solver.
    rewrite (size_union _ _ Hd), size_singleton. lia.
Qed.

Lemma e2o_keys_sorted L :
  Forall (fun p => wf_entry p.1 p.2) L ->
  StronglySorted (fun p q => bytes_compare (keyOf e2o_key p) (keyOf e2o_key q) = Lt) L ->
  StronglySorted (fun p q : OutPoint * entry => p.2.1 <= q.2.1) L.
Proof.
  intros Hwf Hs. induction Hs as [|[op [e a]] L Hs IH Hx]; [constructor|].
  apply Forall_cons_1 in Hwf as [(H1 & H2 & H3) Hwf]. constructor; [by apply IH|].
  apply Forall_forall. intros [op' [e' a']] Hin. rewrite Forall_forall in Hx, Hwf.
  specialize (Hx _ Hin). destruct (Hwf _ Hin) as (G1 & G2 & G3).
  unfold keyOf, e2o_key in Hx. cbn [fst snd] in *. rewrite expiryComposite_compare in Hx by done.
  destruct (Z.compare_spec e e'); cbn [lex] in Hx; (lia || done).
Qed.

Lemma GetStats_spec idx db m tip :
  disabled idx = false -> represents db m -> dbGetTipHeightIndexed db = Ok tip ->
  GetStats idx db
  = Ok (mkStats false tip (Z.of_nat (size m)) (Z.of_nat (size (expiryKeys (map_to_list m))))).
Proof.
  intros Hd [Hwf (b1 & E1 & H1) (b2 & E2 & H2) _ _] Ht. unfold GetStats. rewrite Hd, Ht, E1, E2. result_simpl.
  destruct (cursorFirst_index o2e_key o2e_val wf_entry o2e_key_inj m b1 Hwf H1) as (L1 & -> & HP1 & _).
  destruct (cursorFirst_index e2o_key no_val wf_entry e2o_key_inj m b2 Hwf H2) as (L2 & -> & HP2 & Hs2).
  assert (HwfL : Forall (fun p => wf_entry p.1 p.2) L2).
  { rewrite HP2. apply Forall_forall. intros [x y] H%elem_of_map_to_list. by apply Hwf. }
  rewrite countExpiryKeys_spec by (done || by apply e2o_keys_sorted). result_simpl.
  rewrite difference_empty_L. do 2 f_equal.
  - unfold zlen. rewrite length_map, HP1. by rewrite length_map_to_list.
  - rewrite Z.add_0_l. do 2 f_equal. unfold expiryKeys. apply list_to_set_perm_L, Permutation_map, HP2.
Qed.

(** ** Properties *)

(** Starting a node ends at the tip, whatever it finds on disk. If the stored
    index is of an old version or has no tip, its content does not matter; else it
    must be the index of an earlier block of the chain. The UTXO iterator may work
    or break off. In every case [Init] succeeds, with the index of the ledger at
    the tip of the chain. *)
Theorem Init_reaches_tip idx ch db ver k u0 u tip hash :
  disabled idx = false -> created db -> dbGetIndexVersion db = Ok ver -> dbGetTipHeightIndexed db = Ok k ->
  BestHeight ch = tip -> 0 <= tip < 2^31 -> project idx u0 = ∅ -> good_set idx u0 ->
  chain_run idx ch (-1) u0 zeroHash tip u hash -> serves idx ch u ->
  (ver = 0 \/ ver = CurrentIndexVersion -> k <> -1 ->
   0 <= k /\ exists uk hk, index_ok idx db uk k hk /\ good_set idx uk /\ chain_run idx ch k uk hk tip u hash) ->
  exists db', Init idx (Some ch) db = (db', withTip idx tip, Ok tt) /\ index_ok idx db' u tip hash.
Proof.
  intros Hd Hc Hver Hk Hbest Htip Hu0 Hg0 Hrun Hs Hstored. unfold Init. rewrite Hd, Hver, Hk. result_simpl.
  destruct (negb (ver =? 0) && negb (ver =? CurrentIndexVersion)) eqn:Hold.
  - destruct (upgrade_created db Hc) as (db1 & E1 & Hc1). unfold dbUpdate. rewrite E1.
    by eapply smartRebuild_run.
  - eapply smartRebuild_run; try done. apply Hstored.
    apply andb_false_iff in Hold. rewrite !negb_false_iff, !Z.eqb_eq in Hold. done.
Qed.

(** The rehearsal is the real thing. Over the coins of a ledger in any order,
    the shadow build ends with the index a node has of that ledger, without the
    coinbases it was asked to skip; and when its source breaks off it reports an
    error and leaves an empty index, whatever the database held. *)
Theorem BuildShadowIndex_agrees idx params opts db l u :
  GetExpiryIndexParams params = Some (expiryParams idx) -> l ≡ₚ map_to_list u ->
  good_set idx (matureCoins opts u) -> is_i32 (so_ChainTipHeight opts) ->
  length (default zeroHash (so_ChainTipHash opts)) = HashSize ->
  (exists db', BuildShadowIndexFromUTXO db params (map shadowRow l, None) opts = (db', Ok tt) /\
     index_ok idx db' (matureCoins opts u) (so_ChainTipHeight opts) (default zeroHash (so_ChainTipHash opts))) /\
  forall rows e, exists db' e',
    BuildShadowIndexFromUTXO db params (rows, Some e) opts = (db', Err e') /\ index_empty db'.
Proof.
  intros Hp HP Hg Ht Hh. split; [by apply shadow_spec|]. intros rows e. by apply (shadow_failed idx).
Qed.

Lemma sample_serves err : serves sampleIdx (sampleChain err) sampleU1.
Proof.
  intros _. exists [(sampleOp1, sampleCoin1)], sampleU1. split; [done|].
  split; [unfold sampleU1; by rewrite map_to_list_singleton|]. split; [exact sample_goodU1|done].
Qed.

Lemma Init_reaches_tip_witness :
  exists db', Init sampleIdx (Some brokenChain) sampleDB = (db', withTip sampleIdx 1, Ok tt) /\
    index_ok sampleIdx db' sampleU1 1 (Block_Hash sampleBlock1).
Proof.
  apply (Init_reaches_tip sampleIdx brokenChain sampleDB 0 (-1) ∅ sampleU1 1 (Block_Hash sampleBlock1)).
  - reflexivity.
  - exact sampleDB_created.
  - reflexivity.
  - reflexivity.
  - reflexivity.
  - lia.
  - reflexivity.
  - apply map_Forall_empty.
  - exact (sample_run _).
  - exact (sample_serves _).
  - intros _ H. by destruct H.
Defined.

(** Options that keep every coin. *)
Definition sampleOptions : ShadowBuildOptions := mkShadowOptions 1 (Some (Block_Hash sampleBlock1)) 1 false 100.

Lemma sample_mature : matureCoins sampleOptions sampleU1 = sampleU1.
Proof. unfold matureCoins, sampleU1. by rewrite map_filter_singleton_True. Qed.

Lemma BuildShadowIndex_agrees_witness :
  exists db', BuildShadowIndexFromUTXO sampleDB ObtcMainNetParams
      (map shadowRow [(sampleOp1, sampleCoin1)], None) sampleOptions = (db', Ok tt) /\
    index_ok sampleIdx db' sampleU1 1 (Block_Hash sampleBlock1).
Proof.
  rewrite <- sample_mature.
  apply (BuildShadowIndex_agrees sampleIdx ObtcMainNetParams sampleOptions sampleDB
           [(sampleOp1, sampleCoin1)] sampleU1).
  - reflexivity.
  - unfold sampleU1. rewrite map_to_list_singleton. reflexivity.
  - rewrite sample_mature. exact sample_goodU1.
  - vm_compute; split; [discriminate|reflexivity].
  - reflexivity.
Defined.
