(* ===== verification/Text.v ===== *)
(** * Text of the standard library

    What the REAP marker uses of Go's strconv, strings and encoding/hex, on
    strings as lists of bytes: [FormatInt], [Itoa], [ParseInt], [Atoi] in base
    ten, [Split], [Join], [EncodeToString] and [DecodeString]; and that parsing
    undoes printing. *)

From S2P Require Import Prelude Wire.

(** ** Printing integers *)

(** The digits of [n], most significant first, in front of [acc]; a 64-bit
    integer has at most twenty. *)
Fixpoint digits (fuel : nat) (n : Z) (acc : list Z) : list Z :=
  match fuel with
  | O => acc
  | S fuel' =>
      let acc' := (48 + n mod 10) :: acc in
      if n / 10 =? 0 then acc' else digits fuel' (n / 10) acc'
  end.

Definition FormatInt (n : Z) : list Z :=
  if n <? 0 then 45 :: digits 20 (- n) [] else digits 20 n [].

Definition Itoa (n : Z) : list Z := FormatInt n.

(** ** Parsing integers *)

Inductive num_error := ErrSyntax | ErrRange.

#[export] Instance num_error_eq_dec : EqDecision num_error.
Proof. solve_decision. Defined.

Definition isDigit (c : Z) : bool := (48 <=? c) && (c <=? 57).

(** The loop of [strconv.ParseUint] in base ten. *)
Fixpoint parseUintLoop (maxVal : Z) (s : list Z) (n : Z) : result num_error Z :=
  match s with
  | [] => Ok n
  | c :: s' =>
      if negb (isDigit c) then Err ErrSyntax
      else if (2^64 - 1) / 10 + 1 <=? n then Err ErrRange
      else
        let n0 := n * 10 in
        let n1 := u64 (n0 + (c - 48)) in
        if (n1 <? n0) || (maxVal <? n1) then Err ErrRange
        else parseUintLoop maxVal s' n1
  end.

Definition ParseUint (s : list Z) (bitSize : Z) : result num_error Z :=
  match s with
  | [] => Err ErrSyntax
  | _ => parseUintLoop (2^bitSize - 1) s 0
  end.

Definition ParseInt (s : list Z) (bitSize : Z) : result num_error Z :=
  match s with
  | [] => Err ErrSyntax
  | c :: s' =>
      let neg := c =? 45 in
      let body := if (c =? 43) || (c =? 45) then s' else s in
      un ← ParseUint body bitSize;
      let cutoff := 2^(bitSize - 1) in
      if negb neg && (cutoff <=? un) then Err ErrRange
      else if neg && (cutoff <? un) then Err ErrRange
      else Ok (if neg then - un else un)
  end.

(** The fast path of [strconv.Atoi], for fewer than nineteen characters. *)
Fixpoint atoiLoop (s : list Z) (n : Z) : result num_error Z :=
  match s with
  | [] => Ok n
  | c :: s' => if 9 <? u8 (c - 48) then Err ErrSyntax else atoiLoop s' (i64 (n * 10 + u8 (c - 48)))
  end.

Definition Atoi (s : list Z) : result num_error Z :=
  if (0 <? zlen s) && (zlen s <? 19) then
    match s with
    | [] => Err ErrSyntax
    | c :: s' =>
        let signed := (c =? 45) || (c =? 43) in
        let body := if signed then s' else s in
        match body with
        | [] => Err ErrSyntax
        | _ => n ← atoiLoop body 0; Ok (if c =? 45 then i64 (- n) else n)
        end
    end
  else ParseInt s 64.

(** ** Splitting and joining *)

Fixpoint Split (sep : Z) (s : list Z) : list (list Z) :=
  match s with
  | [] => [[]]
  | c :: s' =>
      if c =? sep then [] :: Split sep s'
      else match Split sep s' with
           | [] => [[c]]
           | part :: parts => (c :: part) :: parts
           end
  end.

Fixpoint Join (sep : Z) (parts : list (list Z)) : list Z :=
  match parts with
  | [] => []
  | [part] => part
  | part :: parts' => part ++ sep :: Join sep parts'
  end.

(** ** Hexadecimal *)

Definition hexDigit (n : Z) : Z := if n <? 10 then 48 + n else 87 + n.

Definition EncodeToString (bs : list Z) : list Z :=
  concat (map (fun b => [hexDigit (b / 16); hexDigit (b mod 16)]) bs).

Definition fromHexChar (c : Z) : option Z :=
  if (48 <=? c) && (c <=? 57) then Some (c - 48)
  else if (97 <=? c) && (c <=? 102) then Some (c - 97 + 10)
  else if (65 <=? c) && (c <=? 70) then Some (c - 65 + 10)
  else None.

(** [None] is any of the errors of [DecodeString]. *)
Fixpoint DecodeString (s : list Z) : option (list Z) :=
  match s with
  | [] => Some []
  | [_] => None
  | a :: b :: s' =>
      x ← fromHexChar a; y ← fromHexChar b; bs ← DecodeString s'; Some (x * 16 + y :: bs)
  end.

(** ** Parsing undoes printing *)

Definition digitsValue (n : Z) (ds : list Z) : Z := foldl (fun n c => n * 10 + (c - 48)) n ds.

Definition digitString (ds : list Z) : Prop := Forall (fun c => 48 <= c <= 57) ds.

Lemma digits_spec fuel n acc :
  0 <= n < 10 ^ Z.of_nat fuel -> (0 < fuel)%nat ->
  exists ds, digits fuel n acc = ds ++ acc /\ digitString ds /\ digitsValue 0 ds = n /\
             ds <> [] /\ (length ds <= fuel)%nat.
Proof.
  revert n acc; induction fuel as [|fuel IH]; intros n acc Hn Hf; [lia|]. cbn [digits].
  pose proof (Z.mod_pos_bound n 10 ltac:(lia)). pose proof (Z.div_mod n 10 ltac:(lia)) as Hdm.
  destruct (Z.eqb_spec (n / 10) 0) as [E|E].
  - exists [48 + n mod 10]. split; [done|]. split; [constructor; [lia|constructor]|].
    split; [cbn; lia|]. split; [done|cbn; lia].
  - assert (0 <= n / 10) by (apply Z.div_pos; lia).
    assert (Hlt : n / 10 < 10 ^ Z.of_nat fuel).
    { apply Z.div_lt_upper_bound; [lia|]. rewrite <- Z.pow_succ_r by lia.
      rewrite Nat2Z.inj_succ in Hn. lia. }
    destruct fuel as [|fuel]; [cbn in Hlt; lia|].
    destruct (IH (n / 10) ((48 + n mod 10) :: acc)) as (ds & -> & Hd & Hv & Hne & Hl); [lia|lia|].
    exists (ds ++ [48 + n mod 10]). rewrite <- app_assoc. split; [done|].
    split; [apply Forall_app; split; [done|]; constructor; [lia|constructor]|].
    split; [unfold digitsValue in *; rewrite foldl_app, Hv; cbn; lia|].
    split; [by destruct ds|]. rewrite length_app. cbn. lia.
Qed.

Lemma digitsValue_ge n ds : digitString ds -> 0 <= n -> n <= digitsValue n ds.
Proof.
  intros H. revert n; induction H as [|c ds Hc _ IH]; intros n Hn; cbn; [lia|].
  specialize (IH (n * 10 + (c - 48)) ltac:(lia)). unfold digitsValue in *. lia.
Qed.

Lemma isDigit_true c : 48 <= c <= 57 -> isDigit c = true.
Proof. intros. unfold isDigit. by rewrite andb_true_iff, !Z.leb_le. Qed.

Lemma parseUintLoop_digits maxVal ds n :
  digitString ds -> 0 <= n -> digitsValue n ds <= maxVal -> maxVal < 2^64 ->
  parseUintLoop maxVal ds n = Ok (digitsValue n ds).
Proof.
  intros H. revert n; induction H as [|c ds Hc Hds IH]; intros n Hn Hv Hm; [done|].
  cbn [parseUintLoop]. rewrite isDigit_true by done. cbn [negb].
  pose proof (digitsValue_ge (n * 10 + (c - 48)) ds Hds ltac:(lia)) as Hge.
  change (digitsValue n (c :: ds)) with (digitsValue (n * 10 + (c - 48)) ds) in *.
  change ((2^64 - 1) / 10 + 1) with 1844674407370955162. change (2^64) with 18446744073709551616 in *.
  destruct (Z.leb_spec 1844674407370955162 n); [lia|].
  rewrite u64_id by (widths; lia).
  destruct (Z.ltb_spec (n * 10 + (c - 48)) (n * 10)), (Z.ltb_spec maxVal (n * 10 + (c - 48))); try lia.
  cbn [orb]. apply IH; lia.
Qed.

Lemma atoiLoop_digits ds n :
  digitString ds -> 0 <= n -> digitsValue n ds < 2^63 -> atoiLoop ds n = Ok (digitsValue n ds).
Proof.
  intros H. revert n; induction H as [|c ds Hc Hds IH]; intros n Hn Hv; [done|].
  cbn [atoiLoop]. pose proof (digitsValue_ge (n * 10 + (c - 48)) ds Hds ltac:(lia)) as Hge.
  change (digitsValue n (c :: ds)) with (digitsValue (n * 10 + (c - 48)) ds) in *.
  assert (u8 (c - 48) = c - 48) as -> by (apply Z.mod_small; lia).
  destruct (Z.ltb_spec 9 (c - 48)); [lia|]. rewrite i64_id by (widths; lia). apply IH; lia.
Qed.

Lemma digits20 n :
  0 <= n < 2^64 ->
  exists c ds, digits 20 n [] = c :: ds /\ digitString (c :: ds) /\ digitsValue 0 (c :: ds) = n.
Proof.
  intros Hn. destruct (digits_spec 20 n []) as (ds & -> & Hd & Hv & Hne & _); [|lia|].
  { change (10 ^ Z.of_nat 20) with 100000000000000000000.
    change (2^64) with 18446744073709551616 in Hn. lia. }
  rewrite app_nil_r. destruct ds as [|c ds]; [done|]. by exists c, ds.
Qed.

Lemma digit_not_sign c ds : digitString (c :: ds) -> (c =? 45) = false /\ (c =? 43) = false.
Proof. intros [Hc _]%Forall_cons_1. split; apply Z.eqb_neq; lia. Qed.

Lemma ParseInt_FormatInt n bits :
  1 <= bits <= 64 -> - 2^(bits - 1) <= n < 2^(bits - 1) -> ParseInt (FormatInt n) bits = Ok n.
Proof.
  intros Hb Hn. assert (Hp : 2^bits = 2 * 2^(bits - 1)).
  { rewrite <- Z.pow_succ_r by lia. f_equal. lia. }
  assert (H64 : 2^bits <= 2^64) by (apply Z.pow_le_mono_r; lia).
  set (P := 2^(bits - 1)) in *. change (2^64) with 18446744073709551616 in H64. unfold FormatInt.
  destruct (Z.ltb_spec n 0).
  - destruct (digits20 (- n)) as (c & ds & -> & Hd & Hv); [lia|].
    cbn [ParseInt Z.eqb Pos.eqb orb negb andb]. unfold ParseUint.
    rewrite parseUintLoop_digits by (done || lia). result_simpl. rewrite Hv. fold P.
    destruct (Z.ltb_spec P (- n)); [lia|]. f_equal. lia.
  - destruct (digits20 n) as (c & ds & -> & Hd & Hv); [lia|].
    cbn [ParseInt]. destruct (digit_not_sign _ _ Hd) as [-> ->]. cbn [orb negb andb]. unfold ParseUint.
    rewrite parseUintLoop_digits by (done || lia). result_simpl. rewrite Hv. fold P.
    by destruct (Z.leb_spec P n); [lia|].
Qed.

Lemma Atoi_Itoa n : 0 <= n < 2^63 -> Atoi (Itoa n) = Ok n.
Proof.
  intros Hn. unfold Atoi. destruct ((0 <? _) && _).
  - unfold Itoa, FormatInt. destruct (Z.ltb_spec n 0); [lia|].
    destruct (digits20 n) as (c & ds & -> & Hd & Hv); [lia|].
    destruct (digit_not_sign _ _ Hd) as [-> ->]. cbn [orb].
    by rewrite atoiLoop_digits, Hv by (done || lia).
  - apply ParseInt_FormatInt; [lia|]. change (2^(64 - 1)) with (2^63). lia.
Qed.

(** ** Splitting undoes joining *)

Lemma Split_no_sep sep s : sep ∉ s -> Split sep s = [s].
Proof.
  induction s as [|c s IH]; intros H; [done|]. cbn [Split].
  apply not_elem_of_cons in H as [Hc Hs]. destruct (Z.eqb_spec c sep); [by subst|]. by rewrite IH.
Qed.

Lemma Split_app sep s t : sep ∉ s -> Split sep (s ++ sep :: t) = s :: Split sep t.
Proof.
  induction s as [|c s IH]; intros H; cbn [app Split]; [by rewrite Z.eqb_refl|].
  apply not_elem_of_cons in H as [Hc Hs]. destruct (Z.eqb_spec c sep); [by subst|]. by rewrite IH.
Qed.

Lemma Split_Join sep parts :
  parts <> [] -> Forall (fun p => sep ∉ p) parts -> Split sep (Join sep parts) = parts.
Proof.
  intros Hne H. induction H as [|p parts Hp Hps IH]; [done|]. destruct parts as [|q parts].
  - by apply Split_no_sep.
  - change (Join sep (p :: q :: parts)) with (p ++ sep :: Join sep (q :: parts)).
    rewrite Split_app by done. by rewrite IH.
Qed.

Lemma digitString_no c ds : digitString ds -> ~ 48 <= c <= 57 -> c ∉ ds.
Proof. intros H Hc Hin. by apply Hc, (proj1 (Forall_forall _ _) H). Qed.

Lemma FormatInt_no_colon n : is_i64 n -> 58 ∉ FormatInt n.
Proof.
  intros Hn. unfold FormatInt. destruct (Z.ltb_spec n 0).
  - destruct (digits20 (- n)) as (c & ds & -> & Hd & _); [widths; lia|].
    apply not_elem_of_cons. split; [lia|]. apply digitString_no; [done|lia].
  - destruct (digits20 n) as (c & ds & -> & Hd & _); [widths; lia|]. apply digitString_no; [done|lia].
Qed.

Lemma length_FormatInt n : is_i64 n -> (length (FormatInt n) <= 21)%nat.
Proof.
  intros Hn. unfold FormatInt. assert (H20 : 10 ^ Z.of_nat 20 = 100000000000000000000) by reflexivity.
  change (2^63) with 9223372036854775808 in *. widths. change (2^63) with 9223372036854775808 in *.
  destruct (Z.ltb_spec n 0).
  - destruct (digits_spec 20 (- n) []) as (ds & -> & _ & _ & _ & Hl); [lia|lia|]. rewrite app_nil_r. cbn. lia.
  - destruct (digits_spec 20 n []) as (ds & -> & _ & _ & _ & Hl); [lia|lia|]. rewrite app_nil_r. lia.
Qed.

(** Digits and a minus sign are bytes. *)
Lemma is_bytes_FormatInt n : is_i64 n -> is_bytes (FormatInt n).
Proof.
  intros Hn. assert (Hb : forall ds, digitString ds -> is_bytes ds).
  { intros ds Hds. eapply Forall_impl; [exact Hds|]. widths. lia. }
  unfold FormatInt. destruct (Z.ltb_spec n 0).
  - destruct (digits20 (- n)) as (c & ds & -> & Hd & _); [widths; lia|]. constructor; [done|by apply Hb].
  - destruct (digits20 n) as (c & ds & -> & Hd & _); [widths; lia|]. by apply Hb.
Qed.

(** ** Decoding undoes encoding *)

Lemma fromHexChar_hexDigit n : 0 <= n < 16 -> fromHexChar (hexDigit n) = Some n.
Proof.
  intros Hn. assert (H : n ∈ [0;1;2;3;4;5;6;7;8;9;10;11;12;13;14;15]) by (rewrite !elem_of_cons; lia).
  revert n Hn H. assert (Hall : Forall (fun n => fromHexChar (hexDigit n) = Some n)
    [0;1;2;3;4;5;6;7;8;9;10;11;12;13;14;15]) by (repeat constructor).
  intros n _ H. by apply (proj1 (Forall_forall _ _) Hall).
Qed.

Lemma DecodeString_EncodeToString bs : is_bytes bs -> DecodeString (EncodeToString bs) = Some bs.
Proof.
  induction 1 as [|b bs Hb _ IH]; [done|].
  change (EncodeToString (b :: bs)) with (hexDigit (b / 16) :: hexDigit (b mod 16) :: EncodeToString bs).
  cbn [DecodeString]. widths.
  pose proof (Z.mod_pos_bound b 16 ltac:(lia)). pose proof (Z.div_mod b 16 ltac:(lia)).
  assert (0 <= b / 16 < 16) by (split; [apply Z.div_pos; lia|apply Z.div_lt_upper_bound; lia]).
  rewrite !fromHexChar_hexDigit by lia. cbn [mbind option_bind]. rewrite IH. cbn. do 2 f_equal. lia.
Qed.

Lemma hexDigit_range n : 0 <= n < 16 -> 48 <= hexDigit n <= 57 \/ 97 <= hexDigit n <= 102.
Proof. intros. unfold hexDigit. destruct (Z.ltb_spec n 10); lia. Qed.

Lemma EncodeToString_chars bs :
  is_bytes bs -> Forall (fun c => 48 <= c <= 57 \/ 97 <= c <= 102) (EncodeToString bs).
Proof.
  induction 1 as [|b bs Hb _ IH]; [constructor|].
  change (EncodeToString (b :: bs)) with (hexDigit (b / 16) :: hexDigit (b mod 16) :: EncodeToString bs).
  widths. pose proof (Z.mod_pos_bound b 16 ltac:(lia)).
  assert (0 <= b / 16 < 16) by (split; [apply Z.div_pos; lia|apply Z.div_lt_upper_bound; lia]).
  constructor; [by apply hexDigit_range|]. constructor; [by apply hexDigit_range|done].
Qed.

Lemma EncodeToString_no_colon bs : is_bytes bs -> 58 ∉ EncodeToString bs.
Proof. intros H Hin. pose proof (EncodeToString_chars bs H) as Hc. rewrite Forall_forall in Hc. specialize (Hc _ Hin). lia. Qed.

Lemma is_bytes_EncodeToString bs : is_bytes bs -> is_bytes (EncodeToString bs).
Proof. intros H. eapply Forall_impl; [by apply EncodeToString_chars|]. widths. lia. Qed.

Lemma length_EncodeToString bs : length (EncodeToString bs) = (2 * length bs)%nat.
Proof.
  induction bs as [|b bs IH]; [done|].
  change (EncodeToString (b :: bs)) with (hexDigit (b / 16) :: hexDigit (b mod 16) :: EncodeToString bs).
  cbn [length]. lia.
Qed.
