(* ===== verification/ReapRules.v ===== *)
(** * The consensus rules of REAP transactions

    src/blockchain/validation_reap.go, [CheckTransactionInputs] of validate.go
    and [ValidateTransactionScripts] of scriptval.go. A REAP transaction spends
    expired outputs without signatures: it is recognised by its version and the
    marker in its last output, and checked by rules of its own.

    Pointers the callers never leave nil (transactions, blocks, views, chain
    parameters) are values here, and the logging is left out. An error is the
    code of the source's [RuleError] with the fixed part of its message. *)

From S2P Require Import Prelude ChainParams Sha256 Wire Encode Commitment Script Block Bucket IndexDB Ledger UtxoView ExpiryIndex Text.

(** The codes of src/blockchain/error.go; the four of the expiry commitment are
    constructors of [ei_error], since the index raises them. *)
Inductive ErrorCode :=
| ErrDuplicateBlock
| ErrBlockTooBig
| ErrBlockWeightTooHigh
| ErrBlockVersionTooOld
| ErrInvalidTime
| ErrTimeTooOld
| ErrTimeTooNew
| ErrDifficultyTooLow
| ErrUnexpectedDifficulty
| ErrHighHash
| ErrBadMerkleRoot
| ErrBadCheckpoint
| ErrForkTooOld
| ErrCheckpointTimeTooOld
| ErrNoTransactions
| ErrNoTxInputs
| ErrNoTxOutputs
| ErrTxTooBig
| ErrBadTxOutValue
| ErrDuplicateTxInputs
| ErrBadTxInput
| ErrMissingTxOut
| ErrUnfinalizedTx
| ErrDuplicateTx
| ErrOverwriteTx
| ErrImmatureSpend
| ErrSpendTooHigh
| ErrBadFees
| ErrTooManySigOps
| ErrFirstTxNotCoinbase
| ErrMultipleCoinbases
| ErrBadCoinbaseScriptLen
| ErrBadCoinbaseValue
| ErrMissingCoinbaseHeight
| ErrBadCoinbaseHeight
| ErrScriptMalformed
| ErrScriptValidation
| ErrUnexpectedWitness
| ErrInvalidWitnessCommitment
| ErrWitnessCommitmentMismatch
| ErrPreviousBlockUnknown
| ErrInvalidAncestorBlock
| ErrPrevBlockNotBest
| ErrTimewarpAttack
| ErrMultipleReapTx
| ErrBadReapPrefix.

Inductive rule_error :=
| RuleError (code : ErrorCode) (reason : string)
| SourceError (e : ei_error).

Definition reapTxVersion : Z := 3.
Definition unminedInputHeight : Z := 0x7fffffff.
Definition MaxSatoshi : Z := 21000000 * 100000000.

(** ** Recognising a REAP transaction *)

Definition extractMarkerPayload (pkScript : list Z) : option (list Z) :=
  match PushedData pkScript with
  | Ok (data :: _) => Some data
  | _ => None
  end.

Definition isLikelyReapTx (tx : MsgTx) : bool :=
  if negb (Version tx =? reapTxVersion) then false
  else
    match last (TxOuts tx) with
    | None => false
    | Some markerOut =>
        if negb (Value markerOut =? 0) then false
        else
          match extractMarkerPayload (PkScript markerOut) with
          | None => false
          | Some payload => has_prefix payload (string_bytes "REAP:")
          end
    end.

(** The first REAP transaction after the coinbase, with its index. *)
Fixpoint findReapFrom (i : nat) (txs : list MsgTx) : option (MsgTx * nat) :=
  match txs with
  | [] => None
  | tx :: txs' => if isLikelyReapTx tx then Some (tx, S i) else findReapFrom (S i) txs'
  end.

Definition findReapTx (block : Block) : option (MsgTx * nat) :=
  findReapFrom 0 (drop 1 (Transactions block)).

(** ** The marker *)

Definition colon : Z := 58.

Definition parseReapMarkerPayload (payload : list Z) : result string (Z * Z * list Z) :=
  match Split colon payload with
  | [tag; height; count; digest] =>
      if negb (bool_decide (tag = string_bytes "REAP")) then Err "invalid REAP marker payload"
      else
        match ParseInt height 32 with
        | Err _ => Err "invalid REAP marker height"
        | Ok h =>
            match Atoi count with
            | Err _ => Err "invalid REAP marker count"
            | Ok c =>
                match DecodeString digest with
                | None => Err "invalid REAP marker digest"
                | Some _ => Ok (i32 h, c, digest)
                end
            end
        end
  | _ => Err "invalid REAP marker payload"
  end.

Definition digestBytes (op : OutPoint) : list Z := Hash op ++ le_bytes 4 (Index op).

Definition reapInputDigest (tx : MsgTx) : list Z :=
  EncodeToString (Sha256.sum256 (concat (map digestBytes (prevOuts tx)))).

Definition checkReapMarker (tx : MsgTx) (txHeight : Z) : result rule_error unit :=
  if negb (isLikelyReapTx tx) then Ok tt
  else
    match last (TxOuts tx) ≫= fun o => extractMarkerPayload (PkScript o) with
    | None => Err (RuleError ErrBadTxInput "reap transaction has unparseable marker output")
    | Some payload =>
        match parseReapMarkerPayload payload with
        | Err e => Err (RuleError ErrBadTxInput e)
        | Ok (h, count, digest) =>
            if negb (h =? txHeight) then Err (RuleError ErrBadTxInput "reap marker height mismatch")
            else if negb (count =? zlen (TxIns tx))
            then Err (RuleError ErrBadTxInput "reap marker count mismatch")
            else if negb (bool_decide (digest = reapInputDigest tx))
            then Err (RuleError ErrBadTxInput "reap marker digest mismatch")
            else Ok tt
        end
    end.

(** ** At most one per block *)

Fixpoint countReap (reapCount : Z) (txs : list MsgTx) : result rule_error Z :=
  match txs with
  | [] => Ok reapCount
  | tx :: txs' =>
      if negb (isLikelyReapTx tx) then countReap reapCount txs'
      else if 1 <? reapCount + 1
      then Err (RuleError ErrMultipleReapTx "block contains multiple REAP transactions")
      else countReap (reapCount + 1) txs'
  end.

Definition checkReapBlockHardening (block : Block) (blockHeight : Z) (chainParams : Params)
    : result rule_error unit :=
  match GetExpiryParams chainParams with
  | None => Ok tt
  | Some expiryParams =>
      if blockHeight <? ReapConsensusAtHeight expiryParams then Ok tt
      else _ ← countReap 0 (drop 1 (Transactions block)); Ok tt
  end.

(** ** The global prefix *)

(** The interface consensus has to the index. *)
Record ReapPrefixSource := mkReapPrefixSource {
  sourceTipHeight : result ei_error Z;
  sourceCandidates : Z -> Z -> result ei_error (list ReapPrefixCandidate) }.

(** The index as that interface. *)
Definition indexSource (idx : ExpiryIndex) (db : IndexDB) : ReapPrefixSource :=
  mkReapPrefixSource (ReapPrefixTipHeight idx db) (ReapPrefixCandidates idx db).

Fixpoint matchPrefix (inputs : list OutPoint) (expected : list ReapPrefixCandidate)
    : result rule_error unit :=
  match inputs, expected with
  | [], _ => Ok tt
  | got :: inputs', want :: expected' =>
      if bool_decide (got = rpc_OutPoint want) then matchPrefix inputs' expected'
      else Err (RuleError ErrBadReapPrefix "reap input is not the canonical global prefix")
  | _ :: _, [] => Err (SourceError (RuntimePanic "index out of range"))
  end.

Definition liftSource {A} (r : result ei_error A) : result rule_error A :=
  match r with Ok a => Ok a | Err e => Err (SourceError e) end.

Definition checkReapGlobalPrefix (block : Block) (blockHeight : Z)
    (source : option ReapPrefixSource) (chainParams : Params) : result rule_error unit :=
  match GetExpiryParams chainParams with
  | None => Ok tt
  | Some expiryParams =>
      if blockHeight <? ReapConsensusAtHeight expiryParams then Ok tt
      else
        match findReapTx block with
        | None => Ok tt
        | Some (reapTx, _) =>
            let inputCount := zlen (TxIns reapTx) in
            match source with
            | None => Err (RuleError ErrBadReapPrefix "reap prefix source is not configured")
            | Some source =>
                tipHeight ← liftSource (sourceTipHeight source);
                if negb (tipHeight =? i32 (blockHeight - 1))
                then Err (RuleError ErrBadReapPrefix "reap prefix source tip does not match parent height")
                else if inputCount =? 0 then Ok tt
                else
                  expected ← liftSource (sourceCandidates source blockHeight inputCount);
                  if zlen expected <? inputCount
                  then Err (RuleError ErrBadReapPrefix "only some global expired candidates exist")
                  else matchPrefix (prevOuts reapTx) expected
            end
        end
  end.

(** ** Order and limits *)

Definition makeReapInputOrderKey (outpoint : OutPoint) (utxoView : UtxoViewpoint)
    (expiryParams : ExpiryParams) : option reapInputOrderKey :=
  match LookupEntry utxoView outpoint with
  | None => None
  | Some utxo =>
      if IsSpent utxo then None
      else Some (mkReapInputOrderKey (CalculateExpiryKey expiryParams (blockHeight utxo))
                   (amount utxo) outpoint)
  end.

Definition isReapDustTierAmount (value : Z) (expiryParams : ExpiryParams) : bool :=
  (0 <? ReapDustThresholdSat expiryParams) && (0 <? value)
  && (value <? ReapDustThresholdSat expiryParams).

(** The input loop: the previous key, and the dust and normal inputs so far. *)
Definition hardenState : Type := option reapInputOrderKey * Z * Z.

Definition hardenInput (utxoView : UtxoViewpoint) (expiryParams : ExpiryParams)
    (st : hardenState) (op : OutPoint) : result rule_error hardenState :=
  let '(prevKey, dustCount, normalCount) := st in
  let twoTierLimits := 0 <? ReapDustMaxInputs expiryParams in
  match makeReapInputOrderKey op utxoView expiryParams with
  | None => Err (RuleError ErrMissingTxOut "missing utxo for reap input")
  | Some curKey =>
      if match prevKey with
         | None => false
         | Some prevKey =>
             match compareReapInputOrderKey prevKey curKey with Gt => true | _ => false end
         end
      then Err (RuleError ErrBadTxInput "reap transaction inputs out of canonical order")
      else if twoTierLimits then
        let dustTier := isReapDustTierAmount (rk_amount curKey) expiryParams in
        if dustTier && (ReapDustMaxInputs expiryParams <=? dustCount)
        then Err (RuleError ErrBadTxInput "reap dust input count exceeds consensus limit")
        else if negb dustTier && (ReapMaxInputs expiryParams <=? normalCount)
        then Err (RuleError ErrBadTxInput "reap normal input count exceeds consensus limit")
        else if (ReapDustMaxInputs expiryParams <=? dustCount)
                || (ReapMaxInputs expiryParams <=? normalCount)
        then Err (RuleError ErrBadTxInput "reap transaction includes inputs after a tier cap was reached")
        else if dustTier then Ok (Some curKey, dustCount + 1, normalCount)
        else Ok (Some curKey, dustCount, normalCount + 1)
      else Ok (Some curKey, dustCount, normalCount)
  end.

Definition checkReapConsensusHardening (tx : MsgTx) (txHeight : Z) (utxoView : UtxoViewpoint)
    (chainParams : Params) : result rule_error unit :=
  if negb (isLikelyReapTx tx) then Ok tt
  else
    match GetExpiryParams chainParams with
    | None => Ok tt
    | Some expiryParams =>
        if txHeight <? ReapConsensusAtHeight expiryParams then Ok tt
        else if (0 <? ReapMaxWeight expiryParams)
                && (ReapMaxWeight expiryParams <? GetTransactionWeight tx)
        then Err (RuleError ErrBadTxInput "reap transaction weight exceeds consensus limit")
        else if negb (0 <? ReapDustMaxInputs expiryParams) && (0 <? ReapMaxInputs expiryParams)
                && (ReapMaxInputs expiryParams <? zlen (TxIns tx))
        then Err (RuleError ErrBadTxInput "reap transaction input count exceeds consensus limit")
        else _ ← foldM (hardenInput utxoView expiryParams) (None, 0, 0) (prevOuts tx); Ok tt
    end.

(** ** Taxes and refunds *)

Definition reapTaxForValue (v : Z) (expiryParams : ExpiryParams) : Z :=
  if (v <=? 0) || (ReapTaxDenominator expiryParams <=? 0) || (ReapTaxNumerator expiryParams <=? 0)
  then 0
  else Z.quot (i64 (v * ReapTaxNumerator expiryParams)) (ReapTaxDenominator expiryParams).

Definition applyReapDustRule (value refund tax : Z) (expiryParams : ExpiryParams) : Z * Z :=
  if ReapDustThresholdSat expiryParams <=? 0 then (refund, tax)
  else if (0 <? value) && (value <? ReapDustThresholdSat expiryParams) then (0, value)
  else (refund, tax).

(** [map[string]int64] with [m[k] += v]. *)
Abbreviation refundMap := (gmap (list Z) Z).

Definition addRefund (m : refundMap) (k : list Z) (v : Z) : refundMap :=
  <[k := i64 (default 0 (m !! k) + v)]> m.

Definition expectRefund (utxoView : UtxoViewpoint) (expiryParams : ExpiryParams)
    (st : refundMap * Z) (op : OutPoint) : result rule_error (refundMap * Z) :=
  let '(expectedRefundByScript, expectedRefundTotal) := st in
  match LookupEntry utxoView op with
  | None => Err (RuleError ErrMissingTxOut "utxo missing from view during reap tax check")
  | Some utxo =>
      if IsSpent utxo
      then Err (RuleError ErrMissingTxOut "utxo missing from view during reap tax check")
      else
        let value := amount utxo in
        let tax := reapTaxForValue value expiryParams in
        let refund := i64 (value - tax) in
        if refund <? 0 then Err (RuleError ErrBadTxOutValue "reap refund amount is negative")
        else
          let refund := (applyReapDustRule value refund tax expiryParams).1 in
          Ok (if 0 <? refund then addRefund expectedRefundByScript (pkScript utxo) refund
              else expectedRefundByScript,
              i64 (expectedRefundTotal + refund))
  end.

Definition actualRefund (st : refundMap * Z) (txOut : TxOut) : result rule_error (refundMap * Z) :=
  let '(actualRefundByScript, actualRefundTotal) := st in
  if Value txOut <=? 0 then Err (RuleError ErrBadTxOutValue "reap refund outputs must be positive")
  else Ok (addRefund actualRefundByScript (PkScript txOut) (Value txOut),
           i64 (actualRefundTotal + Value txOut)).

(** [tx.TxOut[:len(tx.TxOut)-1]] *)
Definition refundOuts (tx : MsgTx) : list TxOut := take (length (TxOuts tx) - 1) (TxOuts tx).

Definition checkReapTaxRules (tx : MsgTx) (txHeight : Z) (utxoView : UtxoViewpoint)
    (chainParams : Params) : result rule_error unit :=
  if negb (isLikelyReapTx tx) then Ok tt
  else
    match GetExpiryParams chainParams with
    | None => Ok tt
    | Some expiryParams =>
        if txHeight <? EnableAtHeight expiryParams then Ok tt
        else
          '(expectedRefundByScript, expectedRefundTotal) ←
            foldM (expectRefund utxoView expiryParams) (∅, 0) (prevOuts tx);
          '(actualRefundByScript, actualRefundTotal) ← foldM actualRefund (∅, 0) (refundOuts tx);
          if negb (actualRefundTotal =? expectedRefundTotal)
          then Err (RuleError ErrBadTxOutValue "reap refund total mismatch")
          else if negb (size actualRefundByScript =? size expectedRefundByScript)%nat
          then Err (RuleError ErrBadTxOutValue "reap refund output set does not match expected distribution")
          else if negb (forallb (fun se : list Z * Z => bool_decide (actualRefundByScript !! se.1 = Some se.2))
                          (map_to_list expectedRefundByScript))
          then Err (RuleError ErrBadTxOutValue "reap refund output set does not match expected distribution")
          else Ok tt
    end.

(** ** Who may spend what *)

Definition checkExpirySpend (expiryParams : ExpiryParams) (txHeight : Z) (isReap : bool)
    (utxoView : UtxoViewpoint) (st : unit) (op : OutPoint) : result rule_error unit :=
  match LookupEntry utxoView op with
  | None => Err (RuleError ErrMissingTxOut "utxo missing from view during expiry check")
  | Some utxo =>
      if IsSpent utxo
      then Err (RuleError ErrMissingTxOut "utxo missing from view during expiry check")
      else if blockHeight utxo =? unminedInputHeight then
        if isReap then Err (RuleError ErrBadTxInput "reap transaction spends unconfirmed utxo")
        else Ok tt
      else
        let expiryHeight := i32 (CalculateExpiryKey expiryParams (blockHeight utxo)) in
        let expired := expiryHeight <=? txHeight in
        if isReap && negb expired
        then Err (RuleError ErrBadTxInput "reap transaction spends non-expired utxo")
        else if negb isReap && expired
        then Err (RuleError ErrBadTxInput "non-reap transaction spends expired utxo")
        else Ok tt
  end.

Definition checkExpirySpendRules (tx : MsgTx) (txHeight : Z) (utxoView : UtxoViewpoint)
    (chainParams : Params) : result rule_error unit :=
  match GetExpiryParams chainParams with
  | None => Ok tt
  | Some expiryParams =>
      if txHeight <? EnableAtHeight expiryParams then Ok tt
      else foldM (checkExpirySpend expiryParams txHeight (isLikelyReapTx tx) utxoView) tt (prevOuts tx)
  end.

(** ** [CheckTransactionInputs] *)

Definition checkInputAmount (txHeight : Z) (utxoView : UtxoViewpoint) (chainParams : Params)
    (totalSatoshiIn : Z) (op : OutPoint) : result rule_error Z :=
  match LookupEntry utxoView op with
  | None => Err (RuleError ErrMissingTxOut "output does not exist or has already been spent")
  | Some utxo =>
      if IsSpent utxo
      then Err (RuleError ErrMissingTxOut "output does not exist or has already been spent")
      else if IsCoinBase utxo
              && (i32 (txHeight - blockHeight utxo) <? i32 (CoinbaseMaturity chainParams))
      then Err (RuleError ErrImmatureSpend "tried to spend coinbase before required maturity")
      else
        let originTxSatoshi := amount utxo in
        if originTxSatoshi <? 0
        then Err (RuleError ErrBadTxOutValue "transaction output has negative value")
        else if MaxSatoshi <? originTxSatoshi
        then Err (RuleError ErrBadTxOutValue "transaction output value is higher than max allowed value")
        else
          let total := i64 (totalSatoshiIn + originTxSatoshi) in
          if (total <? totalSatoshiIn) || (MaxSatoshi <? total)
          then Err (RuleError ErrBadTxOutValue "total value of all transaction inputs is too high")
          else Ok total
  end.

Definition totalOut (tx : MsgTx) : Z := foldl (fun t o => i64 (t + Value o)) 0 (TxOuts tx).

(** The fee, or why the inputs are refused. *)
Definition CheckTransactionInputs (tx : MsgTx) (txHeight : Z) (utxoView : UtxoViewpoint)
    (chainParams : Params) : result rule_error Z :=
  if IsCoinBaseTx tx then Ok 0
  else
    _ ← checkReapMarker tx txHeight;
    _ ← checkExpirySpendRules tx txHeight utxoView chainParams;
    _ ← checkReapConsensusHardening tx txHeight utxoView chainParams;
    _ ← checkReapTaxRules tx txHeight utxoView chainParams;
    totalSatoshiIn ← foldM (checkInputAmount txHeight utxoView chainParams) 0 (prevOuts tx);
    let totalSatoshiOut := totalOut tx in
    if totalSatoshiIn <? totalSatoshiOut
    then Err (RuleError ErrSpendTooHigh "total value of all transaction inputs is less than the amount spent")
    else Ok (i64 (totalSatoshiIn - totalSatoshiOut)).

(** ** Scripts

    [runScript] is the execution of the script engine on an input, which
    [txValidator.Validate] runs for every item it is given. It does so on several
    goroutines and reports one of the failures; here it is the first. *)

Section scripts.
Context (runScript : MsgTx -> nat -> TxIn -> result rule_error unit).

Definition validateItems (items : list (MsgTx * nat * TxIn)) : result rule_error unit :=
  foldM (fun _ it => runScript it.1.1 it.1.2 it.2) tt items.

(** The inputs to run, coinbase inputs skipped. *)
Definition txValItems (tx : MsgTx) : list (MsgTx * nat * TxIn) :=
  omap (fun it : nat * TxIn =>
          if Index (PreviousOutPoint it.2) =? 2^32 - 1 then None else Some (tx, it.1, it.2))
    (zip (seq 0 (length (TxIns tx))) (TxIns tx)).

Definition ValidateTransactionScripts (tx : MsgTx) : result rule_error unit :=
  if isLikelyReapTx tx then Ok tt else validateItems (txValItems tx).

Definition checkBlockScripts (block : Block) : result rule_error unit :=
  validateItems
    (concat (map (fun tx => if isLikelyReapTx tx then [] else txValItems tx) (Transactions block))).
End scripts.
