(* ===== verification/Reap.v ===== *)
(** * Building REAP transactions

    src/mining/reap: parameters, candidate selection, weight estimates, the
    marker, the blueprint of the transaction and fitting it into a budget.
    Counts and weights of what fits in memory do not leave 64 bits and are
    plain integers; amounts wrap where the source adds them. *)

From S2P Require Import Prelude ChainParams Sha256 Wire Encode Commitment Script Block Bucket IndexDB Ledger UtxoView ExpiryIndex Text ReapRules.

Inductive SortMode := SortModeStrict | SortModeSimple.

Inductive reap_error :=
| ErrNilView
| ErrNilIndex
| ErrInvalidMaxInputs
| ErrInvalidDustMaxInputs
| ErrInvalidParam (what : string)
| ErrContext
| ErrScan (e : ei_error)
| ErrMissingUtxo (op : OutPoint)
| ErrNegativeRefund
| ErrMarkerScript (e : builder_error)
| ErrPlanTotals
| ErrInvariantBroken
| ErrHardLimit (weight : Z)
| ErrFetchView
| OutOfFuel.

Record REAPStats := mkREAPStats {
  Candidates : Z;
  Picked : Z;
  Skipped : Z;
  EstWeight : Z }.

Record REAPPlan := mkREAPPlan {
  Inputs : list OutPoint;
  TaxTotal : Z;
  RefundTotal : Z;
  PlanHeight : Z;
  Stats : REAPStats }.

(** ** Parameters *)

Record REAPParams := mkREAPParams {
  SortBy : SortMode;
  MaxInputs : Z;
  DustMaxInputs : Z;
  WeightBudget : Z;
  ScanBatch : Z;
  TaxNum : Z;
  TaxDen : Z;
  DustThresholdSat : Z;
  DebugEnabled : bool }.

Definition DefaultREAPParams (mode : SortMode) : REAPParams :=
  mkREAPParams mode 1000 0 400000 10000 30 100 720 false.

Definition overExpiry (p : REAPParams) (ep : ExpiryParams) : REAPParams :=
  mkREAPParams (SortBy p)
    (if 0 <? ReapMaxInputs ep then ReapMaxInputs ep else MaxInputs p)
    (if 0 <? ReapDustMaxInputs ep then ReapDustMaxInputs ep else DustMaxInputs p)
    (if 0 <? ReapMaxWeight ep then ReapMaxWeight ep else WeightBudget p)
    (ScanBatch p)
    (if 0 <? ReapTaxNumerator ep then ReapTaxNumerator ep else TaxNum p)
    (if 0 <? ReapTaxDenominator ep then ReapTaxDenominator ep else TaxDen p)
    (if 0 <=? ReapDustThresholdSat ep then ReapDustThresholdSat ep else DustThresholdSat p)
    (DebugEnabled p).

Definition withScan (p : REAPParams) (batch : Z) (debug : bool) : REAPParams :=
  mkREAPParams (SortBy p) (MaxInputs p) (DustMaxInputs p) (WeightBudget p) batch
    (TaxNum p) (TaxDen p) (DustThresholdSat p) debug.

Definition DefaultREAPParamsForNet (net : Params) (mode : SortMode) : REAPParams :=
  let p := DefaultREAPParams mode in
  let p := match GetExpiryParams net with Some ep => overExpiry p ep | None => p end in
  if Net net =? Net ObtcRegTestParams then withScan p 2000 true
  else if Net net =? Net ObtcTestNetParams then withScan p 5000 (DebugEnabled p)
  else p.

Definition Validate (p : REAPParams) : result reap_error unit :=
  if MaxInputs p <=? 0 then Err (ErrInvalidParam "MaxInputs must be > 0")
  else if DustMaxInputs p <? 0 then Err (ErrInvalidParam "DustMaxInputs must be >= 0")
  else if WeightBudget p <? 0 then Err (ErrInvalidParam "WeightBudget must be >= 0")
  else if ScanBatch p <=? 0 then Err (ErrInvalidParam "ScanBatch must be > 0")
  else if TaxDen p <=? 0 then Err (ErrInvalidParam "TaxDen must be > 0")
  else if TaxNum p <? 0 then Err (ErrInvalidParam "TaxNum must be >= 0")
  else if DustThresholdSat p <? 0 then Err (ErrInvalidParam "DustThresholdSat must be >= 0")
  else Ok tt.

Definition PrefixCandidateLimit (p : REAPParams) : Z :=
  if DustMaxInputs p <=? 0 then MaxInputs p else i64 (MaxInputs p + DustMaxInputs p).

(** ** Taxes, tiers and weights *)

Definition taxForValue (v : Z) (p : REAPParams) : Z :=
  if (v <=? 0) || (TaxDen p <=? 0) || (TaxNum p <=? 0) then 0
  else Z.quot (i64 (v * TaxNum p)) (TaxDen p).

Definition applyDustRule (value refund tax dustThresholdSat : Z) : Z * Z :=
  if dustThresholdSat <=? 0 then (refund, tax)
  else if (0 <? value) && (value <? dustThresholdSat) then (0, value)
  else (refund, tax).

Definition isDustTierAmount (amount dustThresholdSat : Z) : bool :=
  (0 <? dustThresholdSat) && (0 <? amount) && (amount <? dustThresholdSat).

Definition canSelectTierCandidate (dustTier : bool) (dustCount normalCount : Z) (p : REAPParams) : bool :=
  if DustMaxInputs p <=? 0 then dustCount + normalCount <? MaxInputs p
  else if (DustMaxInputs p <=? dustCount) || (MaxInputs p <=? normalCount) then false
  else if dustTier then dustCount <? DustMaxInputs p
  else normalCount <? MaxInputs p.

Definition tierLimitReached (dustCount normalCount : Z) (p : REAPParams) : bool :=
  if DustMaxInputs p <=? 0 then MaxInputs p <=? dustCount + normalCount
  else (DustMaxInputs p <=? dustCount) || (MaxInputs p <=? normalCount).

Definition estBaseWeight : Z := 40.
Definition estInputWeight : Z := 164.
Definition estInputWeightUpper : Z := 600.
Definition estRefundOutputWeight : Z := 172.
Definition estMarkOutputWeight : Z := 120.

Definition EstimateBlueprintWeight (numInputs : Z) : Z :=
  let numInputs := if numInputs <? 0 then 0 else numInputs in
  estBaseWeight + numInputs * estInputWeightUpper + numInputs * estRefundOutputWeight
  + estMarkOutputWeight.

Definition EstimateTieredBlueprintWeight (dustInputs normalInputs : Z) : Z :=
  let dustInputs := if dustInputs <? 0 then 0 else dustInputs in
  let normalInputs := if normalInputs <? 0 then 0 else normalInputs in
  let totalInputs := dustInputs + normalInputs in
  estBaseWeight + totalInputs * estInputWeight + normalInputs * estRefundOutputWeight
  + estMarkOutputWeight.

Definition estimateNextWeight (dustTier : bool) (dustCount normalCount inputCount : Z)
    (p : REAPParams) : Z :=
  if DustMaxInputs p <=? 0 then EstimateBlueprintWeight (inputCount + 1)
  else if dustTier then EstimateTieredBlueprintWeight (dustCount + 1) normalCount
  else EstimateTieredBlueprintWeight dustCount (normalCount + 1).

Definition estimatePlanWeight (dustCount normalCount inputCount : Z) (p : REAPParams) : Z :=
  if DustMaxInputs p <=? 0 then EstimateBlueprintWeight inputCount
  else EstimateTieredBlueprintWeight dustCount normalCount.

(** ** Selecting candidates *)

Record candidate := mkCandidate {
  c_op : OutPoint;
  c_expiry : Z;
  c_amount : Z }.

#[export] Instance candidate_eq_dec : EqDecision candidate.
Proof. solve_decision. Defined.

(** What [ctx.Err()] answers at its successive calls. *)
Definition goContext := nat -> option reap_error.
Definition Background : goContext := fun _ => None.

(** The state of the selection loop: the plan so far and its tier counts. *)
Record selection := mkSelection {
  sel_inputs : list OutPoint;
  sel_tax : Z;
  sel_refund : Z;
  sel_skipped : Z;
  sel_dust : Z;
  sel_normal : Z }.

Definition skip (s : selection) (n : Z) : selection :=
  mkSelection (sel_inputs s) (sel_tax s) (sel_refund s) (sel_skipped s + n) (sel_dust s) (sel_normal s).

Definition pick (p : REAPParams) (s : selection) (c : OutPoint * Z) : selection :=
  let '(op, amt) := c in
  let dustTier := isDustTierAmount amt (DustThresholdSat p) in
  let tax := taxForValue amt p in
  let '(refund, tax) := applyDustRule amt (i64 (amt - tax)) tax (DustThresholdSat p) in
  mkSelection (sel_inputs s ++ [op]) (i64 (sel_tax s + tax)) (i64 (sel_refund s + refund))
    (sel_skipped s) (if dustTier then sel_dust s + 1 else sel_dust s)
    (if dustTier then sel_normal s else sel_normal s + 1).

(** The loop over [total] candidates, at index [i]. [weightSkip] is what the
    weight limit adds to the skipped count. *)
Fixpoint selectLoop (ctx : goContext) (p : REAPParams) (weightSkip : Z -> Z -> Z) (total : Z)
    (i : nat) (cs : list (OutPoint * Z)) (s : selection) : result reap_error selection :=
  match cs with
  | [] => Ok s
  | c :: cs' =>
      match ctx i with
      | Some e => Err e
      | None =>
          let dustTier := isDustTierAmount c.2 (DustThresholdSat p) in
          if negb (canSelectTierCandidate dustTier (sel_dust s) (sel_normal s) p)
          then Ok (skip s (total - Z.of_nat i))
          else
            let nextWeight :=
              estimateNextWeight dustTier (sel_dust s) (sel_normal s) (zlen (sel_inputs s)) p in
            if (0 <? WeightBudget p) && (WeightBudget p <? nextWeight) && (0 <? zlen (sel_inputs s))
            then Ok (skip s (weightSkip (Z.of_nat i) (zlen (sel_inputs s))))
            else
              let s' := pick p s c in
              if tierLimitReached (sel_dust s') (sel_normal s') p
              then Ok (skip s' (total - Z.of_nat i - 1))
              else selectLoop ctx p weightSkip total (S i) cs' s'
      end
  end.

Definition emptySelection : selection := mkSelection [] 0 0 0 0 0.

Definition planOf (p : REAPParams) (tip total : Z) (s : selection) : REAPPlan :=
  mkREAPPlan (sel_inputs s) (sel_tax s) (sel_refund s) tip
    (mkREAPStats total (zlen (sel_inputs s)) (sel_skipped s)
       (estimatePlanWeight (sel_dust s) (sel_normal s) (zlen (sel_inputs s)) p)).

Definition SelectPrefixCandidates (ctx : goContext) (tip : Z) (candidates : list ReapPrefixCandidate)
    (p : REAPParams) : result reap_error REAPPlan :=
  if MaxInputs p <=? 0 then Err ErrInvalidMaxInputs
  else if DustMaxInputs p <? 0 then Err ErrInvalidDustMaxInputs
  else
    let total := zlen candidates in
    s ← selectLoop ctx p (fun i _ => total - i) total 0
          (map (fun c => (rpc_OutPoint c, rpc_Amount c)) candidates) emptySelection;
    Ok (planOf p tip total s).

(** The interface [expiringScanner]. *)
Definition expiringScanner : Type :=
  Z -> Z -> Z -> option OutPoint -> result ei_error (list ExpiringUTXO * bool).

(** The candidates of a page that are unspent in the view. *)
Definition liveRows (view : UtxoViewpoint) (rows : list ExpiringUTXO) : list candidate :=
  omap (fun row =>
          match LookupEntry view (eu_OutPoint row) with
          | None => None
          | Some entry =>
              if IsSpent entry then None
              else Some (mkCandidate (eu_OutPoint row) (eu_ExpiryKey row) (amount entry))
          end) rows.

(** The page loop, with the number of pages as fuel; it returns the candidates
    and how often it asked the context. *)
Fixpoint scanPages (fuel : nat) (ctx : goContext) (scanner : expiringScanner) (view : UtxoViewpoint)
    (batch fromKey toKey : Z) (startAfter : option OutPoint) (page : nat) (all : list candidate)
    : result reap_error (list candidate * nat) :=
  match fuel with
  | O => Err OutOfFuel
  | S fuel' =>
      match ctx page with
      | Some e => Err e
      | None =>
          match scanner fromKey toKey batch startAfter with
          | Err e => Err (ErrScan e)
          | Ok (rows, hasMore) =>
              let all' := all ++ liveRows view rows in
              match last rows with
              | None => Ok (all', S page)
              | Some lastRow =>
                  if negb hasMore then Ok (all', S page)
                  else scanPages fuel' ctx scanner view batch (eu_ExpiryKey lastRow) toKey
                         (Some (eu_OutPoint lastRow)) (S page) all'
              end
          end
      end
  end.

Definition compareCandidate (mode : SortMode) (a b : candidate) : comparison :=
  if negb (c_expiry a =? c_expiry b) then (if c_expiry a <? c_expiry b then Lt else Gt)
  else if match mode with SortModeStrict => true | SortModeSimple => false end
          && negb (c_amount a =? c_amount b)
  then (if c_amount a <? c_amount b then Lt else Gt)
  else
    let hcmp := bytes_compare (Hash (c_op a)) (Hash (c_op b)) in
    match hcmp with
    | Eq => if Index (c_op a) <? Index (c_op b) then Lt
            else if Index (c_op b) <? Index (c_op a) then Gt else Eq
    | _ => hcmp
    end.

Definition candidate_le (mode : SortMode) (a b : candidate) : Prop := compareCandidate mode a b <> Gt.

#[export] Instance candidate_le_dec mode : RelDecision (candidate_le mode).
Proof. intros a b. unfold candidate_le. apply _. Defined.

Definition sortCandidates (cs : list candidate) (mode : SortMode) : list candidate :=
  merge_sort (candidate_le mode) cs.

Definition selectCandidatesWithScanner (fuel : nat) (ctx : goContext) (tip : Z)
    (scanner : expiringScanner) (view : option UtxoViewpoint) (p : REAPParams)
    : result reap_error REAPPlan :=
  match view with
  | None => Err ErrNilView
  | Some view =>
      if MaxInputs p <=? 0 then Err ErrInvalidMaxInputs
      else if DustMaxInputs p <? 0 then Err ErrInvalidDustMaxInputs
      else
        let batch := if ScanBatch p <=? 0 then 10000 else ScanBatch p in
        '(all, asked) ← scanPages fuel ctx scanner view batch 0 (u64 tip) None 0 [];
        let sorted := sortCandidates all (SortBy p) in
        let total := zlen all in
        s ← selectLoop (fun i => ctx (asked + i)%nat) p (fun _ picked => total - picked) total 0
              (map (fun c => (c_op c, c_amount c)) sorted) emptySelection;
        Ok (planOf p tip total s)
  end.

(** [SelectCandidates]: the scanner is the index. *)
Definition SelectCandidates (fuel : nat) (ctx : goContext) (tip : Z)
    (index : option (ExpiryIndex * IndexDB)) (view : option UtxoViewpoint) (p : REAPParams)
    : result reap_error REAPPlan :=
  match index with
  | None => Err ErrNilIndex
  | Some (idx, db) => selectCandidatesWithScanner fuel ctx tip (ScanExpiringUTXOs idx db) view p
  end.

(** ** The marker *)

Definition MarkerDigest (inputs : list OutPoint) : list Z :=
  EncodeToString (Sha256.sum256 (concat (map digestBytes inputs))).

Definition markerPayload (height count : Z) (inputs : list OutPoint) : list Z :=
  Join colon [string_bytes "REAP"; FormatInt height; Itoa count; MarkerDigest inputs].

Definition markerScript (height count : Z) (inputs : list OutPoint) : result reap_error (list Z) :=
  match BuilderScript (AddData (AddOp NewScriptBuilder OP_RETURN) (markerPayload height count inputs)) with
  | Ok script => Ok script
  | Err e => Err (ErrMarkerScript e)
  end.

Definition ExtractMarkerPayload (pkScript : list Z) : option (list Z) :=
  match pkScript with
  | [] => None
  | op :: _ =>
      if negb (op =? OP_RETURN) then None
      else
        match PushedData pkScript with
        | Ok (data :: _) => Some data
        | _ => None
        end
  end.

Definition IsLikelyREAPTx (tx : MsgTx) : bool :=
  if negb (Version tx =? reapTxVersion) then false
  else
    match last (TxOuts tx) with
    | None => false
    | Some markerOut =>
        if negb (Value markerOut =? 0) then false
        else
          match ExtractMarkerPayload (PkScript markerOut) with
          | None => false
          | Some marker => has_prefix marker (string_bytes "REAP:")
          end
    end.

(** ** The blueprint *)

(** The input loop: input total, tax total, refunds by script, inputs. *)
Definition packState : Type := Z * Z * refundMap * list TxIn.

Definition packInput (view : UtxoViewpoint) (p : REAPParams) (st : packState) (op : OutPoint)
    : result reap_error packState :=
  let '(inTotal, taxTotal, refundByScript, ins) := st in
  match LookupEntry view op with
  | None => Err (ErrMissingUtxo op)
  | Some entry =>
      if IsSpent entry then Err (ErrMissingUtxo op)
      else
        let amt := amount entry in
        let tax := taxForValue amt p in
        let refund := i64 (amt - tax) in
        if refund <? 0 then Err ErrNegativeRefund
        else
          let '(refund, tax) := applyDustRule amt refund tax (DustThresholdSat p) in
          Ok (i64 (inTotal + amt), i64 (taxTotal + tax),
              if refund =? 0 then refundByScript else addRefund refundByScript (pkScript entry) refund,
              ins ++ [mkTxIn op [] [] 0xFFFFFFFE])
  end.

Definition out_le (a b : list Z * Z) : Prop := bytes_le a.1 b.1.

#[export] Instance out_le_dec : RelDecision out_le.
Proof. intros a b. unfold out_le. apply _. Defined.

(** The refunds sorted by script. *)
Definition refundOutputs (refundByScript : refundMap) : list TxOut :=
  map (fun sv : list Z * Z => mkTxOut sv.2 sv.1) (merge_sort out_le (map_to_list refundByScript)).

Definition BuildBlueprint (plan : REAPPlan) (view : option UtxoViewpoint) (p : REAPParams)
    : result reap_error MsgTx :=
  match view with
  | None => Err ErrNilView
  | Some view =>
      let lockTime := if 0 <? PlanHeight plan then u32 (PlanHeight plan - 1) else 0 in
      '(inTotal, taxTotal, refundByScript, ins) ← foldM (packInput view p) (0, 0, ∅, []) (Inputs plan);
      let outs := refundOutputs refundByScript in
      let refundTotal := foldl (fun t o => i64 (t + Value o)) 0 outs in
      script ← markerScript (PlanHeight plan) (zlen (Inputs plan)) (Inputs plan);
      let tx := mkMsgTx reapTxVersion ins (outs ++ [mkTxOut 0 script]) lockTime in
      if (negb (TaxTotal plan =? 0) || negb (RefundTotal plan =? 0))
         && (negb (TaxTotal plan =? taxTotal) || negb (RefundTotal plan =? refundTotal))
      then Err ErrPlanTotals
      else if negb (inTotal =? i64 (refundTotal + taxTotal)) then Err ErrInvariantBroken
      else Ok tx
  end.

(** ** Fitting the budget *)

(** Tax total, refund total, dust and normal counts of the inputs. *)
Definition tallyState : Type := Z * Z * Z * Z.

Definition tallyInput (view : UtxoViewpoint) (p : REAPParams) (st : tallyState) (op : OutPoint)
    : result reap_error tallyState :=
  let '(taxTotal, refundTotal, dustCount, normalCount) := st in
  match LookupEntry view op with
  | None => Err (ErrMissingUtxo op)
  | Some entry =>
      if IsSpent entry then Err (ErrMissingUtxo op)
      else
        let amt := amount entry in
        let tax := taxForValue amt p in
        let refund := i64 (amt - tax) in
        if refund <? 0 then Err ErrNegativeRefund
        else
          let '(refund, tax) := applyDustRule amt refund tax (DustThresholdSat p) in
          let dustTier := isDustTierAmount amt (DustThresholdSat p) in
          Ok (i64 (taxTotal + tax), i64 (refundTotal + refund),
              if dustTier then dustCount + 1 else dustCount,
              if dustTier then normalCount else normalCount + 1)
  end.

Definition normalizePlan (plan : REAPPlan) (view : option UtxoViewpoint) (p : REAPParams)
    : result reap_error REAPPlan :=
  match view with
  | None => Err ErrNilView
  | Some view =>
      '(taxTotal, refundTotal, dustCount, normalCount) ←
        foldM (tallyInput view p) (0, 0, 0, 0) (Inputs plan);
      let picked := zlen (Inputs plan) in
      let candidates := if Candidates (Stats plan) <? picked then picked else Candidates (Stats plan) in
      Ok (mkREAPPlan (Inputs plan) taxTotal refundTotal (PlanHeight plan)
            (mkREAPStats candidates picked (candidates - picked)
               (estimatePlanWeight dustCount normalCount picked p)))
  end.

Definition withInputs (plan : REAPPlan) (inputs : list OutPoint) : REAPPlan :=
  mkREAPPlan inputs (TaxTotal plan) (RefundTotal plan) (PlanHeight plan) (Stats plan).

Definition withWeight (plan : REAPPlan) (w : Z) : REAPPlan :=
  mkREAPPlan (Inputs plan) (TaxTotal plan) (RefundTotal plan) (PlanHeight plan)
    (mkREAPStats (Candidates (Stats plan)) (Picked (Stats plan)) (Skipped (Stats plan)) w).

(** The loop that drops the last input while the transaction is too heavy; the
    number of inputs is fuel enough. *)
Fixpoint budgetLoop (fuel : nat) (plan : REAPPlan) (view : option UtxoViewpoint) (p : REAPParams)
    (maxTxWeight : Z) : result reap_error (option MsgTx * REAPPlan * Z) :=
  match fuel with
  | O => Err OutOfFuel
  | S fuel' =>
      normalized ← normalizePlan plan view p;
      tx ← BuildBlueprint normalized view p;
      let txWeight := GetTransactionWeight tx in
      let hardOver := (0 <? maxTxWeight) && (maxTxWeight <=? txWeight) in
      let softOver := (0 <? WeightBudget p) && (WeightBudget p <? txWeight) in
      let trimmed := withInputs plan (take (length (Inputs plan) - 1) (Inputs plan)) in
      if hardOver then
        if (length (Inputs plan) =? 1)%nat then Err (ErrHardLimit txWeight)
        else budgetLoop fuel' trimmed view p maxTxWeight
      else if softOver then
        if (length (Inputs plan) =? 1)%nat then Ok (None, normalized, txWeight)
        else budgetLoop fuel' trimmed view p maxTxWeight
      else Ok (Some tx, withWeight normalized txWeight, txWeight)
  end.

Definition BuildBudgetedBlueprint (plan : REAPPlan) (view : option UtxoViewpoint) (p : REAPParams)
    (maxTxWeight : Z) : result reap_error (option MsgTx * REAPPlan * Z) :=
  match Inputs plan with
  | [] => Ok (None, plan, 0)
  | _ => budgetLoop (length (Inputs plan)) plan view p maxTxWeight
  end.

(** ** The dry run *)

Record DryRunSummary := mkDryRunSummary {
  dr_Picked : Z;
  dr_TaxTotal : Z;
  dr_RefundTotal : Z;
  dr_EstWeight : Z;
  dr_MarkerHash : list Z }.

Definition BuildDryRunSummary (plan : REAPPlan) (view : option UtxoViewpoint) (p : REAPParams)
    : result reap_error DryRunSummary :=
  match view with
  | None => Err ErrNilView
  | Some view =>
      '(taxTotal, refundTotal, dustCount, normalCount) ←
        foldM (tallyInput view p) (0, 0, 0, 0) (Inputs plan);
      Ok (mkDryRunSummary (zlen (Inputs plan)) taxTotal refundTotal
            (estimatePlanWeight dustCount normalCount (zlen (Inputs plan)) p)
            (MarkerDigest (Inputs plan)))
  end.
