(* ===== verification/Template.v ===== *)
(** * REAP in block templates

    src/mining/template_reap.go: building the REAP transaction of the next block
    from the index, the weight kept free for it, collecting expired outpoints
    page by page, and merging views. *)

From S2P Require Import Prelude ChainParams Sha256 Wire Encode Commitment Script Block Bucket IndexDB Ledger UtxoView ExpiryIndex Text ReapRules Reap.

(** What the generator holds of other components: the index, if there is one,
    and the chain's [FetchUtxoView]. *)
Record BlkTmplGenerator := mkGenerator {
  g_reapIndex : option (ExpiryIndex * IndexDB);
  g_chainParams : Params;
  g_FetchUtxoView : list OutPoint -> option UtxoViewpoint;
  g_BlockMaxWeight : Z }.

Definition maybeBuildREAPTx (g : BlkTmplGenerator) (nextBlockHeight : Z)
    : result reap_error (option MsgTx * Z) :=
  match g_reapIndex g with
  | None => Ok (None, 0)
  | Some (idx, db) =>
      if negb (IsOBTC (g_chainParams g)) then Ok (None, 0)
      else
        match GetExpiryParams (g_chainParams g) with
        | None => Ok (None, 0)
        | Some expiryParams =>
            if nextBlockHeight <? EnableAtHeight expiryParams then Ok (None, 0)
            else
              let p := DefaultREAPParamsForNet (g_chainParams g) SortModeStrict in
              _ ← Validate p;
              match ReapPrefixCandidates idx db nextBlockHeight (PrefixCandidateLimit p) with
              | Err e => Err (ErrScan e)
              | Ok [] => Ok (None, 0)
              | Ok candidates =>
                  plan ← SelectPrefixCandidates Background nextBlockHeight candidates p;
                  match Inputs plan with
                  | [] => Ok (None, 0)
                  | _ =>
                      match g_FetchUtxoView g (Inputs plan) with
                      | None => Err ErrFetchView
                      | Some view =>
                          '(tx, plan', _) ← BuildBudgetedBlueprint plan (Some view) p (g_BlockMaxWeight g);
                          match tx with
                          | None => Ok (None, 0)
                          | Some tx => Ok (Some tx, TaxTotal plan')
                          end
                      end
                  end
              end
        end
  end.

Definition reservedREAPWeight (g : BlkTmplGenerator) (nextBlockHeight : Z) : Z :=
  match g_reapIndex g with
  | None => 0
  | Some _ =>
      if negb (IsOBTC (g_chainParams g)) then 0
      else
        match GetExpiryParams (g_chainParams g) with
        | None => 0
        | Some expiryParams =>
            if nextBlockHeight <? EnableAtHeight expiryParams then 0
            else
              let p := DefaultREAPParamsForNet (g_chainParams g) SortModeStrict in
              if WeightBudget p <=? 0 then 0
              else
                let reserve := u64 (WeightBudget p) in
                if (g_BlockMaxWeight g =? 0) || (g_BlockMaxWeight g <=? reserve) then 0
                else u32 reserve
        end
  end.

Definition normalTxWeightLimit (g : BlkTmplGenerator) (nextBlockHeight : Z) (reserveForREAP : bool)
    (plannedREAPWeight : option Z) : Z :=
  let limit := g_BlockMaxWeight g in
  if negb reserveForREAP then limit
  else
    let reserve := match plannedREAPWeight with
                   | Some w => w
                   | None => reservedREAPWeight g nextBlockHeight
                   end in
    if (0 <? reserve) && (reserve <? limit) then u32 (limit - reserve) else limit.

(** The page loop, with the number of pages as fuel. *)
Fixpoint collectLoop (fuel : nat) (scanner : expiringScanner) (batch maxCandidates fromKey toKey : Z)
    (startAfter : option OutPoint) (out : list OutPoint) : result reap_error (list OutPoint) :=
  match fuel with
  | O => Err OutOfFuel
  | S fuel' =>
      if maxCandidates <=? zlen out then Ok out
      else
        match scanner fromKey toKey batch startAfter with
        | Err e => Err (ErrScan e)
        | Ok (rows, hasMore) =>
            match last rows with
            | None => Ok out
            | Some lastRow =>
                let out' := out ++ take (Z.to_nat (maxCandidates - zlen out)) (map eu_OutPoint rows) in
                if negb hasMore then Ok out'
                else collectLoop fuel' scanner batch maxCandidates (eu_ExpiryKey lastRow) toKey
                       (Some (eu_OutPoint lastRow)) out'
            end
        end
  end.

Definition maxCollected (p : REAPParams) : Z :=
  let prefixLimit := PrefixCandidateLimit p in
  let maxCandidates := i64 (prefixLimit * 20) in
  let maxCandidates := if maxCandidates <? prefixLimit then prefixLimit else maxCandidates in
  if 50000 <? maxCandidates then 50000 else maxCandidates.

Definition collectExpiredOutpoints (fuel : nat) (idx : ExpiryIndex) (db : IndexDB)
    (nextBlockHeight : Z) (p : REAPParams) : result reap_error (list OutPoint) :=
  collectLoop fuel (ScanExpiringUTXOs idx db) (ScanBatch p) (maxCollected p) 0 (u64 nextBlockHeight) None [].

(** Entries of [src] that [dst] does not have. *)
Definition mergeUtxoEntriesIfMissing (dst src : UtxoViewpoint) : UtxoViewpoint :=
  mkUtxoViewpoint (entries dst ∪ entries src) (bestHash dst).
