(* ===== verification/ReapAgree.v ===== *)
(** * What a miner builds, the network accepts

    The REAP transaction of Template.v is proved to pass every rule of
    ReapRules.v, against an index that represents the ledger: the marker parses
    back, the inputs are expired, in canonical order, within the tier caps and
    the weight limit, they are the global prefix, and the refunds are the ones
    the tax rule asks for. *)

From Stdlib Require Import Permutation Sorted.
From S2P Require Import Prelude ChainParams Sha256 Wire Encode MuHash Commitment Script Block Bucket IndexDB Ledger UtxoView ExpiryIndex IndexRefine IndexRebuild IndexQuery Text ReapRules Reap Template.

(** ** The marker *)

Lemma markerPayload_parts height count inputs :
  markerPayload height count inputs
  = Join colon [string_bytes "REAP"; FormatInt height; Itoa count; MarkerDigest inputs].
Proof. done. Qed.

Lemma MarkerDigest_chars inputs : (58 ∉ MarkerDigest inputs) /\ length (MarkerDigest inputs) = 64%nat.
Proof.
  unfold MarkerDigest. split.
  - apply EncodeToString_no_colon, Sha256.sum256_is_bytes.
  - by rewrite length_EncodeToString, Sha256.length_sum256.
Qed.

Lemma Split_markerPayload height count inputs :
  is_i32 height -> 0 <= count < 2^63 ->
  Split colon (markerPayload height count inputs)
  = [string_bytes "REAP"; FormatInt height; Itoa count; MarkerDigest inputs].
Proof.
  intros Hh Hc. unfold markerPayload. apply Split_Join; [done|].
  repeat apply Forall_cons_2; [|apply FormatInt_no_colon|apply FormatInt_no_colon|apply MarkerDigest_chars|constructor].
  - cbn. rewrite !not_elem_of_cons. split_and!; try done. apply not_elem_of_nil.
  - widths; lia.
  - widths; lia.
Qed.

Lemma parse_markerPayload height count inputs :
  is_i32 height -> 0 <= count < 2^63 ->
  parseReapMarkerPayload (markerPayload height count inputs) = Ok (height, count, MarkerDigest inputs).
Proof.
  intros Hh Hc. unfold parseReapMarkerPayload. rewrite Split_markerPayload by done.
  rewrite bool_decide_true by done. cbn [negb]. rewrite ParseInt_FormatInt; [|lia|exact Hh].
  rewrite Atoi_Itoa by done. unfold MarkerDigest at 1.
  rewrite DecodeString_EncodeToString by apply Sha256.sum256_is_bytes. by rewrite i32_id.
Qed.

Lemma markerPayload_shape height count inputs :
  is_i32 height -> 0 <= count < 2^63 ->
  1 < zlen (markerPayload height count inputs) <= 113 /\
  has_prefix (markerPayload height count inputs) (string_bytes "REAP:") = true.
Proof.
  intros Hh Hc. rewrite markerPayload_parts.
  pose proof (length_FormatInt height ltac:(widths; lia)).
  pose proof (length_FormatInt count ltac:(widths; lia)). fold (Itoa count) in *.
  pose proof (proj2 (MarkerDigest_chars inputs)).
  cbn [Join]. split.
  - unfold zlen. rewrite !length_app. cbn [length]. rewrite !length_app. cbn [length].
    rewrite !length_app. cbn [length]. change (length (string_bytes "REAP")) with 4%nat. lia.
  - apply has_prefix_spec. eexists. change (string_bytes "REAP:") with (string_bytes "REAP" ++ [colon]).
    rewrite <- app_assoc. reflexivity.
Qed.

(** The script of the marker, and what the rules read from it. *)
Lemma markerScript_Ok height count inputs :
  is_i32 height -> 0 <= count < 2^63 ->
  exists script, markerScript height count inputs = Ok script /\
    extractMarkerPayload script = Some (markerPayload height count inputs) /\
    ExtractMarkerPayload script = Some (markerPayload height count inputs) /\
    zlen script <= 116 /\ IsUnspendable script = true.
Proof.
  intros Hh Hc. destruct (markerPayload_shape height count inputs Hh Hc) as [Hl _].
  set (payload := markerPayload height count inputs) in *.
  assert (Hm : 1 < zlen payload <= MaxScriptElementSize) by (unfold MaxScriptElementSize; lia).
  exists (nullDataScript payload). unfold markerScript. fold payload. rewrite build_nullData by done.
  split; [done|]. unfold extractMarkerPayload, ExtractMarkerPayload. rewrite PushedData_nullData by done.
  split; [done|]. split; [done|]. split; [|apply IsUnspendable_nullData].
  unfold nullDataScript. rewrite zlen_cons, zlen_pushToken by lia. unfold canonicalDataSize.
  repeat case_match; lia.
Qed.

(** ** The miner's parameters are the network's *)

Record agrees (p : REAPParams) (ep : ExpiryParams) : Prop := {
  ag_max : MaxInputs p = ReapMaxInputs ep;
  ag_dustmax : DustMaxInputs p = ReapDustMaxInputs ep;
  ag_weight : WeightBudget p = ReapMaxWeight ep;
  ag_num : TaxNum p = ReapTaxNumerator ep;
  ag_den : TaxDen p = ReapTaxDenominator ep;
  ag_dust : DustThresholdSat p = ReapDustThresholdSat ep
}.

Lemma overExpiry_agrees p ep : params_ok ep -> agrees (overExpiry p ep) ep.
Proof.
  intros []. split; cbn; try rewrite pk_weight; try rewrite pk_num; try rewrite pk_den; try rewrite pk_dust;
    try done.
  - by destruct (Z.ltb_spec 0 (ReapMaxInputs ep)); [|lia].
  - by destruct (Z.ltb_spec 0 (ReapDustMaxInputs ep)); [|lia].
Qed.

Lemma DefaultREAPParamsForNet_agrees net mode ep :
  GetExpiryParams net = Some ep -> agrees (DefaultREAPParamsForNet net mode) ep.
Proof.
  intros H. pose proof (overExpiry_agrees (DefaultREAPParams mode) ep (GetExpiryParams_ok _ _ H)) as [].
  unfold DefaultREAPParamsForNet. rewrite H. cbv zeta.
  destruct (_ =? _); [by split|]. destruct (_ =? _); by split.
Qed.

(** ** Splitting a value *)

Definition taxOf (v : Z) : Z := if v <? 720 then v else v * 30 / 100.
Definition refundOf (v : Z) : Z := v - taxOf v.

Definition is_value (v : Z) : Prop := 0 <= v <= MaxSatoshi.

Lemma split_bounds v : is_value v -> 0 <= taxOf v <= v /\ 0 <= refundOf v <= v.
Proof.
  intros [H _]. unfold refundOf, taxOf. destruct (Z.ltb_spec v 720); [lia|].
  assert (0 <= v * 30 / 100) by (apply Z.div_pos; lia).
  assert (v * 30 / 100 <= v) by (apply Z.div_le_upper_bound; lia). lia.
Qed.

Lemma reap_split ep v :
  params_ok ep -> is_value v ->
  0 <= i64 (v - reapTaxForValue v ep) /\
  applyReapDustRule v (i64 (v - reapTaxForValue v ep)) (reapTaxForValue v ep) ep = (refundOf v, taxOf v).
Proof.
  intros [] Hv. pose proof (split_bounds v Hv) as Hs.
  change MaxSatoshi with 2100000000000000 in Hv. unfold is_value in Hv.
  change MaxSatoshi with 2100000000000000 in Hv.
  unfold applyReapDustRule, reapTaxForValue, refundOf, taxOf in *. rewrite pk_num, pk_den, pk_dust.
  cbn [Z.leb Z.compare orb].
  destruct (Z.leb_spec v 0); cbn [orb].
  { assert (v = 0) as -> by lia. by vm_compute. }
  rewrite (i64_id (v * 30)) by (widths; lia). rewrite Z.quot_div_nonneg by lia.
  assert (0 <= v * 30 / 100) by (apply Z.div_pos; lia).
  assert (v * 30 / 100 <= v) by (apply Z.div_le_upper_bound; lia).
  rewrite i64_id by (widths; lia). split; [lia|].
  destruct (Z.ltb_spec 0 v); [|lia]. cbn [andb]. destruct (Z.ltb_spec v 720); [|done]. f_equal. lia.
Qed.

Section agreeing.
Context (p : REAPParams) (ep : ExpiryParams) (Hag : agrees p ep).

Lemma taxForValue_agrees v : taxForValue v p = reapTaxForValue v ep.
Proof. unfold taxForValue, reapTaxForValue. by rewrite (ag_num _ _ Hag), (ag_den _ _ Hag). Qed.

Lemma applyDustRule_agrees v r t : applyDustRule v r t (DustThresholdSat p) = applyReapDustRule v r t ep.
Proof. unfold applyDustRule, applyReapDustRule. by rewrite (ag_dust _ _ Hag). Qed.

Lemma isDustTier_agrees v : isDustTierAmount v (DustThresholdSat p) = isReapDustTierAmount v ep.
Proof. unfold isDustTierAmount, isReapDustTierAmount. by rewrite (ag_dust _ _ Hag). Qed.
End agreeing.

(** ** The entries of the inputs *)

Definition entryOf (view : UtxoViewpoint) (op : OutPoint) : option UtxoEntry :=
  e ← LookupEntry view op; if IsSpent e then None else Some e.

Lemma entryOf_Some view op e :
  entryOf view op = Some e <-> LookupEntry view op = Some e /\ IsSpent e = false.
Proof.
  unfold entryOf. destruct (LookupEntry view op) as [e'|]; cbn [mbind option_bind].
  - destruct (IsSpent e') eqn:E; split.
    + done.
    + intros [[= ->] H]. congruence.
    + by intros [= ->].
    + by intros [[= ->] _].
  - split; [done|]. by intros [? _].
Qed.

Definition sumOf (f : UtxoEntry -> Z) (es : list UtxoEntry) : Z := sumZ (map f es).
Definition sumAmount := sumOf amount.
Definition sumTax := sumOf (fun e => taxOf (amount e)).
Definition sumRefund := sumOf (fun e => refundOf (amount e)).

Definition coins_ok (es : list UtxoEntry) : Prop := Forall (fun e => is_value (amount e)) es.

Lemma sumOf_cons f e es : sumOf f (e :: es) = f e + sumOf f es.
Proof. done. Qed.

Ltac sums :=
  unfold sumRefund, sumTax, sumAmount in *; rewrite ?sumOf_cons in *;
  change MaxSatoshi with 2100000000000000 in *.

Lemma sum_split es : sumRefund es + sumTax es = sumAmount es.
Proof.
  induction es as [|e es IH]; [done|]. sums. unfold refundOf at 1. lia.
Qed.

Lemma sum_nonneg es : coins_ok es -> 0 <= sumRefund es /\ 0 <= sumTax es.
Proof.
  induction 1 as [|e es He _ IH]; [done|]. pose proof (split_bounds _ He). sums. lia.
Qed.

(** ** Refunds by script *)

Definition addOne (m : refundMap) (e : UtxoEntry) : refundMap :=
  if refundOf (amount e) =? 0 then m
  else <[pkScript e := default 0 (m !! pkScript e) + refundOf (amount e)]> m.

Definition refunds (m : refundMap) (es : list UtxoEntry) : refundMap := foldl addOne m es.

Definition bounded (m : refundMap) (T : Z) : Prop := map_Forall (fun _ v => 0 < v <= T) m.

Lemma bounded_default m T k : bounded m T -> 0 <= T -> 0 <= default 0 (m !! k) <= T.
Proof.
  intros H HT. destruct (m !! k) as [v|] eqn:E; [|by change (default 0 None) with 0].
  change (default 0 (Some v)) with v. destruct (H k v E). lia.
Qed.

Lemma bounded_mono m T T' : bounded m T -> T <= T' -> bounded m T'.
Proof. intros H HT k v Hk. destruct (H k v Hk). lia. Qed.

Lemma bounded_addOne m T e :
  bounded m T -> 0 <= T -> is_value (amount e) -> bounded (addOne m e) (T + refundOf (amount e)).
Proof.
  intros Hb HT He. pose proof (split_bounds _ He) as [_ Hr]. unfold addOne.
  destruct (Z.eqb_spec (refundOf (amount e)) 0); [apply (bounded_mono m T); [done|lia]|].
  apply map_Forall_insert_2; [|apply (bounded_mono m T); [done|lia]].
  pose proof (bounded_default m T (pkScript e) Hb HT). lia.
Qed.

Lemma addRefund_addOne m T e :
  bounded m T -> 0 <= T -> is_value (amount e) -> T + refundOf (amount e) <= MaxSatoshi ->
  refundOf (amount e) <> 0 -> addRefund m (pkScript e) (refundOf (amount e)) = addOne m e.
Proof.
  intros Hb HT He Hle Hne. pose proof (split_bounds _ He) as [_ Hr]. unfold addRefund, addOne.
  destruct (Z.eqb_spec (refundOf (amount e)) 0); [done|].
  pose proof (bounded_default m T (pkScript e) Hb HT).
  rewrite i64_id; [done|]. change MaxSatoshi with 2100000000000000 in *. widths. lia.
Qed.

(** ** The input loops *)

(** Results that are tuples of sums, component by component. *)
Ltac tuple_lia :=
  repeat match goal with
         | |- Ok _ = Ok _ => f_equal
         | |- (_, _) = (_, _) => f_equal
         end; try lia; try done.

Definition entriesOf (view : UtxoViewpoint) : list OutPoint -> list UtxoEntry -> Prop :=
  Forall2 (fun op e => entryOf view op = Some e).

Section loops.
Context (view : UtxoViewpoint) (p : REAPParams) (ep : ExpiryParams).
Context (Hok : params_ok ep) (Hag : agrees p ep).

Lemma expectRefund_step m T op e :
  entryOf view op = Some e -> is_value (amount e) -> bounded m T -> 0 <= T ->
  T + refundOf (amount e) <= MaxSatoshi ->
  expectRefund view ep (m, T) op = Ok (addOne m e, T + refundOf (amount e)).
Proof.
  intros [He Hs]%entryOf_Some Hv Hb HT Hle. unfold expectRefund. rewrite He, Hs.
  destruct (reap_split ep (amount e) Hok Hv) as [H0 Hd]. pose proof (split_bounds _ Hv) as [_ Hr].
  destruct (Z.ltb_spec (i64 (amount e - reapTaxForValue (amount e) ep)) 0); [lia|].
  rewrite Hd. cbn [fst]. rewrite (i64_id (T + _)) by (change MaxSatoshi with 2100000000000000 in *; widths; lia).
  destruct (Z.ltb_spec 0 (refundOf (amount e))).
  - by rewrite (addRefund_addOne m T) by (done || lia).
  - unfold addOne. by destruct (Z.eqb_spec (refundOf (amount e)) 0); [|lia].
Qed.

Lemma expectRefund_loop ops es m T :
  entriesOf view ops es -> coins_ok es -> bounded m T -> 0 <= T -> T + sumRefund es <= MaxSatoshi ->
  foldM (expectRefund view ep) (m, T) ops = Ok (refunds m es, T + sumRefund es).
Proof.
  intros Hes. revert m T; induction Hes as [|op e ops es He Hes IH]; intros m T Hc Hb HT Hle.
  { cbn [foldM]. do 2 f_equal. unfold sumRefund, sumOf; cbn. lia. }
  apply Forall_cons_1 in Hc as [Hv Hc]. pose proof (split_bounds _ Hv) as [_ Hr].
  pose proof (sum_nonneg es Hc) as [Hn _]. unfold sumRefund in *. rewrite sumOf_cons in *.
  cbn [foldM]. rewrite (expectRefund_step m T op e) by (done || lia).
  rewrite IH; [do 2 f_equal; lia|done|by apply bounded_addOne|lia|lia].
Qed.

Definition packed (ops : list OutPoint) : list TxIn := map (fun op => mkTxIn op [] [] 0xFFFFFFFE) ops.

Lemma packInput_step a t m T ins op e :
  entryOf view op = Some e -> is_value (amount e) -> bounded m T -> 0 <= T <= a -> 0 <= t <= a ->
  a + amount e <= MaxSatoshi ->
  packInput view p (a, t, m, ins) op
  = Ok (a + amount e, t + taxOf (amount e), addOne m e, ins ++ [mkTxIn op [] [] 0xFFFFFFFE]).
Proof.
  intros [He Hs]%entryOf_Some Hv Hb HT Ht Hle. unfold packInput. rewrite He, Hs.
  destruct (reap_split ep (amount e) Hok Hv) as [H0 Hd]. pose proof (split_bounds _ Hv) as [Htx Hr].
  rewrite (taxForValue_agrees p ep Hag), (applyDustRule_agrees p ep Hag).
  destruct (Z.ltb_spec (i64 (amount e - reapTaxForValue (amount e) ep)) 0); [lia|]. rewrite Hd.
  rewrite (i64_id (a + _)), (i64_id (t + _)) by (change MaxSatoshi with 2100000000000000 in *; widths; lia).
  destruct (Z.eqb_spec (refundOf (amount e)) 0) as [E|E].
  - unfold addOne. by rewrite E.
  - by rewrite (addRefund_addOne m T) by (done || lia).
Qed.

Lemma packInput_loop ops es a t m T ins :
  entriesOf view ops es -> coins_ok es -> bounded m T -> 0 <= T <= a -> 0 <= t <= a ->
  a + sumAmount es <= MaxSatoshi ->
  foldM (packInput view p) (a, t, m, ins) ops
  = Ok (a + sumAmount es, t + sumTax es, refunds m es, ins ++ packed ops).
Proof.
  intros Hes. revert a t m T ins; induction Hes as [|op e ops es He Hes IH]; intros a t m T ins Hc Hb HT Ht Hle.
  { cbn [foldM packed map]. rewrite app_nil_r. unfold sumAmount, sumTax, sumOf; cbn. by rewrite !Z.add_0_r. }
  apply Forall_cons_1 in Hc as [Hv Hc]. pose proof (split_bounds _ Hv) as [Htx Hr].
  pose proof (sum_nonneg es Hc) as [Hn1 Hn2]. pose proof (sum_split es).
  unfold sumAmount, sumTax in *. rewrite !sumOf_cons in *.
  cbn [foldM]. rewrite (packInput_step a t m T ins op e) by (done || lia).
  rewrite (IH _ _ _ (T + refundOf (amount e))); [|done|apply bounded_addOne; [done|lia|done]|lia|lia|lia].
  rewrite <- app_assoc. cbn [app packed map]. tuple_lia.
Qed.

Definition isDust (e : UtxoEntry) : bool := isReapDustTierAmount (amount e) ep.
Definition dustCount (es : list UtxoEntry) : Z := zlen (List.filter isDust es).
Definition normalCount (es : list UtxoEntry) : Z := zlen es - dustCount es.

Lemma dustCount_cons e es : dustCount (e :: es) = (if isDust e then 1 else 0) + dustCount es.
Proof. unfold dustCount. cbn [List.filter]. destruct (isDust e); [by rewrite zlen_cons|lia]. Qed.

Lemma tallyInput_loop ops es t r d n :
  entriesOf view ops es -> coins_ok es -> 0 <= t -> 0 <= r -> t + r + sumAmount es <= MaxSatoshi ->
  foldM (tallyInput view p) (t, r, d, n) ops
  = Ok (t + sumTax es, r + sumRefund es, d + dustCount es, n + normalCount es).
Proof.
  intros Hes. revert t r d n; induction Hes as [|op e ops es He Hes IH]; intros t r d n Hc Ht Hr Hle.
  { cbn [foldM]. unfold sumTax, sumRefund, sumOf, normalCount, dustCount, zlen; cbn. tuple_lia. }
  apply entryOf_Some in He as [He Hs]. apply Forall_cons_1 in Hc as [Hv Hc].
  pose proof (split_bounds _ Hv) as [Htx Hrf]. pose proof (sum_nonneg es Hc) as [Hn1 Hn2].
  pose proof (sum_split es). destruct (reap_split ep (amount e) Hok Hv) as [H0 Hd].
  unfold sumAmount, sumTax, sumRefund in *. rewrite !sumOf_cons in *.
  cbn [foldM]. unfold tallyInput at 1. rewrite He, Hs.
  rewrite (taxForValue_agrees p ep Hag), (applyDustRule_agrees p ep Hag), (isDustTier_agrees p ep Hag).
  destruct (Z.ltb_spec (i64 (amount e - reapTaxForValue (amount e) ep)) 0); [lia|]. rewrite Hd.
  fold (isDust e). unfold refundOf in Hrf.
  rewrite (i64_id (t + _)), (i64_id (r + _)) by (unfold refundOf; change MaxSatoshi with 2100000000000000 in *; widths; lia).
  rewrite IH; [|done|lia|unfold refundOf; lia|unfold refundOf; lia].
  unfold normalCount. rewrite zlen_cons, dustCount_cons. destruct (isDust e); tuple_lia.
Qed.
End loops.

(** ** The refund outputs *)

Definition mapSum (m : refundMap) : Z := sumZ (map snd (map_to_list m)).

Lemma sumZ_perm l l' : l ≡ₚ l' -> sumZ l = sumZ l'.
Proof. induction 1; rewrite ?sumZ_cons; lia. Qed.

Lemma sumZ_pos {A} (l : list (A * Z)) : Forall (fun sv => 0 < sv.2) l -> 0 <= sumZ (map snd l).
Proof. induction 1; cbn [map]; rewrite ?sumZ_cons; [done|lia]. Qed.

Lemma mapSum_insert m k v : mapSum (<[k := v]> m) = mapSum m - default 0 (m !! k) + v.
Proof.
  unfold mapSum. assert (Hd : forall m' : refundMap, m' !! k = None ->
    sumZ (map snd (map_to_list (<[k := v]> m'))) = v + sumZ (map snd (map_to_list m'))).
  { intros m' Hn. rewrite (sumZ_perm _ (map snd ((k, v) :: map_to_list m'))); [done|].
    apply fmap_Permutation. by apply map_to_list_insert. }
  destruct (m !! k) as [w|] eqn:E; [|rewrite Hd by done; change (default 0 None) with 0; lia].
  change (default 0 (Some w)) with w.
  rewrite <- (insert_delete_eq m k v), Hd by apply lookup_delete_eq.
  assert (map_to_list m ≡ₚ (k, w) :: map_to_list (delete k m)) as Hp by (by rewrite map_to_list_delete).
  rewrite (sumZ_perm (map snd (map_to_list m)) (map snd ((k, w) :: map_to_list (delete k m)))); [cbn [map snd]; rewrite sumZ_cons; lia|].
  by apply fmap_Permutation.
Qed.

Lemma mapSum_refunds es m : mapSum (refunds m es) = mapSum m + sumRefund es.
Proof.
  revert m; induction es as [|e es IH]; intros m; [unfold sumRefund, sumOf; cbn; lia|].
  change (refunds m (e :: es)) with (refunds (addOne m e) es). rewrite IH. unfold sumRefund. rewrite sumOf_cons.
  unfold addOne. destruct (Z.eqb_spec (refundOf (amount e)) 0) as [->|]; [lia|]. rewrite mapSum_insert. lia.
Qed.

Lemma bounded_refunds es m T :
  bounded m T -> 0 <= T -> coins_ok es -> bounded (refunds m es) (T + sumRefund es).
Proof.
  intros Hb HT Hc. revert m T Hb HT; induction Hc as [|e es He Hes IH]; intros m T Hb HT.
  { unfold sumRefund, sumOf; cbn. by rewrite Z.add_0_r. }
  pose proof (split_bounds _ He) as [_ Hr]. unfold sumRefund. rewrite sumOf_cons, Z.add_assoc.
  apply IH; [by apply bounded_addOne|lia].
Qed.

Definition outsOf (l : list (list Z * Z)) : list TxOut := map (fun sv => mkTxOut sv.2 sv.1) l.

Lemma total_outs l T :
  0 <= T -> Forall (fun sv => 0 < sv.2) l -> T + sumZ (map snd l) <= MaxSatoshi ->
  foldl (fun t o => i64 (t + Value o)) T (outsOf l) = T + sumZ (map snd l).
Proof.
  intros HT Hl. revert T HT; induction Hl as [|[s v] l Hv Hl IH]; intros T HT Hle; cbn [outsOf map foldl snd] in *;
    rewrite ?sumZ_cons in *; [cbn; lia|].
  pose proof (sumZ_pos l Hl). cbn [Value fst snd] in *.
  rewrite i64_id by (change MaxSatoshi with 2100000000000000 in *; widths; lia). rewrite IH; lia.
Qed.

Lemma actualRefund_loop l m T :
  NoDup (map fst l) -> Forall (fun sv => m !! sv.1 = None) l ->
  0 <= T -> Forall (fun sv => 0 < sv.2) l -> T + sumZ (map snd l) <= MaxSatoshi ->
  foldM actualRefund (m, T) (outsOf l) = Ok (list_to_map l ∪ m, T + sumZ (map snd l)).
Proof.
  intros Hnd Hm HT Hl. revert m T Hnd Hm HT; induction Hl as [|[s v] l Hv Hl IH]; intros m T Hnd Hm HT Hle.
  { cbn. by rewrite (left_id_L ∅ (∪)), Z.add_0_r. }
  cbn [map fst snd] in *. apply NoDup_cons in Hnd as [Hs Hnd]. apply Forall_cons_1 in Hm as [Hms Hm].
  cbn [fst] in Hms.
  pose proof (sumZ_pos l Hl). rewrite sumZ_cons in *.
  cbn [outsOf map foldM]. unfold actualRefund at 1. cbn [Value PkScript fst snd].
  destruct (Z.leb_spec v 0); [lia|]. unfold addRefund. rewrite Hms. change (default 0 None) with 0.
  rewrite !i64_id by (change MaxSatoshi with 2100000000000000 in *; widths; lia). fold (outsOf l).
  rewrite IH; [|done| |lia|lia].
  - f_equal. f_equal; [|lia]. rewrite list_to_map_cons, Z.add_0_l.
    rewrite <- insert_union_l, <- insert_union_r; [done|].
    apply not_elem_of_list_to_map_1. exact Hs.
  - apply Forall_forall. intros [s' v'] Hin. cbn [fst]. rewrite lookup_insert_ne.
    + apply (proj1 (Forall_forall _ _) Hm (s', v') Hin).
    + intros ->. apply Hs. by apply (list_elem_of_fmap_2 fst _ (s', v')).
Qed.

(** A list of outputs made from a map sums and groups back to it. *)
Section refund_outputs.
Context (m : refundMap) (Hpos : map_Forall (fun _ v => 0 < v) m) (Hsum : mapSum m <= MaxSatoshi).

Lemma sorted_list : exists l, refundOutputs m = outsOf l /\ l ≡ₚ map_to_list m.
Proof. eexists. split; [done|]. apply merge_sort_Permutation. Qed.

Lemma refundOutputs_positive l : l ≡ₚ map_to_list m -> Forall (fun sv : list Z * Z => 0 < sv.2) l.
Proof.
  intros ->. apply Forall_forall. intros [s v] H%elem_of_map_to_list. by apply (Hpos s v).
Qed.

Lemma refundOutputs_total : foldl (fun t o => i64 (t + Value o)) 0 (refundOutputs m) = mapSum m.
Proof.
  destruct sorted_list as (l & -> & Hl).
  assert (Hs : sumZ (map snd l) = mapSum m) by (by apply sumZ_perm, fmap_Permutation).
  rewrite total_outs; [lia|lia|by apply refundOutputs_positive|lia].
Qed.

Lemma refundOutputs_actual : foldM actualRefund (∅, 0) (refundOutputs m) = Ok (m, mapSum m).
Proof.
  destruct sorted_list as (l & -> & Hl).
  assert (Hs : sumZ (map snd l) = mapSum m) by (by apply sumZ_perm, fmap_Permutation).
  assert (Hnd : NoDup (map fst l)).
  { rewrite (fmap_Permutation fst _ _ Hl). apply NoDup_fst_map_to_list. }
  rewrite actualRefund_loop; [|done|by apply Forall_forall|lia|by apply refundOutputs_positive|lia].
  rewrite (right_id_L ∅ (∪)), Hs. do 2 f_equal.
  rewrite (list_to_map_proper l (map_to_list m)) by done. apply list_to_map_to_list.
Qed.
End refund_outputs.

(** ** The blueprint *)

Definition blueprint (h : Z) (ops : list OutPoint) (es : list UtxoEntry) (script : list Z) : MsgTx :=
  mkMsgTx reapTxVersion (packed ops) (refundOutputs (refunds ∅ es) ++ [mkTxOut 0 script])
    (if 0 <? h then u32 (h - 1) else 0).

(** The REAP transaction of some inputs. *)
Definition reapOf (h : Z) (ops : list OutPoint) (es : list UtxoEntry) (tx : MsgTx) : Prop :=
  exists script, markerScript h (zlen ops) ops = Ok script /\ tx = blueprint h ops es script.

Lemma reapOf_det h ops es tx tx' : reapOf h ops es tx -> reapOf h ops es tx' -> tx = tx'.
Proof. intros (s & Es & ->) (s' & Es' & ->). f_equal. congruence. Qed.

(** Inputs a REAP transaction can be made of. *)
Record inputs_ok (view : UtxoViewpoint) (h : Z) (ops : list OutPoint) (es : list UtxoEntry) : Prop := {
  io_entries : entriesOf view ops es;
  io_coins : coins_ok es;
  io_total : sumAmount es <= MaxSatoshi;
  io_height : is_i32 h;
  io_count : zlen ops < 2^63
}.

Lemma bounded_empty T : bounded ∅ T.
Proof. apply map_Forall_empty. Qed.

Lemma refunds_positive es : coins_ok es -> map_Forall (fun _ v => 0 < v) (refunds ∅ es).
Proof.
  intros Hc k v Hk. pose proof (bounded_refunds es ∅ 0 (bounded_empty 0) ltac:(lia) Hc k v Hk) as H. apply H.
Qed.

Lemma mapSum_empty_refunds es : mapSum (refunds ∅ es) = sumRefund es.
Proof. rewrite mapSum_refunds. done. Qed.

Section blueprint.
Context (view : UtxoViewpoint) (p : REAPParams) (ep : ExpiryParams) (h : Z).
Context (Hok : params_ok ep) (Hag : agrees p ep).

Lemma BuildBlueprint_spec plan es :
  inputs_ok view h (Inputs plan) es -> PlanHeight plan = h ->
  TaxTotal plan = sumTax es -> RefundTotal plan = sumRefund es ->
  exists tx, BuildBlueprint plan (Some view) p = Ok tx /\ reapOf h (Inputs plan) es tx.
Proof.
  intros [Hes Hc Hle Hh Hn] Hp Htax Href. pose proof (sum_nonneg es Hc) as [Hn1 Hn2].
  pose proof (sum_split es) as Hsplit.
  destruct (markerScript_Ok h (zlen (Inputs plan)) (Inputs plan) Hh) as (script & Em & _).
  { split; [apply zlen_nonneg|done]. }
  exists (blueprint h (Inputs plan) es script). split; [|by exists script].
  unfold BuildBlueprint. rewrite Hp.
  rewrite (packInput_loop view p ep Hok Hag (Inputs plan) es 0 0 ∅ 0 [] Hes Hc (bounded_empty 0)) by lia.
  result_simpl. rewrite Em. result_simpl.
  rewrite refundOutputs_total; [|by apply refunds_positive|rewrite mapSum_empty_refunds; lia].
  rewrite mapSum_empty_refunds, Htax, Href, !Z.add_0_l, !Z.eqb_refl. cbn [negb andb orb].
  rewrite andb_false_r. rewrite i64_id by (change MaxSatoshi with 2100000000000000 in *; widths; lia).
  destruct (Z.eqb_spec (sumAmount es) (sumRefund es + sumTax es)); [done|lia].
Qed.

Lemma normalizePlan_spec plan es :
  inputs_ok view h (Inputs plan) es ->
  exists plan', normalizePlan plan (Some view) p = Ok plan' /\
    Inputs plan' = Inputs plan /\ PlanHeight plan' = PlanHeight plan /\
    TaxTotal plan' = sumTax es /\ RefundTotal plan' = sumRefund es.
Proof.
  intros [Hes Hc Hle Hh Hn]. unfold normalizePlan.
  rewrite (tallyInput_loop view p ep Hok Hag (Inputs plan) es 0 0 0 0 Hes Hc) by lia.
  result_simpl. by eexists.
Qed.

Lemma inputs_ok_take ops es n :
  inputs_ok view h ops es -> inputs_ok view h (take n ops) (take n es).
Proof.
  intros [Hes Hc Hle Hh Hn]. split; [by apply Forall2_take|by apply Forall_take| |done|].
  - assert (Hs : sumAmount es = sumAmount (take n es) + sumAmount (drop n es)).
    { unfold sumAmount, sumOf. rewrite <- sumZ_app, <- map_app, take_drop. done. }
    pose proof (sum_nonneg (drop n es) ltac:(by apply Forall_drop)). pose proof (sum_split (drop n es)). lia.
  - unfold zlen in *. rewrite length_take. lia.
Qed.

Definition overweight (maxTxWeight : Z) (tx : MsgTx) : Prop :=
  0 < maxTxWeight <= GetTransactionWeight tx \/ 0 < WeightBudget p < GetTransactionWeight tx.

(** What the budget loop ends with: the transaction of the longest prefix of the
    inputs that is not too heavy, or of one input, with what became of it. *)
Definition budgeted (maxTxWeight : Z) (ops : list OutPoint) (es : list UtxoEntry)
    (r : result reap_error (option MsgTx * REAPPlan * Z)) : Prop :=
  exists n tx, (1 <= n <= length ops)%nat /\ reapOf h (take n ops) (take n es) tx /\
  (forall m tx', (n < m <= length ops)%nat -> reapOf h (take m ops) (take m es) tx' ->
     overweight maxTxWeight tx') /\
  let w := GetTransactionWeight tx in
  match r with
  | Ok (Some tx', plan', w') =>
      tx' = tx /\ w' = w /\ (0 < WeightBudget p -> w <= WeightBudget p) /\
      (0 < maxTxWeight -> w < maxTxWeight) /\
      Inputs plan' = take n ops /\ TaxTotal plan' = sumTax (take n es)
  | Ok (None, _, w') => n = 1%nat /\ w' = w /\ 0 < WeightBudget p < w
  | Err e => n = 1%nat /\ e = ErrHardLimit w /\ 0 < maxTxWeight <= w
  end.

Lemma budgetLoop_spec fuel plan es maxTxWeight :
  inputs_ok view h (Inputs plan) es -> PlanHeight plan = h ->
  (1 <= length (Inputs plan) <= fuel)%nat ->
  budgeted maxTxWeight (Inputs plan) es (budgetLoop fuel plan (Some view) p maxTxWeight).
Proof.
  revert plan es; induction fuel as [|fuel IH]; intros plan es Hin Hp Hlen; [lia|]. cbn [budgetLoop].
  destruct (normalizePlan_spec plan es Hin) as (plan' & -> & Ei & Eh & Et & Er). result_simpl.
  destruct (BuildBlueprint_spec plan' es) as (tx & -> & Htx); [by rewrite Ei|congruence|done|done|].
  result_simpl. rewrite Ei in Htx. pose proof (Forall2_length _ _ _ (io_entries _ _ _ _ Hin)) as Hl.
  assert (Hall : reapOf h (take (length (Inputs plan)) (Inputs plan)) (take (length (Inputs plan)) es) tx).
  { rewrite Hl at 2. by rewrite !firstn_all. }
  assert (Htrim : overweight maxTxWeight tx -> length (Inputs plan) <> 1%nat ->
    budgeted maxTxWeight (Inputs plan) es
    (budgetLoop fuel (withInputs plan (take (length (Inputs plan) - 1) (Inputs plan))) (Some view) p maxTxWeight)).
  { intros Hov Hne. pose proof (inputs_ok_take _ _ (length (Inputs plan) - 1) Hin) as Hin'.
    destruct (IH (withInputs plan (take (length (Inputs plan) - 1) (Inputs plan))) _ Hin' Hp)
      as (n & tx' & Hn & Htx' & Hmax & Hr); [cbn [withInputs Inputs]; rewrite length_take; lia|].
    cbn [withInputs Inputs] in *. rewrite length_take in Hn, Hmax. rewrite !take_take, Nat.min_l in Htx' by lia.
    exists n, tx'. split; [lia|]. split; [done|]. split.
    - intros m tx2 Hm Htx2. destruct (decide (m = length (Inputs plan))) as [->|].
      + by rewrite (reapOf_det _ _ _ _ _ Htx2 Hall).
      + apply (Hmax m); [lia|]. by rewrite !take_take, Nat.min_l by lia.
    - by rewrite !take_take, Nat.min_l in Hr by lia. }
  destruct ((0 <? maxTxWeight) && (maxTxWeight <=? GetTransactionWeight tx)) eqn:Eh'.
  { apply andb_true_iff in Eh' as [?%Z.ltb_lt ?%Z.leb_le].
    destruct (Nat.eqb_spec (length (Inputs plan)) 1) as [E|E]; [|by apply Htrim; [left|]].
    exists 1%nat, tx. rewrite E in Hall. split; [lia|]. split; [done|]. split; [lia|]. split; [done|]. split; [done|lia]. }
  destruct ((0 <? WeightBudget p) && (WeightBudget p <? GetTransactionWeight tx)) eqn:Es.
  { apply andb_true_iff in Es as [?%Z.ltb_lt ?%Z.ltb_lt].
    destruct (Nat.eqb_spec (length (Inputs plan)) 1) as [E|E]; [|by apply Htrim; [right|]].
    exists 1%nat, tx. rewrite E in Hall. split; [lia|]. split; [done|]. split; [lia|]. split; [done|]. split; [done|lia]. }
  apply andb_false_iff in Eh', Es. rewrite Z.ltb_ge, Z.leb_gt in Eh'. rewrite !Z.ltb_ge in Es.
  exists (length (Inputs plan)), tx. split; [lia|]. split; [done|]. split; [lia|]. split; [done|]. split; [done|].
  split; [lia|]. split; [lia|]. cbn [withWeight Inputs TaxTotal]. rewrite Ei, Et.
  rewrite Hl at 2. by rewrite !firstn_all.
Qed.
End blueprint.

(** ** Selection and the tier caps *)

Section tiers.
Context (p : REAPParams) (ep : ExpiryParams) (Hok : params_ok ep) (Hag : agrees p ep).

(** Neither cap is reached before any of the amounts. *)
Fixpoint tiersFrom (d n : Z) (amts : list Z) : Prop :=
  match amts with
  | [] => True
  | a :: amts' =>
      d < ReapDustMaxInputs ep /\ n < ReapMaxInputs ep /\
      (if isReapDustTierAmount a ep then tiersFrom (d + 1) n amts' else tiersFrom d (n + 1) amts')
  end.

Lemma tiersFrom_take d n k amts : tiersFrom d n amts -> tiersFrom d n (take k amts).
Proof.
  revert d n k; induction amts as [|a amts IH]; intros d n [|k]; try done. cbn [take tiersFrom].
  intros (H1 & H2 & H3). split; [done|]. split; [done|]. destruct (isReapDustTierAmount a ep); by apply IH.
Qed.

Lemma canSelect_spec dust d n :
  canSelectTierCandidate dust d n p = true <-> d < ReapDustMaxInputs ep /\ n < ReapMaxInputs ep.
Proof.
  unfold canSelectTierCandidate. rewrite (ag_max _ _ Hag), (ag_dustmax _ _ Hag).
  pose proof (pk_dustmax _ Hok).
  destruct (Z.leb_spec (ReapDustMaxInputs ep) 0); [lia|].
  destruct (Z.leb_spec (ReapDustMaxInputs ep) d), (Z.leb_spec (ReapMaxInputs ep) n); cbn [orb];
    try (split; [done|lia]). destruct dust; rewrite Z.ltb_lt; lia.
Qed.

Lemma pick_spec s c :
  sel_inputs (pick p s c) = sel_inputs s ++ [c.1] /\
  sel_dust (pick p s c) = (if isReapDustTierAmount c.2 ep then sel_dust s + 1 else sel_dust s) /\
  sel_normal (pick p s c) = (if isReapDustTierAmount c.2 ep then sel_normal s else sel_normal s + 1).
Proof.
  destruct c as [op amt]. unfold pick. cbn [fst snd]. rewrite (isDustTier_agrees p ep Hag).
  by destruct (applyDustRule _ _ _ _).
Qed.

Lemma selectLoop_spec weightSkip total i cs s :
  exists s' k, selectLoop Background p weightSkip total i cs s = Ok s' /\
    sel_inputs s' = sel_inputs s ++ map fst (take k cs) /\
    tiersFrom (sel_dust s) (sel_normal s) (map snd (take k cs)) /\
    (sel_inputs s = [] -> sel_dust s < ReapDustMaxInputs ep -> sel_normal s < ReapMaxInputs ep ->
     cs <> [] -> (1 <= k)%nat).
Proof.
  revert i s; induction cs as [|c cs IH]; intros i s; cbn [selectLoop].
  { exists s, 0%nat. cbn. by rewrite app_nil_r. }
  unfold Background at 1.
  destruct (canSelectTierCandidate _ _ _ p) eqn:Ecan; cbn [negb].
  2: { exists (skip s (total - Z.of_nat i)), 0%nat. cbn. rewrite app_nil_r. repeat split; try done.
       intros _ H1 H2 _. rewrite (proj2 (canSelect_spec _ _ _)) in Ecan by done. done. }
  apply canSelect_spec in Ecan as [Hd Hn].
  destruct (_ && _) eqn:Ew.
  { exists (skip s (weightSkip (Z.of_nat i) (zlen (sel_inputs s)))), 0%nat. cbn [skip sel_inputs take map].
    rewrite app_nil_r. repeat split; try done. intros E. rewrite E in Ew.
    apply andb_true_iff in Ew as [_ Ew]. done. }
  destruct (pick_spec s c) as (Ei & Ed & En).
  assert (Hstep : forall l, tiersFrom (sel_dust (pick p s c)) (sel_normal (pick p s c)) l ->
                    tiersFrom (sel_dust s) (sel_normal s) (c.2 :: l)).
  { intros l Hl. cbn [tiersFrom]. split; [done|]. split; [done|]. rewrite Ed, En in Hl.
    by destruct (isReapDustTierAmount c.2 ep). }
  destruct (tierLimitReached _ _ p).
  - exists (skip (pick p s c) (total - Z.of_nat i - 1)), 1%nat. cbn [skip sel_inputs].
    split; [done|]. cbn [take map]. rewrite take_0. split; [done|]. split; [by apply Hstep|lia].
  - destruct (IH (S i) (pick p s c)) as (s' & k & Es & Hin & Ht & _).
    exists s', (S k). split; [done|]. cbn [take map]. split; [by rewrite Hin, Ei, <- app_assoc|].
    split; [by apply Hstep|lia].
Qed.

Lemma SelectPrefixCandidates_spec h cs :
  exists plan k, SelectPrefixCandidates Background h cs p = Ok plan /\ PlanHeight plan = h /\
    Inputs plan = map rpc_OutPoint (take k cs) /\
    tiersFrom 0 0 (map rpc_Amount (take k cs)) /\ (cs <> [] -> (1 <= k)%nat).
Proof.
  unfold SelectPrefixCandidates. rewrite (ag_max _ _ Hag), (ag_dustmax _ _ Hag).
  pose proof (pk_dustmax _ Hok). pose proof (pk_max _ Hok).
  destruct (Z.leb_spec (ReapMaxInputs ep) 0); [lia|]. destruct (Z.ltb_spec (ReapDustMaxInputs ep) 0); [lia|].
  destruct (selectLoop_spec (fun i _ => zlen cs - i) (zlen cs) 0
              (map (fun c => (rpc_OutPoint c, rpc_Amount c)) cs) emptySelection)
    as (s & k & -> & Hi & Ht & Hk). result_simpl.
  eexists _, k. split; [done|]. split; [done|]. rewrite firstn_map, map_map in Hi, Ht.
  split; [exact Hi|]. split; [exact Ht|]. intros Hne. apply Hk; [done|done|done|].
  by destruct cs.
Qed.

(** The input loop of the consensus check accepts what was selected. *)
Definition orderKey (op : OutPoint) (e : UtxoEntry) : reapInputOrderKey :=
  mkReapInputOrderKey (CalculateExpiryKey ep (blockHeight e)) (amount e) op.

Definition orderKeys (ops : list OutPoint) (es : list UtxoEntry) : list reapInputOrderKey :=
  zip_with orderKey ops es.

Definition notAfter (prev : option reapInputOrderKey) (k : reapInputOrderKey) : Prop :=
  match prev with None => True | Some k0 => compareReapInputOrderKey k0 k <> Gt end.

Lemma hardenInput_loop view ops es prev d n :
  entriesOf view ops es -> tiersFrom d n (map amount es) ->
  StronglySorted (fun a b => compareReapInputOrderKey a b = Lt) (orderKeys ops es) ->
  Forall (notAfter prev) (orderKeys ops es) ->
  exists st, foldM (hardenInput view ep) (prev, d, n) ops = Ok st.
Proof.
  intros Hes. revert prev d n; induction Hes as [|op e ops es He Hes IH]; intros prev d n Ht Hs Hp.
  { by eexists. }
  apply entryOf_Some in He as [He Hsp]. cbn [orderKeys zip_with map tiersFrom] in *. fold (orderKeys ops es) in *.
  destruct Ht as (Hd & Hn & Ht). apply StronglySorted_inv in Hs as [Hs Hlt]. apply Forall_cons_1 in Hp as [Hp _].
  cbn [foldM]. unfold hardenInput at 1, makeReapInputOrderKey. rewrite He, Hsp. fold (orderKey op e).
  assert (Hnext : Forall (notAfter (Some (orderKey op e))) (orderKeys ops es)).
  { eapply Forall_impl; [exact Hlt|]. intros k Hk. cbn. by rewrite Hk. }
  assert (Hc : match prev with
               | None => false
               | Some pk => match compareReapInputOrderKey pk (orderKey op e) with Gt => true | _ => false end
               end = false).
  { destruct prev as [k|]; [|done]. cbn in Hp. by destruct (compareReapInputOrderKey k (orderKey op e)). }
  rewrite Hc. change (rk_amount (orderKey op e)) with (amount e).
  pose proof (pk_dustmax _ Hok). destruct (Z.ltb_spec 0 (ReapDustMaxInputs ep)); [|lia].
  destruct (Z.leb_spec (ReapDustMaxInputs ep) d); [lia|]. destruct (Z.leb_spec (ReapMaxInputs ep) n); [lia|].
  rewrite !andb_false_r. cbn [orb].
  destruct (isReapDustTierAmount (amount e) ep); by apply IH.
Qed.
End tiers.

(** ** The rules accept it *)

Lemma prevOuts_packed ops : map PreviousOutPoint (packed ops) = ops.
Proof. unfold packed. rewrite map_map. apply map_id. Qed.

Lemma reapOf_shape h ops es tx :
  reapOf h ops es tx ->
  prevOuts tx = ops /\ zlen (TxIns tx) = zlen ops /\ refundOuts tx = refundOutputs (refunds ∅ es) /\
  Version tx = reapTxVersion /\
  exists script, markerScript h (zlen ops) ops = Ok script /\ last (TxOuts tx) = Some (mkTxOut 0 script).
Proof.
  intros (script & Em & ->). unfold blueprint, prevOuts, refundOuts. cbn [TxIns TxOuts Version].
  split; [apply prevOuts_packed|]. split; [unfold zlen, packed; by rewrite length_map|].
  split; [|split; [done|]].
  - rewrite length_app. cbn [length]. rewrite Nat.add_sub. apply take_app_length.
  - exists script. split; [done|]. apply last_snoc.
Qed.

Section accepted.
Context (view : UtxoViewpoint) (net : Params) (ep : ExpiryParams) (h : Z).
Context (Hnet : GetExpiryParams net = Some ep).

(** A transaction with the marker of its own inputs. *)
Definition marked (ops : list OutPoint) (tx : MsgTx) : Prop :=
  prevOuts tx = ops /\ Version tx = reapTxVersion /\
  exists script, markerScript h (zlen ops) ops = Ok script /\ last (TxOuts tx) = Some (mkTxOut 0 script).

Lemma marked_likely ops tx :
  is_i32 h -> zlen ops < 2^63 -> marked ops tx ->
  isLikelyReapTx tx = true /\ IsLikelyREAPTx tx = true /\ checkReapMarker tx h = Ok tt.
Proof.
  intros Hh Hn (Ep & Ev & script & Em & Elast).
  assert (El : zlen (TxIns tx) = zlen ops) by (rewrite <- Ep; unfold zlen, prevOuts; by rewrite length_map).
  assert (Hc : 0 <= zlen ops < 2^63) by (split; [apply zlen_nonneg|done]).
  destruct (markerScript_Ok h (zlen ops) ops Hh Hc) as (script' & Em' & Ex & EX & _ & _).
  assert (script' = script) as -> by congruence.
  destruct (markerPayload_shape h (zlen ops) ops Hh Hc) as [_ Hpre].
  assert (Hl : isLikelyReapTx tx = true).
  { unfold isLikelyReapTx. rewrite Ev, Elast. cbn [Value PkScript]. by rewrite Ex. }
  split; [done|]. split.
  - unfold IsLikelyREAPTx. rewrite Ev, Elast. cbn [Value PkScript]. by rewrite EX.
  - unfold checkReapMarker. rewrite Hl, Elast. cbn [negb mbind option_bind PkScript]. rewrite Ex.
    rewrite parse_markerPayload by done. rewrite Z.eqb_refl, El, Z.eqb_refl. cbn [negb].
    unfold reapInputDigest. rewrite Ep. by rewrite bool_decide_true.
Qed.

Lemma reapOf_likely ops es tx :
  is_i32 h -> zlen ops < 2^63 -> reapOf h ops es tx ->
  isLikelyReapTx tx = true /\ IsLikelyREAPTx tx = true /\ checkReapMarker tx h = Ok tt.
Proof.
  intros Hh Hn Htx. destruct (reapOf_shape _ _ _ _ Htx) as (Ep & _ & _ & Ev & Hs).
  by apply (marked_likely ops).
Qed.

Lemma checkReapTaxRules_reapOf ops es tx :
  inputs_ok view h ops es -> reapOf h ops es tx -> checkReapTaxRules tx h view net = Ok tt.
Proof.
  intros [Hes Hc Hle Hh Hn] Htx. pose proof (GetExpiryParams_ok _ _ Hnet) as Hok.
  destruct (reapOf_likely ops es tx Hh Hn Htx) as [Hl _].
  destruct (reapOf_shape _ _ _ _ Htx) as (Ep & _ & Er & _).
  unfold checkReapTaxRules. rewrite Hl, Hnet. cbn [negb].
  destruct (h <? EnableAtHeight ep); [done|]. rewrite Ep, Er.
  pose proof (sum_nonneg es Hc) as [? ?]. pose proof (sum_split es).
  rewrite (expectRefund_loop view ep Hok ops es ∅ 0 Hes Hc (bounded_empty 0)) by lia. result_simpl.
  rewrite refundOutputs_actual; [|by apply refunds_positive|rewrite mapSum_empty_refunds; lia]. result_simpl.
  rewrite mapSum_empty_refunds, Z.add_0_l, Z.eqb_refl, Nat.eqb_refl. cbn [negb].
  assert (forallb (fun se : list Z * Z => bool_decide (refunds ∅ es !! se.1 = Some se.2))
            (map_to_list (refunds ∅ es)) = true) as ->; [|done].
  apply forallb_forall. intros [s v] Hin%list_elem_of_In%elem_of_map_to_list. by apply bool_decide_eq_true.
Qed.

Lemma checkReapConsensusHardening_reapOf ops es tx :
  inputs_ok view h ops es -> reapOf h ops es tx ->
  tiersFrom ep 0 0 (map amount es) ->
  StronglySorted (fun a b => compareReapInputOrderKey a b = Lt) (orderKeys ep ops es) ->
  GetTransactionWeight tx <= ReapMaxWeight ep ->
  checkReapConsensusHardening tx h view net = Ok tt.
Proof.
  intros [Hes Hc Hle Hh Hn] Htx Ht Hs Hw. pose proof (GetExpiryParams_ok _ _ Hnet) as Hok.
  destruct (reapOf_likely ops es tx Hh Hn Htx) as [Hl _].
  destruct (reapOf_shape _ _ _ _ Htx) as (Ep & _).
  unfold checkReapConsensusHardening. rewrite Hl, Hnet. cbn [negb].
  destruct (h <? ReapConsensusAtHeight ep); [done|].
  destruct (Z.ltb_spec (ReapMaxWeight ep) (GetTransactionWeight tx)); [lia|]. rewrite andb_false_r.
  pose proof (pk_dustmax _ Hok). destruct (Z.ltb_spec 0 (ReapDustMaxInputs ep)); [|lia]. cbn [negb andb].
  rewrite Ep. destruct (hardenInput_loop ep Hok view ops es None 0 0 Hes Ht Hs) as (st & ->).
  { by apply Forall_forall. }
  done.
Qed.

(** Entries that are mined and expired at the height. *)
Definition expired (e : UtxoEntry) : Prop :=
  0 <= blockHeight e /\ CalculateExpiryKey ep (blockHeight e) <= h.

Lemma expired_height e :
  is_i32 h -> expired e -> blockHeight e < 2^31 ->
  CalculateExpiryKey ep (blockHeight e) = blockHeight e + WindowBlocks ep /\
  blockHeight e + WindowBlocks ep <= h.
Proof.
  intros Hh [H0 H1] Hb. pose proof (pk_window _ (GetExpiryParams_ok _ _ Hnet)).
  rewrite CalculateExpiryKey_nowrap in * by lia. done.
Qed.

Lemma checkExpirySpendRules_reapOf ops es tx :
  inputs_ok view h ops es -> reapOf h ops es tx ->
  Forall (fun e => expired e /\ blockHeight e < 2^31) es ->
  checkExpirySpendRules tx h view net = Ok tt.
Proof.
  intros [Hes Hc Hle Hh Hn] Htx Hexp. destruct (reapOf_likely ops es tx Hh Hn Htx) as [Hl _].
  destruct (reapOf_shape _ _ _ _ Htx) as (Ep & _).
  unfold checkExpirySpendRules. rewrite Hnet, Hl, Ep. destruct (h <? EnableAtHeight ep); [done|].
  clear Hc Hle Hn Htx Ep. induction Hes as [|op e ops es He Hes IH]; [done|].
  apply Forall_cons_1 in Hexp as [[He1 He2] Hexp]. apply entryOf_Some in He as [He Hs].
  destruct (expired_height e Hh He1 He2) as [Ek Hk].
  pose proof (pk_window _ (GetExpiryParams_ok _ _ Hnet)). destruct He1 as [He0 _].
  cbn [foldM]. unfold checkExpirySpend at 1. rewrite He, Hs, Ek. widths.
  rewrite i32_id by (widths; lia).
  destruct (Z.eqb_spec (blockHeight e) unminedInputHeight) as [E|]; [unfold unminedInputHeight in E; lia|].
  destruct (Z.leb_spec (blockHeight e + WindowBlocks ep) h); [|lia]. cbn [negb andb]. by apply IH.
Qed.

(** An output of a coinbase that cannot be spent yet. *)
Definition immature (e : UtxoEntry) : bool :=
  IsCoinBase e && (i32 (h - blockHeight e) <? i32 (CoinbaseMaturity net)).

Lemma checkInputAmount_loop ops es total :
  entriesOf view ops es -> coins_ok es -> Forall (fun e => immature e = false) es ->
  0 <= total -> total + sumAmount es <= MaxSatoshi ->
  foldM (checkInputAmount h view net) total ops = Ok (total + sumAmount es).
Proof.
  intros Hes Hc Him. revert total; induction Hes as [|op e ops es He Hes IH]; intros total Ht Hle.
  { cbn. unfold sumAmount, sumOf. cbn. by rewrite Z.add_0_r. }
  apply Forall_cons_1 in Him as [Hi Him]. apply Forall_cons_1 in Hc as [Hv Hc].
  apply entryOf_Some in He as [He Hs]. pose proof (sum_nonneg es Hc). pose proof (sum_split es).
  unfold sumAmount in *. rewrite sumOf_cons in *. unfold is_value in Hv.
  cbn [foldM]. unfold checkInputAmount at 1. rewrite He, Hs. unfold immature in Hi. rewrite Hi.
  change MaxSatoshi with 2100000000000000 in *.
  destruct (Z.ltb_spec (amount e) 0); [lia|]. destruct (Z.ltb_spec 2100000000000000 (amount e)); [lia|].
  rewrite i64_id by (widths; lia).
  destruct (Z.ltb_spec (total + amount e) total), (Z.ltb_spec 2100000000000000 (total + amount e)); try lia.
  cbn [orb]. rewrite IH by (done || lia). f_equal. lia.
Qed.

(** What has expired is mature. *)
Lemma expired_mature es :
  is_i32 h -> 0 <= CoinbaseMaturity net <= WindowBlocks ep ->
  Forall (fun e => expired e /\ blockHeight e < 2^31) es -> Forall (fun e => immature e = false) es.
Proof.
  intros Hh Hm Hexp. pose proof (pk_window _ (GetExpiryParams_ok _ _ Hnet)) as Hw.
  eapply Forall_impl; [exact Hexp|]. intros e [He1 He2]. destruct (expired_height e Hh He1 He2) as [_ Hk].
  destruct He1 as [He0 _]. unfold immature. widths.
  rewrite (i32_id (h - blockHeight e)), (i32_id (CoinbaseMaturity net)) by (widths; lia).
  destruct (Z.ltb_spec (h - blockHeight e) (CoinbaseMaturity net)); [lia|]. apply andb_false_r.
Qed.

Definition nullOutPoint : OutPoint := mkOutPoint zeroHash (2^32 - 1).

Lemma reapOf_not_coinbase ops es tx :
  reapOf h ops es tx -> nullOutPoint ∉ ops -> IsCoinBaseTx tx = false.
Proof.
  intros (script & _ & ->) Hn. unfold IsCoinBaseTx, blueprint, packed. cbn [TxIns].
  destruct ops as [|op [|op' ops]]; [done| |done]. cbn [map PreviousOutPoint].
  destruct (Z.eqb_spec (Index op) (2^32 - 1)) as [Ei|]; [|done].
  destruct (bool_decide_reflect (Hash op = zeroHash)) as [Eh|]; [|done].
  exfalso. apply Hn. destruct op as [hash i]. cbn in Ei, Eh. subst. apply list_elem_of_here.
Qed.

Lemma totalOut_reapOf ops es tx :
  inputs_ok view h ops es -> reapOf h ops es tx -> totalOut tx = sumRefund es.
Proof.
  intros [Hes Hc Hle Hh Hn] (script & _ & ->). pose proof (sum_nonneg es Hc) as [? ?]. pose proof (sum_split es).
  unfold totalOut, blueprint. cbn [TxOuts]. rewrite foldl_app, refundOutputs_total;
    [|by apply refunds_positive|rewrite mapSum_empty_refunds; lia].
  rewrite mapSum_empty_refunds. cbn [foldl Value]. rewrite Z.add_0_r.
  apply i64_id. change MaxSatoshi with 2100000000000000 in *. widths. lia.
Qed.

Lemma CheckTransactionInputs_reapOf ops es tx :
  inputs_ok view h ops es -> reapOf h ops es tx -> nullOutPoint ∉ ops ->
  tiersFrom ep 0 0 (map amount es) ->
  StronglySorted (fun a b => compareReapInputOrderKey a b = Lt) (orderKeys ep ops es) ->
  GetTransactionWeight tx <= ReapMaxWeight ep ->
  Forall (fun e => expired e /\ blockHeight e < 2^31) es ->
  0 <= CoinbaseMaturity net <= WindowBlocks ep ->
  CheckTransactionInputs tx h view net = Ok (sumTax es).
Proof.
  intros Hin Htx Hnull Ht Hs Hw Hexp Hm. pose proof Hin as [Hes Hc Hle Hh Hn].
  unfold CheckTransactionInputs. rewrite (reapOf_not_coinbase ops es tx) by done.
  destruct (reapOf_likely ops es tx Hh Hn Htx) as (_ & _ & ->). result_simpl.
  rewrite (checkExpirySpendRules_reapOf ops es tx) by done. result_simpl.
  rewrite (checkReapConsensusHardening_reapOf ops es tx) by done. result_simpl.
  rewrite (checkReapTaxRules_reapOf ops es tx) by done. result_simpl.
  destruct (reapOf_shape _ _ _ _ Htx) as (-> & _).
  rewrite (checkInputAmount_loop ops es 0) by (done || lia || by apply expired_mature). result_simpl.
  rewrite (totalOut_reapOf ops es tx) by done.
  pose proof (sum_nonneg es Hc). pose proof (sum_split es). change MaxSatoshi with 2100000000000000 in *.
  destruct (Z.ltb_spec (0 + sumAmount es) (sumRefund es)); [lia|].
  rewrite i64_id by (widths; lia). f_equal. lia.
Qed.
End accepted.

(** ** The global prefix *)

(** What consensus asks of its source: it stands at a block, and answers with
    the first expired entries of the canonical order. *)
Record source_ok (src : ReapPrefixSource) (m : gmap OutPoint entry) (tip : Z)
    (L : list ReapPrefixCandidate) : Prop := {
  so_tip : sourceTipHeight src = Ok tip;
  so_canonical : canonical m L;
  so_prefix : forall h limit, is_i32 h -> 0 < limit ->
    sourceCandidates src h limit = Ok (take (Z.to_nat limit) (List.filter (expiredAt h) L))
}.

(** The index is such a source. *)
Lemma indexSource_ok idx db u tip hash :
  disabled idx = false -> index_ok idx db u tip hash ->
  exists L, source_ok (indexSource idx db) (project idx u) tip L.
Proof.
  intros Hd [Hrep (mh & _ & _ & Ht & _)].
  destruct (ReapPrefixCandidates_spec idx db _ Hd Hrep) as (L & HL & HS).
  exists L. split; [|done|done]. cbn. unfold ReapPrefixTipHeight. by rewrite Hd.
Qed.

Lemma matchPrefix_self cs k :
  matchPrefix (map rpc_OutPoint (take k cs)) cs = Ok tt.
Proof.
  revert k; induction cs as [|c cs IH]; intros [|k]; [done..|]. cbn [take map matchPrefix].
  rewrite bool_decide_true by done. apply IH.
Qed.

(** A block whose only REAP transaction is [tx]. *)
Definition only_reap (block : Block) (tx : MsgTx) : Prop :=
  exists cb before after, Transactions block = cb :: before ++ tx :: after /\
    Forall (fun t => isLikelyReapTx t = false) (before ++ after).

Lemma findReapFrom_skip before i txs :
  Forall (fun t => isLikelyReapTx t = false) before ->
  findReapFrom i (before ++ txs) = findReapFrom (i + length before) txs.
Proof.
  intros H. revert i; induction H as [|t before Ht _ IH]; intros i; cbn [app findReapFrom length].
  - by rewrite Nat.add_0_r.
  - rewrite Ht, IH. f_equal. lia.
Qed.

Lemma countReap_none n txs :
  Forall (fun t => isLikelyReapTx t = false) txs -> countReap n txs = Ok n.
Proof. induction 1 as [|t txs Ht _ IH]; [done|]. cbn [countReap]. by rewrite Ht. Qed.

Lemma countReap_skip n before txs :
  Forall (fun t => isLikelyReapTx t = false) before -> countReap n (before ++ txs) = countReap n txs.
Proof. induction 1 as [|t before Ht _ IH]; [done|]. cbn [app countReap]. by rewrite Ht. Qed.

Lemma only_reap_checks block tx src m tip L h net ep k :
  GetExpiryParams net = Some ep -> isLikelyReapTx tx = true -> only_reap block tx ->
  source_ok src m tip L -> is_i32 h -> i32 (h - 1) = tip ->
  prevOuts tx = map rpc_OutPoint (take k (List.filter (expiredAt h) L)) ->
  checkReapBlockHardening block h net = Ok tt /\
  checkReapGlobalPrefix block h (Some src) net = Ok tt.
Proof.
  intros Hnet Hl (cb & before & after & Eb & Hf) [Htip _ Hsrc] Hh Ht Ep.
  apply Forall_app in Hf as [Hbe Haf]. unfold checkReapBlockHardening, checkReapGlobalPrefix, findReapTx.
  rewrite Hnet, Eb. cbn [drop]. rewrite drop_0.
  destruct (h <? ReapConsensusAtHeight ep); [done|]. split.
  - rewrite countReap_skip by done. cbn [countReap]. rewrite Hl. cbn [negb Z.ltb Z.compare Z.add].
    by rewrite countReap_none.
  - rewrite findReapFrom_skip by done. cbn [findReapFrom]. rewrite Hl, Htip. cbn [liftSource]. result_simpl.
    rewrite Ht, Z.eqb_refl. cbn [negb].
    assert (El : zlen (TxIns tx) = zlen (take k (List.filter (expiredAt h) L))).
    { transitivity (zlen (prevOuts tx)); [unfold zlen, prevOuts; by rewrite length_map|].
      rewrite Ep. unfold zlen. by rewrite length_map. }
    destruct (Z.eqb_spec (zlen (TxIns tx)) 0); [done|]. pose proof (zlen_nonneg (TxIns tx)).
    rewrite Hsrc by (done || lia). cbn [liftSource]. result_simpl.
    set (E := List.filter (expiredAt h) L) in *. unfold zlen in El. rewrite length_take in El.
    assert (Hz : Z.to_nat (zlen (TxIns tx)) = (k `min` length E)%nat) by (unfold zlen; lia).
    rewrite Hz. destruct (Z.ltb_spec (zlen (take (k `min` length E) E)) (zlen (TxIns tx))) as [Hlt|].
    { unfold zlen in Hlt. rewrite length_take in Hlt. lia. }
    rewrite Ep. assert (take k E = take k (take (k `min` length E) E)) as ->.
    { rewrite take_take. destruct (Nat.min_spec k (length E)) as [[? ->]|[? ->]]; [by rewrite Nat.min_id|].
      rewrite (Nat.min_r k) by lia. rewrite firstn_all. by apply take_ge. }
    apply matchPrefix_self.
Qed.
