(* ===== verification/ReapProps.v ===== *)
(** * REAP: what the rules guarantee and what a miner can rely on

    The properties of the REAP transaction, from the lemmas of ReapAgree.v, with
    their witnesses; and two places where the code does not do what it is meant
    to. *)

From Stdlib Require Import Permutation Sorted.
From S2P Require Import Prelude ChainParams Sha256 Wire Encode MuHash Commitment Script Block Bucket IndexDB Ledger UtxoView ExpiryIndex IndexRefine IndexRebuild IndexQuery Text ReapRules Reap Template ReapAgree IndexProps.

(** ** The setting: an index over a ledger, and a chain that serves its coins *)

Definition supply (u : utxo_set) : Z := sumZ (map (fun oc : OutPoint * SpentTxOut => stxo_Amount oc.2) (map_to_list u)).

Record ledger_ok (u : utxo_set) : Prop := {
  lo_coins : map_Forall (fun op c => is_value (stxo_Amount c) /\ 0 <= stxo_Height c < 2^31 /\
                                     op <> nullOutPoint) u;
  lo_supply : supply u <= MaxSatoshi
}.

(** A view shows the coins of the ledger at some outpoints. *)
Definition shows (view : UtxoViewpoint) (u : utxo_set) (ops : list OutPoint) : Prop :=
  forall op, op ∈ ops -> live view !! op = u !! op.

Lemma supply_delete u op c : u !! op = Some c -> supply u = stxo_Amount c + supply (delete op u).
Proof.
  intros H. unfold supply.
  rewrite (sumZ_perm _ (map (fun oc : OutPoint * SpentTxOut => stxo_Amount oc.2)
             ((op, c) :: map_to_list (delete op u)))); [done|].
  apply fmap_Permutation. by rewrite map_to_list_delete.
Qed.

Lemma ledger_ok_delete u op : ledger_ok u -> ledger_ok (delete op u).
Proof.
  intros [H1 H2]. split; [by apply map_Forall_delete|].
  destruct (u !! op) as [c|] eqn:E; [|by rewrite delete_id].
  rewrite (supply_delete u op c E) in H2. destruct (H1 op c E) as ([? _] & _). lia.
Qed.

(** Distinct coins of the ledger are together no more than the supply. *)
Lemma coins_supply view u ops es :
  ledger_ok u -> entriesOf view ops es -> NoDup ops -> shows view u ops ->
  coins_ok es /\ sumAmount es <= supply u.
Proof.
  intros Hu Hes. revert u Hu; induction Hes as [|op e ops es He Hes IH]; intros u Hu Hnd Hsh.
  - split; [constructor|]. destruct Hu as [Hc _]. unfold supply. unfold sumAmount, sumOf. cbn [map sumZ fold_right].
    assert (Hn : Forall (fun oc : OutPoint * SpentTxOut => 0 <= stxo_Amount oc.2) (map_to_list u)).
    { apply Forall_forall. intros [o c] H%elem_of_map_to_list. apply (Hc o c H). }
    clear -Hn. induction Hn; cbn [map]; rewrite ?sumZ_cons; [done|lia].
  - apply NoDup_cons in Hnd as [Hni Hnd]. apply entryOf_Some in He as [He Hs].
    assert (Hop : u !! op = Some (entryStxo e)).
    { rewrite <- (Hsh op) by apply list_elem_of_here. apply live_Some. exists e. split; [exact He|].
      unfold live_entry. by rewrite Hs. }
    destruct (IH (delete op u)) as [Hc Hsum]; [by apply ledger_ok_delete|done| |].
    { intros op' Hin. rewrite lookup_delete_ne by (intros ->; done). apply Hsh. by right. }
    destruct Hu as [Hco _]. destruct (Hco op _ Hop) as (Hv & _).
    split; [by constructor|]. rewrite (supply_delete u op _ Hop). unfold sumAmount in *. rewrite sumOf_cons.
    change (stxo_Amount (entryStxo e)) with (amount e). lia.
Qed.

Section setting.
Context (net : Params) (ep : ExpiryParams) (idx : ExpiryIndex) (u : utxo_set).
Context (Hnet : GetExpiryParams net = Some ep).
Context (Hidx : GetExpiryIndexParams net = Some (expiryParams idx)).
Context (Hu : ledger_ok u).

Lemma expiryKey_same h : eiCalculateExpiryKey (expiryParams idx) h = CalculateExpiryKey ep h.
Proof.
  unfold GetExpiryIndexParams in Hidx. rewrite Hnet in Hidx.
  unfold eiCalculateExpiryKey, CalculateExpiryKey. by injection Hidx as <-.
Qed.

(** A candidate and the entry it stands for. *)
Definition stands (c : ReapPrefixCandidate) (e : UtxoEntry) : Prop :=
  u !! rpc_OutPoint c = Some (entryStxo e) /\ rpc_Amount c = amount e /\
  rpc_ExpiryKey c = CalculateExpiryKey ep (blockHeight e).

Lemma canonical_coin L c :
  canonical (project idx u) L -> c ∈ L ->
  exists coin, u !! rpc_OutPoint c = Some coin /\ rpc_Amount c = stxo_Amount coin /\
               rpc_ExpiryKey c = CalculateExpiryKey ep (stxo_Height coin).
Proof.
  intros [HP _] Hc. rewrite HP in Hc. apply list_elem_of_fmap in Hc as ([op ea] & -> & Hin%elem_of_map_to_list).
  rewrite project_lookup in Hin. destruct (u !! op) as [coin|] eqn:E; [|done]. cbn [mbind option_bind] in Hin.
  unfold coinEntry in Hin. destruct (shouldIndexCreateHeight _ _); [|done]. injection Hin as <-.
  exists coin. cbn. by rewrite <- expiryKey_same.
Qed.

Lemma canonical_nodup L : canonical (project idx u) L -> NoDup (map rpc_OutPoint L).
Proof.
  intros [HP _]. change (map rpc_OutPoint L) with (rpc_OutPoint <$> L). rewrite HP.
  change (map candOf ?l) with (candOf <$> l). rewrite <- list_fmap_compose.
  apply NoDup_fst_map_to_list.
Qed.

Lemma candidates_entries view cs L :
  canonical (project idx u) L -> (forall c, c ∈ cs -> c ∈ L) -> shows view u (map rpc_OutPoint cs) ->
  exists es, entriesOf view (map rpc_OutPoint cs) es /\ Forall2 stands cs es.
Proof.
  intros HL. induction cs as [|c cs IH]; intros Hin Hsh.
  { exists []. split; constructor. }
  destruct IH as (es & Hes & Hst); [intros; apply Hin; by right|intros op Hop; apply Hsh; by right|].
  destruct (canonical_coin L c HL) as (coin & Hc & Ha & He); [apply Hin; by left|].
  pose proof (Hsh (rpc_OutPoint c) ltac:(by left)) as Hl. rewrite Hc in Hl.
  apply live_Some in Hl as (e & Ee & Hle). unfold live_entry in Hle.
  destruct (IsSpent e) eqn:Hs; [done|]. injection Hle as <-.
  exists (e :: es). split; constructor; try done. by apply entryOf_Some.
Qed.

Lemma stands_keys cs es :
  Forall2 stands cs es ->
  orderKeys ep (map rpc_OutPoint cs) es = map candKey cs /\ map amount es = map rpc_Amount cs.
Proof.
  induction 1 as [|c e cs es (_ & Ha & He) _ [IH1 IH2]]; [done|].
  cbn [map orderKeys zip_with]. fold (orderKeys ep (map rpc_OutPoint cs) es).
  split; [|by rewrite IH2, Ha]. rewrite IH1. unfold orderKey, candKey. by rewrite Ha, He.
Qed.

Lemma stands_expired h cs es :
  Forall2 stands cs es -> Forall (fun c => expiredAt h c = true) cs ->
  Forall (fun e => expired ep h e /\ blockHeight e < 2^31) es.
Proof.
  induction 1 as [|c e cs es (Hc & _ & He) _ IH]; intros Hx; [constructor|].
  apply Forall_cons_1 in Hx as [Hx Hxs]. constructor; [|by apply IH].
  destruct Hu as [Hco _]. destruct (Hco _ _ Hc) as (_ & Hh & _). cbn in Hh.
  unfold expiredAt in Hx. rewrite He, Z.leb_le in Hx. split; [split; [lia|done]|lia].
Qed.

(** Two views of the same ledger make the same refunds. *)
Lemma refunds_ext es es' m :
  map entryStxo es = map entryStxo es' -> refunds m es = refunds m es' /\ sumTax es = sumTax es'.
Proof.
  revert es' m; induction es as [|e es IH]; intros [|e' es'] m; try done. cbn [map]. intros [= Ha Hp _ _ Hes].
  destruct (IH es' (addOne m e) Hes) as [IH1 IH2]. unfold sumTax in *. rewrite !sumOf_cons, IH2, Ha.
  split; [|done]. unfold refunds. cbn [foldl].
  assert (addOne m e = addOne m e') as <- by (unfold addOne; by rewrite Ha, Hp). exact IH1.
Qed.

Lemma stands_same cs es es' :
  Forall2 stands cs es -> Forall2 stands cs es' -> map entryStxo es = map entryStxo es'.
Proof.
  intros H. revert es'; induction H as [|c e cs es (Hc & _) _ IH]; intros es' H'; inversion H' as [|? e' ? es2 (Hc' & _) H2];
    subst; [done|]. cbn [map]. f_equal; [congruence|by apply IH].
Qed.
End setting.

(** ** Accepting a prefix *)

Lemma elem_of_take_filter {A} (P : A -> bool) (l : list A) n x : x ∈ take n (List.filter P l) -> x ∈ l.
Proof.
  intros H%elem_of_take. destruct H as (i & H & _). apply list_elem_of_lookup_2, list_elem_of_In in H.
  apply filter_In in H as [H _]. by apply list_elem_of_In.
Qed.

Lemma sublist_filter_B {A} (P : A -> bool) (l : list A) : List.filter P l `sublist_of` l.
Proof.
  induction l as [|x l IH]; cbn [List.filter]; [constructor|]. destruct (P x); by constructor.
Qed.

Lemma StronglySorted_take {A} (R : A -> A -> Prop) n l : StronglySorted R l -> StronglySorted R (take n l).
Proof.
  intros H. revert n; induction H as [|x l Hs IH Hx]; intros [|n]; cbn [take]; constructor; [done|].
  by apply Forall_take.
Qed.

Lemma StronglySorted_map {A B} (R : B -> B -> Prop) (f : A -> B) l :
  StronglySorted (fun x y => R (f x) (f y)) l -> StronglySorted R (map f l).
Proof. induction 1; cbn [map]; constructor; [done|]. by apply Forall_fmap. Qed.

Section accepting.
Context (net : Params) (ep : ExpiryParams) (idx : ExpiryIndex) (u : utxo_set) (h : Z).
Context (Hnet : GetExpiryParams net = Some ep).
Context (Hidx : GetExpiryIndexParams net = Some (expiryParams idx)).
Context (Hu : ledger_ok u) (Hh : is_i32 h).
Context (L : list ReapPrefixCandidate) (HL : canonical (project idx u) L).

(** The inputs of a view at the expired prefix. *)
Lemma prefix_inputs view j cs :
  cs = take j (List.filter (expiredAt h) L) -> zlen cs < 2^63 -> shows view u (map rpc_OutPoint cs) ->
  exists es, inputs_ok view h (map rpc_OutPoint cs) es /\ Forall2 (stands ep u) cs es.
Proof.
  intros Ecs Hn Hsh.
  destruct (candidates_entries net ep idx u Hnet Hidx view cs L HL) as (es & Hes & Hst);
    [intros c Hc; rewrite Ecs in Hc; by eapply elem_of_take_filter|done|].
  exists es. split; [|done].
  assert (Hnd : NoDup (map rpc_OutPoint cs)).
  { eapply sublist_NoDup; [apply (canonical_nodup idx u L HL)|]. rewrite Ecs.
    apply (fmap_sublist rpc_OutPoint). etransitivity; [apply sublist_take|apply sublist_filter_B]. }
  destruct (coins_supply view u _ es Hu Hes Hnd Hsh) as [Hco Hsum]. pose proof (lo_supply _ Hu).
  split; [done|done|lia|done|]. unfold zlen in *. by rewrite length_map.
Qed.

Lemma prefix_sorted j cs :
  cs = take j (List.filter (expiredAt h) L) ->
  StronglySorted (fun a b => compareReapInputOrderKey a b = Lt) (map candKey cs).
Proof.
  intros ->. apply StronglySorted_map, StronglySorted_take, StronglySorted_filter. apply HL.
Qed.

Lemma prefix_expired j cs :
  cs = take j (List.filter (expiredAt h) L) -> Forall (fun c => expiredAt h c = true) cs.
Proof.
  intros ->. apply Forall_take, Forall_forall. intros c Hc%list_elem_of_In. by apply filter_In in Hc as [_ Hc].
Qed.

Lemma accepted_of_prefix view j cs es tx :
  cs = take j (List.filter (expiredAt h) L) -> zlen cs < 2^63 ->
  0 <= CoinbaseMaturity net <= WindowBlocks ep ->
  Forall2 (stands ep u) cs es -> tiersFrom ep 0 0 (map rpc_Amount cs) ->
  reapOf h (map rpc_OutPoint cs) es tx -> GetTransactionWeight tx <= ReapMaxWeight ep ->
  shows view u (map rpc_OutPoint cs) ->
  CheckTransactionInputs tx h view net = Ok (sumTax es) /\ isLikelyReapTx tx = true.
Proof.
  intros Ecs Hn Hm Hst Ht Htx Hw Hsh. destruct (prefix_inputs view j cs Ecs Hn Hsh) as (es' & Hin & Hst').
  destruct (refunds_ext es es' ∅ (stands_same ep u cs es es' Hst Hst')) as [Er Et].
  assert (Htx' : reapOf h (map rpc_OutPoint cs) es' tx).
  { destruct Htx as (script & Em & ->). exists script. split; [done|]. unfold blueprint. by rewrite Er. }
  destruct (stands_keys ep u cs es' Hst') as [Ek Ea].
  split; [|by eapply reapOf_likely; [apply Hin..|]].
  rewrite Et. eapply CheckTransactionInputs_reapOf; [exact Hnet|exact Hin|exact Htx'| | | |exact Hw| |exact Hm].
  - intros Hnull%list_elem_of_fmap. destruct Hnull as (c & Ec & Hc).
    destruct (canonical_coin net ep idx u Hnet Hidx L c HL) as (coin & Hcoin & _).
    { rewrite Ecs in Hc. by eapply elem_of_take_filter. }
    destruct (lo_coins _ Hu _ _ Hcoin) as (_ & _ & Hne). by rewrite Ec in Hne.
  - by rewrite Ea.
  - rewrite Ek. by eapply prefix_sorted.
  - eapply (stands_expired ep u Hu h cs es'); [done|]. by eapply prefix_expired.
Qed.
End accepting.

Lemma expired_in_canonical net ep idx u h L op c :
  GetExpiryParams net = Some ep -> GetExpiryIndexParams net = Some (expiryParams idx) ->
  ledger_ok u -> canonical (project idx u) L -> u !! op = Some c ->
  0 < stxo_Height c -> stxo_Height c + WindowBlocks ep <= h ->
  List.filter (expiredAt h) L <> [].
Proof.
  intros Hnet Hidx Hu [HP _] Hop H0 Hexp Hnil.
  destruct (lo_coins _ Hu _ _ Hop) as (_ & Hh & _). pose proof (GetExpiryParams_ok _ _ Hnet) as Hok.
  assert (Hs : eiStartScanHeight (expiryParams idx) = 0).
  { unfold GetExpiryIndexParams in Hidx. rewrite Hnet in Hidx. injection Hidx as <-. apply (pk_start _ Hok). }
  assert (Hin : mkReapPrefixCandidate op (CalculateExpiryKey ep (stxo_Height c)) (stxo_Amount c)
                ∈ List.filter (expiredAt h) L).
  { apply list_elem_of_In, filter_In. split.
    - apply list_elem_of_In. rewrite HP. apply list_elem_of_fmap.
      exists (op, (CalculateExpiryKey ep (stxo_Height c), stxo_Amount c)). split; [done|].
      apply elem_of_map_to_list. rewrite project_lookup, Hop. cbn [mbind option_bind]. unfold coinEntry.
      rewrite (expiryKey_same net ep idx Hnet Hidx). unfold shouldIndexCreateHeight. rewrite Hs.
      destruct (Z.ltb_spec 0 (stxo_Height c)), (Z.leb_spec 0 (stxo_Height c)); try lia. done.
    - unfold expiredAt. cbn [rpc_ExpiryKey]. rewrite Z.leb_le.
      rewrite CalculateExpiryKey_nowrap; [done|lia|apply (pk_window _ Hok)]. }
  rewrite Hnil in Hin. by apply not_elem_of_nil in Hin.
Qed.

(** ** The template *)

(** A generator over the index of a ledger. *)
Record generator_ok (g : BlkTmplGenerator) (ep : ExpiryParams) (idx : ExpiryIndex) (db : IndexDB)
    (u : utxo_set) (h : Z) : Prop := {
  go_index : g_reapIndex g = Some (idx, db);
  go_net : GetExpiryParams (g_chainParams g) = Some ep;
  go_params : GetExpiryIndexParams (g_chainParams g) = Some (expiryParams idx);
  go_enabled : disabled idx = false;
  go_ok : exists hash, index_ok idx db u (h - 1) hash;
  go_ledger : ledger_ok u;
  go_height : 0 < h < 2^31;
  go_fetch : forall ops, exists view, g_FetchUtxoView g ops = Some view /\ shows view u ops
}.

Lemma IsOBTC_expiry net ep : GetExpiryParams net = Some ep -> IsOBTC net = true.
Proof. unfold GetExpiryParams. by destruct (IsOBTC net). Qed.

Lemma Validate_agrees p ep :
  params_ok ep -> agrees p ep -> 0 < ScanBatch p -> Validate p = Ok tt.
Proof.
  intros [] [] Hs. unfold Validate. rewrite ag_max, ag_dustmax, ag_weight, ag_num, ag_den, ag_dust.
  rewrite pk_weight, pk_num, pk_den, pk_dust.
  destruct (Z.leb_spec (ReapMaxInputs ep) 0); [lia|]. destruct (Z.ltb_spec (ReapDustMaxInputs ep) 0); [lia|].
  destruct (Z.leb_spec (ScanBatch p) 0); [lia|]. done.
Qed.

Lemma ScanBatch_net net mode : 0 < ScanBatch (DefaultREAPParamsForNet net mode).
Proof.
  unfold DefaultREAPParamsForNet. cbv zeta. destruct (GetExpiryParams net); repeat case_match; done.
Qed.

Lemma PrefixCandidateLimit_range p ep :
  params_ok ep -> agrees p ep -> 0 < PrefixCandidateLimit p <= 1500.
Proof.
  intros [] []. unfold PrefixCandidateLimit. rewrite ag_max, ag_dustmax.
  destruct (Z.leb_spec (ReapDustMaxInputs ep) 0); [lia|]. rewrite i64_id by (widths; lia). lia.
Qed.

(** What the template gets: nothing when nothing has expired; otherwise the
    budgeted transaction of a non-empty part of the expired prefix. *)
Lemma maybeBuildREAPTx_spec g ep idx db u h L :
  generator_ok g ep idx db u h -> EnableAtHeight ep <= h ->
  source_ok (indexSource idx db) (project idx u) (h - 1) L ->
  let p := DefaultREAPParamsForNet (g_chainParams g) SortModeStrict in
  (List.filter (expiredAt h) L = [] /\ maybeBuildREAPTx g h = Ok (None, 0)) \/
  exists k cs view es r,
    cs = take k (List.filter (expiredAt h) L) /\ cs <> [] /\
    shows view u (map rpc_OutPoint cs) /\ inputs_ok view h (map rpc_OutPoint cs) es /\
    Forall2 (stands ep u) cs es /\ tiersFrom ep 0 0 (map rpc_Amount cs) /\
    budgeted p h (g_BlockMaxWeight g) (map rpc_OutPoint cs) es r /\
    maybeBuildREAPTx g h = match r with
                           | Err e => Err e
                           | Ok (None, _, _) => Ok (None, 0)
                           | Ok (Some tx, plan', _) => Ok (Some tx, TaxTotal plan')
                           end.
Proof.
  intros [Hi Hnet Hip Hd (hash & Hix) Hu Hh Hf] Hen [_ HL Hsrc] p.
  pose proof (GetExpiryParams_ok _ _ Hnet) as Hok.
  pose proof (DefaultREAPParamsForNet_agrees _ SortModeStrict ep Hnet) as Hag. fold p in Hag.
  assert (Hval : Validate p = Ok tt) by (eapply Validate_agrees; [done..|apply ScanBatch_net]).
  unfold maybeBuildREAPTx. rewrite Hi, (IsOBTC_expiry _ _ Hnet), Hnet. cbn [negb].
  destruct (Z.ltb_spec h (EnableAtHeight ep)); [lia|]. fold p. rewrite Hval. result_simpl.
  pose proof (PrefixCandidateLimit_range p ep Hok Hag) as Hlim.
  change (ReapPrefixCandidates idx db) with (sourceCandidates (indexSource idx db)).
  rewrite (Hsrc h (PrefixCandidateLimit p)) by (widths; lia).
  set (E := List.filter (expiredAt h) L) in *. set (n := Z.to_nat (PrefixCandidateLimit p)).
  destruct (SelectPrefixCandidates_spec p ep Hok Hag h (take n E)) as (plan & k & Esel & Eph & Ein & Htier & Hk).
  destruct (take n E) as [|c0 cs0] eqn:Et.
  { left. split; [|done]. destruct E as [|c E]; [done|]. destruct n eqn:En; [lia|done]. }
  right. rewrite Esel. result_simpl. specialize (Hk ltac:(done)).
  exists (k `min` n)%nat. set (cs := take (k `min` n) E).
  assert (Ecs : take k (c0 :: cs0) = cs) by (rewrite <- Et, take_take; done).
  rewrite Ecs in Ein, Htier.
  destruct (Hf (map rpc_OutPoint cs)) as (view & Ev & Hsh).
  assert (Hcs : cs <> []) by (intros E0; rewrite E0 in Ecs; destruct k; [lia|done]).
  destruct (prefix_inputs (g_chainParams g) ep idx u h Hnet Hip Hu ltac:(widths; lia) L HL view _ cs eq_refl)
    as (es & Hin & Hst); [unfold zlen, cs; rewrite length_take; lia|done|].
  assert (Hne : length (Inputs plan) <> 0%nat) by (rewrite Ein, length_map; by destruct cs).
  pose proof (budgetLoop_spec view p ep h Hok Hag (length (Inputs plan)) plan es (g_BlockMaxWeight g)) as Hb.
  rewrite Ein in Hb at 1. specialize (Hb Hin Eph ltac:(lia)).
  exists cs, view, es, (budgetLoop (length (Inputs plan)) plan (Some view) p (g_BlockMaxWeight g)).
  rewrite Ein in Hb at 1.
  split; [done|]. split; [done|]. split; [done|]. split; [done|]. split; [done|]. split; [done|].
  split; [done|]. unfold BuildBudgetedBlueprint.
  destruct (Inputs plan) as [|op ops] eqn:Eip; [done|]. rewrite Ein, Ev. cbv zeta.
  destruct (budgetLoop _ _ _ _ _) as [[[[tx|] plan'] w]|e]; done.
Qed.

(** ** Properties *)

(** C4: what the miner builds, the network accepts. On an index of the ledger at
    the parent block, with the chain serving the ledger's coins, a REAP
    transaction that [maybeBuildREAPTx] returns for the next height passes the
    transaction checks with exactly the fee it announced, needs no scripts, and
    a block that carries it and no other REAP transaction passes the block rule
    and the global prefix rule against the same index. *)
Theorem template_reap_accepted g ep idx db u h tx fee view block :
  generator_ok g ep idx db u h ->
  0 <= CoinbaseMaturity (g_chainParams g) <= WindowBlocks ep ->
  maybeBuildREAPTx g h = Ok (Some tx, fee) ->
  shows view u (prevOuts tx) -> only_reap block tx ->
  CheckTransactionInputs tx h view (g_chainParams g) = Ok fee /\
  (forall run, ValidateTransactionScripts run tx = Ok tt) /\
  checkReapBlockHardening block h (g_chainParams g) = Ok tt /\
  checkReapGlobalPrefix block h (Some (indexSource idx db)) (g_chainParams g) = Ok tt.
Proof.
  intros Hg Hm Hb Hview Hblock. pose proof Hg as [_ Hnet Hip Hd (hash & Hix) Hu Hh _].
  destruct (Z.le_gt_cases (EnableAtHeight ep) h) as [Hen|Hlow].
  2: { unfold maybeBuildREAPTx in Hb. rewrite (go_index _ _ _ _ _ _ Hg), (IsOBTC_expiry _ _ Hnet), Hnet in Hb.
       cbn [negb] in Hb. destruct (Z.ltb_spec h (EnableAtHeight ep)); [done|lia]. }
  destruct (indexSource_ok idx db u (h - 1) hash Hd Hix) as (L & HL).
  destruct (maybeBuildREAPTx_spec g ep idx db u h L Hg Hen HL) as [[_ E]|(k & cs & v & es & r & Ecs & _ & Hsh & Hin & Hst & Ht & Hbud & E)];
    [congruence|].
  rewrite Hb in E. destruct r as [[[[tx0|] plan'] w]|e]; [|done..]. injection E as <- ->.
  destruct Hbud as (n & tx' & Hn & Htx & _ & <- & _ & Hw & _ & _ & ->).
  assert (Hw' : GetTransactionWeight tx <= ReapMaxWeight ep).
  { pose proof (GetExpiryParams_ok _ _ Hnet) as Hok.
    rewrite <- (ag_weight _ _ (DefaultREAPParamsForNet_agrees _ SortModeStrict ep Hnet)). apply Hw.
    rewrite (ag_weight _ _ (DefaultREAPParamsForNet_agrees _ SortModeStrict ep Hnet)), (pk_weight _ Hok). lia. }
  set (cs' := take n cs).
  assert (Ecs' : cs' = take (n `min` k) (List.filter (expiredAt h) L)) by (unfold cs'; by rewrite Ecs, take_take).
  assert (Hzl : zlen cs' < 2^63).
  { pose proof (io_count _ _ _ _ Hin) as Hz. unfold zlen, cs' in *. rewrite length_map in Hz. rewrite length_take. lia. }
  rewrite firstn_map in Htx. fold cs' in Htx.
  destruct (reapOf_shape _ _ _ _ Htx) as (Ep & _). rewrite Ep in Hview.
  destruct (accepted_of_prefix (g_chainParams g) ep idx u h Hnet Hip Hu ltac:(widths; lia) L (so_canonical _ _ _ _ HL)
    view _ cs' (take n es) tx Ecs' Hzl Hm) as [Hci Hl]; [by apply Forall2_take| |done|done|done|].
  { unfold cs'. rewrite <- firstn_map. by apply tiersFrom_take. }
  split; [done|]. split; [intros run; unfold ValidateTransactionScripts; by rewrite Hl|].
  eapply only_reap_checks; [exact Hnet|exact Hl|exact Hblock|exact HL|widths; lia|apply i32_id; widths; lia|].
  rewrite Ep, Ecs'. done.
Qed.

(** ** How heavy one input can be *)

Lemma refunds_single e : refunds ∅ [e] = ∅ \/ exists v, refunds ∅ [e] = {[ pkScript e := v ]}.
Proof.
  cbn [refunds foldl]. unfold addOne. destruct (_ =? 0); [by left|]. right.
  rewrite lookup_empty. eexists. apply insert_empty.
Qed.

Lemma VarIntSerializeSize_small n : 0 <= n <= 65535 -> 1 <= VarIntSerializeSize n <= 3.
Proof. intros H. unfold VarIntSerializeSize. repeat case_match; lia. Qed.

Lemma TxOutSerializeSize_small o : zlen (PkScript o) <= 10000 -> TxOutSerializeSize o <= 10011.
Proof.
  intros H. pose proof (zlen_nonneg (PkScript o)). unfold TxOutSerializeSize.
  pose proof (VarIntSerializeSize_small (zlen (PkScript o)) ltac:(lia)). lia.
Qed.

Lemma outs_single e :
  zlen (pkScript e) <= 10000 ->
  zlen (refundOutputs (refunds ∅ [e])) <= 1 /\
  0 <= sumZ (map TxOutSerializeSize (refundOutputs (refunds ∅ [e]))) <= 10011.
Proof.
  intros Hl. unfold refundOutputs. destruct (refunds_single e) as [->|[v ->]].
  - rewrite map_to_list_empty. done.
  - rewrite map_to_list_singleton. change (merge_sort out_le [(pkScript e, v)]) with [(pkScript e, v)].
    cbn [map]. rewrite sumZ_cons. change (sumZ []) with 0.
    pose proof (TxOutSerializeSize_small (mkTxOut v (pkScript e)) Hl).
    pose proof (zlen_nonneg (pkScript e)). pose proof (VarIntSerializeSize_small (zlen (pkScript e)) ltac:(lia)).
    split; [done|]. unfold TxOutSerializeSize in *. cbn [PkScript fst snd] in *. lia.
Qed.

Lemma single_weight h op e tx :
  is_i32 h -> zlen (pkScript e) <= 10000 -> reapOf h [op] [e] tx -> GetTransactionWeight tx <= 41000.
Proof.
  intros Hh Hl (script & Em & ->).
  destruct (markerScript_Ok h 1 [op] Hh ltac:(lia)) as (script' & Em' & _ & _ & Hs & _).
  assert (script' = script) as -> by (change (zlen [op]) with 1 in Em; congruence).
  destruct (outs_single e Hl) as [Hn Ho]. set (outs := refundOutputs (refunds ∅ [e])) in *.
  pose proof (zlen_nonneg outs). pose proof (zlen_nonneg script).
  pose proof (VarIntSerializeSize_small (zlen script) ltac:(lia)).
  pose proof (VarIntSerializeSize_small (zlen outs + 1) ltac:(lia)).
  assert (Hb : baseSize (blueprint h [op] [e] script) <= 10241).
  { unfold baseSize, blueprint. cbn [TxIns TxOuts packed map]. fold outs.
    rewrite zlen_app, map_app, sumZ_app, !sumZ_cons. cbn [map]. rewrite sumZ_cons. change (sumZ []) with 0.
    change (zlen [mkTxOut 0 script]) with 1.
    change (TxOutSerializeSize (mkTxOut 0 script)) with (8 + VarIntSerializeSize (zlen script) + zlen script).
    change (TxInSerializeSize (mkTxIn op [] [] 4294967294)) with 41.
    change (VarIntSerializeSize (zlen [mkTxIn op [] [] 4294967294])) with 1. lia. }
  change (GetTransactionWeight (blueprint h [op] [e] script))
    with (baseSize (blueprint h [op] [e] script) * 3 + baseSize (blueprint h [op] [e] script)). lia.
Qed.

Lemma expired_built g ep idx db u h op c :
  generator_ok g ep idx db u h -> EnableAtHeight ep <= h ->
  map_Forall (fun _ c => zlen (stxo_PkScript c) <= 10000) u -> 41000 < g_BlockMaxWeight g ->
  u !! op = Some c -> 0 < stxo_Height c -> stxo_Height c + WindowBlocks ep <= h ->
  exists tx fee, maybeBuildREAPTx g h = Ok (Some tx, fee) /\ prevOuts tx <> [].
Proof.
  intros Hg Hen Hscr Hmax Hop Hc0 Hexp. pose proof Hg as [_ Hnet Hip Hd (hash & Hix) Hu Hh _].
  destruct (indexSource_ok idx db u (h - 1) hash Hd Hix) as (L & HL).
  destruct (maybeBuildREAPTx_spec g ep idx db u h L Hg Hen HL)
    as [[E _]|(k & cs & v & es & r & Ecs & Hne & Hsh & Hin & Hst & Ht & Hbud & ->)].
  { exfalso. by apply (expired_in_canonical (g_chainParams g) ep idx u h L op c Hnet Hip Hu (so_canonical _ _ _ _ HL)). }
  destruct Hbud as (n & tx & Hn & Htx & _ & Hr).
  assert (Hone : n = 1%nat -> GetTransactionWeight tx <= 41000).
  { intros ->. destruct Hst as [|c1 e1 cs1 es1 (Hc1 & _) Hst]; [done|]. cbn [map take] in Htx. rewrite !take_0 in Htx.
    eapply single_weight; [|exact (Hscr _ _ Hc1)|exact Htx]. widths; lia. }
  pose proof (GetExpiryParams_ok _ _ Hnet) as Hok.
  pose proof (ag_weight _ _ (DefaultREAPParamsForNet_agrees _ SortModeStrict ep Hnet)) as Hwb.
  rewrite (pk_weight _ Hok) in Hwb. destruct r as [[[[tx0|] plan'] w]|e].
  - destruct Hr as (-> & _). exists tx, (TaxTotal plan'). split; [done|].
    destruct (reapOf_shape _ _ _ _ Htx) as (-> & _). intros E0.
    apply (f_equal length) in E0. rewrite length_take in E0. cbn in E0. lia.
  - destruct Hr as (H1 & _ & H2). specialize (Hone H1). lia.
  - destruct Hr as (H1 & _ & H2). specialize (Hone H1). lia.
Qed.

(** Expired coins are always collected. Once the rule is on, if a coin that
    the index holds has expired at the next height, scripts have their legal
    size and blocks may weigh more than 41,000, then [maybeBuildREAPTx] returns
    a transaction with at least one input. *)
Theorem template_reap_built g ep idx db u h op c :
  generator_ok g ep idx db u h -> EnableAtHeight ep <= h ->
  map_Forall (fun _ c => zlen (stxo_PkScript c) <= 10000) u -> 41000 < g_BlockMaxWeight g ->
  u !! op = Some c -> 0 < stxo_Height c -> stxo_Height c + WindowBlocks ep <= h ->
  exists tx fee, maybeBuildREAPTx g h = Ok (Some tx, fee) /\ prevOuts tx <> [].
Proof. apply expired_built. Qed.

(** ** What accepted REAP transactions pay *)

Definition paid (s : list Z) (outs : list TxOut) : Z :=
  sumZ (map Value (List.filter (fun o => bool_decide (PkScript o = s)) outs)).

Definition owed (s : list Z) (es : list UtxoEntry) : Z :=
  sumZ (map (fun e => refundOf (amount e)) (List.filter (fun e => bool_decide (pkScript e = s)) es)).

Definition sumValue (outs : list TxOut) : Z := sumZ (map Value outs).

(** Outputs as [CheckTransactionSanity] leaves them. *)
Definition sane_outs (outs : list TxOut) : Prop :=
  Forall (fun o => 0 <= Value o) outs /\ sumValue outs <= MaxSatoshi.

Lemma default_insert (m : refundMap) k v s :
  default 0 (<[k := v]> m !! s) = if bool_decide (k = s) then v else default 0 (m !! s).
Proof.
  destruct (bool_decide_reflect (k = s)) as [->|Hne]; [by rewrite lookup_insert_eq|by rewrite lookup_insert_ne].
Qed.

Lemma refunds_owed es m s : default 0 (refunds m es !! s) = default 0 (m !! s) + owed s es.
Proof.
  revert m; induction es as [|e es IH]; intros m; [unfold owed; cbn; lia|].
  change (refunds m (e :: es)) with (refunds (addOne m e) es). rewrite IH. unfold owed. cbn [List.filter].
  unfold addOne. destruct (Z.eqb_spec (refundOf (amount e)) 0) as [E0|].
  - destruct (bool_decide (pkScript e = s)); cbn [map]; rewrite ?sumZ_cons; lia.
  - rewrite default_insert. destruct (bool_decide_reflect (pkScript e = s)) as [->|]; cbn [map]; rewrite ?sumZ_cons; lia.
Qed.

Lemma sumValue_nonneg outs : Forall (fun o => 0 <= Value o) outs -> 0 <= sumValue outs.
Proof. unfold sumValue. induction 1; cbn [map]; rewrite ?sumZ_cons; [done|lia]. Qed.

Lemma actualRefund_paid outs m T m' T' :
  Forall (fun o => 0 <= Value o) outs -> bounded m T -> 0 <= T -> T + sumValue outs <= MaxSatoshi ->
  foldM actualRefund (m, T) outs = Ok (m', T') ->
  T' = T + sumValue outs /\ forall s, default 0 (m' !! s) = default 0 (m !! s) + paid s outs.
Proof.
  intros Ho. revert m T; induction Ho as [|o outs Hv Ho IH]; intros m T Hb HT Hle.
  { cbn [foldM]. intros [= <- <-]. unfold sumValue, paid. cbn. split; [lia|intros; lia]. }
  pose proof (sumValue_nonneg outs Ho). unfold sumValue in Hle. cbn [map] in Hle. rewrite sumZ_cons in Hle.
  fold (sumValue outs) in Hle. cbn [foldM]. unfold actualRefund at 1.
  destruct (Z.leb_spec (Value o) 0); [done|]. unfold addRefund.
  pose proof (bounded_default m T (PkScript o) Hb HT).
  rewrite !i64_id by (change MaxSatoshi with 2100000000000000 in *; widths; lia).
  intros [-> Hs]%IH; [|apply map_Forall_insert_2; [lia|apply (bounded_mono m T); [done|lia]]|lia|lia].
  split; [unfold sumValue; cbn [map]; rewrite sumZ_cons; lia|]. intros s. rewrite Hs, default_insert.
  unfold paid. cbn [List.filter]. destruct (bool_decide_reflect (PkScript o = s)) as [->|]; cbn [map]; rewrite ?sumZ_cons; lia.
Qed.

(** The amounts an accepted transaction spends. *)
Lemma checkInputAmount_inv h view net ops t T :
  foldM (checkInputAmount h view net) t ops = Ok T -> 0 <= t <= MaxSatoshi ->
  exists es, entriesOf view ops es /\ coins_ok es /\ T = t + sumAmount es /\ T <= MaxSatoshi.
Proof.
  revert t; induction ops as [|op ops IH]; intros t; cbn [foldM].
  { intros [= ->] Ht. exists []. split; [constructor|]. split; [constructor|]. unfold sumAmount, sumOf. cbn. lia. }
  unfold checkInputAmount at 1. destruct (LookupEntry view op) as [e|] eqn:El; [|done].
  destruct (IsSpent e) eqn:Es; [done|]. destruct (_ && _); [done|].
  destruct (Z.ltb_spec (amount e) 0); [done|]. destruct (Z.ltb_spec MaxSatoshi (amount e)); [done|].
  intros Hrun Ht. rewrite i64_id in Hrun by (change MaxSatoshi with 2100000000000000 in *; widths; lia).
  destruct (Z.ltb_spec (t + amount e) t); [lia|]. destruct (Z.ltb_spec MaxSatoshi (t + amount e)); [done|].
  cbn [orb] in Hrun. destruct (IH _ Hrun) as (es & Hes & Hc & -> & Hle); [lia|].
  exists (e :: es). split; [constructor; [by apply entryOf_Some|done]|].
  split; [by constructor|]. unfold sumAmount in *. rewrite sumOf_cons. lia.
Qed.

Lemma total_sane outs t :
  Forall (fun o => 0 <= Value o) outs -> 0 <= t -> t + sumValue outs <= MaxSatoshi ->
  foldl (fun t o => i64 (t + Value o)) t outs = t + sumValue outs.
Proof.
  intros Ho. revert t; induction Ho as [|o outs Hv Ho IH]; intros t Ht Hle; [unfold sumValue; cbn; lia|].
  pose proof (sumValue_nonneg outs Ho). unfold sumValue in *. cbn [map foldl] in *. rewrite sumZ_cons in *.
  rewrite i64_id by (change MaxSatoshi with 2100000000000000 in *; widths; lia). rewrite IH; lia.
Qed.

Lemma likely_outs tx :
  isLikelyReapTx tx = true -> exists script, TxOuts tx = refundOuts tx ++ [mkTxOut 0 script].
Proof.
  unfold isLikelyReapTx, refundOuts. destruct (Version tx =? reapTxVersion); [|done]. cbn [negb].
  destruct (last (TxOuts tx)) as [[v pk]|] eqn:El; [|done]. cbn [Value].
  destruct (Z.eqb_spec v 0) as [->|]; [|done]. intros _. exists pk.
  apply last_Some in El as [l ->]. rewrite length_app. cbn [length]. rewrite Nat.add_sub.
  by rewrite take_app_length.
Qed.

(** The maps agree when the tax check passes. *)
Lemma checkReapTaxRules_inv tx h view net ep es :
  GetExpiryParams net = Some ep -> EnableAtHeight ep <= h -> isLikelyReapTx tx = true ->
  entriesOf view (prevOuts tx) es -> coins_ok es -> sumAmount es <= MaxSatoshi ->
  checkReapTaxRules tx h view net = Ok tt ->
  foldM actualRefund (∅, 0) (refundOuts tx) = Ok (refunds ∅ es, sumRefund es).
Proof.
  intros Hnet Hen Hl Hes Hc Hle. unfold checkReapTaxRules. rewrite Hl, Hnet. cbn [negb].
  destruct (Z.ltb_spec h (EnableAtHeight ep)); [lia|].
  pose proof (sum_nonneg es Hc). pose proof (sum_split es).
  rewrite (expectRefund_loop view ep (GetExpiryParams_ok _ _ Hnet) _ es ∅ 0 Hes Hc (bounded_empty 0)) by lia.
  result_simpl. destruct (foldM actualRefund (∅, 0) (refundOuts tx)) as [[m T]|]; [|done]. result_simpl.
  destruct (Z.eqb_spec T (0 + sumRefund es)) as [->|]; [|done]. cbn [negb].
  destruct (Nat.eqb_spec (size m) (size (refunds ∅ es))) as [Hsz|]; [|done]. cbn [negb].
  destruct (forallb _ _) eqn:Hall; [|done]. intros _. do 2 f_equal.
  symmetry. apply map_subseteq_size_eq; [|lia]. apply map_subseteq_spec. intros s v Hs.
  rewrite forallb_forall in Hall. specialize (Hall (s, v)). cbn [fst snd] in Hall.
  apply (bool_decide_eq_true (m !! s = Some v)), Hall. apply list_elem_of_In. by apply elem_of_map_to_list.
Qed.

(** C7: a REAP transaction returns to every owner exactly what the tax rule
    leaves. If the rule is on and the transaction checks accept a REAP
    transaction with sane outputs, then all its inputs are live, what its outputs
    pay to any script is what the coins of that script are owed after tax, and
    the fee is the tax and nothing else, whoever built the transaction. *)
Theorem reap_pays_owners tx h view net ep fee :
  GetExpiryParams net = Some ep -> EnableAtHeight ep <= h ->
  isLikelyReapTx tx = true -> IsCoinBaseTx tx = false -> sane_outs (TxOuts tx) ->
  CheckTransactionInputs tx h view net = Ok fee ->
  exists es, entriesOf view (prevOuts tx) es /\ fee = sumTax es /\
    forall s, paid s (refundOuts tx) = owed s es.
Proof.
  intros Hnet Hen Hl Hcb [Hpos Hsum]. unfold CheckTransactionInputs. rewrite Hcb.
  destruct (checkReapMarker tx h); [|done]. result_simpl.
  destruct (checkExpirySpendRules tx h view net); [|done]. result_simpl.
  destruct (checkReapConsensusHardening tx h view net); [|done]. result_simpl.
  destruct (checkReapTaxRules tx h view net) as [[]|] eqn:Etax; [|done]. result_simpl.
  destruct (foldM (checkInputAmount h view net) 0 (prevOuts tx)) as [T|] eqn:Ein; [|done]. result_simpl.
  destruct (checkInputAmount_inv _ _ _ _ _ _ Ein ltac:(done)) as (es & Hes & Hc & -> & Hle).
  pose proof (checkReapTaxRules_inv tx h view net ep es Hnet Hen Hl Hes Hc ltac:(lia) Etax) as Hact.
  destruct (likely_outs tx Hl) as (script & Eo). rewrite Eo in Hpos, Hsum. apply Forall_app in Hpos as [Hpos _].
  unfold sumValue in Hsum. rewrite map_app, sumZ_app in Hsum.
  change (sumZ (map Value [mkTxOut 0 script])) with 0 in Hsum. fold (sumValue (refundOuts tx)) in Hsum.
  destruct (actualRefund_paid _ ∅ 0 _ _ Hpos (bounded_empty 0) ltac:(lia) ltac:(lia) Hact) as [ET Hs].
  unfold totalOut. rewrite Eo, foldl_app, (total_sane (refundOuts tx) 0) by (done || lia). cbn [foldl Value]. rewrite <- ET, Z.add_0_r.
  pose proof (sum_nonneg es Hc). pose proof (sum_split es). change MaxSatoshi with 2100000000000000 in *.
  rewrite (i64_id (sumRefund es)) by (widths; lia).
  destruct (0 + sumAmount es <? sumRefund es); [done|]. rewrite i64_id by (widths; lia). intros [= <-].
  exists es. split; [done|]. split; [lia|]. intros s. specialize (Hs s). rewrite refunds_owed in Hs.
  rewrite lookup_empty in Hs. change (default 0 None) with 0 in Hs. lia.
Qed.

(** ** Who may spend what *)

(** The height at which a mined coin expires, at the width of the check. *)
Definition expiryHeight (ep : ExpiryParams) (e : UtxoEntry) : Z := i32 (CalculateExpiryKey ep (blockHeight e)).

(** What the rule asks of one input. *)
Definition spend_allowed (ep : ExpiryParams) (h : Z) (isReap : bool) (e : UtxoEntry) : Prop :=
  if blockHeight e =? unminedInputHeight then isReap = false
  else isReap = (expiryHeight ep e <=? h).

Lemma checkExpirySpend_iff ep h isReap view op :
  checkExpirySpend ep h isReap view tt op = Ok tt <->
  exists e, entryOf view op = Some e /\ spend_allowed ep h isReap e.
Proof.
  unfold checkExpirySpend, entryOf, spend_allowed, expiryHeight.
  destruct (LookupEntry view op) as [e|]; cbn [mbind option_bind]; [|split; [done|by intros (? & ? & _)]].
  destruct (IsSpent e); [split; [done|by intros (? & ? & _)]|].
  assert (Hex : forall P : UtxoEntry -> Prop, (exists e', Some e = Some e' /\ P e') <-> P e).
  { intros P. split; [by intros (? & [= ->] & ?)|eauto]. }
  rewrite Hex. destruct (blockHeight e =? unminedInputHeight); [by destruct isReap|].
  destruct (i32 (CalculateExpiryKey ep (blockHeight e)) <=? h); by destruct isReap.
Qed.

(** C23: only a REAP transaction spends expired coins, and it spends nothing else.
    Once the rule is on, the expiry check accepts a transaction exactly when
    every input is live and, unless it comes from an unconfirmed parent, is
    expired at the height if and only if the transaction is a REAP transaction;
    inputs from unconfirmed parents are for other transactions only. *)
Theorem checkExpirySpendRules_iff tx h view net ep :
  GetExpiryParams net = Some ep -> EnableAtHeight ep <= h ->
  checkExpirySpendRules tx h view net = Ok tt <->
  Forall (fun op => exists e, entryOf view op = Some e /\ spend_allowed ep h (isLikelyReapTx tx) e) (prevOuts tx).
Proof.
  intros Hnet Hen. unfold checkExpirySpendRules. rewrite Hnet.
  destruct (Z.ltb_spec h (EnableAtHeight ep)); [lia|].
  induction (prevOuts tx) as [|op ops IH]; [done|]. cbn [foldM].
  rewrite Forall_cons, <- checkExpirySpend_iff.
  destruct (checkExpirySpend ep h (isLikelyReapTx tx) view tt op) as [[]|e]; [|by split; [|intros [? _]]].
  rewrite IH. tauto.
Qed.

Lemma matchPrefix_inv inputs expected :
  matchPrefix inputs expected = Ok tt -> inputs = map rpc_OutPoint (take (length inputs) expected).
Proof.
  revert expected; induction inputs as [|op inputs IH]; intros [|c expected]; try done. cbn [matchPrefix].
  destruct (bool_decide_reflect (op = rpc_OutPoint c)) as [->|]; [|done]. intros H%IH. cbn [length take map]. by f_equal.
Qed.

(** C22: a REAP transaction takes the oldest coins, in order, with no gap. Once
    the rule is on, a block whose REAP transaction passes the prefix rule against
    the index of the parent ledger spends exactly the first expired entries of
    the canonical order, as many as it has inputs, and there are that many. *)
Theorem global_prefix_enforced idx db u h hash net ep block tx i :
  disabled idx = false -> index_ok idx db u (h - 1) hash -> is_i32 h ->
  GetExpiryParams net = Some ep -> ReapConsensusAtHeight ep <= h -> findReapTx block = Some (tx, i) ->
  checkReapGlobalPrefix block h (Some (indexSource idx db)) net = Ok tt ->
  exists L, canonical (project idx u) L /\
    let E := List.filter (expiredAt h) L in
    (length (TxIns tx) <= length E)%nat /\ prevOuts tx = map rpc_OutPoint (take (length (TxIns tx)) E).
Proof.
  intros Hd Hix Hh Hnet Hen Hf. destruct (indexSource_ok idx db u (h - 1) hash Hd Hix) as (L & [Htip HL Hsrc]).
  unfold checkReapGlobalPrefix. rewrite Hnet, Hf, Htip. cbn [liftSource]. result_simpl.
  destruct (Z.ltb_spec h (ReapConsensusAtHeight ep)); [lia|].
  destruct (negb _); [done|]. intros Hchk. exists L. split; [done|]. cbv zeta.
  assert (Hlen : length (prevOuts tx) = length (TxIns tx)) by apply length_map.
  destruct (Z.eqb_spec (zlen (TxIns tx)) 0) as [E0|E0].
  { assert (length (TxIns tx) = 0)%nat as E1 by (unfold zlen in E0; lia).
    rewrite E1. split; [lia|]. by destruct (prevOuts tx); [|cbn in Hlen; lia]. }
  pose proof (zlen_nonneg (TxIns tx)). rewrite Hsrc in Hchk by (done || lia). cbn [liftSource] in Hchk.
  assert (Hz : Z.to_nat (zlen (TxIns tx)) = length (TxIns tx)) by (unfold zlen; lia). rewrite Hz in Hchk.
  set (E := List.filter (expiredAt h) L) in *. cbn [mbind result_bind] in Hchk.
  destruct (Z.ltb_spec (zlen (take (length (TxIns tx)) E)) (zlen (TxIns tx))) as [|Hge]; [done|].
  unfold zlen in Hge. rewrite length_take in Hge. split; [lia|].
  apply matchPrefix_inv in Hchk. rewrite Hlen, take_take, Nat.min_id in Hchk. done.
Qed.

(** A marker survives its script. For every height and count the payload the
    miner writes is pushed by a script that both recognisers read back, and the
    consensus parser returns the height, the count and the digest of the inputs
    that went in. *)
Theorem marker_roundtrip height count inputs :
  is_i32 height -> 0 <= count < 2^63 ->
  exists script payload,
    markerScript height count inputs = Ok script /\
    extractMarkerPayload script = Some payload /\ ExtractMarkerPayload script = Some payload /\
    parseReapMarkerPayload payload = Ok (height, count, MarkerDigest inputs).
Proof.
  intros Hh Hc. destruct (markerScript_Ok height count inputs Hh Hc) as (script & H1 & H2 & H3 & _).
  exists script, (markerPayload height count inputs). split; [done|]. split; [done|]. split; [done|].
  by apply parse_markerPayload.
Qed.

(** C38: fitting the budget ends, with the longest prefix that fits. For inputs
    that are live with sane amounts, [BuildBudgetedBlueprint] ends without
    running out of steps; it returns the REAP transaction of the longest prefix
    of the inputs that is within the weight budget and the block limit, with its
    weight and its tax, or gives up only when a single input is already too
    heavy. *)
Theorem BuildBudgetedBlueprint_longest net ep mode view h plan es maxTxWeight :
  GetExpiryParams net = Some ep -> inputs_ok view h (Inputs plan) es -> PlanHeight plan = h ->
  Inputs plan <> [] ->
  let p := DefaultREAPParamsForNet net mode in
  budgeted p h maxTxWeight (Inputs plan) es (BuildBudgetedBlueprint plan (Some view) p maxTxWeight).
Proof.
  intros Hnet Hin Hh Hne p. unfold BuildBudgetedBlueprint. destruct (Inputs plan) as [|op ops] eqn:E; [done|].
  rewrite <- E in *. eapply budgetLoop_spec; [by eapply GetExpiryParams_ok|by apply DefaultREAPParamsForNet_agrees|done|done|].
  rewrite E. cbn [length]. lia.
Qed.

(** ** Where the code falls short *)

(** A transaction that pays the inputs to one script, with a marker. *)
Definition seize (ops : list OutPoint) (value : Z) (to script : list Z) : MsgTx :=
  mkMsgTx reapTxVersion (packed ops) [mkTxOut value to; mkTxOut 0 script] 0.

Lemma rules_off net h :
  (forall ep, GetExpiryParams net = Some ep -> h < EnableAtHeight ep) ->
  forall tx view, checkExpirySpendRules tx h view net = Ok tt /\
    checkReapConsensusHardening tx h view net = Ok tt /\ checkReapTaxRules tx h view net = Ok tt.
Proof.
  intros Hoff tx view. unfold checkExpirySpendRules, checkReapConsensusHardening, checkReapTaxRules.
  destruct (GetExpiryParams net) as [ep|] eqn:E; [|by destruct (isLikelyReapTx tx)].
  specialize (Hoff ep eq_refl). pose proof (pk_enable _ (GetExpiryParams_ok _ _ E)).
  destruct (Z.ltb_spec h (EnableAtHeight ep)); [|lia].
  destruct (Z.ltb_spec h (ReapConsensusAtHeight ep)); [|lia]. by destruct (isLikelyReapTx tx).
Qed.

(** C40: before the rules are on, a marker alone unlocks any coin. On every network
    without expiry parameters, and below the activation height on the others,
    any live mature coins can be spent to any script by a transaction that passes
    the transaction checks with no fee and whose inputs' scripts are never run,
    whatever the script engine would say of them. *)
Theorem marker_skips_scripts_before_activation net h view ops es to :
  (forall ep, GetExpiryParams net = Some ep -> h < EnableAtHeight ep) ->
  inputs_ok view h ops es -> nullOutPoint ∉ ops ->
  Forall (fun e => immature net h e = false) es ->
  exists script, let tx := seize ops (sumAmount es) to script in
    CheckTransactionInputs tx h view net = Ok 0 /\
    forall run, ValidateTransactionScripts run tx = Ok tt.
Proof.
  intros Hoff [Hes Hc Hle Hh Hn] Hnull Him.
  destruct (markerScript_Ok h (zlen ops) ops Hh) as (script & Em & _); [split; [apply zlen_nonneg|done]|].
  exists script. intros tx.
  assert (Hm : marked h ops tx) by (split; [apply prevOuts_packed|]; split; [done|by exists script]).
  destruct (marked_likely h ops tx Hh Hn Hm) as (Hl & _ & Hmark).
  split; [|intros run; unfold ValidateTransactionScripts; by rewrite Hl].
  unfold CheckTransactionInputs. rewrite Hmark. destruct (rules_off net h Hoff tx view) as (-> & -> & ->).
  result_simpl. assert (IsCoinBaseTx tx = false) as ->.
  { unfold tx, seize. apply (reapOf_not_coinbase h ops es (blueprint h ops es script)); [by exists script|done]. }
  destruct Hm as (-> & _). rewrite (checkInputAmount_loop view net h ops es 0) by (done || lia). result_simpl.
  unfold tx, seize, totalOut. cbn [TxOuts foldl Value].
  pose proof (sum_nonneg es Hc). pose proof (sum_split es). change MaxSatoshi with 2100000000000000 in *.
  rewrite !Z.add_0_l, !Z.add_0_r, !(i64_id (sumAmount es)) by (widths; lia).
  destruct (Z.ltb_spec (sumAmount es) (sumAmount es)); [lia|]. by rewrite Z.sub_diag.
Qed.

Definition bareMarker : list Z := 7 :: string_bytes "REAP:0:".

(** The mempool's recogniser is narrower than the consensus one. Everything
    the mempool refuses as a REAP transaction consensus treats as one, but a
    transaction whose marker is a bare push, with no OP_RETURN in front, is a
    REAP transaction for consensus and an ordinary one for the mempool. *)
Theorem recognisers_differ :
  (forall tx, IsLikelyREAPTx tx = true -> isLikelyReapTx tx = true) /\
  exists tx, isLikelyReapTx tx = true /\ IsLikelyREAPTx tx = false.
Proof.
  split.
  - intros tx. unfold IsLikelyREAPTx, isLikelyReapTx. destruct (negb _); [done|].
    destruct (last (TxOuts tx)) as [o|]; [|done]. destruct (negb _); [done|].
    unfold ExtractMarkerPayload, extractMarkerPayload. destruct (PkScript o) as [|op s]; [done|].
    destruct (negb _); [done|]. by destruct (PushedData (op :: s)) as [[|d ds]|].
  - exists (mkMsgTx 3 [] [mkTxOut 0 bareMarker] 0). split; vm_compute; reflexivity.
Qed.

(** ** Witnesses: the first coin of the sample chain at the activation height *)

Definition sampleHeight : Z := 1002016.
Definition sampleEntry : UtxoEntry := mkUtxoEntry 5000000000 [81] 1 tfCoinBase.
Definition coinView : UtxoViewpoint := mkUtxoViewpoint {[ sampleOp1 := sampleEntry ]} zeroHash.
Definition sampleEp : ExpiryParams :=
  Build_ExpiryParams 362880 10000 0 1002016 1002016 ObtcMainNetFirstBlockHeight 256 1024 400000 30 100 720 1002016.

Lemma sampleEp_eq : GetExpiryParams ObtcMainNetParams = Some sampleEp.
Proof. reflexivity. Qed.

Lemma coinView_live : live coinView = sampleU1.
Proof. unfold live, coinView, sampleU1. cbn [entries]. apply omap_singleton_Some. reflexivity. Qed.

Lemma coinView_entry : entriesOf coinView [sampleOp1] [sampleEntry].
Proof.
  constructor; [|constructor]. apply entryOf_Some. split; [apply lookup_singleton_eq|reflexivity].
Qed.

Lemma sampleU1_ok : ledger_ok sampleU1.
Proof.
  split.
  - apply map_Forall_singleton. split; [by vm_compute|]. split; [done|]. intros E.
    apply (f_equal Index) in E. vm_compute in E. done.
  - unfold supply, sampleU1. rewrite map_to_list_singleton. by vm_compute.
Qed.

Lemma sample_index_late :
  exists db hash, index_ok sampleIdx db sampleU1 (sampleHeight - 1) hash.
Proof.
  destruct (fastRebuild_spec sampleIdx
    (mkChainAccessor 0 (fun _ => Ok sampleBlock1) (fun _ => Ok []) (map utxoRow [(sampleOp1, sampleCoin1)]) None)
    sampleDB [(sampleOp1, sampleCoin1)] sampleU1 (sampleHeight - 1) sampleBlock1)
    as (db & _ & H); [exact sampleDB_created|reflexivity|reflexivity| |exact sample_goodU1|by vm_compute|by vm_compute|reflexivity|].
  - unfold sampleU1. by rewrite map_to_list_singleton.
  - by exists db, (Block_Hash sampleBlock1).
Qed.

Definition sampleGenerator (db : IndexDB) : BlkTmplGenerator :=
  mkGenerator (Some (sampleIdx, db)) ObtcMainNetParams (fun _ => Some coinView) 3000000.

Lemma sampleGenerator_ok db hash :
  index_ok sampleIdx db sampleU1 (sampleHeight - 1) hash ->
  generator_ok (sampleGenerator db) sampleEp sampleIdx db sampleU1 sampleHeight.
Proof.
  intros H. split; [reflexivity|reflexivity|reflexivity|reflexivity|by exists hash|exact sampleU1_ok|by vm_compute|].
  intros ops. exists coinView. split; [reflexivity|]. intros op _. by rewrite coinView_live.
Qed.

Lemma sampleU1_lookup : sampleU1 !! sampleOp1 = Some sampleCoin1.
Proof. apply lookup_singleton_eq. Qed.

Lemma sampleU1_scripts : map_Forall (fun _ c => zlen (stxo_PkScript c) <= 10000) sampleU1.
Proof. apply map_Forall_singleton. by vm_compute. Qed.

Lemma sample_built db hash :
  index_ok sampleIdx db sampleU1 (sampleHeight - 1) hash ->
  exists tx fee, maybeBuildREAPTx (sampleGenerator db) sampleHeight = Ok (Some tx, fee) /\ prevOuts tx <> [].
Proof.
  intros H. apply (expired_built (sampleGenerator db) sampleEp sampleIdx db sampleU1 sampleHeight sampleOp1 sampleCoin1
    (sampleGenerator_ok db hash H)); [by vm_compute|exact sampleU1_scripts|by vm_compute|exact sampleU1_lookup
    |by vm_compute|by vm_compute].
Qed.

Lemma template_reap_built_witness :
  exists db tx fee, maybeBuildREAPTx (sampleGenerator db) sampleHeight = Ok (Some tx, fee) /\ prevOuts tx <> [].
Proof.
  destruct sample_index_late as (db & hash & H). exists db.
  apply (template_reap_built (sampleGenerator db) sampleEp sampleIdx db sampleU1 sampleHeight sampleOp1 sampleCoin1
    (sampleGenerator_ok db hash H)).
  - vm_compute; discriminate.
  - exact sampleU1_scripts.
  - reflexivity.
  - exact sampleU1_lookup.
  - reflexivity.
  - vm_compute; discriminate.
Defined.

Lemma template_reap_accepted_witness :
  exists db tx fee, maybeBuildREAPTx (sampleGenerator db) sampleHeight = Ok (Some tx, fee) /\
    CheckTransactionInputs tx sampleHeight coinView ObtcMainNetParams = Ok fee.
Proof.
  destruct sample_index_late as (db & hash & H). destruct (sample_built db hash H) as (tx & fee & Hb & _).
  exists db, tx, fee. split; [exact Hb|].
  refine (proj1 (template_reap_accepted (sampleGenerator db) sampleEp sampleIdx db sampleU1 sampleHeight tx fee coinView
    (mkBlock sampleHeight sampleHeader [sampleCb 9 []; tx]) (sampleGenerator_ok db hash H) _ Hb _ _)).
  - vm_compute; split; discriminate.
  - intros op _. rewrite coinView_live. reflexivity.
  - exists (sampleCb 9 []), [], []. split; [reflexivity|constructor].
Defined.

Lemma sample_inputs_ok h : is_i32 h -> inputs_ok coinView h [sampleOp1] [sampleEntry].
Proof. intros H. split; [exact coinView_entry|by repeat constructor|by vm_compute|done|done]. Qed.

(** The REAP transaction of that coin. *)
Lemma sample_reap : exists tx, reapOf sampleHeight [sampleOp1] [sampleEntry] tx.
Proof.
  destruct (markerScript_Ok sampleHeight 1 [sampleOp1]) as (script & Em & _); [by vm_compute|by vm_compute|].
  eexists. exists script. split; [exact Em|reflexivity].
Qed.

Lemma sampleOp1_not_null : nullOutPoint ∉ [sampleOp1].
Proof. intros H%list_elem_of_singleton. apply (f_equal Index) in H. vm_compute in H. done. Qed.

Lemma sample_reap_checked tx :
  reapOf sampleHeight [sampleOp1] [sampleEntry] tx ->
  isLikelyReapTx tx = true /\ IsCoinBaseTx tx = false /\
  CheckTransactionInputs tx sampleHeight coinView ObtcMainNetParams = Ok 1500000000.
Proof.
  intros Htx. pose proof (sample_inputs_ok sampleHeight ltac:(by vm_compute)) as Hin.
  split; [eapply reapOf_likely; [apply Hin..|exact Htx]|].
  split; [eapply reapOf_not_coinbase; [exact Htx|exact sampleOp1_not_null]|].
  apply (CheckTransactionInputs_reapOf coinView ObtcMainNetParams sampleEp sampleHeight sampleEp_eq
    [sampleOp1] [sampleEntry] tx Hin Htx sampleOp1_not_null).
  - by vm_compute.
  - repeat constructor.
  - pose proof (single_weight sampleHeight sampleOp1 sampleEntry tx ltac:(by vm_compute) ltac:(by vm_compute) Htx).
    change (ReapMaxWeight sampleEp) with 400000. lia.
  - repeat constructor; by vm_compute.
  - by vm_compute.
Qed.

Lemma sample_sane tx : reapOf sampleHeight [sampleOp1] [sampleEntry] tx -> sane_outs (TxOuts tx).
Proof.
  intros (script & _ & ->). unfold blueprint. cbn [TxOuts]. split.
  - apply Forall_app. split; [|by repeat constructor]. by vm_compute; repeat constructor.
  - unfold sumValue. rewrite map_app, sumZ_app. by vm_compute.
Qed.

Lemma reap_pays_owners_witness :
  exists tx es, CheckTransactionInputs tx sampleHeight coinView ObtcMainNetParams = Ok 1500000000 /\
    entriesOf coinView (prevOuts tx) es /\ 1500000000 = sumTax es /\
    paid [81] (refundOuts tx) = owed [81] es.
Proof.
  destruct sample_reap as [tx Htx]. destruct (sample_reap_checked tx Htx) as (H1 & H2 & H3).
  destruct (reap_pays_owners tx sampleHeight coinView ObtcMainNetParams sampleEp 1500000000) as (es & E1 & E2 & E3).
  - exact sampleEp_eq.
  - vm_compute; discriminate.
  - exact H1.
  - exact H2.
  - exact (sample_sane tx Htx).
  - exact H3.
  - exists tx, es. split; [exact H3|]. split; [exact E1|]. split; [exact E2|exact (E3 [81])].
Defined.

Lemma checkExpirySpendRules_iff_witness :
  checkExpirySpendRules (mkMsgTx 2 (packed [sampleOp1]) [] 0) sampleHeight coinView ObtcMainNetParams <> Ok tt.
Proof.
  intros H. apply (checkExpirySpendRules_iff _ _ _ _ sampleEp) in H.
  - apply Forall_cons_1 in H as [(e & He & Ha) _].
    pose proof (Forall2_cons_1 _ _ _ _ _ coinView_entry) as [Hs _]. cbn [packed map PreviousOutPoint] in He.
    rewrite Hs in He. injection He as <-. discriminate Ha.
  - exact sampleEp_eq.
  - vm_compute; discriminate.
Defined.

Lemma sample_canonical L :
  canonical (project sampleIdx sampleU1) L -> L = [mkReapPrefixCandidate sampleOp1 362881 5000000000].
Proof.
  intros [HP _]. unfold project, sampleU1 in HP.
  rewrite (omap_singleton_Some _ _ _ (362881, 5000000000)), map_to_list_singleton in HP by reflexivity.
  by apply Permutation_singleton_r in HP.
Qed.

Lemma global_prefix_enforced_witness :
  exists tx L, canonical (project sampleIdx sampleU1) L /\
    prevOuts tx = map rpc_OutPoint (take (length (TxIns tx)) (List.filter (expiredAt sampleHeight) L)).
Proof.
  destruct sample_index_late as (db & hash & Hix). destruct sample_reap as [tx Htx].
  destruct (sample_reap_checked tx Htx) as (H1 & _ & _). destruct (reapOf_shape _ _ _ _ Htx) as (Ep & _).
  pose (block := mkBlock sampleHeight sampleHeader [sampleCb 9 []; tx]).
  assert (Hf : findReapTx block = Some (tx, 1%nat)).
  { unfold findReapTx, block. cbn [Transactions drop findReapFrom]. rewrite H1. reflexivity. }
  destruct (indexSource_ok sampleIdx db sampleU1 (sampleHeight - 1) hash eq_refl Hix) as (L0 & HL0).
  assert (Hchk : checkReapGlobalPrefix block sampleHeight (Some (indexSource sampleIdx db)) ObtcMainNetParams = Ok tt).
  { refine (proj2 (only_reap_checks block tx _ _ _ L0 sampleHeight ObtcMainNetParams sampleEp 1 sampleEp_eq H1 _ HL0 _ _ _)).
    - exists (sampleCb 9 []), [], []. split; [reflexivity|constructor].
    - vm_compute; split; [discriminate|reflexivity].
    - reflexivity.
    - rewrite Ep, (sample_canonical L0 (so_canonical _ _ _ _ HL0)). reflexivity. }
  destruct (global_prefix_enforced sampleIdx db sampleU1 sampleHeight hash ObtcMainNetParams sampleEp block tx 1%nat
    eq_refl Hix ltac:(vm_compute; split; [discriminate|reflexivity]) sampleEp_eq ltac:(vm_compute; discriminate) Hf Hchk)
    as (L & HL & _ & E).
  exists tx, L. split; [exact HL|exact E].
Defined.

Lemma marker_roundtrip_witness :
  exists script payload, markerScript (-5) 3 [sampleOp1] = Ok script /\
    extractMarkerPayload script = Some payload /\ ExtractMarkerPayload script = Some payload /\
    parseReapMarkerPayload payload = Ok (-5, 3, MarkerDigest [sampleOp1]).
Proof.
  apply (marker_roundtrip (-5) 3 [sampleOp1]).
  - vm_compute; split; [discriminate|reflexivity].
  - vm_compute; split; [discriminate|reflexivity].
Defined.

Lemma BuildBudgetedBlueprint_longest_witness :
  budgeted (DefaultREAPParamsForNet ObtcMainNetParams SortModeStrict) sampleHeight 3000000 [sampleOp1] [sampleEntry]
    (BuildBudgetedBlueprint (mkREAPPlan [sampleOp1] 0 0 sampleHeight (mkREAPStats 1 1 0 0)) (Some coinView)
       (DefaultREAPParamsForNet ObtcMainNetParams SortModeStrict) 3000000).
Proof.
  apply (BuildBudgetedBlueprint_longest ObtcMainNetParams sampleEp SortModeStrict coinView sampleHeight
    (mkREAPPlan [sampleOp1] 0 0 sampleHeight (mkREAPStats 1 1 0 0)) [sampleEntry] 3000000).
  - exact sampleEp_eq.
  - apply sample_inputs_ok. vm_compute; split; [discriminate|reflexivity].
  - reflexivity.
  - discriminate.
Defined.

Lemma marker_skips_scripts_before_activation_witness :
  exists script, CheckTransactionInputs (seize [sampleOp1] 5000000000 [99] script) 1000000 coinView ObtcMainNetParams
                 = Ok 0.
Proof.
  destruct (marker_skips_scripts_before_activation ObtcMainNetParams 1000000 coinView [sampleOp1] [sampleEntry] [99])
    as (script & H & _).
  - intros ep Hep. rewrite sampleEp_eq in Hep. injection Hep as <-. reflexivity.
  - apply sample_inputs_ok. vm_compute; split; [discriminate|reflexivity].
  - exact sampleOp1_not_null.
  - repeat constructor.
  - exists script. exact H.
Defined.
