(* ===== verification/ReapScan.v ===== *)
(** * Scanning page by page

    The page loops over [ScanExpiringUTXOs] see every expired entry once, and the
    plan the dry run makes from a scan is the plan the block template makes from
    the global prefix. *)

From Stdlib Require Import Permutation Sorted.
From S2P Require Import Prelude ChainParams Sha256 Wire Encode MuHash Commitment Script Block Bucket IndexDB Ledger UtxoView ExpiryIndex IndexRefine IndexRebuild IndexQuery Text ReapRules Reap Template ReapAgree ReapProps IndexProps.

(** ** Continuing after a row *)

Definition wf_row (x : ExpiringUTXO) : Prop := wf_outpoint (eu_OutPoint x) /\ is_u64 (eu_ExpiryKey x).

Lemma compareOutPoint_antisym a b :
  wf_outpoint a -> wf_outpoint b -> compareOutPoint b a = CompOpp (compareOutPoint a b).
Proof. intros. rewrite !compareOutPoint_spec by done. apply bytes_compare_antisym. Qed.

Lemma compareScan_antisym x y :
  wf_row x -> wf_row y ->
  compareScan (eu_ExpiryKey y) (eu_OutPoint y) (eu_ExpiryKey x) (eu_OutPoint x)
  = CompOpp (compareScan (eu_ExpiryKey x) (eu_OutPoint x) (eu_ExpiryKey y) (eu_OutPoint y)).
Proof.
  intros [Hx _] [Hy _]. unfold compareScan. rewrite (Z.compare_antisym (eu_ExpiryKey x)).
  rewrite (compareOutPoint_antisym (eu_OutPoint x)) by done. by destruct (eu_ExpiryKey x ?= eu_ExpiryKey y).
Qed.

Lemma compareScan_refl x :
  wf_row x -> compareScan (eu_ExpiryKey x) (eu_OutPoint x) (eu_ExpiryKey x) (eu_OutPoint x) = Eq.
Proof.
  intros [Hx _]. unfold compareScan. rewrite Z.compare_refl. cbn [lex].
  rewrite compareOutPoint_spec by done. apply bytes_compare_refl.
Qed.

(** In sorted rows, what comes after a row is the rest of the list. *)
Lemma filter_after A x B :
  StronglySorted scanLt (A ++ x :: B) -> Forall wf_row (A ++ x :: B) ->
  List.filter (scanFrom (eu_ExpiryKey x) (Some (eu_OutPoint x))) (A ++ x :: B) = B.
Proof.
  intros Hs Hwf. rewrite List.filter_app. apply Forall_app in Hwf as [HA [Hx HB]%Forall_cons_1].
  assert (List.filter (scanFrom (eu_ExpiryKey x) (Some (eu_OutPoint x))) A = []) as ->.
  { clear HB HA Hx. induction A as [|a A IH]; [done|]. cbn [app] in Hs. apply StronglySorted_inv in Hs as [Hs Ha].
    cbn [List.filter]. rewrite Forall_app, Forall_cons in Ha. destruct Ha as (_ & Ha & _).
    unfold scanFrom at 1. unfold scanLt in Ha. rewrite Ha. by apply IH. }
  cbn [app List.filter]. unfold scanFrom at 1. rewrite compareScan_refl by done.
  apply filter_all, Forall_forall. intros b Hb. unfold scanFrom.
  assert (Hlt : scanLt x b).
  { clear -Hs Hb. induction A as [|a A IH]; cbn [app] in Hs; apply StronglySorted_inv in Hs as [Hs Ha]; [|by apply IH].
    by apply (proj1 (Forall_forall _ _) Ha). }
  rewrite (compareScan_antisym x b); [|done|by apply (proj1 (Forall_forall _ _) HB)].
  unfold scanLt in Hlt. by rewrite Hlt.
Qed.

(** ** The page loops over a lawful scanner *)

(** The rows up to a key, and the law of the scanner. *)
Definition upTo (toKey : Z) (L : list ExpiringUTXO) : list ExpiringUTXO := List.filter (scanUpTo toKey) L.

Definition scanner_ok (scanner : expiringScanner) (L : list ExpiringUTXO) : Prop :=
  StronglySorted scanLt L /\ Forall wf_row L /\
  forall fromKey toKey maxResults startAfter,
    is_u64 fromKey -> 0 < maxResults -> (forall op, startAfter = Some op -> wf_outpoint op) ->
    let R := List.filter (scanRange fromKey toKey startAfter) L in
    scanner fromKey toKey maxResults startAfter = Ok (take (Z.to_nat maxResults) R, maxResults <? zlen R).

(** The index is one. *)
Lemma index_scanner_ok idx db m :
  disabled idx = false -> represents db m ->
  exists L, scanner_ok (ScanExpiringUTXOs idx db) L /\ scanOrder m L.
Proof.
  intros Hd Hrep. destruct (ScanExpiringUTXOs_spec idx db m Hd Hrep) as (L & [HP Hs] & Hscan).
  exists L. split; [|done]. split; [done|]. split; [|done].
  rewrite HP. apply Forall_forall. intros x Hx%list_elem_of_fmap.
  destruct Hx as ([op ea] & -> & Hin%elem_of_map_to_list). destruct Hrep as [Hwf _ _ _ _].
  destruct (Hwf _ _ Hin) as (H1 & H2 & _). by split.
Qed.

Section pages.
Context (scanner : expiringScanner) (L : list ExpiringUTXO) (Hscan : scanner_ok scanner L).
Context (batch toKey : Z) (Hbatch : 0 < batch).

(** A place in the scan: what is left from it. *)
Definition at_place (fromKey : Z) (startAfter : option OutPoint) (R : list ExpiringUTXO) : Prop :=
  is_u64 fromKey /\ (forall op, startAfter = Some op -> wf_outpoint op) /\
  List.filter (scanRange fromKey toKey startAfter) L = R /\ exists D, upTo toKey L = D ++ R.

Lemma at_start : at_place 0 None (upTo toKey L).
Proof.
  split; [done|]. split; [done|]. split; [|by exists []].
  apply filter_eq. destruct Hscan as (_ & Hwf & _). eapply Forall_impl; [exact Hwf|].
  intros x [_ Hx]. unfold scanRange, scanFrom. widths. by destruct (Z.leb_spec 0 (eu_ExpiryKey x)); [|lia].
Qed.

(** The place after a page that is not the last. *)
Lemma at_next fromKey startAfter R x :
  at_place fromKey startAfter R -> batch < zlen R -> last (take (Z.to_nat batch) R) = Some x ->
  at_place (eu_ExpiryKey x) (Some (eu_OutPoint x)) (drop (Z.to_nat batch) R).
Proof.
  intros (_ & _ & _ & D & HD) Hlen Hx. destruct Hscan as (Hs & Hwf & _).
  apply last_Some in Hx as [P HP].
  assert (HU : upTo toKey L = (D ++ P) ++ x :: drop (Z.to_nat batch) R).
  { rewrite HD, <- (take_drop (Z.to_nat batch) R) at 1. rewrite HP. by rewrite <- !app_assoc. }
  assert (Hwfu : Forall wf_row (upTo toKey L)) by (by apply Forall_filter_B).
  assert (Hsu : StronglySorted scanLt (upTo toKey L)) by (by apply StronglySorted_filter).
  rewrite HU in Hwfu, Hsu. pose proof (filter_after _ _ _ Hsu Hwfu) as Hafter. rewrite <- HU in Hafter.
  apply Forall_app in Hwfu as [_ [[Hx1 Hx2] _]%Forall_cons_1].
  split; [done|]. split; [by intros op [= <-]|]. split.
  - rewrite <- Hafter. unfold upTo. rewrite filter_filter. apply filter_eq, Forall_forall. intros y _.
    unfold scanRange. apply andb_comm.
  - exists ((D ++ P) ++ [x]). by rewrite <- app_assoc.
Qed.

Lemma page fromKey startAfter R :
  at_place fromKey startAfter R ->
  scanner fromKey toKey batch startAfter = Ok (take (Z.to_nat batch) R, batch <? zlen R).
Proof.
  intros (Hf & Ha & <- & _). destruct Hscan as (_ & _ & Hlaw). by apply Hlaw.
Qed.

Lemma page_last (R : list ExpiringUTXO) : last (take (Z.to_nat batch) R) = None -> R = [].
Proof. intros H%last_None. destruct R as [|x R]; [done|]. destruct (Z.to_nat batch) eqn:E; [lia|done]. Qed.

Lemma liveRows_app view l1 l2 : liveRows view (l1 ++ l2) = liveRows view l1 ++ liveRows view l2.
Proof. apply omap_app. Qed.

Lemma scanPages_spec fuel view fromKey startAfter R n all :
  at_place fromKey startAfter R -> (length R < fuel)%nat ->
  exists n', scanPages fuel Background scanner view batch fromKey toKey startAfter n all
             = Ok (all ++ liveRows view R, n').
Proof.
  revert fromKey startAfter R n all; induction fuel as [|fuel IH]; intros from after R n all Hp Hf; [lia|].
  cbn [scanPages]. unfold Background at 1. rewrite (page _ _ _ Hp).
  destruct (last (take (Z.to_nat batch) R)) as [x|] eqn:Ex.
  - destruct (Z.ltb_spec batch (zlen R)) as [Hm|Hm]; cbn [negb].
    + destruct (IH _ _ _ (S n) (all ++ liveRows view (take (Z.to_nat batch) R)) (at_next _ _ _ _ Hp Hm Ex))
        as (n' & ->); [rewrite length_drop; unfold zlen in Hm; lia|].
      exists n'. by rewrite <- app_assoc, <- liveRows_app, take_drop.
    + eexists. rewrite take_ge by (unfold zlen in Hm; lia). done.
  - apply page_last in Ex as ->. eexists. by rewrite take_nil.
Qed.

Lemma collectLoop_spec fuel maxCandidates fromKey startAfter R out :
  at_place fromKey startAfter R -> (length R < fuel)%nat -> zlen out <= maxCandidates ->
  collectLoop fuel scanner batch maxCandidates fromKey toKey startAfter out
  = Ok (out ++ take (Z.to_nat (maxCandidates - zlen out)) (map eu_OutPoint R)).
Proof.
  revert fromKey startAfter R out; induction fuel as [|fuel IH]; intros from after R out Hp Hf Hle; [lia|].
  cbn [collectLoop]. destruct (Z.leb_spec maxCandidates (zlen out)).
  { replace (Z.to_nat (maxCandidates - zlen out)) with 0%nat by lia. by rewrite take_0, app_nil_r. }
  rewrite (page _ _ _ Hp). destruct (last (take (Z.to_nat batch) R)) as [x|] eqn:Ex.
  - set (room := Z.to_nat (maxCandidates - zlen out)).
    destruct (Z.ltb_spec batch (zlen R)) as [Hm|Hm]; cbn [negb].
    + assert (Hz : zlen (out ++ take room (map eu_OutPoint (take (Z.to_nat batch) R)))
                   = zlen out + Z.of_nat (room `min` Z.to_nat batch)).
      { rewrite zlen_app. unfold zlen at 2. rewrite length_take, length_map, length_take. unfold zlen in Hm. lia. }
      rewrite (IH _ _ _ _ (at_next _ _ _ _ Hp Hm Ex)); [|rewrite length_drop; unfold zlen in Hm; lia|lia].
      rewrite Hz, <- app_assoc. do 2 f_equal. rewrite <- (take_drop (Z.to_nat batch) R) at 3.
      rewrite map_app, take_app. f_equal. rewrite length_map, length_take. f_equal. unfold zlen in Hm. lia.
    + rewrite (take_ge R) by (unfold zlen in Hm; lia). done.
  - apply page_last in Ex as ->. cbn [map]. by rewrite take_nil, app_nil_r.
Qed.
End pages.

(** ** Sorting candidates gives the canonical order *)

Definition candOfPrefix (c : ReapPrefixCandidate) : candidate :=
  mkCandidate (rpc_OutPoint c) (rpc_ExpiryKey c) (rpc_Amount c).

(** The strict comparator as one lexicographic comparison. *)
Definition sortKey (c : candidate) : list Z := c_expiry c :: c_amount c :: Hash (c_op c).

Lemma compareCandidate_key a b :
  compareCandidate SortModeStrict a b
  = lex (bytes_compare (sortKey a) (sortKey b)) (Index (c_op a) ?= Index (c_op b)).
Proof.
  unfold compareCandidate, sortKey. cbn [bytes_compare].
  destruct (Z.eqb_spec (c_expiry a) (c_expiry b)) as [->|He]; cbn [negb].
  2: { destruct (Z.ltb_spec (c_expiry a) (c_expiry b)), (Z.compare_spec (c_expiry a) (c_expiry b)); try lia; done. }
  rewrite Z.compare_refl. cbn [andb].
  destruct (Z.eqb_spec (c_amount a) (c_amount b)) as [->|Ha]; cbn [negb].
  2: { destruct (Z.ltb_spec (c_amount a) (c_amount b)), (Z.compare_spec (c_amount a) (c_amount b)); try lia; done. }
  rewrite Z.compare_refl. apply lex_compare_Z.
Qed.

#[local] Instance candidate_le_antisym : AntiSymm (=) (candidate_le SortModeStrict).
Proof.
  intros a b. unfold candidate_le. rewrite !compareCandidate_key.
  rewrite (bytes_compare_antisym (sortKey a)), (Z.compare_antisym (Index (c_op a))).
  destruct (bytes_compare (sortKey a) (sortKey b)) eqn:E; cbn [lex CompOpp]; [|done|done].
  destruct (Z.compare_spec (Index (c_op a)) (Index (c_op b))) as [Ei| |]; cbn [CompOpp]; [|done|done]. intros _ _.
  apply bytes_compare_eq in E. unfold sortKey in E. destruct a as [[ha ia] ea aa], b as [[hb ib] eb ab]. cbn in *.
  congruence.
Qed.

#[local] Instance candidate_le_trans : Transitive (candidate_le SortModeStrict).
Proof.
  intros a b c. unfold candidate_le. rewrite !compareCandidate_key.
  destruct (bytes_compare (sortKey a) (sortKey b)) eqn:E1; [| |done].
  - apply bytes_compare_eq in E1 as ->. cbn [lex].
    destruct (bytes_compare (sortKey b) (sortKey c)); cbn [lex]; try done.
    destruct (Z.compare_spec (Index (c_op a)) (Index (c_op b))), (Z.compare_spec (Index (c_op b)) (Index (c_op c))),
      (Z.compare_spec (Index (c_op a)) (Index (c_op c))); try done; lia.
  - intros _ H2. assert (Hle : bytes_compare (sortKey b) (sortKey c) <> Gt)
      by (by destruct (bytes_compare (sortKey b) (sortKey c))).
    pose proof (bytes_compare_trans (sortKey a) (sortKey b) (sortKey c) ltac:(by rewrite E1) Hle) as H3.
    destruct (bytes_compare (sortKey a) (sortKey c)) eqn:E3; [|done|done]. exfalso. apply bytes_compare_eq in E3.
    rewrite <- E3 in Hle. by rewrite bytes_compare_antisym, E1 in Hle.
Qed.

#[local] Instance candidate_le_total : Total (candidate_le SortModeStrict).
Proof.
  intros a b. unfold candidate_le. rewrite !compareCandidate_key.
  rewrite (bytes_compare_antisym (sortKey a)), (Z.compare_antisym (Index (c_op a))).
  destruct (bytes_compare (sortKey a) (sortKey b)); cbn [lex CompOpp]; [|by left|by right].
  destruct (Index (c_op a) ?= Index (c_op b)); cbn [CompOpp]; [by left|by left|by right].
Qed.

Lemma sortCandidates_canonical all P :
  all ≡ₚ map candOfPrefix P ->
  StronglySorted (fun c d => compareReapInputOrderKey (candKey c) (candKey d) = Lt) P ->
  sortCandidates all SortModeStrict = map candOfPrefix P.
Proof.
  intros HP Hs. unfold sortCandidates. apply (Sorted_unique (candidate_le SortModeStrict)).
  - apply Sorted_merge_sort. apply _.
  - apply StronglySorted_Sorted, StronglySorted_map. clear HP.
    induction Hs as [|c P Hs IH Hc]; constructor; [done|]. eapply Forall_impl; [exact Hc|].
    intros d Hd. unfold candidate_le. change (compareCandidate SortModeStrict (candOfPrefix c) (candOfPrefix d))
      with (compareReapInputOrderKey (candKey c) (candKey d)). by rewrite Hd.
  - by rewrite merge_sort_Permutation.
Qed.

(** ** What a scan over a view yields *)

Lemma Permutation_filter_B {A} (P : A -> bool) l l' : l ≡ₚ l' -> List.filter P l ≡ₚ List.filter P l'.
Proof.
  induction 1 as [|x l l' _ IH|x y l|l l' l'' _ IH1 _ IH2]; cbn [List.filter]; [done| | |by rewrite IH1].
  - destruct (P x); by rewrite IH.
  - destruct (P x), (P y); try done. apply perm_swap.
Qed.

Section scan_view.
Context (idx : ExpiryIndex) (u : utxo_set) (view : UtxoViewpoint).
Context (Hview : forall op, live view !! op = u !! op).

Lemma liveRows_project h ml :
  Forall (fun p : OutPoint * entry => project idx u !! p.1 = Some p.2) ml ->
  liveRows view (List.filter (scanUpTo h) (map scanOf ml))
  = map candOfPrefix (List.filter (expiredAt h) (map candOf ml)).
Proof.
  induction 1 as [|[op [e a]] ml Hp _ IH]; [done|]. cbn [map List.filter].
  change (scanUpTo h (scanOf (op, (e, a)))) with (e <=? h).
  change (expiredAt h (candOf (op, (e, a)))) with (e <=? h). destruct (e <=? h); [|done].
  cbn [map]. rewrite <- IH. cbn [fst snd] in Hp. rewrite project_lookup, <- Hview in Hp.
  destruct (live view !! op) as [coin|] eqn:El; [|done]. cbn [mbind option_bind] in Hp.
  apply live_Some in El as (en & Een & Hen). unfold live_entry in Hen.
  destruct (IsSpent en) eqn:Es; [done|]. injection Hen as <-. unfold coinEntry in Hp.
  destruct (shouldIndexCreateHeight idx _); [|done]. injection Hp as He Ha.
  unfold liveRows. cbn [omap list_omap]. unfold LookupEntry at 1. cbn [scanOf eu_OutPoint eu_ExpiryKey fst snd].
  rewrite Een, Es. unfold candOfPrefix, candOf. cbn. by rewrite <- Ha.
Qed.

Lemma scan_is_prefix h L P :
  scanOrder (project idx u) L -> canonical (project idx u) P ->
  liveRows view (upTo h L) ≡ₚ map candOfPrefix (List.filter (expiredAt h) P).
Proof.
  intros [HL _] [HP _]. transitivity (liveRows view (List.filter (scanUpTo h) (map scanOf (map_to_list (project idx u))))).
  { apply omap_Permutation. by apply Permutation_filter_B. }
  rewrite liveRows_project.
  - apply fmap_Permutation, Permutation_filter_B. by rewrite HP.
  - apply Forall_forall. intros [op ea] H. by apply elem_of_map_to_list in H.
Qed.
End scan_view.

(** ** Both selections pick the same *)

(** Equal but for the skipped count. *)
Definition same_pick (s s' : selection) : Prop :=
  sel_inputs s = sel_inputs s' /\ sel_tax s = sel_tax s' /\ sel_refund s = sel_refund s' /\
  sel_dust s = sel_dust s' /\ sel_normal s = sel_normal s'.

Section same.
Context (p : REAPParams) (ep : ExpiryParams) (Hok : params_ok ep) (Hag : agrees p ep).

Lemma tierLimit_false d n :
  tierLimitReached d n p = false -> d < ReapDustMaxInputs ep /\ n < ReapMaxInputs ep.
Proof.
  unfold tierLimitReached. rewrite (ag_max _ _ Hag), (ag_dustmax _ _ Hag). pose proof (pk_dustmax _ Hok).
  destruct (Z.leb_spec (ReapDustMaxInputs ep) 0); [lia|]. rewrite orb_false_iff, !Z.leb_gt. done.
Qed.

(** Candidates beyond the prefix limit are never reached. *)
Lemma selectLoop_take ws ws' total total' cs s i i' n :
  sel_dust s < ReapDustMaxInputs ep -> sel_normal s < ReapMaxInputs ep ->
  ReapDustMaxInputs ep + ReapMaxInputs ep <= sel_dust s + sel_normal s + Z.of_nat n + 1 ->
  exists s1 s2, selectLoop Background p ws total i cs s = Ok s1 /\
    selectLoop Background p ws' total' i' (take n cs) s = Ok s2 /\ same_pick s1 s2.
Proof.
  revert s i i' n; induction cs as [|c cs IH]; intros s i i' n Hd Hn Hlim.
  { rewrite take_nil. by exists s, s. }
  destruct n as [|n]; [lia|]. cbn [take selectLoop]. unfold Background at 1 3.
  destruct (canSelectTierCandidate _ _ _ p); cbn [negb]; [|by eexists _, _].
  destruct (_ && _); [by eexists _, _|].
  destruct (tierLimitReached _ _ p) eqn:El; [by eexists _, _|].
  apply tierLimit_false in El as [Hd' Hn']. apply IH; [done|done|].
  destruct (pick_spec p ep Hag s c) as (_ & -> & ->). destruct (isReapDustTierAmount c.2 ep); lia.
Qed.
End same.

Lemma SortBy_net net mode : SortBy (DefaultREAPParamsForNet net mode) = mode.
Proof. unfold DefaultREAPParamsForNet. cbv zeta. destruct (GetExpiryParams net); repeat case_match; done. Qed.

Lemma PrefixCandidateLimit_eq p ep :
  params_ok ep -> agrees p ep -> PrefixCandidateLimit p = ReapMaxInputs ep + ReapDustMaxInputs ep.
Proof.
  intros [] []. unfold PrefixCandidateLimit. rewrite ag_max, ag_dustmax.
  destruct (Z.leb_spec (ReapDustMaxInputs ep) 0); [lia|]. apply i64_id. widths. lia.
Qed.

(** The scan sees the expired entries, and sorting puts them in order. *)
Lemma scan_candidates idx db u h view P fuel batch :
  disabled idx = false -> represents db (project idx u) -> canonical (project idx u) P ->
  (forall op, live view !! op = u !! op) -> (size (project idx u) < fuel)%nat -> 0 < batch ->
  exists all asked, scanPages fuel Background (ScanExpiringUTXOs idx db) view batch 0 h None 0 [] = Ok (all, asked) /\
    sortCandidates all SortModeStrict = map candOfPrefix (List.filter (expiredAt h) P).
Proof.
  intros Hd Hrep HP Hview Hfuel Hb. destruct (index_scanner_ok idx db _ Hd Hrep) as (L & HL & Hord).
  destruct (scanPages_spec _ L HL batch h Hb fuel view 0 None (upTo h L) 0 [] (at_start _ L HL h)) as (asked & Epages).
  { apply (Nat.le_lt_trans _ (length L)); [apply filter_length_le|].
    destruct Hord as [HLp _]. rewrite HLp, length_map, length_map_to_list. done. }
  exists (liveRows view (upTo h L)), asked. split; [exact Epages|].
  apply sortCandidates_canonical; [by apply (scan_is_prefix idx u view Hview h L P)|]. apply StronglySorted_filter, HP.
Qed.

(** The dry run shows what the miner will do. For an index of a ledger and a
    view of the same ledger, selecting candidates by scanning the index page by
    page ends, and picks the same inputs in the same order, with the same tax,
    refund and estimated weight, as selecting from the global prefix does for the
    block template. *)
Theorem scan_selection_is_prefix_selection net ep idx db u h hash view fuel :
  GetExpiryParams net = Some ep -> disabled idx = false -> index_ok idx db u (h - 1) hash ->
  0 < h < 2^31 -> (forall op, live view !! op = u !! op) -> (size (project idx u) < fuel)%nat ->
  let p := DefaultREAPParamsForNet net SortModeStrict in
  exists cands plan1 plan2,
    SelectCandidates fuel Background h (Some (idx, db)) (Some view) p = Ok plan1 /\
    ReapPrefixCandidates idx db h (PrefixCandidateLimit p) = Ok cands /\
    SelectPrefixCandidates Background h cands p = Ok plan2 /\
    Inputs plan1 = Inputs plan2 /\ TaxTotal plan1 = TaxTotal plan2 /\ RefundTotal plan1 = RefundTotal plan2 /\
    EstWeight (Stats plan1) = EstWeight (Stats plan2).
Proof.
  intros Hnet Hd Hix Hh Hview Hfuel p. pose proof (GetExpiryParams_ok _ _ Hnet) as Hok.
  pose proof (DefaultREAPParamsForNet_agrees net SortModeStrict ep Hnet) as Hag. fold p in Hag.
  destruct (indexSource_ok idx db u (h - 1) hash Hd Hix) as (P & [_ HP Hsrc]).
  pose proof (PrefixCandidateLimit_range p ep Hok Hag) as Hlim.
  pose proof (ScanBatch_net net SortModeStrict) as Hsb. fold p in Hsb.
  pose proof (pk_max _ Hok) as Hmax. pose proof (pk_dustmax _ Hok) as Hdust.
  destruct (scan_candidates idx db u h view P fuel (ScanBatch p) Hd (proj1 Hix) HP Hview Hfuel Hsb)
    as (all & asked & Epages & Esort).
  set (E := List.filter (expiredAt h) P) in *. set (n := Z.to_nat (PrefixCandidateLimit p)).
  destruct (selectLoop_take p ep Hok Hag (fun _ picked => zlen all - picked) (fun i _ => zlen (take n E) - i)
    (zlen all) (zlen (take n E)) (map (fun c => (rpc_OutPoint c, rpc_Amount c)) E) emptySelection 0 0 n)
    as (s1 & s2 & E1 & E2 & F1 & F2 & F3 & F4 & F5); [done|done| |].
  { cbn. unfold n. rewrite (PrefixCandidateLimit_eq p ep Hok Hag) in *. lia. }
  exists (take n E), (planOf p h (zlen all) s1), (planOf p h (zlen (take n E)) s2).
  split; [|split; [apply Hsrc; [widths; lia|lia]|split]].
  - unfold SelectCandidates, selectCandidatesWithScanner. rewrite (ag_max _ _ Hag), (ag_dustmax _ _ Hag).
    destruct (Z.leb_spec (ReapMaxInputs ep) 0); [lia|]. destruct (Z.ltb_spec (ReapDustMaxInputs ep) 0); [lia|].
    destruct (Z.leb_spec (ScanBatch p) 0); [lia|]. rewrite u64_id by (widths; lia). rewrite Epages. result_simpl.
    replace (SortBy p) with SortModeStrict by (symmetry; apply SortBy_net). rewrite Esort, map_map.
    match goal with |- context [selectLoop ?c] => change c with Background end.
    cbn [candOfPrefix c_op c_amount]. by rewrite E1.
  - unfold SelectPrefixCandidates. rewrite (ag_max _ _ Hag), (ag_dustmax _ _ Hag).
    destruct (Z.leb_spec (ReapMaxInputs ep) 0); [lia|]. destruct (Z.ltb_spec (ReapDustMaxInputs ep) 0); [lia|].
    by rewrite <- firstn_map, E2.
  - cbn. by rewrite F1, F2, F3, F4, F5.
Qed.

(** Collecting outpoints for the template ends and loses nothing. Over an
    index of a set of entries, [collectExpiredOutpoints] ends and returns the
    outpoints of the expired entries, each once and in the order of the scan, cut
    at its limit. *)
Theorem collectExpiredOutpoints_complete idx db m h p fuel :
  disabled idx = false -> represents db m -> 0 < h < 2^31 -> 0 < ScanBatch p -> 0 <= maxCollected p ->
  (size m < fuel)%nat ->
  exists L, scanOrder m L /\
    collectExpiredOutpoints fuel idx db h p
    = Ok (take (Z.to_nat (maxCollected p)) (map eu_OutPoint (List.filter (scanUpTo h) L))).
Proof.
  intros Hd Hrep Hh Hb Hm Hfuel. destruct (index_scanner_ok idx db m Hd Hrep) as (L & HL & Hord).
  exists L. split; [done|]. unfold collectExpiredOutpoints. rewrite u64_id by (widths; lia).
  rewrite (collectLoop_spec _ L HL (ScanBatch p) h Hb fuel (maxCollected p) 0 None (upTo h L) []);
    [by rewrite Z.sub_0_r|by apply (at_start _ L HL)| |done].
  apply (Nat.le_lt_trans _ (length L)); [apply filter_length_le|].
  destruct Hord as [HLp _]. by rewrite HLp, length_map, length_map_to_list.
Qed.

(** ** Witnesses *)

Lemma sample_project_size : (size (project sampleIdx sampleU1) < 2)%nat.
Proof.
  unfold project, sampleU1. rewrite (omap_singleton_Some _ _ _ (362881, 5000000000)) by reflexivity.
  rewrite map_size_singleton. lia.
Qed.

Lemma scan_selection_is_prefix_selection_witness :
  exists db cands plan1 plan2,
    SelectCandidates 2 Background sampleHeight (Some (sampleIdx, db)) (Some coinView)
      (DefaultREAPParamsForNet ObtcMainNetParams SortModeStrict) = Ok plan1 /\
    SelectPrefixCandidates Background sampleHeight cands
      (DefaultREAPParamsForNet ObtcMainNetParams SortModeStrict) = Ok plan2 /\
    Inputs plan1 = Inputs plan2.
Proof.
  destruct sample_index_late as (db & hash & Hix).
  destruct (scan_selection_is_prefix_selection ObtcMainNetParams sampleEp sampleIdx db sampleU1 sampleHeight hash coinView 2
    sampleEp_eq eq_refl Hix) as (cands & plan1 & plan2 & H1 & _ & H2 & H3 & _).
  - vm_compute; split; reflexivity.
  - intros op. rewrite coinView_live. reflexivity.
  - exact sample_project_size.
  - exists db, cands, plan1, plan2. split; [exact H1|]. split; [exact H2|exact H3].
Defined.

Lemma collectExpiredOutpoints_complete_witness :
  exists db L, scanOrder (project sampleIdx sampleU1) L /\
    collectExpiredOutpoints 2 sampleIdx db sampleHeight (DefaultREAPParams SortModeStrict)
    = Ok (take (Z.to_nat 20000) (map eu_OutPoint (List.filter (scanUpTo sampleHeight) L))).
Proof.
  destruct sample_index_late as (db & hash & Hix). exists db.
  apply (collectExpiredOutpoints_complete sampleIdx db _ sampleHeight (DefaultREAPParams SortModeStrict) 2
    eq_refl (proj1 Hix)).
  - vm_compute; split; reflexivity.
  - reflexivity.
  - vm_compute; discriminate.
  - exact sample_project_size.
Defined.
