(* ===== verification/Merkle.v ===== *)
(** * Merkle trees

    src/blockchain/merkle.go and src/blockchain/rolling_merkle.go: the linear
    array of [BuildMerkleTreeStore], the rolling computation of
    [CalcMerkleRoot], and the witness commitment of the coinbase.

    [merkleRoot] is the textbook tree: pair the row up, the last node with
    itself when the row is odd, until one node is left. Both computations give
    its root. A node of the array that the source leaves nil is [None]. The
    logarithm that [nextPowerOfTwo] takes in floating point is the integer
    logarithm, exact for any number of transactions a block can have; an empty
    block makes both functions panic, which is [None]. *)

From S2P Require Import Prelude Sha256 Wire Commitment Script Block IndexDB ReapRules.

(** [WitnessHash] of src/wire/msgtx.go. *)
Definition WitnessHash (msg : MsgTx) : list Z :=
  if HasWitness msg then DoubleHashB (Serialize msg) else TxHash msg.

(** The exponent is the integer logarithm; the code takes it of a float, which is the
    same for the number of transactions a block can have. *)
Definition nextPowerOfTwo (n : Z) : Z :=
  if Z.land n (n - 1) =? 0 then n else Z.shiftl 1 (Z.log2 n + 1).

Definition HashMerkleBranches (left right : list Z) : list Z := DoubleHashB (left ++ right).

(** The leaves: transaction ids, or witness ids with zero for the coinbase. *)
Definition merkleLeaves (transactions : list MsgTx) (witness : bool) : list (list Z) :=
  if witness then
    match transactions with [] => [] | _ :: txs => zeroHash :: map WitnessHash txs end
  else map TxHash transactions.

(** ** The array *)

Definition merkleParent (l r : option (list Z)) : option (list Z) :=
  match l, r with
  | None, _ => None
  | Some l, None => Some (HashMerkleBranches l l)
  | Some l, Some r => Some (HashMerkleBranches l r)
  end.

(** One round of the loop: [i = 2 * j], [offset = nextPoT + j]. *)
Definition fillParent (nextPoT : nat) (merkles : list (option (list Z))) (j : nat) : list (option (list Z)) :=
  <[(nextPoT + j)%nat := merkleParent (mjoin (merkles !! (2 * j)%nat)) (mjoin (merkles !! (2 * j + 1)%nat))]> merkles.

Definition BuildMerkleTreeStore (transactions : list MsgTx) (witness : bool) : option (list (option (list Z))) :=
  let nextPoT := nextPowerOfTwo (zlen transactions) in
  let arraySize := nextPoT * 2 - 1 in
  if arraySize <? 0 then None
  else
    let leaves := merkleLeaves transactions witness in
    let merkles := map Some leaves ++ replicate (Z.to_nat arraySize - length leaves) None in
    Some (foldl (fillParent (Z.to_nat nextPoT)) merkles (seq 0 (Z.to_nat (nextPoT - 1)))).

(** ** The rolling store *)

Record rollingMerkleTreeStore := mkRolling { rm_roots : list (list Z); rm_numLeaves : Z }.

Definition newRollingMerkleTreeStore : rollingMerkleTreeStore := mkRolling [] 0.

(** The loop of [add] from row [h] on; it pops a root in every round. *)
Fixpoint addLoop (fuel : nat) (numLeaves h : Z) (roots : list (list Z)) (newRoot : list Z)
    : option (list (list Z)) :=
  if Z.land (Z.shiftr numLeaves h) 1 =? 1 then
    match last roots, fuel with
    | Some root, S fuel' =>
        addLoop fuel' numLeaves (h + 1) (take (length roots - 1) roots) (HashMerkleBranches root newRoot)
    | _, _ => None
    end
  else Some (roots ++ [newRoot]).

Definition rollingAdd (s : rollingMerkleTreeStore) (add : list Z) : option rollingMerkleTreeStore :=
  (fun roots => mkRolling roots (u64 (rm_numLeaves s + 1)))
    <$> addLoop (length (rm_roots s)) (rm_numLeaves s) 0 (rm_roots s) add.

Fixpoint rollingAdds (s : rollingMerkleTreeStore) (adds : list (list Z)) : option rollingMerkleTreeStore :=
  match adds with
  | [] => Some s
  | a :: adds' => match rollingAdd s a with Some s' => rollingAdds s' adds' | None => None end
  end.

(** The shift to the next row with an odd number of nodes, at most 64 of them. *)
Fixpoint shiftRows (fuel : nat) (currentLeaves h numLeaves : Z) : Z :=
  match fuel with
  | O => numLeaves
  | S fuel' =>
      if Z.land (Z.shiftr currentLeaves h) 1 =? 0
      then shiftRows fuel' currentLeaves (h + 1) (Z.shiftr numLeaves 1)
      else numLeaves
  end.

(** The loop that adds the last root again, row by row. *)
Fixpoint foldRoots (fuel : nat) (s : rollingMerkleTreeStore) : option rollingMerkleTreeStore :=
  if (length (rm_roots s) <=? 1)%nat then Some s
  else
    match fuel with
    | O => None
    | S fuel' =>
        let n := shiftRows 64 (rm_numLeaves s) 0 (rm_numLeaves s) in
        match last (rm_roots s) with
        | None => None
        | Some h =>
            match rollingAdd (mkRolling (rm_roots s) n) h with
            | None => None
            | Some s' => foldRoots fuel' s'
            end
        end
    end.

Definition calcMerkleRoot (s : rollingMerkleTreeStore) (adds : list MsgTx) (witness : bool) : option (list Z) :=
  match rollingAdds s (merkleLeaves adds witness) with
  | None => None
  | Some s1 =>
      if rm_numLeaves s1 =? 1 then head (rm_roots s1)
      else
        let again :=
          match last adds with
          | Some tx =>
              if Nat.odd (length adds) then rollingAdd s1 (if witness then WitnessHash tx else TxHash tx)
              else Some s1
          | None => Some s1
          end in
        match again with
        | None => None
        | Some s2 => match foldRoots (S (length adds)) s2 with Some s3 => head (rm_roots s3) | None => None end
        end
  end.

Definition CalcMerkleRoot (transactions : list MsgTx) (witness : bool) : option (list Z) :=
  calcMerkleRoot newRollingMerkleTreeStore transactions witness.

(** ** The witness commitment *)

Definition CoinbaseWitnessDataLen : Z := 32.
Definition CoinbaseWitnessPkScriptLength : Z := 38.
Definition WitnessMagicBytes : list Z := [OP_RETURN; 0x24; 0xaa; 0x21; 0xa9; 0xed].

(** The last output of the coinbase with the magic prefix. *)
Definition ExtractWitnessCommitment (tx : MsgTx) : option (list Z) :=
  if negb (IsCoinBaseTx tx) then None
  else
    match list_find (fun o => (CoinbaseWitnessPkScriptLength <= zlen (PkScript o))
                              /\ has_prefix (PkScript o) WitnessMagicBytes = true) (reverse (TxOuts tx)) with
    | Some (_, o) => Some (take 32 (drop 6 (PkScript o)))
    | None => None
    end.

Definition ValidateWitnessCommitment (blk : Block) : result rule_error unit :=
  match Transactions blk with
  | [] => Err (RuleError ErrNoTransactions "cannot validate witness commitment of block without transactions")
  | coinbaseTx :: _ =>
      match TxIns coinbaseTx with
      | [] => Err (RuleError ErrNoTxInputs "transaction has no inputs")
      | txIn :: _ =>
          match ExtractWitnessCommitment coinbaseTx with
          | None =>
              if existsb HasWitness (Transactions blk)
              then Err (RuleError ErrUnexpectedWitness "block contains transaction with witness data, yet no witness commitment present")
              else Ok tt
          | Some witnessCommitment =>
              match Witness txIn with
              | [witnessNonce] =>
                  if negb (zlen witnessNonce =? CoinbaseWitnessDataLen)
                  then Err (RuleError ErrInvalidWitnessCommitment "the coinbase transaction witness nonce has the wrong size")
                  else
                    match CalcMerkleRoot (Transactions blk) true with
                    | None => Err (SourceError (RuntimePanic "merkle root"))
                    | Some witnessMerkleRoot =>
                        if bool_decide (DoubleHashB (witnessMerkleRoot ++ witnessNonce) = witnessCommitment) then Ok tt
                        else Err (RuleError ErrWitnessCommitmentMismatch "witness commitment does not match")
                    end
              | _ => Err (RuleError ErrInvalidWitnessCommitment "the coinbase transaction has the wrong number of items in its witness stack")
              end
          end
      end
  end.

(** ** The tree of a row of hashes *)

Fixpoint pairUp (row : list (list Z)) : list (list Z) :=
  match row with
  | l :: r :: row' => HashMerkleBranches l r :: pairUp row'
  | [l] => [HashMerkleBranches l l]
  | [] => []
  end.

(** A row that is [n] times paired up. *)
Definition rowsUp (n : nat) (row : list (list Z)) : list (list Z) := Nat.iter n pairUp row.

(** The root of a row, at most [n] rows above it. *)
Fixpoint rootWithin (n : nat) (row : list (list Z)) : option (list Z) :=
  match row with
  | [] => None
  | [x] => Some x
  | _ => match n with O => None | S n' => rootWithin n' (pairUp row) end
  end.

Definition merkleRoot (row : list (list Z)) : option (list Z) := rootWithin (length row) row.

Definition hashPair (p : list Z * list Z) : list Z := HashMerkleBranches p.1 p.2.
Definition flatten (ps : list (list Z * list Z)) : list (list Z) := concat (map (fun p => [p.1; p.2]) ps).

Lemma flatten_app ps qs : flatten (ps ++ qs) = flatten ps ++ flatten qs.
Proof. unfold flatten. by rewrite map_app, concat_app. Qed.

Lemma length_flatten ps : length (flatten ps) = (2 * length ps)%nat.
Proof. induction ps as [|p ps IH]; cbn in *; [done|]. fold (flatten ps). lia. Qed.

(** Every row is a list of pairs, with one more node when it is odd. *)
Lemma row_cases (row : list (list Z)) :
  exists ps, row = flatten ps \/ exists x, row = flatten ps ++ [x].
Proof.
  remember (length row) as n eqn:Hn. revert row Hn.
  induction n as [n IH] using lt_wf_ind; intros row Hn.
  destruct row as [|l [|r row]].
  - exists []; by left.
  - exists []; right; by exists l.
  - destruct (IH (length row) ltac:(cbn in Hn; lia) row eq_refl) as (ps & [->|[x ->]]).
    + exists ((l, r) :: ps); by left.
    + exists ((l, r) :: ps); right; by exists x.
Qed.

Lemma pairUp_flatten ps row : pairUp (flatten ps ++ row) = map hashPair ps ++ pairUp row.
Proof. induction ps as [|p ps IH]; [done|]. cbn in *. fold (flatten ps). by rewrite IH. Qed.

Lemma length_pairUp row : length (pairUp row) = ((length row + 1) / 2)%nat.
Proof.
  destruct (row_cases row) as (ps & [->|[x ->]]).
  - rewrite <- (app_nil_r (flatten ps)) at 1. rewrite pairUp_flatten. cbn [pairUp].
    rewrite app_nil_r, length_map, length_flatten. apply (Nat.div_unique _ 2 _ 1); lia.
  - rewrite pairUp_flatten, !length_app, length_map, length_flatten. cbn [pairUp length].
    apply (Nat.div_unique _ 2 _ 0); lia.
Qed.

Lemma length_pairUp_lt row : (2 <= length row)%nat -> (1 <= length (pairUp row) < length row)%nat.
Proof.
  intros H. rewrite length_pairUp. split.
  - apply (Nat.div_le_lower_bound _ 2 1); lia.
  - apply Nat.Div0.div_lt_upper_bound; lia.
Qed.

Lemma rootWithin_enough n m row :
  (length row <= n)%nat -> (length row <= m)%nat -> rootWithin n row = rootWithin m row.
Proof.
  revert m row; induction n as [|n IH]; intros m row Hn Hm.
  - by destruct row; [destruct m|cbn in Hn; lia].
  - destruct row as [|l [|r row]]; [by destruct m|by destruct m|].
    destruct m as [|m]; [cbn in Hm; lia|].
    pose proof (length_pairUp_lt (l :: r :: row) ltac:(cbn; lia)).
    cbn [rootWithin]. apply IH; lia.
Qed.

Lemma merkleRoot_pairUp row : (2 <= length row)%nat -> merkleRoot row = merkleRoot (pairUp row).
Proof.
  intros H. unfold merkleRoot. pose proof (length_pairUp_lt row H) as Hl.
  destruct row as [|l [|r row]]; [cbn in H; lia..|].
  change (rootWithin (length (l :: r :: row)) (l :: r :: row))
    with (rootWithin (length (r :: row)) (pairUp (l :: r :: row))).
  apply rootWithin_enough; cbn [length] in *; lia.
Qed.

Lemma merkleRoot_flatten ps : ps <> [] -> merkleRoot (flatten ps) = merkleRoot (map hashPair ps).
Proof.
  intros H. rewrite merkleRoot_pairUp.
  - rewrite <- (app_nil_r (flatten ps)), pairUp_flatten. cbn. by rewrite app_nil_r.
  - rewrite length_flatten. destruct ps; [done|cbn; lia].
Qed.

(** An odd row has the root of the row with its last node doubled. *)
Lemma merkleRoot_double ps x :
  ps <> [] -> merkleRoot (flatten ps ++ [x]) = merkleRoot (flatten (ps ++ [(x, x)])).
Proof.
  intros H. rewrite merkleRoot_flatten by (by destruct ps).
  rewrite merkleRoot_pairUp, pairUp_flatten, map_app; [done|].
  rewrite length_app, length_flatten. destruct ps; [done|cbn; lia].
Qed.

(** ** The rolling store holds the roots of the perfect trees in a row *)

Inductive peaks : list (list Z) -> list (list Z) -> Prop :=
| peaks_nil : peaks [] []
| peaks_even ps r : peaks (map hashPair ps) r -> peaks (flatten ps) r
| peaks_odd ps r x : peaks (map hashPair ps) r -> peaks (flatten ps ++ [x]) (r ++ [x]).

Lemma land_1_odd z : Z.land z 1 = Z.b2z (Z.odd z).
Proof. change 1 with (Z.ones 1). rewrite Z.land_ones, Zmod_odd by lia. by destruct (Z.odd z). Qed.

Lemma odd_flatten ps : Z.odd (zlen (flatten ps)) = false.
Proof.
  unfold zlen. rewrite length_flatten. replace (Z.of_nat (2 * length ps)) with (2 * Z.of_nat (length ps)) by lia.
  by rewrite Z.odd_mul.
Qed.

Lemma odd_flatten_snoc ps x : Z.odd (zlen (flatten ps ++ [x])) = true.
Proof. rewrite zlen_app, Z.odd_add, odd_flatten. done. Qed.

Lemma half_flatten ps (n h : Z) (t : list (list Z)) :
  0 <= h -> zlen (flatten ps ++ t) = Z.shiftr n h -> (length t <= 1)%nat ->
  zlen (map hashPair ps) = Z.shiftr n (h + 1).
Proof.
  intros Hh H Ht. rewrite Z.add_comm, Z.add_1_l, <- (Z.add_1_r h), <- Z.shiftr_shiftr, <- H by lia.
  rewrite Z.shiftr_div_pow2 by lia. unfold zlen. rewrite length_app, length_flatten, length_map.
  apply (Z.div_unique_pos _ _ _ (Z.of_nat (length t))); lia.
Qed.

Lemma addLoop_peaks row r n h x fuel :
  peaks row r -> 0 <= h -> zlen row = Z.shiftr n h -> (length r <= fuel)%nat ->
  exists r', addLoop fuel n h r x = Some r' /\ peaks (row ++ [x]) r'.
Proof.
  intros Hp; revert h x fuel; induction Hp as [|ps r Hp _|ps r y Hp IH]; intros h x fuel Hh Hn Hf.
  - exists [x]. destruct fuel; cbn [addLoop]; rewrite <- Hn; cbn;
      (split; [done|exact (peaks_odd [] [] x peaks_nil)]).
  - exists (r ++ [x]). split; [|by apply peaks_odd].
    destruct fuel; cbn [addLoop]; by rewrite land_1_odd, <- Hn, odd_flatten.
  - rewrite length_app in Hf; cbn in Hf. destruct fuel as [|fuel]; [lia|].
    cbn [addLoop]. rewrite land_1_odd, <- Hn, odd_flatten_snoc. cbn [Z.b2z Z.eqb Pos.eqb].
    rewrite last_snoc, length_app, Nat.add_sub, take_app_length.
    destruct (IH (h + 1) (HashMerkleBranches y x) fuel ltac:(lia)) as (r' & Ha & Hr');
      [by apply (half_flatten _ _ _ [y])|lia|].
    exists r'. split; [done|]. rewrite <- app_assoc. cbn [app].
    replace (flatten ps ++ [y; x]) with (flatten (ps ++ [(y, x)])) by (by rewrite flatten_app).
    apply peaks_even. by rewrite map_app.
Qed.

Lemma rollingAdd_peaks row r x :
  peaks row r -> zlen row + 1 < 2^64 ->
  exists r', rollingAdd (mkRolling r (zlen row)) x = Some (mkRolling r' (zlen (row ++ [x]))) /\ peaks (row ++ [x]) r'.
Proof.
  intros Hp Hl. unfold rollingAdd. cbn [rm_roots rm_numLeaves].
  destruct (addLoop_peaks row r (zlen row) 0 x (length r) Hp) as (r' & -> & Hr'); [lia|done|lia|].
  exists r'. split; [|done]. cbn. rewrite u64_id, zlen_app; [done|]. pose proof (zlen_nonneg row). widths; lia.
Qed.

Lemma rollingAdds_peaks xs row r :
  peaks row r -> zlen row + zlen xs < 2^64 ->
  exists r', rollingAdds (mkRolling r (zlen row)) xs = Some (mkRolling r' (zlen (row ++ xs))) /\ peaks (row ++ xs) r'.
Proof.
  revert row r; induction xs as [|x xs IH]; intros row r Hp Hl.
  - exists r. by rewrite app_nil_r.
  - rewrite zlen_cons in Hl. pose proof (zlen_nonneg xs). cbn [rollingAdds].
    destruct (rollingAdd_peaks row r x Hp) as (r1 & -> & Hr1); [lia|].
    destruct (IH (row ++ [x]) r1 Hr1) as (r2 & -> & Hr2); [rewrite zlen_app; rewrite zlen_cons; change (zlen (@nil (list Z))) with 0; lia|].
    rewrite <- app_assoc in *. by exists r2.
Qed.

Lemma peaks_nil_inv r : peaks [] r -> r = [].
Proof.
  intros Hp. remember [] as row eqn:Hrow. revert Hrow.
  induction Hp as [|ps r Hp IH|ps r x Hp IH]; intros Hrow; [done| |by destruct ps].
  destruct ps; [by apply IH|done].
Qed.

Lemma peaks_nonempty row r : peaks row r -> row <> [] -> r <> [].
Proof.
  induction 1 as [|ps r Hp IH|ps r x Hp IH]; [done| |by destruct r].
  intros Hne. apply IH. by destruct ps.
Qed.

Lemma peaks_single row x : peaks row [x] -> merkleRoot row = Some x.
Proof.
  intros Hp. remember [x] as r eqn:Hr. revert x Hr.
  induction Hp as [|ps r Hp IH|ps r y Hp IH]; intros x Hr; [done| |].
  - rewrite merkleRoot_flatten; [auto|]. intros ->. by apply peaks_nil_inv in Hp; subst.
  - apply (app_eq_unit r [y]) in Hr as [[-> [= ->]]|[? ?]]; [|done].
    destruct ps as [|p ps]; [done|]. by apply peaks_nonempty in Hp.
Qed.

(** Shifting finds the first row with an odd number of nodes. *)
Lemma shiftRows_odd row r n h fuel :
  peaks row r -> r <> [] -> 0 <= h -> zlen row = Z.shiftr n h -> zlen row < 2 ^ Z.of_nat fuel ->
  exists ps x r', r = r' ++ [x] /\ peaks (map hashPair ps) r' /\ merkleRoot (flatten ps ++ [x]) = merkleRoot row
    /\ shiftRows fuel n h (zlen row) = zlen (flatten ps ++ [x])
    /\ (flatten ps ++ [x] = row \/ (2 * length (flatten ps ++ [x]) <= length row)%nat).
Proof.
  intros Hp Hr; revert h fuel; induction Hp as [|ps r Hp IH|ps r x Hp _]; intros h fuel Hh Hn Hf; [done| |].
  - assert (ps <> []) as Hps by (intros ->; by apply peaks_nil_inv in Hp).
    assert (0 < zlen (map hashPair ps)) by (unfold zlen; destruct ps; [done|cbn; lia]).
    assert (zlen (flatten ps) = 2 * zlen (map hashPair ps)) as Htwo
      by (unfold zlen; rewrite length_flatten, length_map; lia).
    destruct fuel as [|fuel]; [cbn in Hf; lia|].
    rewrite Nat2Z.inj_succ, Z.pow_succ_r in Hf by lia.
    pose proof (half_flatten ps n h [] Hh) as Hhalf. rewrite app_nil_r in Hhalf.
    destruct (IH Hr (h + 1) fuel) as (qs & x & r' & -> & Hq & Hroot & Hshift & Hlen); [lia|by apply Hhalf; [|cbn; lia]|lia|].
    exists qs, x, r'. split_and!; [done..| | |].
    + by rewrite merkleRoot_flatten.
    + cbn [shiftRows]. rewrite land_1_odd, <- Hn, odd_flatten. cbn [Z.b2z Z.eqb].
      rewrite <- Hshift. f_equal. rewrite Htwo, Z.shiftr_div_pow2 by lia. rewrite Z.mul_comm, Z.div_mul; lia.
    + right. rewrite length_flatten. destruct Hlen as [->|Hlen]; rewrite ?length_map in *; lia.
  - exists ps, x, r. split_and!; [done..| |by left].
    destruct fuel as [|fuel]; [|cbn [shiftRows]; by rewrite land_1_odd, <- Hn, odd_flatten_snoc].
    done.
Qed.

Lemma peaks_two p r : peaks (flatten [p]) r -> length r = 1%nat.
Proof.
  intros Hp. inversion Hp as [|qs r' Hq He|qs r' x Hq He]; subst.
  - destruct qs as [|q0 [|q1 qs]]; try done. destruct p, q0; cbn in He, Hq; simplify_eq.
    inversion Hq as [|qs r' Hq' He'|qs r' x Hq' He']; subst.
    + apply (f_equal length) in He'. rewrite length_flatten in He'. cbn in He'. lia.
    + destruct qs; [|apply (f_equal length) in He'; rewrite length_app, length_flatten in He'; cbn in He'; lia].
      by rewrite (peaks_nil_inv r').
  - exfalso. apply (f_equal length) in He. rewrite length_app, length_flatten in He. cbn in He. lia.
Qed.

Lemma foldRoots_root fuel ps r :
  peaks (flatten ps) r -> ps <> [] -> zlen (flatten ps) < 2^63 -> (length ps <= fuel)%nat ->
  exists s, foldRoots fuel (mkRolling r (zlen (flatten ps))) = Some s /\ head (rm_roots s) = merkleRoot (flatten ps).
Proof.
  revert ps r; induction fuel as [|fuel IH]; intros ps r Hp Hps Hl Hf; [destruct ps; [done|cbn in Hf; lia]|].
  assert (r <> []) as Hr by (apply (peaks_nonempty _ _ Hp); by destruct ps).
  cbn [foldRoots rm_roots rm_numLeaves]. destruct (Nat.leb_spec (length r) 1) as [H1|H1].
  { destruct r as [|x [|y r]]; [done| |cbn in H1; lia]. eexists; split; [done|]. symmetry. by apply peaks_single. }
  destruct (shiftRows_odd _ r (zlen (flatten ps)) 0 64 Hp Hr) as (qs & x & r' & -> & Hq & Hroot & -> & Hlen);
    [lia|done|change (Z.of_nat 64) with 64; lia|].
  rewrite last_snoc.
  assert (2 * length (flatten qs ++ [x]) <= length (flatten ps))%nat as Hshort.
  { destruct Hlen as [He|]; [|done]. apply (f_equal length) in He.
    rewrite length_app, !length_flatten in He. cbn in He. lia. }
  rewrite length_app, !length_flatten in Hshort. cbn in Hshort.
  assert (qs <> []) as Hqs.
  { intros ->. apply peaks_nil_inv in Hq as ->. cbn in H1. lia. }
  unfold zlen in Hl. rewrite length_flatten in Hl.
  destruct (rollingAdd_peaks (flatten qs ++ [x]) (r' ++ [x]) x) as (r2 & -> & Hr2); [by apply peaks_odd| |].
  { unfold zlen. rewrite length_app, length_flatten. cbn. lia. }
  replace ((flatten qs ++ [x]) ++ [x]) with (flatten (qs ++ [(x, x)])) in * by (by rewrite flatten_app, <- app_assoc).
  rewrite <- Hroot, merkleRoot_double by done. destruct qs as [|q qs]; [done|].
  apply IH; [done|done| |].
  - unfold zlen. rewrite length_flatten, length_app. cbn in *. lia.
  - rewrite length_app. cbn in *. lia.
Qed.

Lemma length_merkleLeaves txs w : length (merkleLeaves txs w) = length txs.
Proof. unfold merkleLeaves. destruct w, txs; cbn; by rewrite ?length_map. Qed.

Lemma last_merkleLeaves txs w tx :
  last txs = Some tx -> (1 < length txs)%nat ->
  last (merkleLeaves txs w) = Some (if w then WitnessHash tx else TxHash tx).
Proof.
  intros Hl H1. destruct w; cbn [merkleLeaves].
  - destruct txs as [|t [|t' txs]]; [done|cbn in H1; lia|].
    change (last (t :: t' :: txs)) with (last (t' :: txs)) in Hl.
    change (last (zeroHash :: map WitnessHash (t' :: txs))) with (last (map WitnessHash (t' :: txs))).
    transitivity (WitnessHash <$> last (t' :: txs)); [apply fmap_last|by rewrite Hl].
  - transitivity (TxHash <$> last txs); [apply fmap_last|by rewrite Hl].
Qed.

Lemma zlen_flatten ps : zlen (flatten ps) = 2 * zlen ps.
Proof. unfold zlen. rewrite length_flatten. lia. Qed.

(** The root from a store that has taken in a whole row of at least two nodes. *)
Lemma roll_even ps r fuel :
  peaks (flatten ps) r -> ps <> [] -> 2 * zlen ps < 2^63 -> (length ps <= fuel)%nat ->
  (foldRoots fuel (mkRolling r (zlen (flatten ps))) ≫= fun s => head (rm_roots s)) = merkleRoot (flatten ps).
Proof.
  intros Hp Hps Hl Hf. destruct (foldRoots_root fuel ps r) as (s & -> & Hroot); [done..| |done|done].
  by rewrite zlen_flatten.
Qed.

Lemma roll_odd ps x r fuel :
  peaks (flatten ps ++ [x]) r -> ps <> [] -> 2 * zlen ps + 2 < 2^63 -> (S (length ps) <= fuel)%nat ->
  (rollingAdd (mkRolling r (zlen (flatten ps ++ [x]))) x ≫= fun s1 =>
   foldRoots fuel s1 ≫= fun s => head (rm_roots s)) = merkleRoot (flatten ps ++ [x]).
Proof.
  intros Hp Hps Hl Hf.
  destruct (rollingAdd_peaks _ r x Hp) as (r2 & -> & Hr2).
  { rewrite zlen_app, zlen_flatten. change (zlen [x]) with 1. lia. }
  replace ((flatten ps ++ [x]) ++ [x]) with (flatten (ps ++ [(x, x)])) in * by (by rewrite flatten_app, <- app_assoc).
  rewrite merkleRoot_double by done. cbn [mbind option_bind]. apply roll_even; [done|by destruct ps| |].
  - rewrite zlen_app. change (zlen [(x, x)]) with 1. lia.
  - rewrite length_app. cbn. lia.
Qed.

Lemma peaks_one x r : peaks [x] r -> r = [x].
Proof.
  intros Hr. inversion Hr as [|qs r' Hq He|qs r' y Hq He]; subst.
  - apply (f_equal length) in He. rewrite length_flatten in He. cbn in He. lia.
  - destruct qs; [|apply (f_equal length) in He; rewrite length_app, length_flatten in He; cbn in He; lia].
    apply peaks_nil_inv in Hq as ->. by simplify_eq/=.
Qed.

Lemma CalcMerkleRoot_root txs w :
  txs <> [] -> zlen txs < 2^62 -> CalcMerkleRoot txs w = merkleRoot (merkleLeaves txs w).
Proof.
  intros Hne Hl. unfold CalcMerkleRoot, calcMerkleRoot.
  pose proof (length_merkleLeaves txs w) as Hrow. pose proof (last_merkleLeaves txs w) as Hlast.
  revert Hrow Hlast. generalize (merkleLeaves txs w); intros row Hrow Hlast.
  change newRollingMerkleTreeStore with (mkRolling [] (zlen (@nil (list Z)))).
  destruct (rollingAdds_peaks row [] [] peaks_nil) as (r & -> & Hr); [unfold zlen in *; cbn; lia|].
  cbn [app rm_numLeaves rm_roots]. cbn [app] in Hr.
  destruct (Z.eqb_spec (zlen row) 1) as [H1|H1].
  { unfold zlen in H1. destruct row as [|x [|y row]]; cbn in H1; [lia| |lia]. by apply peaks_one in Hr as ->. }
  destruct (last txs) as [tx|] eqn:Htx; [|by apply last_None in Htx].
  assert (1 < length txs)%nat as H2 by (unfold zlen in H1; destruct txs; [done|cbn in *; lia]).
  specialize (Hlast tx eq_refl H2). rewrite <- Hrow in *. unfold zlen in Hl. rewrite <- Hrow in Hl.
  destruct (row_cases row) as (ps & [->|[x ->]]).
  - rewrite length_flatten in *. rewrite <- Nat.negb_even, Nat.even_even. cbn [negb].
    apply (roll_even ps r); [done|by intros ->|unfold zlen; lia|lia].
  - rewrite last_snoc in Hlast. injection Hlast as <-.
    rewrite length_app, length_flatten in *. cbn [length] in *.
    rewrite Nat.add_1_r, Nat.odd_succ, Nat.even_even.
    apply (roll_odd ps x r); [done|intros ->; cbn in H2; lia|unfold zlen; lia|lia].
Qed.

(** ** The array holds the rows of the tree *)

Lemma nextPowerOfTwo_spec n :
  0 < n -> exists k, nextPowerOfTwo n = 2 ^ Z.of_nat k /\ n <= 2 ^ Z.of_nat k < 2 * n.
Proof.
  intros Hn. unfold nextPowerOfTwo. pose proof (Z.log2_spec n Hn) as [Hlo Hhi].
  pose proof (Z.log2_nonneg n). rewrite Z.pow_succ_r in Hhi by lia.
  destruct (Z.eqb_spec (Z.land n (n - 1)) 0) as [H0|H0].
  - exists (Z.to_nat (Z.log2 n)). rewrite Z2Nat.id by lia.
    destruct (Z.eq_dec n (2 ^ Z.log2 n)) as [He|Hne]; [split; [done|lia]|exfalso].
    apply (f_equal (fun z => Z.testbit z (Z.log2 n))) in H0. rewrite Z.bits_0, Z.land_spec, Z.bit_log2 in H0 by done.
    replace (Z.log2 n) with (Z.log2 (n - 1)) in H0.
    + rewrite Z.bit_log2 in H0 by lia. done.
    + apply Z.log2_unique; [lia|]. rewrite Z.pow_succ_r by lia. lia.
  - exists (Z.to_nat (Z.log2 n + 1)). rewrite Z2Nat.id, Z.shiftl_1_l by lia. split; [done|].
    rewrite Z.pow_add_r, Z.pow_1_r by lia. split; [lia|].
    assert (n <> 2 ^ Z.log2 n) as Hne; [|lia]. intros He. apply H0.
    rewrite He at 2. rewrite He at 1. rewrite Z.sub_1_r, <- Z.ones_equiv, Z.land_ones by lia.
    apply Z_mod_same_full.
Qed.

(** What the loop leaves: the leaves, and parents over the whole array. *)
Definition filled (P : nat) (m0 m : list (option (list Z))) (J : nat) : Prop :=
  length m = length m0 /\ (forall i, (i < P)%nat -> m !! i = m0 !! i) /\
  (forall j, (j < J)%nat -> m !! (P + j)%nat = Some (merkleParent (mjoin (m !! (2 * j)%nat)) (mjoin (m !! (2 * j + 1)%nat)))).

Lemma fillParent_filled P m0 J :
  (J < P)%nat -> length m0 = (2 * P - 1)%nat -> filled P m0 (foldl (fillParent P) m0 (seq 0 J)) J.
Proof.
  intros HJ Hm0. induction J as [|J IH]; [split_and!; [done|done|lia]|].
  destruct (IH ltac:(lia)) as (Hl & Hleaf & Hpar). rewrite seq_S, foldl_app. cbn [foldl].
  set (m := foldl (fillParent P) m0 (seq 0 J)) in *. unfold fillParent. cbn [plus].
  split_and!.
  - by rewrite length_insert.
  - intros i Hi. rewrite list_lookup_insert_ne by lia. auto.
  - intros j Hj. rewrite !(list_lookup_insert_ne _ _ (2 * j)), !(list_lookup_insert_ne _ _ (2 * j + 1)) by lia.
    destruct (decide (j = J)) as [->|].
    + rewrite list_lookup_insert_eq by lia. done.
    + rewrite list_lookup_insert_ne by lia. apply Hpar. lia.
Qed.

Lemma lookup_pairUp row j :
  pairUp row !! j = merkleParent (row !! (2 * j)%nat) (row !! (2 * j + 1)%nat).
Proof.
  revert j. remember (length row) as n eqn:Hn. revert row Hn.
  induction n as [n IH] using lt_wf_ind; intros row Hn j.
  destruct row as [|l [|r row]].
  - done.
  - destruct j as [|j]; [done|]. cbn [pairUp]. replace (2 * S j)%nat with (S (S (2 * j))) by lia. done.
  - destruct j as [|j]; [done|]. replace (2 * S j)%nat with (S (S (2 * j))) by lia. cbn.
    apply (IH (length row)); [cbn in Hn; lia|done].
Qed.

Lemma rowsUp_S n row : rowsUp (S n) row = pairUp (rowsUp n row).
Proof. done. Qed.

Lemma rows_in_array k r m m0 row :
  filled (2 ^ k)%nat m0 m (2 ^ k - 1)%nat -> length m0 = (2 * 2 ^ k - 1)%nat ->
  (forall i, (i < 2 ^ k)%nat -> m0 !! i = Some (row !! i)) -> (r <= k)%nat ->
  forall p, (p < 2 ^ (k - r))%nat -> m !! (2 * 2 ^ k - 2 * 2 ^ (k - r) + p)%nat = Some (rowsUp r row !! p).
Proof.
  intros (Hl & Hleaf & Hpar) Hm0 Hrow. induction r as [|r IH]; intros Hr p Hp.
  - rewrite Nat.sub_0_r in *. rewrite Nat.sub_diag. cbn [plus]. rewrite Hleaf, Hrow by lia. done.
  - assert (2 ^ (k - r) = 2 * 2 ^ (k - S r))%nat as Hw by (replace (k - r)%nat with (S (k - S r)) by lia; apply Nat.pow_succ_r').
    assert (2 ^ (k - r) <= 2 ^ k)%nat as Hle by (apply Nat.pow_le_mono_r; lia).
    specialize (IH ltac:(lia)).
    replace (2 * 2 ^ k - 2 * 2 ^ (k - S r) + p)%nat with (2 ^ k + (2 ^ k - 2 ^ (k - r) + p))%nat by lia.
    rewrite Hpar by lia.
    replace (2 * (2 ^ k - 2 ^ (k - r) + p))%nat with (2 * 2 ^ k - 2 * 2 ^ (k - r) + 2 * p)%nat by lia.
    rewrite <- Nat.add_assoc, !IH by lia. by rewrite rowsUp_S, lookup_pairUp.
Qed.

Lemma length_rowsUp k row : (1 <= length row <= 2 ^ k)%nat -> length (rowsUp k row) = 1%nat.
Proof.
  assert (forall r, (r <= k)%nat -> (1 <= length row <= 2 ^ k)%nat -> (1 <= length (rowsUp r row) <= 2 ^ (k - r))%nat) as H.
  { intros r. induction r as [|r IH]; intros Hr Hrow; [by rewrite Nat.sub_0_r|].
    specialize (IH ltac:(lia) Hrow). rewrite rowsUp_S, length_pairUp.
    assert (2 ^ (k - r) = 2 * 2 ^ (k - S r))%nat by (replace (k - r)%nat with (S (k - S r)) by lia; apply Nat.pow_succ_r').
    split; [apply (Nat.div_le_lower_bound _ 2 1); lia|].
    apply Nat.lt_succ_r, Nat.Div0.div_lt_upper_bound. lia. }
  intros Hrow. specialize (H k ltac:(lia) Hrow). rewrite Nat.sub_diag in H. cbn in H. lia.
Qed.

Lemma merkleRoot_rowsUp k row :
  (1 <= length row <= 2 ^ k)%nat -> (2 ^ k < 2 * length row)%nat -> merkleRoot row = head (rowsUp k row).
Proof.
  assert (forall r, (r <= k)%nat -> (2 ^ k < 2 * length row)%nat -> (2 ^ (k - r) < 2 * length (rowsUp r row))%nat
            /\ merkleRoot (rowsUp r row) = merkleRoot row) as H.
  { intros r. induction r as [|r IH]; intros Hr Hrow; [by rewrite Nat.sub_0_r|].
    destruct (IH ltac:(lia) Hrow) as [Hl Hm]. rewrite rowsUp_S, length_pairUp.
    assert (2 ^ (k - r) = 2 * 2 ^ (k - S r))%nat as Hw by (replace (k - r)%nat with (S (k - S r)) by lia; apply Nat.pow_succ_r').
    assert (1 <= 2 ^ (k - S r))%nat by (pose proof (Nat.pow_nonzero 2 (k - S r)); lia).
    pose proof (Nat.div_mod_eq (length (rowsUp r row) + 1) 2).
    pose proof (Nat.mod_upper_bound (length (rowsUp r row) + 1) 2).
    split; [lia|]. rewrite <- merkleRoot_pairUp; [done|lia]. }
  intros Hrow Hk. destruct (H k ltac:(lia) Hk) as [_ <-].
  pose proof (length_rowsUp k row Hrow) as H1. by destruct (rowsUp k row) as [|x [|y l]].
Qed.

Lemma BuildMerkleTreeStore_root txs w :
  txs <> [] -> exists m, BuildMerkleTreeStore txs w = Some m /\ mjoin (last m) = merkleRoot (merkleLeaves txs w).
Proof.
  intros Hne. unfold BuildMerkleTreeStore.
  assert (0 < zlen txs) as Hpos by (unfold zlen; destruct txs; [done|cbn; lia]).
  destruct (nextPowerOfTwo_spec (zlen txs) Hpos) as (k & -> & Hk1 & Hk2).
  destruct (Z.ltb_spec (2 ^ Z.of_nat k * 2 - 1) 0); [lia|]. eexists; split; [done|].
  pose proof (length_merkleLeaves txs w) as Hrow. revert Hrow. generalize (merkleLeaves txs w); intros row Hrow.
  unfold zlen in *. rewrite <- Hrow in *.
  assert (2 ^ Z.of_nat k = Z.of_nat (2 ^ k)) as Hpow by (by rewrite Nat2Z.inj_pow). rewrite Hpow in *.
  replace (Z.to_nat (Z.of_nat (2 ^ k))) with (2 ^ k)%nat by lia.
  replace (Z.to_nat (Z.of_nat (2 ^ k) - 1)) with (2 ^ k - 1)%nat by lia.
  replace (Z.to_nat (Z.of_nat (2 ^ k) * 2 - 1)) with (2 * 2 ^ k - 1)%nat by lia.
  set (m0 := map Some row ++ replicate (2 * 2 ^ k - 1 - length row) None).
  assert (length m0 = 2 * 2 ^ k - 1)%nat as Hm0 by (unfold m0; rewrite length_app, length_map, length_replicate; lia).
  pose proof (fillParent_filled (2 ^ k) m0 (2 ^ k - 1) ltac:(lia) Hm0) as Hf.
  assert (forall i, (i < 2 ^ k)%nat -> m0 !! i = Some (row !! i)) as Hleaf.
  { intros i Hi. unfold m0. destruct (decide (i < length row)%nat) as [Hin|Hout].
    - rewrite lookup_app_l by (rewrite length_map; lia). destruct (lookup_lt_is_Some_2 row i Hin) as [x Hx].
      rewrite Hx. transitivity (Some <$> row !! i); [apply list_lookup_fmap|by rewrite Hx].
    - rewrite lookup_app_r, length_map, lookup_replicate_2 by (rewrite ?length_map; lia).
      by rewrite lookup_ge_None_2 by lia. }
  pose proof (rows_in_array k k _ m0 row Hf Hm0 Hleaf ltac:(lia) 0 ltac:(rewrite Nat.sub_diag; cbn; lia)) as Hlast.
  rewrite Nat.sub_diag, Nat.add_0_r in Hlast. destruct Hf as (Hlen & _).
  rewrite last_lookup, Hlen, Hm0. replace (pred (2 * 2 ^ k - 1)) with (2 * 2 ^ k - 2 * 2 ^ 0)%nat by (cbn; lia).
  rewrite Hlast. cbn [mjoin option_join]. rewrite (merkleRoot_rowsUp k row) by lia. by destruct (rowsUp k row).
Qed.

(** ** The root commits to its leaves *)

(** The byte strings hashed to pair a row up, and to reach the [k]th row. *)
Fixpoint rowPreimages (row : list (list Z)) : list (list Z) :=
  match row with
  | l :: r :: row' => (l ++ r) :: rowPreimages row'
  | [l] => [l ++ l]
  | [] => []
  end.

Fixpoint treePreimages (k : nat) (row : list (list Z)) : list (list Z) :=
  match k with O => [] | S k' => rowPreimages row ++ treePreimages k' (pairUp row) end.

(** No two of these byte strings have the same double hash. *)
Definition collision_free (l : list (list Z)) : Prop :=
  forall x y, x ∈ l -> y ∈ l -> DoubleHashB x = DoubleHashB y -> x = y.

Lemma pairUp_preimages row : pairUp row = map DoubleHashB (rowPreimages row).
Proof.
  remember (length row) as n eqn:Hn. revert row Hn.
  induction n as [n IH] using lt_wf_ind; intros row Hn.
  destruct row as [|l [|r row]]; [done..|]. cbn. f_equal. apply (IH (length row)); [cbn in Hn; lia|done].
Qed.

Lemma map_inj_on {A B} (f : A -> B) (l l' : list A) :
  (forall x y, x ∈ l -> y ∈ l' -> f x = f y -> x = y) -> map f l = map f l' -> l = l'.
Proof.
  revert l'; induction l as [|x l IH]; intros [|y l'] Hf He; try done.
  cbn in He. injection He as Hxy He. f_equal; [apply Hf; [set_solver..|done]|].
  apply IH; [|done]. intros; apply Hf; set_solver.
Qed.

Lemma NoDup_map_on {A B} (f : A -> B) (l : list A) :
  (forall x y, x ∈ l -> y ∈ l -> f x = f y -> x = y) -> NoDup l -> NoDup (map f l).
Proof.
  intros Hf Hl; induction Hl as [|x l Hx Hl IH]; [constructor|]. cbn. constructor.
  - intros Hin. apply list_elem_of_fmap in Hin as (y & Hy & Hiny). rewrite (Hf x y) in Hx; set_solver.
  - apply IH. intros; apply Hf; set_solver.
Qed.

Lemma rowPreimages_elem row p :
  Forall (fun h => length h = HashSize) row -> p ∈ rowPreimages row ->
  exists l r, l ∈ row /\ p = l ++ r /\ length l = HashSize.
Proof.
  remember (length row) as n eqn:Hn. revert row Hn.
  induction n as [n IH] using lt_wf_ind; intros row Hn Hl Hp.
  destruct row as [|l [|r row]]; cbn in Hp.
  - by apply not_elem_of_nil in Hp.
  - apply list_elem_of_singleton in Hp as ->. exists l, l. inversion Hl; subst. split_and!; set_solver.
  - inversion Hl as [|? ? Hl1 Hl2]; subst. inversion Hl2; subst.
    apply elem_of_cons in Hp as [->|Hp]; [exists l, r; split_and!; set_solver|].
    destruct (IH (length row) ltac:(cbn; lia) row eq_refl) as (l' & r' & Hin & -> & Hl'); [done..|].
    exists l', r'. split_and!; set_solver.
Qed.

Lemma rowPreimages_NoDup row :
  Forall (fun h => length h = HashSize) row -> NoDup row -> NoDup (rowPreimages row).
Proof.
  remember (length row) as n eqn:Hn. revert row Hn.
  induction n as [n IH] using lt_wf_ind; intros row Hn Hl Hd.
  destruct row as [|l [|r row]]; cbn; [constructor|repeat constructor; set_solver|].
  inversion Hl as [|? ? Hl1 Hl2]; subst. inversion Hl2; subst.
  apply NoDup_cons in Hd as [Hnl Hd]. apply NoDup_cons in Hd as [Hnr Hd].
  constructor; [|by apply (IH (length row)); [cbn; lia|..]].
  intros Hin. apply rowPreimages_elem in Hin as (l' & r' & Hin & He & Hl'); [|done].
  apply app_inj_1 in He as [-> _]; [set_solver|congruence].
Qed.

Lemma rowPreimages_inj a b :
  Forall (fun h => length h = HashSize) a -> Forall (fun h => length h = HashSize) b ->
  NoDup a -> NoDup b -> rowPreimages a = rowPreimages b -> a = b.
Proof.
  revert b. remember (length a) as n eqn:Hn. revert a Hn.
  induction n as [n IH] using lt_wf_ind; intros a Hn b Ha Hb Hda Hdb He.
  destruct a as [|l [|r a]], b as [|l' [|r' b]]; cbn in He; try done;
    inversion Ha as [|? ? Ha1 Ha2]; inversion Hb as [|? ? Hb1 Hb2]; subst.
  - injection He as He. by apply app_inj_1 in He as [-> _]; [|congruence].
  - injection He as He _. apply app_inj_1 in He as [-> <-]; [|congruence].
    apply NoDup_cons in Hdb as [Hdb _]. set_solver.
  - injection He as He _. apply app_inj_1 in He as [<- ->]; [|congruence].
    apply NoDup_cons in Hda as [Hda _]. set_solver.
  - inversion Ha2; inversion Hb2; subst. injection He as He1 He2.
    apply app_inj_1 in He1 as [-> ->]; [|congruence].
    apply NoDup_cons in Hda as [_ Hda]. apply NoDup_cons in Hda as [_ Hda].
    apply NoDup_cons in Hdb as [_ Hdb]. apply NoDup_cons in Hdb as [_ Hdb].
    f_equal; f_equal. by apply (IH (length a)); [cbn; lia|..].
Qed.

Lemma pairUp_hashes row : Forall (fun h => length h = HashSize) (pairUp row).
Proof. rewrite pairUp_preimages. apply Forall_forall. intros h (p & -> & _)%list_elem_of_fmap. apply length_DoubleHashB. Qed.

Lemma rows_commit k a b :
  Forall (fun h => length h = HashSize) a -> Forall (fun h => length h = HashSize) b ->
  (2 ^ k < 2 * length a <= 2 * 2 ^ k)%nat -> (2 ^ k < 2 * length b <= 2 * 2 ^ k)%nat ->
  NoDup a -> NoDup b -> collision_free (treePreimages k a ++ treePreimages k b) ->
  head (rowsUp k a) = head (rowsUp k b) -> a = b.
Proof.
  revert a b; induction k as [|k IH]; intros a b Ha Hb Hka Hkb Hda Hdb Hc He.
  - destruct a as [|x [|y a]], b as [|x' [|y' b]]; cbn in *; try lia. by simplify_eq.
  - rewrite Nat.pow_succ_r' in *. cbn [treePreimages] in Hc.
    assert (pairUp a = pairUp b) as Hp.
    { assert (forall c, (2 * 2 ^ k < 2 * length c <= 2 * (2 * 2 ^ k))%nat ->
                (2 ^ k < 2 * length (pairUp c) <= 2 * 2 ^ k)%nat) as Hlen.
      { intros c Hcl. rewrite length_pairUp. pose proof (Nat.div_mod_eq (length c + 1) 2).
        pose proof (Nat.mod_upper_bound (length c + 1) 2). lia. }
      unfold rowsUp in He. rewrite !Nat.iter_succ_r in He.
      apply IH; auto using pairUp_hashes.
      1,2: rewrite pairUp_preimages; apply NoDup_map_on; [intros ????; apply Hc; set_solver|by apply rowPreimages_NoDup].
      intros ????; apply Hc; set_solver. }
    rewrite !pairUp_preimages in Hp. apply rowPreimages_inj; [done..|].
    apply (map_inj_on DoubleHashB); [intros ????; apply Hc; set_solver|done].
Qed.

Lemma merkleRoot_Some row : row <> [] -> exists root, merkleRoot row = Some root.
Proof.
  intros Hne. assert (0 < zlen row) as Hpos by (unfold zlen; destruct row; [done|cbn; lia]).
  destruct (nextPowerOfTwo_spec (zlen row) Hpos) as (k & _ & Hk1 & Hk2). unfold zlen in *.
  rewrite <- (Nat2Z.inj_pow 2) in *. rewrite (merkleRoot_rowsUp k row) by lia.
  pose proof (length_rowsUp k row ltac:(lia)) as H1. destruct (rowsUp k row) as [|x l]; [done|]. by exists x.
Qed.

Lemma length_TxHash tx : length (TxHash tx) = HashSize.
Proof. apply length_DoubleHashB. Qed.

(** Two lists of distinct transaction ids that fill arrays of the same size and
    have the same root are the same list, unless two of the strings hashed on the
    way collide. *)
Lemma CalcMerkleRoot_commits txs txs' root k :
  nextPowerOfTwo (zlen txs) = 2 ^ Z.of_nat k -> nextPowerOfTwo (zlen txs') = 2 ^ Z.of_nat k ->
  zlen txs < 2^62 -> zlen txs' < 2^62 -> NoDup (map TxHash txs) -> NoDup (map TxHash txs') ->
  collision_free (treePreimages k (map TxHash txs) ++ treePreimages k (map TxHash txs')) ->
  CalcMerkleRoot txs false = Some root -> CalcMerkleRoot txs' false = Some root ->
  map TxHash txs = map TxHash txs'.
Proof.
  intros Hk Hk' Hl Hl' Hd Hd' Hc He He'.
  assert (txs <> [] /\ txs' <> []) as [Hne Hne'] by (split; intros ->; done).
  rewrite CalcMerkleRoot_root in He, He' by done.
  assert (forall l : list MsgTx, l <> [] -> nextPowerOfTwo (zlen l) = 2 ^ Z.of_nat k ->
            (2 ^ k < 2 * length (map TxHash l) <= 2 * 2 ^ k)%nat) as Hlen.
  { intros l Hlne Hlk. assert (0 < zlen l) as Hpos by (unfold zlen; destruct l; [done|cbn; lia]).
    destruct (nextPowerOfTwo_spec (zlen l) Hpos) as (k' & Hk1 & Hk2 & Hk3). rewrite Hlk in Hk1.
    apply Z.pow_inj_r in Hk1 as Hkk; [|lia..]. apply Nat2Z.inj in Hkk as <-.
    unfold zlen in *. rewrite <- (Nat2Z.inj_pow 2) in *. rewrite length_map. lia. }
  assert (forall l, Forall (fun h => length h = HashSize) (map TxHash l)) as Hh.
  { intros l. apply Forall_forall. intros h (tx & -> & _)%list_elem_of_fmap. apply length_TxHash. }
  apply (rows_commit k); auto.
  cbn [merkleLeaves] in He, He'.
  pose proof (Hlen txs Hne Hk). pose proof (Hlen txs' Hne' Hk').
  rewrite <- !merkleRoot_rowsUp by lia. congruence.
Qed.

(** C31: for every non-empty list of transactions, the linear array that
    [BuildMerkleTreeStore] fills and the logarithmic store of [CalcMerkleRoot]
    give the same root, the root of the tree that pairs each row up and doubles
    the last node of an odd row; neither runs out of roots to pop. *)
Theorem merkle_computations_agree txs witness :
  txs <> [] -> zlen txs < 2^62 ->
  exists merkles root,
    BuildMerkleTreeStore txs witness = Some merkles /\ last merkles = Some (Some root) /\
    CalcMerkleRoot txs witness = Some root /\ merkleRoot (merkleLeaves txs witness) = Some root.
Proof.
  intros Hne Hl. destruct (BuildMerkleTreeStore_root txs witness Hne) as (m & Hm & Hlast).
  destruct (merkleRoot_Some (merkleLeaves txs witness)) as (root & Hroot).
  { intros H. apply (f_equal length) in H. rewrite length_merkleLeaves in H. by destruct txs. }
  exists m, root. split_and!; [done| |by rewrite CalcMerkleRoot_root|done].
  rewrite Hroot in Hlast. by destruct (last m) as [[x|]|]; simplify_eq/=.
Qed.

Definition sampleTxs : list MsgTx := map NewMsgTx [1; 2; 3; 4; 5; 6; 7].

Lemma merkle_computations_agree_witness :
  exists merkles root,
    BuildMerkleTreeStore sampleTxs false = Some merkles /\ last merkles = Some (Some root) /\
    CalcMerkleRoot sampleTxs false = Some root /\ merkleRoot (merkleLeaves sampleTxs false) = Some root.
Proof. apply (merkle_computations_agree sampleTxs false); [discriminate|vm_compute; reflexivity]. Defined.
