(* ===== verification/Genesis.v ===== *)
(** * Genesis blocks

    src/chaincfg/genesis.go: the blocks at height zero of the three OBTC networks,
    whose one transaction they share. The theorem: the hashes and the Merkle root
    written into the parameters are those of the blocks. *)

From S2P Require Import Prelude ChainParams Sha256 Wire Script Block Merkle.

Definition genesisSignatureScript : list Z :=
  [0x04; 0xff; 0xff; 0x00; 0x1d; 0x01; 0x04; 0x45; 0x54; 0x68; 0x65; 0x20; 0x54; 0x69; 0x6d; 0x65;
   0x73; 0x20; 0x30; 0x33; 0x2f; 0x4a; 0x61; 0x6e; 0x2f; 0x32; 0x30; 0x30; 0x39; 0x20; 0x43; 0x68;
   0x61; 0x6e; 0x63; 0x65; 0x6c; 0x6c; 0x6f; 0x72; 0x20; 0x6f; 0x6e; 0x20; 0x62; 0x72; 0x69; 0x6e;
   0x6b; 0x20; 0x6f; 0x66; 0x20; 0x73; 0x65; 0x63; 0x6f; 0x6e; 0x64; 0x20; 0x62; 0x61; 0x69; 0x6c;
   0x6f; 0x75; 0x74; 0x20; 0x66; 0x6f; 0x72; 0x20; 0x62; 0x61; 0x6e; 0x6b; 0x73].

Definition genesisPkScript : list Z :=
  [0x41; 0x04; 0x67; 0x8a; 0xfd; 0xb0; 0xfe; 0x55; 0x48; 0x27; 0x19; 0x67; 0xf1; 0xa6; 0x71; 0x30;
   0xb7; 0x10; 0x5c; 0xd6; 0xa8; 0x28; 0xe0; 0x39; 0x09; 0xa6; 0x79; 0x62; 0xe0; 0xea; 0x1f; 0x61;
   0xde; 0xb6; 0x49; 0xf6; 0xbc; 0x3f; 0x4c; 0xef; 0x38; 0xc4; 0xf3; 0x55; 0x04; 0xe5; 0x1e; 0xc1;
   0x12; 0xde; 0x5c; 0x38; 0x4d; 0xf7; 0xba; 0x0b; 0x8d; 0x57; 0x8a; 0x4c; 0x70; 0x2b; 0x6b; 0xf1;
   0x1d; 0x5f; 0xac].

Definition genesisCoinbaseTx : MsgTx :=
  mkMsgTx 1 [mkTxIn (mkOutPoint (replicate 32 0) 0xffffffff) genesisSignatureScript [] 0xffffffff]
    [mkTxOut 0x12a05f200 genesisPkScript] 0.

Definition genesisMerkleRoot : list Z :=
  [0x3b; 0xa3; 0xed; 0xfd; 0x7a; 0x7b; 0x12; 0xb2; 0x7a; 0xc7; 0x2c; 0x3e; 0x67; 0x76; 0x8f; 0x61;
   0x7f; 0xc8; 0x1b; 0xc3; 0x88; 0x8a; 0x51; 0x32; 0x3a; 0x9f; 0xb8; 0xaa; 0x4b; 0x1e; 0x5e; 0x4a].

Definition genesisBlock : Block :=
  mkBlock 0 (mkBlockHeader 1 (replicate 32 0) genesisMerkleRoot 0x495fab29 0x1d00ffff 0x7c2bac1d) [genesisCoinbaseTx].

Definition regTestGenesisBlock : Block :=
  mkBlock 0 (mkBlockHeader 1 (replicate 32 0) genesisMerkleRoot 1296688602 0x207fffff 2) [genesisCoinbaseTx].

(** The timestamp is 27 May 2026, midnight UTC. *)
Definition obtcTestNetGenesisBlock : Block :=
  mkBlock 0 (mkBlockHeader 1 (replicate 32 0) genesisMerkleRoot 1779840000 0x207fffff 0) [genesisCoinbaseTx].

(** The recorded genesis hashes are the hashes of the genesis blocks, and each
    header commits to the block's transaction. *)
Theorem genesis_blocks_match :
  Forall (fun nb : Params * Block =>
            Block_Hash nb.2 = GenesisHash nb.1 /\
            CalcMerkleRoot (Transactions nb.2) false = Some (bh_MerkleRoot (Header nb.2)))
    [(ObtcMainNetParams, genesisBlock); (ObtcTestNetParams, obtcTestNetGenesisBlock);
     (ObtcRegTestParams, regTestGenesisBlock)].
Proof. repeat (constructor; [split; vm_compute; reflexivity|]). constructor. Qed.
