(* ===== verification/ChainState.v ===== *)
(** * Connecting and disconnecting blocks

    Models the parts of src/blockchain/chain.go, process.go's callees and
    src/blockchain/indexers/manager.go that move the best chain: the best state
    snapshot, writing dirty block nodes, [connectBlock], [disconnectBlock],
    [getReorganizeNodes], [reorganizeChain] with its verification,
    [connectBestChain], and [FlushUtxoCache], [flushNeededAfterPrune] and
    [InitConsistentState] of utxocache.go.

    A block chain is the database ([Store]) and the state in memory: block index,
    chain view, UTXO cache and snapshot. A database transaction is all or nothing,
    memory is not rolled back: every operation returns the state it leaves behind
    together with its result, also when it fails. The database driver is a
    parameter: [fetchBlock] reads a stored block, and [pruneBlocks] gives the
    hashes a prune deletes. The rules of [checkConnectBlock] and the time are
    arguments. The enabled index is a class [Indexer], as the interface of
    indexers/common.go is. Block nodes and parents that the code compares by pointer
    are compared by hash; the block index has one node for a hash. Notifications and
    the log are left out, and so are the warnings about unknown rules, with the errors
    that looking for them can return. *)

From S2P Require Import Prelude ChainParams Sha256 Wire Encode Commitment Script Block Compress Bucket IndexDB Ledger UtxoView WorkMath ChainIO ChainStore BlockNode Difficulty Threshold SizeHelper UtxoCache ChainView ExpiryIndex Text ReapRules.

(** ** The index interface *)

Class Indexer := {
  ix_state : Type;
  ix_key : list Z;
  ixConnectBlock : ix_state -> Block -> list SpentTxOut -> result ei_error ix_state;
  ixDisconnectBlock : ix_state -> Block -> list SpentTxOut -> result ei_error ix_state }.

(** What failed; only rule errors condemn a block. *)
Inductive chain_error :=
| ChainIOError (e : chainio_error)
| ViewError (e : view_error)
| IndexError (e : ei_error)
| BlockRuleError (e : rule_error)
| ChainDifficulty (e : diff_error)
| ChainThreshold (e : threshold_error)
| ChainAssert (what : string)
| ChainPanic (what : string).

Definition isRuleError (e : chain_error) : bool :=
  match e with
  | BlockRuleError (RuleError _ _) => true
  | IndexError ErrBadExpiryCommitmentDuplicate | IndexError ErrBadExpiryCommitmentMissing
  | IndexError ErrBadExpiryCommitmentFormat | IndexError ErrBadExpiryCommitmentMismatch => true
  | _ => false
  end.

Definition liftIO {A} (r : result chainio_error A) : result chain_error A :=
  match r with Ok a => Ok a | Err e => Err (ChainIOError e) end.
Definition liftView {A} (r : result view_error A) : result chain_error A :=
  match r with Ok a => Ok a | Err e => Err (ViewError e) end.
Definition liftRule {A} (r : result rule_error A) : result chain_error A :=
  match r with Ok a => Ok a | Err e => Err (BlockRuleError e) end.
Definition liftDifficulty {A} (r : result diff_error A) : result chain_error A :=
  match r with Ok a => Ok a | Err e => Err (ChainDifficulty e) end.
Definition liftIndex {A} (r : result ei_error A) : result chain_error A :=
  match r with Ok a => Ok a | Err e => Err (IndexError e) end.

(** ** The best state *)

Record BestState := mkBestState {
  bs_Hash : list Z;
  bs_Height : Z;
  bs_Bits : Z;
  bs_BlockSize : Z;
  bs_BlockWeight : Z;
  bs_NumTxns : Z;
  bs_TotalTxns : Z;
  bs_MedianTime : Z }.

Definition BlockSerializeSize (block : Block) : Z :=
  blockHeaderLen + VarIntSerializeSize (zlen (Transactions block))
  + foldr (fun tx n => SerializeSize tx + n) 0 (Transactions block).
Definition BlockSerializeSizeStripped (block : Block) : Z :=
  blockHeaderLen + VarIntSerializeSize (zlen (Transactions block))
  + foldr (fun tx n => SerializeSizeStripped tx + n) 0 (Transactions block).

Definition GetBlockWeight (block : Block) : Z :=
  BlockSerializeSizeStripped block * (WitnessScaleFactor - 1) + BlockSerializeSize block.

Definition newBestState (node : blockNode) (blockSize blockWeight numTxns totalTxns medianTime : Z) : BestState :=
  mkBestState (node_hash node) (node_height node) (node_bits node) blockSize blockWeight numTxns totalTxns medianTime.

(** The state at [node], whose block is [block]. *)
Definition stateAt (node : blockNode) (block : Block) (totalTxns : Z) : BestState :=
  newBestState node (BlockSerializeSize block) (GetBlockWeight block) (zlen (Transactions block)) (u64 totalTxns)
    (CalcPastMedianTime node).

Section chain.
Context {codec : KeyCodec} {ix : Indexer}.

(** ** The database and the chain *)

Record Store := mkStore {
  st_chain : ChainDB;
  st_tips : Bucket;
  st_index : ix_state }.

Record BlockChain := mkBlockChain {
  bc_store : Store;
  bc_nodes : blockIndex;
  bc_best : chainView;
  bc_cache : utxoCache;
  bc_state : BestState }.

Definition withChainDB (st : Store) (db : ChainDB) : Store := mkStore db (st_tips st) (st_index st).
Definition withStore (b : BlockChain) (st : Store) : BlockChain :=
  mkBlockChain st (bc_nodes b) (bc_best b) (bc_cache b) (bc_state b).
Definition withNodes (b : BlockChain) (bi : blockIndex) : BlockChain :=
  mkBlockChain (bc_store b) bi (bc_best b) (bc_cache b) (bc_state b).
Definition withCache (b : BlockChain) (s : utxoCache) : BlockChain :=
  mkBlockChain (bc_store b) (bc_nodes b) (bc_best b) s (bc_state b).

(** ** The index manager *)

Definition dbPutIndexerTip (tips : Bucket) (hash : list Z) (height : Z) : Bucket :=
  <[ix_key := hash ++ le_bytes 4 (u32 height)]> tips.

Definition dbFetchIndexerTip (tips : Bucket) : result chainio_error (list Z * Z) :=
  let serialized := default [] (tips !! ix_key) in
  if zlen serialized <? Z.of_nat HashSize + 4 then Err (ErrCorruption "unexpected end of data for index tip")
  else Ok (take HashSize serialized, i32 (le_val (slice 32 36 serialized))).

Definition dbIndexConnectBlock (st : Store) (block : Block) (stxos : list SpentTxOut) : result chain_error Store :=
  '(curTipHash, _) ← liftIO (dbFetchIndexerTip (st_tips st));
  if negb (bool_decide (curTipHash = bh_PrevBlock (Header block)))
  then Err (ChainAssert "dbIndexConnectBlock must be called with a block that extends the current index tip")
  else
    s ← liftIndex (ixConnectBlock (st_index st) block stxos);
    Ok (mkStore (st_chain st) (dbPutIndexerTip (st_tips st) (Block_Hash block) (Height block)) s).

Definition dbIndexDisconnectBlock (st : Store) (block : Block) (stxos : list SpentTxOut) : result chain_error Store :=
  '(curTipHash, _) ← liftIO (dbFetchIndexerTip (st_tips st));
  if negb (bool_decide (curTipHash = Block_Hash block))
  then Err (ChainAssert "dbIndexDisconnectBlock must be called with the block at the current index tip")
  else
    s ← liftIndex (ixDisconnectBlock (st_index st) block stxos);
    Ok (mkStore (st_chain st) (dbPutIndexerTip (st_tips st) (bh_PrevBlock (Header block)) (i32 (Height block - 1))) s).

(** ** The block index on disk *)

Definition storeNode (bi : blockIndex) (db : ChainDB) (hash : list Z) : ChainDB :=
  match LookupNode bi hash with
  | None => db
  | Some node => dbStoreBlockNode db (nodeHeader node) (node_hash node) (node_height node) (NodeStatus bi node)
  end.

Definition flushToDB (b : BlockChain) : BlockChain :=
  let bi := bc_nodes b in
  let db := foldl (storeNode bi) (st_chain (bc_store b)) (elements (bi_dirty bi)) in
  withNodes (withStore b (withChainDB (bc_store b) db)) (mkBlockIndex (bi_index bi) (bi_status bi) ∅).

Definition setFlags (b : BlockChain) (node : blockNode) (flags : Z) : BlockChain :=
  withNodes b (SetStatusFlags (bc_nodes b) node flags).

(** ** Flushing *)

Definition dbPutBestSnapshot (db : ChainDB) (state : BestState) (workSum : Z) : ChainDB :=
  dbPutBestState db (bs_Hash state) (bs_Height state) (bs_TotalTxns state) workSum.

Definition flushNeededAfterPrune (bi : blockIndex) (s : utxoCache) (deletedBlockHashes : list (list Z)) : bool :=
  match LookupNode bi (uc_lastFlushHash s) with
  | None => true
  | Some node =>
      let highest :=
        foldl (fun h hash => match LookupNode bi hash with Some n => Z.max h (node_height n) | None => h end)
          (-1) deletedBlockHashes in
      node_height node <=? highest
  end.

Definition FlushUtxoCache (b : BlockChain) (mode : FlushMode) (now : Z) : BlockChain * result chain_error unit :=
  match flush (st_chain (bc_store b)) (bc_cache b) mode (bs_Hash (bc_state b)) now with
  | Err e => (b, Err (ChainIOError e))
  | Ok (db, s) => (withCache (withStore b (withChainDB (bc_store b) db)) s, Ok tt)
  end.

(** ** Connecting a block *)

(** [PruneBlocks] of the driver: the hashes of the blocks it deletes, none when
    pruning is off. *)
Context (pruneBlocks : Store -> list (list Z)).

(** The transaction of [connectBlock]: the cache, which a prune may have flushed
    even when the transaction fails, and the new database. *)
Definition connectTxn (b : BlockChain) (node : blockNode) (block : Block)
    (stxos : list SpentTxOut) (state : BestState) (now : Z) : utxoCache * result chain_error Store :=
  let db := st_chain (bc_store b) in
  let deletedHashes := pruneBlocks (bc_store b) in
  let pruned :=
    match deletedHashes with
    | [] => Ok (db, bc_cache b)
    | _ =>
        let db1 := dbPruneSpendJournalEntry db deletedHashes in
        if flushNeededAfterPrune (bc_nodes b) (bc_cache b) deletedHashes
        then flush db1 (bc_cache b) FlushRequired (bs_Hash state) now
        else Ok (db1, bc_cache b)
    end in
  match pruned with
  | Err e => (bc_cache b, Err (ChainIOError e))
  | Ok (db1, s1) =>
      let db2 := dbPutBestSnapshot db1 state (node_workSum node) in
      let db3 := dbPutBlockIndex db2 (Block_Hash block) (node_height node) in
      let db4 := dbPutSpendJournalEntry db3 (Block_Hash block) stxos in
      (s1, dbIndexConnectBlock (withChainDB (bc_store b) db4) block stxos)
  end.

Definition connectBlock (b : BlockChain) (node : blockNode) (block : Block)
    (stxos : list SpentTxOut) (now : Z) : BlockChain * result chain_error unit :=
  match viewTip (bc_best b) with
  | None => (b, Err (ChainPanic "tip"))
  | Some tip =>
      if negb (bool_decide (bh_PrevBlock (Header block) = node_hash tip))
      then (b, Err (ChainAssert "connectBlock must be called with a block that extends the main chain"))
      else if negb (length stxos =? countSpentOutputs block)%nat
      then (b, Err (ChainAssert "connectBlock called with inconsistent spent transaction out information"))
      else
        let b1 := flushToDB b in
        let state := stateAt node block (bs_TotalTxns (bc_state b) + zlen (Transactions block)) in
        match connectTxn b1 node block stxos state now with
        | (s1, Err e) => (withCache b1 s1, Err e)
        | (s1, Ok st) =>
            match setTip (bc_best b1) (Some node) with
            | None => (withCache (withStore b1 st) s1, Err (ChainPanic "view"))
            | Some best =>
                let b2 := mkBlockChain st (bc_nodes b1) best s1 state in
                match flush (st_chain st) s1 FlushIfNeeded (bs_Hash state) now with
                | Err e => (b2, Err (ChainIOError e))
                | Ok (db, s2) => (withCache (withStore b2 (withChainDB st db)) s2, Ok tt)
                end
            end
        end
  end.

(** ** Disconnecting a block *)

(** [dbFetchBlockByNode]: the driver's block with the height of the node. *)
Context (fetchBlock : blockNode -> result chain_error Block).

(** The transaction of [disconnectBlock]; the cache is flushed in memory whether
    or not the transaction commits. *)
Definition disconnectTxn (b : BlockChain) (node : blockNode) (block : Block) (view : UtxoViewpoint)
    (state : BestState) (now : Z) : utxoCache * result chain_error Store :=
  let db1 := dbPutBestSnapshot (st_chain (bc_store b)) state (node_workSum node) in
  let db2 := dbRemoveBlockIndex db1 (Block_Hash block) (node_height node) in
  match flush db2 (bc_cache b) FlushRequired (bs_Hash state) now with
  | Err e => (bc_cache b, Err (ChainIOError e))
  | Ok (db3, s1) =>
      (s1,
       db4 ← liftIO (dbPutUtxoView db3 (Some view));
       stxos ← liftIO (dbFetchSpendJournalEntry db4 block);
       dbIndexDisconnectBlock (withChainDB (bc_store b) (dbRemoveSpendJournalEntry db4 (Block_Hash block))) block stxos)
  end.

Definition disconnectBlock (b : BlockChain) (node : blockNode) (block : Block) (view : UtxoViewpoint) (now : Z)
    : BlockChain * result chain_error UtxoViewpoint :=
  match viewTip (bc_best b), nodeParent node with
  | Some tip, Some prevNode =>
      if negb (bool_decide (node_hash node = node_hash tip))
      then (b, Err (ChainAssert "disconnectBlock must be called with the block at the end of the main chain"))
      else
        match fetchBlock prevNode with
        | Err e => (b, Err e)
        | Ok prevBlock =>
            let b1 := flushToDB b in
            let state := stateAt prevNode prevBlock (bs_TotalTxns (bc_state b) - zlen (Transactions block)) in
            match disconnectTxn b1 node block view state now with
            | (s1, Err e) => (withCache b1 s1, Err e)
            | (s1, Ok st) =>
                match setTip (bc_best b1) (Some prevNode) with
                | None => (withCache (withStore b1 st) s1, Err (ChainPanic "view"))
                | Some best => (mkBlockChain st (bc_nodes b1) best s1 state, Ok (commit view))
                end
            end
        end
  | _, _ => (b, Err (ChainPanic "nil node"))
  end.

(** ** The loops of [reorganizeChain] *)

Definition dbFetchByHash (db : ChainDB) (hash : list Z) : result view_error (option UtxoEntry) :=
  match dbFetchUtxoEntryByHash db hash with Ok e => Ok e | Err _ => Err (CannotResurrect (mkOutPoint hash 0)) end.

(** Detach one block with the view carried from the blocks above it. *)
Definition detachBlock (now : Z) (st : BlockChain * UtxoViewpoint) (nb : blockNode * Block * list SpentTxOut)
    : BlockChain * result chain_error UtxoViewpoint :=
  let '(b, view) := st in
  let '(n, block, stxos) := nb in
  match fetchInputUtxos (st_chain (bc_store b)) (bc_cache b) view block with
  | Err e => (b, Err (ChainIOError e))
  | Ok (view1, s1) =>
      let b1 := withCache b s1 in
      match disconnectTransactions (dbFetchByHash (st_chain (bc_store b))) view1 block stxos with
      | Err e => (b1, Err (ViewError e))
      | Ok (view2, _) => disconnectBlock b1 n block view2 now
      end
  end.

Fixpoint detachBlocks (now : Z) (b : BlockChain) (view : UtxoViewpoint)
    (detach : list (blockNode * Block * list SpentTxOut)) : BlockChain * result chain_error unit :=
  match detach with
  | [] => (b, Ok tt)
  | nb :: detach' =>
      match detachBlock now (b, view) nb with
      | (b1, Err e) => (b1, Err e)
      | (b1, Ok view1) => detachBlocks now b1 view1 detach'
      end
  end.

(** The index as the source of REAP candidates, and the network. *)
Context (prefixSource : ix_state -> option ReapPrefixSource) (chainParams : Params).

(** From the REAP prefix check on, as extension and reorganisation share it. *)
Definition attachBlock (now : Z) (b : BlockChain) (node : blockNode) (block : Block)
    : BlockChain * result chain_error unit :=
  match cacheConnectTransactions (st_chain (bc_store b)) (bc_cache b) block (Some []) with
  | ((s1, _), Err e) => (withCache b s1, Err (ChainIOError e))
  | ((s1, stxos), Ok _) => connectBlock (withCache b s1) node block (default [] stxos) now
  end.

Fixpoint attachBlocks (now : Z) (b : BlockChain) (attach : list (blockNode * Block))
    : BlockChain * result chain_error unit :=
  match attach with
  | [] => (b, Ok tt)
  | (n, block) :: attach' =>
      match checkReapGlobalPrefix block (node_height n) (prefixSource (st_index (bc_store b))) chainParams with
      | Err e =>
          (if isRuleError (BlockRuleError e) then setFlags b n statusValidateFailed else b, Err (BlockRuleError e))
      | Ok _ =>
          match attachBlock now b n block with
          | (b1, Err e) => (b1, Err e)
          | (b1, Ok _) => attachBlocks now b1 attach'
          end
      end
  end.

(** [reorganizeChain] after its verification. *)
Definition reorganize (now : Z) (b : BlockChain) (detach : list (blockNode * Block * list SpentTxOut))
    (attach : list (blockNode * Block)) : BlockChain * result chain_error unit :=
  match viewTip (bc_best b) with
  | None => (b, Err (ChainPanic "tip"))
  | Some tip =>
      match detachBlocks now b (SetBestHash NewUtxoViewpoint (node_hash tip)) detach with
      | (b1, Err e) => (b1, Err e)
      | (b1, Ok _) => attachBlocks now b1 attach
      end
  end.

(** ** Choosing the best chain *)

(** The checks of [checkConnectBlock] on a view: the cache, in which it may have
    loaded entries, and the view with the block connected or the error. *)
Context (checkConnectBlock : BlockChain -> UtxoViewpoint -> blockNode -> Block ->
           utxoCache * result chain_error UtxoViewpoint).

(** The checks of a block that extends the best chain, and what they say recorded
    in its node. *)
Definition checkExtension (b : BlockChain) (node : blockNode) (block : Block) (fastAdd : bool)
    : BlockChain * result chain_error unit :=
  if fastAdd then (b, Ok tt)
  else
    let view := SetBestHash NewUtxoViewpoint (bh_PrevBlock (Header block)) in
    match checkConnectBlock b view node block with
    | (s1, Ok _) => (flushToDB (setFlags (withCache b s1) node statusValid), Ok tt)
    | (s1, Err e) =>
        (if isRuleError e then flushToDB (setFlags (withCache b s1) node statusValidateFailed) else withCache b s1, Err e)
    end.

(** The case of [connectBestChain] in which the block extends the best chain. *)
Definition extendBestChain (now : Z) (b : BlockChain) (node : blockNode) (block : Block) (fastAdd : bool)
    : BlockChain * result chain_error bool :=
  let fastAdd := fastAdd || KnownValid (NodeStatus (bc_nodes b) node) in
  let '(b1, verdict) := checkExtension b node block fastAdd in
  match verdict with
  | Err e => (b1, Err e)
  | Ok _ =>
      match checkReapGlobalPrefix block (node_height node) (prefixSource (st_index (bc_store b1))) chainParams with
      | Err e =>
          (if isRuleError (BlockRuleError e) then flushToDB (setFlags b1 node statusValidateFailed) else b1,
           Err (BlockRuleError e))
      | Ok _ =>
          match cacheConnectTransactions (st_chain (bc_store b1)) (bc_cache b1) block (Some []) with
          | ((s1, _), Err e) => (withCache b1 s1, Err (ChainIOError e))
          | ((s1, stxos), Ok _) =>
              match connectBlock (withCache b1 s1) node block (default [] stxos) now with
              | (b2, Err e) =>
                  (flushToDB (if isRuleError e then setFlags b2 node statusValidateFailed else b2), Err e)
              | (b2, Ok _) =>
                  (if fastAdd || negb (KnownValid (NodeStatus (bc_nodes b2) node))
                   then flushToDB (setFlags b2 node statusValid) else b2, Ok true)
              end
          end
      end
  end.

(** The walk from a new tip towards the fork, up to a node known to be invalid;
    the nodes passed, lowest first. *)
Fixpoint attachWalk (bi : blockIndex) (fork : option blockNode) (n : blockNode) (attachNodes : list blockNode)
    : list blockNode * bool :=
  match n with
  | Node parent _ _ =>
      if match fork with Some f => sameNode n f | None => false end then (attachNodes, false)
      else if KnownInvalid (NodeStatus bi n) then (attachNodes, true)
      else
        match parent with
        | Some p => attachWalk bi fork p (n :: attachNodes)
        | None => (n :: attachNodes, false)
        end
  end.

(** The walk from the tip down to the fork. *)
Fixpoint detachWalk (fork : option blockNode) (n : blockNode) : list blockNode :=
  match n with
  | Node parent _ _ =>
      if match fork with Some f => sameNode n f | None => false end then []
      else n :: match parent with Some p => detachWalk fork p | None => [] end
  end.

(** The nodes to detach, highest first, and those to attach, lowest first; none
    when the new branch is known to be invalid. *)
Definition getReorganizeNodes (b : BlockChain) (node : blockNode)
    : BlockChain * result chain_error (list blockNode * list blockNode) :=
  match nodeParent node with
  | None => (b, Err (ChainPanic "nil parent"))
  | Some parent =>
      if KnownInvalid (NodeStatus (bc_nodes b) parent) then (setFlags b node statusInvalidAncestor, Ok ([], []))
      else
        let forkNode := findFork (bc_best b) (Some node) in
        match attachWalk (bc_nodes b) forkNode node [] with
        | (attachNodes, true) => (foldl (fun b n => setFlags b n statusInvalidAncestor) b attachNodes, Ok ([], []))
        | (attachNodes, false) =>
            (b, Ok (match viewTip (bc_best b) with Some tip => detachWalk forkNode tip | None => [] end, attachNodes))
        end
  end.

(** One node to detach: its block, its journal, and the view without it. *)
Definition verifyDetach (b : BlockChain) (view : UtxoViewpoint) (n : blockNode)
    : BlockChain * result chain_error (UtxoViewpoint * (blockNode * Block * list SpentTxOut)) :=
  match fetchBlock n with
  | Err e => (b, Err e)
  | Ok block =>
      if negb (bool_decide (node_hash n = Block_Hash block))
      then (b, Err (ChainAssert "detach block node hash does not match previous parent block hash"))
      else
        match fetchInputUtxos (st_chain (bc_store b)) (bc_cache b) view block with
        | Err e => (b, Err (ChainIOError e))
        | Ok (view1, s1) =>
            let b1 := withCache b s1 in
            match dbFetchSpendJournalEntry (st_chain (bc_store b)) block with
            | Err e => (b1, Err (ChainIOError e))
            | Ok stxos =>
                match disconnectTransactions (dbFetchByHash (st_chain (bc_store b))) view1 block stxos with
                | Err e => (b1, Err (ViewError e))
                | Ok (view2, _) => (b1, Ok (view2, (n, block, stxos)))
                end
            end
        end
  end.

Fixpoint verifyDetaches (b : BlockChain) (view : UtxoViewpoint) (detachNodes : list blockNode)
    : BlockChain * result chain_error (UtxoViewpoint * list (blockNode * Block * list SpentTxOut)) :=
  match detachNodes with
  | [] => (b, Ok (view, []))
  | n :: detachNodes' =>
      match verifyDetach b view n with
      | (b1, Err e) => (b1, Err e)
      | (b1, Ok (view1, d)) =>
          match verifyDetaches b1 view1 detachNodes' with
          | (b2, Err e) => (b2, Err e)
          | (b2, Ok (view2, ds)) => (b2, Ok (view2, d :: ds))
          end
      end
  end.

(** One node to attach: its block, connected to the view and checked unless it is
    known to be valid. A broken rule condemns the nodes after it too. *)
Definition verifyAttach (b : BlockChain) (view : UtxoViewpoint) (n : blockNode) (later : list blockNode)
    : BlockChain * result chain_error (UtxoViewpoint * (blockNode * Block)) :=
  match fetchBlock n with
  | Err e => (b, Err e)
  | Ok block =>
      if KnownValid (NodeStatus (bc_nodes b) n) then
        match fetchInputUtxos (st_chain (bc_store b)) (bc_cache b) view block with
        | Err e => (b, Err (ChainIOError e))
        | Ok (view1, s1) =>
            match connectTransactions view1 block [] with
            | Err e => (withCache b s1, Err (ViewError e))
            | Ok (view2, _) => (withCache b s1, Ok (view2, (n, block)))
            end
        end
      else
        match checkConnectBlock b view n block with
        | (s1, Err e) =>
            let b1 := withCache b s1 in
            (if isRuleError e
             then foldl (fun b dn => setFlags b dn statusInvalidAncestor) (setFlags b1 n statusValidateFailed) later
             else b1, Err e)
        | (s1, Ok view1) => (setFlags (withCache b s1) n statusValid, Ok (view1, (n, block)))
        end
  end.

Fixpoint verifyAttaches (b : BlockChain) (view : UtxoViewpoint) (attachNodes : list blockNode)
    : BlockChain * result chain_error (list (blockNode * Block)) :=
  match attachNodes with
  | [] => (b, Ok [])
  | n :: attachNodes' =>
      match verifyAttach b view n attachNodes' with
      | (b1, Err e) => (b1, Err e)
      | (b1, Ok (view1, a)) =>
          match verifyAttaches b1 view1 attachNodes' with
          | (b2, Err e) => (b2, Err e)
          | (b2, Ok l) => (b2, Ok (a :: l))
          end
      end
  end.

(** Both lists start from one fork point; neither has the genesis block. *)
Definition sameFork (detachNodes attachNodes : list blockNode) : bool :=
  match last detachNodes, attachNodes with
  | Some lastDetach, firstAttach :: _ =>
      match nodeParent firstAttach, nodeParent lastDetach with
      | Some p, Some q => bool_decide (node_hash p = node_hash q)
      | _, _ => false
      end
  | _, _ => true
  end.

Definition verifyReorganizationValidity (b : BlockChain) (detachNodes attachNodes : list blockNode)
    : BlockChain * result chain_error (list (blockNode * Block * list SpentTxOut) * list (blockNode * Block)) :=
  match detachNodes, attachNodes, viewTip (bc_best b) with
  | [], [], _ => (b, Ok ([], []))
  | _, _, None => (b, Err (ChainPanic "tip"))
  | _, _, Some tip =>
      if match detachNodes with d :: _ => negb (bool_decide (node_hash d = node_hash tip)) | [] => false end
      then (b, Err (ChainAssert "reorganize nodes to detach are not for the current best chain"))
      else if negb (sameFork detachNodes attachNodes)
      then (b, Err (ChainAssert "reorganize nodes do not have the same fork point"))
      else
        match verifyDetaches b (SetBestHash NewUtxoViewpoint (node_hash tip)) detachNodes with
        | (b1, Err e) => (b1, Err e)
        | (b1, Ok (view, ds)) =>
            match verifyAttaches b1 view attachNodes with
            | (b2, Err e) => (b2, Err e)
            | (b2, Ok l) => (b2, Ok (ds, l))
            end
        end
  end.

Definition reorganizeChain (now : Z) (b : BlockChain) (detachNodes attachNodes : list blockNode)
    : BlockChain * result chain_error unit :=
  match verifyReorganizationValidity b detachNodes attachNodes with
  | (b1, Err e) => (b1, Err e)
  | (b1, Ok (detach, attach)) => reorganize now b1 detach attach
  end.

Definition connectBestChain (now : Z) (b : BlockChain) (node : blockNode) (block : Block) (fastAdd : bool)
    : BlockChain * result chain_error bool :=
  match viewTip (bc_best b) with
  | None => (b, Err (ChainPanic "tip"))
  | Some tip =>
      if bool_decide (bh_PrevBlock (Header block) = node_hash tip) then extendBestChain now b node block fastAdd
      else if node_workSum node <=? node_workSum tip then
        match findFork (bc_best b) (Some node) with
        | None => (b, Err (ChainPanic "nil fork"))
        | Some _ => (b, Ok false)
        end
      else
        match getReorganizeNodes b node with
        | (b1, Err e) => (b1, Err e)
        | (b1, Ok (detachNodes, attachNodes)) =>
            let '(b2, r) := reorganizeChain now b1 detachNodes attachNodes in
            (flushToDB b2, match r with Ok _ => Ok true | Err e => Err e end)
        end
  end.

(** ** Recovering after an unclean shutdown *)

(** The nodes above [fork] on the branch of [n], lowest first; nil is reached when
    [fork] is not on the branch, which panics. *)
Fixpoint nodesAbove (fork : blockNode) (n : blockNode) : option (list blockNode) :=
  match n with
  | Node parent _ _ =>
      if sameNode n fork then Some []
      else match parent with Some p => (fun l => l ++ [n]) <$> nodesAbove fork p | None => None end
  end.

(** One block of the replay. *)
Definition replayBlock (now : Z) (st : ChainDB * utxoCache) (node : blockNode)
    : result chain_error (ChainDB * utxoCache) :=
  let '(db, s) := st in
  block ← fetchBlock node;
  let '((s1, _), r) := cacheConnectTransactions db s block None in
  _ ← liftIO r;
  liftIO (flush db s1 FlushIfNeeded (node_hash node) now).

(** The interrupt channel is left out: an interrupted replay returns an error after
    some block, and the node stops. *)
Definition InitConsistentState (b : BlockChain) (tip : blockNode) (now : Z) : result chain_error BlockChain :=
  let db := st_chain (bc_store b) in
  let finish db s := Ok (withCache (withStore b (withChainDB (bc_store b) db)) (withFlush s (node_hash tip) now)) in
  match dbFetchUtxoStateConsistency db with
  | None => finish (dbPutUtxoStateConsistency db (node_hash tip)) (bc_cache b)
  | Some statusBytes =>
      if negb (length statusBytes =? HashSize)%nat then Err (ChainAssert "invalid hash length")
      else if bool_decide (statusBytes = node_hash tip) then finish db (bc_cache b)
      else
        match LookupNode (bc_nodes b) statusBytes with
        | None => Err (ChainPanic "nil node")
        | Some lastFlushNode =>
            match findFork (bc_best b) (Some lastFlushNode) with
            | None => Err (ChainAssert "last utxo consistency status is not in best chain")
            | Some fork =>
                match nodesAbove fork tip with
                | None => Err (ChainPanic "nil node")
                | Some attachNodes =>
                    '(db', s') ← foldM (replayBlock now) (db, bc_cache b) attachNodes;
                    finish db' s'
                end
            end
        end
  end.
End chain.
