(* ===== verification/BlockSanity.v ===== *)
(** * Checks that need no context

    The first half of src/blockchain/validate.go: the subsidy schedule, the sanity
    checks of a transaction, a header and a block, the counts of signature
    operations, lock times, and the block height a coinbase must begin with
    (BIP 34).

    A header holds its time in whole seconds, so the check that a timestamp has no
    finer precision has nothing to refuse. The clock of the node is an argument. *)

From S2P Require Import Prelude ChainParams Sha256 Wire Encode Script ScriptNum Standard Block Ledger WorkMath Text IndexDB ReapRules Merkle ChainState.

Definition MaxTimeOffsetSeconds : Z := 2 * 60 * 60.
Definition MinCoinbaseScriptLen : Z := 2.
Definition MaxCoinbaseScriptLen : Z := 100.
Definition serializedHeightVersion : Z := 2.
Definition baseSubsidy : Z := 50 * 100000000.
Definition MaxBlockWeight : Z := 4000000.
Definition MaxBlockBaseSize : Z := 1000000.
Definition MaxBlockSigOpsCost : Z := 80000.

(** [BehaviorFlags]. *)
Definition BFNone : Z := 0.
Definition BFFastAdd : Z := 1.
Definition BFNoPoWCheck : Z := 2.
Definition hasBehavior (flags f : Z) : bool := Z.land flags f =? f.

Definition panicRule (what : string) : rule_error := SourceError (RuntimePanic what).

Definition isNullOutpoint (outpoint : OutPoint) : bool :=
  (Index outpoint =? 2^32 - 1) && bool_decide (Hash outpoint = zeroHash).

Definition ShouldHaveSerializedBlockHeight (header : BlockHeader) : bool :=
  serializedHeightVersion <=? bh_Version header.

(** A shift by more than the width gives zero. *)
Definition CalcBlockSubsidy (height : Z) (chainParams : Params) : Z :=
  if SubsidyReductionInterval chainParams =? 0 then baseSubsidy
  else
    let halvings := u64 (Z.quot height (SubsidyReductionInterval chainParams)) in
    if 64 <=? halvings then 0 else Z.shiftr baseSubsidy halvings.

(** ** Lock times *)

Record SequenceLock := mkSequenceLock { Seconds : Z; lockHeight : Z }.

Definition SequenceLockActive (sequenceLock : SequenceLock) (blockHeight medianTimePast : Z) : bool :=
  negb ((medianTimePast <=? Seconds sequenceLock) || (blockHeight <=? lockHeight sequenceLock)).

Definition IsFinalizedTransaction (tx : MsgTx) (blockHeight blockTime : Z) : bool :=
  let lockTime := LockTime tx in
  if lockTime =? 0 then true
  else
    let blockTimeOrHeight := if lockTime <? 500000000 then blockHeight else blockTime in
    if lockTime <? blockTimeOrHeight then true
    else forallb (fun txIn => Sequence txIn =? 2^32 - 1) (TxIns tx).

(** ** Transactions *)

Definition checkOutAmount (totalSatoshi : Z) (txOut : TxOut) : result rule_error Z :=
  let satoshi := Value txOut in
  if satoshi <? 0 then Err (RuleError ErrBadTxOutValue "transaction output has negative value")
  else if MaxSatoshi <? satoshi
  then Err (RuleError ErrBadTxOutValue "transaction output value is higher than max allowed value")
  else
    let totalSatoshi := i64 (totalSatoshi + satoshi) in
    if totalSatoshi <? 0
    then Err (RuleError ErrBadTxOutValue "total value of all transaction outputs exceeds max allowed value")
    else if MaxSatoshi <? totalSatoshi
    then Err (RuleError ErrBadTxOutValue "total value of all transaction outputs is higher than max allowed value")
    else Ok totalSatoshi.

Definition checkDuplicateInput (existingTxOut : gset OutPoint) (op : OutPoint) : result rule_error (gset OutPoint) :=
  if bool_decide (op ∈ existingTxOut)
  then Err (RuleError ErrDuplicateTxInputs "transaction contains duplicate inputs")
  else Ok ({[op]} ∪ existingTxOut).

Definition CheckTransactionSanity (tx : MsgTx) : result rule_error unit :=
  if zlen (TxIns tx) =? 0 then Err (RuleError ErrNoTxInputs "transaction has no inputs")
  else if zlen (TxOuts tx) =? 0 then Err (RuleError ErrNoTxOutputs "transaction has no outputs")
  else if MaxBlockBaseSize <? SerializeSizeStripped tx then Err (RuleError ErrTxTooBig "serialized transaction is too big")
  else
    _ ← foldM checkOutAmount 0 (TxOuts tx);
    _ ← foldM checkDuplicateInput ∅ (prevOuts tx);
    if IsCoinBaseTx tx then
      match TxIns tx with
      | [] => Err (panicRule "index out of range")
      | txIn :: _ =>
          let slen := zlen (SignatureScript txIn) in
          if (slen <? MinCoinbaseScriptLen) || (MaxCoinbaseScriptLen <? slen)
          then Err (RuleError ErrBadCoinbaseScriptLen "coinbase transaction script length is out of range")
          else Ok tt
      end
    else if existsb isNullOutpoint (prevOuts tx)
    then Err (RuleError ErrBadTxInput "transaction input refers to previous output that is null")
    else Ok tt.

(** ** Headers *)

Definition checkProofOfWork (header : BlockHeader) (powLimit flags : Z) : result rule_error unit :=
  let target := CompactToBig (bh_Bits header) in
  if target <=? 0 then Err (RuleError ErrUnexpectedDifficulty "block target difficulty is too low")
  else if powLimit <? target then Err (RuleError ErrUnexpectedDifficulty "block target difficulty is higher than max")
  else if negb (hasBehavior flags BFNoPoWCheck) then
    if target <? HashToBig (BlockHash header) then Err (RuleError ErrHighHash "block hash is higher than expected max")
    else Ok tt
  else Ok tt.

Definition CheckProofOfWork (block : Block) (powLimit : Z) : result rule_error unit :=
  checkProofOfWork (Header block) powLimit BFNone.

(** [adjustedTime] is what [AdjustedTime] of the time source returns. *)
Definition CheckBlockHeaderSanity (header : BlockHeader) (powLimit adjustedTime flags : Z) : result rule_error unit :=
  _ ← checkProofOfWork header powLimit flags;
  if adjustedTime + MaxTimeOffsetSeconds <? bh_Timestamp header
  then Err (RuleError ErrTimeTooNew "block timestamp is too far in the future")
  else Ok tt.

(** ** Signature operations *)

Definition GetSigOpCount (script : list Z) : Z := countSigOpsV0 script false.

Definition CountSigOps (tx : MsgTx) : Z :=
  let ins := foldl (fun t txIn => i64 (t + GetSigOpCount (SignatureScript txIn))) 0 (TxIns tx) in
  foldl (fun t txOut => i64 (t + GetSigOpCount (PkScript txOut))) ins (TxOuts tx).

Definition checkSigOps (totalSigOps : Z) (tx : MsgTx) : result rule_error Z :=
  let total := i64 (totalSigOps + i64 (CountSigOps tx * WitnessScaleFactor)) in
  if (total <? totalSigOps) || (MaxBlockSigOpsCost <? total)
  then Err (RuleError ErrTooManySigOps "block contains too many signature operations")
  else Ok total.

(** ** Blocks *)

Definition checkDuplicateTx (existingTxHashes : gset (list Z)) (tx : MsgTx) : result rule_error (gset (list Z)) :=
  if bool_decide (TxHash tx ∈ existingTxHashes) then Err (RuleError ErrDuplicateTx "block contains duplicate transaction")
  else Ok ({[TxHash tx]} ∪ existingTxHashes).

Definition checkBlockSanity (block : Block) (powLimit adjustedTime flags : Z) : result rule_error unit :=
  let header := Header block in
  let transactions := Transactions block in
  _ ← CheckBlockHeaderSanity header powLimit adjustedTime flags;
  let numTx := zlen transactions in
  if numTx =? 0 then Err (RuleError ErrNoTransactions "block does not contain any transactions")
  else if MaxBlockBaseSize <? numTx then Err (RuleError ErrBlockTooBig "block contains too many transactions")
  else if MaxBlockBaseSize <? BlockSerializeSizeStripped block
  then Err (RuleError ErrBlockTooBig "serialized block is too big")
  else
    match transactions with
    | [] => Err (panicRule "index out of range")
    | coinbase :: rest =>
        if negb (IsCoinBaseTx coinbase)
        then Err (RuleError ErrFirstTxNotCoinbase "first transaction in block is not a coinbase")
        else if existsb IsCoinBaseTx rest
        then Err (RuleError ErrMultipleCoinbases "block contains second coinbase")
        else
          _ ← foldM (fun _ tx => CheckTransactionSanity tx) tt transactions;
          match CalcMerkleRoot transactions false with
          | None => Err (panicRule "merkle root")
          | Some calcMerkleRoot =>
              if negb (bool_decide (bh_MerkleRoot header = calcMerkleRoot))
              then Err (RuleError ErrBadMerkleRoot "block merkle root is invalid")
              else
                _ ← foldM checkDuplicateTx ∅ transactions;
                _ ← foldM checkSigOps 0 transactions;
                Ok tt
          end
    end.

Definition CheckBlockSanity (block : Block) (powLimit adjustedTime : Z) : result rule_error unit :=
  checkBlockSanity block powLimit adjustedTime BFNone.

(** ** The height in the coinbase *)

Definition compareScript (height : Z) (script : list Z) : result rule_error unit :=
  match AddInt64 NewScriptBuilder height with
  | None => Err (panicRule "index out of range")
  | Some b =>
      match BuilderScript b with
      | Err _ => Err (panicRule "script builder")
      | Ok scriptHeight =>
          if has_prefix script scriptHeight then Ok tt
          else Err (RuleError ErrBadCoinbaseHeight "the coinbase signature script does not minimally encode the height")
      end
  end.

Definition ExtractCoinbaseHeight (coinbaseTx : MsgTx) : result rule_error Z :=
  match TxIns coinbaseTx with
  | [] => Err (panicRule "index out of range")
  | txIn :: _ =>
      let sigScript := SignatureScript txIn in
      match sigScript with
      | [] => Err (RuleError ErrMissingCoinbaseHeight "the coinbase signature script must start with the length of the serialized block height")
      | opcode :: rest =>
          if opcode =? OP_0 then Ok 0
          else if (OP_1 <=? opcode) && (opcode <=? OP_16) then Ok (i32 (opcode - (OP_1 - 1)))
          else
            let serializedLen := opcode in
            if zlen rest <? serializedLen
            then Err (RuleError ErrMissingCoinbaseHeight "the coinbase signature script must start with the serialized block height")
            else
              let serialized := take 4 (take (Z.to_nat serializedLen) rest) in
              let serializedHeight := i32 (le_val (serialized ++ replicate (4 - length serialized) 0)) in
              _ ← compareScript serializedHeight sigScript;
              Ok serializedHeight
      end
  end.

Definition CheckSerializedHeight (coinbaseTx : MsgTx) (wantHeight : Z) : result rule_error unit :=
  serializedHeight ← ExtractCoinbaseHeight coinbaseTx;
  if negb (serializedHeight =? wantHeight)
  then Err (RuleError ErrBadCoinbaseHeight "the coinbase signature script serialized block height is not the expected one")
  else Ok tt.

(** ** Reference conditions *)

Definition sumValues (outs : list TxOut) : Z := sumZ (map Value outs).

(** What makes a transaction sane. *)
Record tx_sane (tx : MsgTx) : Prop := {
  sane_ins : TxIns tx <> [];
  sane_outs : TxOuts tx <> [];
  sane_size : SerializeSizeStripped tx <= MaxBlockBaseSize;
  sane_values : Forall (fun o => 0 <= Value o) (TxOuts tx);
  sane_total : sumValues (TxOuts tx) <= MaxSatoshi;
  sane_distinct : NoDup (prevOuts tx);
  sane_coinbase : IsCoinBaseTx tx = true ->
    forall ti, head (TxIns tx) = Some ti -> MinCoinbaseScriptLen <= zlen (SignatureScript ti) <= MaxCoinbaseScriptLen;
  sane_inputs : IsCoinBaseTx tx = false -> Forall (fun op => isNullOutpoint op = false) (prevOuts tx) }.

Lemma sumValues_nonneg outs : Forall (fun o => 0 <= Value o) outs -> 0 <= sumValues outs.
Proof. induction 1; unfold sumValues, sumZ in *; cbn [map fold_right] in *; lia. Qed.

Lemma checkOutAmount_loop outs t :
  0 <= t <= MaxSatoshi ->
  foldM checkOutAmount t outs = Ok (t + sumValues outs) /\ Forall (fun o => 0 <= Value o) outs /\ t + sumValues outs <= MaxSatoshi \/
  (exists e, foldM checkOutAmount t outs = Err e) /\
  ~ (Forall (fun o => 0 <= Value o) outs /\ t + sumValues outs <= MaxSatoshi).
Proof.
  revert t. induction outs as [|o outs IH]; intros t Ht.
  { left. cbn. unfold sumValues; cbn. rewrite Z.add_0_r. split_and!; [done|constructor|lia]. }
  cbn [foldM]. unfold checkOutAmount at 1 3. rewrite Forall_cons.
  change (sumValues (o :: outs)) with (Value o + sumValues outs).
  destruct (Z.ltb_spec (Value o) 0); [right; split; [by eexists|intros [[? _] _]; lia]|].
  pose proof (sumValues_nonneg outs) as Hn.
  destruct (Z.ltb_spec MaxSatoshi (Value o)); [right; split; [by eexists|]; intros [[_ Hf] ?]; specialize (Hn Hf); lia|].
  change MaxSatoshi with 2100000000000000 in *. rewrite i64_id by (widths; lia).
  destruct (Z.ltb_spec (t + Value o) 0); [lia|].
  destruct (Z.ltb_spec 2100000000000000 (t + Value o)); [right; split; [by eexists|]; intros [[_ Hf] ?]; specialize (Hn Hf); lia|].
  rewrite Z.add_assoc. destruct (IH (t + Value o)) as [(-> & Hf & Hle)|[He Hno]]; [lia|left|right].
  - split_and!; [done|lia|done|lia].
  - split; [done|]. intros [[_ Hf] Hle]. apply Hno. split; [done|lia].
Qed.

Lemma checkDuplicateInput_loop ops (seen : gset OutPoint) :
  (exists s, foldM checkDuplicateInput seen ops = Ok s) <-> NoDup ops /\ forall op, op ∈ ops -> op ∉ seen.
Proof.
  revert seen. induction ops as [|op ops IH]; intros seen; cbn [foldM].
  { split; [|by eexists]. intros _. split; [constructor|]. by intros op Hop%not_elem_of_nil. }
  unfold checkDuplicateInput at 1. case_bool_decide as Hin.
  { split; [by intros [? ?]|]. intros [_ H]. exfalso. apply (H op); [left|done]. }
  rewrite IH, NoDup_cons. split.
  - intros [Hnd Hs]. split_and!; [|done|].
    + intros Hop. apply (Hs op Hop). set_solver.
    + intros x [->|Hx]%elem_of_cons; [done|]. intros Hxs. apply (Hs x Hx). set_solver.
  - intros [[Hnot Hnd] Hs]. split; [done|]. intros x Hx. rewrite not_elem_of_union, not_elem_of_singleton. split; [by intros ->|].
    apply Hs. by right.
Qed.

Lemma zlen_0 {A} (l : list A) : zlen l = 0 <-> l = [].
Proof. unfold zlen. destruct l; cbn; split; (done || lia). Qed.

Lemma CheckTransactionSanity_spec tx : CheckTransactionSanity tx = Ok tt <-> tx_sane tx.
Proof.
  unfold CheckTransactionSanity.
  destruct (Z.eqb_spec (zlen (TxIns tx)) 0) as [E|E]; [rewrite zlen_0 in E; split; [done|by intros []]|].
  destruct (Z.eqb_spec (zlen (TxOuts tx)) 0) as [E'|E']; [rewrite zlen_0 in E'; split; [done|by intros []]|].
  rewrite zlen_0 in E. rewrite zlen_0 in E'.
  destruct (Z.ltb_spec MaxBlockBaseSize (SerializeSizeStripped tx)); [split; [done|intros []; lia]|].
  destruct (checkOutAmount_loop (TxOuts tx) 0) as [(-> & Hv & Ht)|[[e ->] Hno]]; [done| |].
  2:{ split; [done|]. intros []. by destruct Hno. }
  result_simpl. pose proof (checkDuplicateInput_loop (prevOuts tx) ∅) as Hdup.
  destruct (foldM checkDuplicateInput ∅ (prevOuts tx)) as [s|e].
  2:{ split; [done|]. intros []. destruct (proj2 Hdup) as [? ?]; [|done]. split; [done|]. intros; by apply not_elem_of_empty. }
  result_simpl. destruct (proj1 Hdup (ex_intro _ s eq_refl)) as [Hnd _].
  assert (Hcb : IsCoinBaseTx tx = true \/ IsCoinBaseTx tx = false) by (destruct (IsCoinBaseTx tx); auto).
  destruct (IsCoinBaseTx tx) eqn:Ecb.
  - destruct (TxIns tx) as [|ti tis] eqn:Eti; [done|].
    destruct (Z.ltb_spec (zlen (SignatureScript ti)) MinCoinbaseScriptLen), (Z.ltb_spec MaxCoinbaseScriptLen (zlen (SignatureScript ti)));
      cbn [orb].
    1-3: split; [done|]; intros [_ _ _ _ _ _ Hc _]; rewrite Eti in Hc; specialize (Hc Ecb ti eq_refl); lia.
    split; [intros _|done]. split; rewrite ?Eti; try done; [intros _ ti' [= <-]; lia|congruence].
  - destruct (existsb isNullOutpoint (prevOuts tx)) eqn:En.
    + split; [done|]. intros [_ _ _ _ _ _ _ Hi]. specialize (Hi Ecb). apply existsb_exists in En as (op & Hop & Hnull).
      rewrite Forall_forall in Hi. rewrite (Hi op) in Hnull; [done|by apply list_elem_of_In].
    + split; [intros _|done]. split; try done; [congruence|]. intros _. apply Forall_forall. intros op Hop.
      apply list_elem_of_In in Hop. destruct (isNullOutpoint op) eqn:Eo; [|done].
      assert (existsb isNullOutpoint (prevOuts tx) = true); [apply existsb_exists; eauto|congruence].
Qed.

(** ** Signature operations are counted without overflow *)

Lemma forTokens_bound {S} (f : S -> Z) (body : S -> ScriptTokenizer -> S * bool) B fuel t st :
  (forall st t, f st <= f (body st t).1 <= f st + B) -> 0 <= B ->
  f st <= f (forTokens fuel t body st).1 <= f st + Z.of_nat fuel * B.
Proof.
  intros Hb HB. revert t st. induction fuel as [|fuel IH]; intros t st; cbn [forTokens]; [cbn [fst]; lia|].
  destruct (Next t) as [[] t']; [|cbn [fst]; lia]. specialize (Hb st t'). destruct (body st t') as [st' []]; cbn [fst] in *; [|lia].
  specialize (IH t' st'). lia.
Qed.

Lemma AsSmallInt_range op : OP_1 <= op <= OP_16 -> 1 <= AsSmallInt op <= 16.
Proof.
  intros H. unfold AsSmallInt. change OP_0 with 0. change OP_1 with 81 in *. change OP_16 with 96 in *.
  destruct (Z.eqb_spec op 0); [lia|]. rewrite u8_id by (widths; lia). lia.
Qed.

Lemma countSigOpsV0_range script precise : 0 <= countSigOpsV0 script precise <= 20 * (zlen script + 1).
Proof.
  unfold countSigOpsV0, overScript.
  match goal with |- context [forTokens ?fu ?t ?b ?st] =>
    pose proof (forTokens_bound (fun s : Z * Z => s.1) b 20 fu t st) as H end.
  cbn [fst] in H. unfold zlen. enough (0 <= 20) as H20; [|lia]. specialize (fun Hb => H Hb H20). rewrite Nat2Z.inj_succ in H.
  assert (Hb : forall (st : Z * Z) (t : ScriptTokenizer), st.1 <= (let '(numSigOps, prevOp) := st in
    (if (Opcode t =? OP_CHECKSIG) || (Opcode t =? OP_CHECKSIGVERIFY) then numSigOps + 1
     else if (Opcode t =? OP_CHECKMULTISIG) || (Opcode t =? OP_CHECKMULTISIGVERIFY) then
        if precise && (OP_1 <=? prevOp) && (prevOp <=? OP_16) then numSigOps + AsSmallInt prevOp
        else numSigOps + MaxPubKeysPerMultiSig
     else numSigOps)) <= st.1 + 20).
  { intros [n p] t. cbn [fst]. destruct (_ || _); [lia|]. destruct (_ || _); [|lia].
    destruct precise; cbn [andb]; [|lia]. destruct (Z.leb_spec OP_1 p), (Z.leb_spec p OP_16); cbn [andb]; try lia.
    pose proof (AsSmallInt_range p). lia. }
  assert (H' := H (fun st t => ltac:(specialize (Hb st t); destruct st; exact Hb))). lia.
Qed.

Lemma foldl_i64_sum {A} (f : A -> Z) l t :
  Forall (fun x => 0 <= f x) l -> 0 <= t -> t + sumZ (map f l) < 2^63 ->
  foldl (fun t x => i64 (t + f x)) t l = t + sumZ (map f l).
Proof.
  intros Hf. revert t. induction Hf as [|x l Hx Hf IH]; intros t Ht Hb; unfold sumZ in *; cbn [foldl map fold_right] in *; [lia|].
  assert (0 <= fold_right Z.add 0 (map f l)) by (clear -Hf; induction Hf; cbn; lia).
  rewrite i64_id by (widths; lia). rewrite IH by lia. lia.
Qed.

Lemma sumZ_le {A} (f g : A -> Z) l : Forall (fun x => f x <= g x) l -> sumZ (map f l) <= sumZ (map g l).
Proof. unfold sumZ. induction 1; cbn [map fold_right]; lia. Qed.
Lemma sumZ_map_nonneg {A} (f : A -> Z) l : Forall (fun x => 0 <= f x) l -> 0 <= sumZ (map f l).
Proof. unfold sumZ. induction 1; cbn [map fold_right]; lia. Qed.
Lemma sumZ_scale {A} (f : A -> Z) c l : sumZ (map (fun x => c * f x) l) = c * sumZ (map f l).
Proof. unfold sumZ. induction l; cbn [map fold_right]; lia. Qed.

(** The signature operations of a transaction. *)
Definition sigOps (tx : MsgTx) : Z :=
  sumZ (map (fun ti => GetSigOpCount (SignatureScript ti)) (TxIns tx))
  + sumZ (map (fun o => GetSigOpCount (PkScript o)) (TxOuts tx)).

Lemma sigOps_range tx : 0 <= sigOps tx <= 20 * SerializeSizeStripped tx.
Proof.
  assert (Hc : forall s, 0 <= GetSigOpCount s <= 20 * (zlen s + 1)) by (intros; apply countSigOpsV0_range).
  assert (Hv : forall z, 1 <= VarIntSerializeSize z) by (intros z; unfold VarIntSerializeSize; repeat case_match; lia).
  unfold sigOps, SerializeSizeStripped, baseSize.
  pose proof (Hv (zlen (TxIns tx))). pose proof (Hv (zlen (TxOuts tx))).
  pose proof (sumZ_map_nonneg (fun ti => GetSigOpCount (SignatureScript ti)) (TxIns tx)).
  pose proof (sumZ_map_nonneg (fun o => GetSigOpCount (PkScript o)) (TxOuts tx)).
  assert (sumZ (map (fun ti => GetSigOpCount (SignatureScript ti)) (TxIns tx)) <= 20 * sumZ (map TxInSerializeSize (TxIns tx))).
  { rewrite <- (sumZ_scale TxInSerializeSize). apply sumZ_le, Forall_forall. intros ti _. unfold TxInSerializeSize.
    specialize (Hc (SignatureScript ti)). specialize (Hv (zlen (SignatureScript ti))). lia. }
  assert (sumZ (map (fun o => GetSigOpCount (PkScript o)) (TxOuts tx)) <= 20 * sumZ (map TxOutSerializeSize (TxOuts tx))).
  { rewrite <- (sumZ_scale TxOutSerializeSize). apply sumZ_le, Forall_forall. intros o _. unfold TxOutSerializeSize.
    specialize (Hc (PkScript o)). specialize (Hv (zlen (PkScript o))). lia. }
  assert (Forall (fun ti => 0 <= GetSigOpCount (SignatureScript ti)) (TxIns tx)) by (apply Forall_forall; intros; apply Hc).
  assert (Forall (fun o => 0 <= GetSigOpCount (PkScript o)) (TxOuts tx)) by (apply Forall_forall; intros; apply Hc).
  intuition lia.
Qed.

Lemma CountSigOps_spec tx : SerializeSizeStripped tx <= MaxBlockBaseSize -> CountSigOps tx = sigOps tx.
Proof.
  intros Hs. pose proof (sigOps_range tx) as Hr. unfold CountSigOps, sigOps in *.
  assert (Hi : Forall (fun ti => 0 <= GetSigOpCount (SignatureScript ti)) (TxIns tx))
    by (apply Forall_forall; intros; apply countSigOpsV0_range).
  assert (Ho : Forall (fun o => 0 <= GetSigOpCount (PkScript o)) (TxOuts tx))
    by (apply Forall_forall; intros; apply countSigOpsV0_range).
  pose proof (sumZ_map_nonneg _ _ Hi). pose proof (sumZ_map_nonneg _ _ Ho). change MaxBlockBaseSize with 1000000 in *.
  rewrite (foldl_i64_sum (fun ti => GetSigOpCount (SignatureScript ti))) by (done || lia). rewrite Z.add_0_l.
  rewrite (foldl_i64_sum (fun o => GetSigOpCount (PkScript o))) by (done || lia). done.
Qed.

Lemma checkSigOps_loop txs t :
  Forall (fun tx => SerializeSizeStripped tx <= MaxBlockBaseSize) txs -> 0 <= t <= MaxBlockSigOpsCost ->
  (exists r, foldM checkSigOps t txs = Ok r) <-> t + WitnessScaleFactor * sumZ (map sigOps txs) <= MaxBlockSigOpsCost.
Proof.
  change MaxBlockBaseSize with 1000000. change MaxBlockSigOpsCost with 80000. change WitnessScaleFactor with 4.
  intros Hs. revert t. induction Hs as [|tx txs Htx Hs IH]; intros t Ht; cbn [foldM map].
  { unfold sumZ; cbn. split; [lia|by eexists]. }
  unfold checkSigOps at 1. rewrite CountSigOps_spec by done. change WitnessScaleFactor with 4. change MaxBlockSigOpsCost with 80000.
  pose proof (sigOps_range tx) as Hr. rewrite (i64_id (sigOps tx * 4)) by (widths; lia). rewrite i64_id by (widths; lia).
  assert (0 <= sumZ (map sigOps txs)) by (apply sumZ_map_nonneg, Forall_forall; intros; apply sigOps_range).
  change (sumZ (sigOps tx :: map sigOps txs)) with (sigOps tx + sumZ (map sigOps txs)).
  destruct (Z.ltb_spec (t + sigOps tx * 4) t); [lia|]. destruct (Z.ltb_spec 80000 (t + sigOps tx * 4)); cbn [orb].
  - split; [by intros [? ?]|lia].
  - rewrite IH by lia. lia.
Qed.

Lemma checkDuplicateTx_loop (txs : list MsgTx) (seen : gset (list Z)) :
  (exists s, foldM checkDuplicateTx seen txs = Ok s) <-> NoDup (map TxHash txs) /\ forall tx, tx ∈ txs -> TxHash tx ∉ seen.
Proof.
  revert seen. induction txs as [|tx txs IH]; intros seen; cbn [foldM map].
  { split; [|by eexists]. intros _. split; [constructor|]. by intros op Hop%not_elem_of_nil. }
  unfold checkDuplicateTx at 1. case_bool_decide as Hin.
  { split; [by intros [? ?]|]. intros [_ H]. exfalso. apply (H tx); [left|exact Hin]. }
  rewrite IH, NoDup_cons. split.
  - intros [Hnd Hs]. split_and!; [|exact Hnd|].
    + intros Hop. apply list_elem_of_fmap in Hop as (y & E & Hy). apply (Hs y Hy). rewrite E. apply elem_of_union_l, elem_of_singleton_2. reflexivity.
    + intros x [->|Hx]%elem_of_cons; [exact Hin|]. intros Hxs. apply (Hs x Hx), elem_of_union_r, Hxs.
  - intros [[Hnot Hnd] Hs]. split; [exact Hnd|]. intros x Hx. rewrite not_elem_of_union, not_elem_of_singleton. split.
    + intros E. apply Hnot. rewrite <- E. by apply list_elem_of_fmap_2.
    + apply Hs. by right.
Qed.

(** What makes a block sane. *)
Record block_sane (block : Block) (powLimit adjustedTime flags : Z) : Prop := {
  bsane_target : 0 < CompactToBig (bh_Bits (Header block)) <= powLimit;
  bsane_work : hasBehavior flags BFNoPoWCheck = false ->
    HashToBig (Block_Hash block) <= CompactToBig (bh_Bits (Header block));
  bsane_time : bh_Timestamp (Header block) <= adjustedTime + MaxTimeOffsetSeconds;
  bsane_shape : block_shape (Transactions block);
  bsane_count : zlen (Transactions block) <= MaxBlockBaseSize;
  bsane_size : BlockSerializeSizeStripped block <= MaxBlockBaseSize;
  bsane_txs : Forall tx_sane (Transactions block);
  bsane_root : merkleRoot (map TxHash (Transactions block)) = Some (bh_MerkleRoot (Header block));
  bsane_ids : NoDup (map TxHash (Transactions block));
  bsane_sigops : WitnessScaleFactor * sumZ (map sigOps (Transactions block)) <= MaxBlockSigOpsCost }.

Lemma checkBlockHeaderSanity_spec header powLimit adjustedTime flags :
  CheckBlockHeaderSanity header powLimit adjustedTime flags = Ok tt <->
  0 < CompactToBig (bh_Bits header) <= powLimit /\
  (hasBehavior flags BFNoPoWCheck = false -> HashToBig (BlockHash header) <= CompactToBig (bh_Bits header)) /\
  bh_Timestamp header <= adjustedTime + MaxTimeOffsetSeconds.
Proof.
  unfold CheckBlockHeaderSanity, checkProofOfWork. generalize (HashToBig (BlockHash header)) as hn. intros hn.
  destruct (Z.leb_spec (CompactToBig (bh_Bits header)) 0); [split; [done|lia]|].
  destruct (Z.ltb_spec powLimit (CompactToBig (bh_Bits header))); [split; [done|lia]|].
  destruct (hasBehavior flags BFNoPoWCheck); cbn [negb].
  - result_simpl. destruct (Z.ltb_spec (adjustedTime + MaxTimeOffsetSeconds) (bh_Timestamp header)); [split; [done|lia]|].
    split; [intros _; split_and!; (done || lia)|done].
  - destruct (Z.ltb_spec (CompactToBig (bh_Bits header)) hn); result_simpl; [split; [done|intros (_ & H2 & _); specialize (H2 eq_refl); lia]|].
    destruct (Z.ltb_spec (adjustedTime + MaxTimeOffsetSeconds) (bh_Timestamp header)); [split; [done|lia]|].
    split; [intros _; split_and!; (done || lia)|done].
Qed.

Lemma sanity_loop txs : foldM (fun _ tx => CheckTransactionSanity tx) tt txs = Ok tt <-> Forall tx_sane txs.
Proof.
  induction txs as [|tx txs IH]; cbn [foldM]; [by split|]. rewrite Forall_cons, <- IH, <- CheckTransactionSanity_spec.
  destruct (CheckTransactionSanity tx) as [[]|e]; [tauto|]. split; [done|by intros [? _]].
Qed.

Lemma existsb_coinbase txs : existsb IsCoinBaseTx txs = false <-> Forall (fun tx => IsCoinBaseTx tx = false) txs.
Proof.
  induction txs as [|tx txs IH]; cbn [existsb]; [by split|]. rewrite orb_false_iff, Forall_cons, IH. done.
Qed.

Lemma checkBlockSanity_spec block powLimit adjustedTime flags :
  checkBlockSanity block powLimit adjustedTime flags = Ok tt <-> block_sane block powLimit adjustedTime flags.
Proof.
  unfold checkBlockSanity. pose proof (checkBlockHeaderSanity_spec (Header block) powLimit adjustedTime flags) as Hh.
  destruct (CheckBlockHeaderSanity _ _ _ _) as [[]|e]; result_simpl.
  2:{ split; [done|]. intros []. discriminate (proj2 Hh (conj bsane_target0 (conj bsane_work0 bsane_time0))). }
  destruct (proj1 Hh eq_refl) as (H1 & H2 & H3). clear Hh.
  destruct (Transactions block) as [|cb rest] eqn:Etx.
  { cbn. split; [done|]. intros [_ _ _ Hs _ _ _ _ _ _]. by rewrite Etx in Hs. }
  rewrite (proj2 (Z.eqb_neq _ _)) by (unfold zlen; cbn [length]; lia). rewrite <- Etx.
  destruct (Z.ltb_spec MaxBlockBaseSize (zlen (Transactions block))); [split; [done|intros []; lia]|].
  destruct (Z.ltb_spec MaxBlockBaseSize (BlockSerializeSizeStripped block)); [split; [done|intros []; lia]|].
  destruct (IsCoinBaseTx cb) eqn:Ecb; cbn [negb].
  2:{ split; [done|]. intros [_ _ _ Hs _ _ _ _ _ _]. rewrite Etx in Hs. destruct Hs. congruence. }
  destruct (existsb IsCoinBaseTx rest) eqn:Er.
  { split; [done|]. intros [_ _ _ Hs _ _ _ _ _ _]. rewrite Etx in Hs. destruct Hs as [_ Hs].
    apply existsb_coinbase in Hs. congruence. }
  apply existsb_coinbase in Er.
  assert (Hshape : block_shape (Transactions block)) by (by rewrite Etx).
  pose proof (sanity_loop (Transactions block)) as Hsane.
  destruct (foldM (fun _ tx => CheckTransactionSanity tx) tt (Transactions block)) as [[]|e]; result_simpl.
  2:{ split; [done|]. intros []. by apply Hsane. }
  assert (Htxs : Forall tx_sane (Transactions block)) by (by apply Hsane). clear Hsane.
  assert (Hne : Transactions block <> []) by (by rewrite Etx).
  assert (Hlen : zlen (Transactions block) < 2^62) by (change MaxBlockBaseSize with 1000000 in *; lia).
  rewrite (CalcMerkleRoot_root _ false Hne Hlen).
  change (merkleLeaves (Transactions block) false) with (map TxHash (Transactions block)).
  destruct (merkleRoot (map TxHash (Transactions block))) as [root|] eqn:Eroot.
  2:{ split; [done|]. intros []. congruence. }
  case_bool_decide as Hroot; cbn [negb]; [|split; [done|intros []; congruence]].
  pose proof (checkDuplicateTx_loop (Transactions block) ∅) as Hd.
  destruct (foldM checkDuplicateTx ∅ (Transactions block)) as [s|e]; result_simpl.
  2:{ split; [done|]. intros []. destruct (proj2 Hd) as [? ?]; [|done]. split; [done|]. intros; by apply not_elem_of_empty. }
  destruct (proj1 Hd (ex_intro _ s eq_refl)) as [Hnd _].
  pose proof (checkSigOps_loop (Transactions block) 0) as Hs. rewrite Z.add_0_l in Hs.
  assert (Hsize : Forall (fun tx => SerializeSizeStripped tx <= MaxBlockBaseSize) (Transactions block))
    by (eapply Forall_impl; [exact Htxs|]; by intros tx []).
  specialize (Hs Hsize ltac:(done)). destruct (foldM checkSigOps 0 (Transactions block)) as [t|e]; result_simpl.
  - split; [intros _|done]. split; try done. 
    + by rewrite Eroot, Hroot.
    + apply Hs. by eexists.
  - split; [done|]. intros []. destruct (proj2 Hs) as [? ?]; done.
Qed.

(** ** The height in the coinbase: proofs *)

(** The push of a height. *)
Definition heightScript (h : Z) : list Z :=
  if h =? 0 then [OP_0]
  else if h <=? 16 then [OP_1 - 1 + h]
  else let bs := default [] (scriptNumBytes h) in zlen bs :: bs.

Lemma scriptNumBytes_height h :
  0 < h < 2^31 ->
  exists bs, scriptNumBytes h = Some bs /\ le_val bs = h /\ 1 <= zlen bs <= 4 /\
             (zlen bs = 1 -> nth 0 bs 0 = h /\ h < 128).
Proof.
  intros Hh. destruct (magnitude_snoc h) as (p & hi & Hv & Hb & Hhi & Hl); [lia|].
  exists (signEncode false p hi). pose proof (scriptNumBytes_encode false p hi Hb Hhi ltac:(lia) Hl) as He. cbn iota in He.
  pose proof (zlen_signEncode_le false p hi 4 Hb Hhi ltac:(lia) ltac:(change (2 ^ (8 * 4 - 1)) with (2^31); lia)) as Hz.
  rewrite Hv in He. split; [done|]. unfold signEncode in *. apply Forall_app in Hb as [Hp [Hu _]%Forall_cons_1]. unfold is_u8 in Hu.
  destruct (Z.ltb_spec hi 128).
  - split; [done|]. rewrite zlen_app in *. change (zlen [hi]) with 1 in *. pose proof (zlen_nonneg p). split; [lia|].
    intros H1. assert (p = []) as -> by (apply zlen_0; lia). cbn in *. lia.
  - split; [|rewrite !zlen_app in *; change (zlen [hi]) with 1 in *; change (zlen [0x00]) with 1 in *; pose proof (zlen_nonneg p); lia].
    rewrite app_assoc, le_val_app, Hv. cbn [le_val]. lia.
Qed.

Lemma AddInt64_height h : 0 <= h < 2^31 ->
  exists b, AddInt64 NewScriptBuilder h = Some b /\ BuilderScript b = Ok (heightScript h).
Proof.
  intros Hh. unfold AddInt64, heightScript. cbn [sb_err sb_script NewScriptBuilder].
  change (MaxScriptSize <? zlen (@nil Z) + 1) with false. cbn iota.
  destruct (Z.eqb_spec h 0) as [->|]; [by eexists|]. rewrite (proj2 (Z.eqb_neq h (-1))) by lia. cbn [orb].
  rewrite (proj2 (Z.leb_le 1 h)) by lia. cbn [andb]. destruct (Z.leb_spec h 16).
  { eexists. split; [done|]. change OP_1 with 81. cbn [BuilderScript sb_err sbAppend sb_script NewScriptBuilder app].
    by rewrite u8_id by (widths; lia). }
  destruct (scriptNumBytes_height h) as (bs & -> & Hv & Hz & Hone); [lia|]. cbn [default]. eexists. split; [done|].
  unfold AddData. cbn [sb_err NewScriptBuilder sb_script]. rewrite Z.add_0_l || change (zlen (@nil Z)) with 0.
  assert (Hsmall : zlen bs = 1 -> (nth 0 bs 0 <=? 16) = false /\ (nth 0 bs 0 =? 0x81) = false /\ (nth 0 bs 0 =? 0) = false).
  { intros H1. destruct (Hone H1) as [-> ?]. split_and!; [apply Z.leb_gt|apply Z.eqb_neq|apply Z.eqb_neq]; lia. }
  assert (Hsz : canonicalDataSize bs = 1 + zlen bs /\ addData (mkBuilder [] None) bs = mkBuilder (zlen bs :: bs) None).
  { unfold canonicalDataSize, addData. rewrite (proj2 (Z.eqb_neq (zlen bs) 0)) by lia. cbn [orb].
    change OP_PUSHDATA1 with 76. rewrite (proj2 (Z.ltb_lt (zlen bs) 76)) by lia.
    destruct (Z.eqb_spec (zlen bs) 1) as [E|E]; cbn [andb].
    - destruct (Hsmall E) as (-> & -> & ->). split; [done|]. unfold sbAppend. cbn [sb_script sb_err app]. change OP_DATA_1 with 1.
      by rewrite u8_id by (widths; lia).
    - split; [done|]. unfold sbAppend. cbn [sb_script sb_err app]. change OP_DATA_1 with 1. by rewrite u8_id by (widths; lia). }
  destruct Hsz as [-> Hadd]. rewrite (proj2 (Z.ltb_ge MaxScriptSize _)) by (change MaxScriptSize with 10000; lia).
  rewrite (proj2 (Z.ltb_ge MaxScriptElementSize _)) by (change MaxScriptElementSize with 520; lia).
  change NewScriptBuilder with (mkBuilder [] None). by rewrite Hadd.
Qed.

Lemma compareScript_spec h script :
  0 <= h < 2^31 -> compareScript h script = Ok tt <-> has_prefix script (heightScript h) = true.
Proof.
  intros Hh. unfold compareScript. destruct (AddInt64_height h Hh) as (b & -> & ->).
  by destruct (has_prefix script (heightScript h)).
Qed.

Lemma le_val_zeros l n : le_val (l ++ replicate n 0) = le_val l.
Proof.
  rewrite le_val_app. assert (le_val (replicate n 0) = 0) as -> by (induction n; cbn [replicate le_val]; lia). lia.
Qed.

(** The height is read back from a script that begins with its push. *)
Lemma extract_pushed tx ti tis h r :
  TxIns tx = ti :: tis -> 0 <= h < 2^31 -> SignatureScript ti = heightScript h ++ r -> ExtractCoinbaseHeight tx = Ok h.
Proof.
  intros Hti Hh Hs. unfold ExtractCoinbaseHeight. rewrite Hti, Hs.
  assert (Hcmp : compareScript h (heightScript h ++ r) = Ok tt) by (apply compareScript_spec; [done|]; apply has_prefix_spec; eauto).
  revert Hcmp. unfold heightScript. change OP_1 with 81. change OP_16 with 96. change OP_0 with 0.
  destruct (Z.eqb_spec h 0) as [->|]; [done|]. destruct (Z.leb_spec h 16); intros Hcmp.
  - cbn [app]. rewrite (proj2 (Z.eqb_neq _ _)), (proj2 (Z.leb_le _ _)), (proj2 (Z.leb_le _ _)) by lia. cbn [andb].
    rewrite i32_id by (widths; lia). f_equal. lia.
  - destruct (scriptNumBytes_height h) as (bs & Hb & Hv & Hz & _); [lia|].
    rewrite Hb in Hcmp |- *. cbn [default from_option id app] in *.
    rewrite (proj2 (Z.eqb_neq (zlen bs) 0)), (proj2 (Z.leb_gt 81 (zlen bs))) by lia. cbn [andb].
    rewrite zlen_app, (proj2 (Z.ltb_ge _ _)) by (pose proof (zlen_nonneg r); lia).
    replace (Z.to_nat (zlen bs)) with (length bs) by (unfold zlen; lia).
    rewrite take_app_length, (take_ge bs 4) by (unfold zlen in Hz; lia). rewrite le_val_zeros, Hv, i32_id by (widths; lia).
    by rewrite Hcmp.
Qed.

(** Whatever height is read, the script begins with its push. *)
Lemma extract_is_pushed tx ti tis h :
  TxIns tx = ti :: tis -> 0 <= h < 2^31 -> ExtractCoinbaseHeight tx = Ok h ->
  has_prefix (SignatureScript ti) (heightScript h) = true.
Proof.
  intros Hti Hh. unfold ExtractCoinbaseHeight. rewrite Hti. destruct (SignatureScript ti) as [|op rest]; [done|].
  change OP_1 with 81. change OP_16 with 96. change OP_0 with 0. destruct (Z.eqb_spec op 0) as [->|]; [by intros [= <-]|].
  destruct (Z.leb_spec 81 op), (Z.leb_spec op 96); cbn [andb].
  { rewrite i32_id by (widths; lia). intros [= <-]. unfold heightScript. change OP_1 with 81.
    rewrite (proj2 (Z.eqb_neq _ _)), (proj2 (Z.leb_le _ _)) by lia. cbn [has_prefix].
    by rewrite (proj2 (Z.eqb_eq _ _)) by lia. }
  all: destruct (zlen rest <? op); [done|]; destruct (compareScript _ _) as [[]|e] eqn:E; result_simpl; [|done];
    intros [= Eh]; rewrite Eh in E; by apply compareScript_spec in E.
Qed.

Lemma CheckSerializedHeight_spec tx ti tis h :
  TxIns tx = ti :: tis -> 0 <= h < 2^31 ->
  CheckSerializedHeight tx h = Ok tt <-> has_prefix (SignatureScript ti) (heightScript h) = true.
Proof.
  intros Hti Hh. unfold CheckSerializedHeight. split.
  - destruct (ExtractCoinbaseHeight tx) as [h'|] eqn:E; result_simpl; [|done].
    destruct (Z.eqb_spec h' h) as [->|]; [|done]. intros _. by eapply extract_is_pushed.
  - intros [r Hr]%has_prefix_spec. rewrite (extract_pushed tx ti tis h r) by done. result_simpl. by rewrite Z.eqb_refl.
Qed.

(** The push BIP 34 asks for, as numbers are pushed with their fewest bytes. *)
Definition bip34Push (h : Z) : list Z :=
  if h =? 0 then [0]
  else if h <=? 16 then [0x50 + h]
  else
    let size := if h <? 2^7 then 1%nat else if h <? 2^15 then 2%nat else if h <? 2^23 then 3%nat else 4%nat in
    Z.of_nat size :: le_bytes size h.

Lemma signEncode_bytes p hi : is_bytes (p ++ [hi]) -> is_bytes (signEncode false p hi) /\ le_val (signEncode false p hi) = le_val (p ++ [hi]).
Proof.
  intros Hb. unfold signEncode. destruct (hi <? 128); [done|]. rewrite app_assoc. split.
  - apply Forall_app. split; [done|]. by repeat constructor.
  - rewrite (le_val_app (p ++ [hi])). cbn [le_val]. lia.
Qed.

Lemma heightScript_bip34 h : 0 <= h < 2^31 -> heightScript h = bip34Push h.
Proof.
  intros Hh. unfold heightScript, bip34Push. change OP_0 with 0. change OP_1 with 81. destruct (h =? 0); [done|].
  destruct (Z.leb_spec h 16); [f_equal; lia|].
  destruct (magnitude_snoc h) as (p & hi & Hv & Hb & Hhi & Hl); [lia|].
  pose proof (scriptNumBytes_encode false p hi Hb Hhi ltac:(lia) Hl) as He. cbn iota in He. rewrite Hv in He. rewrite He. cbn [default].
  destruct (signEncode_bytes p hi Hb) as [Hbs Hval]. pose proof (le_bytes_le_val _ Hbs) as Hle. rewrite Hval, Hv in Hle.
  set (size := if h <? 2^7 then _ else _). assert (Hs : length (signEncode false p hi) = size).
  { apply Forall_app in Hb as [Hp [Hu _]%Forall_cons_1]. unfold is_u8 in Hu. pose proof (le_val_range p Hp) as Hr.
    rewrite le_val_app in Hv. cbn [le_val] in Hv. unfold size, signEncode.
    assert (Hc : (length p = 0 \/ length p = 1 \/ length p = 2 \/ length p = 3 \/ 4 <= length p)%nat) by lia.
    destruct Hc as [E|[E|[E|[E|E]]]].
    5: { pose proof (Z.pow_le_mono_r 256 4 (Z.of_nat (length p)) ltac:(lia) ltac:(lia)) as Hm.
         unfold pow256 in *. change (256 ^ 4) with (2^32) in Hm. nia. }
    all: rewrite E in Hr, Hv; change (pow256 0) with 1 in *; change (pow256 1) with (2^8) in *;
      change (pow256 2) with (2^16) in *; change (pow256 3) with (2^24) in *.
    all: destruct (Z.ltb_spec hi 128); rewrite !length_app, E; cbn [length]; repeat case_match; lia. }
  rewrite <- Hs. unfold zlen. by rewrite Hle.
Qed.

Lemma same_bytes_scripts tx tx' :
  wf_tx tx -> wf_tx tx' -> SerializeNoWitness tx = SerializeNoWitness tx' ->
  map SignatureScript (TxIns tx) = map SignatureScript (TxIns tx').
Proof.
  intros Hwf Hwf' E.
  pose proof (btcDecode_write BaseEncoding tx [] Hwf ltac:(done)) as Hd.
  pose proof (btcDecode_write BaseEncoding tx' [] Hwf' ltac:(done)) as Hd'. unfold SerializeNoWitness in E. rewrite E, Hd' in Hd.
  injection Hd as _ Hins _ _. apply (f_equal (map SignatureScript)) in Hins. rewrite !map_map in Hins. symmetry. exact Hins.
Qed.

(** ** Properties *)


(** C26: the height in a coinbase is checked exactly, and names one height. For a
    coinbase and a height of 31 bits, [CheckSerializedHeight] accepts iff the
    signature script begins with the shortest push of the height: the opcode of the
    number up to 16, and above the length and the little-endian bytes, as many as
    the value and a clear sign bit need. So coinbases that pass for different
    heights are different byte strings, witness left out, and could have the same
    transaction id only by a collision of the hash. *)
Theorem coinbase_height_exact tx ti tis h :
  TxIns tx = ti :: tis -> 0 <= h < 2^31 ->
  (CheckSerializedHeight tx h = Ok tt <-> exists rest, SignatureScript ti = bip34Push h ++ rest) /\
  (forall tx' h', wf_tx tx -> wf_tx tx' -> IsCoinBaseTx tx' = true -> 0 <= h' < 2^31 ->
     CheckSerializedHeight tx h = Ok tt -> CheckSerializedHeight tx' h' = Ok tt ->
     SerializeNoWitness tx = SerializeNoWitness tx' -> h = h').
Proof.
  intros Hti Hh. split; [rewrite (CheckSerializedHeight_spec tx ti tis h Hti Hh), heightScript_bip34 by done; apply has_prefix_spec|].
  intros tx' h' Hwf Hwf' Hcb' Hh' Hc Hc' E. pose proof (same_bytes_scripts tx tx' Hwf Hwf' E) as Hs. rewrite Hti in Hs.
  unfold IsCoinBaseTx in Hcb'. destruct (TxIns tx') as [|ti' tis'] eqn:Eti'; [done|]. injection Hs as Hs _.
  apply (CheckSerializedHeight_spec tx ti tis h Hti Hh) in Hc. apply (CheckSerializedHeight_spec tx' ti' tis' h' Eti' Hh') in Hc'.
  apply has_prefix_spec in Hc as [r Hr], Hc' as [r' Hr'].
  pose proof (extract_pushed tx ti tis h r Hti Hh Hr) as He. rewrite Hs in Hr.
  pose proof (extract_pushed tx' ti' tis' h r Eti' Hh Hr) as He1. pose proof (extract_pushed tx' ti' tis' h' r' Eti' Hh' Hr') as He2.
  congruence.
Qed.

(** ** Witnesses *)

Definition coinbaseAt (h : Z) : MsgTx :=
  mkMsgTx 1 [mkTxIn (mkOutPoint zeroHash (2^32 - 1)) (heightScript h ++ [0; 0]) [] (2^32 - 1)] [mkTxOut baseSubsidy []] 0.

Lemma coinbaseAt_wf h : h = 70000 \/ h = 70001 -> wf_tx (coinbaseAt h).
Proof.
  intros Hh. split; try (by split); try done.
  - constructor; [|constructor]. split_and!; [split; [done|by split]|by split| |done|constructor]; by destruct Hh as [->| ->].
  - constructor; [|constructor]. by split.
  - by destruct Hh as [->| ->].
Qed.

Lemma coinbase_height_exact_witness :
  bip34Push 70000 = [3; 0x70; 0x11; 0x01] /\ CheckSerializedHeight (coinbaseAt 70000) 70000 = Ok tt /\
  (SerializeNoWitness (coinbaseAt 70000) = SerializeNoWitness (coinbaseAt 70001) -> 70000 = 70001).
Proof.
  destruct (coinbase_height_exact (coinbaseAt 70000) _ [] 70000 eq_refl) as [H1 H2]; [lia|].
  assert (Hc : CheckSerializedHeight (coinbaseAt 70000) 70000 = Ok tt) by (apply H1; exists [0; 0]; vm_compute; reflexivity).
  split; [vm_compute; reflexivity|]. split; [exact Hc|]. apply H2.
  - apply coinbaseAt_wf. by left.
  - apply coinbaseAt_wf. by right.
  - reflexivity.
  - lia.
  - exact Hc.
  - vm_compute. reflexivity.
Defined.
