(* ===== verification/ChainInv.v ===== *)
(** * The chain state follows the ledger

    The invariant that ties the parts of a block chain together and its
    preservation. [chain_to n u ids js]: the blocks of the branch of [n], read from
    the block store, take the empty ledger to [u]; [ids] are the hashes of their
    transactions and [js] their spend journals. [chain_ok b t u ids js]: the chain
    state [b] is at the tip [t]. Its view is the branch of [t], the database and
    the cache together hold [u], the database alone holds the ledger of the block
    its consistency mark names, the journals of all blocks are stored, and the
    enabled index is at [t].

    The index is used through the class [IndexerLaws]; ChainProps.v gives the
    instance of the expiry index. *)

From S2P Require Import Prelude ChainParams Sha256 Wire Encode Commitment Script Block Compress Bucket IndexDB Ledger UtxoView WorkMath ChainIO ChainStore BlockNode SizeHelper UtxoCache ChainView ExpiryIndex Text ReapRules ChainState.

(** What the chain relies on from an index. *)
Class IndexerLaws {ix : Indexer} := {
  ix_ok : ix_state -> utxo_set -> list Z -> Prop;
  ix_block : utxo_set -> Block -> utxo_set -> Prop;
  ix_connect s u block u' cs :
    ix_ok s u (bh_PrevBlock (Header block)) -> ix_block u block u' ->
    applyTxs (Height block) u (Transactions block) = Some (u', cs) ->
    exists s', ixConnectBlock s block cs = Ok s' /\ ix_ok s' u' (Block_Hash block);
  ix_disconnect s u block u' cs :
    ix_ok s u' (Block_Hash block) -> ix_block u block u' -> block_shape (Transactions block) ->
    length (bh_PrevBlock (Header block)) = HashSize ->
    applyTxs (Height block) u (Transactions block) = Some (u', cs) ->
    exists s', ixDisconnectBlock s block cs = Ok s' /\ ix_ok s' u (bh_PrevBlock (Header block)) }.

(** ** Where the coins of a ledger come from *)

Lemma spendCoins_subset u ops u' cs op c :
  spendCoins u ops = Some (u', cs) -> u' !! op = Some c -> u !! op = Some c.
Proof.
  revert u cs; induction ops as [|op' ops IH]; intros u cs; cbn [spendCoins].
  - by intros [= -> _].
  - destruct (u !! op') eqn:E; cbn [mbind option_bind]; [|done].
    destruct (spendCoins (delete op' u) ops) as [[u1 cs1]|] eqn:E1; cbn [mbind option_bind]; [|done].
    intros [= <- _] H. apply (IH _ _ E1) in H. by apply lookup_delete_Some in H as [_ ?].
Qed.

Lemma addCoins_origin u l u' op c :
  addCoins u l = Some u' -> u' !! op = Some c -> u !! op = Some c \/ (op, c) ∈ l.
Proof.
  revert u; induction l as [|[op' c'] l IH]; intros u; cbn [addCoins].
  - intros [= ->]. by left.
  - destruct (u !! op') eqn:E; [done|]. intros H Hc. destruct (IH _ H Hc) as [H1|H1]; [|right; by right].
    apply lookup_insert_Some in H1 as [[<- <-]|[_ H1]]; [right; left|by left].
Qed.

Lemma applyTxs_origin h u txs u' cs op c :
  applyTxs h u txs = Some (u', cs) -> u' !! op = Some c ->
  u !! op = Some c \/ exists tx, tx ∈ txs /\ Hash op = TxHash tx.
Proof.
  revert u cs; induction txs as [|tx txs IH]; intros u cs H Hc.
  { cbn in H. simplify_eq. by left. }
  apply applyTxs_cons in H as (u1 & cs1 & cs2 & H1 & H2 & _).
  destruct (IH _ _ H2 Hc) as [Hu1|(tx' & Hin & Hh)]; [|right; exists tx'; split; [by right|done]].
  unfold applyTx in H1. destruct (if IsCoinBaseTx tx then Some (u, []) else spendCoins u (prevOuts tx)) as [[u2 cs0]|] eqn:E2;
    cbn [mbind option_bind] in H1; [|done].
  destruct (addCoins u2 (newCoins h tx)) as [u3|] eqn:E3; [|done]. cbn in H1. injection H1 as <- _.
  destruct (addCoins_origin _ _ _ _ _ E3 Hu1) as [H|H].
  - left. destruct (IsCoinBaseTx tx); [by injection E2 as -> _|]. by eapply spendCoins_subset.
  - right. exists tx. split; [left|]. by eapply newCoinsFrom_hash.
Qed.

(** ** Undoing a ledger that differs on created outpoints only *)

Lemma removeCoins_lookup u l op :
  removeCoins u l !! op = if decide (op ∈ l.*1) then None else u !! op.
Proof.
  induction l as [|[op' c] l IH]; cbn [fmap list_fmap fst].
  { by rewrite decide_False by apply not_elem_of_nil. }
  change (removeCoins u ((op', c) :: l)) with (delete op' (removeCoins u l)).
  destruct (decide (op = op')) as [->|Hne].
  - rewrite lookup_delete_eq. by rewrite decide_True by left.
  - rewrite lookup_delete_ne, IH by done. destruct (decide (op ∈ l.*1)); [by rewrite decide_True by (by right)|].
    rewrite decide_False; [done|]. by intros [?|?]%elem_of_cons.
Qed.

Lemma restoreCoins_lookup u v l op : u !! op = v !! op -> restoreCoins u l !! op = restoreCoins v l !! op.
Proof.
  intros H. induction l as [|[op' c] l IH]; [done|].
  change (<[op' := c]> (restoreCoins u l) !! op = <[op' := c]> (restoreCoins v l) !! op).
  destruct (decide (op = op')) as [->|]; [by rewrite !lookup_insert_eq|by rewrite !lookup_insert_ne].
Qed.

Lemma undoTxs_agree h txs : forall (X : OutPoint -> Prop) u v cs,
  (forall op, ~ X op -> ~ createdBy h txs op -> u !! op = v !! op) ->
  forall op, ~ X op -> undoTxs h u txs cs !! op = undoTxs h v txs cs !! op.
Proof.
  induction txs as [|tx txs IH]; intros X u v cs Huv op Hop; cbn [undoTxs].
  { apply Huv; [done|]. intros (tx & Hin & _). by apply not_elem_of_nil in Hin. }
  unfold undoTx. apply restoreCoins_lookup. rewrite !removeCoins_lookup.
  destruct (decide (op ∈ (newCoins h tx).*1)) as [|Hni]; [done|].
  apply (IH (fun op => X op \/ op ∈ (newCoins h tx).*1)); [|tauto].
  intros op' HX Hc. apply Huv; [tauto|]. intros (tx' & [->|Hin]%elem_of_cons & Hop'); [tauto|].
  apply Hc. by exists tx'.
Qed.

(** ** The view of a reorganisation *)

(** The entries of the view say what the ledger says. *)
Definition synced (view : UtxoViewpoint) (u : utxo_set) : Prop :=
  forall op e, entries view !! op = Some e -> live_entry e = u !! op.

(** The same, except on outputs of the block: they are loaded as unspent when
    another transaction of the block spends them. *)
Record loaded (block : Block) (u : utxo_set) (view : UtxoViewpoint) : Prop := {
  ld_coin : forall op e, entries view !! op = Some e ->
    createdBy (Height block) (Transactions block) op \/ live_entry e = u !! op;
  ld_agrees : agrees u view;
  ld_wf : wf_view view }.

Lemma synced_loaded block u view : synced view u -> wf_view view -> loaded block u view.
Proof.
  intros Hs Hw. split; [|intros op e He _; by apply Hs|done]. intros op e He. right. by apply Hs.
Qed.

Lemma AddTxOutsFrom_loaded block u hash cb i outs view tx :
  tx ∈ Transactions block -> hash = TxHash tx -> cb = IsCoinBaseTx tx ->
  (forall op c, (op, c) ∈ newCoinsFrom hash (Height block) cb i outs ->
     (op, c) ∈ newCoins (Height block) tx /\ wf_coin op c) ->
  loaded block u view -> loaded block u (AddTxOutsFrom view hash cb (Height block) i outs).
Proof.
  intros Htx Hhash Hcb. revert view i; induction outs as [|o outs IH]; intros view i Hnew Hl; cbn [AddTxOutsFrom]; [done|].
  cbn [newCoinsFrom] in Hnew. apply IH; [intros op c Hin; apply Hnew, elem_of_app; by right|].
  unfold addTxOut. destruct (IsUnspendable (PkScript o)) eqn:Eu; [done|].
  destruct (Hnew (txOutPoint hash i) (mkSpentTxOut (Value o) (PkScript o) (Height block) cb)) as [Hin Hwf];
    [apply elem_of_app; left; left|]. destruct Hl as [H1 H2 H3]. split.
  - intros op e. cbn [setEntry entries]. intros [[<- <-]|[_ He]]%lookup_insert_Some; [|by apply H1].
    left. exists tx. split; [done|]. apply list_elem_of_fmap. by eexists (_, _).
  - apply agrees_set; [|done]. by destruct cb.
  - apply wf_view_set; [done|]. split; [apply Hwf|]. intros _. destruct Hwf as [_ Hst]. by destruct cb.
Qed.

Section fetch_loaded.
Context {codec : KeyCodec} {codec_ok : RecoversKeys}.
Context (block : Block) (u : utxo_set).
Context (Hh : 0 <= Height block < 2^31) (Hout : wf_outputs (Transactions block)).
Context (Hin : Forall (fun tx => Forall wf_outpoint (prevOuts tx)) (Transactions block)).

Lemma AddTxOuts_loaded view tx :
  tx ∈ Transactions block -> loaded block u view -> loaded block u (AddTxOuts view tx (Height block)).
Proof using Hh Hout.
  intros Htx. apply (AddTxOutsFrom_loaded block u _ _ _ _ view tx Htx eq_refl eq_refl).
  intros op c Hc. split; [done|]. unfold wf_outputs in Hout. rewrite Forall_forall in Hout.
  pose proof (newCoinsFrom_wf (TxHash tx) (Height block) (IsCoinBaseTx tx) 0 (TxOuts tx) (length_DoubleHashB _) Hh (Hout tx Htx)) as Hn.
  rewrite Forall_forall in Hn. exact (Hn (op, c) Hc).
Qed.

(** While the inputs are collected. *)
Definition gathering (st : UtxoViewpoint * list OutPoint) : Prop :=
  loaded block u st.1 /\ Forall wf_outpoint st.2.

Lemma inputToFetch_gathering i st op : wf_outpoint op -> gathering st -> gathering (inputToFetch block i st op).
Proof using Hh Hout.
  destruct st as [view needed]. intros Hop [Hl Hn]. cbn [fst snd] in *.
  assert (Hfetch : gathering match entries view !! op with Some _ => (view, needed) | None => (view, needed ++ [op]) end).
  { destruct (entries view !! op); split; try done. apply Forall_app. split; [done|]. by constructor. }
  unfold inputToFetch. destruct (txInFlight _ !! Hash op) as [k|] eqn:Ek; [|exact Hfetch].
  destruct (k <=? i)%nat; [|exact Hfetch]. apply txInFlight_hash in Ek as (tx & Htx & _). rewrite Htx.
  split; [|done]. apply AddTxOuts_loaded; [by eapply list_elem_of_lookup_2|done].
Qed.

Lemma findInputsToFetch_gathering view :
  loaded block u view -> gathering (findInputsToFetch view block).
Proof using Hh Hout Hin.
  intros Hl. apply (findInputsToFetch_ind block (fun _ => gathering)); [|split; [done|constructor]].
  intros i _ st tx op Htx Hop. apply inputToFetch_gathering. rewrite Forall_forall in Hin.
  specialize (Hin tx Htx). rewrite Forall_forall in Hin. by apply Hin.
Qed.

Lemma fetchInputUtxos_loaded db base s view :
  stored base (utxoSetBucket db) -> standsFor base s u -> loaded block u view ->
  exists view1 s1, fetchInputUtxos db s view block = Ok (view1, s1) /\ standsFor base s1 u /\ loaded block u view1.
Proof using Hh Hout Hin codec_ok.
  intros Hs Hr Hl. unfold fetchInputUtxos. pose proof (findInputsToFetch_gathering view Hl) as [Hl1 Hn].
  destruct (findInputsToFetch view block) as [view1 needed]. cbn [fst snd] in *. unfold fetchUtxosFromCache.
  destruct needed as [|n0 needed']; [by exists view1, s|]. remember (n0 :: needed') as needed eqn:En. clear En.
  destruct (fetchEntries_rep db base s u needed Hs Hr Hn) as (es & s1 & -> & Hr1 & Hf). result_simpl.
  eexists _, s1. split; [reflexivity|]. split; [done|].
  assert (Hstep : forall l es0, Forall2 (fun op e => msGet (uc_cachedEntries s1) op = Some e) l es0 ->
    forall v, loaded block u v ->
    loaded block u (mkUtxoViewpoint (foldl (fun es oe => partial_alter (fun _ => oe.2) oe.1 es) (entries v) (zip l es0)) (bestHash v))).
  { induction 1 as [|op e l es0 He _ IH]; intros v Hv; cbn [zip_with foldl]; [by destruct v|].
    cbn [fst snd]. pose proof (IH (mkUtxoViewpoint (partial_alter (fun _ => e) op (entries v)) (bestHash v))) as IHv.
    cbn [entries bestHash] in IHv. apply IHv. clear IH IHv.
    pose proof (rep_entry _ _ _ Hr1 op) as Hrep. rewrite He in Hrep. destruct Hv as [H1 H2 H3].
    assert (Hcase : forall op' e', partial_alter (fun _ => e) op (entries v) !! op' = Some e' ->
              entries v !! op' = Some e' \/ (op' = op /\ e = Some e' /\ live_entry e' = u !! op)).
    { intros op' e'. destruct (decide (op' = op)) as [->|Hne]; [|rewrite lookup_partial_alter_ne by done; by left].
      rewrite lookup_partial_alter_eq. intros ->. right. split_and!; try done. apply Hrep. }
    split.
    - intros op' e' H. destruct (Hcase op' e' H) as [H'|(-> & _ & Hlive)]; [by apply H1|by right].
    - intros op' e' H Hm. destruct (Hcase op' e' H) as [H'|(-> & _ & Hlive)]; [by apply H2|done].
    - intros op' e' H. destruct (Hcase op' e' H) as [H'|(-> & -> & Hlive)]; [by apply H3|].
      split; [apply (rep_key _ _ _ Hr1); by eexists|]. intros Hns. unfold live_entry in Hlive. rewrite Hns in Hlive.
      symmetry in Hlive. apply (rep_wf _ _ _ Hr1 op _ Hlive). }
  by apply Hstep.
Qed.

(** Undoing the block in the view gives the view of the ledger before it. *)
Lemma disconnect_loaded dbFetch view u0 cs :
  loaded block u view -> block_shape (Transactions block) -> Forall storable cs -> journal_ok cs ->
  applyTxs (Height block) u0 (Transactions block) = Some (u, cs) ->
  exists view2, disconnectTransactions dbFetch view block cs = Ok (view2, cs) /\
    coins u view2 = u0 /\ agrees u view2 /\ wf_view view2.
Proof using Hh Hin.
  intros [H1 H2 H3] Hsh Hst Hj Happ. pose proof (applyTxs_journal_length _ _ _ _ _ Hsh Happ) as Hl.
  destruct (disconnectTransactions_refines u dbFetch view block cs Hsh Hl Hj) as (view2 & E & Hc & _).
  exists view2. split; [done|]. split; [|split].
  - rewrite Hc, <- (undoTxs_applyTxs _ _ _ _ _ Happ). apply map_eq. intros op.
    apply (undoTxs_agree _ _ (fun _ => False)); [|tauto]. intros op' _ Hnc. rewrite lookup_coins.
    destruct (entries view !! op') as [e|] eqn:Ee; [|done]. by destruct (H1 op' e Ee).
  - by apply (disconnectTransactions_agrees u dbFetch view block cs view2 cs).
  - by apply (disconnectTransactions_wf dbFetch view block cs view2 cs).
Qed.
End fetch_loaded.

Lemma commit_entry view op e :
  entries (commit view) !! op = Some e ->
  exists e0, entries view !! op = Some e0 /\ live_entry e = live_entry e0 /\ IsSpent e = IsSpent e0 /\
             entryStxo e = entryStxo e0.
Proof.
  unfold commit. cbn [entries]. rewrite lookup_omap. destruct (entries view !! op) as [e0|]; [|done]. cbn [mbind option_bind].
  destruct (isModified e0 && IsSpent e0); [done|]. intros [= <-]. exists e0. split; [done|].
  assert (Hf : forall k, k <> 2 -> 0 <= k -> hasFlag (mkUtxoEntry (amount e0) (pkScript e0) (blockHeight e0)
                           (Z.lxor (packedFlags e0) tfModified)) (2^k) = hasFlag e0 (2^k)).
  { intros k Hk Hk0. rewrite !hasFlag_testbit by done. cbn [packedFlags]. rewrite Z.lxor_spec.
    change tfModified with (2^2). rewrite Z.pow2_bits_false by lia. apply xorb_false_r. }
  assert (H1 : IsSpent (mkUtxoEntry (amount e0) (pkScript e0) (blockHeight e0) (Z.lxor (packedFlags e0) tfModified))
               = IsSpent e0) by (apply (Hf 1); lia).
  assert (H2 : entryStxo (mkUtxoEntry (amount e0) (pkScript e0) (blockHeight e0) (Z.lxor (packedFlags e0) tfModified))
               = entryStxo e0).
  { unfold entryStxo. cbn [amount pkScript blockHeight]. f_equal. apply (Hf 0); lia. }
  split_and!; [|done|done]. unfold live_entry. by rewrite H1, H2.
Qed.

(** After the view is written and committed it says what the new ledger says. *)
Lemma commit_synced base view u : coins base view = u -> wf_view view -> synced (commit view) u /\ wf_view (commit view).
Proof.
  intros <- Hw. split.
  - intros op e He. destruct (commit_entry view op e He) as (e0 & He0 & -> & _). by rewrite lookup_coins, He0.
  - intros op e He. destruct (commit_entry view op e He) as (e0 & He0 & _ & Hs & Hc). destruct (Hw op e0 He0) as [H1 H2].
    split; [done|]. rewrite Hs, Hc. done.
Qed.

(** ** The ledger of a branch *)

Section invariant.
Context {codec : KeyCodec} {codec_ok : RecoversKeys} {ix : Indexer} {laws : IndexerLaws}.
Context (fetchBlock : blockNode -> result chain_error Block).

(** The block of a node, and its place below the parent. *)
Record node_block (n p : blockNode) (block : Block) : Prop := {
  nb_hash : Block_Hash block = node_hash n;
  nb_height : Height block = node_height n;
  nb_prev : bh_PrevBlock (Header block) = node_hash p;
  nb_fetch : fetchBlock n = Ok block }.

(** A valid block on the ledger [u]: it applies and creates no transaction twice. *)
Record valid_block (u : utxo_set) (ids : list (list Z)) (block : Block) (u' : utxo_set) (cs : list SpentTxOut)
    : Prop := {
  gb_apply : applyTxs (Height block) u (Transactions block) = Some (u', cs);
  gb_height : 0 <= Height block < 2^31;
  gb_shape : block_shape (Transactions block);
  gb_outputs : wf_outputs (Transactions block);
  gb_inputs : Forall (fun tx => Forall wf_outpoint (prevOuts tx)) (Transactions block);
  gb_journal : journal_ok cs;
  gb_ids : forall tx, tx ∈ Transactions block -> TxHash tx ∉ ids }.

(** And one the index accepts. *)
Record good_block (u : utxo_set) (ids : list (list Z)) (block : Block) (u' : utxo_set) (cs : list SpentTxOut)
    : Prop := {
  gb_valid :> valid_block u ids block u' cs;
  gb_index : ix_block u block u' }.

Inductive chain_to : blockNode -> utxo_set -> list (list Z) -> list (list Z * list SpentTxOut) -> Prop :=
| chain_root n : nodeParent n = None -> length (node_hash n) = HashSize -> chain_to n ∅ [] []
| chain_step n p u ids js block u' cs :
    nodeParent n = Some p -> chain_to p u ids js -> node_block n p block -> good_block u ids block u' cs ->
    chain_to n u' (map TxHash (Transactions block) ++ ids) ((node_hash n, cs) :: js).

Lemma chain_to_wf n u ids js :
  chain_to n u ids js ->
  map_Forall wf_coin u /\ (forall op c, u !! op = Some c -> Hash op ∈ ids) /\ length (node_hash n) = HashSize.
Proof.
  induction 1 as [n Hp Hl|n p u ids js block u' cs Hp _ (IH1 & IH2 & _) Hb Hg].
  { split; [apply map_Forall_empty|]. split; [|done]. intros op c H. by rewrite lookup_empty in H. }
  split; [|split].
  - apply (applyTxs_wf _ _ _ _ _ (gb_height _ _ _ _ _ Hg) IH1 (gb_outputs _ _ _ _ _ Hg) (gb_apply _ _ _ _ _ Hg)).
  - intros op c Hc. destruct (applyTxs_origin _ _ _ _ _ _ _ (gb_apply _ _ _ _ _ Hg) Hc) as [H|(tx & Htx & ->)];
      apply elem_of_app; [right; by eapply IH2|left]. apply list_elem_of_fmap. by exists tx.
  - rewrite <- (nb_hash _ _ _ Hb). apply length_DoubleHashB.
Qed.

Lemma chain_to_det n u ids js u2 ids2 js2 :
  chain_to n u ids js -> chain_to n u2 ids2 js2 -> u2 = u /\ ids2 = ids /\ js2 = js.
Proof.
  intros H. revert u2 ids2 js2; induction H as [n Hp Hl|n p u ids js block u' cs Hp _ IH Hb Hg]; intros u2 ids2 js2 H2.
  - inversion H2; [done|congruence].
  - inversion H2 as [|n2 p2 u3 ids3 js3 block2 u2' cs2 Hp2 Hc2 Hb2 Hg2]; subst; [congruence|].
    rewrite Hp in Hp2. injection Hp2 as <-. destruct (IH _ _ _ Hc2) as (-> & -> & ->).
    pose proof (nb_fetch _ _ _ Hb) as F1. pose proof (nb_fetch _ _ _ Hb2) as F2. rewrite F1 in F2. injection F2 as <-.
    pose proof (gb_apply _ _ _ _ _ Hg) as A1. pose proof (gb_apply _ _ _ _ _ Hg2) as A2. rewrite A1 in A2.
    by injection A2 as <- <-.
Qed.

(** An ancestor has its own ledger, with fewer transactions. *)
Lemma chain_to_prefix n u ids js f :
  chain_to n u ids js -> f ∈ branch n ->
  exists u0 ids0 js0, chain_to f u0 ids0 js0 /\ forall h, h ∈ ids0 -> h ∈ ids.
Proof.
  induction 1 as [n Hp Hl|n p u ids js block u' cs Hp Hc IH Hb Hg]; rewrite branch_unfold, Hp;
    intros [->|Hf]%elem_of_cons.
  - exists ∅, [], []. split; [by constructor|done].
  - by apply not_elem_of_nil in Hf.
  - eexists _, _, _. split; [by econstructor|done].
  - destruct (IH Hf) as (u0 & ids0 & js0 & H1 & H2). exists u0, ids0, js0. split; [done|].
    intros h Hh. apply elem_of_app. right. by apply H2.
Qed.

(** The transactions of a valid block are new to the ledger of every ancestor. *)
Lemma chain_new_ids p u ids js f u0 ids0 js0 block u' cs :
  chain_to p u ids js -> f ∈ branch p -> chain_to f u0 ids0 js0 -> valid_block u ids block u' cs ->
  new_ids u0 (Transactions block).
Proof.
  intros Hc Hf Hc0 Hg. destruct (chain_to_prefix p u ids js f Hc Hf) as (u1 & ids1 & js1 & Hc1 & Hsub).
  destruct (chain_to_det _ _ _ _ _ _ _ Hc1 Hc0) as (-> & -> & ->). destruct (chain_to_wf _ _ _ _ Hc1) as (_ & Hids & _).
  intros op c tx Hop Htx E. apply (gb_ids _ _ _ _ _ Hg tx Htx), Hsub. rewrite <- E. by eapply Hids.
Qed.

Lemma chain_to_journals n u ids js h :
  chain_to n u ids js -> h ∈ js.*1 -> exists m, m ∈ branch n /\ node_hash m = h.
Proof.
  induction 1 as [n Hp Hl|n p u ids js block u' cs Hp Hc IH Hb Hg]; rewrite branch_unfold, Hp; cbn [fmap list_fmap fst].
  - intros H. by apply not_elem_of_nil in H.
  - intros [->|Hin]%elem_of_cons; [exists n; split; [left|done]|].
    destruct (IH Hin) as (m & Hm & He). exists m. split; [by right|done].
Qed.

(** ** The invariant *)

Definition chainDB (b : BlockChain) : ChainDB := st_chain (bc_store b).

(** The state is at the tip [t], whose ledger is [u]; the cache stands for [v]. *)
Record chain_at (b : BlockChain) (t : blockNode) (u v : utxo_set) (ids : list (list Z))
    (js : list (list Z * list SpentTxOut)) : Prop := {
  ca_tree : tree_ok (bc_nodes b);
  ca_tip : inIndex (bc_nodes b) t;
  ca_view : bc_best b = viewOf t;
  ca_chain : chain_to t u ids js;
  ca_journal : Forall (fun hj => spendJournalBucket (chainDB b) !! hj.1 = Some (serializeSpendJournalEntry hj.2)) js;
  ca_ledger : exists f base ids0 js0, f ∈ branch t /\ chain_to f base ids0 js0 /\
    stored base (utxoSetBucket (chainDB b)) /\ standsFor base (bc_cache b) v /\
    dbFetchUtxoStateConsistency (chainDB b) = Some (node_hash f);
  ca_index : ix_ok (st_index (bc_store b)) u (node_hash t);
  ca_tips : st_tips (bc_store b) !! ix_key = Some (node_hash t ++ le_bytes 4 (u32 (node_height t)));
  ca_state : bs_Hash (bc_state b) = node_hash t /\ bs_Height (bc_state b) = node_height t }.

Definition chain_ok b t u ids js : Prop := chain_at b t u u ids js.

(** States that differ in node statuses and their rows alone. *)
Record alike (b b' : BlockChain) : Prop := {
  al_index : bi_index (bc_nodes b') = bi_index (bc_nodes b);
  al_best : bc_best b' = bc_best b;
  al_cache : bc_cache b' = bc_cache b;
  al_state : bc_state b' = bc_state b;
  al_tips : st_tips (bc_store b') = st_tips (bc_store b);
  al_ix : st_index (bc_store b') = st_index (bc_store b);
  al_meta : metadata (chainDB b') = metadata (chainDB b);
  al_journal : spendJournalBucket (chainDB b') = spendJournalBucket (chainDB b);
  al_utxo : utxoSetBucket (chainDB b') = utxoSetBucket (chainDB b);
  al_hashes : hashIndexBucket (chainDB b') = hashIndexBucket (chainDB b);
  al_heights : heightIndexBucket (chainDB b') = heightIndexBucket (chainDB b) }.

Lemma tree_ok_index bi bi' : bi_index bi' = bi_index bi -> tree_ok bi -> tree_ok bi'.
Proof. intros E H. unfold tree_ok, inIndex in *. by rewrite E. Qed.

Lemma chain_at_alike b b' t u v ids js : alike b b' -> chain_at b t u v ids js -> chain_at b' t u v ids js.
Proof.
  intros [A1 A2 A3 A4 A5 A6 A7 A8 A9 _ _] [H1 H2 H3 H4 H5 H6 H7 H8 H9].
  split; rewrite ?A2, ?A3, ?A4, ?A5, ?A6, ?A8, ?A9; try done.
  - by apply (tree_ok_index (bc_nodes b)).
  - unfold inIndex. by rewrite A1.
  - unfold dbFetchUtxoStateConsistency in *. by rewrite A7.
Qed.

Lemma alike_flushToDB b : alike b (flushToDB b).
Proof.
  unfold flushToDB. set (db := foldl _ _ _).
  assert (Hdb : metadata db = metadata (chainDB b) /\ spendJournalBucket db = spendJournalBucket (chainDB b) /\
                utxoSetBucket db = utxoSetBucket (chainDB b) /\ hashIndexBucket db = hashIndexBucket (chainDB b) /\
                heightIndexBucket db = heightIndexBucket (chainDB b)).
  { unfold db, chainDB. generalize (elements (bi_dirty (bc_nodes b))). intros l.
    generalize (st_chain (bc_store b)). induction l as [|h l IH]; intros d; cbn [foldl]; [done|].
    destruct (IH (storeNode (bc_nodes b) d h)) as (-> & -> & -> & -> & ->). unfold storeNode. by destruct (LookupNode _ h). }
  destruct Hdb as (H1 & H2 & H3 & H4 & H5). split; try reflexivity; assumption.
Qed.

Lemma alike_setFlags b n flags : alike b (setFlags b n flags).
Proof. split; reflexivity. Qed.

Lemma NodeStatus_set b m n flags :
  NodeStatus (bc_nodes (setFlags b m flags)) n
  = if decide (node_hash m = node_hash n) then Z.lor (NodeStatus (bc_nodes b) n) flags else NodeStatus (bc_nodes b) n.
Proof.
  unfold NodeStatus, setFlags, SetStatusFlags, NodeStatus. cbn [withNodes bc_nodes bi_status].
  destruct (decide (node_hash m = node_hash n)) as [E|E]; [by rewrite E, lookup_insert_eq|by rewrite lookup_insert_ne].
Qed.

(** A mark as invalid stays. *)
Lemma setFlags_invalid b m n flags :
  KnownInvalid (NodeStatus (bc_nodes b) n) = true -> KnownInvalid (NodeStatus (bc_nodes (setFlags b m flags)) n) = true.
Proof.
  rewrite NodeStatus_set. destruct (decide _); [|done]. unfold KnownInvalid. rewrite !negb_true_iff, !Z.eqb_neq.
  rewrite Z.land_lor_distr_l. by intros H [? _]%Z.lor_eq_0_iff.
Qed.

Lemma setFlags_marks b n : KnownInvalid (NodeStatus (bc_nodes (setFlags b n statusValidateFailed)) n) = true.
Proof.
  rewrite NodeStatus_set, decide_True by done. unfold KnownInvalid. rewrite negb_true_iff, Z.eqb_neq.
  rewrite Z.land_lor_distr_l. by intros [_ ?]%Z.lor_eq_0_iff.
Qed.

Lemma foldl_setFlags_invalid flags l b n :
  KnownInvalid (NodeStatus (bc_nodes b) n) = true ->
  KnownInvalid (NodeStatus (bc_nodes (foldl (fun b m => setFlags b m flags) b l)) n) = true.
Proof. revert b; induction l as [|m l IH]; intros b H; [done|]. cbn [foldl]. by apply IH, setFlags_invalid. Qed.

Lemma alike_trans b b1 b2 : alike b b1 -> alike b1 b2 -> alike b b2.
Proof. intros [] []. split; congruence. Qed.

(** ** Attaching a block *)

Lemma connect_cache b t u ids js n block u' cs stxos :
  chain_ok b t u ids js -> node_block n t block -> valid_block u ids block u' cs ->
  exists s1, cacheConnectTransactions (chainDB b) (bc_cache b) block stxos = ((s1, (fun l => l ++ cs) <$> stxos), Ok tt) /\
             chain_at (withCache b s1) t u u' ids js.
Proof using codec_ok.
  intros [H1 H2 H3 H4 H5 (f & base & ids0 & js0 & Hf & Hc0 & Hs & Hr & Hm) H7 H8 H9] Hb Hg.
  pose proof (chain_new_ids t u ids js f _ _ _ _ _ _ H4 Hf Hc0 Hg) as Hnew.
  pose proof (may_create_block base _ _ (gb_height _ _ _ _ _ Hg) (gb_outputs _ _ _ _ _ Hg) Hnew) as Hmay.
  destruct (cacheConnectTransactions_rep (chainDB b) base (bc_cache b) u block stxos u' cs Hs Hr Hmay (gb_apply _ _ _ _ _ Hg))
    as (s1 & E1 & Hr1).
  exists s1. split; [done|]. split; try done. by exists f, base, ids0, js0.
Qed.

Lemma dbFetchIndexerTip_put tips hash height :
  length hash = HashSize -> tips !! ix_key = Some (hash ++ le_bytes 4 (u32 height)) ->
  exists h, dbFetchIndexerTip tips = Ok (hash, h).
Proof.
  intros Hl Ht. unfold dbFetchIndexerTip. rewrite Ht. change (default [] (Some ?x)) with x.
  unfold zlen. rewrite length_app, Hl, length_le_bytes. cbn. eexists. f_equal. f_equal.
  by rewrite take_app_length' by done.
Qed.

(** A block is not among its own ancestors. *)
Lemma child_hash_new b t n h u ids js :
  tree_ok (bc_nodes b) -> inIndex (bc_nodes b) t -> inIndex (bc_nodes b) n -> nodeParent n = Some t ->
  chain_to t u ids js -> h ∈ js.*1 -> h <> node_hash n.
Proof.
  intros Ht Hit Hin Hp Hc Hh ->. destruct (chain_to_journals t u ids js _ Hc Hh) as (m & Hm & E).
  pose proof (inIndex_branch _ t m Ht Hit Hm) as Him. unfold inIndex in *. rewrite E in Him.
  assert (m = n) as -> by congruence. destruct (inIndex_wf _ n Ht Hin) as [Hwn _].
  destruct (inIndex_wf _ t Ht Hit) as [Hwt _]. pose proof (branch_height_le t n Hwt Hm).
  pose proof (length_branch n Hwn) as L1. pose proof (length_branch t Hwt) as L2.
  rewrite branch_unfold, Hp in L1. cbn [length] in L1. lia.
Qed.

Lemma connectBlock_at pruneBlocks b t u ids js n block u' cs now :
  chain_at b t u u' ids js -> (forall st, pruneBlocks st = []) -> nodeParent n = Some t ->
  inIndex (bc_nodes b) n -> node_block n t block -> good_block u ids block u' cs ->
  exists b', connectBlock pruneBlocks b n block cs now = (b', Ok tt) /\
    bi_index (bc_nodes b') = bi_index (bc_nodes b) /\
    chain_ok b' n u' (map TxHash (Transactions block) ++ ids) ((node_hash n, cs) :: js).
Proof using codec_ok.
  intros Hat Hpr Hp Hin Hb Hg. pose proof (gb_apply _ _ _ _ _ Hg) as Happ.
  pose proof (chain_at_alike _ _ _ _ _ _ _ (alike_flushToDB b) Hat) as Hat1.
  pose proof (al_index _ _ (alike_flushToDB b)) as Hidx. set (b1 := flushToDB b) in *.
  pose proof Hat as [_ _ V3 _ _ _ _ _ _].
  destruct Hat1 as [H1 H2 H3 H4 H5 (f & base & ids0 & js0 & Hf & Hc0 & Hs & Hr & Hm) H7 H8 H9].
  assert (Hin1 : inIndex (bc_nodes b1) n) by (unfold inIndex; by rewrite Hidx).
  assert (Hnew : chain_to n u' (map TxHash (Transactions block) ++ ids) ((node_hash n, cs) :: js)) by (by econstructor).
  destruct (chain_to_wf _ _ _ _ H4) as (_ & _ & Hlen).
  unfold connectBlock. rewrite V3, viewTip_viewOf. rewrite (nb_prev _ _ _ Hb), bool_decide_true by done. cbn [negb].
  rewrite (applyTxs_journal_length _ _ _ _ _ (gb_shape _ _ _ _ _ Hg) Happ). unfold countSpentOutputs.
  rewrite Nat.eqb_refl. cbn [negb]. fold b1. set (state := stateAt n block _).
  unfold connectTxn. rewrite Hpr. set (db4 := dbPutSpendJournalEntry _ _ _). unfold dbIndexConnectBlock.
  destruct (dbFetchIndexerTip_put _ _ _ Hlen H8) as (h0 & Ht0). cbn [withChainDB st_tips st_chain st_index].
  rewrite Ht0. cbn [liftIO]. result_simpl. rewrite (nb_prev _ _ _ Hb), bool_decide_true by done. cbn [negb].
  rewrite <- (nb_prev _ _ _ Hb) in H7.
  destruct (ix_connect _ _ _ _ _ H7 (gb_index _ _ _ _ _ Hg) Happ) as (sx & -> & Hsx). cbn [liftIndex]. result_simpl.
  rewrite H3, (setTip_viewOf _ H1 _ (Some t) n (conj H2 eq_refl) Hin1).
  cbn [st_chain]. assert (Hs4 : stored base (utxoSetBucket db4)) by exact Hs.
  destruct (flush_rep db4 base (bc_cache b1) u' FlushIfNeeded (bs_Hash state) now Hs4 Hr) as (db5 & s5 & -> & Hfl).
  eexists. split; [reflexivity|]. split; [exact Hidx|].
  assert (Hj4 : Forall (fun hj => spendJournalBucket db4 !! hj.1 = Some (serializeSpendJournalEntry hj.2)) ((node_hash n, cs) :: js)).
  { unfold db4, dbPutSpendJournalEntry. cbn [withSpendJournal spendJournalBucket]. rewrite (nb_hash _ _ _ Hb).
    constructor; [apply lookup_insert_eq|]. rewrite Forall_forall in H5. apply Forall_forall. intros hj Hhj.
    rewrite lookup_insert_ne; [by apply H5|]. intros E. symmetry in E. revert E.
    apply (child_hash_new b1 t n _ u ids js); try done. apply list_elem_of_fmap. by exists hj. }
  assert (Hjeq : spendJournalBucket db5 = spendJournalBucket db4) by
    (destruct Hfl as [(-> & _)|(_ & _ & _ & _ & -> & _)]; reflexivity).
  assert (Hfb : f ∈ branch n) by (rewrite branch_unfold, Hp; by right).
  assert (Hnn : n ∈ branch n) by (rewrite branch_unfold; left).
  split; cbn [bc_nodes bc_best bc_cache bc_state bc_store withCache withStore withChainDB st_index st_tips chainDB st_chain];
    try done.
  - unfold chainDB; cbn [bc_store st_chain withChainDB]. by rewrite Hjeq.
  - unfold chainDB; cbn [bc_store st_chain withChainDB]. destruct Hfl as [(-> & -> & _)|(F1 & F2 & F3 & _)].
    + exists f, base, ids0, js0. split_and!; try done. unfold dbFetchUtxoStateConsistency in *. unfold db4.
      cbn [dbPutSpendJournalEntry withSpendJournal dbPutBlockIndex withBlockIndexes dbPutBestSnapshot dbPutBestState withMetadata metadata].
      rewrite lookup_insert_ne; [exact Hm|]. vm_compute. discriminate.
    + exists n, u', (map TxHash (Transactions block) ++ ids), ((node_hash n, cs) :: js). split_and!; done.
  - rewrite <- (nb_hash _ _ _ Hb). exact Hsx.
  - unfold dbPutIndexerTip. rewrite lookup_insert_eq. by rewrite (nb_hash _ _ _ Hb), (nb_height _ _ _ Hb).
Qed.

Lemma connectBlock_status pruneBlocks b n block stxos now :
  bi_status (bc_nodes (connectBlock pruneBlocks b n block stxos now).1) = bi_status (bc_nodes b).
Proof. unfold connectBlock. by repeat case_match. Qed.

(** When the index fails, nothing is committed and the cache keeps the block. *)
Lemma connectBlock_rejected pruneBlocks b t u ids js n block u' cs e now :
  chain_at b t u u' ids js -> (forall st, pruneBlocks st = []) ->
  node_block n t block -> valid_block u ids block u' cs ->
  ixConnectBlock (st_index (bc_store b)) block cs = Err e ->
  exists b', connectBlock pruneBlocks b n block cs now = (b', Err (IndexError e)) /\ alike b b'.
Proof.
  intros Hat Hpr Hb Hg Hrej. pose proof (alike_flushToDB b) as Hal. set (b1 := flushToDB b) in *.
  pose proof (chain_to_wf _ _ _ _ (ca_chain _ _ _ _ _ _ Hat)) as (_ & _ & Hlen).
  unfold connectBlock. rewrite (ca_view _ _ _ _ _ _ Hat), viewTip_viewOf, (nb_prev _ _ _ Hb), bool_decide_true by done.
  cbn [negb]. rewrite (applyTxs_journal_length _ _ _ _ _ (gb_shape _ _ _ _ _ Hg) (gb_apply _ _ _ _ _ Hg)).
  unfold countSpentOutputs. rewrite Nat.eqb_refl. cbn [negb]. fold b1. unfold connectTxn. rewrite Hpr.
  unfold dbIndexConnectBlock. cbn [withChainDB st_tips st_index st_chain].
  destruct (dbFetchIndexerTip_put (st_tips (bc_store b1)) (node_hash t) (node_height t) Hlen) as (h0 & ->).
  { rewrite (al_tips _ _ Hal). apply (ca_tips _ _ _ _ _ _ Hat). }
  cbn [liftIO]. result_simpl. rewrite (nb_prev _ _ _ Hb), bool_decide_true by done. cbn [negb].
  rewrite (al_ix _ _ Hal), Hrej. cbn [liftIndex]. result_simpl. eexists. split; [reflexivity|].
  destruct Hal. split; done.
Qed.

(** ** Detaching a block *)

Lemma dbPutUtxoView_fields db view db' :
  dbPutUtxoView db (Some view) = Ok db' -> db' = withUtxoSet db (utxoSetBucket db').
Proof.
  unfold dbPutUtxoView. destruct (foldM _ _ _); [|done]. result_simpl. by intros [= <-].
Qed.

Lemma journal_read db block cs :
  Transactions block <> [] -> Forall storable cs -> length cs = countSpentOutputs block ->
  spendJournalBucket db !! Block_Hash block = Some (serializeSpendJournalEntry cs) ->
  dbFetchSpendJournalEntry db block = Ok cs.
Proof using codec_ok.
  intros Hne Hst Hl Hj. rewrite <- (dbSpendJournal_roundtrip db block cs Hne Hst Hl).
  unfold dbFetchSpendJournalEntry, dbPutSpendJournalEntry. cbn [withSpendJournal spendJournalBucket].
  by rewrite Hj, lookup_insert_eq.
Qed.

(** The transaction of [disconnectBlock]. *)
Lemma disconnectTxn_at b t n u u' ids block cs base view state now :
  stored base (utxoSetBucket (chainDB b)) -> standsFor base (bc_cache b) u' ->
  ix_ok (st_index (bc_store b)) u' (node_hash n) ->
  st_tips (bc_store b) !! ix_key = Some (node_hash n ++ le_bytes 4 (u32 (node_height n))) ->
  spendJournalBucket (chainDB b) !! node_hash n = Some (serializeSpendJournalEntry cs) ->
  map_Forall wf_coin u -> length (node_hash t) = HashSize -> node_block n t block -> good_block u ids block u' cs ->
  coins u' view = u -> agrees u' view -> wf_view view ->
  exists s1 st, disconnectTxn b n block view state now = (s1, Ok st) /\
    standsFor u s1 u /\ stored u (utxoSetBucket (st_chain st)) /\
    spendJournalBucket (st_chain st) = delete (node_hash n) (spendJournalBucket (chainDB b)) /\
    dbFetchUtxoStateConsistency (st_chain st) = Some (bs_Hash state) /\
    ix_ok (st_index st) u (node_hash t) /\
    st_tips st !! ix_key = Some (node_hash t ++ le_bytes 4 (u32 (i32 (Height block - 1)))).
Proof using codec_ok.
  intros Hs Hr Hix Htips Hj Hwf Hlen Hb Hg Hco Hag Hwv. unfold disconnectTxn. set (db2 := dbRemoveBlockIndex _ _ _).
  destruct (flush_rep db2 base (bc_cache b) u' FlushRequired (bs_Hash state) now Hs Hr)
    as (db3 & s1 & -> & [(_ & _ & H)|(F1 & F2 & F3 & _ & F4 & F5)]); [done|].
  destruct (dbPutUtxoView_stored db3 u' view F1 Hwv Hag) as (db4 & E4 & Hs4). rewrite Hco in Hs4. rewrite E4.
  pose proof (dbPutUtxoView_fields _ _ _ E4) as Hf4. cbn [liftIO]. result_simpl.
  assert (Hj4 : spendJournalBucket db4 = spendJournalBucket (chainDB b)) by (by rewrite Hf4, F4).
  assert (Hm4 : metadata db4 = metadata db3) by (by rewrite Hf4).
  pose proof (gb_apply _ _ _ _ _ Hg) as Happ. pose proof (gb_shape _ _ _ _ _ Hg) as Hsh.
  rewrite (journal_read db4 block cs); [|by destruct (Transactions block)| | |].
  - cbn [liftIO]. result_simpl. unfold dbIndexDisconnectBlock. cbn [withChainDB st_tips st_index st_chain].
    rewrite <- (nb_hash _ _ _ Hb) in Htips, Hix.
    destruct (dbFetchIndexerTip_put _ _ _ (length_DoubleHashB _) Htips) as (h0 & ->). cbn [liftIO]. result_simpl.
    rewrite bool_decide_true by done. cbn [negb].
    destruct (ix_disconnect _ _ _ _ _ Hix (gb_index _ _ _ _ _ Hg) Hsh ltac:(by rewrite (nb_prev _ _ _ Hb)) Happ)
      as (sx & -> & Hsx). cbn [liftIndex]. result_simpl.
    eexists s1, _. split; [reflexivity|]. cbn [st_chain st_index st_tips]. rewrite <- (nb_prev _ _ _ Hb).
    split; [by eapply standsFor_empty|]. split; [exact Hs4|]. split; [|split; [|split; [exact Hsx|]]].
    + unfold dbRemoveSpendJournalEntry. cbn [withSpendJournal spendJournalBucket]. by rewrite Hj4, (nb_hash _ _ _ Hb).
    + change (metadata db4 !! utxoStateConsistencyKeyName = Some (bs_Hash state)). rewrite Hm4. exact F3.
    + unfold dbPutIndexerTip. apply lookup_insert_eq.
  - apply (applyTxs_wf _ _ _ _ _ (gb_height _ _ _ _ _ Hg) Hwf (gb_outputs _ _ _ _ _ Hg) Happ).
  - by apply (applyTxs_journal_length _ _ _ _ _ Hsh Happ).
  - by rewrite Hj4, (nb_hash _ _ _ Hb).
Qed.

Lemma child_height n p bi : tree_ok bi -> inIndex bi n -> inIndex bi p -> nodeParent n = Some p -> node_height n = node_height p + 1.
Proof.
  intros Ht Hn Hp E. destruct (inIndex_wf _ n Ht Hn) as [Hwn _]. destruct (inIndex_wf _ p Ht Hp) as [Hwp _].
  pose proof (length_branch n Hwn) as L1. pose proof (length_branch p Hwp) as L2.
  rewrite branch_unfold, E in L1. cbn [length] in L1. lia.
Qed.

Lemma parent_inIndex bi n p : tree_ok bi -> inIndex bi n -> nodeParent n = Some p -> inIndex bi p.
Proof. intros Ht Hn Hp. destruct (Ht _ _ Hn) as (_ & _ & _ & H). by rewrite Hp in H. Qed.

Lemma detachBlock_at b n p u u' ids js block cs view prevBlock now :
  chain_ok b n u' (map TxHash (Transactions block) ++ ids) ((node_hash n, cs) :: js) ->
  nodeParent n = Some p -> chain_to p u ids js -> node_block n p block -> good_block u ids block u' cs ->
  fetchBlock p = Ok prevBlock -> synced view u' -> wf_view view ->
  exists b' view', detachBlock fetchBlock now (b, view) (n, block, cs) = (b', Ok view') /\
    bi_index (bc_nodes b') = bi_index (bc_nodes b) /\ chain_ok b' p u ids js /\ synced view' u /\ wf_view view'.
Proof using codec_ok.
  intros Hok Hp Hc Hb Hg Hfetch Hsy Hwv. pose proof (gb_apply _ _ _ _ _ Hg) as Happ.
  destruct (chain_to_wf _ _ _ _ Hc) as (Hwu & _ & Hlen).
  destruct Hok as [H1 H2 H3 H4 H5 (f & base & ids0 & js0 & Hf & Hc0 & Hs & Hr & Hm) H7 H8 H9].
  apply Forall_cons_1 in H5 as [Hj5 H5]. cbn [fst snd] in Hj5.
  destruct (applyTxs_wf _ _ _ _ _ (gb_height _ _ _ _ _ Hg) Hwu (gb_outputs _ _ _ _ _ Hg) Happ) as [Hwu' Hst].
  unfold detachBlock. fold (chainDB b).
  destruct (fetchInputUtxos_loaded block u' (gb_height _ _ _ _ _ Hg) (gb_outputs _ _ _ _ _ Hg) (gb_inputs _ _ _ _ _ Hg)
              (chainDB b) base (bc_cache b) view Hs Hr (synced_loaded block u' view Hsy Hwv)) as (view1 & s1 & -> & Hr1 & Hl1).
  destruct (disconnect_loaded block u' (gb_height _ _ _ _ _ Hg) (gb_inputs _ _ _ _ _ Hg) (dbFetchByHash (chainDB b)) view1 u cs
              Hl1 (gb_shape _ _ _ _ _ Hg) Hst (gb_journal _ _ _ _ _ Hg) Happ) as (view2 & -> & Hco & Hag & Hwv2).
  unfold disconnectBlock. cbn [withCache bc_best]. rewrite H3, viewTip_viewOf, Hp. rewrite bool_decide_true by done. cbn [negb].
  rewrite Hfetch. set (bs := withCache b s1). pose proof (alike_flushToDB bs) as Ha. set (b1 := flushToDB bs) in *.
  set (state := stateAt p prevBlock _). destruct Ha as [A1 A2 A3 A4 A5 A6 A7 A8 A9].
  destruct (disconnectTxn_at b1 p n u u' ids block cs base view2 state now) as (s2 & st & -> & D1 & D2 & D3 & D4 & D5 & D6);
    try done; rewrite ?A9, ?A3, ?A6, ?A5, ?A8; try done.
  assert (Ht1 : tree_ok (bc_nodes b1)) by (by apply (tree_ok_index (bc_nodes b))).
  assert (Hn1 : inIndex (bc_nodes b1) n) by (unfold inIndex; rewrite A1; exact H2).
  pose proof (parent_inIndex _ n p Ht1 Hn1 Hp) as Hp1. rewrite A2. cbn [bs withCache bc_best]. rewrite H3.
  rewrite (setTip_viewOf _ Ht1 _ (Some n) p (conj Hn1 eq_refl) Hp1).
  destruct (commit_synced u' view2 u Hco Hwv2) as [Hsy2 Hwv3].
  eexists _, _. split; [reflexivity|]. cbn [bc_nodes]. split; [exact A1|]. split; [|by split].
  split; cbn [bc_nodes bc_best bc_cache bc_state bc_store]; try done; unfold chainDB; cbn [bc_store].
  - rewrite D3, A8. rewrite Forall_forall in H5. apply Forall_forall. intros hj Hhj. rewrite lookup_delete_ne; [by apply H5|].
    intros E. symmetry in E. revert E. apply (child_hash_new b1 p n _ u ids js); try done. apply list_elem_of_fmap. by exists hj.
  - exists p, u, ids, js. split_and!; try done. rewrite branch_unfold. left.
  - rewrite D6. do 3 f_equal. pose proof (child_height n p _ Ht1 Hn1 Hp1 Hp). rewrite (nb_height _ _ _ Hb).
    destruct (inIndex_wf _ n Ht1 Hn1) as [Hwn _]. pose proof (wf_node_height n Hwn). rewrite i32_id by (widths; lia). f_equal. lia.
Qed.
End invariant.
