(* ===== verification/ChainVerify.v ===== *)
(** * Verifying a reorganisation before it is made

    [verifyReorganizationValidity] runs the blocks to detach and to attach on a
    view of their own, on top of the UTXO cache, which stays at the old tip.
    The view, laid over the ledger of the cache, shows the ledger the verification
    has reached ([shows] of UtxoCache.v); undoing or connecting a block
    moves it to the ledger before or after it. So the verification of a
    reorganisation between valid branches fails only where [checkConnectBlock]
    does, and it leaves the chain state at its tip either way. *)

From S2P Require Import Prelude ChainParams Sha256 Wire Encode Commitment Script Block Compress Bucket IndexDB Ledger UtxoView WorkMath ChainIO ChainStore BlockNode SizeHelper UtxoCache ChainView ExpiryIndex Text ReapRules ChainState ChainInv.

(** ** The checks of a block *)

(** What the chain needs of [checkConnectBlock], whatever rules it applies: it only
    reads through the cache, and a view it accepts a block on shows the ledger
    after the block. *)
Class ChecksBlocks {codec : KeyCodec} {ix : Indexer}
    (checkConnectBlock : BlockChain -> UtxoViewpoint -> blockNode -> Block -> utxoCache * result chain_error UtxoViewpoint)
    : Prop := {
  check_reads b view n block base v : stored base (utxoSetBucket (chainDB b)) -> standsFor base (bc_cache b) v ->
    Forall (fun tx => Forall wf_outpoint (prevOuts tx)) (Transactions block) ->
    standsFor base (checkConnectBlock b view n block).1 v;
  check_connects b view n block base v u u' cs s view' :
    Height block = node_height n -> stored base (utxoSetBucket (chainDB b)) -> standsFor base (bc_cache b) v -> shows v view u ->
    new_ids u (Transactions block) -> block_shape (Transactions block) ->
    Forall (fun tx => Forall wf_outpoint (prevOuts tx)) (Transactions block) ->
    applyTxs (Height block) u (Transactions block) = Some (u', cs) ->
    checkConnectBlock b view n block = (s, Ok view') -> shows v view' u' }.

Section verification.
Context {codec : KeyCodec} {codec_ok : RecoversKeys} {ix : Indexer} {laws : IndexerLaws}.
Context (fetchBlock : blockNode -> result chain_error Block).
Context (prefixSource : ix_state -> option ReapPrefixSource) (chainParams : Params).
Context (checkConnectBlock : BlockChain -> UtxoViewpoint -> blockNode -> Block -> utxoCache * result chain_error UtxoViewpoint).
Context {checks : ChecksBlocks checkConnectBlock}.

(** ** Branches between a tip and a fork *)

(** The branch from [f] to [n], with the blocks to attach. *)
Inductive extends_to :
  blockNode -> utxo_set -> list (list Z) -> list (list Z * list SpentTxOut) -> list (blockNode * Block) ->
  blockNode -> utxo_set -> list (list Z) -> list (list Z * list SpentTxOut) -> Prop :=
| ext_nil f u ids js : extends_to f u ids js [] f u ids js
| ext_cons f u ids js n block u1 cs l m u2 ids2 js2 :
    nodeParent n = Some f -> node_block fetchBlock n f block -> good_block u ids block u1 cs ->
    (forall s, ix_ok s u (node_hash f) ->
       checkReapGlobalPrefix block (node_height n) (prefixSource s) chainParams = Ok tt) ->
    extends_to n u1 (map TxHash (Transactions block) ++ ids) ((node_hash n, cs) :: js) l m u2 ids2 js2 ->
    extends_to f u ids js ((n, block) :: l) m u2 ids2 js2.

(** The branch from [t] down to [f], with the blocks and journals to detach. *)
Inductive rolls_back :
  blockNode -> utxo_set -> list (list Z) -> list (list Z * list SpentTxOut) ->
  list (blockNode * Block * list SpentTxOut) ->
  blockNode -> utxo_set -> list (list Z) -> list (list Z * list SpentTxOut) -> Prop :=
| back_nil f u ids js : rolls_back f u ids js [] f u ids js
| back_cons n p u u1 ids js block cs prevBlock l f u2 ids2 js2 :
    nodeParent n = Some p -> chain_to fetchBlock p u ids js -> node_block fetchBlock n p block ->
    good_block u ids block u1 cs -> fetchBlock p = Ok prevBlock ->
    rolls_back p u ids js l f u2 ids2 js2 ->
    rolls_back n u1 (map TxHash (Transactions block) ++ ids) ((node_hash n, cs) :: js) ((n, block, cs) :: l) f u2 ids2 js2.

Lemma extends_to_snoc f u ids js l p u1 ids1 js1 n block u2 cs :
  extends_to f u ids js l p u1 ids1 js1 -> nodeParent n = Some p -> node_block fetchBlock n p block ->
  good_block u1 ids1 block u2 cs ->
  (forall s, ix_ok s u1 (node_hash p) ->
     checkReapGlobalPrefix block (node_height n) (prefixSource s) chainParams = Ok tt) ->
  extends_to f u ids js (l ++ [(n, block)]) n u2 (map TxHash (Transactions block) ++ ids1) ((node_hash n, cs) :: js1).
Proof.
  induction 1 as [f u ids js|f u ids js m blk u3 cs3 l p u1 ids1 js1 Hp Hb Hg Hpre _ IH]; intros Hn Hbn Hgn Hpn.
  - by econstructor; [..|constructor].
  - econstructor; [done..|]. by apply IH.
Qed.

(** The REAP prefix of the block of [m] is the one its parent's index expects. *)
Definition prefix_ok (m : blockNode) : Prop :=
  forall p block u ids js s, nodeParent m = Some p -> fetchBlock m = Ok block -> chain_to fetchBlock p u ids js ->
  ix_ok s u (node_hash p) -> checkReapGlobalPrefix block (node_height m) (prefixSource s) chainParams = Ok tt.

Lemma node_dec bi n m : inIndex bi n -> inIndex bi m -> n = m \/ n <> m.
Proof.
  intros Hn Hm. destruct (sameNode n m) eqn:E; [left; by apply (sameNode_eq bi)|].
  right. intros ->. by rewrite (proj2 (sameNode_eq bi _ _ Hm Hm) eq_refl) in E.
Qed.

(** The walk to the fork finds the blocks to attach. *)
Lemma attachWalk_extends bi n u ids js f :
  tree_ok bi -> inIndex bi n -> f ∈ branch n -> chain_to fetchBlock n u ids js -> Forall prefix_ok (branch n) ->
  Forall (fun m => KnownInvalid (NodeStatus bi m) = false) (branch n) ->
  exists l uf idsf jsf, extends_to f uf idsf jsf l n u ids js /\ chain_to fetchBlock f uf idsf jsf /\
    Forall (fun nb => inIndex bi nb.1) l /\ forall acc, attachWalk bi (Some f) n acc = (l.*1 ++ acc, false).
Proof.
  intros Ht Hin Hf Hc. assert (Hfi : inIndex bi f) by (by apply (inIndex_branch bi n)).
  assert (Hsame : forall acc m, inIndex bi m -> m = f -> attachWalk bi (Some f) m acc = (acc, false)).
  { intros acc m Hm <-. pose proof (proj2 (sameNode_eq bi _ _ Hm Hm) eq_refl) as E. destruct m. cbn [attachWalk]. by rewrite E. }
  revert Hin Hf; induction Hc as [n Hp Hl|n p u ids js block u' cs Hp Hc IH Hb Hg]; intros Hin Hf Hpre Hinv.
  - rewrite branch_unfold, Hp in Hf. apply list_elem_of_singleton in Hf as ->.
    exists [], ∅, [], []. split_and!; [constructor|by constructor|constructor|intros acc; by apply Hsame].
  - destruct (node_dec bi n f Hin Hfi) as [->|Hne].
    { exists [], u', (map TxHash (Transactions block) ++ ids), ((node_hash f, cs) :: js).
      split_and!; [constructor|by econstructor|constructor|intros acc; by apply Hsame]. }
    rewrite branch_unfold, Hp in Hf, Hpre, Hinv. apply elem_of_cons in Hf as [->|Hf]; [done|].
    apply Forall_cons_1 in Hpre as [Hpn Hpre]. apply Forall_cons_1 in Hinv as [Hin1 Hinv].
    destruct (IH (parent_inIndex bi n p Ht Hin Hp) Hf Hpre Hinv) as (l & uf & idsf & jsf & He & Hcf & Hl & Hw).
    exists (l ++ [(n, block)]), uf, idsf, jsf. split; [|split; [done|split]].
    + apply (extends_to_snoc _ _ _ _ _ p u); try done. intros s Hs. by apply (Hpn p block u ids js s Hp (nb_fetch _ _ _ _ Hb)).
    + apply Forall_app. split; [done|]. by constructor.
    + intros acc. rewrite fmap_app, <- app_assoc. cbn [fmap list_fmap fst app]. rewrite <- Hw.
      destruct (sameNode n f) eqn:E; [by apply (sameNode_eq bi) in E|].
      destruct n as [q a d]. cbn [nodeParent] in Hp. subst q. cbn [attachWalk]. by rewrite E, Hin1.
Qed.

Lemma attachWalk_branch bi fork n l invalid x : attachWalk bi fork n [] = (l, invalid) -> x ∈ l -> x ∈ branch n.
Proof.
  intros E Hx. assert (H : forall n acc l, attachWalk bi fork n acc = (l, invalid) -> x ∈ l -> x ∈ acc \/ x ∈ branch n).
  { clear. intros n. induction n as [a d|p a d IH] using node_parent_ind; intros acc l; cbn [attachWalk]; rewrite branch_unfold;
      cbn [nodeParent]; (destruct (match fork with Some f => _ | None => _ end); [intros [= <- _]; by left|]);
      (destruct (KnownInvalid _); [intros [= <- _]; by left|]).
    - intros [= <- _] [->|Hx]%elem_of_cons; [right; left|by left].
    - intros E Hx. destruct (IH _ _ E Hx) as [[->|H]%elem_of_cons|H]; [right; left|by left|right; by right]. }
  destruct (H n [] l E Hx) as [H0|H0]; [by apply not_elem_of_nil in H0|done].
Qed.

Lemma attachWalk_invalid bi f n x l invalid acc :
  tree_ok bi -> inIndex bi n -> f ∈ branch n -> x ∈ branch n -> node_height f < node_height x ->
  KnownInvalid (NodeStatus bi x) = true -> attachWalk bi (Some f) n acc = (l, invalid) -> invalid = true.
Proof.
  intros Ht Hin Hf Hx Hh Hinv. assert (Hfi : inIndex bi f) by (by apply (inIndex_branch bi n)).
  revert acc Hin Hf Hx; induction n as [a d|p a d IH] using node_parent_ind; intros acc Hin Hf Hx; cbn [attachWalk];
    pose proof Hx as Hx0; rewrite branch_unfold in Hf, Hx; cbn [nodeParent] in Hf, Hx.
  - apply list_elem_of_singleton in Hf as ->. apply list_elem_of_singleton in Hx as ->. lia.
  - destruct (sameNode _ f) eqn:E.
    { apply (sameNode_eq bi) in E as <-; [|done|done]. destruct (inIndex_wf _ _ Ht Hin) as [Hw _].
      pose proof (branch_height_le _ _ Hw Hx0). lia. }
    destruct (KnownInvalid (NodeStatus bi (Node (Some p) a d))) eqn:Ek; [by intros [= _ <-]|].
    apply elem_of_cons in Hx as [->|Hx]; [congruence|]. apply elem_of_cons in Hf as [->|Hf].
    { by rewrite (proj2 (sameNode_eq bi _ _ Hin Hin) eq_refl) in E. }
    apply IH; [by apply (parent_inIndex bi (Node (Some p) a d))|done|done].
Qed.

(** The walk from the tip finds the blocks to detach, with their journals. *)
Lemma detachWalk_rolls_back bi t u ids js f :
  tree_ok bi -> inIndex bi t -> f ∈ branch t -> chain_to fetchBlock t u ids js ->
  Forall (fun m => exists block, fetchBlock m = Ok block) (branch t) ->
  exists l uf idsf jsf, rolls_back t u ids js l f uf idsf jsf /\ chain_to fetchBlock f uf idsf jsf /\
    Forall (fun d => (node_hash d.1.1, d.2) ∈ js) l /\ detachWalk (Some f) t = (fun d => d.1.1) <$> l.
Proof.
  intros Ht Hin Hf Hc. assert (Hfi : inIndex bi f) by (by apply (inIndex_branch bi t)).
  assert (Hsame : forall m, inIndex bi m -> m = f -> detachWalk (Some f) m = []).
  { intros m Hm <-. pose proof (proj2 (sameNode_eq bi _ _ Hm Hm) eq_refl) as E. destruct m. cbn [detachWalk]. by rewrite E. }
  revert Hin Hf; induction Hc as [n Hp Hl|n p u ids js block u' cs Hp Hc IH Hb Hg]; intros Hin Hf Hst.
  - rewrite branch_unfold, Hp in Hf. apply list_elem_of_singleton in Hf as ->.
    exists [], ∅, [], []. split_and!; [constructor|by constructor|constructor|by apply Hsame].
  - destruct (node_dec bi n f Hin Hfi) as [->|Hne].
    { exists [], u', (map TxHash (Transactions block) ++ ids), ((node_hash f, cs) :: js).
      split_and!; [constructor|by econstructor|constructor|by apply Hsame]. }
    rewrite branch_unfold, Hp in Hf, Hst. apply elem_of_cons in Hf as [->|Hf]; [done|]. apply Forall_cons_1 in Hst as [_ Hst].
    destruct (IH (parent_inIndex bi n p Ht Hin Hp) Hf Hst) as (l & uf & idsf & jsf & He & Hcf & Hl & Hw).
    assert (exists prevBlock, fetchBlock p = Ok prevBlock) as [prevBlock Hprev].
    { rewrite branch_unfold in Hst. by apply Forall_cons_1 in Hst as [? _]. }
    exists ((n, block, cs) :: l), uf, idsf, jsf. split; [|split; [done|split]].
    + by econstructor.
    + constructor; [left|]. apply (Forall_impl _ _ _ Hl). intros d Hd. by right.
    + destruct (sameNode n f) eqn:E; [by apply (sameNode_eq bi) in E|].
      destruct n as [q a d]. cbn [nodeParent] in Hp. subst q. cbn [detachWalk fmap list_fmap fst]. by rewrite E, Hw.
Qed.

(** Both ends of the two lists are at the fork. *)
Lemma rolls_back_last t u ids js l f uf idsf jsf d :
  rolls_back t u ids js l f uf idsf jsf -> last ((fun d => d.1.1) <$> l) = Some d -> nodeParent d = Some f.
Proof.
  induction 1 as [f u ids js|n p u u1 ids js block cs prevBlock l f u2 ids2 js2 Hp Hc Hb Hg Hf Hr IH]; [done|].
  cbn [fmap list_fmap fst]. destruct l as [|x l]; [|exact IH]. cbn. intros [= <-]. by inversion Hr; subst.
Qed.

Lemma sameFork_at t u ids js l f uf idsf jsf l' n un idsn jsn :
  rolls_back t u ids js l f uf idsf jsf -> extends_to f uf idsf jsf l' n un idsn jsn ->
  sameFork ((fun d => d.1.1) <$> l) l'.*1 = true.
Proof.
  intros Hr He. unfold sameFork. destruct (last _) as [d|] eqn:El; [|done]. pose proof (rolls_back_last _ _ _ _ _ _ _ _ _ _ Hr El) as Hd.
  destruct He as [|f u1 ids1 js1 m block u2 cs l' n u3 ids3 js3 Hp _ _ _ _]; [done|]. cbn [fmap list_fmap fst].
  rewrite Hp, Hd. by apply bool_decide_eq_true.
Qed.

(** ** The verification *)

Lemma withCache_at b t u v ids js s :
  chain_at fetchBlock b t u v ids js ->
  (forall base, stored base (utxoSetBucket (chainDB b)) -> standsFor base (bc_cache b) v -> standsFor base s v) ->
  chain_at fetchBlock (withCache b s) t u v ids js.
Proof.
  intros [H1 H2 H3 H4 H5 (f & base & ids0 & js0 & Hf & Hc0 & Hs & Hr & Hm) H7 H8 H9] Hkeep. split; try done.
  exists f, base, ids0, js0. split_and!; try done. by apply Hkeep.
Qed.

Lemma chain_at_base b t u v ids js :
  chain_at fetchBlock b t u v ids js ->
  exists base, stored base (utxoSetBucket (chainDB b)) /\ standsFor base (bc_cache b) v.
Proof. intros [_ _ _ _ _ (f & base & ids0 & js0 & _ & _ & Hs & Hr & _) _ _ _]. by exists base. Qed.

Lemma verifyDetach_ok b t ut idst jst view n p block u ids js u' cs :
  chain_ok fetchBlock b t ut idst jst -> chain_to fetchBlock p u ids js -> node_block fetchBlock n p block ->
  good_block u ids block u' cs -> (node_hash n, cs) ∈ jst -> shows ut view u' ->
  exists s view', verifyDetach fetchBlock b view n = (withCache b s, Ok (view', (n, block, cs))) /\
    chain_ok fetchBlock (withCache b s) t ut idst jst /\ shows ut view' u.
Proof using codec_ok.
  intros Hok Hc Hb Hg Hj Hv. pose proof (gb_apply _ _ _ _ _ Hg) as Happ. destruct (chain_to_wf _ _ _ _ _ Hc) as (Hwu & _ & _).
  destruct (applyTxs_wf _ _ _ _ _ (gb_height _ _ _ _ _ Hg) Hwu (gb_outputs _ _ _ _ _ Hg) Happ) as [_ Hst].
  destruct (chain_at_base _ _ _ _ _ _ Hok) as (base & Hs & Hr). unfold verifyDetach. fold (chainDB b).
  rewrite (nb_fetch _ _ _ _ Hb), (nb_hash _ _ _ _ Hb), bool_decide_true by done. cbn [negb].
  destruct (fetchInputUtxos_overlay block u' ut (gb_inputs _ _ _ _ _ Hg) (chainDB b) base (bc_cache b) view Hs Hr Hv)
    as (view1 & s1 & E1 & Hr1 & Ho1 & _). rewrite E1.
  pose proof (ca_journal _ _ _ _ _ _ _ Hok) as Hjs. rewrite Forall_forall in Hjs. specialize (Hjs _ Hj). cbn [fst snd] in Hjs.
  rewrite (journal_read (chainDB b) block cs);
    [|intros E; pose proof (gb_shape _ _ _ _ _ Hg) as Hsh; by rewrite E in Hsh|done
     |by apply (applyTxs_journal_length _ _ _ _ _ (gb_shape _ _ _ _ _ Hg) Happ)|by rewrite (nb_hash _ _ _ _ Hb)].
  destruct (disconnectTransactions_refines ut (dbFetchByHash (chainDB b)) view1 block cs (gb_shape _ _ _ _ _ Hg)
              (applyTxs_journal_length _ _ _ _ _ (gb_shape _ _ _ _ _ Hg) Happ) (gb_journal _ _ _ _ _ Hg)) as (view2 & -> & Hco & _).
  exists s1, view2. split; [done|]. split.
  - apply withCache_at; [done|]. intros base' Hs' Hr'.
    destruct (fetchInputUtxos_overlay block u' ut (gb_inputs _ _ _ _ _ Hg) (chainDB b) base' (bc_cache b) view Hs' Hr' Hv)
      as (view3 & s3 & E3 & Hr3 & _). congruence.
  - intros op _. rewrite Hco, <- (undoTxs_applyTxs _ _ _ _ _ Happ).
    apply (undoTxs_agree _ _ (fun _ => False)); [|tauto]. intros op' _ Hnc. by apply Ho1.
Qed.

Lemma verifyDetaches_ok t u ids js l f uf idsf jsf :
  rolls_back t u ids js l f uf idsf jsf -> forall b t0 ut idst jst view,
  chain_ok fetchBlock b t0 ut idst jst -> Forall (fun d => (node_hash d.1.1, d.2) ∈ jst) l -> shows ut view u ->
  exists s view', verifyDetaches fetchBlock b view ((fun d => d.1.1) <$> l) = (withCache b s, Ok (view', l)) /\
    chain_ok fetchBlock (withCache b s) t0 ut idst jst /\ shows ut view' uf.
Proof using codec_ok.
  induction 1 as [f u ids js|n p u u1 ids js block cs prevBlock l f u2 ids2 js2 Hp Hc Hb Hg Hf _ IH];
    intros b t0 ut idst jst view Hok Hj Hv; cbn [fmap list_fmap fst verifyDetaches].
  { exists (bc_cache b), view. assert (withCache b (bc_cache b) = b) as -> by (by destruct b). done. }
  apply Forall_cons_1 in Hj as [Hj1 Hj]. cbn [fst snd] in Hj1.
  destruct (verifyDetach_ok b t0 ut idst jst view n p block u ids js u1 cs Hok Hc Hb Hg Hj1 Hv) as (s1 & view1 & -> & Hok1 & Hv1).
  destruct (IH _ t0 ut idst jst view1 Hok1 Hj Hv1) as (s2 & view2 & -> & Hok2 & Hv2). exists s2, view2. done.
Qed.

(** The checks refused the block of [n]: in a state of the chain at its tip [t], on a
    view that shows the ledger of the parent of [n]. If it broke a rule, it is marked
    as invalid in [bi]. *)
Definition refused (t : blockNode) (ut : utxo_set) (idst : list (list Z)) (jst : list (list Z * list SpentTxOut))
    (bi : blockIndex) (n : blockNode) (e : chain_error) : Prop :=
  (exists b p u ids js view block, chain_ok fetchBlock b t ut idst jst /\
     nodeParent n = Some p /\ chain_to fetchBlock p u ids js /\ node_block fetchBlock n p block /\ shows ut view u /\
     (checkConnectBlock b view n block).2 = Err e) /\
  (isRuleError e = true -> KnownInvalid (NodeStatus bi n) = true).

Lemma foldl_setFlags_alike flags l b : alike b (foldl (fun b n => setFlags b n flags) b l).
Proof.
  revert b; induction l as [|n l IH]; intros b; cbn [foldl]; [by split|].
  eapply alike_trans; [apply alike_setFlags|apply IH].
Qed.

Lemma verifyAttach_ok b t ut idst jst view n later p block u ids js u' cs :
  chain_ok fetchBlock b t ut idst jst -> nodeParent n = Some p -> chain_to fetchBlock p u ids js ->
  node_block fetchBlock n p block -> good_block u ids block u' cs -> shows ut view u ->
  exists b' r, verifyAttach fetchBlock checkConnectBlock b view n later = (b', r) /\
    bi_index (bc_nodes b') = bi_index (bc_nodes b) /\ chain_ok fetchBlock b' t ut idst jst /\
    match r with
    | Ok (view', a) => a = (n, block) /\ shows ut view' u'
    | Err e => refused t ut idst jst (bc_nodes b') n e
    end.
Proof using codec_ok checks.
  intros Hok Hpar Hc Hb Hg Hv. pose proof (gb_apply _ _ _ _ _ Hg) as Happ.
  destruct (chain_at_base _ _ _ _ _ _ Hok) as (base & Hs & Hr). unfold verifyAttach. fold (chainDB b).
  assert (Hids : new_ids u (Transactions block)).
  { refine (chain_new_ids fetchBlock p u ids js p u ids js block u' cs Hc _ Hc Hg). rewrite branch_unfold. left. }
  rewrite (nb_fetch _ _ _ _ Hb). destruct (KnownValid _).
  - pose proof (fun base' Hs' Hr' => fetchInputUtxos_connects (chainDB b) base' (bc_cache b) ut view u block u' cs Hs' Hr' Hv
         Hids (gb_shape _ _ _ _ _ Hg) (gb_inputs _ _ _ _ _ Hg) Happ) as Hf.
    destruct (Hf base Hs Hr) as (view1 & s1 & view2 & E1 & Hr1 & E2 & Hv2). rewrite E1, E2.
    eexists _, _. split; [reflexivity|]. split; [done|]. split; [|by split].
    apply withCache_at; [done|]. intros base' Hs' Hr'. destruct (Hf base' Hs' Hr') as (? & ? & ? & ? & ? & _). congruence.
  - destruct (checkConnectBlock b view n block) as [s1 r] eqn:E.
    assert (Hok1 : chain_ok fetchBlock (withCache b s1) t ut idst jst).
    { apply withCache_at; [done|]. intros base' Hs' Hr'. change s1 with (s1, r).1. rewrite <- E.
      apply check_reads; [done|done|apply Hg]. }
    destruct r as [view1|e]; eexists _, _; (split; [reflexivity|]).
    + split; [done|]. split; [exact (chain_at_alike _ _ _ _ _ _ _ _ (alike_setFlags _ _ _) Hok1)|]. split; [done|].
      exact (check_connects b view n block base ut u u' cs s1 view1 (nb_height _ _ _ _ Hb) Hs Hr Hv Hids (gb_shape _ _ _ _ _ Hg) (gb_inputs _ _ _ _ _ Hg) Happ E).
    + set (b1 := if isRuleError e then _ else _). assert (Hal : alike (withCache b s1) b1).
      { unfold b1. destruct (isRuleError e); [|by split]. eapply alike_trans; [apply alike_setFlags|apply foldl_setFlags_alike]. }
      split; [by rewrite (al_index _ _ Hal)|]. split; [exact (chain_at_alike _ _ _ _ _ _ _ _ Hal Hok1)|].
      split; [exists b, p, u, ids, js, view, block; by rewrite E|]. intros He. unfold b1. rewrite He.
      apply foldl_setFlags_invalid, setFlags_marks.
Qed.

Lemma verifyAttaches_ok f u ids js l n un idsn jsn :
  extends_to f u ids js l n un idsn jsn -> forall b t ut idst jst view,
  chain_to fetchBlock f u ids js -> chain_ok fetchBlock b t ut idst jst -> shows ut view u ->
  exists b' r, verifyAttaches fetchBlock checkConnectBlock b view l.*1 = (b', r) /\
    bi_index (bc_nodes b') = bi_index (bc_nodes b) /\ chain_ok fetchBlock b' t ut idst jst /\
    match r with Ok l' => l' = l | Err e => Exists (fun nb => refused t ut idst jst (bc_nodes b') nb.1 e) l end.
Proof using codec_ok checks.
  induction 1 as [f u ids js|f u ids js n block u1 cs l m u2 ids2 js2 Hp Hb Hg Hpre _ IH];
    intros b t ut idst jst view Hc Hok Hv; cbn [fmap list_fmap fst verifyAttaches].
  { by exists b, (Ok []). }
  destruct (verifyAttach_ok b t ut idst jst view n l.*1 f block u ids js u1 cs Hok Hp Hc Hb Hg Hv)
    as (b1 & r & -> & Hi1 & Hok1 & Hr). destruct r as [[view1 a]|e].
  - destruct Hr as [-> Hv1]. assert (Hc1 : chain_to fetchBlock n u1 (map TxHash (Transactions block) ++ ids)
      ((node_hash n, cs) :: js)) by by econstructor.
    destruct (IH b1 t ut idst jst view1 Hc1 Hok1 Hv1) as (b2 & r & -> & Hi2 & Hok2 & Hr2).
    destruct r as [l'|e]; eexists _, _; (split; [reflexivity|]); (split; [congruence|]); (split; [done|]).
    + by rewrite Hr2.
    + by apply Exists_cons_tl.
  - eexists _, _. split; [reflexivity|]. split; [done|]. split; [done|]. by apply Exists_cons_hd.
Qed.

Lemma verify_ok b t u ids js l f uf idsf jsf l' n un idsn jsn :
  chain_ok fetchBlock b t u ids js -> rolls_back t u ids js l f uf idsf jsf -> chain_to fetchBlock f uf idsf jsf ->
  extends_to f uf idsf jsf l' n un idsn jsn -> Forall (fun d => (node_hash d.1.1, d.2) ∈ js) l ->
  exists b' r, verifyReorganizationValidity fetchBlock checkConnectBlock b ((fun d => d.1.1) <$> l) l'.*1 = (b', r) /\
    bi_index (bc_nodes b') = bi_index (bc_nodes b) /\ chain_ok fetchBlock b' t u ids js /\
    match r with Ok ls => ls = (l, l') | Err e => Exists (fun nb => refused t u ids js (bc_nodes b') nb.1 e) l' end.
Proof using codec_ok checks.
  intros Hok Hr Hcf He Hj.
  assert (Hdef : verifyReorganizationValidity fetchBlock checkConnectBlock b ((fun d => d.1.1) <$> l) l'.*1 =
    match l, l' with
    | [], [] => (b, Ok ([], []))
    | _, _ =>
        match verifyDetaches fetchBlock b (SetBestHash NewUtxoViewpoint (node_hash t)) ((fun d => d.1.1) <$> l) with
        | (b1, Err e) => (b1, Err e)
        | (b1, Ok (view, ds)) =>
            match verifyAttaches fetchBlock checkConnectBlock b1 view l'.*1 with
            | (b2, Err e) => (b2, Err e)
            | (b2, Ok l) => (b2, Ok (ds, l))
            end
        end
    end).
  { unfold verifyReorganizationValidity.
    rewrite (ca_view _ _ _ _ _ _ _ Hok), viewTip_viewOf, (sameFork_at _ _ _ _ _ _ _ _ _ _ _ _ _ _ Hr He).
    cbn [negb]. destruct Hr as [|n0 p u0 u1 ids0 js0 block cs prevBlock l f u2 ids2 js2 Hp _ _ _ _ _]; [by destruct l'|].
    cbn [fmap list_fmap fst]. by rewrite bool_decide_true. }
  rewrite Hdef. destruct (verifyDetaches_ok t u ids js l f uf idsf jsf Hr b t u ids js _ Hok Hj (shows_new u (node_hash t)))
    as (s1 & view1 & -> & Hok1 & Hv1).
  destruct (verifyAttaches_ok f uf idsf jsf l' n un idsn jsn He _ t u ids js view1 Hcf Hok1 Hv1)
    as (b2 & r & -> & Hi2 & Hok2 & Hr2).
  destruct l as [|d l], l' as [|a l']; [by exists b, (Ok ([], []))|destruct r as [l2|e]; eexists _, _; (split; [reflexivity|])..];
    (split; [done|]); (split; [done|]); try exact Hr2; by rewrite Hr2.
Qed.
End verification.
