(* ===== verification/ChainProps.v ===== *)
(** * Properties of the chain state

    Choosing the best chain, extending it, reorganising it and recovering after a
    crash keep the invariant of ChainInv.v. Two flaws are shown: a block that an
    index rejects leaves the UTXO cache ahead of the chain, and a block on a branch
    known to be invalid is reported as connected. Then the instance of the index
    class for the expiry index, and the witnesses on a small chain. *)

From S2P Require Import Prelude ChainParams Sha256 Wire Encode MuHash Commitment Script Block Compress Bucket IndexDB Ledger UtxoView WorkMath ChainIO ChainStore BlockNode SizeHelper UtxoCache ChainView ExpiryIndex IndexRefine IndexRebuild IndexQuery IndexProps IndexTools Text ReapRules ChainState ChainInv ChainVerify.

(** The driver never prunes, as with a prune target of zero. *)
Definition keepsBlocks {ix : Indexer} (pruneBlocks : Store -> list (list Z)) : Prop := forall st, pruneBlocks st = [].

Section steps.
Context {codec : KeyCodec} {codec_ok : RecoversKeys} {ix : Indexer} {laws : IndexerLaws}.
Context (fetchBlock : blockNode -> result chain_error Block).
Context (pruneBlocks : Store -> list (list Z)) (no_pruning : keepsBlocks pruneBlocks).
Context (prefixSource : ix_state -> option ReapPrefixSource) (chainParams : Params).
Context (checkConnectBlock : BlockChain -> UtxoViewpoint -> blockNode -> Block -> utxoCache * result chain_error UtxoViewpoint).
Context {checks : ChecksBlocks checkConnectBlock}.

(** ** Attaching and detaching several blocks *)

Lemma chain_ok_prefix b t u ids js block n :
  chain_ok fetchBlock b t u ids js ->
  (forall s, ix_ok s u (node_hash t) ->
     checkReapGlobalPrefix block (node_height n) (prefixSource s) chainParams = Ok tt) ->
  checkReapGlobalPrefix block (node_height n) (prefixSource (st_index (bc_store b))) chainParams = Ok tt.
Proof. intros H Hc. apply Hc, H. Qed.

Lemma attachBlock_ok b t u ids js n block u' cs now :
  chain_ok fetchBlock b t u ids js -> nodeParent n = Some t -> inIndex (bc_nodes b) n ->
  node_block fetchBlock n t block -> good_block u ids block u' cs ->
  exists b', attachBlock pruneBlocks now b n block = (b', Ok tt) /\
    bi_index (bc_nodes b') = bi_index (bc_nodes b) /\
    chain_ok fetchBlock b' n u' (map TxHash (Transactions block) ++ ids) ((node_hash n, cs) :: js).
Proof using codec_ok no_pruning.
  intros Hok Hp Hin Hb Hg. unfold attachBlock. fold (chainDB b).
  destruct (connect_cache fetchBlock b t u ids js n block u' cs (Some []) Hok Hb Hg) as (s1 & -> & Hat).
  exact (connectBlock_at fetchBlock pruneBlocks (withCache b s1) t u ids js n block u' cs now Hat no_pruning Hp Hin Hb Hg).
Qed.

Lemma attachBlocks_ok now f u ids js l n u2 ids2 js2 :
  extends_to fetchBlock prefixSource chainParams f u ids js l n u2 ids2 js2 -> forall b,
  chain_ok fetchBlock b f u ids js -> Forall (fun nb => inIndex (bc_nodes b) nb.1) l ->
  exists b', attachBlocks pruneBlocks prefixSource chainParams now b l = (b', Ok tt) /\
    chain_ok fetchBlock b' n u2 ids2 js2.
Proof using codec_ok no_pruning.
  induction 1 as [f u ids js|f u ids js n block u1 cs l m u2 ids2 js2 Hp Hb Hg Hpre _ IH]; intros b Hok Hin.
  { by exists b. }
  apply Forall_cons_1 in Hin as [Hn Hin]. cbn [fst] in Hn. cbn [attachBlocks].
  rewrite (chain_ok_prefix b f u ids js block n Hok Hpre).
  destruct (attachBlock_ok b f u ids js n block u1 cs now Hok Hp Hn Hb Hg) as (b1 & -> & Hidx & Hok1).
  apply IH; [done|]. unfold inIndex. rewrite Hidx. exact Hin.
Qed.

Lemma detachBlocks_ok now t u ids js l f u2 ids2 js2 :
  rolls_back fetchBlock t u ids js l f u2 ids2 js2 -> forall b view,
  chain_ok fetchBlock b t u ids js -> synced view u -> wf_view view ->
  exists b', detachBlocks fetchBlock now b view l = (b', Ok tt) /\
    bi_index (bc_nodes b') = bi_index (bc_nodes b) /\ chain_ok fetchBlock b' f u2 ids2 js2.
Proof using codec_ok.
  induction 1 as [f u ids js|n p u u1 ids js block cs prevBlock l f u2 ids2 js2 Hp Hc Hb Hg Hf _ IH];
    intros b view Hok Hsy Hwv.
  { by exists b. }
  cbn [detachBlocks].
  destruct (detachBlock_at fetchBlock b n p u u1 ids js block cs view prevBlock now Hok Hp Hc Hb Hg Hf Hsy Hwv)
    as (b1 & view1 & -> & Hidx & Hok1 & Hsy1 & Hwv1).
  destruct (IH b1 view1 Hok1 Hsy1 Hwv1) as (b2 & E2 & Hidx2 & Hok2). exists b2. split; [done|]. split; [congruence|done].
Qed.

(** ** Replaying after a crash *)

(** What a restart finds: as [chain_at], for the node the replay has reached. *)
Definition replayed (db : ChainDB) (s : utxoCache) (n : blockNode) (u : utxo_set) : Prop :=
  exists f base ids0 js0, f ∈ branch n /\ chain_to fetchBlock f base ids0 js0 /\ stored base (utxoSetBucket db) /\
    standsFor base s u /\ dbFetchUtxoStateConsistency db = Some (node_hash f).

Lemma replayBlock_ok now db s p n u ids js u' cs block :
  replayed db s p u -> chain_to fetchBlock p u ids js -> nodeParent n = Some p ->
  node_block fetchBlock n p block -> good_block u ids block u' cs ->
  exists db' s', replayBlock fetchBlock now (db, s) n = Ok (db', s') /\ replayed db' s' n u' /\
    db' = mkChainDB (metadata db') (spendJournalBucket db) (utxoSetBucket db') (hashIndexBucket db)
            (heightIndexBucket db) (blockIndexBucket db).
Proof using codec_ok.
  intros (f & base & ids0 & js0 & Hf & Hc0 & Hs & Hr & Hm) Hc Hp Hb Hg. unfold replayBlock.
  pose proof (chain_new_ids fetchBlock p u ids js f _ _ _ _ _ _ Hc Hf Hc0 Hg) as Hnew.
  pose proof (may_create_block base _ _ (gb_height _ _ _ _ _ Hg) (gb_outputs _ _ _ _ _ Hg) Hnew) as Hmay.
  rewrite (nb_fetch _ _ _ _ Hb). result_simpl.
  destruct (cacheConnectTransactions_rep db base s u block None u' cs Hs Hr Hmay (gb_apply _ _ _ _ _ Hg)) as (s1 & -> & Hr1).
  cbn [liftIO]. result_simpl.
  destruct (flush_rep db base s1 u' FlushIfNeeded (node_hash n) now Hs Hr1) as (db' & s' & -> & Hfl).
  exists db', s'. split; [done|]. assert (Hnew' : chain_to fetchBlock n u' (map TxHash (Transactions block) ++ ids)
    ((node_hash n, cs) :: js)) by by econstructor.
  destruct Hfl as [(-> & -> & _)|(F1 & F2 & F3 & _ & F4 & _)].
  - split; [|by destruct db]. exists f, base, ids0, js0. split_and!; try done. rewrite branch_unfold, Hp. by right.
  - split; [|by rewrite F4]. eexists n, u', _, _. split_and!; try done. rewrite branch_unfold. left.
Qed.

Lemma replay_ok now bi t u ids js f :
  tree_ok bi -> inIndex bi t -> f ∈ branch t -> chain_to fetchBlock t u ids js -> forall db s u0 ids0 js0,
  chain_to fetchBlock f u0 ids0 js0 -> replayed db s f u0 ->
  exists l db' s', nodesAbove f t = Some l /\ foldM (replayBlock fetchBlock now) (db, s) l = Ok (db', s') /\
    replayed db' s' t u /\
    db' = mkChainDB (metadata db') (spendJournalBucket db) (utxoSetBucket db') (hashIndexBucket db)
            (heightIndexBucket db) (blockIndexBucket db).
Proof using codec_ok.
  intros Ht Hin Hf Hc db s u0 ids0 js0 Hc0 Hr0.
  assert (Hfi : inIndex bi f) by (by apply (inIndex_branch bi t)).
  revert Hin Hf; induction Hc as [n Hp Hl|n p u ids js block u' cs Hp Hc IH Hb Hg]; intros Hin Hf.
  - rewrite branch_unfold, Hp in Hf. apply list_elem_of_singleton in Hf as ->.
    destruct (chain_to_det fetchBlock _ _ _ _ _ _ _ Hc0 (chain_root fetchBlock n Hp Hl)) as (<- & _).
    exists [], db, s. split; [|split; [done|split; [done|by destruct db]]].
    destruct n as [q a d]. cbn [nodesAbove]. by rewrite (proj2 (sameNode_eq bi _ _ Hin Hin) eq_refl).
  - destruct (sameNode n f) eqn:E.
    + apply (sameNode_eq bi) in E as <-; [|done|done].
      assert (Hcn : chain_to fetchBlock n u' (map TxHash (Transactions block) ++ ids) ((node_hash n, cs) :: js)) by by econstructor.
      destruct (chain_to_det fetchBlock _ _ _ _ _ _ _ Hc0 Hcn) as (<- & _). exists [], db, s.
      split; [|split; [done|split; [done|by destruct db]]]. destruct n as [q a d]. cbn [nodesAbove].
      by rewrite (proj2 (sameNode_eq bi _ _ Hin Hin) eq_refl).
    + rewrite branch_unfold, Hp in Hf. apply elem_of_cons in Hf as [->|Hf].
      { by rewrite (proj2 (sameNode_eq bi _ _ Hin Hin) eq_refl) in E. }
      destruct (IH (parent_inIndex bi n p Ht Hin Hp) Hf) as (l & db1 & s1 & E1 & E2 & Hr1 & Hdb1).
      destruct (replayBlock_ok now db1 s1 p n u ids js u' cs block Hr1 Hc Hp Hb Hg) as (db2 & s2 & E3 & Hr2 & Hdb2).
      exists (l ++ [n]), db2, s2. split; [|split; [|split; [done|]]].
      * destruct n as [q a d]. cbn [nodeParent] in Hp. subst q. cbn [nodesAbove]. by rewrite E, E1.
      * rewrite foldM_app, E2. result_simpl. cbn [foldM]. by rewrite E3.
      * rewrite Hdb2. by rewrite Hdb1.
Qed.

(** ** Extending and reorganising *)

Lemma reorganize_ok b t u ids js detach f uf idsf jsf attach n un idsn jsn now :
  chain_ok fetchBlock b t u ids js -> rolls_back fetchBlock t u ids js detach f uf idsf jsf ->
  extends_to fetchBlock prefixSource chainParams f uf idsf jsf attach n un idsn jsn ->
  Forall (fun nb => inIndex (bc_nodes b) nb.1) attach ->
  exists b', reorganize pruneBlocks fetchBlock prefixSource chainParams now b detach attach = (b', Ok tt) /\
    chain_ok fetchBlock b' n un idsn jsn.
Proof using codec_ok no_pruning.
  intros Hok Hback Hext Hin. unfold reorganize. rewrite (ca_view _ _ _ _ _ _ _ Hok), viewTip_viewOf.
  destruct (detachBlocks_ok now t u ids js detach f uf idsf jsf Hback b (SetBestHash NewUtxoViewpoint (node_hash t)) Hok)
    as (b1 & -> & Hidx & Hok1).
  - intros op e He. cbn in He. by rewrite lookup_empty in He.
  - apply map_Forall_empty.
  - apply (attachBlocks_ok now f uf idsf jsf); [done|done|]. unfold inIndex. rewrite Hidx. exact Hin.
Qed.

(** The checks leave the chain where it is, apart from the cache and the status of
    the block. *)
Lemma checkExtension_ok b t u ids js n block fast :
  chain_ok fetchBlock b t u ids js -> nodeParent n = Some t -> node_block fetchBlock n t block ->
  Forall (fun tx => Forall wf_outpoint (prevOuts tx)) (Transactions block) ->
  exists b1 s1 r, checkExtension checkConnectBlock b n block fast = (b1, r) /\
    alike (withCache b s1) b1 /\ chain_ok fetchBlock b1 t u ids js /\
    match r with
    | Ok _ => True
    | Err e => refused fetchBlock checkConnectBlock t u ids js (bc_nodes b1) n e /\
        (checkConnectBlock b (SetBestHash NewUtxoViewpoint (bh_PrevBlock (Header block))) n block).2 = Err e
    end.
Proof using checks.
  intros Hok Hp Hb Hin. unfold checkExtension. destruct fast.
  { exists b, (bc_cache b), (Ok tt). split; [done|]. split; [by destruct b|done]. }
  set (view := SetBestHash _ _). destruct (checkConnectBlock b view n block) as [s1 r] eqn:E.
  assert (Hok1 : chain_ok fetchBlock (withCache b s1) t u ids js).
  { apply withCache_at; [done|]. intros base Hs Hr. change s1 with (s1, r).1. rewrite <- E. by apply check_reads. }
  assert (Hflag : forall flags, alike (withCache b s1) (flushToDB (setFlags (withCache b s1) n flags))).
  { intros flags. eapply alike_trans; [apply alike_setFlags|apply alike_flushToDB]. }
  assert (Hdone : alike (withCache b s1) (match r with
      | Ok _ => flushToDB (setFlags (withCache b s1) n statusValid)
      | Err e => if isRuleError e then flushToDB (setFlags (withCache b s1) n statusValidateFailed) else withCache b s1 end)).
  { destruct r as [|e]; [done|]. destruct (isRuleError e); [done|by split]. }
  pose proof (chain_at_alike _ _ _ _ _ _ _ _ Hdone Hok1) as Hok2.
  destruct r as [view'|e]; eexists _, s1, _; (split; [reflexivity|]); (split; [exact Hdone|]); (split; [exact Hok2|]); [done|].
  split; [|done]. split.
  - exists b, t, u, ids, js, view, block. split_and!; try done; [apply Hok|apply shows_new|by rewrite E].
  - intros ->. exact (setFlags_marks (withCache b s1) n).
Qed.

Lemma extendBestChain_ok b t u ids js n block u' cs fastAdd now :
  chain_ok fetchBlock b t u ids js -> nodeParent n = Some t -> inIndex (bc_nodes b) n ->
  node_block fetchBlock n t block -> good_block u ids block u' cs ->
  (forall s, ix_ok s u (node_hash t) ->
     checkReapGlobalPrefix block (node_height n) (prefixSource s) chainParams = Ok tt) ->
  exists b' r, extendBestChain pruneBlocks prefixSource chainParams checkConnectBlock now b n block fastAdd = (b', r) /\
    match r with
    | Ok main => main = true /\
        chain_ok fetchBlock b' n u' (map TxHash (Transactions block) ++ ids) ((node_hash n, cs) :: js)
    | Err e => refused fetchBlock checkConnectBlock t u ids js (bc_nodes b') n e /\ chain_ok fetchBlock b' t u ids js
    end.
Proof using codec_ok no_pruning checks.
  intros Hok Hp Hin Hb Hg Hpre. unfold extendBestChain. set (fast := fastAdd || _).
  destruct (checkExtension_ok b t u ids js n block fast Hok Hp Hb
    (gb_inputs _ _ _ _ _ Hg)) as (b1 & s0 & r & -> & Hal & Hok1 & Hr).
  destruct r as [|e]; [|eexists _, _; split; [reflexivity|]; split; [exact (proj1 Hr)|done]].
  assert (Hin1 : inIndex (bc_nodes b1) n) by (unfold inIndex; by rewrite (al_index _ _ Hal)).
  rewrite (chain_ok_prefix b1 t u ids js block n Hok1 Hpre). fold (chainDB b1).
  destruct (connect_cache fetchBlock b1 t u ids js n block u' cs (Some []) Hok1 Hb Hg) as (s1 & -> & Hat).
  destruct (connectBlock_at fetchBlock pruneBlocks (withCache b1 s1) t u ids js n block u' cs now Hat no_pruning Hp Hin1 Hb Hg)
    as (b2 & E2 & _ & Hok2). change (default [] ((fun l => l ++ cs) <$> Some [])) with cs. rewrite E2.
  eexists _, _. split; [reflexivity|]. split; [done|]. destruct (fast || _); [|exact Hok2].
  exact (chain_at_alike fetchBlock _ _ _ _ _ _ _
           (alike_trans _ _ _ (alike_setFlags b2 n statusValid) (alike_flushToDB _)) Hok2).
Qed.

(** A reorganisation between valid branches of the tree. *)
Lemma reorganizeChain_ok b t u ids js n un idsn jsn f now :
  chain_ok fetchBlock b t u ids js -> inIndex (bc_nodes b) n -> f ∈ branch n -> f ∈ branch t ->
  chain_to fetchBlock n un idsn jsn -> Forall (fun m => exists block, fetchBlock m = Ok block) (branch t) ->
  Forall (prefix_ok fetchBlock prefixSource chainParams) (branch n) ->
  Forall (fun m => KnownInvalid (NodeStatus (bc_nodes b) m) = false) (branch n) ->
  exists attach b' r, attachWalk (bc_nodes b) (Some f) n [] = (attach, false) /\
    reorganizeChain pruneBlocks fetchBlock prefixSource chainParams checkConnectBlock now b (detachWalk (Some f) t) attach
    = (b', r) /\
    match r with
    | Ok _ => chain_ok fetchBlock b' n un idsn jsn
    | Err e => Exists (fun m => refused fetchBlock checkConnectBlock t u ids js (bc_nodes b') m e) attach /\
        chain_ok fetchBlock b' t u ids js
    end.
Proof using codec_ok no_pruning checks.
  intros Hok Hin Hfn Hft Hcn Hst Hpre Hinv. pose proof Hok as [H1 H2 _ H4 _ _ _ _ _].
  destruct (attachWalk_extends fetchBlock prefixSource chainParams _ n un idsn jsn f H1 Hin Hfn Hcn Hpre Hinv)
    as (l' & uf & idsf & jsf & He & Hcf & Hl' & Hw).
  destruct (detachWalk_rolls_back fetchBlock _ t u ids js f H1 H2 Hft H4 Hst) as (l & uf2 & idsf2 & jsf2 & Hr & Hcf2 & Hl & Hd).
  destruct (chain_to_det _ _ _ _ _ _ _ _ Hcf Hcf2) as (-> & -> & ->). exists l'.*1.
  destruct (verify_ok fetchBlock prefixSource chainParams checkConnectBlock b t u ids js l f uf idsf jsf l' n un idsn jsn
              Hok Hr Hcf He Hl) as (b1 & r & Ev & Hi & Hok1 & Hres).
  unfold reorganizeChain. rewrite Hw, app_nil_r, Hd, Ev. destruct r as [ls|e].
  - subst ls. destruct (reorganize_ok b1 t u ids js l f uf idsf jsf l' n un idsn jsn now Hok1 Hr He) as (b2 & E2 & Hok2).
    { apply (Forall_impl _ _ _ Hl'). intros nb Hnb. unfold inIndex. by rewrite Hi. }
    exists b2, (Ok tt). by rewrite E2.
  - exists b1, (Err e). split_and!; try done. by apply Exists_fmap.
Qed.

End steps.

(** ** Properties *)

(** States with the same tip, view, index and database, but for what is recorded on
    the status of blocks. *)
Definition statusOnly {ix : Indexer} (b b' : BlockChain) : Prop :=
  bc_best b' = bc_best b /\ bc_state b' = bc_state b /\ bi_index (bc_nodes b') = bi_index (bc_nodes b) /\
  st_index (bc_store b') = st_index (bc_store b) /\ st_tips (bc_store b') = st_tips (bc_store b) /\
  chainDB b' = mkChainDB (metadata (chainDB b)) (spendJournalBucket (chainDB b)) (utxoSetBucket (chainDB b))
                 (hashIndexBucket (chainDB b)) (heightIndexBucket (chainDB b)) (blockIndexBucket (chainDB b')).

Lemma alike_statusOnly {ix : Indexer} b s b' : alike (withCache b s) b' -> statusOnly b b'.
Proof.
  intros [A1 A2 _ A4 A5 A6 A7 A8 A9 A10 A11]. unfold statusOnly. split_and!; try done.
  change (chainDB (withCache b s)) with (chainDB b) in *. rewrite <- A7, <- A8, <- A9, <- A10, <- A11. by destruct (chainDB b').
Qed.

Section properties.
Context {codec : KeyCodec} {codec_ok : RecoversKeys} {ix : Indexer} {laws : IndexerLaws}.
Context (fetchBlock : blockNode -> result chain_error Block) (pruneBlocks : Store -> list (list Z)).
Context (prefixSource : ix_state -> option ReapPrefixSource) (chainParams : Params).
Context (checkConnectBlock : BlockChain -> UtxoViewpoint -> blockNode -> Block -> utxoCache * result chain_error UtxoViewpoint).
Context {checks : ChecksBlocks checkConnectBlock}.

(** C5: the chain with the most work wins, and the whole state follows it. On a node
    that does not prune, from a chain state at the tip [t], [connectBestChain] is
    given a block whose branch, down to the genesis block it shares with [t],
    consists of valid blocks that the index accepts and that are not marked
    invalid. If the block extends [t] or its branch has more work, the call ends in
    the state of the block, in view, database, UTXO cache, spend journals and index,
    however many blocks are detached and attached; otherwise it changes nothing. It
    fails only if [checkConnectBlock], in a state at [t] and on a view of the ledger
    of its parent, refuses a block of the new branch; then the chain is still in the
    state of [t], and the block is marked invalid if it broke a rule. *)
Theorem connectBestChain_most_work b t u ids js n p block un idsn jsn fastAdd now :
  keepsBlocks pruneBlocks ->
  chain_ok fetchBlock b t u ids js -> inIndex (bc_nodes b) n -> nodeParent n = Some p -> fetchBlock n = Ok block ->
  chain_to fetchBlock n un idsn jsn -> (exists m, m ∈ branch n /\ m ∈ branch t) ->
  Forall (fun m => exists block, fetchBlock m = Ok block) (branch t) ->
  Forall (prefix_ok fetchBlock prefixSource chainParams) (branch n) ->
  Forall (fun m => KnownInvalid (NodeStatus (bc_nodes b) m) = false) (branch n) ->
  exists b' r,
    connectBestChain pruneBlocks fetchBlock prefixSource chainParams checkConnectBlock now b n block fastAdd = (b', r) /\
    match r with
    | Ok true => (p = t \/ node_workSum t < node_workSum n) /\ chain_ok fetchBlock b' n un idsn jsn
    | Ok false => node_workSum n <= node_workSum t /\ b' = b
    | Err e => Exists (fun m => refused fetchBlock checkConnectBlock t u ids js (bc_nodes b') m e) (branch n) /\
        chain_ok fetchBlock b' t u ids js
    end.
Proof using codec_ok checks.
  intros Hkeep Hok Hin Hp Hf Hcn (m & Hm1 & Hm2) Hst Hpre Hinv. pose proof Hok as [H1 H2 H3 H4 _ _ _ _ _].
  unfold connectBestChain. rewrite H3, viewTip_viewOf.
  pose proof (parent_inIndex _ n p H1 Hin Hp) as Hpi.
  inversion Hcn as [|n' p' up idsp jsp blk u' cs Hp' Hcp Hb Hg]; subst; [congruence|].
  assert (p' = p) as -> by congruence. assert (blk = block) as -> by (pose proof (nb_fetch _ _ _ _ Hb); congruence).
  rewrite (nb_prev _ _ _ _ Hb). destruct (decide (node_hash p = node_hash t)) as [E|E].
  - rewrite bool_decide_true by done. assert (p = t) as -> by (unfold inIndex in *; congruence).
    destruct (chain_to_det _ _ _ _ _ _ _ _ H4 Hcp) as (-> & -> & ->).
    destruct (extendBestChain_ok fetchBlock pruneBlocks Hkeep prefixSource chainParams checkConnectBlock b t u ids js n block un cs
      fastAdd now Hok Hp Hin Hb Hg) as (b' & r & -> & Hr).
    { rewrite branch_unfold in Hpre. apply Forall_cons_1 in Hpre as [Hpn _]. intros s Hs. by apply (Hpn t block u ids js s). }
    exists b', r. split; [done|]. destruct r as [main|e]; [destruct Hr as [-> Hr]; by split; [left|]|].
    destruct Hr as [Hr Hr']. split; [|done]. rewrite branch_unfold. by apply Exists_cons_hd.
  - rewrite bool_decide_false by done. pose proof (findFork_viewOf _ H1 t n H2 Hin) as Hfork.
    destruct (Z.leb_spec (node_workSum n) (node_workSum t)) as [Hle|Hlt].
    { destruct (findFork (viewOf t) (Some n)) as [f|]; [by exists b, (Ok false)|by destruct (Hfork m Hm1)]. }
    unfold getReorganizeNodes. rewrite Hp, H3, viewTip_viewOf.
    destruct (findFork (viewOf t) (Some n)) as [f|]; [|by destruct (Hfork m Hm1)]. destruct Hfork as (F1 & F2 & _).
    pose proof Hinv as Hinv2. rewrite branch_unfold, Hp, branch_unfold in Hinv2. apply Forall_cons_1 in Hinv2 as [_ Hinv2].
    apply Forall_cons_1 in Hinv2 as [-> _].
    destruct (reorganizeChain_ok fetchBlock pruneBlocks Hkeep prefixSource chainParams checkConnectBlock b t u ids js n un _ _ f now
      Hok Hin F1 F2 Hcn Hst Hpre Hinv) as (attach & b' & r & Ew & Er & Hr).
    rewrite Ew, Er. eexists _, _. split; [reflexivity|]. destruct r as [x|e].
    + split; [by right|]. exact (chain_at_alike _ _ _ _ _ _ _ _ (alike_flushToDB b') Hr).
    + destruct Hr as [Hr Hr']. split; [|exact (chain_at_alike _ _ _ _ _ _ _ _ (alike_flushToDB b') Hr')].
      apply Exists_exists in Hr as (x & Hx & Hrx). apply Exists_exists. exists x. split; [|done].
      by apply (attachWalk_branch _ _ _ _ _ _ Ew).
Qed.

(** C21: an unclean shutdown loses nothing. Of a chain state that is lost in memory
    the block index, the view and the database remain; [InitConsistentState] with
    an empty cache of any size replays the blocks above the last flush, whatever
    it flushes on the way, and ends in a chain state at the same tip with the same
    ledger. *)
Theorem recovers_after_crash b t u ids js k now :
  chain_ok fetchBlock b t u ids js ->
  exists b', InitConsistentState fetchBlock (withCache b (newUtxoCache k)) t now = Ok b' /\
    chain_ok fetchBlock b' t u ids js.
Proof using codec_ok.
  intros [H1 H2 H3 H4 H5 (f & base & ids0 & js0 & Hf & Hc0 & Hs & Hr & Hm) H7 H8 H9].
  destruct (chain_to_wf fetchBlock _ _ _ _ Hc0) as (Hwb & _ & Hlen).
  assert (Hfi : inIndex (bc_nodes b) f) by (by apply (inIndex_branch _ t)).
  unfold InitConsistentState. fold (chainDB (withCache b (newUtxoCache k))).
  change (chainDB (withCache b (newUtxoCache k))) with (chainDB b).
  rewrite Hm, Hlen. cbn [Nat.eqb negb HashSize].
  destruct (replay_ok fetchBlock now _ t u ids js f H1 H2 Hf H4 (chainDB b) (newUtxoCache k) base ids0 js0 Hc0)
    as (l & db' & s' & El & Ef & Hrep & Hdb).
  { exists f, base, ids0, js0. split_and!; try done; [rewrite branch_unfold; left|by apply standsFor_new]. }
  assert (Hfin : forall db1 s1, replayed fetchBlock db1 s1 t u ->
    db1 = mkChainDB (metadata db1) (spendJournalBucket (chainDB b)) (utxoSetBucket db1) (hashIndexBucket (chainDB b))
            (heightIndexBucket (chainDB b)) (blockIndexBucket (chainDB b)) ->
    chain_ok fetchBlock (withCache (withStore (withCache b (newUtxoCache k)) (withChainDB (bc_store b) db1))
                           (withFlush s1 (node_hash t) now)) t u ids js).
  { intros db1 s1 (f1 & base1 & ids1 & js1 & R1 & R2 & R3 & [S1 S2 S3 S4 S5] & R5) Hdb1. split; try done; unfold chainDB; cbn.
    - rewrite Hdb1. exact H5.
    - exists f1, base1, ids1, js1. split_and!; try done. }
  destruct (decide (node_hash f = node_hash t)) as [E|E].
  - rewrite bool_decide_true by done. cbn [bc_cache withCache bc_store]. eexists. split; [reflexivity|].
    assert (f = t) as -> by (unfold inIndex in *; rewrite E in Hfi; congruence).
    destruct (chain_to_det fetchBlock _ _ _ _ _ _ _ H4 Hc0) as (-> & _ & _).
    apply Hfin; [|by destruct (chainDB b)]. exists t, u, ids0, js0. split_and!; try done. by apply standsFor_new.
  - rewrite bool_decide_false by done. unfold LookupNode. cbn [bc_nodes withCache bc_best bc_cache bc_store]. rewrite Hfi, H3.
    pose proof (findFork_viewOf _ H1 t f H2 Hfi) as Hfork. assert (Hff : f ∈ branch f) by (rewrite branch_unfold; left).
    destruct (findFork (viewOf t) (Some f)) as [g|]; [|by destruct (Hfork f Hff)].
    destruct Hfork as (G1 & _ & G3). assert (g = f) as ->.
    { pose proof (G3 f Hff Hf) as G4. destruct (inIndex_wf _ f H1 Hfi) as [Hwf _].
      apply (branch_height_inj f g f Hwf G1 Hff). pose proof (branch_height_le f g Hwf G1).
      pose proof (Ancestor_on_branch f g Hwf G1) as Ha. destruct (Ancestor_Some f _ g Hwf Ha) as (_ & _ & Hwg & _).
      pose proof (branch_height_le g f Hwg G4). lia. }
    rewrite El, Ef. result_simpl. eexists. split; [reflexivity|]. by apply Hfin.
Qed.

(** C37: a block that only the index rejects is left in the UTXO cache. On a node
    that does not prune, when a valid block that [checkConnectBlock] accepts fails in
    the index while it is connected, as a block with a wrong expiry commitment does,
    the call returns the error, and tip, view, index and the whole database are as
    before, except for the statuses of blocks; but the cache has the block applied:
    reading any outpoint through it answers from the ledger after the rejected
    block, so coins that the block spent are gone and its outputs are there. *)
Theorem rejected_block_stays_in_cache b t u ids js n block u' cs fastAdd e now :
  keepsBlocks pruneBlocks ->
  chain_ok fetchBlock b t u ids js -> nodeParent n = Some t -> inIndex (bc_nodes b) n ->
  node_block fetchBlock n t block -> valid_block u ids block u' cs ->
  (forall s, ix_ok s u (node_hash t) ->
     checkReapGlobalPrefix block (node_height n) (prefixSource s) chainParams = Ok tt) ->
  (exists view, (checkConnectBlock b (SetBestHash NewUtxoViewpoint (node_hash t)) n block).2 = Ok view) ->
  ixConnectBlock (st_index (bc_store b)) block cs = Err e ->
  exists b', connectBestChain pruneBlocks fetchBlock prefixSource chainParams checkConnectBlock now b n block fastAdd
             = (b', Err (IndexError e)) /\
    statusOnly b b' /\
    forall op, wf_outpoint op -> exists x s', FetchUtxoEntry (chainDB b') (bc_cache b') op = Ok (x, s') /\
                                        (x ≫= live_entry) = u' !! op.
Proof using codec_ok checks.
  intros Hkeep Hok Hp Hin Hb Hg Hpre (view & Hacc) Hrej. unfold connectBestChain.
  rewrite (ca_view _ _ _ _ _ _ _ Hok), viewTip_viewOf, (nb_prev _ _ _ _ Hb), bool_decide_true by done.
  rewrite <- (nb_prev _ _ _ _ Hb) in Hacc. unfold extendBestChain. set (fast := fastAdd || _).
  destruct (checkExtension_ok fetchBlock checkConnectBlock b t u ids js n block fast Hok Hp
    Hb (gb_inputs _ _ _ _ _ Hg)) as (b1 & s0 & r & -> & Hal1 & Hok1 & Hr). destruct r as [|e0]; [|destruct Hr; congruence].
  rewrite (chain_ok_prefix fetchBlock prefixSource chainParams b1 t u ids js block n Hok1 Hpre). fold (chainDB b1).
  destruct (connect_cache fetchBlock b1 t u ids js n block u' cs (Some []) Hok1 Hb Hg) as (s1 & -> & Hat).
  change (default [] ((fun l => l ++ cs) <$> Some [])) with cs.
  destruct (connectBlock_rejected fetchBlock pruneBlocks (withCache b1 s1) t u ids js n block u' cs e now Hat Hkeep Hb Hg)
    as (b2 & E2 & Hal2); [cbn [bc_store withCache]; by rewrite (al_ix _ _ Hal1)|]. rewrite E2.
  set (b3 := if isRuleError _ then _ else _). assert (Hal3 : alike (withCache b1 s1) (flushToDB b3)).
  { eapply alike_trans; [exact Hal2|]. eapply alike_trans; [|apply alike_flushToDB]. unfold b3.
    destruct (isRuleError _); [apply alike_setFlags|by split]. }
  eexists. split; [reflexivity|]. split.
  - apply (alike_statusOnly b s1). eapply alike_trans; [|exact Hal3]. destruct Hal1. by split.
  - pose proof (chain_at_alike fetchBlock _ _ _ _ _ _ _ Hal3 Hat) as [_ _ _ _ _ (f & base & ids0 & js0 & _ & _ & Hs & Hr2 & _) _ _ _].
    intros op Hop. by apply (FetchUtxoEntry_rep _ base).
Qed.

(** A block on a branch known to be invalid is reported as connected. When an
    ancestor of the block above the fork is marked invalid and the branch has more
    work than the best chain, [connectBestChain] finds nothing to detach or attach
    and answers that the block is on the main chain, while the chain state is still
    that of the old tip [t], which is not the block. *)
Theorem invalid_branch_reported_connected b t u ids js n p f x fastAdd now block :
  chain_ok fetchBlock b t u ids js -> inIndex (bc_nodes b) n -> nodeParent n = Some p ->
  bh_PrevBlock (Header block) <> node_hash t -> node_workSum t < node_workSum n ->
  findFork (viewOf t) (Some n) = Some f -> x ∈ branch n -> node_height f < node_height x ->
  KnownInvalid (NodeStatus (bc_nodes b) x) = true ->
  exists b', connectBestChain pruneBlocks fetchBlock prefixSource chainParams checkConnectBlock now b n block fastAdd
             = (b', Ok true) /\
    chain_ok fetchBlock b' t u ids js /\ node_hash n <> bs_Hash (bc_state b').
Proof using.
  intros Hok Hin Hp Hprev Hwork Hfork Hx Hh Hinv. pose proof Hok as [H1 H2 H3 _ _ _ _ _ Hst].
  unfold connectBestChain. rewrite H3, viewTip_viewOf, bool_decide_false by done.
  destruct (Z.leb_spec (node_workSum n) (node_workSum t)); [lia|]. unfold getReorganizeNodes. rewrite Hp, H3, Hfork.
  pose proof (findFork_viewOf _ H1 t n H2 Hin) as Hff. rewrite Hfork in Hff. destruct Hff as (F1 & F2 & _).
  assert (Hno : forall b1, alike b b1 -> exists b', (let '(b2, r) := reorganizeChain pruneBlocks fetchBlock prefixSource
      chainParams checkConnectBlock now b1 [] [] in (flushToDB b2, match r with Ok _ => Ok true | Err e => Err e end))
      = (b', @Ok chain_error bool true) /\ chain_ok fetchBlock b' t u ids js /\ node_hash n <> bs_Hash (bc_state b')).
  { intros b1 Hal. unfold reorganizeChain, verifyReorganizationValidity, reorganize.
    rewrite (al_best _ _ Hal), H3, viewTip_viewOf. cbn [detachBlocks attachBlocks]. eexists. split; [reflexivity|].
    pose proof (alike_trans _ _ _ Hal (alike_flushToDB b1)) as Hal1. split; [exact (chain_at_alike _ _ _ _ _ _ _ _ Hal1 Hok)|].
    rewrite (al_state _ _ Hal1), (proj1 Hst). intros E. assert (n = t) as -> by (unfold inIndex in *; congruence). lia. }
  destruct (KnownInvalid (NodeStatus (bc_nodes b) p)).
  - destruct (Hno _ (alike_setFlags b n statusInvalidAncestor)) as (b' & E & Hok' & Hne). by exists b'.
  - destruct (attachWalk (bc_nodes b) (Some f) n []) as [l inv] eqn:Ew.
    rewrite (attachWalk_invalid (bc_nodes b) f n x l inv [] H1 Hin F1 Hx Hh Hinv Ew).
    destruct (Hno _ (foldl_setFlags_alike statusInvalidAncestor l b)) as (b' & E & Hok' & Hne). by exists b'.
Qed.
End properties.

(** ** The expiry index as the enabled index *)

#[export] Instance expiryIndexer : Indexer := {|
  ix_state := IndexDB * ExpiryIndex;
  ix_key := string_bytes "expiryindex";
  ixConnectBlock s block _ := ConnectBlock s.2 s.1 block;
  ixDisconnectBlock s block stxos := DisconnectBlock s.2 s.1 block stxos |}.

Definition expiry_ok (idx : ExpiryIndex) (s : IndexDB * ExpiryIndex) (u : utxo_set) (hash : list Z) : Prop :=
  exists tip, s.2 = withTip idx tip /\ index_ok idx s.1 u tip hash /\ good_set idx u.

Definition expiry_block (idx : ExpiryIndex) (u : utxo_set) (block : Block) (u' : utxo_set) : Prop :=
  block_ok idx (Height block) u block u' /\ good_set idx u.

#[export] Program Instance expiryLaws (idx : ExpiryIndex) (Hd : disabled idx = false)
  : IndexerLaws (ix := expiryIndexer) := {| ix_ok := expiry_ok idx; ix_block := expiry_block idx |}.
Next Obligation.
  intros idx Hd [db x] u block u' cs (tip & Hx & Hi & Hg) [Hb _] _. cbn [fst snd ixConnectBlock expiryIndexer] in *. subst x.
  destruct (ConnectBlock_block_ok idx _ _ _ _ db tip _ tip Hd Hb Hi Hg) as (db' & -> & Hi' & Hg').
  eexists. split; [reflexivity|]. by exists (Height block).
Qed.
Next Obligation.
  intros idx Hd [db x] u block u' cs (tip & Hx & Hi & _) [Hb Hg] Hsh Hl Happ.
  cbn [fst snd ixDisconnectBlock expiryIndexer] in *. subst x.
  destruct (DisconnectBlock_spec (withTip idx tip) db block u u' cs tip _ Hd (bok_indexed _ _ _ _ _ Hb) Hl Hi Hg
              (bok_new _ _ _ _ _ Hb) Hsh Happ) as (db' & -> & Hi').
  eexists. split; [reflexivity|]. by eexists.
Qed.

Definition indexPrefixSource (s : @ix_state expiryIndexer) : option ReapPrefixSource := Some (indexSource s.2 s.1).

Lemma ConnectBlock_bad_commitment idx db block u tip hash e :
  disabled idx = false -> IsIndexingEnabled (expiryParams idx) (Height block) = true -> index_ok idx db u tip hash ->
  (forall root, validateExpiryCommitment idx block root = Err e) -> ConnectBlock idx db block = Err e.
Proof.
  intros Hd Hen [_ (mh & Hacc & Hget & _)] He. destruct (rootOf_Some idx u) as (root & Hroot & _).
  unfold ConnectBlock. rewrite Hd, Hen. cbn [negb]. rewrite Hget. result_simpl.
  rewrite (acc_ok_digest _ _ Hacc). unfold rootOf in Hroot. rewrite Hroot. cbn [orPanic]. result_simpl.
  by rewrite He.
Qed.

(** ** A small chain, for the witnesses *)

#[local] Existing Instances bitCodec bitCodec_recovers.

Definition rootNode : blockNode := Node None None (mkNodeData zeroHash 0 0 1 0x1d00ffff 0 1700000000 zeroHash).
Definition mainHeader : BlockHeader := mkBlockHeader 1 zeroHash zeroHash 1700000600 0x1d00ffff 1.
Definition sideHeader : BlockHeader := mkBlockHeader 1 zeroHash zeroHash 1700000700 0x1c00ffff 2.
Definition mainNode : blockNode := newBlockNode mainHeader (Some rootNode).
Definition sideNode : blockNode := newBlockNode sideHeader (Some rootNode).
Definition mainBlock : Block := mkBlock 1 mainHeader [samplePay].
Definition sideBlock : Block := mkBlock 1 sideHeader [sampleCb 3 [mkTxOut 0 [106]]].

Definition fetchSample (n : blockNode) : result chain_error Block :=
  if nd_nonce (nodeInfo n) =? 1 then Ok mainBlock
  else if nd_nonce (nodeInfo n) =? 2 then Ok sideBlock else Ok sampleGenesis.

Definition rootIndex : blockIndex := mkBlockIndex {[ zeroHash := rootNode ]} {[ zeroHash := statusValid ]} ∅.
Definition forkIndex : blockIndex :=
  AddNode (AddNode rootIndex mainNode statusDataStored) sideNode statusDataStored.

Definition rootChain (bi : blockIndex) (idx : ExpiryIndex) : BlockChain :=
  mkBlockChain
    (mkStore (mkChainDB {[ utxoStateConsistencyKeyName := zeroHash ]} ∅ ∅ ∅ ∅ ∅)
       {[ ix_key := zeroHash ++ le_bytes 4 (u32 0) ]} (resetShadowIndex sampleDB, withTip idx (-1)))
    bi (viewOf rootNode) (newUtxoCache 0) (newBestState rootNode 0 0 1 1 0).

Lemma inIndex_AddNode bi header p q status :
  inIndex bi q -> bi_index bi !! node_hash (newBlockNode header p) = None -> inIndex (AddNode bi (newBlockNode header p) status) q.
Proof.
  intros Hq Hn. unfold inIndex, AddNode, addNode in *. cbn [bi_index].
  rewrite lookup_insert_ne; [done|]. intros E. rewrite E in Hn. congruence.
Qed.

Lemma rootIndex_ok : tree_ok rootIndex /\ inIndex rootIndex rootNode.
Proof.
  split; [|apply lookup_singleton_eq]. apply map_Forall_singleton. split; [reflexivity|]. split; [by constructor|]. by split.
Qed.

Lemma forkIndex_ok :
  tree_ok forkIndex /\ inIndex forkIndex rootNode /\ inIndex forkIndex mainNode /\ inIndex forkIndex sideNode.
Proof.
  destruct rootIndex_ok as [H0 I0].
  assert (E1 : bi_index rootIndex !! node_hash mainNode = None) by (vm_compute; reflexivity).
  destruct (AddNode_ok rootIndex mainHeader (Some rootNode) statusDataStored H0) as [H1 I1]; [by split|exact E1|].
  pose proof (inIndex_AddNode rootIndex mainHeader (Some rootNode) rootNode statusDataStored I0 E1) as I01.
  set (b1 := AddNode rootIndex mainNode statusDataStored).
  assert (E2 : bi_index b1 !! node_hash sideNode = None) by (vm_compute; reflexivity).
  destruct (AddNode_ok b1 sideHeader (Some rootNode) statusDataStored H1) as [H2 I2]; [by split|exact E2|].
  split; [exact H2|]. split; [exact (inIndex_AddNode b1 sideHeader (Some rootNode) rootNode statusDataStored I01 E2)|].
  split; [exact (inIndex_AddNode b1 sideHeader (Some rootNode) mainNode statusDataStored I1 E2)|exact I2].
Qed.

Lemma rootChain_ok bi idx (Hd : disabled idx = false) :
  tree_ok bi -> inIndex bi rootNode ->
  chain_ok (laws := expiryLaws idx Hd) fetchSample (rootChain bi idx) rootNode ∅ [] [].
Proof.
  intros H1 H2. assert (Hc : chain_to (laws := expiryLaws idx Hd) fetchSample rootNode ∅ [] [])
    by (by constructor). split; [exact H1|exact H2|reflexivity|exact Hc|constructor| | |apply lookup_singleton_eq|by split].
  - exists rootNode, ∅, [], []. split; [left|]. split; [exact Hc|]. split; [apply stored_empty|].
    split; [apply standsFor_new, map_Forall_empty|apply lookup_singleton_eq].
  - exists (-1). split; [reflexivity|]. split; [|apply map_Forall_empty].
    apply index_empty_ok; [reflexivity|apply shadow_reset].
Qed.

#[local] Instance sampleLaws : IndexerLaws := expiryLaws sampleIdx eq_refl.

Lemma mainNode_block : node_block fetchSample mainNode rootNode mainBlock.
Proof. split; vm_compute; reflexivity. Qed.

Lemma sideNode_block : node_block fetchSample sideNode rootNode sideBlock.
Proof. split; vm_compute; reflexivity. Qed.

Lemma mainBlock_valid : valid_block ∅ [] mainBlock sampleU1 [].
Proof.
  split; [exact sample_apply1|by vm_compute|by split| | |constructor|intros tx _; apply not_elem_of_nil].
  - constructor; [|constructor]. constructor; [by vm_compute|constructor].
  - constructor; [|constructor]. constructor; [|constructor]. split; [reflexivity|by vm_compute].
Qed.

Lemma mainBlock_good : good_block ∅ [] mainBlock sampleU1 [].
Proof.
  split; [exact mainBlock_valid|]. split; [|apply map_Forall_empty].
  destruct sample_block1_ok as [H1 H2 H3 H4 H5 H6]. by split.
Qed.

Lemma sideBlock_good : good_block ∅ [] sideBlock ∅ [].
Proof.
  assert (Happ : applyTxs 1 ∅ (Transactions sideBlock) = Some (∅, [])) by (apply (bool_decide_unpack _); vm_compute; exact I).
  assert (Hnew : map (newCoins 1) (Transactions sideBlock) = [[]]) by (vm_compute; reflexivity).
  split; [split; [exact Happ|by vm_compute|by split| | |constructor|intros tx _; apply not_elem_of_nil]|].
  - constructor; [|constructor]. constructor; [by vm_compute|constructor].
  - constructor; [|constructor]. constructor; [|constructor]. split; [reflexivity|by vm_compute].
  - split; [|apply map_Forall_empty]. split; [done|by vm_compute|by vm_compute| |by eexists|done].
    apply good_txs_map. change (Height sideBlock) with 1. rewrite Hnew. by repeat constructor.
Qed.

Lemma early_prefix block source : checkReapGlobalPrefix block 1 source ObtcMainNetParams = Ok tt.
Proof. reflexivity. Qed.

(** Checks without rules: the block is connected to the view. *)
Definition connectOnly (b : BlockChain) (view : UtxoViewpoint) (n : blockNode) (block : Block)
    : utxoCache * result chain_error UtxoViewpoint :=
  match fetchInputUtxos (chainDB b) (bc_cache b) view block with
  | Err e => (bc_cache b, Err (ChainIOError e))
  | Ok (view1, s1) => (s1, '(view2, _) ← liftView (connectTransactions view1 block []); Ok view2)
  end.

#[export] Instance connectOnly_checks : ChecksBlocks connectOnly.
Proof.
  split.
  - intros b view n block base v Hs Hr Hin. unfold connectOnly.
    destruct (fetchInputUtxos_reads block (chainDB b) base (bc_cache b) v view Hin Hs Hr) as (view1 & s1 & -> & Hr1).
    exact Hr1.
  - intros b view n block base v u u' cs s view' _ Hs Hr Hv Hids Hsh Hin Happ. unfold connectOnly.
    destruct (fetchInputUtxos_connects (chainDB b) base (bc_cache b) v view u block u' cs Hs Hr Hv Hids Hsh Hin Happ)
      as (view1 & s1 & view2 & -> & _ & -> & Hv2). cbn [liftView]. result_simpl. by intros [= _ <-].
Qed.

Lemma mainChain_ok :
  exists b, chain_ok fetchSample b mainNode sampleU1 (map TxHash (Transactions mainBlock) ++ []) [(node_hash mainNode, [])] /\
    bi_index (bc_nodes b) = bi_index forkIndex /\ bi_status (bc_nodes b) = bi_status forkIndex.
Proof.
  destruct forkIndex_ok as (H1 & H2 & H3 & _).
  destruct (attachBlock_ok fetchSample (fun _ => []) (fun _ => eq_refl) (rootChain forkIndex sampleIdx) rootNode ∅ [] [] mainNode
    mainBlock sampleU1 [] 0 (rootChain_ok forkIndex sampleIdx eq_refl H1 H2) eq_refl H3 mainNode_block
    mainBlock_good) as (b & E & Hb & Hok).
  exists b. split; [exact Hok|]. split; [exact Hb|]. revert E. unfold attachBlock.
  destruct (cacheConnectTransactions _ _ _ _) as [[s1 stxos] [[]|]]; [|discriminate]. intros E.
  pose proof (connectBlock_status (fun _ => []) (withCache (rootChain forkIndex sampleIdx) s1) mainNode mainBlock
                (default [] stxos) 0) as Hst.
  rewrite E in Hst. exact Hst.
Qed.

Lemma sideChain_to :
  chain_to fetchSample sideNode ∅ (map TxHash (Transactions sideBlock) ++ []) [(node_hash sideNode, [])].
Proof. eapply chain_step; [reflexivity|by constructor|exact sideNode_block|exact sideBlock_good]. Qed.

Lemma sideNode_prefixes :
  Forall (prefix_ok fetchSample indexPrefixSource ObtcMainNetParams) (branch sideNode).
Proof.
  constructor; [intros p block u ids js s _ _ _ _; apply early_prefix|]. constructor; [|constructor].
  intros p block u ids js s Hp. discriminate Hp.
Qed.

Lemma sideNode_statuses (b : BlockChain) :
  bi_status (bc_nodes b) = bi_status forkIndex ->
  Forall (fun m => KnownInvalid (NodeStatus (bc_nodes b) m) = false) (branch sideNode).
Proof.
  intros E. assert (Hm : forall m, NodeStatus (bc_nodes b) m = NodeStatus forkIndex m) by
    (intros m; unfold NodeStatus; rewrite E; reflexivity).
  constructor; [rewrite Hm; vm_compute; reflexivity|]. constructor; [rewrite Hm; vm_compute; reflexivity|constructor].
Qed.

Lemma fetchSample_stores l : Forall (fun m => exists block, fetchSample m = Ok block) l.
Proof.
  apply Forall_forall. intros m _. unfold fetchSample. destruct (_ =? 1); [by eexists|]. destruct (_ =? 2); by eexists.
Qed.

(** Checks without rules refuse no valid block. *)
Lemma sideBlock_not_refused t u ids js bi e :
  Exists (fun m => refused fetchSample connectOnly t u ids js bi m e) (branch sideNode) -> False.
Proof.
  intros [((b & p & up & idsp & jsp & view & block & Hok & Hp & Hc & Hb & Hv & He) & _)
         |[((b & p & up & idsp & jsp & view & block & _ & Hp & _) & _)|H]%Exists_cons]%Exists_cons;
    [|discriminate Hp|by apply Exists_nil in H].
  injection Hp as <-. inversion Hc as [n0 _ _|n0 p0 u0 ids0 js0 blk u1 cs Hp0]; subst; [|discriminate Hp0].
  pose proof (nb_fetch _ _ _ _ Hb) as Hf. change (fetchSample sideNode) with (Ok (E := chain_error) sideBlock) in Hf. injection Hf as <-.
  destruct (chain_at_base _ _ _ _ _ _ _ Hok) as (base & Hs & Hr).
  assert (Hids : new_ids ∅ (Transactions sideBlock)) by (intros op c tx H; by rewrite lookup_empty in H).
  destruct (fetchInputUtxos_connects _ base _ u view ∅ sideBlock ∅ [] Hs Hr Hv Hids (gb_shape _ _ _ _ _ sideBlock_good)
    (gb_inputs _ _ _ _ _ sideBlock_good) (gb_apply _ _ _ _ _ sideBlock_good)) as (view1 & s1 & view2 & E1 & _ & E2 & _).
  revert He. unfold connectOnly. rewrite E1, E2. discriminate.
Qed.

(** The side block has more work than the tip: a reorganisation. *)
Lemma connectBestChain_most_work_witness :
  exists b b' r, bc_best b = viewOf mainNode /\
    connectBestChain (fun _ => []) fetchSample indexPrefixSource ObtcMainNetParams connectOnly 0 b sideNode sideBlock false
    = (b', r) /\
    match r with
    | Ok true => chain_ok fetchSample b' sideNode ∅ (map TxHash (Transactions sideBlock) ++ []) [(node_hash sideNode, [])]
    | Ok false => False
    | Err e => False
    end.
Proof.
  destruct mainChain_ok as (b & Hok & Hidx & Hst). exists b.
  assert (Hin : inIndex (bc_nodes b) sideNode) by (unfold inIndex; rewrite Hidx; exact (proj2 (proj2 (proj2 forkIndex_ok)))).
  assert (Hroot : exists m, m ∈ branch sideNode /\ m ∈ branch mainNode) by (exists rootNode; split; right; left).
  destruct (connectBestChain_most_work fetchSample (fun _ => []) indexPrefixSource ObtcMainNetParams
    connectOnly b mainNode sampleU1 (map TxHash (Transactions mainBlock) ++ []) [(node_hash mainNode, [])] sideNode rootNode
    sideBlock ∅ (map TxHash (Transactions sideBlock) ++ []) [(node_hash sideNode, [])] false 0 (fun _ => eq_refl) Hok Hin eq_refl eq_refl
    sideChain_to Hroot (fetchSample_stores _) sideNode_prefixes (sideNode_statuses b Hst)) as (b' & r & E & Hr).
  exists b', r. split; [exact (ca_view _ _ _ _ _ _ _ Hok)|]. split; [exact E|]. destruct r as [[|]|e].
  - exact (proj2 Hr).
  - destruct Hr as [Hr _]. apply Hr. vm_compute. reflexivity.
  - exact (sideBlock_not_refused _ _ _ _ _ _ (proj1 Hr)).
Defined.

Lemma recovers_after_crash_witness :
  exists b b', bc_best b = viewOf mainNode /\ InitConsistentState fetchSample (withCache b (newUtxoCache 1000)) mainNode 0 = Ok b' /\
    chain_ok fetchSample b' mainNode sampleU1 (map TxHash (Transactions mainBlock) ++ []) [(node_hash mainNode, [])].
Proof.
  destruct mainChain_ok as (b & Hok & _). exists b.
  destruct (recovers_after_crash fetchSample b mainNode sampleU1 _ _ 1000 0 Hok) as (b' & E & Hok').
  exists b'. split; [exact (ca_view _ _ _ _ _ _ _ Hok)|]. split; [exact E|exact Hok'].
Defined.

(** An index that asks for the commitment from block 1 on. *)
Definition strictIdx : ExpiryIndex := mkExpiryIndex (Build_ExpiryIndexParams 100 500 0 0 1) (-1) false.

Lemma strictChain_ok :
  chain_ok (laws := expiryLaws strictIdx eq_refl) fetchSample (rootChain forkIndex strictIdx) rootNode ∅ [] [].
Proof. destruct forkIndex_ok as (H1 & H2 & _). exact (rootChain_ok forkIndex strictIdx eq_refl H1 H2). Qed.

Lemma strict_rejects :
  ixConnectBlock (st_index (bc_store (rootChain forkIndex strictIdx))) mainBlock [] = Err ErrBadExpiryCommitmentMissing.
Proof.
  destruct (ca_index _ _ _ _ _ _ _ strictChain_ok) as (tip & _ & Hi & _).
  exact (ConnectBlock_bad_commitment (withTip strictIdx (-1)) (resetShadowIndex sampleDB) mainBlock ∅ tip _ _ eq_refl eq_refl
           Hi (fun _ => eq_refl)).
Qed.

Lemma mainBlock_accepted :
  exists view, (connectOnly (rootChain forkIndex strictIdx) (SetBestHash NewUtxoViewpoint (node_hash rootNode)) mainNode mainBlock).2
               = Ok view.
Proof.
  destruct (chain_at_base _ _ _ _ _ _ _ strictChain_ok) as (base & Hs & Hr).
  assert (Hids : new_ids ∅ (Transactions mainBlock)) by (intros op c tx H; by rewrite lookup_empty in H).
  destruct (fetchInputUtxos_connects _ base _ ∅ (SetBestHash NewUtxoViewpoint (node_hash rootNode)) ∅ mainBlock sampleU1 [] Hs Hr
    (shows_new _ _) Hids (gb_shape _ _ _ _ _ mainBlock_valid) (gb_inputs _ _ _ _ _ mainBlock_valid)
    (gb_apply _ _ _ _ _ mainBlock_valid)) as (view1 & s1 & view2 & E1 & _ & E2 & _).
  exists view2. unfold connectOnly. by rewrite E1, E2.
Qed.

Lemma rejected_block_stays_in_cache_witness :
  exists b' x s', connectBestChain (fun _ => []) fetchSample indexPrefixSource ObtcMainNetParams connectOnly 0
                    (rootChain forkIndex strictIdx) mainNode mainBlock false
                  = (b', Err (IndexError ErrBadExpiryCommitmentMissing)) /\
    bc_best b' = viewOf rootNode /\ FetchUtxoEntry (chainDB b') (bc_cache b') sampleOp1 = Ok (x, s') /\
    (x ≫= live_entry) = Some sampleCoin1.
Proof.
  destruct (rejected_block_stays_in_cache (laws := expiryLaws strictIdx eq_refl) fetchSample (fun _ => [])
    indexPrefixSource ObtcMainNetParams connectOnly (rootChain forkIndex strictIdx) rootNode ∅ [] [] mainNode mainBlock sampleU1
    [] false ErrBadExpiryCommitmentMissing 0 (fun _ => eq_refl) strictChain_ok eq_refl (proj1 (proj2 (proj2 forkIndex_ok)))
    mainNode_block mainBlock_valid (fun s _ => early_prefix mainBlock (indexPrefixSource s)) mainBlock_accepted strict_rejects)
    as (b' & E & (H1 & _) & H2).
  destruct (H2 sampleOp1 (proj1 sample_good1)) as (x & s' & F & Hx). exists b', x, s'.
  split; [exact E|]. split; [exact H1|]. split; [exact F|]. rewrite Hx. apply lookup_singleton_eq.
Defined.

(** A block on top of a side block that failed. *)
Definition lateHeader : BlockHeader := mkBlockHeader 1 (node_hash sideNode) zeroHash 1700001000 0x1c00ffff 3.
Definition lateNode : blockNode := newBlockNode lateHeader (Some sideNode).
Definition failedIndex : blockIndex :=
  AddNode (AddNode rootIndex sideNode statusValidateFailed) lateNode statusDataStored.

Lemma failedIndex_ok : tree_ok failedIndex /\ inIndex failedIndex rootNode /\ inIndex failedIndex lateNode.
Proof.
  destruct rootIndex_ok as [H0 I0].
  assert (E1 : bi_index rootIndex !! node_hash sideNode = None) by (vm_compute; reflexivity).
  destruct (AddNode_ok rootIndex sideHeader (Some rootNode) statusValidateFailed H0) as [H1 I1]; [by split|exact E1|].
  pose proof (inIndex_AddNode rootIndex sideHeader (Some rootNode) rootNode statusValidateFailed I0 E1) as I01.
  set (b1 := AddNode rootIndex sideNode statusValidateFailed).
  assert (E2 : bi_index b1 !! node_hash lateNode = None) by (vm_compute; reflexivity).
  destruct (AddNode_ok b1 lateHeader (Some sideNode) statusDataStored H1) as [H2 I2]; [by split|exact E2|].
  split; [exact H2|]. split; [exact (inIndex_AddNode b1 lateHeader (Some sideNode) rootNode statusDataStored I01 E2)|exact I2].
Qed.

Lemma invalid_branch_reported_connected_witness :
  exists b', connectBestChain (fun _ => []) fetchSample indexPrefixSource ObtcMainNetParams connectOnly 0
               (rootChain failedIndex sampleIdx) lateNode (mkBlock 2 lateHeader []) false = (b', Ok true) /\
    chain_ok fetchSample b' rootNode ∅ [] [] /\ node_hash lateNode <> bs_Hash (bc_state b').
Proof.
  destruct failedIndex_ok as (H1 & H2 & H3).
  refine (invalid_branch_reported_connected fetchSample (fun _ => []) indexPrefixSource ObtcMainNetParams connectOnly
    (rootChain failedIndex sampleIdx) rootNode ∅ [] [] lateNode sideNode rootNode sideNode false 0 (mkBlock 2 lateHeader [])
    (rootChain_ok failedIndex sampleIdx eq_refl H1 H2) H3 eq_refl _ _ _ _ _ _).
  - vm_compute. discriminate.
  - vm_compute. reflexivity.
  - vm_compute. reflexivity.
  - right. left.
  - vm_compute. reflexivity.
  - vm_compute. reflexivity.
Defined.
