(* ===== verification/BlockContext.v ===== *)
(** * Checks that depend on the place of a block in the chain

    src/blockchain/checkpoints.go, the second half of the checks of
    src/blockchain/validate.go that precede connecting a block, and the relative
    lock times of src/blockchain/chain.go: checkpoints, [CheckBlockHeaderContext],
    [checkBlockContext] and [calcSequenceLock].

    What these checks remember is threaded: the last checkpoint passed and the
    caches of the deployments. [checkpoints] is the list the chain is configured
    with, in ascending order of height. *)

From S2P Require Import Prelude ChainParams Sha256 Wire Encode Script Standard Block Ledger UtxoView WorkMath BlockNode Difficulty Threshold ChainView Text IndexDB ReapRules Merkle ChainState BlockSanity.

Definition liftThreshold {A} (r : result threshold_error A) : result chain_error A :=
  match r with Ok a => Ok a | Err e => Err (ChainThreshold e) end.

Definition maxTimeWarp : Z := 600.

(** [nextCheckpoint] and [checkpointNode] of the chain. *)
Record CheckpointState := mkCheckpointState {
  nextCheckpoint : option Checkpoint;
  checkpointNode : option blockNode }.

(** The state these checks update. *)
Record ContextState := mkContextState {
  ctx_checkpoint : CheckpointState;
  ctx_caches : list thresholdStateCache }.

Section context.
Context (chainParams : Params) (checkpoints : list Checkpoint).

(** ** Checkpoints *)

Definition HasCheckpoints : bool := 0 <? zlen checkpoints.
Definition LatestCheckpoint : option Checkpoint := last checkpoints.

(** [checkpointsByHeight], filled in order. *)
Definition checkpointByHeight (height : Z) : option Checkpoint :=
  snd <$> list_find (fun c => ckpt_Height c = height) (reverse checkpoints).

Definition verifyCheckpoint (height : Z) (hash : list Z) : bool :=
  if negb HasCheckpoints then true
  else
    match checkpointByHeight height with
    | None => true
    | Some checkpoint => bool_decide (ckpt_Hash checkpoint = hash)
    end.

(** The backwards loop of the first search: [next] is the checkpoint after the
    one looked at. *)
Fixpoint searchCheckpoints (index : blockIndex) (bestChain : chainView) (rev : list Checkpoint)
    (next : option Checkpoint) : option (blockNode * option Checkpoint) :=
  match rev with
  | [] => None
  | c :: rev' =>
      match LookupNode index (ckpt_Hash c) with
      | Some node =>
          if contains bestChain node then Some (node, next) else searchCheckpoints index bestChain rev' (Some c)
      | None => searchCheckpoints index bestChain rev' (Some c)
      end
  end.

(** The checkpoint after the one with this hash. *)
Fixpoint checkpointAfter (rev : list Checkpoint) (next : option Checkpoint) (hash : list Z) : option Checkpoint :=
  match rev with
  | [] => None
  | c :: rev' => if bool_decide (ckpt_Hash c = hash) then next else checkpointAfter rev' (Some c) hash
  end.

Definition findPreviousCheckpoint (index : blockIndex) (bestChain : chainView) (cs : CheckpointState)
    : CheckpointState * result chain_error (option blockNode) :=
  if negb HasCheckpoints then (cs, Ok None)
  else
    match checkpointNode cs, nextCheckpoint cs with
    | None, None =>
        match searchCheckpoints index bestChain (reverse checkpoints) None with
        | Some (node, next) => (mkCheckpointState next (Some node), Ok (Some node))
        | None => (mkCheckpointState (head checkpoints) None, Ok None)
        end
    | node, None => (cs, Ok node)
    | node, Some next =>
        match viewTip bestChain with
        | None => (cs, Err (ChainPanic "tip"))
        | Some tip =>
            if node_height tip <? ckpt_Height next then (cs, Ok node)
            else
              match LookupNode index (ckpt_Hash next) with
              | None => (cs, Err (ChainAssert "findPreviousCheckpoint failed lookup of known good block node"))
              | Some node' =>
                  (mkCheckpointState (checkpointAfter (reverse checkpoints) None (ckpt_Hash next)) (Some node'), Ok (Some node'))
              end
        end
    end.

Definition CheckpointConfirmations : Z := 2016.

Definition isNonstandardTransaction (tx : MsgTx) : bool :=
  existsb (fun txOut => bool_decide (GetScriptClass (PkScript txOut) = NonStandardTy)) (TxOuts tx).

(** Whether a block could serve as a checkpoint, with the error for a wrong height. *)
Definition IsCheckpointCandidate (index : blockIndex) (bestChain : chainView) (block : Block) : result chain_error bool :=
  match LookupNode index (Block_Hash block) with
  | None => Ok false
  | Some node =>
      if negb (contains bestChain node) then Ok false
      else if negb (node_height node =? Height block)
      then Err (ChainAssert "passed block height does not match the main chain height")
      else
        match viewTip bestChain with
        | None => Err (ChainPanic "tip")
        | Some tip =>
            if i32 (node_height tip - CheckpointConfirmations) <? node_height node then Ok false
            else
              match next bestChain (Some node), nodeParent node with
              | Some nextNode, Some parent =>
                  let curTime := bh_Timestamp (Header block) in
                  if (curTime <? node_timestamp parent) || (node_timestamp nextNode <? curTime) then Ok false
                  else Ok (negb (existsb isNonstandardTransaction (Transactions block)))
              | _, _ => Ok false
              end
        end
  end.

(** ** Headers *)

Definition assertNoTimeWarp (blockHeight blocksPerReTarget headerTimestamp prevBlockTimestamp : Z) : result chain_error unit :=
  if blocksPerReTarget =? 0 then Err (ChainPanic "integer divide by zero")
  else if negb (Z.rem blockHeight blocksPerReTarget =? 0) then Ok tt
  else if headerTimestamp <? prevBlockTimestamp - maxTimeWarp
  then Err (BlockRuleError (RuleError ErrTimewarpAttack "block's timestamp is too early on diff adjustment block"))
  else Ok tt.

(** The checks of a header that [BFFastAdd] skips. *)
Definition checkHeaderAgainstParent (header : BlockHeader) (prevNode : blockNode) : result chain_error unit :=
  expectedDifficulty ← liftDifficulty (calcNextRequiredDifficulty (Some prevNode) (bh_Timestamp header) chainParams);
  if negb (bh_Bits header =? expectedDifficulty)
  then Err (BlockRuleError (RuleError ErrUnexpectedDifficulty "block difficulty is not the expected value"))
  else if negb (CalcPastMedianTime prevNode <? bh_Timestamp header)
  then Err (BlockRuleError (RuleError ErrTimeTooOld "block timestamp is not after expected"))
  else if EnforceBIP94 chainParams
  then assertNoTimeWarp (i32 (node_height prevNode + 1)) (blocksPerRetarget chainParams) (bh_Timestamp header) (node_timestamp prevNode)
  else Ok tt.

Definition versionTooOld (header : BlockHeader) (blockHeight : Z) : bool :=
  (bh_Version header <? 2) && (BIP0034Height chainParams <=? blockHeight) ||
  (bh_Version header <? 3) && (BIP0066Height chainParams <=? blockHeight) ||
  (bh_Version header <? 4) && (BIP0065Height chainParams <=? blockHeight).

Definition CheckBlockHeaderContext (header : BlockHeader) (prevNode : blockNode) (flags : Z) (index : blockIndex)
    (bestChain : chainView) (cs : CheckpointState) (skipCheckpoint : bool) : CheckpointState * result chain_error unit :=
  let blockHeight := i32 (node_height prevNode + 1) in
  match (if hasBehavior flags BFFastAdd then Ok tt else checkHeaderAgainstParent header prevNode) with
  | Err e => (cs, Err e)
  | Ok _ =>
      if versionTooOld header blockHeight
      then (cs, Err (BlockRuleError (RuleError ErrBlockVersionTooOld "new blocks with this version are no longer valid")))
      else if skipCheckpoint then (cs, Ok tt)
      else if negb (verifyCheckpoint blockHeight (BlockHash header))
      then (cs, Err (BlockRuleError (RuleError ErrBadCheckpoint "block does not match checkpoint hash")))
      else
        match findPreviousCheckpoint index bestChain cs with
        | (cs1, Err e) => (cs1, Err e)
        | (cs1, Ok None) => (cs1, Ok tt)
        | (cs1, Ok (Some checkpointNode)) =>
            if blockHeight <? node_height checkpointNode
            then (cs1, Err (BlockRuleError (RuleError ErrForkTooOld "block forks the main chain before the previous checkpoint")))
            else (cs1, Ok tt)
        end
  end.

(** ** Blocks *)

Definition deploymentActive (index : blockIndex) (caches : list thresholdStateCache) (prevNode : option blockNode) (id : Z)
    : list thresholdStateCache * result chain_error bool :=
  let '(caches1, r) := deploymentState chainParams index caches prevNode id in
  (caches1, state ← liftThreshold r; Ok (bool_decide (state = ThresholdActive))).

(** The checks on the transactions of a block, given the states of the two
    deployments they depend on. *)
Definition checkFinalAndHeight (block : Block) (prevNode : blockNode) (csvActive : bool) : result chain_error unit :=
  let blockHeight := i32 (node_height prevNode + 1) in
  let blockTime := if csvActive then CalcPastMedianTime prevNode else bh_Timestamp (Header block) in
  if negb (forallb (fun tx => IsFinalizedTransaction tx blockHeight blockTime) (Transactions block))
  then Err (BlockRuleError (RuleError ErrUnfinalizedTx "block contains unfinalized transaction"))
  else if ShouldHaveSerializedBlockHeight (Header block) && (BIP0034Height chainParams <=? blockHeight) then
    match Transactions block with
    | [] => Err (ChainPanic "index out of range")
    | coinbaseTx :: _ => liftRule (CheckSerializedHeight coinbaseTx blockHeight)
    end
  else Ok tt.

Definition checkWitnessAndWeight (block : Block) (segwitActive : bool) : result chain_error unit :=
  if segwitActive then
    _ ← liftRule (ValidateWitnessCommitment block);
    if MaxBlockWeight <? GetBlockWeight block
    then Err (BlockRuleError (RuleError ErrBlockWeightTooHigh "block's weight metric is too high"))
    else Ok tt
  else Ok tt.

Definition checkBlockContext (block : Block) (prevNode : blockNode) (flags : Z) (index : blockIndex)
    (bestChain : chainView) (st : ContextState) : ContextState * result chain_error unit :=
  match CheckBlockHeaderContext (Header block) prevNode flags index bestChain (ctx_checkpoint st) false with
  | (cs1, Err e) => (mkContextState cs1 (ctx_caches st), Err e)
  | (cs1, Ok _) =>
      if hasBehavior flags BFFastAdd then (mkContextState cs1 (ctx_caches st), Ok tt)
      else
        match deploymentActive index (ctx_caches st) (Some prevNode) DeploymentCSV with
        | (caches1, Err e) => (mkContextState cs1 caches1, Err e)
        | (caches1, Ok csvActive) =>
            match checkFinalAndHeight block prevNode csvActive with
            | Err e => (mkContextState cs1 caches1, Err e)
            | Ok _ =>
                match deploymentActive index caches1 (Some prevNode) DeploymentSegwit with
                | (caches2, Err e) => (mkContextState cs1 caches2, Err e)
                | (caches2, Ok segwitActive) =>
                    (mkContextState cs1 caches2, checkWitnessAndWeight block segwitActive)
                end
            end
        end
  end.

(** ** Relative lock times *)

(** The lock of one input added to those of the inputs before it; [mempoolHeight]
    stands for the block a transaction of the mempool is hoped for. *)
Definition lockInput (node : blockNode) (utxoView : UtxoViewpoint) (sequenceLock : SequenceLock) (txIn : TxIn)
    : result chain_error SequenceLock :=
  match LookupEntry utxoView (PreviousOutPoint txIn) with
  | None => Err (BlockRuleError (RuleError ErrMissingTxOut "output either does not exist or has already been spent"))
  | Some utxo =>
      let inputHeight := if blockHeight utxo =? unminedInputHeight then i32 (node_height node + 1) else blockHeight utxo in
      let sequenceNum := Sequence txIn in
      let relativeLock := Z.land sequenceNum 0xffff in
      if Z.land sequenceNum 0x80000000 =? 0x80000000 then Ok sequenceLock
      else if Z.land sequenceNum 0x400000 =? 0x400000 then
        let prevInputHeight := if i32 (inputHeight - 1) <? 0 then 0 else i32 (inputHeight - 1) in
        match Ancestor node prevInputHeight with
        | None => Err (ChainPanic "nil node")
        | Some blockNode =>
            let timeLock := i64 (CalcPastMedianTime blockNode + (Z.shiftl relativeLock 9 - 1)) in
            Ok (if Seconds sequenceLock <? timeLock then mkSequenceLock timeLock (lockHeight sequenceLock) else sequenceLock)
        end
      else
        let height := i32 (inputHeight + i32 (relativeLock - 1)) in
        Ok (if lockHeight sequenceLock <? height then mkSequenceLock (Seconds sequenceLock) height else sequenceLock)
  end.

Definition calcSequenceLock (index : blockIndex) (caches : list thresholdStateCache) (node : blockNode) (tx : MsgTx)
    (utxoView : UtxoViewpoint) (mempool : bool) : list thresholdStateCache * result chain_error SequenceLock :=
  let '(caches1, active) :=
    if mempool then (caches, Ok true) else deploymentActive index caches (nodeParent node) DeploymentCSV in
  (caches1,
   csvSoftforkActive ← active;
   let sequenceLockActive := (2 <=? u32 (Version tx)) && csvSoftforkActive in
   if negb sequenceLockActive || IsCoinBaseTx tx then Ok (mkSequenceLock (-1) (-1))
   else foldM (lockInput node utxoView) (mkSequenceLock (-1) (-1)) (TxIns tx)).
End context.

Definition LockTimeToSequence (isSeconds : bool) (locktime : Z) : Z :=
  if negb isSeconds then locktime else Z.lor 0x400000 (Z.shiftr locktime 9).
