(* ===== verification/CheckConnect.v ===== *)
(** * The rules a block must satisfy to be connected

    The last part of src/blockchain/validate.go with src/blockchain/scriptval.go,
    src/blockchain/weight.go, src/blockchain/validation_obtc_replay.go and the hash
    cache of src/txscript/hashcache.go: [checkBIP0030], the cost in signature
    operations, the checks of inputs and fees, relative lock times, the flags the
    scripts of a block are run with, running them, [checkConnectBlock] and
    [CheckConnectBlockTemplate].

    The script engine is that of EngineExec.v. [Validate] runs the inputs on several
    goroutines and reports one of the failures; here it is the first. The signature
    cache, the hash cache and the deployment caches are what the chain holds when a
    block is checked; what a check adds to them is dropped here, since it changes no
    later answer: EngineCache.v shows that of the signature cache and Threshold.v
    of the deployments. *)

From S2P Require Import Prelude ChainParams Sha256 Wire Encode Script ScriptNum Standard SigHash Signature Taproot Engine Opcodes EngineExec Block Compress Bucket IndexDB Ledger UtxoView WorkMath ChainIO ChainStore BlockNode Difficulty Threshold UtxoCache ChainView Text ReapRules Merkle ChainState BlockSanity BlockContext.

(** ** The hash cache *)

Definition HashCache : Type := gmap (list Z) TxSigHashes.

Definition ContainsHashes (h : HashCache) (txid : list Z) : bool := bool_decide (is_Some (h !! txid)).
Definition GetSigHashes (h : HashCache) (txid : list Z) : option TxSigHashes := h !! txid.
Definition PurgeSigHashes (h : HashCache) (txid : list Z) : HashCache := delete txid h.
Definition AddSigHashes (h : HashCache) (tx : MsgTx) (inputFetcher : PrevOutputFetcher) : result engine_error HashCache :=
  sigHashes ← NewTxSigHashes tx inputFetcher;
  Ok (<[TxHash tx := sigHashes]> h).

(** ** Signature operation cost *)

Definition p2shSigOps (utxoView : UtxoViewpoint) (totalSigOps : Z) (txIn : TxIn) : result rule_error Z :=
  match LookupEntry utxoView (PreviousOutPoint txIn) with
  | None => Err (RuleError ErrMissingTxOut "output either does not exist or has already been spent")
  | Some utxo =>
      if IsSpent utxo then Err (RuleError ErrMissingTxOut "output either does not exist or has already been spent")
      else if negb (isScriptHashScript (pkScript utxo)) then Ok totalSigOps
      else
        let total := i64 (totalSigOps + GetPreciseSigOpCount (SignatureScript txIn) (pkScript utxo)) in
        if total <? totalSigOps
        then Err (RuleError ErrTooManySigOps "the public key script contains too many signature operations - overflow")
        else Ok total
  end.

Definition CountP2SHSigOps (tx : MsgTx) (isCoinBaseTx : bool) (utxoView : UtxoViewpoint) : result rule_error Z :=
  if isCoinBaseTx then Ok 0 else foldM (p2shSigOps utxoView) 0 (TxIns tx).

Definition witnessSigOps (utxoView : UtxoViewpoint) (numSigOps : Z) (txIn : TxIn) : result rule_error Z :=
  match LookupEntry utxoView (PreviousOutPoint txIn) with
  | None => Err (RuleError ErrMissingTxOut "output either does not exist or has already been spent")
  | Some utxo =>
      if IsSpent utxo then Err (RuleError ErrMissingTxOut "output either does not exist or has already been spent")
      else Ok (i64 (numSigOps + GetWitnessSigOpCount (SignatureScript txIn) (pkScript utxo) (Witness txIn)))
  end.

(** An error of [CountP2SHSigOps] is reported as a cost of zero. *)
Definition GetSigOpCost (tx : MsgTx) (isCoinBaseTx : bool) (utxoView : UtxoViewpoint) (bip16 segWit : bool)
    : result rule_error Z :=
  let legacy := i64 (CountSigOps tx * WitnessScaleFactor) in
  match (if bip16 then CountP2SHSigOps tx isCoinBaseTx utxoView else Ok 0) with
  | Err _ => Ok 0
  | Ok numP2SHSigOps =>
      let numSigOps := i64 (legacy + i64 (numP2SHSigOps * WitnessScaleFactor)) in
      if segWit && negb isCoinBaseTx then foldM (witnessSigOps utxoView) numSigOps (TxIns tx)
      else Ok numSigOps
  end.

Definition addSigOpCost (view : UtxoViewpoint) (bip16 segWit : bool) (totalSigOpCost : Z) (itx : nat * MsgTx)
    : result rule_error Z :=
  sigOpCost ← GetSigOpCost itx.2 (itx.1 =? 0)%nat view bip16 segWit;
  let total := i64 (totalSigOpCost + sigOpCost) in
  if (total <? totalSigOpCost) || (MaxBlockSigOpsCost <? total)
  then Err (RuleError ErrTooManySigOps "block contains too many signature operations")
  else Ok total.

(** ** Inputs and fees *)

Definition connectInputs (height : Z) (chainParams : Params) (st : Z * UtxoViewpoint) (tx : MsgTx)
    : result chain_error (Z * UtxoViewpoint) :=
  let '(totalFees, view) := st in
  txFee ← liftRule (CheckTransactionInputs tx height view chainParams);
  let total := i64 (totalFees + txFee) in
  if total <? totalFees
  then Err (BlockRuleError (RuleError ErrBadFees "total fees for block overflows accumulator"))
  else
    '(view1, _) ← liftView (connectTransaction view tx height []);
    Ok (total, view1).

(** ** Duplicate transactions *)

Definition blockOutPoints (block : Block) : list OutPoint :=
  concat (map (fun tx => map (fun i => txOutPoint (TxHash tx) i) (seq 0 (length (TxOuts tx)))) (Transactions block)).

Definition block91842Hash : list Z :=
  [0xec; 0xca; 0xe0; 0x00; 0xe3; 0xc8; 0xe4; 0xe0; 0x93; 0x93; 0x63; 0x60; 0x43; 0x1f; 0x3b; 0x76;
   0x03; 0xc5; 0x63; 0xc1; 0xff; 0x61; 0x81; 0x39; 0x0a; 0x4d; 0x0a; 0x00; 0x00; 0x00; 0x00; 0x00].
Definition block91880Hash : list Z :=
  [0x21; 0xd7; 0x7c; 0xcb; 0x4c; 0x08; 0x38; 0x6a; 0x04; 0xac; 0x01; 0x96; 0xae; 0x10; 0xf6; 0xa1;
   0xd2; 0xc2; 0xa3; 0x77; 0x55; 0x8c; 0xa1; 0x90; 0xf1; 0x43; 0x07; 0x00; 0x00; 0x00; 0x00; 0x00].

Definition isBIP0030Node (node : blockNode) : bool :=
  (node_height node =? 91842) && bool_decide (node_hash node = block91842Hash) ||
  (node_height node =? 91880) && bool_decide (node_hash node = block91880Hash).

(** ** Script flags *)

Definition ApplyOBTCReplayProtectionScriptFlag (base : Z) (params : Params) (height : Z) : Z :=
  if IsOBTCReplayProtectionActive params height then Z.lor base ScriptVerifyOBTCReplayProtection else base.

Definition Bip16Activation : Z := 1333238400.

(** The flags of a block, given which deployments are active. *)
Definition blockScriptFlags (chainParams : Params) (header : BlockHeader) (height : Z)
    (enforceBIP0016 csvActive enforceSegWit taprootActive : bool) : Z :=
  let flag (b : bool) f := if b then f else 0 in
  ApplyOBTCReplayProtectionScriptFlag
    (Z.lor (flag enforceBIP0016 ScriptBip16)
    (Z.lor (flag ((3 <=? bh_Version header) && (BIP0066Height chainParams <=? height)) ScriptVerifyDERSignatures)
    (Z.lor (flag ((4 <=? bh_Version header) && (BIP0065Height chainParams <=? height)) ScriptVerifyCheckLockTimeVerify)
    (Z.lor (flag csvActive ScriptVerifyCheckSequenceVerify)
    (Z.lor (flag enforceSegWit (Z.lor ScriptVerifyWitness ScriptStrictMultiSig))
           (flag taprootActive ScriptVerifyTaproot))))))
    chainParams height.

Section connect.
Context `{Curve : Secp256k1} `{Hash160 : Ripemd160} `{Picks : MapPick}.

(** ** Running scripts *)

(** One item of [validateHandler]. A panic of the engine takes the node down. *)
Definition validateInput (utxoView : UtxoViewpoint) (flags : Z) (sigCache : option SigCache)
    (sigHashes : MsgTx -> option TxSigHashes) (tx : MsgTx) (txInIndex : nat) (txIn : TxIn) : result rule_error unit :=
  match LookupEntry utxoView (PreviousOutPoint txIn) with
  | None => Err (RuleError ErrMissingTxOut "unable to find unspent output")
  | Some utxo =>
      match NewEngine (pkScript utxo) tx (Z.of_nat txInIndex) flags sigCache (sigHashes tx) (amount utxo)
              (FetchPrevOutput utxoView) with
      | Err (EnginePanic what) => Err (panicRule what)
      | Err _ => Err (RuleError ErrScriptMalformed "failed to parse input")
      | Ok (e, vm) =>
          match Execute e vm with
          | Some (Ok _, _) => Ok tt
          | Some (Err (EnginePanic what), _) => Err (panicRule what)
          | Some (Err _, _) => Err (RuleError ErrScriptValidation "failed to validate input")
          | None => Err (panicRule "script execution does not end")
          end
      end
  end.

(** The partial hashes of a transaction are added to the cache when it is not
    there yet. *)
Definition cacheHashes (utxoView : UtxoViewpoint) (hashCache : option HashCache) (tx : MsgTx)
    : result rule_error (option HashCache) :=
  match hashCache with
  | None => Ok None
  | Some h =>
      if ContainsHashes h (TxHash tx) then Ok (Some h)
      else match AddSigHashes h tx (FetchPrevOutput utxoView) with
           | Ok h' => Ok (Some h')
           | Err (EnginePanic what) => Err (panicRule what)
           | Err _ => Err (panicRule "partial hashes")
           end
  end.

(** The partial hashes the inputs of a transaction are validated with. *)
Definition txSigHashes (utxoView : UtxoViewpoint) (segwitActive : bool) (hashCache : option HashCache) (tx : MsgTx)
    : option TxSigHashes :=
  if segwitActive && HasWitness tx then
    match hashCache with
    | Some h => GetSigHashes h (TxHash tx)
    | None => match NewTxSigHashes tx (FetchPrevOutput utxoView) with Ok sh => Some sh | Err _ => None end
    end
  else None.

Definition segwitFlag (flags : Z) : bool := Z.land flags ScriptVerifyWitness =? ScriptVerifyWitness.

(** [ValidateTransactionScripts], with the hash cache it leaves. *)
Definition validateTransactionScripts (tx : MsgTx) (utxoView : UtxoViewpoint) (flags : Z) (sigCache : option SigCache)
    (hashCache : HashCache) : HashCache * result rule_error unit :=
  if isLikelyReapTx tx then (hashCache, Ok tt)
  else
    let segwitActive := segwitFlag flags in
    match (if segwitActive && HasWitness tx then cacheHashes utxoView (Some hashCache) tx else Ok (Some hashCache)) with
    | Err e => (hashCache, Err e)
    | Ok h =>
        (default hashCache h,
         ValidateTransactionScripts (validateInput utxoView flags sigCache (txSigHashes utxoView segwitActive h)) tx)
    end.

(** [checkBlockScripts], with the hash cache it leaves. *)
Definition runBlockScripts (block : Block) (utxoView : UtxoViewpoint) (scriptFlags : Z) (sigCache : option SigCache)
    (hashCache : option HashCache) : option HashCache * result rule_error unit :=
  let segwitActive := segwitFlag scriptFlags in
  match foldM (fun h tx => if segwitActive && HasWitness tx && negb (isLikelyReapTx tx) then cacheHashes utxoView h tx else Ok h)
          hashCache (Transactions block) with
  | Err e => (hashCache, Err e)
  | Ok h =>
      match checkBlockScripts (validateInput utxoView scriptFlags sigCache (txSigHashes utxoView segwitActive h)) block with
      | Err e => (h, Err e)
      | Ok _ =>
          (match h with
           | Some h' =>
               Some (if segwitActive
                     then foldl (fun h tx => if HasWitness tx then PurgeSigHashes h (TxHash tx) else h) h' (Transactions block)
                     else h')
           | None => None
           end, Ok tt)
      end
  end.

(** ** Connecting a block to a view *)

Context {codec : KeyCodec} {ix : Indexer}.
Context (chainParams : Params) (checkpoints : list Checkpoint) (prefixSource : ix_state -> option ReapPrefixSource).
Context (sigCache : option SigCache) (hashCache : option HashCache) (caches : list thresholdStateCache).

(** The view with what the outputs of the block had before, and the outpoints that
    had nothing: the view then has a nil entry for them. *)
Definition checkBIP0030 (b : BlockChain) (block : Block) (view : UtxoViewpoint)
    : utxoCache * result chain_error (UtxoViewpoint * list OutPoint) :=
  let fetch := blockOutPoints block in
  match fetchUtxos (st_chain (bc_store b)) (bc_cache b) view fetch with
  | Err e => (bc_cache b, Err (ChainIOError e))
  | Ok (view1, s1) =>
      (s1,
       if existsb (fun op => match LookupEntry view1 op with Some utxo => negb (IsSpent utxo) | None => false end) fetch
       then Err (BlockRuleError (RuleError ErrOverwriteTx "tried to overwrite transaction that is not fully spent"))
       else Ok (view1, filter (fun op => entries view1 !! op = None) fetch))
  end.

(** [fetchInputUtxos] on a view with nil entries for [nils], which it takes to be
    loaded already. *)
Definition fetchInputUtxosBut (nils : list OutPoint) (db : ChainDB) (s : utxoCache) (view : UtxoViewpoint) (block : Block)
    : result chainio_error (UtxoViewpoint * utxoCache) :=
  let '(view1, needed) := findInputsToFetch view block in
  fetchUtxosFromCache db s view1 (filter (fun op => op ∉ nils) needed).

(** Sequence locks of every transaction, once the deployment is active. *)
Definition checkSequenceLocks (index : blockIndex) (node parent : blockNode) (view : UtxoViewpoint) (block : Block)
    : result chain_error unit :=
  let medianTime := CalcPastMedianTime parent in
  foldM (fun _ tx =>
           sequenceLock ← (calcSequenceLock chainParams index caches node tx view false).2;
           if SequenceLockActive sequenceLock (node_height node) medianTime then Ok tt
           else Err (BlockRuleError (RuleError ErrUnfinalizedTx "block contains transaction whose input sequence locks are not met")))
    tt (Transactions block).

(** The checks after the inputs are loaded: costs, inputs and fees, the coinbase
    value, lock times and scripts. *)
Definition checkLoadedBlock (b : BlockChain) (view : UtxoViewpoint) (node : blockNode) (block : Block)
    : result chain_error UtxoViewpoint :=
  let index := bc_nodes b in
  let height := node_height node in
  let active id := (deploymentActive chainParams index caches (nodeParent node) id).2 in
  let enforceBIP0016 := Bip16Activation <=? node_timestamp node in
  enforceSegWit ← active DeploymentSegwit;
  _ ← liftRule (foldM (addSigOpCost view enforceBIP0016 enforceSegWit) 0
                  (zip (seq 0 (length (Transactions block))) (Transactions block)));
  '(totalFees, view1) ← foldM (connectInputs height chainParams) (0, view) (Transactions block);
  match Transactions block with
  | [] => Err (ChainPanic "index out of range")
  | coinbase :: _ =>
      if i64 (CalcBlockSubsidy height chainParams + totalFees) <? totalOut coinbase
      then Err (BlockRuleError (RuleError ErrBadCoinbaseValue "coinbase transaction for block pays more than expected value"))
      else
        csvActive ← active DeploymentCSV;
        _ ← (if csvActive then
               match nodeParent node with
               | None => Err (ChainPanic "nil node")
               | Some parent => checkSequenceLocks index node parent view1 block
               end
             else Ok tt);
        taprootActive ← active DeploymentTaproot;
        let scriptFlags := blockScriptFlags chainParams (Header block) height enforceBIP0016 csvActive enforceSegWit taprootActive in
        let runScripts := match LatestCheckpoint checkpoints with Some c => negb (height <=? ckpt_Height c) | None => true end in
        _ ← (if runScripts then liftRule (runBlockScripts block view1 scriptFlags sigCache hashCache).2 else Ok tt);
        Ok (SetBestHash view1 (node_hash node))
  end.

Definition checkConnectBlock (b : BlockChain) (view : UtxoViewpoint) (node : blockNode) (block : Block)
    : utxoCache * result chain_error UtxoViewpoint :=
  if bool_decide (node_hash node = GenesisHash chainParams)
  then (bc_cache b, Err (BlockRuleError (RuleError ErrMissingTxOut "the coinbase for the genesis block is not spendable")))
  else if negb (bool_decide (bestHash view = bh_PrevBlock (Header block)))
  then (bc_cache b, Err (ChainAssert "inconsistent view when checking block connection"))
  else
    let '(s1, r) :=
      if negb (isBIP0030Node node) && (node_height node <? BIP0034Height chainParams)
      then checkBIP0030 b block view else (bc_cache b, Ok (view, [])) in
    match r with
    | Err e => (s1, Err e)
    | Ok (view1, nils) =>
        match checkReapBlockHardening block (node_height node) chainParams with
        | Err e => (s1, Err (BlockRuleError e))
        | Ok _ =>
            match fetchInputUtxosBut nils (st_chain (bc_store b)) s1 view1 block with
            | Err e => (s1, Err (ChainIOError e))
            | Ok (view2, s2) =>
                (s2,
                 _ ← (if bool_decide (node_hash <$> nodeParent node = node_hash <$> viewTip (bc_best b))
                      then liftRule (checkReapGlobalPrefix block (node_height node)
                                       (prefixSource (st_index (bc_store b))) chainParams)
                      else Ok tt);
                 checkLoadedBlock b view2 node block)
            end
        end
    end.

(** ** Block templates *)

Definition CheckConnectBlockTemplate (adjustedTime : Z) (cs : CheckpointState) (b : BlockChain) (block : Block)
    : utxoCache * result chain_error unit :=
  match viewTip (bc_best b) with
  | None => (bc_cache b, Err (ChainPanic "tip"))
  | Some tip =>
      let header := Header block in
      if negb (bool_decide (node_hash tip = bh_PrevBlock header))
      then (bc_cache b, Err (BlockRuleError (RuleError ErrPrevBlockNotBest "previous block must be the current chain tip")))
      else
        match checkBlockSanity block (PowLimit chainParams) adjustedTime BFNoPoWCheck with
        | Err e => (bc_cache b, Err (BlockRuleError e))
        | Ok _ =>
            match (checkBlockContext chainParams checkpoints block tip BFNoPoWCheck (bc_nodes b) (bc_best b)
                     (mkContextState cs caches)).2 with
            | Err e => (bc_cache b, Err e)
            | Ok _ =>
                let view := SetBestHash NewUtxoViewpoint (node_hash tip) in
                let '(s1, r) := checkConnectBlock b view (newBlockNode header (Some tip)) block in
                (s1, _ ← r; Ok tt)
            end
        end
  end.
End connect.
