(* ===== verification/ConnectProps.v ===== *)
(** * What the checks of a block guarantee

    The rules of CheckConnect.v against the ledger. [checkConnectBlock] satisfies
    what the chain needs of it ([ChecksBlocks] of ChainVerify.v), so the theorems on
    reorganisations hold of the real rules. A block accepted on top of the tip
    applies to the ledger, spends only coins whose scripts ran or that expired, and
    makes no more coins than the subsidy.

    The last is false of a view that already has entries for outputs of the block,
    as after detaching a block or after the check for duplicate transactions. *)

From S2P Require Import Prelude ChainParams Sha256 Wire Encode Script ScriptNum Standard SigHash Signature Taproot Engine Opcodes EngineExec Block Compress Bucket IndexDB Ledger UtxoView WorkMath ChainIO ChainStore BlockNode Difficulty Threshold ReapAgree ReapProps UtxoCache ChainView Text ReapRules Merkle ChainState BlockSanity BlockContext CheckConnect ChainInv ChainVerify.

Lemma liftRule_ok {A} (r : result rule_error A) a : liftRule r = Ok a -> r = Ok a.
Proof. destruct r; cbn; congruence. Qed.

Lemma liftView_ok {A} (r : result view_error A) a : liftView r = Ok a -> r = Ok a.
Proof. destruct r; cbn; congruence. Qed.

Lemma bind_ok {E A B} (r : result E A) (k : A -> result E B) b :
  (x ← r; k x) = Ok b -> exists a, r = Ok a /\ k a = Ok b.
Proof. destruct r as [a|e]; cbn [mbind result_bind]; [by exists a|done]. Qed.

(** ** One transaction *)

Lemma connectInputs_ok height params fees view tx fees' view' :
  connectInputs height params (fees, view) tx = Ok (fees', view') ->
  exists fee stxos, CheckTransactionInputs tx height view params = Ok fee /\
    fees' = i64 (fees + fee) /\ fees <= fees' /\ connectTransaction view tx height [] = Ok (view', stxos).
Proof.
  unfold connectInputs. intros (fee & Hf%liftRule_ok & H)%bind_ok.
  destruct (Z.ltb_spec (i64 (fees + fee)) fees); [done|].
  apply bind_ok in H as ([view1 stxos] & Hc%liftView_ok & H). injection H as <- <-. by exists fee, stxos.
Qed.

Lemma connectInputs_overlay height params txs v fees view u fees' view' u' cs :
  overlay (createdBy height txs) v view u ->
  foldM (connectInputs height params) (fees, view) txs = Ok (fees', view') ->
  applyTxs height u txs = Some (u', cs) -> shows v view' u'.
Proof.
  revert fees view u cs; induction txs as [|tx txs IH]; intros fees view u cs Ho; cbn [foldM].
  { intros [= <- <-] H. cbn in H. simplify_eq. revert Ho. apply overlay_weaken.
    intros op (tx & Hin & _). by apply not_elem_of_nil in Hin. }
  destruct (connectInputs height params (fees, view) tx) as [[fees1 view1]|] eqn:E; result_simpl; [|done].
  intros HM H. apply applyTxs_cons in H as (u1 & cs1 & cs2 & H1 & H2 & ->).
  apply connectInputs_ok in E as (fee & stxos & _ & _ & _ & Hc). apply (IH fees1 view1 u1 cs2); [|done|done].
  by apply (connectTransaction_overlay height tx txs v view u [] view1 stxos u1 cs1).
Qed.

(** ** The outputs of a block *)

Lemma elem_of_blockOutPoints block op :
  op ∈ blockOutPoints block -> wf_outpoint op /\ exists tx, tx ∈ Transactions block /\ Hash op = TxHash tx.
Proof.
  unfold blockOutPoints. rewrite list_elem_of_In, in_concat. intros (l & Hl & Hop).
  apply list_elem_of_In, list_elem_of_fmap in Hl as (tx & -> & Htx). rewrite <- list_elem_of_In in Hop.
  apply list_elem_of_fmap in Hop as (i & -> & _). split; [|by exists tx].
  split; [apply length_TxHash|]. cbn. unfold u32. apply Z.mod_pos_bound. lia.
Qed.

Section reading.
Context {codec : KeyCodec} {codec_ok : RecoversKeys}.

(** The check for duplicates leaves the coins a view shows as they are. *)
Lemma fetchUtxos_shows db base s v view u ops :
  stored base (utxoSetBucket db) -> standsFor base s v -> Forall wf_outpoint ops -> UtxoCache.shows v view u ->
  exists view' s', fetchUtxos db s view ops = Ok (view', s') /\ standsFor base s' v /\ UtxoCache.shows v view' u.
Proof using codec_ok.
  intros Hs Hr Hwf Ho. unfold fetchUtxos. set (missing := filter _ ops).
  assert (Hm : forall op, op ∈ missing -> entries view !! op = None /\ op ∈ ops).
  { intros op [H1 H2]%list_elem_of_filter. done. }
  destruct (fetchUtxosFromCache_fills db base s v view missing Hs Hr) as (view' & s' & -> & Hr' & _ & Hfill & Hkeep).
  { apply Forall_forall. intros op Hop. rewrite Forall_forall in Hwf. by apply Hwf, Hm. }
  exists view', s'. split; [done|]. split; [done|]. apply (filled_overlay _ _ view _ _ missing); try done.
  intros op Hop. left. by apply Hm.
Qed.

Lemma fetchInputUtxosBut_overlay nils db base s v view u block :
  stored base (utxoSetBucket db) -> standsFor base s v -> UtxoCache.shows v view u ->
  Forall (fun tx => Forall wf_outpoint (prevOuts tx)) (Transactions block) ->
  exists view1 s1, fetchInputUtxosBut nils db s view block = Ok (view1, s1) /\ standsFor base s1 v /\
    overlay (createdBy (Height block) (Transactions block)) v view1 u.
Proof using codec_ok.
  intros Hs Hr Ho Hin. apply (overlay_weaken _ (blockCreates block)) in Ho; [|done].
  destruct (findInputsToFetch_collects block u v Hin view Ho) as [Ho1 _ Hmiss Hwf]. unfold fetchInputUtxosBut.
  destruct (findInputsToFetch view block) as [view1 needed]. cbn [fst snd] in *. set (ops := filter _ needed).
  assert (Hops : forall op, op ∈ ops -> op ∈ needed) by (by intros op [_ H]%list_elem_of_filter).
  destruct (fetchUtxosFromCache_fills db base s v view1 ops Hs Hr) as (view2 & s2 & -> & Hr2 & _ & Hfill & Hkeep).
  { apply Forall_forall. intros op Hop. rewrite Forall_forall in Hwf. by apply Hwf, Hops. }
  exists view2, s2. split; [done|]. split; [done|]. apply (filled_overlay _ _ view1 _ _ ops); try done.
  intros op Hop. by apply Hmiss, Hops.
Qed.
End reading.

(** ** The checks read only through the cache *)

Section checks.
Context `{Curve : Secp256k1} `{Hash160 : Ripemd160} `{Picks : MapPick}.
Context {codec : KeyCodec} {codec_ok : RecoversKeys} {ix : Indexer}.
Context (chainParams : Params) (checkpoints : list Checkpoint) (prefixSource : ix_state -> option ReapPrefixSource).
Context (sigCache : option SigCache) (hashCache : option HashCache) (caches : list thresholdStateCache).

#[local] Abbreviation checkLoaded := (checkLoadedBlock chainParams checkpoints sigCache hashCache caches).
#[local] Abbreviation check := (checkConnectBlock chainParams checkpoints prefixSource sigCache hashCache caches).
#[local] Abbreviation activeAt b node id := (deploymentActive chainParams (bc_nodes b) caches (nodeParent node) id).2.

(** What the checks after loading establish. *)
Record loaded_ok (b : BlockChain) (view : UtxoViewpoint) (node : blockNode) (block : Block) (view' : UtxoViewpoint)
    (fees : Z) (view1 : UtxoViewpoint) (segwit csv taproot : bool) : Prop := {
  lk_segwit : activeAt b node DeploymentSegwit = Ok segwit;
  lk_csv : activeAt b node DeploymentCSV = Ok csv;
  lk_taproot : activeAt b node DeploymentTaproot = Ok taproot;
  lk_inputs : foldM (connectInputs (node_height node) chainParams) (0, view) (Transactions block) = Ok (fees, view1);
  lk_coinbase : match Transactions block with
                | [] => False
                | cb :: _ => totalOut cb <= i64 (CalcBlockSubsidy (node_height node) chainParams + fees)
                end;
  lk_locks : csv = true -> exists parent, nodeParent node = Some parent /\
    checkSequenceLocks chainParams caches (bc_nodes b) node parent view1 block = Ok tt;
  lk_scripts : (forall c, LatestCheckpoint checkpoints = Some c -> ckpt_Height c < node_height node) ->
    (runBlockScripts block view1
       (blockScriptFlags chainParams (Header block) (node_height node) (Bip16Activation <=? node_timestamp node)
          csv segwit taproot) sigCache hashCache).2 = Ok tt;
  lk_view : view' = SetBestHash view1 (node_hash node) }.

Lemma checkLoadedBlock_ok b view node block view' :
  checkLoaded b view node block = Ok view' ->
  exists fees view1 segwit csv taproot, loaded_ok b view node block view' fees view1 segwit csv taproot.
Proof.
  unfold checkLoadedBlock. intros (segwit & Hsw & H)%bind_ok. apply bind_ok in H as (cost & _ & H).
  apply bind_ok in H as ([fees view1] & Hin & H). destruct (Transactions block) as [|cb rest] eqn:Et; [done|].
  destruct (Z.ltb_spec (i64 (CalcBlockSubsidy (node_height node) chainParams + fees)) (totalOut cb)) as [|Hcb]; [done|].
  apply bind_ok in H as (csv & Hcsv & H). apply bind_ok in H as ([] & Hl & H).
  apply bind_ok in H as (taproot & Htr & H). apply bind_ok in H as ([] & Hs & H). injection H as <-.
  exists fees, view1, segwit, csv, taproot. split; rewrite ?Et; try done.
  - intros ->. destruct (nodeParent node) as [parent|]; [|done]. by exists parent.
  - intros Hc. revert Hs. destruct (LatestCheckpoint checkpoints) as [c|].
    + specialize (Hc c eq_refl). rewrite (proj2 (Z.leb_gt _ _)) by lia. cbn [negb]. intros H%liftRule_ok. done.
    + intros H%liftRule_ok. done.
Qed.

Lemma shows_coins v view : UtxoCache.shows v view (coins v view).
Proof. done. Qed.

Lemma checkBIP0030_reads b block view base v u :
  stored base (utxoSetBucket (chainDB b)) -> standsFor base (bc_cache b) v -> UtxoCache.shows v view u ->
  standsFor base (checkBIP0030 b block view).1 v /\
  forall view1 nils, (checkBIP0030 b block view).2 = Ok (view1, nils) -> UtxoCache.shows v view1 u.
Proof using codec_ok.
  intros Hs Hr Ho. unfold checkBIP0030. fold (chainDB b).
  destruct (fetchUtxos_shows (chainDB b) base (bc_cache b) v view u (blockOutPoints block) Hs Hr) as (view1 & s1 & -> & Hr1 & Ho1).
  { apply Forall_forall. intros op Hop. by apply elem_of_blockOutPoints in Hop as [? _]. }
  { done. }
  cbn [fst snd]. split; [done|]. intros view2 nils. destruct (existsb _ _); [done|]. by intros [= <- <-].
Qed.

(** An accepted block was loaded into a view that shows the same ledger. *)
Record accepted (b : BlockChain) (view : UtxoViewpoint) (node : blockNode) (block : Block) (base v u : utxo_set)
    (view' view0 view2 : UtxoViewpoint) (nils : list OutPoint) (s1 s2 : utxoCache) : Prop := {
  acc_fetch : fetchInputUtxosBut nils (chainDB b) s1 view0 block = Ok (view2, s2);
  acc_first : BIP0034Height chainParams <= node_height node -> view0 = view /\ nils = [] /\ s1 = bc_cache b;
  acc_cache : standsFor base s1 v;
  acc_shows : UtxoCache.shows v view0 u;
  acc_overlay : overlay (createdBy (Height block) (Transactions block)) v view2 u;
  acc_parent : bestHash view = bh_PrevBlock (Header block);
  acc_hardening : checkReapBlockHardening block (node_height node) chainParams = Ok tt;
  acc_prefix : node_hash <$> nodeParent node = node_hash <$> viewTip (bc_best b) ->
    checkReapGlobalPrefix block (node_height node) (prefixSource (st_index (bc_store b))) chainParams = Ok tt;
  acc_loaded : checkLoaded b view2 node block = Ok view' }.

Lemma checkConnectBlock_reads b view node block base v u :
  stored base (utxoSetBucket (chainDB b)) -> standsFor base (bc_cache b) v -> UtxoCache.shows v view u ->
  Forall (fun tx => Forall wf_outpoint (prevOuts tx)) (Transactions block) ->
  standsFor base (check b view node block).1 v /\
  forall view', (check b view node block).2 = Ok view' ->
  exists view0 view2 nils s1 s2, accepted b view node block base v u view' view0 view2 nils s1 s2.
Proof using codec_ok.
  intros Hs Hr Ho Hin. unfold checkConnectBlock. destruct (bool_decide (node_hash node = _)); [done|].
  destruct (bool_decide (bestHash view = _)) eqn:Eb; [|done]. apply bool_decide_eq_true in Eb. cbn [negb].
  set (bip30 := if negb (isBIP0030Node node) && _ then _ else _). destruct bip30 as [s1 r] eqn:E30.
  assert (H30 : standsFor base s1 v /\ forall view1 nils, r = Ok (view1, nils) ->
            UtxoCache.shows v view1 u /\ (BIP0034Height chainParams <= node_height node -> view1 = view /\ nils = [] /\ s1 = bc_cache b)).
  { revert E30. unfold bip30. destruct (Z.ltb_spec (node_height node) (BIP0034Height chainParams)); destruct (negb _); cbn [andb].
    1: { pose proof (checkBIP0030_reads b block view base v u Hs Hr Ho) as [H1 H2]. intros E. rewrite E in H1, H2. cbn [fst snd] in *.
         split; [done|]. intros view1 nils Hk. split; [by apply (H2 _ nils)|lia]. }
    all: intros [= <- <-]; (split; [done|]); intros view1 nils [= <- <-]; done. }
  destruct H30 as [Hr1 H30]. destruct r as [[view0 nils]|]; [|done]. destruct (H30 view0 nils eq_refl) as [Ho0 Hfirst].
  destruct (checkReapBlockHardening block (node_height node) chainParams) as [[]|] eqn:Eh; [|done]. fold (chainDB b).
  destruct (fetchInputUtxosBut_overlay nils (chainDB b) base s1 v view0 u block Hs Hr1 Ho0 Hin) as (view2 & s2 & Ef & Hr2 & Ho2).
  rewrite Ef. cbn [fst snd]. split; [done|]. intros view' ([] & Hp & Hl)%bind_ok.
  exists view0, view2, nils, s1, s2. split; try done. intros Ht. rewrite bool_decide_true in Hp by done.
  by apply liftRule_ok in Hp.
Qed.

#[export] Instance checkConnectBlock_checks : ChecksBlocks check.
Proof using codec_ok.
  split.
  - intros b view n block base v Hs Hr Hin.
    exact (proj1 (checkConnectBlock_reads b view n block base v _ Hs Hr (shows_coins v view) Hin)).
  - intros b view n block base v u u' cs s view' Hh Hs Hr Ho _ _ Hin Happ E.
    destruct (checkConnectBlock_reads b view n block base v u Hs Hr Ho Hin) as [_ H]. rewrite E in H.
    destruct (H view' eq_refl) as (view0 & view2 & nils & s1 & s2 & Hacc).
    destruct (checkLoadedBlock_ok _ _ _ _ _ (acc_loaded _ _ _ _ _ _ _ _ _ _ _ _ _ Hacc)) as (fees & view1 & sw & csv & tr & Hl).
    rewrite (lk_view _ _ _ _ _ _ _ _ _ _ Hl). rewrite Hh in Happ. pose proof (acc_overlay _ _ _ _ _ _ _ _ _ _ _ _ _ Hacc) as Ho2.
    rewrite Hh in Ho2. exact (connectInputs_overlay _ _ _ _ _ _ _ _ _ _ _ Ho2 (lk_inputs _ _ _ _ _ _ _ _ _ _ Hl) Happ).
Qed.
End checks.

(** ** Spending before creating

    A transaction of an accepted block spends nothing that it or a later one of the
    block makes: its inputs were asked from the cache before any output of the
    block was put in the view. *)

(** No entry stands for an output of a transaction at position [p] or later. *)
Definition clearFrom (txs : list MsgTx) (p : nat) (view : UtxoViewpoint) : Prop :=
  forall k tx op, txs !! k = Some tx -> (p <= k)%nat -> Hash op = TxHash tx -> entries view !! op = None.

Section walk.
Context (block : Block) (Hids : NoDup (map TxHash (Transactions block))).

#[local] Abbreviation txs := (Transactions block).

Lemma sameHash_sameTx k k' tx tx' :
  txs !! k = Some tx -> txs !! k' = Some tx' -> TxHash tx = TxHash tx' -> k = k'.
Proof using Hids.
  intros Hk Hk' E. apply (NoDup_lookup (map TxHash txs) k k' (TxHash tx) Hids).
  - change (map TxHash txs) with (TxHash <$> txs). by rewrite list_lookup_fmap, Hk.
  - change (map TxHash txs) with (TxHash <$> txs). rewrite list_lookup_fmap, Hk'. cbn. by rewrite E.
Qed.

Definition asked (needed : list OutPoint) (p : nat) (op : OutPoint) : Prop :=
  forall k tx, txs !! k = Some tx -> (p <= k)%nat -> Hash op = TxHash tx -> op ∈ needed.

Lemma inputToFetch_asks i st op :
  clearFrom txs (S i) st.1 ->
  clearFrom txs (S i) (inputToFetch block i st op).1 /\ (forall o, o ∈ st.2 -> o ∈ (inputToFetch block i st op).2) /\
  asked (inputToFetch block i st op).2 (S i) op.
Proof using Hids.
  destruct st as [view needed]. cbn [fst snd]. intros Hc.
  assert (Hfetch : let st' := match entries view !! op with Some _ => (view, needed) | None => (view, needed ++ [op]) end in
            clearFrom txs (S i) st'.1 /\ (forall o, o ∈ needed -> o ∈ st'.2) /\ asked st'.2 (S i) op).
  { destruct (entries view !! op) eqn:E; cbn [fst snd].
    - split_and!; [done|done|]. intros k tx Hk Hle Hh. rewrite (Hc k tx op Hk Hle Hh) in E. done.
    - split_and!; [done|intros o Ho; apply elem_of_app; by left|]. intros k tx _ _ _. apply elem_of_app. right. left. }
  unfold inputToFetch. destruct (txInFlight txs !! Hash op) as [k|] eqn:Ek; [|exact Hfetch].
  destruct (Nat.leb_spec k i) as [Hle|]; [|exact Hfetch]. apply txInFlight_hash in Ek as (tx & Htx & Hh). rewrite Htx.
  cbn [fst snd]. split_and!; [|done|].
  - intros k' tx' op' Hk' Hle' Hh'. unfold AddTxOuts. rewrite AddTxOutsFrom_other; [by apply (Hc k' tx')|].
    rewrite Hh'. intros E. pose proof (sameHash_sameTx _ _ _ _ Hk' Htx E). lia.
  - intros k' tx' Hk' Hle' Hh'. rewrite Hh in Hh'. pose proof (sameHash_sameTx _ _ _ _ Htx Hk' Hh'). lia.
Qed.

Lemma inputsToFetch_asks i ops st :
  clearFrom txs (S i) st.1 ->
  clearFrom txs (S i) (foldl (inputToFetch block i) st ops).1 /\
  (forall o, o ∈ st.2 -> o ∈ (foldl (inputToFetch block i) st ops).2) /\
  forall op, op ∈ ops -> asked (foldl (inputToFetch block i) st ops).2 (S i) op.
Proof using Hids.
  revert st; induction ops as [|op ops IH]; intros st Hc; cbn [foldl].
  { split_and!; [done|done|]. intros op H. by apply not_elem_of_nil in H. }
  destruct (inputToFetch_asks i st op Hc) as (Hc1 & Hm1 & Ha1). destruct (IH _ Hc1) as (Hc2 & Hm2 & Ha2).
  split_and!; [done|by intros o Ho; apply Hm2, Hm1|]. intros o [->|Ho]%elem_of_cons; [|by apply Ha2].
  intros k tx Hk Hle Hh. by eapply Hm2, Ha1.
Qed.

Lemma findInputsToFetch_asks view p t op :
  clearFrom txs 0 view -> txs !! S p = Some t -> op ∈ prevOuts t -> asked (findInputsToFetch view block).2 (S p) op.
Proof using Hids.
  intros Hc Ht Hop. unfold findInputsToFetch.
  assert (Hr : forall j, drop 1 txs !! j = txs !! S j) by (intros j; by rewrite lookup_drop).
  assert (Hall : forall rest j st, rest !! (p - j)%nat = Some t -> (j <= p)%nat -> clearFrom txs j st.1 ->
    (forall q, rest !! q = drop 1 txs !! (j + q)%nat) ->
    asked (foldl (fun st itx => foldl (inputToFetch block itx.1) st (prevOuts itx.2)) st (zip (seq j (length rest)) rest)).2 (S p) op).
  { induction rest as [|t0 rest IH]; intros j st Hl Hle Hcl Hq; [by rewrite lookup_nil in Hl|].
    cbn [length seq zip_with foldl fst snd].
    destruct (inputsToFetch_asks j (prevOuts t0) st) as (Hc1 & Hm1 & Ha1).
    { intros k tx o Hk Hk' Hh. apply (Hcl k tx o Hk); [lia|done]. }
    destruct (decide (p = j)) as [->|Hne].
    - rewrite Nat.sub_diag in Hl. injection Hl as ->. intros k tx Hk Hk' Hh.
      pose proof (Ha1 op Hop k tx Hk Hk' Hh) as Hin. clear -Hin. generalize dependent (foldl (inputToFetch block j) st (prevOuts t)).
      intros st1. generalize (S j). revert st1. induction rest as [|t1 rest IH]; intros st1 j1 Hin; [done|].
      cbn [length seq zip_with foldl fst snd]. apply IH. clear IH. revert st1 Hin.
      induction (prevOuts t1) as [|o ops IH]; intros st1 Hin; [done|]. cbn [foldl]. apply IH.
      destruct st1 as [w n]. cbn [fst snd] in *. unfold inputToFetch. repeat case_match; cbn [snd]; try done; apply elem_of_app; by left.
    - apply IH; [|lia|done|].
      + replace (p - j)%nat with (S (p - S j)) in Hl by lia. done.
      + intros q. specialize (Hq (S q)). cbn [lookup list_lookup] in Hq. rewrite Nat.add_succ_r in Hq. done. }
  apply Hall; [rewrite Nat.sub_0_r, Hr; done|lia|done|done].
Qed.
End walk.

(** ** Coins and their sum *)

Definition coinSum (cs : list SpentTxOut) : Z := sumZ (map stxo_Amount cs).

Lemma supply_insert u op c : u !! op = None -> supply (<[op := c]> u) = stxo_Amount c + supply u.
Proof.
  intros H. rewrite (supply_delete (<[op := c]> u) op c) by apply lookup_insert_eq. by rewrite delete_insert_id.
Qed.

Lemma addCoins_supply u l u' : addCoins u l = Some u' -> supply u' = supply u + coinSum l.*2.
Proof.
  unfold coinSum. revert u; induction l as [|[op c] l IH]; intros u; cbn [addCoins fmap list_fmap snd map].
  { intros [= <-]. cbn. lia. }
  destruct (u !! op) eqn:E; [done|]. intros H%IH. rewrite H, supply_insert, sumZ_cons by done. lia.
Qed.

Lemma addCoins_fresh u l :
  NoDup l.*1 -> (forall op, op ∈ l.*1 -> u !! op = None) -> is_Some (addCoins u l).
Proof.
  revert u; induction l as [|[op c] l IH]; intros u Hnd Hf; cbn [addCoins fmap list_fmap fst] in *; [by eexists|].
  apply NoDup_cons in Hnd as [Hni Hnd]. rewrite (Hf op) by left. apply IH; [done|]. intros op' Hop'.
  rewrite lookup_insert_ne by (by intros ->). apply Hf. by right.
Qed.

Lemma newCoinsFrom_index hash h cb i outs op :
  op ∈ (newCoinsFrom hash h cb i outs).*1 -> exists j, (i <= j < i + length outs)%nat /\ op = txOutPoint hash j.
Proof.
  revert i; induction outs as [|o outs IH]; intros i; cbn [newCoinsFrom length]; [intros H; by apply not_elem_of_nil in H|].
  rewrite fmap_app. intros [H|H]%elem_of_app.
  - destruct (IsUnspendable (PkScript o)); [by apply not_elem_of_nil in H|]. apply list_elem_of_singleton in H as ->.
    exists i. split; [lia|done].
  - destruct (IH _ H) as (j & Hj & ->). exists j. split; [lia|done].
Qed.

Lemma newCoinsFrom_NoDup hash h cb i outs :
  Z.of_nat (i + length outs) <= 2^32 -> NoDup (newCoinsFrom hash h cb i outs).*1.
Proof.
  revert i; induction outs as [|o outs IH]; intros i Hi; cbn [newCoinsFrom length] in *; [constructor|].
  assert (Hn : NoDup (newCoinsFrom hash h cb (S i) outs).*1) by (apply IH; lia).
  destruct (IsUnspendable (PkScript o)); [done|]. cbn [app fmap list_fmap fst]. constructor; [|done].
  intros (j & Hj & E)%newCoinsFrom_index. unfold txOutPoint in E. injection E as E.
  rewrite !u32_id in E by (unfold is_u32; lia). lia.
Qed.

Lemma newCoinsFrom_sum hash h cb i outs :
  Forall (fun o => 0 <= Value o) outs -> coinSum (newCoinsFrom hash h cb i outs).*2 <= sumValues outs.
Proof.
  intros H. revert i; induction H as [|o outs Ho _ IH]; intros i; cbn [newCoinsFrom]; [done|].
  specialize (IH (S i)). unfold coinSum, sumValues in *. cbn [map]. rewrite sumZ_cons.
  destruct (IsUnspendable (PkScript o)); cbn [app fmap list_fmap snd map]; rewrite ?sumZ_cons; cbn [stxo_Amount]; lia.
Qed.

Lemma outputs_fit tx : zlen (TxOuts tx) <= SerializeSizeStripped tx.
Proof.
  assert (Hv : forall z, 1 <= VarIntSerializeSize z) by (intros z; unfold VarIntSerializeSize; repeat case_match; lia).
  unfold SerializeSizeStripped, baseSize. pose proof (Hv (zlen (TxIns tx))). pose proof (Hv (zlen (TxOuts tx))).
  pose proof (sumZ_map_nonneg TxInSerializeSize (TxIns tx)) as H1.
  assert (zlen (TxOuts tx) <= sumZ (map TxOutSerializeSize (TxOuts tx))).
  { clear -Hv. induction (TxOuts tx) as [|o outs IH]; [done|]. unfold zlen in *. cbn [map length]. rewrite sumZ_cons.
    assert (1 <= TxOutSerializeSize o); [|lia]. unfold TxOutSerializeSize. pose proof (Hv (zlen (PkScript o))).
    unfold zlen in *. lia. }
  assert (Forall (fun x => 0 <= TxInSerializeSize x) (TxIns tx)).
  { apply Forall_forall. intros ti _. unfold TxInSerializeSize. pose proof (Hv (zlen (SignatureScript ti))). unfold zlen in *. lia. }
  specialize (H1 H3). lia.
Qed.

Lemma totalOut_sane tx : tx_sane tx -> totalOut tx = sumValues (TxOuts tx).
Proof.
  intros [_ _ _ Hv Ht _ _ _]. unfold totalOut. enough (H : forall t, 0 <= t -> t + sumValues (TxOuts tx) <= MaxSatoshi ->
    foldl (fun t o => i64 (t + Value o)) t (TxOuts tx) = t + sumValues (TxOuts tx)) by (apply (H 0); lia).
  clear Ht. induction Hv as [|o outs Ho Hs IH]; intros t H0 Ht; cbn [foldl]; [unfold sumValues; cbn; lia|].
  change (sumValues (o :: outs)) with (Value o + sumValues outs) in *. pose proof (sumValues_nonneg _ Hs).
  rewrite i64_id by (unfold is_i64, MaxSatoshi in *; lia). rewrite IH; lia.
Qed.

(** Spending the coins a view has unspent. *)
Lemma spendCoins_entries view ops es u :
  entriesOf view ops es -> NoDup ops -> (forall op e, op ∈ ops -> entryOf view op = Some e -> u !! op = Some (entryStxo e)) ->
  exists u', spendCoins u ops = Some (u', entryStxo <$> es) /\ supply u = supply u' + sumAmount es.
Proof.
  intros Hes. revert u; induction Hes as [|op e ops es He Hes IH]; intros u Hnd Hu; cbn [spendCoins].
  { exists u. split; [done|]. unfold sumAmount, sumOf. cbn. lia. }
  apply NoDup_cons in Hnd as [Hni Hnd]. pose proof (Hu op e (list_elem_of_here _ _) He) as Hop. rewrite Hop. cbn [mbind option_bind].
  destruct (IH (delete op u)) as (u' & -> & Hsum); [done| |].
  { intros op' e' Hin He'. rewrite lookup_delete_ne by (by intros ->). apply Hu; [by right|done]. }
  cbn [mbind option_bind fmap list_fmap]. exists u'. split; [done|]. rewrite (supply_delete u op _ Hop).
  unfold sumAmount in *. rewrite sumOf_cons. cbn [entryStxo stxo_Amount]. lia.
Qed.

(** ** An accepted block applies *)

Definition inOrder (h : Z) (txs : list MsgTx) (view : UtxoViewpoint) : Prop :=
  forall p tx op, txs !! p = Some tx -> op ∈ spentBy tx -> createdBy h (drop p txs) op -> live view !! op = None.

Lemma spendInputs_live_None ops view stxos view' stxos' op :
  foldM spendInput (view, stxos) ops = Ok (view', stxos') -> live view !! op = None -> live view' !! op = None.
Proof.
  revert view stxos; induction ops as [|o ops IH]; intros view stxos; cbn [foldM]; [by intros [= <- _]|].
  unfold spendInput at 1. destruct (entries view !! o) as [e|]; result_simpl; [|done]. intros H Hn. apply (IH _ _ H).
  rewrite live_spend. apply lookup_delete_None. by right.
Qed.

Lemma connectTransaction_live_None view tx h stxos view' stxos' op :
  connectTransaction view tx h stxos = Ok (view', stxos') -> Hash op <> TxHash tx ->
  live view !! op = None -> live view' !! op = None.
Proof.
  assert (Ha : forall w, Hash op <> TxHash tx -> live w !! op = None -> live (AddTxOuts w tx h) !! op = None).
  { intros w Hne Hw. unfold AddTxOuts, live. rewrite lookup_omap, AddTxOutsFrom_other by done.
    unfold live in Hw. by rewrite lookup_omap in Hw. }
  unfold connectTransaction. destruct (IsCoinBaseTx tx); [intros [= <- _]; apply Ha|].
  intros ([view1 st1] & H & E)%bind_ok Hne Hn. injection E as <- _. apply Ha; [done|].
  exact (spendInputs_live_None _ _ _ _ _ _ H Hn).
Qed.

Lemma inOrder_connect h tx txs view stxos view' stxos' :
  NoDup (map TxHash (tx :: txs)) -> connectTransaction view tx h stxos = Ok (view', stxos') ->
  inOrder h (tx :: txs) view -> inOrder h txs view'.
Proof.
  intros Hnd E Ho p t op Hp Hop Hc. apply NoDup_cons in Hnd as [Hni _].
  apply (connectTransaction_live_None _ _ _ _ _ _ _ E); [|by apply (Ho (S p) t)].
  destruct Hc as (t' & Ht' & ([op' c] & -> & Hoc)%list_elem_of_fmap). apply newCoinsFrom_hash in Hoc. cbn [fst]. rewrite Hoc.
  intros E'. apply Hni. rewrite <- E'. apply list_elem_of_fmap. exists t'. split; [done|].
  rewrite <- (take_drop p txs). apply elem_of_app. by right.
Qed.

(** The fee of a transaction, and the sums of its inputs and outputs. *)
Lemma CheckTransactionInputs_ok tx h view params fee :
  tx_sane tx -> IsCoinBaseTx tx = false -> CheckTransactionInputs tx h view params = Ok fee ->
  exists es, entriesOf view (prevOuts tx) es /\ 0 <= fee <= MaxSatoshi /\ sumAmount es = sumValues (TxOuts tx) + fee.
Proof.
  intros Hs Hcb. unfold CheckTransactionInputs. rewrite Hcb.
  intros (x1 & _ & H)%bind_ok. apply bind_ok in H as (x2 & _ & H). apply bind_ok in H as (x3 & _ & H).
  apply bind_ok in H as (x4 & _ & H). apply bind_ok in H as (total & Ht & H).
  apply checkInputAmount_inv in Ht as (es & Hes & Hco & -> & Hle); [|unfold MaxSatoshi; lia].
  rewrite (totalOut_sane tx Hs) in H. destruct (Z.ltb_spec (0 + sumAmount es) (sumValues (TxOuts tx))); [done|].
  injection H as H. pose proof (sumValues_nonneg _ (sane_values _ Hs)).
  rewrite i64_id in H by (unfold is_i64, MaxSatoshi in *; lia). exists es. split; [done|]. lia.
Qed.

Lemma connectInputs_applies h params tx rest v view u fees fees' view' :
  overlay (createdBy h (tx :: rest)) v view u ->
  (forall op, op ∈ spentBy tx -> createdBy h (tx :: rest) op -> live view !! op = None) ->
  new_ids u (tx :: rest) -> tx_sane tx -> 0 <= fees < 2^63 ->
  connectInputs h params (fees, view) tx = Ok (fees', view') ->
  exists u' cs, applyTx h u tx = Some (u', cs) /\ 0 <= fees' < 2^63 /\
    supply u' + fees' <= supply u + fees + (if IsCoinBaseTx tx then sumValues (TxOuts tx) else 0).
Proof.
  intros Ho Hord Hids Hs Hf (fee & stxos & Hfee & -> & Hle & _)%connectInputs_ok.
  assert (Hadd : forall u1, (forall op c, u1 !! op = Some c -> u !! op = Some c) ->
            exists u2, addCoins u1 (newCoins h tx) = Some u2 /\ supply u2 <= supply u1 + sumValues (TxOuts tx)).
  { intros u1 Hu1. destruct (addCoins_fresh u1 (newCoins h tx)) as [u2 Hu2].
    - apply newCoinsFrom_NoDup. pose proof (outputs_fit tx) as H. pose proof (sane_size _ Hs) as H'.
      unfold zlen, MaxBlockBaseSize in *. cbn [Nat.add]. lia.
    - intros op ([op' c] & -> & Hoc)%list_elem_of_fmap. apply newCoinsFrom_hash in Hoc. cbn [fst].
      destruct (u1 !! op') as [c'|] eqn:E; [|done]. by destruct (Hids op' c' tx (Hu1 _ _ E) (list_elem_of_here _ _)).
    - exists u2. split; [done|]. rewrite (addCoins_supply _ _ _ Hu2). unfold newCoins.
      pose proof (newCoinsFrom_sum (TxHash tx) h (IsCoinBaseTx tx) 0 (TxOuts tx) (sane_values _ Hs)). lia. }
  unfold applyTx. destruct (IsCoinBaseTx tx) eqn:Hcb; cbn [mbind option_bind].
  - destruct (Hadd u ltac:(done)) as (u2 & -> & Hsum). cbn [mbind option_bind]. exists u2, []. split; [done|].
    unfold CheckTransactionInputs in Hfee. rewrite Hcb in Hfee. injection Hfee as <-.
    rewrite i64_id in * by (unfold is_i64; lia). lia.
  - destruct (CheckTransactionInputs_ok _ _ _ _ _ Hs Hcb Hfee) as (es & Hes & Hfr & Hsum).
    destruct (spendCoins_entries view (prevOuts tx) es u Hes (sane_distinct _ Hs)) as (u1 & E1 & Hs1).
    { intros op e Hin He. apply entryOf_Some in He as [He Hsp].
      assert (Hl : live view !! op = Some (entryStxo e)) by (apply live_Some; exists e; unfold live_entry; by rewrite Hsp).
      rewrite <- Ho; [rewrite lookup_coins; unfold LookupEntry in He; rewrite He; unfold live_entry; by rewrite Hsp|].
      intros Hc. rewrite Hord in Hl; [done|unfold spentBy; by rewrite Hcb|done]. }
    rewrite E1. cbn [mbind option_bind].
    destruct (Hadd u1 (fun op c => spendCoins_subset u (prevOuts tx) u1 _ op c E1)) as (u2 & -> & Hs2).
    cbn [mbind option_bind]. eexists u2, _. split; [reflexivity|].
    assert (Hi : i64 (fees + fee) = fees + fee).
    { apply i64_id. unfold is_i64. destruct (Z.lt_ge_cases (fees + fee) (2^63)); [lia|].
      unfold i64 in Hle. unfold MaxSatoshi in *. exfalso.
      rewrite <- (Z.mod_unique (fees + fee + 2^63) (2^64) 1 (fees + fee - 2^63)) in Hle; lia. }
    pose proof (i64_range (fees + fee)) as Hr. unfold is_i64 in Hr. rewrite Hi in *. lia.
Qed.

Lemma new_ids_connect h u tx txs u' cs :
  NoDup (map TxHash (tx :: txs)) -> new_ids u (tx :: txs) -> applyTx h u tx = Some (u', cs) -> new_ids u' txs.
Proof.
  intros Hnd Hids Happ op c t Hc Ht. apply NoDup_cons in Hnd as [Hni _].
  assert (H1 : applyTxs h u [tx] = Some (u', cs ++ [])) by (cbn [applyTxs]; by rewrite Happ).
  destruct (applyTxs_origin _ _ _ _ _ _ _ H1 Hc) as [Hu|(tx' & ->%list_elem_of_singleton & ->)].
  - apply (Hids op c t Hu). by right.
  - intros E. apply Hni. rewrite E. apply list_elem_of_fmap. exists t. split; [reflexivity|exact Ht].
Qed.

Definition coinbaseValue (tx : MsgTx) : Z := if IsCoinBaseTx tx then sumValues (TxOuts tx) else 0.

Lemma connectAll_applies h params txs v view u fees fees' view' :
  overlay (createdBy h txs) v view u -> inOrder h txs view -> new_ids u txs -> NoDup (map TxHash txs) ->
  Forall tx_sane txs -> 0 <= fees < 2^63 ->
  foldM (connectInputs h params) (fees, view) txs = Ok (fees', view') ->
  exists u' cs, applyTxs h u txs = Some (u', cs) /\ 0 <= fees' < 2^63 /\
    supply u' + fees' <= supply u + fees + sumZ (map coinbaseValue txs).
Proof.
  revert view u fees; induction txs as [|tx txs IH]; intros view u fees Ho Hord Hids Hnd Hs Hf; cbn [foldM].
  { intros [= <- <-]. exists u, []. split; [done|]. cbn. lia. }
  destruct (connectInputs h params (fees, view) tx) as [[fees1 view1]|] eqn:E; result_simpl; [|done]. intros HM.
  apply Forall_cons in Hs as [Hs1 Hs].
  destruct (connectInputs_applies h params tx txs v view u fees fees1 view1 Ho (fun op => Hord 0%nat tx op eq_refl)
              Hids Hs1 Hf E) as (u1 & cs1 & H1 & Hf1 & Hle).
  pose proof E as (fee & stxos & _ & _ & _ & Hc)%connectInputs_ok.
  destruct (IH view1 u1 fees1) as (u2 & cs2 & H2 & Hf2 & Hle2); try done.
  - by apply (connectTransaction_overlay h tx txs v view u [] view1 stxos u1 cs1).
  - by apply (inOrder_connect h tx txs view [] view1 stxos).
  - by apply (new_ids_connect h u tx txs u1 cs1).
  - by apply NoDup_cons in Hnd as [_ Hnd].
  - exists u2, (cs1 ++ cs2). cbn [applyTxs]. rewrite H1. cbn [mbind option_bind]. rewrite H2. cbn [mbind option_bind].
    split; [done|]. split; [done|]. cbn [map]. rewrite sumZ_cons. fold (coinbaseValue tx) in Hle. lia.
Qed.

Lemma coinbaseValue_block cb rest :
  block_shape (cb :: rest) -> sumZ (map coinbaseValue (cb :: rest)) = sumValues (TxOuts cb).
Proof.
  intros [Hcb Hr]. cbn [map]. rewrite sumZ_cons. unfold coinbaseValue at 1. rewrite Hcb.
  replace (sumZ (map coinbaseValue rest)) with 0; [lia|].
  induction Hr as [|tx rest Htx _ IH]; [done|]. cbn [map]. rewrite sumZ_cons, <- IH. unfold coinbaseValue. by rewrite Htx.
Qed.

Lemma i64_le z : - 2^63 <= z -> i64 z <= z.
Proof. intros H. unfold i64. pose proof (Z.mod_le (z + 2^63) (2^64)). lia. Qed.

Lemma CalcBlockSubsidy_nonneg h params : 0 <= CalcBlockSubsidy h params.
Proof.
  unfold CalcBlockSubsidy. repeat case_match; [done|done|]. by apply Z.shiftr_nonneg.
Qed.

Section accepted.
Context `{Curve : Secp256k1} `{Hash160 : Ripemd160} `{Picks : MapPick}.
Context {codec : KeyCodec} {codec_ok : RecoversKeys} {ix : Indexer}.
Context (chainParams : Params) (checkpoints : list Checkpoint) (prefixSource : ix_state -> option ReapPrefixSource).
Context (sigCache : option SigCache) (hashCache : option HashCache) (caches : list thresholdStateCache).

#[local] Abbreviation check := (checkConnectBlock chainParams checkpoints prefixSource sigCache hashCache caches).

(** A view that has no entry for an output of the block, as the fresh view of
    [connectBestChain] and of [CheckConnectBlockTemplate]. *)
Definition fresh_for (block : Block) (view : UtxoViewpoint) : Prop :=
  forall op tx, tx ∈ Transactions block -> Hash op = TxHash tx -> entries view !! op = None.

Lemma fetchInputs_inOrder db base s v view u block view2 s2 :
  stored base (utxoSetBucket db) -> standsFor base s v -> UtxoCache.shows v view u -> fresh_for block view ->
  new_ids u (Transactions block) -> NoDup (map TxHash (Transactions block)) -> block_shape (Transactions block) ->
  Forall (fun tx => Forall wf_outpoint (prevOuts tx)) (Transactions block) ->
  fetchInputUtxosBut [] db s view block = Ok (view2, s2) -> inOrder (Height block) (Transactions block) view2.
Proof using codec_ok.
  intros Hs Hr Ho Hfr Hids Hnd Hsh Hin E p t op Ht Hop (t' & Ht' & ([op' c'] & -> & Hoc)%list_elem_of_fmap).
  cbn [fst] in *. apply newCoinsFrom_hash in Hoc.
  assert (Hv : v !! op' = None).
  { assert (Hin' : t' ∈ Transactions block) by (rewrite <- (take_drop p (Transactions block)); apply elem_of_app; by right).
    pose proof (Ho op' ltac:(tauto)) as H. rewrite lookup_coins, (Hfr op' t' Hin' Hoc) in H. rewrite H.
    destruct (u !! op') as [c|] eqn:Eu; [|done]. by destruct (Hids op' c t' Eu Hin'). }
  destruct p as [|p].
  { destruct (Transactions block) as [|cb rest]; [done|]. injection Ht as ->. unfold spentBy in Hop.
    rewrite (proj1 Hsh) in Hop. by apply not_elem_of_nil in Hop. }
  assert (Hop' : op' ∈ prevOuts t) by (unfold spentBy in Hop; destruct (IsCoinBaseTx t); [by apply not_elem_of_nil in Hop|done]).
  assert (Hasked : op' ∈ (findInputsToFetch view block).2).
  { apply list_elem_of_lookup in Ht' as [k Hk]. rewrite lookup_drop in Hk.
    apply (findInputsToFetch_asks block Hnd view p t op') with (k := (S p + k)%nat) (tx := t'); try done; [|lia].
    intros k' tx o Hk' _ Hh. apply (Hfr o tx); [by apply list_elem_of_lookup_2 in Hk'|done]. }
  apply (overlay_weaken _ (blockCreates block)) in Ho; [|done].
  pose proof (co_wf _ _ _ _ _ (findInputsToFetch_collects block u v Hin view Ho)) as Hwf.
  unfold fetchInputUtxosBut in E. destruct (findInputsToFetch view block) as [view1 needed]. cbn [fst snd] in *.
  assert (Hall : filter (fun op => op ∉ []) needed = needed).
  { clear. induction needed as [|o l IH]; [done|]. rewrite filter_cons, decide_True by apply not_elem_of_nil. by rewrite IH. }
  rewrite Hall in E.
  destruct (fetchUtxosFromCache_fills db base s v view1 needed Hs Hr Hwf) as (view3 & s3 & E3 & _ & _ & Hfill & _).
  assert (view3 = view2) as -> by congruence. by rewrite (Hfill op' Hasked).
Qed.

Lemma accepted_applies b view node block base v u powLimit adjustedTime flags s view' :
  stored base (utxoSetBucket (chainDB b)) -> standsFor base (bc_cache b) v -> UtxoCache.shows v view u ->
  fresh_for block view -> new_ids u (Transactions block) -> block_sane block powLimit adjustedTime flags ->
  Forall (fun tx => Forall wf_outpoint (prevOuts tx)) (Transactions block) ->
  Height block = node_height node -> BIP0034Height chainParams <= node_height node ->
  check b view node block = (s, Ok view') ->
  exists u' cs, applyTxs (Height block) u (Transactions block) = Some (u', cs) /\ UtxoCache.shows v view' u' /\
    supply u' <= supply u + CalcBlockSubsidy (node_height node) chainParams.
Proof using codec_ok.
  intros Hs Hr Ho Hfr Hids [_ _ _ Hsh _ _ Htx _ Hnd _] Hin Hh H34 E.
  destruct (checkConnectBlock_reads chainParams checkpoints prefixSource sigCache hashCache caches
              b view node block base v u Hs Hr Ho Hin) as [_ H]. rewrite E in H.
  destruct (H view' eq_refl) as (view0 & view2 & nils & s1 & s2 & [Hf Hfirst _ _ Hov _ _ _ Hl]).
  destruct (Hfirst H34) as (-> & -> & ->).
  apply checkLoadedBlock_ok in Hl as (fees & view1 & sw & csv & tr & [_ _ _ Hc Hcb _ _ ->]).
  pose proof (fetchInputs_inOrder _ _ _ _ _ _ _ _ _ Hs Hr Ho Hfr Hids Hnd Hsh Hin Hf) as Hord. rewrite Hh in *.
  destruct (connectAll_applies _ _ _ v view2 u 0 fees view1 Hov Hord Hids Hnd Htx ltac:(lia) Hc) as (u' & cs & Happ & Hfr' & Hle).
  exists u', cs. split; [done|]. split; [exact (connectInputs_overlay _ _ _ _ _ _ _ _ _ _ _ Hov Hc Happ)|].
  destruct (Transactions block) as [|cb rest]; [done|]. rewrite (coinbaseValue_block cb rest Hsh) in Hle.
  apply Forall_cons_1 in Htx as [Hscb _]. rewrite (totalOut_sane cb Hscb) in Hcb.
  pose proof (CalcBlockSubsidy_nonneg (node_height node) chainParams).
  pose proof (i64_le (CalcBlockSubsidy (node_height node) chainParams + fees)). lia.
Qed.
End accepted.
