(* ===== verification/SpendProps.v ===== *)
(** * Whose coins an accepted block can spend

    From the checks of CheckConnect.v and the script engine: in a block accepted on
    top of the tip, above the last checkpoint, every input of a transaction that
    does not carry the REAP marker spends a coin whose script ran to success, and
    every input of one that does spends an expired coin. With what validating a
    pay-to-witness-pubkey-hash input comes to (EngineRun.v), this says that such a
    coin moves only with a signature of the key it names, or once it has
    expired. *)

From S2P Require Import Prelude ChainParams Sha256 Wire Encode Script ScriptNum Standard SigHash Signature Taproot Engine Opcodes EngineExec EngineSpec EngineInv EngineCache EngineRun Block Compress Bucket IndexDB Ledger UtxoView WorkMath ChainIO ChainStore BlockNode Difficulty Threshold ReapAgree ReapProps UtxoCache ChainView Text ReapRules Merkle ChainState BlockSanity BlockContext CheckConnect ChainInv ChainVerify ConnectProps.

(** ** The coins a view shows stay in it *)

Lemma IsCoinBase_Spend e : IsCoinBase (Spend e) = IsCoinBase e.
Proof.
  unfold Spend. destruct (IsSpent e); [done|]. unfold IsCoinBase, hasFlag. cbn [packedFlags].
  change tfCoinBase with (Z.ones 1). rewrite !Z.land_ones by lia. f_equal.
  change (2^1) with 2. rewrite <- !Z.bit0_mod, Z.lor_spec. cbn. by rewrite orb_false_r.
Qed.

Lemma entryStxo_Spend e : entryStxo (Spend e) = entryStxo e.
Proof.
  unfold entryStxo. rewrite IsCoinBase_Spend. unfold Spend. by destruct (IsSpent e).
Qed.

(** An entry that stands for the coin, spent or not. *)
Definition remembers (view : UtxoViewpoint) (op : OutPoint) (c : SpentTxOut) : Prop :=
  exists e, entries view !! op = Some e /\ entryStxo e = c.

Lemma spendInputs_remembers ops view stxos view' stxos' op c :
  foldM spendInput (view, stxos) ops = Ok (view', stxos') -> remembers view op c -> remembers view' op c.
Proof.
  revert view stxos; induction ops as [|o ops IH]; intros view stxos; cbn [foldM]; [by intros [= <- _]|].
  unfold spendInput at 1. destruct (entries view !! o) as [e|] eqn:Eo; result_simpl; [|done]. intros H (e0 & He & Hc). apply (IH _ _ H).
  unfold remembers. cbn [setEntry entries]. destruct (decide (op = o)) as [->|Hne].
  - rewrite lookup_insert_eq. exists (Spend e). split; [done|]. rewrite entryStxo_Spend. congruence.
  - rewrite lookup_insert_ne by done. by exists e0.
Qed.

Lemma connectTransaction_remembers view tx h stxos view' stxos' op c :
  connectTransaction view tx h stxos = Ok (view', stxos') -> op ∉ (newCoins h tx).*1 ->
  remembers view op c -> remembers view' op c.
Proof.
  intros E Hop. assert (Ha : forall w, remembers w op c -> remembers (AddTxOuts w tx h) op c).
  { intros w (e & He & Hc). exists e. unfold AddTxOuts. by rewrite AddTxOutsFrom_new. }
  unfold connectTransaction in E. destruct (IsCoinBaseTx tx); [injection E as <- _; apply Ha|].
  apply bind_ok in E as ([view1 st1] & H & E). injection E as <- _. intros Hr. apply Ha.
  exact (spendInputs_remembers _ _ _ _ _ _ _ H Hr).
Qed.

Lemma connectAll_remembers h params txs fees view fees' view' op c :
  foldM (connectInputs h params) (fees, view) txs = Ok (fees', view') -> ~ createdBy h txs op ->
  remembers view op c -> remembers view' op c.
Proof.
  revert fees view; induction txs as [|tx txs IH]; intros fees view; cbn [foldM]; [by intros [= _ <-]|].
  destruct (connectInputs h params (fees, view) tx) as [[fees1 view1]|] eqn:E; result_simpl; [|done]. intros HM Hn Hr.
  apply connectInputs_ok in E as (fee & stxos & _ & _ & _ & Hc). apply (IH _ _ HM).
  - intros (t & Ht & Hop). apply Hn. exists t. split; [by right|exact Hop].
  - apply (connectTransaction_remembers _ _ _ _ _ _ _ _ Hc); [|done]. intros Hop. apply Hn. exists tx. split; [left|exact Hop].
Qed.

(** ** Every input spends a coin of the ledger before it *)

Record input_spends (h : Z) (params : Params) (u : utxo_set) (txs : list MsgTx) (p : nat) (tx : MsgTx) (op : OutPoint)
    (view' : UtxoViewpoint) (c : SpentTxOut) : Prop := {
  is_ledger : exists up cs, applyTxs h u (take p txs) = Some (up, cs) /\ up !! op = Some c;
  is_checked : exists view fee e, CheckTransactionInputs tx h view params = Ok fee /\
    entryOf view op = Some e /\ entryStxo e = c;
  is_shown : remembers view' op c }.

Lemma connectInputs_spends h params tx rest v view u fees fees1 view1 op :
  overlay (createdBy h (tx :: rest)) v view u ->
  (forall op, op ∈ spentBy tx -> createdBy h (tx :: rest) op -> live view !! op = None) ->
  tx_sane tx -> connectInputs h params (fees, view) tx = Ok (fees1, view1) -> op ∈ spentBy tx ->
  exists c fee e, u !! op = Some c /\ CheckTransactionInputs tx h view params = Ok fee /\
    entryOf view op = Some e /\ entryStxo e = c /\ ~ createdBy h (tx :: rest) op /\ remembers view1 op c.
Proof.
  intros Ho Hord Hs (fee & stxos & Hfee & _ & _ & Hcon)%connectInputs_ok Hop. unfold spentBy in *.
  destruct (IsCoinBaseTx tx) eqn:Hcb; [by apply not_elem_of_nil in Hop|].
  destruct (CheckTransactionInputs_ok _ _ _ _ _ Hs Hcb Hfee) as (es & Hes & _ & _).
  assert (exists e, entryOf view op = Some e) as [e He].
  { apply list_elem_of_lookup in Hop as [k Hk]. destruct (Forall2_lookup_l _ _ _ _ _ Hes Hk) as (e & _ & He). by exists e. }
  pose proof He as [Hl Hsp]%entryOf_Some. unfold LookupEntry in Hl.
  assert (Hn : ~ createdBy h (tx :: rest) op).
  { intros Hc. pose proof (Hord op Hop Hc) as Hnone. unfold live in Hnone. rewrite lookup_omap, Hl in Hnone. cbn in Hnone.
    unfold live_entry in Hnone. by rewrite Hsp in Hnone. }
  exists (entryStxo e), fee, e. split_and!; try done.
  - rewrite <- Ho by done. rewrite lookup_coins, Hl. unfold live_entry. by rewrite Hsp.
  - apply (connectTransaction_remembers _ _ _ _ _ _ _ _ Hcon); [|by exists e]. intros Hin. apply Hn. exists tx. split; [left|done].
Qed.

Lemma connectAll_spends h params txs v view u fees fees' view' :
  overlay (createdBy h txs) v view u -> inOrder h txs view -> new_ids u txs -> NoDup (map TxHash txs) ->
  Forall tx_sane txs -> 0 <= fees < 2^63 ->
  foldM (connectInputs h params) (fees, view) txs = Ok (fees', view') ->
  forall p tx op, txs !! p = Some tx -> op ∈ spentBy tx -> exists c, input_spends h params u txs p tx op view' c.
Proof.
  revert view u fees; induction txs as [|tx txs IH]; intros view u fees Ho Hord Hids Hnd Hs Hf; cbn [foldM].
  { intros _ p tx op Hp. by rewrite lookup_nil in Hp. }
  destruct (connectInputs h params (fees, view) tx) as [[fees1 view1]|] eqn:E; result_simpl; [|done]. intros HM p t op Hp Hop.
  apply Forall_cons in Hs as [Hs1 Hs]. pose proof (fun op => Hord 0%nat tx op eq_refl) as Hord0.
  destruct (connectInputs_applies h params tx txs v view u fees fees1 view1 Ho Hord0 Hids Hs1 Hf E) as (u1 & cs1 & H1 & Hf1 & _).
  pose proof E as (fee & stxos & _ & _ & _ & Hc)%connectInputs_ok. destruct p as [|p].
  - injection Hp as ->. destruct (connectInputs_spends h params t txs v view u fees fees1 view1 op Ho Hord0 Hs1 E Hop)
      as (c & fee' & e & Hu & Hck & He & Hec & Hn & Hr).
    exists c. split; [by exists u, []|by exists view, fee', e|]. apply (connectAll_remembers _ _ _ _ _ _ _ _ _ HM); [|done].
    intros (t' & Ht' & Hin). apply Hn. exists t'. split; [by right|done].
  - destruct (IH view1 u1 fees1) with (p := p) (tx := t) (op := op) as [c [(up & cs & Hup & Hl) Hck Hsh]]; try done.
    + by apply (connectTransaction_overlay h tx txs v view u [] view1 stxos u1 cs1).
    + by apply (inOrder_connect h tx txs view [] view1 stxos).
    + by apply (new_ids_connect h u tx txs u1 cs1).
    + by apply NoDup_cons in Hnd as [_ Hnd].
    + exists c. split; [|done|done]. exists up, (cs1 ++ cs). cbn [take applyTxs]. rewrite H1. cbn [mbind option_bind]. by rewrite Hup.
Qed.

(** ** The outputs spent, as the ledger has them *)

(** The coins a block can see: those of the ledger and its own, spent or not. *)
Definition seenCoins (h : Z) (u : utxo_set) (txs : list MsgTx) : utxo_set :=
  foldl (fun u tx => foldl (fun u oc => <[oc.1 := oc.2]> u) u (newCoins h tx)) u txs.

(** The previous outputs the inputs of a block refer to. *)
Definition blockPrevOut (h : Z) (u : utxo_set) (txs : list MsgTx) : PrevOutputFetcher :=
  fun op => c ← seenCoins h u txs !! op; Some (mkTxOut (stxo_Amount c) (stxo_PkScript c)).

Lemma addCoins_seen u w l u' op c :
  (forall op c, u !! op = Some c -> w !! op = Some c) -> addCoins u l = Some u' -> u' !! op = Some c ->
  foldl (fun (u : utxo_set) (oc : OutPoint * SpentTxOut) => <[oc.1 := oc.2]> u) w l !! op = Some c.
Proof.
  revert u w; induction l as [|[o d] l IH]; intros u w Hw; cbn [addCoins foldl fst snd]; [intros [= ->]; apply Hw|].
  destruct (u !! o) eqn:E; [done|]. apply IH. intros op' c'.
  destruct (decide (op' = o)) as [->|Hne]; [by rewrite !lookup_insert_eq|rewrite !lookup_insert_ne by done; apply Hw].
Qed.

Lemma applyTxs_seen h u w txs u' cs op c :
  (forall op c, u !! op = Some c -> w !! op = Some c) -> applyTxs h u txs = Some (u', cs) -> u' !! op = Some c ->
  seenCoins h w txs !! op = Some c.
Proof.
  revert u w cs; induction txs as [|tx txs IH]; intros u w cs Hw H Hc.
  { cbn in H. simplify_eq. by apply Hw. }
  apply applyTxs_cons in H as (u1 & cs1 & cs2 & H1 & H2 & ->). unfold seenCoins. cbn [foldl]. refine (IH u1 _ cs2 _ H2 Hc).
  intros op' c' Hc'. unfold applyTx in H1. destruct (IsCoinBaseTx tx); cbn [mbind option_bind] in H1.
  - destruct (addCoins u (newCoins h tx)) as [u2|] eqn:E; [|done]. cbn in H1. simplify_eq. by apply (addCoins_seen u w _ u1).
  - destruct (spendCoins u (prevOuts tx)) as [[u3 cs3]|] eqn:E3; cbn [mbind option_bind] in H1; [|done].
    destruct (addCoins u3 (newCoins h tx)) as [u2|] eqn:E; [|done]. cbn in H1. simplify_eq. apply (addCoins_seen u3 w _ u1); [|done|done].
    intros op0 c0 H0. by apply Hw, (spendCoins_subset _ _ _ _ _ _ E3).
Qed.

Lemma seenCoins_other h w txs op : ~ createdBy h txs op -> seenCoins h w txs !! op = w !! op.
Proof.
  revert w; induction txs as [|tx txs IH]; intros w Hn; [done|].
  change (seenCoins h w (tx :: txs))
    with (seenCoins h (foldl (fun u oc => <[oc.1 := oc.2]> u) w (newCoins h tx)) txs). rewrite IH.
  - assert (Hop : op ∉ (newCoins h tx).*1) by (intros H; apply Hn; exists tx; split; [left|done]). clear -Hop. revert w Hop.
    induction (newCoins h tx) as [|[o c] l IH]; intros w Hop; cbn [foldl fst snd fmap list_fmap] in *; [done|].
    apply not_elem_of_cons in Hop as [H1 H2]. by rewrite IH, lookup_insert_ne.
  - intros (t & Ht & H). apply Hn. exists t. split; [by right|done].
Qed.

Lemma seenCoins_app h w txs1 txs2 : seenCoins h w (txs1 ++ txs2) = seenCoins h (seenCoins h w txs1) txs2.
Proof. unfold seenCoins. by rewrite foldl_app. Qed.

(** A coin spent by the transaction at [p] is the one seen there. *)
Lemma input_seen h params u txs p tx op view' c :
  NoDup (map TxHash txs) -> new_ids u txs -> txs !! p = Some tx -> input_spends h params u txs p tx op view' c ->
  seenCoins h u txs !! op = Some c.
Proof.
  intros Hnd Hids Hp [(up & cs & Hup & Hl) _ _]. rewrite <- (take_drop p txs), seenCoins_app, seenCoins_other.
  - by apply (applyTxs_seen h u u _ up cs).
  - intros (t & Ht & ([op' c'] & -> & Hoc)%list_elem_of_fmap). apply newCoinsFrom_hash in Hoc. cbn [fst] in *.
    assert (Htin : t ∈ txs) by (rewrite <- (take_drop p txs); apply elem_of_app; by right).
    destruct (applyTxs_origin _ _ _ _ _ _ _ Hup Hl) as [Hu|(t' & Ht' & Hh)]; [by destruct (Hids op' c t Hu Htin)|].
    rewrite Hoc in Hh. rewrite <- (take_drop p txs), map_app in Hnd. apply NoDup_app in Hnd as (_ & Hd & _).
    apply (Hd (TxHash t)); [rewrite Hh; apply list_elem_of_fmap; exists t'; split; [reflexivity|done]|].
    apply list_elem_of_fmap. exists t. split; [reflexivity|done].
Qed.

(** ** The scripts that ran *)

Lemma foldM_unit_ok {E A} (f : A -> result E unit) l x :
  foldM (fun _ a => f a) tt l = Ok tt -> x ∈ l -> f x = Ok tt.
Proof.
  induction l as [|a l IH]; [intros _ H; by apply not_elem_of_nil in H|]. cbn [foldM].
  destruct (f a) as [[]|] eqn:E0; result_simpl; [|done]. intros H [->|Hx]%elem_of_cons; [done|by apply IH].
Qed.

Lemma elem_of_txValItems tx i ti :
  TxIns tx !! i = Some ti -> Index (PreviousOutPoint ti) <> 2^32 - 1 -> (tx, i, ti) ∈ txValItems tx.
Proof.
  intros Hi Hx. unfold txValItems. apply list_elem_of_omap. exists (i, ti). split.
  - apply (list_elem_of_lookup_2 _ i). apply lookup_zip_with_Some. exists i, ti. split; [done|]. split; [|done].
    apply lookup_seq. split; [lia|]. by eapply lookup_lt_Some.
  - cbn [fst snd]. by destruct (Z.eqb_spec (Index (PreviousOutPoint ti)) (2^32 - 1)).
Qed.

Lemma inputKinds_ext f g ins a b :
  (forall ti, ti ∈ ins -> f (PreviousOutPoint ti) = g (PreviousOutPoint ti)) -> inputKinds f ins a b = inputKinds g ins a b.
Proof.
  revert a b; induction ins as [|ti ins IH]; intros a b H; cbn [inputKinds]; [done|].
  assert (H' : forall ti', ti' ∈ ins -> f (PreviousOutPoint ti') = g (PreviousOutPoint ti')) by (intros; apply H; by right).
  rewrite (H ti) by left. case_match; [by apply IH|]. destruct (g _); [|done]. case_match; [done|by apply IH].
Qed.

Lemma NewTxSigHashes_ext tx f g :
  (forall op, op ∈ prevOuts tx -> f op = g op) -> NewTxSigHashes tx f = NewTxSigHashes tx g.
Proof.
  intros H. assert (H' : forall ti, ti ∈ TxIns tx -> f (PreviousOutPoint ti) = g (PreviousOutPoint ti)).
  { intros ti Hti. apply H, list_elem_of_fmap. by exists ti. }
  unfold NewTxSigHashes. rewrite (inputKinds_ext f g) by done.
  assert (SigHash.prevOuts f tx = SigHash.prevOuts g tx) as ->; [|done].
  unfold SigHash.prevOuts. clear H. induction (TxIns tx) as [|ti ins IH]; [done|]. cbn [mapM].
  rewrite (H' ti) by left. rewrite IH; [done|]. intros ti' Hti'. apply H'. by right.
Qed.

Section scripts.
Context `{Curve : Secp256k1} `{Hash160 : Ripemd160} `{Picks : MapPick}.

Lemma validateInput_runs view fl sc sh tx i ti c :
  validateInput view fl sc sh tx i ti = Ok tt -> remembers view (PreviousOutPoint ti) c ->
  runScripts (stxo_PkScript c) tx (Z.of_nat i) fl sc (sh tx) (stxo_Amount c) (FetchPrevOutput view) = Some (Ok tt).
Proof.
  intros H (e & He & <-). unfold validateInput, LookupEntry in H. rewrite He in H. unfold runScripts.
  cbn [entryStxo stxo_PkScript stxo_Amount].
  destruct (NewEngine _ _ _ _ _ _ _ _) as [[ep vm]|[| |]]; [|done..].
  destruct (Execute ep vm) as [[[[]|[| |]] vm']|]; done.
Qed.

(** The cached partial hashes of the transactions of a block are right. Those of a
    coinbase are not used. *)
Definition hashesRight (txs : list MsgTx) (fetch : PrevOutputFetcher) (hc : option HashCache) : Prop :=
  forall h tx sh, hc = Some h -> tx ∈ txs -> IsCoinBaseTx tx = false -> h !! TxHash tx = Some sh ->
    NewTxSigHashes tx fetch = Ok sh.

Lemma cacheHashes_right txs view hc tx hc' :
  NoDup (map TxHash txs) -> tx ∈ txs -> hashesRight txs (FetchPrevOutput view) hc -> cacheHashes view hc tx = Ok hc' ->
  hashesRight txs (FetchPrevOutput view) hc'.
Proof.
  intros Hnd Htx Hr. unfold cacheHashes. destruct hc as [h|]; [|by intros [= <-]]. destruct (ContainsHashes h (TxHash tx)); [by intros [= <-]|].
  unfold AddSigHashes. destruct (NewTxSigHashes tx (FetchPrevOutput view)) as [sh|[| |]] eqn:E; result_simpl; [|done..].
  intros [= <-] h' tx' sh' [= <-] Htx' Hcb' Hl. destruct (decide (TxHash tx = TxHash tx')) as [Heq|Hne].
  - rewrite Heq in Hl. pose proof (lookup_insert_eq (M := gmap (list Z)) h (TxHash tx') sh) as Hi.
    assert (sh = sh') as <- by exact (Some_inj _ _ (eq_trans (eq_sym Hi) Hl)). enough (tx' = tx) as -> by done.
    apply list_elem_of_lookup in Htx as [k Hk]. apply list_elem_of_lookup in Htx' as [k' Hk'].
    assert (k = k') as ->; [|congruence]. apply (NoDup_lookup (map TxHash txs) k k' (TxHash tx) Hnd).
    + change (map TxHash txs) with (TxHash <$> txs). by rewrite list_lookup_fmap, Hk.
    + change (map TxHash txs) with (TxHash <$> txs). rewrite list_lookup_fmap, Hk'. cbn. by rewrite Heq.
  - apply (Hr h tx' sh'); [done|done|done|].
    exact (eq_trans (eq_sym (lookup_insert_ne (M := gmap (list Z)) h (TxHash tx) (TxHash tx') sh Hne)) Hl).
Qed.

Lemma runBlockScripts_ok block view fl sc hc :
  (runBlockScripts block view fl sc hc).2 = Ok tt -> NoDup (map TxHash (Transactions block)) ->
  hashesRight (Transactions block) (FetchPrevOutput view) hc ->
  exists hc', hashesRight (Transactions block) (FetchPrevOutput view) hc' /\
    forall tx i ti, tx ∈ Transactions block -> isLikelyReapTx tx = false -> TxIns tx !! i = Some ti ->
      Index (PreviousOutPoint ti) <> 2^32 - 1 ->
      validateInput view fl sc (txSigHashes view (segwitFlag fl) hc') tx i ti = Ok tt.
Proof.
  intros H Hnd Hr. unfold runBlockScripts in H. set (step h tx := if _ && _ && _ then _ else _) in H.
  destruct (foldM step hc (Transactions block)) as [hc'|] eqn:Ef; [|done]. exists hc'. split.
  - assert (Hall : forall l h0, (forall tx, tx ∈ l -> tx ∈ Transactions block) ->
      hashesRight (Transactions block) (FetchPrevOutput view) h0 -> foldM step h0 l = Ok hc' ->
      hashesRight (Transactions block) (FetchPrevOutput view) hc'); [|by apply (Hall (Transactions block) hc)].
    clear -Hnd. induction l as [|tx l IH]; intros h0 Hin Hr; cbn [foldM]; [by intros [= <-]|].
    destruct (step h0 tx) as [h1|] eqn:Es; result_simpl; [|done]. intros HM. apply (IH h1); [intros; apply Hin; by right| |done].
    unfold step in Es. destruct (_ && _ && _); [|by injection Es as <-].
    apply (cacheHashes_right _ view h0 tx); [done|apply Hin; left|done|done].
  - intros tx i ti Htx Hre Hti Hx. destruct (checkBlockScripts _ block) as [[]|] eqn:Ec; [|done].
    unfold checkBlockScripts, validateItems in Ec.
    refine (foldM_unit_ok (fun it : MsgTx * nat * TxIn => validateInput view fl sc _ it.1.1 it.1.2 it.2) _ (tx, i, ti) Ec _).
    apply list_elem_of_In, in_concat. eexists. split; [apply in_map, list_elem_of_In; exact Htx|]. rewrite Hre.
    apply list_elem_of_In. by apply elem_of_txValItems.
Qed.

Lemma txSigHashes_right txs view sw hc tx :
  hashesRight txs (FetchPrevOutput view) hc -> tx ∈ txs -> IsCoinBaseTx tx = false ->
  partialHashes (txSigHashes view sw hc tx) tx (FetchPrevOutput view) = NewTxSigHashes tx (FetchPrevOutput view).
Proof.
  intros Hr Htx Hcb. unfold txSigHashes. destruct (sw && HasWitness tx); [|done]. destruct hc as [h|].
  - unfold GetSigHashes. destruct (h !! TxHash tx) as [sh|] eqn:E; [|done]. cbn [partialHashes]. by rewrite (Hr h tx sh).
  - destruct (NewTxSigHashes tx (FetchPrevOutput view)) eqn:E; [done|exact E].
Qed.

Lemma hashesRight_ext txs f g hc :
  (forall tx op, tx ∈ txs -> IsCoinBaseTx tx = false -> op ∈ prevOuts tx -> f op = g op) ->
  hashesRight txs f hc -> hashesRight txs g hc.
Proof.
  intros H Hr h tx sh Hh Htx Hcb Hl. rewrite <- (NewTxSigHashes_ext tx f g); [by apply (Hr h)|]. intros op. by apply H.
Qed.
End scripts.

(** ** The theorem *)

(** No coin has the index that marks an input without a previous output. *)
Definition indices_ok (u : utxo_set) : Prop := map_Forall (fun op _ => Index op <> 2^32 - 1) u.

Lemma seenCoins_origin h w txs op c :
  seenCoins h w txs !! op = Some c -> w !! op = Some c \/ createdBy h txs op.
Proof.
  revert w; induction txs as [|tx txs IH]; intros w; [by left|].
  change (seenCoins h w (tx :: txs))
    with (seenCoins h (foldl (fun u oc => <[oc.1 := oc.2]> u) w (newCoins h tx)) txs).
  intros [H|(t & Ht & H)]%IH; [|right; exists t; split; [by right|done]].
  assert (H' : w !! op = Some c \/ op ∈ (newCoins h tx).*1); [|destruct H' as [?|?]; [by left|right; exists tx; split; [left|done]]].
  revert w H. clear. induction (newCoins h tx) as [|[o d] l IH]; intros w; cbn [foldl fst snd fmap list_fmap]; [by left|].
  intros [H|H]%IH; [|right; by right]. apply lookup_insert_Some in H as [[<- _]|[_ H]]; [right; left|by left].
Qed.

Lemma created_index h txs op :
  Forall tx_sane txs -> createdBy h txs op -> Index op <> 2^32 - 1.
Proof.
  intros Hs (tx & Htx & (j & Hj & ->)%newCoinsFrom_index). rewrite Forall_forall in Hs. pose proof (sane_size _ (Hs tx Htx)).
  pose proof (outputs_fit tx). cbn [txOutPoint Index]. unfold zlen, MaxBlockBaseSize in *.
  rewrite u32_id by (unfold is_u32; lia). lia.
Qed.

Section spending.
Context `{Curve : Secp256k1} `{Hash160 : Ripemd160} `{Picks : MapPick}.
Context {codec : KeyCodec} {codec_ok : RecoversKeys} {ix : Indexer}.
Context (chainParams : Params) (checkpoints : list Checkpoint) (prefixSource : ix_state -> option ReapPrefixSource).
Context (sigCache : option SigCache) (hashCache : option HashCache) (caches : list thresholdStateCache).

#[local] Abbreviation check := (checkConnectBlock chainParams checkpoints prefixSource sigCache hashCache caches).

(** A block accepted on a view fresh for it. *)
Record connects (b : BlockChain) (view : UtxoViewpoint) (node : blockNode) (block : Block) (base v u : utxo_set)
    (powLimit adjustedTime flags : Z) (s : utxoCache) (view' : UtxoViewpoint) : Prop := {
  cn_stored : stored base (utxoSetBucket (chainDB b));
  cn_cache : standsFor base (bc_cache b) v;
  cn_shows : UtxoCache.shows v view u;
  cn_fresh : fresh_for block view;
  cn_ids : new_ids u (Transactions block);
  cn_sane : block_sane block powLimit adjustedTime flags;
  cn_inputs : Forall (fun tx => Forall wf_outpoint (prevOuts tx)) (Transactions block);
  cn_height : Height block = node_height node;
  cn_bip34 : BIP0034Height chainParams <= node_height node;
  cn_accepted : check b view node block = (s, Ok view') }.

(** Above the last checkpoint scripts are run. *)
Definition runs_scripts (node : blockNode) : Prop :=
  forall c, LatestCheckpoint checkpoints = Some c -> ckpt_Height c < node_height node.

(** What happened to an input of an accepted block. *)
Lemma connects_spends b view node block base v u powLimit adjustedTime flags s view' :
  connects b view node block base v u powLimit adjustedTime flags s view' ->
  exists fees view1 view2 sw csv tr, loaded_ok chainParams checkpoints sigCache hashCache caches b view2 node block view' fees view1 sw csv tr /\
    forall p tx op, Transactions block !! p = Some tx -> op ∈ spentBy tx ->
    exists c, input_spends (node_height node) chainParams u (Transactions block) p tx op view1 c.
Proof using codec_ok.
  intros [Hs Hr Ho Hfr Hids [_ _ _ Hsh _ _ Htx _ Hnd _] Hin Hh H34 E].
  destruct (checkConnectBlock_reads chainParams checkpoints prefixSource sigCache hashCache caches
              b view node block base v u Hs Hr Ho Hin) as [_ H]. rewrite E in H.
  destruct (H view' eq_refl) as (view0 & view2 & nils & s1 & s2 & [Hf Hfirst _ _ Hov _ _ _ Hl]).
  destruct (Hfirst H34) as (-> & -> & ->).
  apply checkLoadedBlock_ok in Hl as (fees & view1 & sw & csv & tr & Hl). exists fees, view1, view2, sw, csv, tr. split; [done|].
  pose proof (fetchInputs_inOrder _ _ _ _ _ _ _ _ _ Hs Hr Ho Hfr Hids Hnd Hsh Hin Hf) as Hord. rewrite Hh in *.
  exact (connectAll_spends _ _ _ v view2 u 0 fees view1 Hov Hord Hids Hnd Htx ltac:(lia) (lk_inputs _ _ _ _ _ _ _ _ _ _ _ _ _ _ _ Hl)).
Qed.

(** What the expiry rule says of an input. *)
Lemma spend_rule tx h view fee ep op e :
  IsCoinBaseTx tx = false -> CheckTransactionInputs tx h view chainParams = Ok fee ->
  GetExpiryParams chainParams = Some ep -> EnableAtHeight ep <= h -> op ∈ prevOuts tx -> entryOf view op = Some e ->
  spend_allowed ep h (isLikelyReapTx tx) e.
Proof.
  intros Hcb H Hep Hen Hop He. unfold CheckTransactionInputs in H. rewrite Hcb in H.
  apply bind_ok in H as (x1 & _ & H). apply bind_ok in H as ([] & Hx & _). unfold checkExpirySpendRules in Hx. rewrite Hep in Hx.
  destruct (Z.ltb_spec h (EnableAtHeight ep)); [lia|].
  assert (Hi : checkExpirySpend ep h (isLikelyReapTx tx) view tt op = Ok tt).
  { revert Hx. generalize (prevOuts tx) Hop. intros l. induction l as [|o l IH]; intros Hin; [by apply not_elem_of_nil in Hin|]. cbn [foldM].
    destruct (checkExpirySpend ep h _ view tt o) as [[]|] eqn:E; result_simpl; [|done].
    apply elem_of_cons in Hin as [->|Hin]; [done|by apply IH]. }
  apply checkExpirySpend_iff in Hi as (e' & He' & Ha). by assert (e' = e) as -> by congruence.
Qed.

(** Which scripts ran for an input that no REAP transaction has. *)
Lemma connects_runs b view node block base v u powLimit adjustedTime flags s view' :
  connects b view node block base v u powLimit adjustedTime flags s view' -> runs_scripts node -> indices_ok u ->
  hashesRight (Transactions block) (blockPrevOut (node_height node) u (Transactions block)) hashCache ->
  exists fees view1 view2 sw csv tr, loaded_ok chainParams checkpoints sigCache hashCache caches b view2 node block view' fees view1 sw csv tr /\
  forall p tx i ti, Transactions block !! p = Some tx -> IsCoinBaseTx tx = false -> TxIns tx !! i = Some ti ->
  exists c hc, input_spends (node_height node) chainParams u (Transactions block) p tx (PreviousOutPoint ti) view1 c /\
    partialHashes hc tx (FetchPrevOutput view1) = NewTxSigHashes tx (blockPrevOut (node_height node) u (Transactions block)) /\
    (isLikelyReapTx tx = false ->
     runScripts (stxo_PkScript c) tx (Z.of_nat i)
       (blockScriptFlags chainParams (Header block) (node_height node) (Bip16Activation <=? node_timestamp node) csv sw tr)
       sigCache hc (stxo_Amount c) (FetchPrevOutput view1) = Some (Ok tt)).
Proof using codec_ok.
  intros Hc Hck Hix Hhc. pose proof (connects_spends _ _ _ _ _ _ _ _ _ _ _ _ Hc) as (fees & view1 & view2 & sw & csv & tr & Hl & Hsp).
  exists fees, view1, view2, sw, csv, tr. split; [done|]. set (h := node_height node) in *. set (txs := Transactions block) in *.
  destruct (cn_sane _ _ _ _ _ _ _ _ _ _ _ _ Hc) as [_ _ _ _ _ _ Htx _ Hnd _]. fold txs in Htx, Hnd.
  pose proof (cn_ids _ _ _ _ _ _ _ _ _ _ _ _ Hc) as Hids. fold txs in Hids.
  assert (Hfetch : forall tx op, tx ∈ txs -> IsCoinBaseTx tx = false -> op ∈ prevOuts tx ->
            blockPrevOut h u txs op = FetchPrevOutput view1 op).
  { intros tx op [p Hp]%list_elem_of_lookup Hcb Hop. destruct (Hsp p tx op Hp) as [c Hi]; [unfold spentBy; by rewrite Hcb|].
    unfold blockPrevOut. rewrite (input_seen _ _ _ _ _ _ _ _ _ Hnd Hids Hp Hi). destruct (is_shown _ _ _ _ _ _ _ _ _ Hi) as (e & He & <-).
    unfold FetchPrevOutput. by rewrite He. }
  destruct (runBlockScripts_ok block view1 _ sigCache hashCache
              (lk_scripts _ _ _ _ _ _ _ _ _ _ _ _ _ _ _ Hl Hck) Hnd
              (hashesRight_ext _ _ _ _ Hfetch Hhc)) as (hc' & Hr' & Hval).
  intros p tx i ti Hp Hcb Hti.
  assert (Hop : PreviousOutPoint ti ∈ prevOuts tx) by (apply list_elem_of_fmap; exists ti; split; [done|by apply list_elem_of_lookup_2 in Hti]).
  assert (Htin : tx ∈ txs) by (by apply list_elem_of_lookup_2 in Hp).
  destruct (Hsp p tx (PreviousOutPoint ti) Hp) as [c Hi]; [unfold spentBy; by rewrite Hcb|].
  exists c, (txSigHashes view1 (segwitFlag (blockScriptFlags chainParams (Header block) h (Bip16Activation <=? node_timestamp node) csv sw tr)) hc' tx).
  split; [done|]. split.
  - rewrite (txSigHashes_right txs) by done. apply NewTxSigHashes_ext. intros op Hop'. symmetry. by apply (Hfetch tx).
  - intros Hre. apply (validateInput_runs view1 _ sigCache (txSigHashes view1 _ hc') tx i ti c); [|exact (is_shown _ _ _ _ _ _ _ _ _ Hi)].
    apply Hval; [done|done|done|].
    destruct (seenCoins_origin _ _ _ _ _ (input_seen _ _ _ _ _ _ _ _ _ Hnd Hids Hp Hi)) as [Hu|Hcr]; [by apply (Hix _ c)|].
    by apply (created_index h txs).
Qed.

Lemma connects_applies b view node block base v u powLimit adjustedTime flags s view' :
  connects b view node block base v u powLimit adjustedTime flags s view' ->
  exists u' cs, applyTxs (node_height node) u (Transactions block) = Some (u', cs) /\ UtxoCache.shows v view' u' /\
    supply u' <= supply u + CalcBlockSubsidy (node_height node) chainParams.
Proof using codec_ok.
  intros [Hs Hr Ho Hfr Hids Hsa Hin Hh H34 E].
  pose proof (accepted_applies chainParams checkpoints prefixSource sigCache hashCache caches b view node block base v u
           powLimit adjustedTime flags s view' Hs Hr Ho Hfr Hids Hsa Hin Hh H34 E) as H. rewrite Hh in H. exact H.
Qed.

(** C3: a block accepted on top of the tip is a block of the ledger, and makes no
    more money than it may: when [checkConnectBlock] accepts a block whose
    transaction ids are new on a view without entries for its outputs, at a height
    at which BIP 34 applies, then its transactions, in their order, apply to the
    ledger (each input is an unspent coin that the ledger, or an earlier
    transaction of the block, made), the view it returns shows the ledger after
    them, and the coins of that ledger are worth no more than those before and
    the subsidy of the height. *)
Theorem accepted_block_applies b view node block base v u powLimit adjustedTime flags s view' :
  connects b view node block base v u powLimit adjustedTime flags s view' ->
  exists u' cs, applyTxs (node_height node) u (Transactions block) = Some (u', cs) /\ UtxoCache.shows v view' u' /\
    supply u' <= supply u + CalcBlockSubsidy (node_height node) chainParams.
Proof using codec_ok. apply connects_applies. Qed.
End spending.

(** ** The flags of a block on the networks of the fork *)

Section consensus.
Context `{Curve : Secp256k1} {CurveLaws : Secp256k1Laws Curve} `{Hash160 : Ripemd160} {Hash160Laws : Ripemd160Laws Hash160} `{Picks : MapPick}.
Context {codec : KeyCodec} {codec_ok : RecoversKeys} {ix : Indexer}.
Context (chainParams : Params) (checkpoints : list Checkpoint) (prefixSource : ix_state -> option ReapPrefixSource).
Context (sigCache : option SigCache) (hashCache : option HashCache) (caches : list thresholdStateCache).

(** All the rules of the fork are in force for a block. *)
Record rules_on (header : BlockHeader) (node : blockNode) : Prop := {
  on_net : chainParams ∈ forkNets;
  on_checkpoint : runs_scripts checkpoints node;
  on_caches : length caches = length (Deployments chainParams);
  on_parent : exists parent, nodeParent node = Some parent /\ wf_node parent;
  on_version : 4 <= bh_Version header;
  on_heights : BIP0065Height chainParams <= node_height node /\ BIP0066Height chainParams <= node_height node;
  on_time : Bip16Activation <= node_timestamp node;
  on_replay : IsOBTCReplayProtectionActive chainParams (node_height node) = true;
  on_expiry : exists ep, GetExpiryParams chainParams = Some ep /\ EnableAtHeight ep <= node_height node }.

Lemma rules_on_flags header node b view2 block view' fees view1 sw csv tr :
  rules_on header node ->
  loaded_ok chainParams checkpoints sigCache hashCache caches b view2 node block view' fees view1 sw csv tr ->
  blockScriptFlags chainParams header (node_height node) (Bip16Activation <=? node_timestamp node) csv sw tr = consensusFlags.
Proof.
  intros [Hnet _ Hlen (parent & Hp & Hwf) Hv [H65 H66] Ht Hre _] [Hsw Hcsv Htr _ _ _ _ _]. rewrite Hp in *.
  assert (Ha : forall id act, id ∈ [DeploymentCSV; DeploymentSegwit; DeploymentTaproot] ->
            (deploymentActive chainParams (bc_nodes b) caches (Some parent) id).2 = Ok act -> act = true).
  { intros id act Hid. unfold deploymentActive. rewrite obtc_deployment_active by done. cbn. by intros [= <-]. }
  rewrite (Ha DeploymentCSV csv), (Ha DeploymentSegwit sw), (Ha DeploymentTaproot tr);
    [|by do 2 right; left|done|by right; left|done|by left|done].
  unfold blockScriptFlags, ApplyOBTCReplayProtectionScriptFlag. rewrite Hre, (proj2 (Z.leb_le _ _) Ht),
    (proj2 (Z.leb_le _ _) Hv), (proj2 (Z.leb_le _ _) H65), (proj2 (Z.leb_le _ _) H66), (proj2 (Z.leb_le 3 _)) by lia.
  vm_compute. reflexivity.
Qed.

(** C1: on the networks of the fork, once all rules are in force, coins move only
    as their scripts allow, or when they have expired. Every input of a block that
    is accepted on top of the tip spends a coin of the ledger before its
    transaction. Either the transaction carries the REAP marker and the coin has
    expired; or it does not, the coin has not expired (unless it has the height
    that marks unconfirmed coins), and its script succeeds under the consensus
    rules, which for a pay-to-witness-pubkey-hash coin means that the input has a
    signature of the key the coin names, over the replay protected digest of
    the transaction, and nothing else. The signature cache and the hash cache play
    no part. *)
Theorem coins_move_by_script_or_expiry b view node block base v u powLimit adjustedTime flags s view' ep p tx i ti :
  connects chainParams checkpoints prefixSource sigCache hashCache caches
    b view node block base v u powLimit adjustedTime flags s view' ->
  rules_on (Header block) node -> GetExpiryParams chainParams = Some ep ->
  indices_ok u -> cacheSound sigCache ->
  hashesRight (Transactions block) (blockPrevOut (node_height node) u (Transactions block)) hashCache ->
  Transactions block !! p = Some tx -> IsCoinBaseTx tx = false -> TxIns tx !! i = Some ti ->
  exists up cs c, applyTxs (node_height node) u (take p (Transactions block)) = Some (up, cs) /\
    up !! PreviousOutPoint ti = Some c /\
    let expiry := i32 (CalculateExpiryKey ep (stxo_Height c)) in
    if isLikelyReapTx tx then expiry <= node_height node
    else (stxo_Height c = unminedInputHeight \/ node_height node < expiry) /\
      (exists hc fetch, runScripts (stxo_PkScript c) tx (Z.of_nat i) consensusFlags None hc (stxo_Amount c) fetch = Some (Ok tt) /\
         partialHashes hc tx fetch = NewTxSigHashes tx (blockPrevOut (node_height node) u (Transactions block))) /\
      forall kh, stxo_PkScript c = [OP_0; 20] ++ kh -> zlen kh = 20 ->
        SignatureScript ti = [] /\
        keyHashSpend kh tx (Z.of_nat i) (Witness ti) None (stxo_Amount c)
          (blockPrevOut (node_height node) u (Transactions block)).
Proof using CurveLaws Hash160Laws codec_ok.
  intros Hc Hon Hep Hix Hsc Hhc Hp Hcb Hti.
  destruct (connects_runs _ _ _ _ _ _ _ _ _ _ _ _ _ _ _ _ _ _ Hc (on_checkpoint _ _ Hon) Hix Hhc) as (fees & view1 & view2 & sw & csv & tr & Hl & Hall).
  destruct (Hall p tx i ti Hp Hcb Hti) as (c & hc & [(up & cs & Hup & Hc1) (w & fee & e & Hck & He & <-) _] & Hph & Hrun).
  exists up, cs, (entryStxo e). split; [done|]. split; [done|]. cbv zeta.
  assert (Hop : PreviousOutPoint ti ∈ prevOuts tx) by (apply list_elem_of_fmap; exists ti; split; [done|by apply list_elem_of_lookup_2 in Hti]).
  destruct (on_expiry _ _ Hon) as (ep' & Hep' & Hen). assert (ep' = ep) as -> by congruence.
  pose proof (spend_rule _ tx (node_height node) w fee ep _ e Hcb Hck Hep Hen Hop He) as Hrule. unfold spend_allowed, expiryHeight in Hrule.
  destruct (isLikelyReapTx tx) eqn:Hre.
  { destruct (blockHeight e =? unminedInputHeight); [done|]. symmetry in Hrule. by apply Z.leb_le in Hrule. }
  specialize (Hrun eq_refl). rewrite (rules_on_flags _ _ _ _ _ _ _ _ _ _ _ Hon Hl), runScripts_cached in Hrun by done. split; [|split].
  - cbn [entryStxo stxo_Height]. destruct (Z.eqb_spec (blockHeight e) unminedInputHeight); [by left|right].
    symmetry in Hrule. by apply Z.leb_gt in Hrule.
  - by exists hc, (FetchPrevOutput view1).
  - intros kh Hpk Hkh. rewrite Hpk in Hrun. pose proof (lookup_lt_Some _ _ _ Hti) as Hlt.
    apply (p2wpkh_spends kh tx (Z.of_nat i) ti) in Hrun as [Hsig Hsp]; [|done|unfold zlen; lia|by rewrite Nat2Z.id].
    split; [done|]. unfold keyHashSpend in *. by setoid_rewrite Hph in Hsp.
Qed.
End consensus.

(** ** A block, for the witnesses *)

#[local] Existing Instances bitCodec bitCodec_recovers truncatedHash truncatedHash_laws noPicks.

#[local] Instance noIndex : Indexer := {|
  ix_state := unit; ix_key := []; ixConnectBlock _ _ _ := Ok tt; ixDisconnectBlock _ _ _ := Ok tt |}.

(** A chain of headers, ten minutes apart. *)
Fixpoint testNode (k : nat) : blockNode :=
  let parent := match k with O => None | S k' => Some (testNode k') end in
  Node parent (parent ≫= fun p => Ancestor p (getAncestorHeight (Z.of_nat k)))
    (mkNodeData (le_bytes 32 (Z.of_nat k)) 0 (Z.of_nat k) 4 0x207fffff 0 (1700000000 + 600 * Z.of_nat k) zeroHash).

Lemma testNode_parent k : nodeParent (testNode (S k)) = Some (testNode k).
Proof. reflexivity. Qed.

Lemma testNode_wf k : (k < 1000)%nat -> wf_node (testNode k) /\ node_height (testNode k) = Z.of_nat k.
Proof.
  induction k as [|k IH]; intros Hk; [split; [by constructor|done]|]. destruct (IH ltac:(lia)) as [Hw Hh]. split; [|done].
  exact (wf_child (testNode k) (mkNodeData _ 0 (Z.of_nat (S k)) _ _ _ _ _) Hw ltac:(cbn [nd_height]; lia) ltac:(cbn [nd_height]; lia)).
Qed.

Definition anyoneOp : OutPoint := mkOutPoint (replicate 32 7) 0.
Definition anyoneCoin : SpentTxOut := mkSpentTxOut 1000000 [OP_1] 100 false.
Definition anyoneLedger : utxo_set := {[ anyoneOp := anyoneCoin ]}.

Definition blockCoinbase (value : Z) : MsgTx :=
  mkMsgTx 1 [mkTxIn nullOutPoint [2; 150; 0] [] (2^32 - 1)] [mkTxOut value [OP_1]] 0.
Definition anyoneSpend : MsgTx := mkMsgTx 2 [mkTxIn anyoneOp [] [] (2^32 - 1)] [mkTxOut 900000 [OP_1]] 0.

Definition anyoneRoot : list Z := Eval vm_compute in
  default [] (merkleRoot (map TxHash [blockCoinbase 5000100000; anyoneSpend])).
Definition anyoneHeader : BlockHeader := Eval vm_compute in
  mkBlockHeader 4 (node_hash (testNode 149)) anyoneRoot (node_timestamp (testNode 150)) 0x207fffff 0.
Definition anyoneBlock : Block := mkBlock 150 anyoneHeader [blockCoinbase 5000100000; anyoneSpend].

Definition freshView : UtxoViewpoint := SetBestHash NewUtxoViewpoint (node_hash (testNode 149)).

#[local] Abbreviation sampleCheck b view block :=
  (checkConnectBlock (Curve := secp256k1) ObtcTestNetParams [] (fun _ => None) None None (newThresholdCaches 6)
    b view (testNode 150) block).

Definition isOk {E A} (r : result E A) : bool := match r with Ok _ => true | Err _ => false end.

Lemma isOk_inv {E A} (r : result E A) : isOk r = true -> exists a, r = Ok a.
Proof. destruct r as [a|]; [by exists a|done]. Qed.

Definition ledgerChain (u : utxo_set) : BlockChain :=
  mkBlockChain (mkStore (mkChainDB ∅ ∅ (storeLedger u) ∅ ∅ ∅) ∅ tt)
    (mkBlockIndex ∅ ∅ ∅) (viewOf (testNode 149)) (newUtxoCache 0) (newBestState (testNode 149) 0 0 1 1 0).

Lemma anyoneLedger_wf : map_Forall wf_coin anyoneLedger.
Proof. apply map_Forall_singleton. split; [by vm_compute|]. by vm_compute. Qed.

Lemma anyoneBlock_ids : new_ids anyoneLedger (Transactions anyoneBlock).
Proof.
  intros op c tx Hc Htx. unfold anyoneLedger in Hc. apply lookup_singleton_Some in Hc as [<- _].
  assert (Hall : forallb (fun tx => negb (bool_decide (Hash anyoneOp = TxHash tx))) (Transactions anyoneBlock) = true)
    by (vm_compute; reflexivity).
  rewrite forallb_forall in Hall. specialize (Hall tx (proj1 (list_elem_of_In _ _) Htx)).
  intros E. rewrite (bool_decide_eq_true_2 _ E) in Hall. discriminate Hall.
Qed.

Lemma anyoneBlock_sane : block_sane anyoneBlock (PowLimit ObtcTestNetParams) 1800000000 BFNoPoWCheck.
Proof. apply checkBlockSanity_spec. vm_compute. reflexivity. Qed.

Lemma anyoneBlock_connects :
  exists s view', connects (Curve := secp256k1) ObtcTestNetParams [] (fun _ => None) None None (newThresholdCaches 6)
    (ledgerChain anyoneLedger) freshView (testNode 150) anyoneBlock anyoneLedger anyoneLedger anyoneLedger
    (PowLimit ObtcTestNetParams) 1800000000 BFNoPoWCheck s view'.
Proof.
  assert (H : isOk (sampleCheck (ledgerChain anyoneLedger) freshView anyoneBlock).2 = true) by (vm_compute; reflexivity).
  destruct (sampleCheck (ledgerChain anyoneLedger) freshView anyoneBlock) as [s r] eqn:E. apply isOk_inv in H as [view' Hr].
  cbn [snd] in Hr. subst r. exists s, view'. split.
  - exact (stored_storeLedger _ anyoneLedger_wf).
  - exact (standsFor_new _ 0 anyoneLedger_wf).
  - apply shows_new.
  - intros op tx _ _. apply lookup_empty.
  - exact anyoneBlock_ids.
  - exact anyoneBlock_sane.
  - apply Forall_forall. intros tx Htx. assert (H : forallb (fun tx => forallb (fun op => bool_decide (wf_outpoint op)) (prevOuts tx)) (Transactions anyoneBlock) = true)
      by (vm_compute; reflexivity).
    rewrite forallb_forall in H. specialize (H tx (proj1 (list_elem_of_In _ _) Htx)). rewrite forallb_forall in H.
    apply Forall_forall. intros op Hop. apply (bool_decide_unpack _), Is_true_true_2, H. by apply list_elem_of_In.
  - reflexivity.
  - vm_compute. discriminate.
  - exact E.
Qed.

Lemma accepted_block_applies_witness :
  exists u' cs, applyTxs 150 anyoneLedger (Transactions anyoneBlock) = Some (u', cs) /\ supply u' <= 1000000 + 5000000000.
Proof.
  destruct anyoneBlock_connects as (s & view' & Hc).
  destruct (accepted_block_applies ObtcTestNetParams [] (fun _ => None) None None (newThresholdCaches 6)
    _ _ _ _ _ _ _ _ _ _ _ _ Hc) as (u' & cs & Happ & _ & Hle).
  exists u', cs. split; [exact Happ|]. exact Hle.
Defined.

Lemma coins_move_by_script_or_expiry_witness :
  exists up cs c, applyTxs 150 anyoneLedger [blockCoinbase 5000100000] = Some (up, cs) /\ up !! anyoneOp = Some c /\
    exists hc fetch, runScripts (Curve := secp256k1) (stxo_PkScript c) anyoneSpend 0 consensusFlags None hc (stxo_Amount c) fetch
                     = Some (Ok tt).
Proof.
  destruct anyoneBlock_connects as (s & view' & Hc). destruct (GetExpiryParams ObtcTestNetParams) as [ep|] eqn:Eep; [|discriminate Eep].
  destruct (coins_move_by_script_or_expiry ObtcTestNetParams [] (fun _ => None) None None (newThresholdCaches 6)
    _ _ _ _ _ _ _ _ _ _ _ _ ep 1 anyoneSpend 0 (mkTxIn anyoneOp [] [] (2^32 - 1)) Hc) as (up & cs & c & Happ & Hl & H).
  - split.
    + right. left.
    + intros c0 Hn. discriminate Hn.
    + reflexivity.
    + exists (testNode 149). split; [exact (testNode_parent 149)|]. exact (proj1 (testNode_wf 149 ltac:(lia))).
    + vm_compute. discriminate.
    + split; vm_compute; discriminate.
    + vm_compute. discriminate.
    + vm_compute. reflexivity.
    + eexists. split; [reflexivity|]. vm_compute. discriminate.
  - exact Eep.
  - apply map_Forall_singleton. vm_compute. discriminate.
  - exact I.
  - intros h tx sh Hn. discriminate Hn.
  - reflexivity.
  - vm_compute. reflexivity.
  - reflexivity.
  - exists up, cs, c. split; [exact Happ|]. split; [exact Hl|].
    assert (Hr : isLikelyReapTx anyoneSpend = false) by (vm_compute; reflexivity). rewrite Hr in H.
    destruct H as (_ & (hc & fetch & Hrun & _) & _). exists hc, fetch. exact Hrun.
Defined.
