(* ===== verification/ContextProps.v ===== *)
(** * What the checks of the place of a block in the chain guarantee

    Theorems on BlockContext.v and the lock time checks of CheckConnect.v: a header
    accepted on top of a node keeps the times of the chain and has the difficulty
    the rules ask for; relative lock times are exactly those of BIP 68; and the
    main network of the fork refuses the block versions of the history it is meant
    to share. *)

From S2P Require Import Prelude ChainParams Sha256 Wire Encode Script ScriptNum Standard SigHash Signature Taproot Engine Opcodes EngineExec Block Compress Bucket IndexDB Ledger UtxoView WorkMath ChainIO ChainStore BlockNode Difficulty Threshold UtxoCache ChainView Text ReapRules Merkle ChainState BlockSanity BlockContext CheckConnect ChainInv ChainVerify ConnectProps SpendProps.

(** ** Headers *)

(** What a header must satisfy after [prevNode]. *)
Record header_fits (chainParams : Params) (header : BlockHeader) (prevNode : blockNode) : Prop := {
  hf_bits : calcNextRequiredDifficulty (Some prevNode) (bh_Timestamp header) chainParams = Ok (bh_Bits header);
  hf_time : CalcPastMedianTime prevNode < bh_Timestamp header;
  hf_warp : EnforceBIP94 chainParams = true -> Z.rem (i32 (node_height prevNode + 1)) (blocksPerRetarget chainParams) = 0 ->
    node_timestamp prevNode - maxTimeWarp <= bh_Timestamp header }.

Lemma checkHeaderAgainstParent_ok chainParams header prevNode :
  checkHeaderAgainstParent chainParams header prevNode = Ok tt -> header_fits chainParams header prevNode.
Proof.
  unfold checkHeaderAgainstParent. intros (bits & Hd & H)%bind_ok.
  destruct (calcNextRequiredDifficulty _ _ _) as [d|] eqn:Ed; cbn [liftDifficulty] in Hd; [|done]. injection Hd as <-.
  destruct (Z.eqb_spec (bh_Bits header) d) as [Eb|]; cbn [negb] in H; [|done]. subst d.
  destruct (Z.ltb_spec (CalcPastMedianTime prevNode) (bh_Timestamp header)) as [Ht|]; cbn [negb] in H; [|done].
  split; [done|done|]. intros He Hr. rewrite He in H. unfold assertNoTimeWarp in H.
  destruct (blocksPerRetarget chainParams =? 0); [done|]. rewrite Hr in H. cbn [Z.eqb negb] in H.
  destruct (Z.ltb_spec (bh_Timestamp header) (node_timestamp prevNode - maxTimeWarp)); [done|lia].
Qed.

Lemma CheckBlockHeaderContext_ok chainParams checkpoints header prevNode flags index bestChain cs skip cs' :
  CheckBlockHeaderContext chainParams checkpoints header prevNode flags index bestChain cs skip = (cs', Ok tt) ->
  (hasBehavior flags BFFastAdd = false -> header_fits chainParams header prevNode) /\
  versionTooOld chainParams header (i32 (node_height prevNode + 1)) = false /\
  (skip = false -> verifyCheckpoint checkpoints (i32 (node_height prevNode + 1)) (BlockHash header) = true /\
     forall checkpoint, (findPreviousCheckpoint checkpoints index bestChain cs).2 = Ok (Some checkpoint) ->
       node_height checkpoint <= i32 (node_height prevNode + 1)).
Proof.
  unfold CheckBlockHeaderContext.
  destruct (if hasBehavior flags BFFastAdd then Ok tt else _) as [[]|] eqn:Ef; [|done].
  destruct (versionTooOld _ _ _) eqn:Ev; [done|]. intros H. split; [|split; [done|]].
  - intros Hf. rewrite Hf in Ef. by apply checkHeaderAgainstParent_ok.
  - intros ->. destruct (verifyCheckpoint _ _ _); [|by cbn [negb] in H]. cbn [negb] in H. split; [done|]. intros ck Hck.
    destruct (findPreviousCheckpoint _ _ _ _) as [cs1 r]. cbn [snd] in Hck. subst r.
    destruct (Z.ltb_spec (i32 (node_height prevNode + 1)) (node_height ck)); [done|lia].
Qed.


(** The main network of the fork refuses every header with a version below 4 on top
    of any block, with any flags, checkpoints and caches: the three heights are 1,
    although its genesis block, of version 1, is that of Bitcoin. *)
Lemma mainnet_refuses_old_versions checkpoints header prevNode flags index bestChain cs skip cs' :
  wf_node prevNode -> node_height prevNode < 2^31 - 1 -> bh_Version header < 4 ->
  CheckBlockHeaderContext ObtcMainNetParams checkpoints header prevNode flags index bestChain cs skip <> (cs', Ok tt).
Proof.
  intros Hwf Hh Hv (_ & H & _)%CheckBlockHeaderContext_ok. pose proof (wf_node_height _ Hwf). revert H.
  rewrite i32_id by (unfold is_i32; lia). unfold versionTooOld. change (BIP0065Height ObtcMainNetParams) with 1.
  change (BIP0066Height ObtcMainNetParams) with 1. change (BIP0034Height ObtcMainNetParams) with 1.
  rewrite (proj2 (Z.ltb_lt (bh_Version header) 4)), (proj2 (Z.leb_le 1 _)) by lia. cbn [andb]. by rewrite orb_true_r.
Qed.

(** ** Relative lock times *)

Definition lockDisabled (sequence : Z) : bool := Z.land sequence 0x80000000 =? 0x80000000.
Definition lockByTime (sequence : Z) : bool := Z.land sequence 0x400000 =? 0x400000.
Definition lockValue (sequence : Z) : Z := Z.land sequence 0xffff.

(** BIP 68 for one input of the block of [node], with the coin at [h]: so many
    blocks after it, or so many units of 512 seconds after the median time before
    it. *)
Definition input_matures (node parent : blockNode) (h sequence : Z) : Prop :=
  lockDisabled sequence = true \/
  if lockByTime sequence then
    exists anc, Ancestor node (Z.max 0 (h - 1)) = Some anc /\ CalcPastMedianTime anc + 512 * lockValue sequence <= CalcPastMedianTime parent
  else h + lockValue sequence <= node_height node.

Definition input_unlocked (node parent : blockNode) (view : UtxoViewpoint) (txIn : TxIn) : Prop :=
  exists e, LookupEntry view (PreviousOutPoint txIn) = Some e /\ input_matures node parent (blockHeight e) (Sequence txIn).

Lemma lockValue_range s : 0 <= lockValue s < 2^16.
Proof. unfold lockValue. change 0xffff with (Z.ones 16). rewrite Z.land_ones by lia. apply Z.mod_pos_bound. lia. Qed.

Definition stamps_ok (n : blockNode) : Prop := Forall (fun m => is_u32 (node_timestamp m)) (branch n).

Lemma medianTime_range n : stamps_ok n -> is_u32 (CalcPastMedianTime n).
Proof.
  intros Hs. assert (Hw : forall j m, Forall (fun x => is_u32 (node_timestamp x)) (branch m) -> Forall is_u32 (pastTimestamps j m)).
  { induction j as [|j IH]; intros m Hm; [constructor|]. rewrite pastTimestamps_S. rewrite branch_unfold in Hm.
    apply Forall_cons_1 in Hm as [H1 H2]. constructor; [done|]. destruct (nodeParent m); [by apply IH|constructor]. }
  specialize (Hw medianTimeBlocks n Hs). unfold CalcPastMedianTime, medianOf. set (w := pastTimestamps medianTimeBlocks n) in *.
  destruct (sortTimes_spec w) as [_ HP]. assert (Hin : nth (length w / 2) (sortTimes w) 0 ∈ sortTimes w).
  { apply list_elem_of_In, nth_In. rewrite HP. subst w. unfold medianTimeBlocks. rewrite (pastTimestamps_S 10). apply Nat.div_lt; cbn [length]; lia. }
  apply (elem_of_Permutation_proper _ _ _ HP) in Hin. rewrite Forall_forall in Hw. by apply Hw.
Qed.

Lemma stamps_ok_Ancestor n h m : wf_node n -> stamps_ok n -> Ancestor n h = Some m -> stamps_ok m.
Proof.
  intros Hw Hs H. rewrite Ancestor_atHeight in H by done. unfold atHeight in H. destruct (_ || _); [done|].
  destruct (branch_lookup _ _ _ Hw H) as (_ & _ & Hd). unfold stamps_ok in *. rewrite Hd. by apply Forall_drop.
Qed.

Section locks.
Context (chainParams : Params) (index : blockIndex) (caches : list thresholdStateCache).
Context (node parent : blockNode) (view : UtxoViewpoint).
Context (Hwf : wf_node node) (Hheight : node_height node < 2^31 - 2^16) (Hstamps : stamps_ok node).
Context (Hcoins : map_Forall (fun _ e => 0 <= blockHeight e <= node_height node) (entries view)).

#[local] Abbreviation active l := (SequenceLockActive l (node_height node) (CalcPastMedianTime parent)).

Lemma SequenceLockActive_iff l : active l = true <-> Seconds l < CalcPastMedianTime parent /\ lockHeight l < node_height node.
Proof.
  unfold SequenceLockActive. rewrite negb_true_iff, orb_false_iff, !Z.leb_gt. done.
Qed.

(** The lock of one input. *)
Lemma lockInput_spec l txIn :
  match lockInput node view l txIn with
  | Ok l' => active l' = true <-> active l = true /\ input_unlocked node parent view txIn
  | Err _ => ~ input_unlocked node parent view txIn
  end.
Proof using Hwf Hheight Hstamps Hcoins.
  unfold lockInput. destruct (LookupEntry view (PreviousOutPoint txIn)) as [e|] eqn:He.
  2: { intros (e & E & _). congruence. }
  assert (Hun : input_unlocked node parent view txIn <-> input_matures node parent (blockHeight e) (Sequence txIn)).
  { unfold input_unlocked. rewrite He. split; [by intros (? & [= ->] & ?)|eauto]. }
  pose proof (Hcoins _ _ He) as Hh. cbn beta in Hh. pose proof (lockValue_range (Sequence txIn)) as Hv.
  rewrite (proj2 (Z.eqb_neq (blockHeight e) unminedInputHeight)) by (unfold unminedInputHeight; lia).
  unfold input_matures, lockDisabled, lockByTime in Hun. fold (lockValue (Sequence txIn)).
  destruct (Z.land (Sequence txIn) 0x80000000 =? 0x80000000); [tauto|].
  destruct (Z.land (Sequence txIn) 0x400000 =? 0x400000).
  - assert (Hp : (if i32 (blockHeight e - 1) <? 0 then 0 else i32 (blockHeight e - 1)) = Z.max 0 (blockHeight e - 1)).
    { rewrite i32_id by (unfold is_i32; lia). destruct (Z.ltb_spec (blockHeight e - 1) 0); lia. }
    rewrite Hp. destruct (Ancestor node (Z.max 0 (blockHeight e - 1))) as [anc|] eqn:Ea; [|rewrite Hun; by intros [?|(? & ? & _)]].
    pose proof (medianTime_range anc (stamps_ok_Ancestor _ _ _ Hwf Hstamps Ea)) as Hm. unfold is_u32 in Hm.
    rewrite Z.shiftl_mul_pow2, i64_id by (unfold is_i64; lia).
    assert (Hiff : input_unlocked node parent view txIn <->
       CalcPastMedianTime anc + 512 * lockValue (Sequence txIn) <= CalcPastMedianTime parent).
    { rewrite Hun. split; [by intros [?|(? & [= <-] & ?)]|eauto]. }
    rewrite Hiff, !SequenceLockActive_iff. clear Hun Hiff Hp.
    destruct (Z.ltb_spec (Seconds l) (CalcPastMedianTime anc + (lockValue (Sequence txIn) * 2 ^ 9 - 1))); cbn [Seconds lockHeight]; lia.
  - rewrite (i32_id (_ - 1)), i32_id by (unfold is_i32; lia). rewrite Hun, !SequenceLockActive_iff. clear Hun.
    destruct (Z.ltb_spec (lockHeight l) (blockHeight e + (lockValue (Sequence txIn) - 1))); cbn [Seconds lockHeight];
      split; [intros []; split; [lia|right; lia]|intros [? [?|?]]; [done|lia]|intros []; split; [lia|right; lia]|intros [? _]; lia].
Qed.

Lemma lockInputs_spec l ins :
  match foldM (lockInput node view) l ins with
  | Ok l' => active l' = true <-> active l = true /\ Forall (input_unlocked node parent view) ins
  | Err _ => ~ Forall (input_unlocked node parent view) ins
  end.
Proof using Hwf Hheight Hstamps Hcoins.
  revert l; induction ins as [|txIn ins IH]; intros l; cbn [foldM]; [pose proof (Forall_nil_2 (input_unlocked node parent view)); tauto|].
  pose proof (lockInput_spec l txIn) as H.
  pose proof (Forall_cons (input_unlocked node parent view) txIn ins) as Hcons.
  destruct (lockInput node view l txIn) as [l1|]; result_simpl; [|tauto]. specialize (IH l1).
  destruct (foldM (lockInput node view) l1 ins); tauto.
Qed.

(** C16: the check of relative lock times is BIP 68. For a block node above its
    parent, once the rule is active, and with coins no higher than the block, the
    check accepts exactly when every input of every transaction of version 2 or
    more (the version read as unsigned), coinbase apart, has its coin in the view
    and either a disabled lock, or as many blocks on the coin as it asks for, or
    its time measured in units of 512 seconds between the median times before the
    coin's block and before this one. No arithmetic of the code overflows. *)
Theorem sequence_locks_iff block :
  (deploymentActive chainParams index caches (nodeParent node) DeploymentCSV).2 = Ok true ->
  0 <= CalcPastMedianTime parent ->
  checkSequenceLocks chainParams caches index node parent view block = Ok tt <->
  Forall (fun tx => 2 <= u32 (Version tx) -> IsCoinBaseTx tx = false -> Forall (input_unlocked node parent view) (TxIns tx))
    (Transactions block).
Proof using Hwf Hheight Hstamps Hcoins.
  intros Hact Hp. unfold checkSequenceLocks. pose proof (wf_node_height _ Hwf) as Hn.
  assert (H0 : active (mkSequenceLock (-1) (-1)) = true) by (apply SequenceLockActive_iff; cbn [Seconds lockHeight]; lia).
  induction (Transactions block) as [|tx txs IH]; cbn [foldM]; [by rewrite Forall_nil|]. rewrite Forall_cons, <- IH. clear IH.
  set (rest := foldM _ tt txs).
  assert (Hc : (calcSequenceLock chainParams index caches node tx view false).2 =
    if negb (2 <=? u32 (Version tx)) || IsCoinBaseTx tx then Ok (mkSequenceLock (-1) (-1))
    else foldM (lockInput node view) (mkSequenceLock (-1) (-1)) (TxIns tx)).
  { unfold calcSequenceLock. destruct (deploymentActive _ _ _ _ _) as [c a]. cbn [snd] in Hact. subst a. cbn [snd]. result_simpl.
    by rewrite andb_true_r. }
  rewrite Hc. clear Hc. destruct (Z.leb_spec 2 (u32 (Version tx))) as [Hv|Hv]; cbn [negb orb].
  2: { result_simpl. rewrite H0. result_simpl. intuition lia. }
  destruct (IsCoinBaseTx tx).
  { result_simpl. rewrite H0. result_simpl. intuition done. }
  pose proof (lockInputs_spec (mkSequenceLock (-1) (-1)) (TxIns tx)) as Hl.
  destruct (foldM (lockInput node view) _ (TxIns tx)) as [l|]; result_simpl; [|intuition done].
  destruct (active l); result_simpl; intuition done.
Qed.
End locks.

(** ** Witnesses *)

Lemma testNode_Forall (P : blockNode -> Prop) k :
  (forall j, (j <= k)%nat -> P (testNode j)) -> Forall P (branch (testNode k)).
Proof.
  induction k as [|k IH]; intros H; rewrite branch_unfold; constructor; [by apply H|constructor|by apply H|].
  rewrite testNode_parent. apply IH. intros j Hj. apply H. lia.
Qed.

Lemma testNode_stamps k : (k < 1000)%nat -> stamps_ok (testNode k).
Proof.
  intros Hk. apply testNode_Forall. intros j Hj. unfold is_u32, node_timestamp.
  destruct j; cbn [testNode nodeInfo nd_timestamp]; lia.
Qed.

Lemma testNode_times : times_ok (testNode 12).
Proof.
  apply testNode_Forall. intros j Hj.
  assert (H : forallb (fun j => match nodeParent (testNode j) with Some p => CalcPastMedianTime p <? node_timestamp (testNode j) | None => true end)
                (seq 0 13) = true) by (vm_compute; reflexivity).
  rewrite forallb_forall in H. specialize (H j (proj2 (in_seq 13 0 j) ltac:(lia))).
  destruct (nodeParent (testNode j)); [by apply Z.ltb_lt|done].
Qed.

Definition nextHeader : BlockHeader := mkBlockHeader 4 (le_bytes 32 12) zeroHash (1700000000 + 600 * 13) 0x207fffff 0.


(** A lock of 51 blocks on a coin of height 100, in block 150. *)
Definition lockedSpend : MsgTx := mkMsgTx 2 [mkTxIn anyoneOp [] [] 51] [mkTxOut 900000 [OP_1]] 0.
Definition lockedView : UtxoViewpoint := mkUtxoViewpoint {[ anyoneOp := mkUtxoEntry 1000000 [OP_1] 100 0 ]} zeroHash.

Lemma sequence_locks_iff_witness :
  checkSequenceLocks ObtcTestNetParams (newThresholdCaches 6) (mkBlockIndex ∅ ∅ ∅) (testNode 150) (testNode 149) lockedView
    (mkBlock 150 nextHeader [lockedSpend]) <> Ok tt.
Proof.
  intros H. apply (sequence_locks_iff ObtcTestNetParams (mkBlockIndex ∅ ∅ ∅) (newThresholdCaches 6) (testNode 150) (testNode 149) lockedView)
    in H.
  - apply Forall_cons_1 in H as [H _]. specialize (H ltac:(vm_compute; discriminate) ltac:(vm_compute; reflexivity)).
    apply Forall_cons_1 in H as [(e & He & [Hd|Hm]) _]; [discriminate Hd|].
    assert (Hl : LookupEntry lockedView anyoneOp = Some (mkUtxoEntry 1000000 [OP_1] 100 0)) by (vm_compute; reflexivity).
    cbn [PreviousOutPoint] in He. rewrite Hl in He. injection He as <-.
    change (lockByTime _) with false in Hm. cbn [blockHeight Sequence] in Hm. apply Z.leb_le in Hm. vm_compute in Hm. discriminate Hm.
  - apply testNode_wf. lia.
  - reflexivity.
  - apply testNode_stamps. lia.
  - apply map_Forall_singleton. split; vm_compute; discriminate.
  - vm_compute. reflexivity.
  - vm_compute. discriminate.
Defined.
