(* ===== verification/DoubleSpend.v ===== *)
(** * A double spend the checks accept

    [findInputsToFetch] puts the outputs of a transaction of the block into the view
    as soon as a later one spends them, and leaves an input alone whose outpoint has
    an entry already. So an earlier transaction that spends such an output is
    refused only because the cache is asked about it; it is not asked when the view
    knows the outpoint, as after detaching a block that had the transaction.

    The first part proves this of any such transactions. The second part runs a
    reorganisation of the whole chain through it. *)

From S2P Require Import Prelude ChainParams Sha256 Wire Encode Script ScriptNum Standard SigHash Signature Taproot Engine Opcodes EngineExec EngineSpec EngineInv EngineCache EngineRun Block Compress Bucket IndexDB Ledger UtxoView WorkMath ChainIO ChainStore BlockNode Difficulty Threshold ReapAgree ReapProps UtxoCache ChainView Text ReapRules Merkle ChainState BlockSanity BlockContext CheckConnect ChainInv ChainVerify ConnectProps SpendProps.

(** ** What the checks of the inputs read *)

Lemma foldM_ext {E S A} (f g : S -> A -> result E S) l s :
  (forall s x, x ∈ l -> f s x = g s x) -> foldM f s l = foldM g s l.
Proof.
  revert s; induction l as [|x l IH]; intros s H; cbn [foldM]; [done|].
  rewrite H by apply list_elem_of_here. destruct (g s x); [|done]. apply IH. intros s' y Hy. by apply H, list_elem_of_further.
Qed.

(** The checks of a transaction read only the entries of its inputs. *)
Lemma CheckTransactionInputs_ext tx h view view' params :
  (forall op, op ∈ prevOuts tx -> entries view !! op = entries view' !! op) ->
  CheckTransactionInputs tx h view params = CheckTransactionInputs tx h view' params.
Proof.
  intros H. unfold CheckTransactionInputs, checkExpirySpendRules, checkReapConsensusHardening, checkReapTaxRules.
  rewrite (foldM_ext (checkInputAmount h view params) (checkInputAmount h view' params));
    [|intros t op Hop; unfold checkInputAmount, LookupEntry; by rewrite H].
  destruct (GetExpiryParams params) as [ep|]; [|done].
  rewrite (foldM_ext (checkExpirySpend ep h (isLikelyReapTx tx) view) (checkExpirySpend ep h (isLikelyReapTx tx) view'));
    [|intros t op Hop; unfold checkExpirySpend, LookupEntry; by rewrite H].
  rewrite (foldM_ext (hardenInput view ep) (hardenInput view' ep));
    [|intros t op Hop; unfold hardenInput, makeReapInputOrderKey, LookupEntry; by rewrite H].
  rewrite (foldM_ext (expectRefund view ep) (expectRefund view' ep));
    [|intros t op Hop; unfold expectRefund, LookupEntry; by rewrite H].
  done.
Qed.

(** ** What adding outputs and spending inputs leave in a view *)

(** The entry of a new output does not depend on the view. *)
Lemma AddTxOutsFrom_entry hash cb h i outs op :
  op ∈ (newCoinsFrom hash h cb i outs).*1 ->
  exists e, forall view, entries (AddTxOutsFrom view hash cb h i outs) !! op = Some e.
Proof.
  revert i; induction outs as [|o outs IH]; intros i; cbn [newCoinsFrom AddTxOutsFrom]; [intros H; by apply not_elem_of_nil in H|].
  rewrite fmap_app. intros [H|H]%elem_of_app.
  - destruct (decide (op ∈ (newCoinsFrom hash h cb (S i) outs).*1)) as [Hi|Hn].
    + destruct (IH _ Hi) as [e He]. exists e. intros view. apply He.
    + unfold addTxOut. destruct (IsUnspendable (PkScript o)); [by apply not_elem_of_nil in H|].
      apply list_elem_of_singleton in H as ->. cbn [fst] in *. eexists. intros view.
      rewrite AddTxOutsFrom_new by done. cbn [setEntry entries]. apply lookup_insert_eq.
  - destruct (IH _ H) as [e He]. exists e. intros view. apply He.
Qed.

Lemma AddTxOuts_other view tx h op :
  Hash op <> TxHash tx -> entries (AddTxOuts view tx h) !! op = entries view !! op.
Proof. apply AddTxOutsFrom_other. Qed.

Lemma spendInputs_entries ops view stxos :
  (forall op, op ∈ ops -> is_Some (entries view !! op)) ->
  exists view' stxos', foldM spendInput (view, stxos) ops = Ok (view', stxos') /\
    forall op, op ∉ ops -> entries view' !! op = entries view !! op.
Proof.
  revert view stxos; induction ops as [|o ops IH]; intros view stxos H; cbn [foldM]; [by exists view, stxos|].
  destruct (H o) as [e He]; [apply list_elem_of_here|]. unfold spendInput at 1. rewrite He.
  destruct (IH (setEntry view o (Spend e)) (stxos ++ [entryStxo e])) as (view' & stxos' & E & Hk).
  { intros op Hop. cbn [setEntry entries]. apply lookup_insert_is_Some'. right. by apply H, list_elem_of_further. }
  exists view', stxos'. split; [done|]. intros op [Hne Hn]%not_elem_of_cons. rewrite Hk by done.
  cbn [setEntry entries]. by rewrite lookup_insert_ne.
Qed.

(** Connecting a transaction whose inputs have entries. *)
Lemma connectTransaction_entries view tx h :
  IsCoinBaseTx tx = false -> (forall op, op ∈ prevOuts tx -> is_Some (entries view !! op)) ->
  exists view' stxos, connectTransaction view tx h [] = Ok (view', stxos) /\
    (forall op, op ∉ prevOuts tx -> Hash op <> TxHash tx -> entries view' !! op = entries view !! op) /\
    (forall op w, op ∈ (newCoins h tx).*1 -> entries view' !! op = entries (AddTxOuts w tx h) !! op).
Proof.
  intros Hcb H. destruct (spendInputs_entries (prevOuts tx) view [] H) as (v1 & stxos & E & Hk).
  unfold connectTransaction. rewrite Hcb, E. cbn. eexists _, _. split; [reflexivity|]. split.
  - intros op Hn Hh. rewrite AddTxOuts_other by done. by apply Hk.
  - intros op w Hop. destruct (AddTxOutsFrom_entry _ _ _ _ _ _ Hop) as [e He]. unfold AddTxOuts. by rewrite !He.
Qed.

(** A transaction whose inputs pass, connected to a view with the same entries for them. *)
Lemma connectInputs_entries h params fees view view0 tx fee :
  tx_sane tx -> IsCoinBaseTx tx = false -> CheckTransactionInputs tx h view0 params = Ok fee ->
  (forall op, op ∈ prevOuts tx -> entries view !! op = entries view0 !! op) ->
  0 <= fees <= 2 * MaxSatoshi ->
  exists view', connectInputs h params (fees, view) tx = Ok (fees + fee, view') /\ 0 <= fee <= MaxSatoshi /\
    (forall op, op ∉ prevOuts tx -> Hash op <> TxHash tx -> entries view' !! op = entries view !! op) /\
    (forall op w, op ∈ (newCoins h tx).*1 -> entries view' !! op = entries (AddTxOuts w tx h) !! op).
Proof.
  intros Hs Hcb Hc Hv Hf. destruct (CheckTransactionInputs_ok _ _ _ _ _ Hs Hcb Hc) as (es & Hes & Hfee & _).
  destruct (connectTransaction_entries view tx h Hcb) as (view' & stxos & E & Hk & Hn).
  { intros op Hop. rewrite Hv by done. apply list_elem_of_lookup in Hop as [k Hk].
    destruct (Forall2_lookup_l _ _ _ _ _ Hes Hk) as (e & _ & He). exists e. by apply entryOf_Some in He as [He _]. }
  exists view'. split; [|done]. unfold connectInputs. rewrite (CheckTransactionInputs_ext tx h view view0 params Hv), Hc. cbn.
  rewrite i64_id by (unfold is_i64, MaxSatoshi in *; lia).
  destruct (Z.ltb_spec (fees + fee) fees); [lia|]. by rewrite E.
Qed.

(** ** What loading the inputs of a block leaves in a view *)

Lemma AddTxOuts_bestHash view tx h : bestHash (AddTxOuts view tx h) = bestHash view.
Proof.
  unfold AddTxOuts. generalize 0%nat. revert view. induction (TxOuts tx) as [|o outs IH]; intros view i; cbn [AddTxOutsFrom]; [done|].
  rewrite IH. unfold addTxOut. by destruct (IsUnspendable (PkScript o)).
Qed.

Lemma AddTxOuts_twice view tx h : AddTxOuts (AddTxOuts view tx h) tx h = AddTxOuts view tx h.
Proof.
  pose proof (AddTxOuts_bestHash (AddTxOuts view tx h) tx h) as Hb.
  assert (He : entries (AddTxOuts (AddTxOuts view tx h) tx h) = entries (AddTxOuts view tx h)).
  { apply map_eq. intros op. destruct (decide (op ∈ (newCoins h tx).*1)) as [Hi|Hn].
    - destruct (AddTxOutsFrom_entry _ _ _ _ _ _ Hi) as [e He]. unfold AddTxOuts. by rewrite !He.
    - unfold AddTxOuts. by rewrite (AddTxOutsFrom_new (AddTxOutsFrom _ _ _ _ _ _)) by exact Hn. }
  destruct (AddTxOuts (AddTxOuts view tx h) tx h), (AddTxOuts view tx h). cbn in *. by subst.
Qed.

Lemma txInFlight_none txs hash : hash ∉ map TxHash txs -> txInFlight txs !! hash = None.
Proof.
  intros Hn. destruct (txInFlight txs !! hash) as [k|] eqn:E; [|done]. apply txInFlight_hash in E as (tx & Htx & ->).
  destruct Hn. apply list_elem_of_fmap. exists tx. split; [done|]. by eapply list_elem_of_lookup_2.
Qed.

Lemma txInFlight_at block k tx :
  NoDup (map TxHash (Transactions block)) -> Transactions block !! k = Some tx ->
  txInFlight (Transactions block) !! TxHash tx = Some k.
Proof.
  intros Hids Hk. assert (Hs : is_Some (txInFlight (Transactions block) !! TxHash tx)).
  { assert (Hin : (k, tx) ∈ zip (seq 0 (length (Transactions block))) (Transactions block)).
    { apply list_elem_of_lookup. exists k. apply lookup_zip_with_Some. exists k, tx. split_and!; [done| |done].
      apply lookup_seq. split; [done|]. by apply lookup_lt_Some in Hk. }
    unfold txInFlight. generalize (∅ : gmap (list Z) nat). revert Hin. generalize (zip (seq 0 (length (Transactions block))) (Transactions block)).
    assert (Hkeep : forall (l : list (nat * MsgTx)) (m : gmap (list Z) nat), is_Some (m !! TxHash tx) ->
                      is_Some (foldl (fun m itx => <[TxHash itx.2 := itx.1]> m) m l !! TxHash tx)).
    { induction l as [|x l IH]; intros m Hm; cbn [foldl]; [done|]. apply IH, lookup_insert_is_Some'. by right. }
    induction l as [|x l IH]; intros Hin m; [by apply not_elem_of_nil in Hin|]. cbn [foldl].
    apply elem_of_cons in Hin as [<-|Hin]; [|by apply IH]. apply Hkeep, lookup_insert_is_Some'. by left. }
  destruct Hs as [i Hi]. pose proof Hi as (tx' & Htx' & Hh)%txInFlight_hash.
  by rewrite (sameHash_sameTx block Hids k i tx tx').
Qed.

Section loading.
Context (block : Block).

(** Inputs from other blocks are asked for when the view does not know them. *)
Lemma inputsToFetch_outside i ops view needed :
  (forall op, op ∈ ops -> txInFlight (Transactions block) !! Hash op = None) ->
  foldl (inputToFetch block i) (view, needed) ops = (view, needed ++ filter (fun op => entries view !! op = None) ops).
Proof.
  revert needed; induction ops as [|op ops IH]; intros needed H; cbn [foldl]; [by rewrite filter_nil, app_nil_r|].
  unfold inputToFetch at 2. rewrite H by apply list_elem_of_here.
  assert (H' : forall o, o ∈ ops -> txInFlight (Transactions block) !! Hash o = None) by (intros o Ho; by apply H, list_elem_of_further).
  destruct (entries view !! op) eqn:E.
  - rewrite IH by done. rewrite filter_cons_False; [done|]. by rewrite E.
  - rewrite IH by done. rewrite filter_cons_True by done. by rewrite <- app_assoc.
Qed.

(** Inputs of a later transaction of the block are left alone when the view has an
    entry for them. *)
Lemma inputsToFetch_known i k ops view needed :
  (i < k)%nat -> (forall op, op ∈ ops -> txInFlight (Transactions block) !! Hash op = Some k /\ is_Some (entries view !! op)) ->
  foldl (inputToFetch block i) (view, needed) ops = (view, needed).
Proof.
  intros Hik. induction ops as [|op ops IH]; intros H; cbn [foldl]; [done|].
  destruct (H op) as [Hf [e He]]; [apply list_elem_of_here|].
  unfold inputToFetch at 2. rewrite Hf, He. destruct (Nat.leb_spec k i); [lia|]. apply IH. intros o Ho. by apply H, list_elem_of_further.
Qed.

(** Inputs of an earlier transaction of the block put its outputs into the view. *)
Lemma inputsToFetch_inFlight i k tx ops view needed :
  (k <= i)%nat -> Transactions block !! k = Some tx -> ops <> [] ->
  (forall op, op ∈ ops -> txInFlight (Transactions block) !! Hash op = Some k) ->
  foldl (inputToFetch block i) (view, needed) ops = (AddTxOuts view tx (Height block), needed).
Proof.
  intros Hik Htx. revert view; induction ops as [|op ops IH]; intros view Hne H; [done|]. cbn [foldl].
  unfold inputToFetch at 2. rewrite (H op) by apply list_elem_of_here. destruct (Nat.leb_spec k i); [|lia]. rewrite Htx.
  destruct ops as [|op2 ops]; [done|]. rewrite IH; [|done|intros o Ho; by apply H, list_elem_of_further].
  by rewrite AddTxOuts_twice.
Qed.
End loading.

Lemma fetched_other op ops fetched (m : gmap OutPoint UtxoEntry) :
  op ∉ ops -> foldl (fun es oe => partial_alter (fun _ => oe.2) oe.1 es) m (zip ops fetched) !! op = m !! op.
Proof.
  revert fetched m; induction ops as [|o ops IH]; intros [|f fetched] m Hn; cbn [zip_with foldl]; try done.
  apply not_elem_of_cons in Hn as [Hne Hn]. rewrite IH by done. cbn [fst snd]. by rewrite lookup_partial_alter_ne.
Qed.

Lemma fetchUtxosFromCache_other `{codec : KeyCodec} db s view ops view' s' op :
  fetchUtxosFromCache db s view ops = Ok (view', s') -> op ∉ ops -> entries view' !! op = entries view !! op.
Proof.
  unfold fetchUtxosFromCache. destruct ops as [|o ops]; [by intros [= <- _]|]. intros ([fetched s1] & _ & H)%bind_ok Hn.
  injection H as <- _. cbn [entries]. exact (fetched_other op (o :: ops) fetched (entries view) Hn).
Qed.

(** ** A double spend of a detached output *)

(** Every spendable output of a transaction of a detached block has an entry. *)
Lemma unconnectOutputs_keeps view hash h flags i outs op h' cb :
  is_Some (entries view !! op) \/ op ∈ (newCoinsFrom hash h' cb i outs).*1 ->
  is_Some (entries (unconnectOutputs view hash h flags i outs) !! op).
Proof.
  revert view i; induction outs as [|o outs IH]; intros view i H; cbn [unconnectOutputs newCoinsFrom] in *.
  { destruct H as [H|H]; [done|by apply not_elem_of_nil in H]. }
  apply IH. destruct (IsUnspendable (PkScript o)); [done|]. cbn [setEntry entries app fmap list_fmap fst] in *.
  destruct H as [H|[->|H]%elem_of_cons]; [left; apply lookup_insert_is_Some'; by right|left; rewrite lookup_insert_eq; by eexists|by right].
Qed.

Lemma restoreInput_keeps dbFetch txHash st o st' op :
  restoreInput dbFetch txHash st o = Ok st' -> is_Some (entries st.1.1 !! op) -> is_Some (entries st'.1.1 !! op).
Proof.
  destruct st as [[view pending] used]. unfold restoreInput. destruct pending as [|c pending]; [done|].
  intros (c' & _ & H)%bind_ok. injection H as <-. cbn [fst setEntry entries]. intros H. apply lookup_insert_is_Some'. right.
  destruct (entries view !! o); [done|]. cbn [setEntry entries]. apply lookup_insert_is_Some'. by right.
Qed.

Lemma disconnectTransaction_keeps dbFetch h h' st itx st' op :
  disconnectTransaction dbFetch h st itx = Ok st' ->
  is_Some (entries st.1.1 !! op) \/ op ∈ (newCoins h' itx.2).*1 -> is_Some (entries st'.1.1 !! op).
Proof.
  destruct st as [[view pending] used], itx as [k tx]. unfold disconnectTransaction. cbn [fst snd]. intros H Hop.
  apply (unconnectOutputs_keeps view (TxHash tx) h (if (k =? 0)%nat then tfCoinBase else 0) 0 (TxOuts tx)) in Hop.
  destruct (k =? 0)%nat; [by injection H as <-|].
  eapply (foldM_inv (fun st : undoState => is_Some (entries st.1.1 !! op))); [|intros s o s' Hs _ Hr; by eapply restoreInput_keeps|exact H].
  exact Hop.
Qed.

Lemma disconnectTransactions_keeps dbFetch view0 block stxos view used h tx op :
  disconnectTransactions dbFetch view0 block stxos = Ok (view, used) -> tx ∈ Transactions block ->
  op ∈ (newCoins h tx).*1 -> is_Some (entries view !! op).
Proof.
  unfold disconnectTransactions. destruct (negb _); [done|]. intros ([[view1 pending] used1] & H & E)%bind_ok Htx Hop.
  injection E as <- _. cbn [SetBestHash entries]. apply list_elem_of_lookup in Htx as [k Hk].
  assert (Hin : (k, tx) ∈ reverse (zip (seq 0 (length (Transactions block))) (Transactions block))).
  { apply elem_of_reverse, list_elem_of_lookup. exists k. apply lookup_zip_with_Some. exists k, tx. split_and!; [done| |done].
    apply lookup_seq. split; [done|]. by apply lookup_lt_Some in Hk. }
  change view1 with ((view1, pending, used1).1.1). revert H. generalize (view0, reverse stxos, [] : list SpentTxOut).
  generalize dependent (view1, pending, used1). clear -Hin Hop.
  induction (reverse _) as [|itx l IH]; intros st' st; [by apply not_elem_of_nil in Hin|]. cbn [foldM].
  destruct (disconnectTransaction _ _ st itx) as [st1|] eqn:E1; [|done]. intros H. apply elem_of_cons in Hin as [<-|Hin]; [|by eapply IH].
  eapply (foldM_inv (fun st : undoState => is_Some (entries st.1.1 !! op))); [| |exact H].
  - eapply disconnectTransaction_keeps; [exact E1|]. right. exact Hop.
  - intros s x s' Hs _ Hd. eapply (disconnectTransaction_keeps _ _ h); [exact Hd|]. by left.
Qed.

(** The checks of the inputs and fees of a block: what [checkConnectBlock] does once
    the height is past that of BIP 34. *)
Definition checkInputs `{codec : KeyCodec} (params : Params) (db : ChainDB) (s : utxoCache) (view : UtxoViewpoint) (block : Block)
    : result chain_error (Z * UtxoViewpoint) :=
  '(view2, _) ← liftIO (fetchInputUtxosBut [] db s view block);
  foldM (connectInputs (Height block) params) (0, view2) (Transactions block).

(** A block that [checkConnectBlock] accepts at such a height passes them. *)
Lemma checkConnectBlock_inputs `{Secp256k1} `{Ripemd160} `{MapPick} `{codec : KeyCodec} `{ix : Indexer}
    params checkpoints prefixSource sigCache hashCache caches b view node block s view' :
  checkConnectBlock params checkpoints prefixSource sigCache hashCache caches b view node block = (s, Ok view') ->
  BIP0034Height params <= node_height node -> Height block = node_height node ->
  exists st, checkInputs params (chainDB b) (bc_cache b) view block = Ok st.
Proof.
  intros Hc Hle Hh. unfold checkConnectBlock in Hc. destruct (bool_decide (node_hash node = _)); [done|].
  destruct (negb (bool_decide (bestHash view = _))); [done|].
  rewrite (proj2 (Z.ltb_ge _ _) Hle), andb_false_r in Hc.
  destruct (checkReapBlockHardening block (node_height node) params); [|done]. unfold checkInputs. rewrite Hh. fold (chainDB b) in Hc.
  destruct (fetchInputUtxosBut [] (chainDB b) (bc_cache b) view block) as [[view2 s2]|]; [|done]. injection Hc as _ Hc.
  apply bind_ok in Hc as (x & _ & Hl). apply checkLoadedBlock_ok in Hl as (fees & v1 & sw & csv & tr & Hl).
  exists (fees, v1). by eapply lk_inputs.
Qed.

Lemma pick_NoDup {A} (a b c d x : A) : NoDup [a; b; c; d] -> x = b \/ x = d -> NoDup [a; c; x].
Proof. rewrite !NoDup_cons, !elem_of_cons. intros H [->| ->]; naive_solver. Qed.

Lemma pick_elem {A} (a b c d x y : A) : y ∉ [a; b; c; d] -> x = b \/ x = d -> y ∉ [a; c; x].
Proof. rewrite !elem_of_cons. intros H [->| ->]; naive_solver. Qed.

Lemma pick_ne {A} (a b c d : A) : NoDup [a; b; c; d] -> c <> a.
Proof. rewrite !NoDup_cons, !elem_of_cons. naive_solver. Qed.

(** Transactions of which [early] and [late] spend only outputs of [payment]; both
    spend the output [op]. *)
Record spends_twice (h : Z) (cb payment early late : MsgTx) (op : OutPoint) : Prop := {
  sp_ids : NoDup (map TxHash [cb; early; payment; late]);
  sp_coinbase : IsCoinBaseTx cb = true;
  sp_plain : Forall (fun tx => tx_sane tx /\ IsCoinBaseTx tx = false) [early; payment; late];
  sp_outside : forall o, o ∈ prevOuts payment -> Hash o ∉ map TxHash [cb; early; payment; late];
  sp_outputs : forall o, o ∈ prevOuts early ++ prevOuts late -> o ∈ (newCoins h payment).*1;
  sp_early : op ∈ prevOuts early;
  sp_late : op ∈ prevOuts late }.

Section twice.
Context `{codec : KeyCodec} (params : Params) (db : ChainDB) (s : utxoCache) (view : UtxoViewpoint) (h : Z) (header : BlockHeader).
Context (cb payment early late : MsgTx) (op : OutPoint) (Htwice : spends_twice h cb payment early late op).

#[local] Abbreviation Hids := (sp_ids _ _ _ _ _ _ Htwice).
#[local] Abbreviation Hpay := (sp_outside _ _ _ _ _ _ Htwice).
#[local] Abbreviation Hspend := (sp_outputs _ _ _ _ _ _ Htwice).
#[local] Abbreviation Hcb := (sp_coinbase _ _ _ _ _ _ Htwice).

Definition needs : list OutPoint := filter (fun o => entries view !! o = None) (prevOuts payment).

Lemma created_hash o : o ∈ (newCoins h payment).*1 -> Hash o = TxHash payment.
Proof. intros (j & _ & ->)%newCoinsFrom_index. done. Qed.

Lemma ids_after x : x = early \/ x = late -> NoDup (map TxHash [cb; payment; x]).
Proof using Htwice.
  intros Hx. eapply pick_NoDup; [exact Hids|]. destruct Hx as [->| ->]; auto.
Qed.

Lemma Hspend_hash x o : x = early \/ x = late -> o ∈ prevOuts x -> Hash o = TxHash payment.
Proof using Htwice. intros Hx Ho. apply created_hash, Hspend, elem_of_app. destruct Hx as [->| ->]; auto. Qed.

(** The honest blocks and the double spend are loaded to the same view. *)
Lemma load_after x :
  x = early \/ x = late -> prevOuts x <> [] ->
  findInputsToFetch view (mkBlock h header [cb; payment; x]) = (AddTxOuts view payment h, needs).
Proof using Htwice.
  intros Hx Hne. pose proof (ids_after x Hx) as Hnd. unfold findInputsToFetch. cbn [Transactions drop length seq zip_with foldl fst snd].
  rewrite inputsToFetch_outside.
  - rewrite (inputsToFetch_inFlight _ 1 1 payment); [done|lia|done|done|].
    intros o Ho. rewrite (Hspend_hash x o Hx Ho). by apply (txInFlight_at (mkBlock h header [cb; payment; x]) 1 payment).
  - intros o Ho. apply txInFlight_none. eapply pick_elem; [exact (Hpay o Ho)|]. destruct Hx as [->| ->]; auto.
Qed.

Lemma load_twice :
  (forall o, o ∈ prevOuts early -> is_Some (entries view !! o)) -> prevOuts late <> [] ->
  findInputsToFetch view (mkBlock h header [cb; early; payment; late]) = (AddTxOuts view payment h, needs).
Proof using Htwice.
  intros Hknown Hne. set (B := mkBlock h header [cb; early; payment; late]).
  assert (Hat : txInFlight (Transactions B) !! TxHash payment = Some 2%nat) by (exact (txInFlight_at B 2 payment Hids eq_refl)).
  unfold findInputsToFetch. cbn [Transactions B drop length seq zip_with foldl fst snd]. fold B.
  rewrite (inputsToFetch_known B 0 2); [|lia|].
  - rewrite inputsToFetch_outside; [|intros o Ho; by apply txInFlight_none, Hpay].
    rewrite (inputsToFetch_inFlight B 2 2 payment); [done|lia|done|done|].
    intros o Ho. by rewrite (Hspend_hash late o (or_intror eq_refl) Ho).
  - intros o Ho. rewrite (Hspend_hash early o (or_introl eq_refl) Ho). auto.
Qed.

(** A transaction that can follow [payment] can also come before it. *)
Lemma order_ignored view2 fees1 fees2 v1 v2 :
  (forall o, o ∈ (newCoins h payment).*1 -> entries view2 !! o = entries (AddTxOuts view payment h) !! o) ->
  foldM (connectInputs h params) (0, view2) [cb; payment; early] = Ok (fees1, v1) ->
  foldM (connectInputs h params) (0, view2) [cb; payment; late] = Ok (fees2, v2) ->
  exists st, foldM (connectInputs h params) (0, view2) [cb; early; payment; late] = Ok st.
Proof using Htwice.
  intros Hnew H1 H2.
  assert (He : forall o, o ∈ prevOuts early -> o ∈ (newCoins h payment).*1) by (intros o Ho; apply Hspend, elem_of_app; by left).
  assert (Hl : forall o, o ∈ prevOuts late -> o ∈ (newCoins h payment).*1) by (intros o Ho; apply Hspend, elem_of_app; by right).
  assert (Hpc : TxHash payment <> TxHash cb) by (eapply pick_ne; exact Hids).
  assert (Hp1 : forall o, o ∈ prevOuts payment -> o ∉ prevOuts early).
  { intros o Ho Ho'. apply (Hpay o Ho). rewrite (created_hash o) by auto. cbn [map]. rewrite !elem_of_cons. auto. }
  assert (Hp2 : forall o, o ∈ prevOuts payment -> Hash o <> TxHash early).
  { intros o Ho Hh. apply (Hpay o Ho). rewrite Hh. cbn [map]. rewrite !elem_of_cons. auto. }
  pose proof (sp_plain _ _ _ _ _ _ Htwice) as Hplain. rewrite !Forall_cons in Hplain. destruct Hplain as ([Hse Hce] & [Hsp Hcp] & [Hsl Hcl] & _).
  assert (Hcoin : connectInputs h params (0, view2) cb = Ok (0, AddTxOuts view2 cb h)).
  { unfold connectInputs, CheckTransactionInputs, connectTransaction. rewrite Hcb. reflexivity. }
  cbn [foldM] in H1, H2 |- *. rewrite Hcoin in H1, H2 |- *. set (vc := AddTxOuts view2 cb h) in *.
  destruct (connectInputs h params (0, vc) payment) as [[f0 vp]|] eqn:E0; [|done].
  pose proof E0 as (fee0 & st0 & Hc0 & _)%connectInputs_ok.
  destruct (connectInputs h params (f0, vp) early) as [[f1 ve]|] eqn:E1; [|done].
  apply connectInputs_ok in E1 as (fee1 & st1 & Hc1 & _).
  destruct (connectInputs h params (f0, vp) late) as [[f2 vl]|] eqn:E2; [|done].
  apply connectInputs_ok in E2 as (fee2 & st2 & Hc2 & _). clear H1 H2.
  destruct (connectInputs_entries h params 0 vc vc payment fee0 Hsp Hcp Hc0) as (vp' & E0' & Hf0 & _ & Hn0); [done|unfold MaxSatoshi; lia|].
  rewrite E0 in E0'. injection E0' as -> <-.
  destruct (connectInputs_entries h params 0 vc vp early fee1 Hse Hce Hc1) as (ve' & -> & Hf1 & Hk1 & _); [|unfold MaxSatoshi; lia|].
  { intros o Ho. rewrite (Hn0 o view) by auto. rewrite <- Hnew by auto. apply AddTxOuts_other.
    rewrite (created_hash o) by auto. auto. }
  destruct (connectInputs_entries h params (0 + fee1) ve' vc payment fee0 Hsp Hcp Hc0) as (vp2 & -> & _ & _ & Hn2); [|lia|].
  { intros o Ho. apply Hk1; auto. }
  destruct (connectInputs_entries h params (0 + fee1 + fee0) vp2 vp late fee2 Hsl Hcl Hc2) as (vl' & -> & _); [|lia|by eexists].
  intros o Ho. by rewrite (Hn2 o view), (Hn0 o view) by auto.
Qed.

Lemma ledger_refuses u : u !! op = None -> applyTxs h u [cb; early; payment; late] = None.
Proof using Htwice.
  intros Hu. cbn [applyTxs]. destruct (applyTx h u cb) as [[u1 cs1]|] eqn:E1; [|done]. cbn [mbind option_bind].
  destruct (applyTx h u1 early) as [[u2 cs2]|] eqn:E2; [|done]. exfalso. unfold applyTx in E1, E2.
  rewrite Hcb in E1. destruct (Forall_inv (sp_plain _ _ _ _ _ _ Htwice)) as [_ Hce]. rewrite Hce in E2. cbn [mbind option_bind] in E1.
  destruct (addCoins u (newCoins h cb)) as [u1'|] eqn:Ea; [|done]. cbn [mbind option_bind] in E1. injection E1 as -> _.
  destruct (spendCoins u1 (prevOuts early)) as [[u3 cs3]|] eqn:Es; [|done].
  apply spendCoins_spec in Es as [H2 _]. pose proof (sp_early _ _ _ _ _ _ Htwice) as Hop.
  pose proof Hop as [k Hk]%list_elem_of_lookup. destruct (Forall2_lookup_l _ _ _ _ _ H2 Hk) as (c & _ & Hc).
  destruct (addCoins_origin _ _ _ _ _ Ea Hc) as [H|H]; [by rewrite Hu in H|].
  apply (pick_ne _ _ _ _ Hids). apply newCoinsFrom_hash in H. rewrite <- H. symmetry. apply (Hspend_hash early); [by left|exact Hop].
Qed.

Lemma checkInputs_twice fees1 v1 fees2 v2 :
  (forall o, o ∈ prevOuts early -> is_Some (entries view !! o)) ->
  checkInputs params db s view (mkBlock h header [cb; payment; early]) = Ok (fees1, v1) ->
  checkInputs params db s view (mkBlock h header [cb; payment; late]) = Ok (fees2, v2) ->
  exists st, checkInputs params db s view (mkBlock h header [cb; early; payment; late]) = Ok st.
Proof using Htwice.
  intros Hknown. pose proof (sp_early _ _ _ _ _ _ Htwice) as Hoe. pose proof (sp_late _ _ _ _ _ _ Htwice) as Hol.
  assert (Hne : prevOuts early <> []) by (intros E; rewrite E in Hoe; by apply not_elem_of_nil in Hoe).
  assert (Hnl : prevOuts late <> []) by (intros E; rewrite E in Hol; by apply not_elem_of_nil in Hol).
  unfold checkInputs, fetchInputUtxosBut. rewrite (load_after early), (load_after late), load_twice by auto. cbn [Height Transactions].
  destruct (fetchUtxosFromCache _ _ _ _) as [[view2 s2]|] eqn:Ef; [|done]. cbn [liftIO mbind result_bind].
  apply order_ignored. intros o Ho. apply (fetchUtxosFromCache_other _ _ _ _ _ _ _ Ef).
  intros [_ [_ Hin]%list_elem_of_filter]%list_elem_of_filter. apply (Hpay o Hin). rewrite (created_hash o Ho). cbn [map].
  rewrite !elem_of_cons. auto.
Qed.

(** C6: during a reorganisation a block can spend an output twice, once before it
    exists, as far as inputs and fees are checked. Block A, which has the transaction
    [payment], was detached from the view. Two other transactions, [early] and [late],
    spend only outputs of [payment], and one output is spent by both; all pass the
    sanity checks, have ids of their own, and [payment] takes its inputs from other
    blocks. At a
    height from that of BIP 34 on, let the loading of the inputs and the loop over
    inputs and fees accept a block of a coinbase, [payment] and [early], and one of
    the coinbase, [payment] and [late]. Then they accept the block of the coinbase,
    [early], [payment] and [late] as well, although no ledger without that output
    applies it: [early] spends an output that is made after it, and [late] spends the
    output again. *)
Theorem reorg_checks_accept_double_spend dbFetch view0 blockA stxos used fees1 v1 fees2 v2 :
  disconnectTransactions dbFetch view0 blockA stxos = Ok (view, used) -> payment ∈ Transactions blockA ->
  checkInputs params db s view (mkBlock h header [cb; payment; early]) = Ok (fees1, v1) ->
  checkInputs params db s view (mkBlock h header [cb; payment; late]) = Ok (fees2, v2) ->
  (exists fees v, checkInputs params db s view (mkBlock h header [cb; early; payment; late]) = Ok (fees, v)) /\
  forall u, u !! op = None -> applyTxs h u [cb; early; payment; late] = None.
Proof using Htwice.
  intros Hd HA H1 H2. split; [|exact ledger_refuses].
  destruct (checkInputs_twice fees1 v1 fees2 v2) as [[fees v] H]; [|done|done|by exists fees, v].
  intros o Ho. eapply disconnectTransactions_keeps; [exact Hd|exact HA|]. apply Hspend, elem_of_app. by left.
Qed.
End twice.

#[local] Existing Instances bitCodec bitCodec_recovers truncatedHash truncatedHash_laws noPicks noIndex.

(** ** A reorganisation on the test network

    The tip is block A with the transaction [payment]. Block B, with more work,
    spends the output of [payment] twice: once before it, once after it. *)

Definition payment : MsgTx := anyoneSpend.
Definition paymentOut : OutPoint := Eval vm_compute in txOutPoint (TxHash payment) 0.
Definition spendEarly : MsgTx := mkMsgTx 2 [mkTxIn paymentOut [] [] (2^32 - 1)] [mkTxOut 900000 [OP_1; OP_1]] 0.
Definition spendLate : MsgTx := mkMsgTx 2 [mkTxIn paymentOut [] [] (2^32 - 1)] [mkTxOut 900000 [OP_1; OP_1; OP_1]] 0.

Definition txsA : list MsgTx := [blockCoinbase 5000000000; payment].
Definition txsB : list MsgTx := [blockCoinbase 5000000001; spendEarly; payment; spendLate].
Definition headerA : BlockHeader := Eval vm_compute in
  mkBlockHeader 4 (node_hash (testNode 149)) (default [] (merkleRoot (map TxHash txsA))) (node_timestamp (testNode 150)) 0x207fffff 1.
Definition headerB : BlockHeader := Eval vm_compute in
  mkBlockHeader 4 (node_hash (testNode 149)) (default [] (merkleRoot (map TxHash txsB))) (node_timestamp (testNode 150)) 0x1d00ffff 2.
Definition blockA : Block := mkBlock 150 headerA txsA.
Definition blockB : Block := mkBlock 150 headerB txsB.

(** The nodes [newBlockNode] makes of the headers, with their hashes evaluated. *)
Definition hashA : list Z := Eval vm_compute in BlockHash headerA.
Definition hashB : list Z := Eval vm_compute in BlockHash headerB.
Definition nodeA : blockNode :=
  Node (Some (testNode 149)) (buildAncestor (Some (testNode 149)) 150)
    (mkNodeData hashA (CalcWork 0x207fffff) 150 4 0x207fffff 1 (bh_Timestamp headerA) (bh_MerkleRoot headerA)).
Definition nodeB : blockNode :=
  Node (Some (testNode 149)) (buildAncestor (Some (testNode 149)) 150)
    (mkNodeData hashB (CalcWork 0x1d00ffff) 150 4 0x1d00ffff 2 (bh_Timestamp headerB) (bh_MerkleRoot headerB)).

Lemma nodes_from_headers :
  newBlockNode headerA (Some (testNode 149)) = nodeA /\ newBlockNode headerB (Some (testNode 149)) = nodeB.
Proof.
  assert (HA : BlockHash headerA = hashA) by (vm_compute; reflexivity).
  assert (HB : BlockHash headerB = hashB) by (vm_compute; reflexivity).
  unfold newBlockNode. rewrite HA, HB. split; reflexivity.
Qed.

Definition fetchAB (n : blockNode) : result chain_error Block :=
  if nd_nonce (nodeInfo n) =? 1 then Ok blockA else if nd_nonce (nodeInfo n) =? 2 then Ok blockB
  else Ok (mkBlock (node_height n) (nodeHeader n) []).

#[local] Abbreviation testCheck :=
  (checkConnectBlock (Curve := secp256k1) ObtcTestNetParams [] (fun _ => None) None None (newThresholdCaches 6)).
#[local] Abbreviation connectBest :=
  (connectBestChain (fun _ => []) fetchAB (fun _ => None) ObtcTestNetParams testCheck 0).

(** The chain before block A, which knows both blocks. *)
Definition chainBefore : BlockChain :=
  withNodes
    (withStore (ledgerChain anyoneLedger)
       (mkStore (chainDB (ledgerChain anyoneLedger)) {[ ix_key := node_hash (testNode 149) ++ le_bytes 4 149 ]} tt))
    (AddNode (AddNode (addNode (mkBlockIndex ∅ ∅ ∅) (testNode 149) statusValid) nodeA statusDataStored) nodeB statusDataStored).

Definition afterA : BlockChain * result chain_error bool := connectBest chainBefore nodeA blockA false.

(** The value of the coin at an outpoint, as the chain reports it. *)
Definition coinValue (b : BlockChain) (op : OutPoint) : option Z :=
  match FetchUtxoEntry (chainDB b) (bc_cache b) op with
  | Ok (Some e, _) => stxo_Amount <$> live_entry e
  | _ => None
  end.

Definition describe (b : BlockChain) : option Z * bool * option Z :=
  (node_height <$> viewTip (bc_best b), KnownValid (NodeStatus (bc_nodes b) nodeB),
   coinValue b (txOutPoint (TxHash (blockCoinbase 5000000001)) 0)).

(** What the chain makes of block B: whether it connected A; the result for B; the
    height of the tip; whether B is marked as valid; the coin its coinbase made. *)
Definition outcome :=
  let '(b1, r1) := afterA in
  let '(b2, r2) := connectBest b1 nodeB blockB false in
  (isOk r1, r2, describe b2).

(** What the general theorem says of these blocks, seen from the whole chain. The
    proof of work of the headers is not looked at; every other rule is. Block B passes
    the sanity checks and does not apply to the ledger. When the tip is block A, the
    checks of the reorganisation to B, scripts and sequence locks included, accept it
    and mark it as valid; A is detached, and connecting B to the cache then fails. The
    chain is left at the parent of both blocks, with the coinbase of B among its coins. *)
Lemma reorg_accepts_double_spend :
  checkBlockSanity blockB (PowLimit ObtcTestNetParams) 1800000000 BFNoPoWCheck = Ok tt /\
  applyTxs 150 anyoneLedger (Transactions blockB) = None /\
  outcome = (true, Err (ChainIOError (AssertError "missing input")), (Some 149, true, Some 5000000001)).
Proof. split; [|split]; vm_compute; reflexivity. Qed.

(** Block A detached from a view of its own. *)
Definition detachedA : result view_error (UtxoViewpoint * list SpentTxOut) :=
  disconnectTransactions (fun _ => Ok None) (SetBestHash NewUtxoViewpoint hashA) blockA [anyoneCoin].

#[local] Abbreviation inputsOf view txs :=
  (checkInputs ObtcTestNetParams (chainDB (ledgerChain anyoneLedger)) (newUtxoCache 0) view (mkBlock 150 headerB txs)).

Definition sane (tx : MsgTx) : bool := isOk (CheckTransactionSanity tx) && negb (IsCoinBaseTx tx).

Lemma testnet_spends_twice : spends_twice 150 (blockCoinbase 5000000001) payment spendEarly spendLate paymentOut.
Proof.
  split.
  - apply (bool_decide_unpack _). vm_compute. exact I.
  - reflexivity.
  - assert (H : forallb sane [spendEarly; payment; spendLate] = true) by (vm_compute; reflexivity).
    apply Forall_forall. intros tx Htx. rewrite forallb_forall in H.
    specialize (H tx (proj1 (list_elem_of_In _ _) Htx)). apply andb_true_iff in H as [H1 H2].
    apply isOk_inv in H1 as [[] H1]. split; [by apply CheckTransactionSanity_spec|by apply negb_true_iff].
  - intros o [->|H]%elem_of_cons; [|by apply not_elem_of_nil in H]. apply (bool_decide_unpack _). vm_compute. exact I.
  - intros o Ho. assert (H : forallb (fun o => bool_decide (o ∈ (newCoins 150 payment).*1)) (prevOuts spendEarly ++ prevOuts spendLate) = true)
      by (vm_compute; reflexivity).
    rewrite forallb_forall in H. apply (bool_decide_unpack _), Is_true_true_2, H. by apply list_elem_of_In.
  - apply (bool_decide_unpack _). vm_compute. exact I.
  - apply (bool_decide_unpack _). vm_compute. exact I.
Qed.

Lemma reorg_checks_accept_double_spend_witness :
  exists view used st, detachedA = Ok (view, used) /\ inputsOf view txsB = Ok st /\ applyTxs 150 anyoneLedger txsB = None.
Proof.
  set (honest x := match detachedA with Ok (view, _) => isOk (inputsOf view [blockCoinbase 5000000001; payment; x]) | Err _ => false end).
  assert (He : honest spendEarly = true) by (vm_compute; reflexivity).
  assert (Hl : honest spendLate = true) by (vm_compute; reflexivity).
  unfold honest in He, Hl. destruct detachedA as [[view used]|e] eqn:Ed; [|discriminate He].
  apply isOk_inv in He as [[f1 v1] He]. apply isOk_inv in Hl as [[f2 v2] Hl].
  destruct (reorg_checks_accept_double_spend ObtcTestNetParams (chainDB (ledgerChain anyoneLedger)) (newUtxoCache 0) view 150 headerB
    (blockCoinbase 5000000001) payment spendEarly spendLate paymentOut testnet_spends_twice
    (fun _ => Ok None) (SetBestHash NewUtxoViewpoint hashA) blockA [anyoneCoin] used f1 v1 f2 v2) as [(fees & v & H) Hu].
  - exact Ed.
  - right. left.
  - exact He.
  - exact Hl.
  - exists view, used, (fees, v). split; [reflexivity|]. split; [exact H|]. apply Hu. vm_compute. reflexivity.
Defined.
