(* ===== verification/Supply.v ===== *)
(** * The money supply

    What the subsidies of all heights sum to, and that the ledger of a chain whose
    blocks were all accepted never holds more: no sequence of accepted blocks
    creates money beyond the schedule of [CalcBlockSubsidy]. The ledger of such a
    chain also satisfies what the REAP theorems ask of a ledger ([ledger_ok] of
    ReapProps.v). *)

From S2P Require Import Prelude ChainParams Sha256 Wire Encode Script ScriptNum Standard SigHash Signature Taproot Engine Opcodes EngineExec EngineSpec EngineInv EngineCache EngineRun Block Compress Bucket IndexDB Ledger UtxoView WorkMath ChainIO ChainStore BlockNode Difficulty Threshold ReapAgree ReapProps UtxoCache ChainView Text ReapRules Merkle ChainState BlockSanity BlockContext CheckConnect ChainInv ChainVerify ConnectProps SpendProps.

(** ** The schedule *)

(** The subsidies of heights 1 to [n]. *)
Fixpoint subsidies (chainParams : Params) (n : nat) : Z :=
  match n with
  | O => 0
  | S m => subsidies chainParams m + CalcBlockSubsidy (Z.of_nat n) chainParams
  end.

Definition eraSubsidy (k : nat) : Z := if (64 <=? k)%nat then 0 else Z.shiftr baseSubsidy (Z.of_nat k).

(** One subsidy of each era from [k] on. *)
Definition erasFrom (k : nat) : Z := sumZ (map eraSubsidy (seq k (64 - k))).

Lemma eraSubsidy_nonneg k : 0 <= eraSubsidy k.
Proof. unfold eraSubsidy. case_match; [done|]. by apply Z.shiftr_nonneg. Qed.

Lemma erasFrom_nonneg k : 0 <= erasFrom k.
Proof. unfold erasFrom. apply sumZ_map_nonneg, Forall_forall. intros j _. apply eraSubsidy_nonneg. Qed.

Lemma erasFrom_S k : erasFrom k = eraSubsidy k + erasFrom (S k).
Proof.
  unfold erasFrom. destruct (decide (k < 64)%nat) as [Hk|Hk].
  - replace (64 - k)%nat with (S (64 - S k)) by lia. cbn [seq map]. by rewrite sumZ_cons.
  - replace (64 - k)%nat with 0%nat by lia. replace (64 - S k)%nat with 0%nat by lia. unfold eraSubsidy.
    by rewrite (proj2 (Nat.leb_le 64 k)) by lia.
Qed.

Lemma CalcBlockSubsidy_era chainParams h :
  0 < SubsidyReductionInterval chainParams -> 0 <= h < 2^64 ->
  CalcBlockSubsidy h chainParams = eraSubsidy (Z.to_nat (h / SubsidyReductionInterval chainParams)).
Proof.
  intros Hi Hh. unfold CalcBlockSubsidy, eraSubsidy. set (i := SubsidyReductionInterval chainParams) in *.
  rewrite (proj2 (Z.eqb_neq i 0)), Z.quot_div_nonneg by lia.
  assert (0 <= h / i <= h). { split; [apply Z.div_pos; lia|]. apply Z.div_le_upper_bound; nia. }
  unfold u64. rewrite Z.mod_small by lia. rewrite Z2Nat.id by lia.
  destruct (Z.leb_spec 64 (h / i)); destruct (Nat.leb_spec 64 (Z.to_nat (h / i))); [done|lia|lia|done].
Qed.

(** What is left to mine before height [h]. *)
Definition leftAt (i h : Z) : Z :=
  (i - h mod i) * eraSubsidy (Z.to_nat (h / i)) + i * erasFrom (S (Z.to_nat (h / i))).

Lemma leftAt_nonneg i h : 0 < i -> 0 <= leftAt i h.
Proof.
  intros Hi. unfold leftAt. pose proof (Z.mod_pos_bound h i Hi). pose proof (eraSubsidy_nonneg (Z.to_nat (h / i))).
  pose proof (erasFrom_nonneg (S (Z.to_nat (h / i)))). nia.
Qed.

Lemma leftAt_step i h : 0 < i -> 0 <= h -> leftAt i (h + 1) = leftAt i h - eraSubsidy (Z.to_nat (h / i)).
Proof.
  intros Hi Hh. unfold leftAt. pose proof (Z.mod_pos_bound h i Hi) as Hm. pose proof (Z.div_mod h i ltac:(lia)) as Hd.
  pose proof (Z.div_pos h i Hh Hi) as Hp. destruct (decide (h mod i + 1 < i)) as [Hlt|Hge].
  - assert (Hq : (h + 1) / i = h / i) by (symmetry; apply (Z.div_unique _ _ _ (h mod i + 1)); lia).
    assert (Hr : (h + 1) mod i = h mod i + 1) by (symmetry; apply (Z.mod_unique _ _ (h / i)); lia).
    rewrite Hq, Hr. lia.
  - assert (Hq : (h + 1) / i = h / i + 1) by (symmetry; apply (Z.div_unique _ _ _ 0); lia).
    assert (Hr : (h + 1) mod i = 0) by (symmetry; apply (Z.mod_unique _ _ (h / i + 1)); lia).
    rewrite Hq, Hr, (erasFrom_S (S (Z.to_nat (h / i)))). replace (Z.to_nat (h / i + 1)) with (S (Z.to_nat (h / i))) by lia.
    replace (i - h mod i) with 1 by lia. lia.
Qed.

(** The sum of the subsidies is exact: mined and left add up. *)
Lemma subsidies_left chainParams n :
  0 < SubsidyReductionInterval chainParams -> Z.of_nat n < 2^63 ->
  subsidies chainParams n + leftAt (SubsidyReductionInterval chainParams) (Z.of_nat n + 1)
  = leftAt (SubsidyReductionInterval chainParams) 1.
Proof.
  intros Hi. set (i := SubsidyReductionInterval chainParams). induction n as [|n IH]; intros Hn; [reflexivity|].
  cbn [subsidies]. rewrite CalcBlockSubsidy_era by (fold i; lia). fold i.
  replace (Z.of_nat (S n)) with (Z.of_nat n + 1) by lia.
  rewrite (leftAt_step i (Z.of_nat n + 1)) by (fold i in Hi; lia). specialize (IH ltac:(lia)). lia.
Qed.

(** All the subsidies of the schedule of the main network. *)
Definition scheduledSupply : Z := 2099999997690000.

Lemma subsidies_bound chainParams n :
  SubsidyReductionInterval chainParams = 210000 -> Z.of_nat n < 2^63 ->
  subsidies chainParams n <= scheduledSupply - baseSubsidy.
Proof.
  intros Hi Hn. pose proof (subsidies_left chainParams n ltac:(lia) Hn) as H. rewrite Hi in H.
  pose proof (leftAt_nonneg 210000 (Z.of_nat n + 1) ltac:(lia)).
  replace (leftAt 210000 1) with (scheduledSupply - baseSubsidy) in H by (vm_compute; reflexivity). lia.
Qed.

(** ** The coins of a chain *)

Lemma seenCoins_Forall (P : OutPoint -> SpentTxOut -> Prop) h w txs :
  map_Forall P w -> (forall tx op c, tx ∈ txs -> (op, c) ∈ newCoins h tx -> P op c) -> map_Forall P (seenCoins h w txs).
Proof.
  revert w; induction txs as [|tx txs IH]; intros w Hw Hn; [done|].
  change (seenCoins h w (tx :: txs))
    with (seenCoins h (foldl (fun u oc => <[oc.1 := oc.2]> u) w (newCoins h tx)) txs).
  apply IH; [|intros tx' op c Htx'; apply Hn; by right].
  assert (Ht : forall op c, (op, c) ∈ newCoins h tx -> P op c) by (intros op c; apply Hn; left). clear -Hw Ht.
  revert w Hw. induction (newCoins h tx) as [|[o d] l IH]; intros w Hw; [done|]. cbn [foldl fst snd]. apply IH.
  - intros op c H. apply Ht. by right.
  - apply map_Forall_insert_2; [apply Ht; left|done].
Qed.

Lemma applyTxs_Forall (P : OutPoint -> SpentTxOut -> Prop) h u txs u' cs :
  map_Forall P u -> (forall tx op c, tx ∈ txs -> (op, c) ∈ newCoins h tx -> P op c) ->
  applyTxs h u txs = Some (u', cs) -> map_Forall P u'.
Proof.
  intros Hu Hn Happ op c Hc. apply (seenCoins_Forall P h u txs Hu Hn). by apply (applyTxs_seen h u u txs u' cs).
Qed.

Lemma newCoinsFrom_coin hash h cb i outs op c :
  (op, c) ∈ newCoinsFrom hash h cb i outs -> exists o, o ∈ outs /\ c = mkSpentTxOut (Value o) (PkScript o) h cb.
Proof.
  revert i; induction outs as [|o outs IH]; intros i; cbn [newCoinsFrom]; [intros H; by apply not_elem_of_nil in H|].
  intros [H|H]%elem_of_app.
  - destruct (IsUnspendable (PkScript o)); [by apply not_elem_of_nil in H|]. apply list_elem_of_singleton in H.
    injection H as _ ->. exists o. split; [left|done].
  - destruct (IH _ H) as (o' & Ho' & ->). exists o'. split; [by right|done].
Qed.

(** What every coin of a chain of accepted blocks of the given height is like. *)
Definition coin_ok (height : Z) (op : OutPoint) (c : SpentTxOut) : Prop :=
  is_value (stxo_Amount c) /\ 1 <= stxo_Height c <= height /\ Index op <> 2^32 - 1.

Lemma newCoins_ok h txs tx op c :
  Forall tx_sane txs -> 1 <= h -> tx ∈ txs -> (op, c) ∈ newCoins h tx -> coin_ok h op c.
Proof.
  intros Hs Hh Htx Hc. assert (Hcr : createdBy h txs op).
  { exists tx. split; [done|]. apply list_elem_of_fmap. by exists (op, c). }
  pose proof (created_index h txs op Hs Hcr) as Hi. rewrite Forall_forall in Hs. destruct (Hs tx Htx) as [_ _ _ Hv Ht _ _ _].
  apply newCoinsFrom_coin in Hc as (o & Ho & ->). split; [|split; [cbn [stxo_Height]; lia|done]]. cbn [stxo_Amount].
  apply list_elem_of_lookup in Ho as [k Hk]. pose proof (Forall_lookup_1 _ _ _ _ Hv Hk) as H0. split; [exact H0|].
  assert (Hle : Value o <= sumValues (TxOuts tx)); [|lia]. clear -Hv Hk. revert k Hk.
  induction Hv as [|x l Hx Hl IH]; intros k Hk; [by rewrite lookup_nil in Hk|].
  change (sumValues (x :: l)) with (Value x + sumValues l). pose proof (sumValues_nonneg l Hl). destruct k as [|k].
  - injection Hk as ->. lia.
  - specialize (IH k Hk). lia.
Qed.

(** ** Chains of accepted blocks *)

Section mining.
Context `{Curve : Secp256k1} `{Hash160 : Ripemd160} `{Picks : MapPick}.
Context {codec : KeyCodec} {codec_ok : RecoversKeys} {ix : Indexer}.
Context (chainParams : Params) (checkpoints : list Checkpoint) (prefixSource : ix_state -> option ReapPrefixSource).

(** The ledger at a node whose blocks were all accepted, each by a chain whose
    cache stood for the ledger before it, whatever its caches of signatures, hashes
    and deployments. As in [connects], each block is sane and at a height at which
    coinbases carry the height (BIP 34), and none of its transactions has the id of
    a transaction that left a coin in the ledger before the block. *)
Inductive mined : blockNode -> utxo_set -> Prop :=
| mined_genesis n : nodeParent n = None -> node_height n = 0 -> mined n ∅
| mined_block sigCache hashCache caches b p n block base u powLimit adjustedTime flags s view' u' cs :
    mined p u -> nodeParent n = Some p -> node_height n = node_height p + 1 -> node_height n < 2^31 ->
    new_ids u (Transactions block) ->
    connects chainParams checkpoints prefixSource sigCache hashCache caches
      b (SetBestHash NewUtxoViewpoint (node_hash p)) n block base u u powLimit adjustedTime flags s view' ->
    applyTxs (node_height n) u (Transactions block) = Some (u', cs) -> mined n u'.

Lemma mined_supply n u :
  mined n u -> 0 <= node_height n < 2^31 /\ map_Forall (coin_ok (node_height n)) u /\
  supply u <= subsidies chainParams (Z.to_nat (node_height n)).
Proof using codec_ok.
  induction 1 as [n Hp Hh|sc hc ca b p n block base u pl at' fl s view' u' cs _ IH Hp Hh Hb _ Hc Happ].
  { rewrite Hh. split; [lia|]. split; [apply map_Forall_empty|]. done. }
  destruct IH as (Hhp & Hco & Hsu). split; [lia|]. destruct (connects_applies _ _ _ _ _ _ _ _ _ _ _ _ _ _ _ _ _ _ Hc)
    as (u1 & cs1 & Happ1 & _ & Hle). assert (u1 = u') as -> by congruence. split.
  - refine (applyTxs_Forall (coin_ok (node_height n)) _ _ _ _ _ _ _ Happ).
    { apply (map_Forall_impl _ _ _ Hco). intros op c (H1 & H2 & H3). split; [done|]. split; [lia|done]. }
    intros tx op c. apply newCoins_ok; [|lia].
    exact (bsane_txs _ _ _ _ (cn_sane _ _ _ _ _ _ _ _ _ _ _ _ _ _ _ _ _ _ Hc)).
  - rewrite Hh in *. replace (Z.to_nat (node_height p + 1)) with (S (Z.to_nat (node_height p))) by lia. cbn [subsidies].
    replace (Z.of_nat (S (Z.to_nat (node_height p)))) with (node_height p + 1) by lia. lia.
Qed.

(** C2: the money supply is bounded by its schedule. Take a network with the halving
    interval of the main network, and a chain of any length of sane blocks that
    [checkConnectBlock] accepted, where BIP 34 applies and no transaction has the id
    of one that left a coin in the ledger before its block. The coins
    of the chain are never worth more than the subsidies of its heights,
    which add up to less than 2099999997690000 satoshi, less than the limit of 21
    million coins that the code checks amounts against; and every coin has an amount
    within that limit, a height between 1 and the height of the chain and an index
    an output can have. So the ledger is one the REAP rules are proved for. *)
Theorem supply_follows_schedule n u :
  SubsidyReductionInterval chainParams = 210000 -> mined n u ->
  supply u <= subsidies chainParams (Z.to_nat (node_height n)) /\
  subsidies chainParams (Z.to_nat (node_height n)) < scheduledSupply /\ scheduledSupply < MaxSatoshi /\
  map_Forall (fun op c => 0 <= stxo_Amount c <= MaxSatoshi /\ 1 <= stxo_Height c <= node_height n /\ Index op <> 2^32 - 1) u /\
  ledger_ok u /\ indices_ok u.
Proof using codec_ok.
  intros Hi Hm. destruct (mined_supply n u Hm) as (Hh & Hco & Hsu).
  pose proof (subsidies_bound chainParams (Z.to_nat (node_height n)) Hi ltac:(lia)) as Hb.
  assert (scheduledSupply < MaxSatoshi) by (vm_compute; reflexivity).
  assert (0 < baseSubsidy) by (vm_compute; reflexivity). split; [done|]. split; [lia|]. split; [done|]. split; [exact Hco|]. split.
  - split; [|lia]. apply (map_Forall_impl _ _ _ Hco). intros op c (H1 & H2 & H3). split; [done|]. split; [lia|].
    intros ->. by apply H3.
  - apply (map_Forall_impl _ _ _ Hco). intros op c (_ & _ & H3). exact H3.
Qed.
End mining.

(** ** A chain of one block, for the witness *)

#[local] Existing Instances bitCodec bitCodec_recovers truncatedHash truncatedHash_laws noPicks noIndex.

Definition firstCoinbase : MsgTx :=
  mkMsgTx 1 [mkTxIn nullOutPoint [1; 1] [] (2^32 - 1)] [mkTxOut 5000000000 [OP_1]] 0.
Definition firstHeader : BlockHeader := Eval vm_compute in
  mkBlockHeader 4 (node_hash (testNode 0)) (TxHash firstCoinbase) (node_timestamp (testNode 1)) 0x207fffff 0.
Definition firstBlock : Block := mkBlock 1 firstHeader [firstCoinbase].

Definition emptyChain : BlockChain :=
  mkBlockChain (mkStore (mkChainDB ∅ ∅ ∅ ∅ ∅ ∅) ∅ tt) (mkBlockIndex ∅ ∅ ∅) (viewOf (testNode 0)) (newUtxoCache 0)
    (newBestState (testNode 0) 0 0 1 1 0).

Lemma firstBlock_connects :
  exists s view', connects (Curve := secp256k1) ObtcTestNetParams [] (fun _ => None) None None (newThresholdCaches 6)
    emptyChain (SetBestHash NewUtxoViewpoint (node_hash (testNode 0))) (testNode 1) firstBlock ∅ ∅ ∅
    (PowLimit ObtcTestNetParams) 1800000000 BFNoPoWCheck s view'.
Proof.
  assert (H : isOk (checkConnectBlock (Curve := secp256k1) ObtcTestNetParams [] (fun _ => None) None None (newThresholdCaches 6)
    emptyChain (SetBestHash NewUtxoViewpoint (node_hash (testNode 0))) (testNode 1) firstBlock).2 = true) by (vm_compute; reflexivity).
  destruct (checkConnectBlock _ _ _ _ _ _ _ _ _ _) as [s r] eqn:E in H. apply isOk_inv in H as [view' Hr].
  cbn [snd] in Hr. subst r. exists s, view'. split.
  - apply stored_empty.
  - apply standsFor_new, map_Forall_empty.
  - apply shows_new.
  - intros op tx _ _. apply lookup_empty.
  - intros op c tx Hn. by rewrite lookup_empty in Hn.
  - apply checkBlockSanity_spec. vm_compute. reflexivity.
  - constructor; [|constructor]. constructor; [|constructor]. split; [reflexivity|by vm_compute].
  - reflexivity.
  - vm_compute. discriminate.
  - exact E.
Qed.

Lemma supply_follows_schedule_witness :
  exists u, mined (Curve := secp256k1) ObtcTestNetParams [] (fun _ => None) (testNode 1) u /\ supply u <= 5000000000.
Proof.
  destruct firstBlock_connects as (s & view' & Hc).
  destruct (connects_applies _ _ _ _ _ _ _ _ _ _ _ _ _ _ _ _ _ _ Hc) as (u' & cs & Happ & _).
  assert (Hm : mined (Curve := secp256k1) ObtcTestNetParams [] (fun _ => None) (testNode 1) u').
  { refine (mined_block _ _ _ None None (newThresholdCaches 6) emptyChain (testNode 0) (testNode 1) firstBlock ∅ ∅ _ _ _ s view' u' cs
      _ eq_refl eq_refl eq_refl _ Hc Happ); [apply mined_genesis; reflexivity|]. intros op c tx Hn. by rewrite lookup_empty in Hn. }
  exists u'. split; [exact Hm|].
  destruct (supply_follows_schedule ObtcTestNetParams [] (fun _ => None) (testNode 1) u' eq_refl Hm) as (Hs & _).
  replace (subsidies ObtcTestNetParams (Z.to_nat (node_height (testNode 1)))) with 5000000000 in Hs by (vm_compute; reflexivity).
  exact Hs.
Defined.
